(* ===== verification/_CoqProject ===== *)
-Q . S2P
Prelude.v
Text.v
RateLimit.v
Db.v
Api.v
Permissions.v
Rbac.v
Authorize.v
Membership.v
Accounts.v
Teams.v
Roles.v
RbacRefinement.v
TeamServers.v
TeamApplications.v
DeviceKeys.v
Sample.v
Sessions.v
TwoFactor.v
Auth.v
Ai.v
Access.v
Journal.v
Offboarding.v
AppAccess.v
AccessList.v
Shell.v
Pairing.v
Agent.v
Sandbox.v
Validators.v
Ufw.v
Firewall.v
FirewallSync.v
DesiredRules.v
Sudoers.v
MemberAccount.v
TeamAccess.v
Mesh.v
Dns.v
Network.v
NetworkFlows.v
Cron.v
Docker.v
DockerHost.v
SampleDocker.v
Isolation.v
Containers.v
ContainerText.v
Desktop.v
AppLinks.v
Sanitizer.v
Redaction.v
Schedules.v
ScheduleText.v
ScheduleRuns.v
ScheduleSync.v
Archive.v
Backups.v
Retention.v
FileTree.v
ArchiveTree.v
Posix.v
MemoryFiles.v
Restore.v
LocalFiles.v
LocalJail.v
LocalTree.v
UrlFetch.v
SftpFiles.v
SftpJail.v
AppFiles.v
FileEdits.v
Mysql.v
Databases.v
DatabaseSql.v
DatabaseServer.v
DatabaseLife.v
Systemd.v
SystemdUnits.v
