(* ===== verification/Prelude.v ===== *)
(** * VibeSSH: a verification development

    VibeSSH manages Linux servers ("Nodes") for teams.  It has three programs:

    - the backend ([apps/backend/src]), an HTTP API over PostgreSQL: accounts,
      sessions, two-factor, teams, roles, shared servers and applications, an
      audit log, and the revocations a Node still owes;
    - the Agent ([apps/agent/src]), a small service on a Node that a desktop
      pairs with and talks to over TLS ([crates/protocol/src]);
    - the desktop ([apps/desktop/src-tauri/src]), which reaches Nodes over SSH
      and drives their tools: ufw, iptables, sudo, useradd, WireGuard,
      [/etc/hosts], docker, systemd and cron.

    The backend decides who may do what; the desktop reads that decision
    ([AccessList.access_list_is_exact]) and turns it into accounts, keys and
    sudo rules on the Nodes ([Sudoers], [TeamAccess]); a removed member leaves a
    revocation in the backend until a desktop reports it done ([Offboarding]).
    The desktop's own store says which applications are connected and what runs
    when; it turns that into Docker networks ([AppLinks]) and cron files
    ([ScheduleSync]).  It reads and writes the files of an application through
    one interface, on this machine and on a Node ([Archive.FileProvider]), makes
    backups over it ([Restore]), and makes databases for applications through
    the client of a database server ([DatabaseLife]).

    ** How the code is read

    Text is a list of Unicode scalar values ([Text]); a byte is a [Z] below
    256; a machine integer is a [Z] with its bounds and its wrapping written
    out where the code can reach them.  [Result] and [?] are [result] and
    [rbind] below.  Small monads carry the effects:

    - a backend handler is an [Api.M]: it threads the database, the rate
      limiter and an oracle of what the outside answers (clock, random
      identifiers and secrets, whether each statement reaches the database).
      [wp] is its weakest precondition.  [Db] holds the tables of the
      migrations with their keys, foreign keys and cascades, one function per
      SQL statement; a transaction whose body fails leaves the tables alone.
      A run of a handler is serial: nothing comes between its statements.  The
      database runs at READ COMMITTED, where another request can, so a check and
      the write that relies on it are split, and other requests run between the
      two, where it matters: the exchange of a refresh token
      ([Sessions.session_step]), turning two-factor on
      ([Auth.double_enable_disarms]) and a question to the AI provider
      ([Ai.chat_begin], [Ai.chat_end]).
    - a command on one Node is a [Firewall.F]: the Node is whatever runs
      commands (class [Connection]); [hoare] speaks of every end of a run.
    - [TeamAccess] adds a log of the commands sent and answers received.
    - [Network] runs over many Nodes (class [Fleet]) and the ledger of members,
      with a log no operation reads.
    - a service over the desktop's store and the Nodes is a [Desktop.D]: any
      statement may fail, and so may every connection (class [Desk]); [dspec]
      speaks of every end.
    - a provider of files on this machine is a [Posix.IO] over a file system with
      links; one on a Node is a [SftpFiles.Remote] over the requests of a session.

    Every command, statement and connection may fail, and an answer may be
    lost after the command ran; theorems about a flow speak of all these ends.

    Code outside the repository is a class of what is documented of it, an
    argument of the definitions that use it: [UnicodeCase], [PasswordHashing]
    (Argon2), [Base64], [Digests] (SHA-256), [Jwt], [HmacSha1], [Aes256Gcm],
    [CredentialJson] and [WireJson] (serde), [Connection], [Services] and
    [Fleet] (SSH), [UfwHost] (ufw), [FloatText] (printing a float),
    [LocalMachine] and [DockerHost] (processes of this machine, Docker),
    [NodeText] (the uuid and chrono crates), [NodeSessions] (SSH sessions by
    server), [RunnerHost] (what the runner script calls), [CronHost] (the files
    of /etc/cron.d), [UnicodeKinds] (Unicode's kinds of characters), [ZipCrate]
    with [ZipLaws] (the zip crate), [UrlCrate] and [HttpClient] (url, reqwest),
    [SftpSession] with [Obeys] (an SFTP session), [Keyring] (the credential store),
    [DatabaseNodes] with [MysqlServers] (Nodes with a database server),
    [CommandInput] with [UnitHost] (commands that are given input, and what those
    about one unit do to the files of a Node).  Each is
    instantiated by a concrete function where a theorem with it is applied.

    Interfaces inside the program are classes too, with the laws the clients are
    proved against: [FileProvider] and [FileEditor] (the trait
    [ApplicationFileProvider]), whose contract is [FileTree] and [EditLaws];
    [LocalTree] and [FileEdits] show that the local provider keeps it.
    [BackupHost] with [QuietHost] and [FileSessions] with [QuietSessions] are the
    services that the backups and the file manager call.

    What the Node's tools do with a text is defined, since the claims are about it: how a POSIX shell splits
    and unquotes a command line ([Shell]), how sudo matches a command against a
    rule with wildcards ([Sudoers]), how ufw prints its rules ([Ufw]), how a
    here-document, a sed range and the resolver read [/etc/hosts] ([Dns]), how Docker reads
    its arguments and an environment file ([DockerHost], [ContainerText]), how
    cron reads a crontab and when an entry is due ([Cron]), how paths are resolved
    through links ([Posix]), how a database server reads statements and its client
    an option file ([Mysql]), how systemd reads a unit file and an environment
    file ([SystemdUnits]).

    ** The files

    Shared:
    - [Prelude]: results, list lemmas, tactics; [Text]: characters, trimming,
      decimal numbers.

    Backend:
    - [RateLimit] ([rate_limit.rs]): at most ten attempts in any window, over
      any sequence of calls.
    - [Db] (migrations and SQL), [Api] ([errors.rs], the monad),
      [Permissions], [Authorize], [Membership] (the checks every team endpoint
      shares), [Accounts] (validators).
    - [Teams], [Roles], [TeamServers], [TeamApplications], [DeviceKeys]: one
      definition per handler of the module of that name.
    - [Rbac]: the abstract access-control system, a step relation, with its
      theorems by rule induction; [RbacRefinement]: each handler is a step of
      it; [Access]: the router, and the consequences for any history of calls
      (no call gives its caller a permission they lacked, the owner keeps every
      permission, system roles stay as they are).
    - [Journal] (each change is logged in its own transaction), [Offboarding]
      (revocations), [AppAccess] and [AccessList] (the lists the desktop acts
      on are exact).
    - [Sessions], [TwoFactor], [Auth] ([refresh_token.rs], [jwt.rs],
      [tokens.rs], [two_factor.rs], [auth.rs], [password_reset.rs]): a refresh
      token opens nothing once it has been exchanged, whatever overlaps with
      what (two exchanges that overlap can both succeed), rotation
      is all or nothing, a session needs every factor, a TOTP code is accepted
      in exactly its windows and once, a new password ends the other sessions.
    - [Sample]: concrete tables and oracles for the witnesses.
    - [Ai] ([ai.rs], the table [ai_usage]): the daily allowance holds over every
      interleaving of questions, answers and midnights.
    Agent:
    - [Pairing] ([pairing/]), [Agent] ([transport/], [capabilities.rs]): a
      pairing code opens once, the network cannot pair, the handshake admits
      only who presents the current credential, and no log follow outlives its
      connection.

    Desktop:
    - [Shell] ([ssh/command.rs]): a quoted value is one argument of the command;
      [Sandbox] ([files/sandbox.rs], [naming.rs]): a sanitized path stays below its
      root; [Validators] (the validators of [ssh/command.rs]
      and the parsers of addresses).
    - [Ufw] ([firewall/ufw.rs]), [Firewall] ([firewall/docker_user.rs],
      [firewall_service.rs]), [FirewallSync] (enabling never locks SSH out, a
      sync keeps what it does not own), [DesiredRules] (which rules a Node
      should have, and that a sync with nothing failing brings it there).
    - [Sudoers] ([member_sudoers.rs]): what each rule lets a member run, with
      sudo's own matching; [MemberAccount] ([member_account.rs]) and
      [TeamAccess] ([team_access_service.rs]): a sync reports what was done.
    - [Mesh] ([node_network_repository.rs], [network/wireguard.rs]), [Dns]
      ([dns_service.rs]), [Network] and [NetworkFlows] ([network_service.rs]):
      addresses stay unique, joining is all or nothing (short of the statement
      that takes the row back), leaving takes the
      tunnel down before the address is given away, and private names resolve.
    - [Docker] ([runtime/docker.rs], [runtime/docker_command.rs]): the arguments
      of every docker call and the operations of the runtime; [DockerHost] (what
      a host does with them), [SampleDocker] (a concrete one), [Isolation] and
      [Containers] (a container is created as configured and begins to run only
      on the networks its connections grant, whatever fails), [ContainerText]
      (the environment file and the console line reach their readers).
    - [Desktop] (the monad of the services), [AppLinks]
      ([services/application_service/links.rs]): the table of connections does not
      understate what containers share, as long as the daemon answers when a
      connection is revoked; two containers share a network just
      when their applications are connected.
    - [Sanitizer] ([ai/sanitizer.rs]) and [Redaction]: its loops end on every
      text, and texts, JSON values and environments that differ in their
      secrets only are sanitized to the same thing, for secrets of the shapes
      named there; examples of others leak.
    - [Cron], [Schedules] ([services/schedule_service.rs], its model, its table
      and the runner script), [ScheduleText] (cron does what the schedules say,
      and an accepted schedule comes due), [ScheduleRuns] (a run is one action
      and is read back), [ScheduleSync] (the rows stay well typed; the table and
      the Node's file go together).
    - [Archive] ([files/archive.rs]), [FileTree] (the contract of a provider),
      [ArchiveTree] (a tree through a zip and back), [Backups]
      ([services/application_backup_service.rs], its table), [Retention] (which
      backups are removed), [MemoryFiles] (a provider in memory), [Restore] (a
      backup puts the directory back).
    - [Posix] and [LocalFiles] ([files/local.rs]): the provider of this machine;
      [LocalJail] (nothing outside the directory is read or changed, with three
      exceptions by way of links and backslashes, each shown by an example) and
      [LocalTree] (it keeps the contract).
    - [UrlFetch] ([files/url_fetch.rs]): which links are accepted; [SftpFiles]
      ([files/sftp.rs]) and [SftpJail]: every request of the provider of a Node
      names the working directory or something below it.
    - [AppFiles] ([services/application_files_service.rs], the walk of
      [files/mod.rs]) and [FileEdits]: the file manager; an upload or a saved file
      never leaves a truncated one.
    - [Databases] ([services/database_service.rs],
      [storage/database_repository.rs]), [DatabaseSql] (what the server and the
      client read), [DatabaseServer] (the words of the client, the names made up)
      and [DatabaseLife] (what making and removing a database leaves, whatever
      fails).
    - [Systemd] ([runtime/systemd.rs], [ssh/systemd.rs]), [SystemdUnits] (a unit
      and its environment read back as they were meant, within the bounds named
      there, which the code does not check; what a start leaves in the files of a
      Node, whatever fails).

    ** Bounds and fuel

    [to_dec] prints at most twenty digits, enough for any 64-bit number (its
    lemmas carry that bound).  [first_free] looks at the 65534 host addresses
    of the mesh's /16 as the source's range does; [await_handshake] makes the
    six attempts of the source.  Other loops recurse on the list they read.
    The three loops of [Sanitizer] have the length of the text as fuel;
    [every_loop_ends] proves that this is enough and that more changes nothing.
    The walk of an archive has one level more than [MAX_ARCHIVE_DEPTH], at which
    the source refuses; the plan of an upload has the levels of
    [MAX_UPLOAD_DEPTH]; recursive copies and removals have 2048 levels, half of
    the longest path there can be (PATH_MAX); a path is resolved through at most
    forty links, as the kernel does.

    ** Not modelled

    In the backend: update checks, mail and start-up, and other interleavings
    of the statements of two requests than those named above; the rate limiter
    reads the clock and its table in one step, where the code reads the clock
    before it takes the lock.  In the Agent: metrics,
    identity files, TLS and start-up.  In the desktop: the process
    runtimes, the health check and the readings of docker stats and ps, the helper script
    of the dedicated accounts, a download to this machine, the SSH, Agent,
    cloud and S3 clients, the remaining statements of the SQLite repositories,
    blueprints and the import from Pterodactyl, the AI
    prompts, and the commands that join the window to the services.  These are
    calls of third-party crates, reads and writes of rows without a rule of
    their own, or texts whose meaning lies in other programs.

    Log lines and the English prose of errors are left out of the backend (its
    error codes and parameters are there); the desktop's error texts are kept
    where the code passes them on as data.

    ** Plan

    Done: access control, sessions, the Agent's connection, the firewall, member
    accounts, the private network, Docker and its networks, the daily allowance,
    the sanitizer, schedules, files, backups, databases and units of systemd.  Left:
    the life cycle of an application, the runtimes that start a process, the sweep of member accounts over
    all Nodes, and the helper of the dedicated accounts. *)

From stdpp Require Export base tactics list gmap sets fin_maps fin_sets strings sorting.
From Stdlib Require Export ZArith Lia.

#[export] Set Default Goal Selector "!".

(** ** Results

    Rust's [Result<A, E>].  Fallible code of the program returns it, and the
    [?] operator is [rbind]. *)

Inductive result (E A : Type) : Type :=
| Ok (a : A)
| Err (e : E).
Arguments Ok {E A} a.
Arguments Err {E A} e.

Declare Scope vibe_scope.
Delimit Scope vibe_scope with vibe.
#[export] Set Warnings "-notation-overridden".

Definition rbind {E A B} (r : result E A) (f : A -> result E B) : result E B :=
  match r with
  | Ok a => f a
  | Err e => Err e
  end.

Notation "'let?' x := r 'in' k" := (rbind r (fun x => k))
  (at level 10, x pattern, r at level 200, k at level 200) : vibe_scope.

Definition ok_or {E A} (o : option A) (e : E) : result E A :=
  match o with
  | Some a => Ok a
  | None => Err e
  end.

Definition is_ok {E A} (r : result E A) : bool :=
  match r with Ok _ => true | Err _ => false end.

#[global] Instance result_eq_dec {E A} `{EqDecision E, EqDecision A} : EqDecision (result E A).
Proof. solve_decision. Defined.

Lemma Ok_inj {E A} (a b : A) : @Ok E A a = Ok b -> a = b.
Proof. by intros [= ->]. Qed.

Lemma rbind_Ok {E A B} (r : result E A) (f : A -> result E B) b :
  rbind r f = Ok b <-> exists a, r = Ok a /\ f a = Ok b.
Proof. destruct r; simpl; naive_solver. Qed.

Lemma rbind_Err {E A B} (r : result E A) (f : A -> result E B) e :
  rbind r f = Err e <-> r = Err e \/ exists a, r = Ok a /\ f a = Err e.
Proof. destruct r; simpl; naive_solver. Qed.

(** ** Generic list facts *)

Section lists.
Context {A : Type}.
Implicit Types (l : list A) (p : A -> bool).

(** [Iterator::find]. *)
Fixpoint find_first (p : A -> bool) (l : list A) : option A :=
  match l with
  | [] => None
  | x :: l => if p x then Some x else find_first p l
  end.

Lemma find_first_None p l : find_first p l = None <-> forall x, x ∈ l -> p x = false.
Proof.
  induction l as [|y l IH]; simpl; [set_solver|].
  destruct (p y) eqn:E; split; intros H; try done.
  - specialize (H y). rewrite E in H. set_solver.
  - intros x [->|Hx]%elem_of_cons; [done|]. by apply IH.
  - apply IH. set_solver.
Qed.

Lemma find_first_Some p l x : find_first p l = Some x -> x ∈ l /\ p x = true.
Proof.
  induction l as [|y l IH]; simpl; [done|].
  destruct (p y) eqn:E; intros ?; simplify_eq; [set_solver|].
  destruct IH; [done|]. set_solver.
Qed.

Lemma forallb_elem_of p l : forallb p l = true <-> forall x, x ∈ l -> p x = true.
Proof. rewrite List.forallb_forall. by setoid_rewrite list_elem_of_In. Qed.

Lemma existsb_elem_of p l : existsb p l = true <-> exists x, x ∈ l /\ p x = true.
Proof. rewrite List.existsb_exists. by setoid_rewrite list_elem_of_In. Qed.

Lemma existsb_false_elem_of p l : existsb p l = false <-> forall x, x ∈ l -> p x = false.
Proof.
  rewrite <-not_true_iff_false, existsb_elem_of. split.
  - intros H x Hx. destruct (p x) eqn:E; [|done]. exfalso; eauto.
  - intros H (x & Hx & Hp). rewrite H in Hp; done.
Qed.

Lemma forallb_slice p l i j : forallb p l = true -> forallb p (take i (drop j l)) = true.
Proof.
  rewrite !forallb_elem_of. intros Hl x Hx. apply Hl. rewrite list_elem_of_lookup in Hx. destruct Hx as [k Hk].
  apply lookup_take_Some in Hk as [Hk _]. rewrite lookup_drop in Hk. by eapply list_elem_of_lookup_2.
Qed.

(** [ORDER BY]: an insertion sort. *)
Fixpoint insert_by (lt : A -> A -> bool) (x : A) (l : list A) : list A :=
  match l with
  | [] => [x]
  | y :: l => if lt x y then x :: y :: l else y :: insert_by lt x l
  end.
Definition sort_by (lt : A -> A -> bool) (l : list A) : list A := foldr (insert_by lt) [] l.

Lemma sort_by_Permutation lt l : sort_by lt l ≡ₚ l.
Proof.
  assert (Hi : forall x l, insert_by lt x l ≡ₚ x :: l).
  { intros x l'. induction l' as [|y l' IH]; cbn; [done|]. destruct (lt x y); [done|]. rewrite IH. constructor. }
  induction l as [|x l IH]; cbn; [done|]. by rewrite Hi, IH.
Qed.
End lists.

(** ** Tactics

    [inv_result] destructs the equations a chain of [?] leaves behind;
    [case_bool] splits on the boolean test in the goal or a hypothesis. *)

(** Linear arithmetic with division and modulo by constants. *)
Ltac zdm := Z.to_euclidean_division_equations; lia.

Ltac inv_result :=
  repeat match goal with
  | H : rbind _ _ = Ok _ |- _ => apply rbind_Ok in H as (? & ? & ?)
  | H : rbind _ _ = Err _ |- _ => apply rbind_Err in H as [?|(? & ? & ?)]
  | H : Ok _ = Ok _ |- _ => injection H as H; subst
  | H : Err _ = Err _ |- _ => injection H as H; subst
  | H : Ok _ = Err _ |- _ => discriminate H
  | H : Err _ = Ok _ |- _ => discriminate H
  end.

Ltac case_bool_eqn E :=
  match goal with
  | |- context [if ?b then _ else _] => destruct b eqn:E
  | H : context [if ?b then _ else _] |- _ => destruct b eqn:E
  end.
Tactic Notation "case_bool" "as" ident(E) := case_bool_eqn E.
Tactic Notation "case_bool" := let E := fresh "Eb" in case_bool_eqn E.

Create HintDb vibe.
#[export] Hint Extern 1 (_ ∈ _) => set_solver : vibe.
