(* ===== verification/Text.v ===== *)
(** * Text: the part of Rust's [str], [String] and [char] the program uses

    A Rust string is modelled as the list of its characters, a character as
    its Unicode scalar value (a [Z]).  [str::len] counts UTF-8 bytes, so it is
    [byte_len] here and not [length], which is [chars().count()].

    Lower-casing beyond ASCII depends on the Unicode tables the standard
    library ships.  It is the operation [char_to_lowercase] of the class
    [UnicodeCase], whose laws are the documented behaviour on ASCII and that a
    lower-case mapping never holds an ASCII capital. *)

From S2P Require Import Prelude.

#[local] Open Scope Z_scope.

Abbreviation rchar := Z (only parsing).
Abbreviation str := (list Z) (only parsing).

(** A string literal of the source, as the list of its characters. *)
Fixpoint lit (s : string) : list Z :=
  match s with
  | EmptyString => []
  | String a s => Z.of_N (Ascii.N_of_ascii a) :: lit s
  end.

Definition ch (a : Ascii.ascii) : Z := Z.of_N (Ascii.N_of_ascii a).

(** ** Characters *)

(** [char::is_whitespace]: the Unicode property White_Space. *)
Definition is_whitespace (c : Z) : bool :=
  ((9 <=? c) && (c <=? 13)) || (c =? 32) || (c =? 133) || (c =? 160) || (c =? 5760)
  || ((8192 <=? c) && (c <=? 8202)) || (c =? 8232) || (c =? 8233) || (c =? 8239)
  || (c =? 8287) || (c =? 12288).

Definition in_range (lo hi c : Z) : bool := (lo <=? c) && (c <=? hi).

Definition is_ascii_digit (c : Z) : bool := in_range 48 57 c.
Definition is_ascii_uppercase (c : Z) : bool := in_range 65 90 c.
Definition is_ascii_lowercase (c : Z) : bool := in_range 97 122 c.
Definition is_ascii_alphabetic (c : Z) : bool := is_ascii_uppercase c || is_ascii_lowercase c.
Definition is_ascii_alphanumeric (c : Z) : bool := is_ascii_alphabetic c || is_ascii_digit c.
Definition is_ascii (c : Z) : bool := in_range 0 127 c.

Definition to_ascii_lowercase (c : Z) : Z := if is_ascii_uppercase c then c + 32 else c.
Definition to_ascii_uppercase (c : Z) : Z := if is_ascii_lowercase c then c - 32 else c.

(** Bytes of one character in UTF-8 ([char::len_utf8]). *)
Definition len_utf8 (c : Z) : Z :=
  if c <? 128 then 1 else if c <? 2048 then 2 else if c <? 65536 then 3 else 4.

(** [char::to_lowercase] of the standard library. *)
Class UnicodeCase := {
  char_to_lowercase : Z -> list Z;
  char_to_lowercase_ascii : forall c, is_ascii c = true -> char_to_lowercase c = [to_ascii_lowercase c];
  char_to_lowercase_small : forall c x, In x (char_to_lowercase c) -> is_ascii_uppercase x = false;
}.

(** The instance that knows only ASCII: what [to_lowercase] does on it. *)
#[global] Program Instance ascii_case : UnicodeCase | 100 :=
  {| char_to_lowercase c := [to_ascii_lowercase c] |}.
Next Obligation. done. Qed.
Next Obligation.
  intros c x [<-|[]]. unfold to_ascii_lowercase, is_ascii_uppercase, in_range. destruct ((65 <=? c) && (c <=? 90)) eqn:E; lia.
Qed.

Definition to_lowercase `{UnicodeCase} (s : list Z) : list Z := s ≫= char_to_lowercase.

(** ** Strings *)

(** [str::len]. *)
Fixpoint byte_len (s : list Z) : Z :=
  match s with
  | [] => 0
  | c :: s => len_utf8 c + byte_len s
  end.

(** [chars().count()]. *)
Definition chars_count (s : list Z) : Z := Z.of_nat (length s).

Definition is_empty (s : list Z) : bool :=
  match s with [] => true | _ => false end.

Fixpoint drop_while (p : Z -> bool) (s : list Z) : list Z :=
  match s with
  | [] => []
  | c :: s' => if p c then drop_while p s' else s
  end.

Fixpoint take_while (p : Z -> bool) (s : list Z) : list Z :=
  match s with c :: s => if p c then c :: take_while p s else [] | [] => [] end.

Definition trim_start_matches (p : Z -> bool) (s : list Z) : list Z := drop_while p s.
Definition trim_end_matches (p : Z -> bool) (s : list Z) : list Z := rev (drop_while p (rev s)).
Definition trim (s : list Z) : list Z := trim_end_matches is_whitespace (trim_start_matches is_whitespace s).

(** [str::contains] of a character. *)
Definition contains_char (c : Z) (s : list Z) : bool := existsb (Z.eqb c) s.

Definition str_eqb (a b : list Z) : bool := bool_decide (a = b).

(** [eq_ignore_ascii_case]. *)
Definition eq_ignore_ascii_case (a b : list Z) : bool :=
  bool_decide (map to_ascii_lowercase a = map to_ascii_lowercase b).

(** [str::split] on a character predicate: one piece more than there are
    separators, so the empty string has the one empty piece. *)
Fixpoint split_on (p : Z -> bool) (s : list Z) : list (list Z) :=
  match s with
  | [] => [[]]
  | c :: s' =>
      if p c then [] :: split_on p s'
      else match split_on p s' with
           | [] => [[c]]
           | piece :: pieces => (c :: piece) :: pieces
           end
  end.

(** [slice::join]. *)
Fixpoint join (sep : list Z) (parts : list (list Z)) : list Z :=
  match parts with
  | [] => []
  | [p] => p
  | p :: parts => p ++ sep ++ join sep parts
  end.

(** [str::split_once] on a character: at its first occurrence. *)
Fixpoint split_once (c : Z) (s : list Z) : option (list Z * list Z) :=
  match s with
  | [] => None
  | x :: s' => if x =? c then Some ([], s')
               else match split_once c s' with
                    | Some (a, b) => Some (x :: a, b)
                    | None => None
                    end
  end.

(** [str::rsplit_once] on a character: at its last occurrence. *)
Fixpoint rsplit_once (c : Z) (s : list Z) : option (list Z * list Z) :=
  match s with
  | [] => None
  | x :: s' => match rsplit_once c s' with
               | Some (a, b) => Some (x :: a, b)
               | None => if x =? c then Some ([], s') else None
               end
  end.

(** [str::strip_prefix] and [starts_with] of a string. *)
Fixpoint strip_prefix (p s : list Z) : option (list Z) :=
  match p, s with
  | [], _ => Some s
  | a :: p, b :: s => if a =? b then strip_prefix p s else None
  | _ :: _, [] => None
  end.

Definition starts_with (p s : list Z) : bool := bool_decide (is_Some (strip_prefix p s)).
Definition starts_with_char (c : Z) (s : list Z) : bool :=
  match s with x :: _ => x =? c | [] => false end.
Definition ends_with_char (c : Z) (s : list Z) : bool := starts_with_char c (rev s).

(** [split_whitespace]: the maximal runs of non-whitespace. *)
Definition split_whitespace (s : list Z) : list (list Z) :=
  List.filter (fun w => negb (is_empty w)) (split_on is_whitespace s).

(** [str::lines]: split at each line feed, a final empty line dropped, one
    carriage return before the line feed dropped. *)
Definition strip_cr (s : list Z) : list Z :=
  match rev s with
  | 13 :: r => rev r
  | _ => s
  end.

Definition lines (s : list Z) : list (list Z) :=
  let pieces := split_on (Z.eqb 10) s in
  let pieces := match rev pieces with
                | [] :: r => rev r
                | _ => pieces
                end in
  map strip_cr pieces.

(** ** Bytes *)

(** [str::as_bytes]: the UTF-8 encoding. *)
Definition utf8_char (c : Z) : list Z :=
  if c <? 128 then [c]
  else if c <? 2048 then [192 + c / 64; 128 + c mod 64]
  else if c <? 65536 then [224 + c / 4096; 128 + (c / 64) mod 64; 128 + c mod 64]
  else [240 + c / 262144; 128 + (c / 4096) mod 64; 128 + (c / 64) mod 64; 128 + c mod 64].
Definition utf8 (s : list Z) : list Z := s ≫= utf8_char.

(** A string of Unicode scalar values. *)
Definition scalars (s : list Z) : Prop := Forall (fun c => 0 <= c < 1114112) s.

(** ** Numbers in decimal *)

Fixpoint digits_fuel (fuel : nat) (n : Z) : list Z :=
  match fuel with
  | O => []
  | S fuel => if n <? 10 then [48 + n] else digits_fuel fuel (n / 10) ++ [48 + n mod 10]
  end.

(** [to_string] of an unsigned integer below 2^64: at most 20 digits. *)
Definition to_dec (n : Z) : list Z := digits_fuel 20 n.

Fixpoint parse_digits (acc : Z) (s : list Z) : option Z :=
  match s with
  | [] => Some acc
  | c :: s => if is_ascii_digit c then parse_digits (10 * acc + (c - 48)) s else None
  end.

(** [<uN>::from_str]: an optional leading [+], at least one digit, nothing
    but digits, and no overflow of the type, whose largest value is [max]. *)
Definition parse_unsigned (max : Z) (s : list Z) : option Z :=
  let body := match s with 43 :: s' => s' | _ => s end in
  match body with
  | [] => None
  | _ => match parse_digits 0 body with
         | Some n => if n <=? max then Some n else None
         | None => None
         end
  end.

Definition parse_u8 : list Z -> option Z := parse_unsigned 255.
Definition parse_u16 : list Z -> option Z := parse_unsigned 65535.
Definition parse_u32 : list Z -> option Z := parse_unsigned 4294967295.

(** [i32] and [i64]: a sign, then digits. *)
Definition parse_signed (min max : Z) (s : list Z) : option Z :=
  match s with
  | 45 :: body => match body with [] => None | _ => match parse_digits 0 body with Some n => if min <=? - n then Some (- n) else None | None => None end end
  | _ => parse_unsigned max s
  end.
Definition parse_i32 : list Z -> option Z := parse_signed (-2147483648) 2147483647.
Definition parse_i64 : list Z -> option Z := parse_signed (-9223372036854775808) 9223372036854775807.

(** ** Hexadecimal *)

Definition hex_digit (n : Z) : Z := if n <? 10 then 48 + n else 87 + n.

(** [format!("{b:02x}")]. *)
Definition hex_byte (b : Z) : list Z := [hex_digit (b / 16); hex_digit (b mod 16)].

Fixpoint hex_fixed (width : nat) (n : Z) : list Z :=
  match width with
  | O => []
  | S w => hex_fixed w (n / 16) ++ [hex_digit (n mod 16)]
  end.

(** [Uuid]'s [Display]: 32 hexadecimal digits in groups of 8, 4, 4, 4 and 12. *)
Definition uuid_simple (id : N) : list Z := hex_fixed 32 (Z.of_N id).
Definition uuid_text (id : N) : list Z :=
  let s := uuid_simple id in
  join [45] [take 8 s; take 4 (drop 8 s); take 4 (drop 12 s); take 4 (drop 16 s); drop 20 s].

(** ** UTF-8 is a prefix code *)

Lemma utf8_char_inj a b s t : 0 <= a < 1114112 -> 0 <= b < 1114112 -> utf8_char a ++ s = utf8_char b ++ t -> a = b /\ s = t.
Proof.
  intros Ha Hb. unfold utf8_char.
  destruct (Z.ltb_spec a 128), (Z.ltb_spec a 2048), (Z.ltb_spec a 65536), (Z.ltb_spec b 128), (Z.ltb_spec b 2048), (Z.ltb_spec b 65536);
    try lia; cbn [app]; intros Heq; injection Heq; intros; subst; split; try done; zdm.
Qed.

Lemma utf8_inj a b : scalars a -> scalars b -> utf8 a = utf8 b -> a = b.
Proof.
  intros Ha. revert b. induction Ha as [|x a Hx _ IH]; intros b Hb Heq; destruct Hb as [|y b Hy Hb]; [done| | |].
  1-2: exfalso; unfold utf8 in Heq; rewrite bind_cons in Heq; revert Heq; unfold utf8_char; repeat case_match; done.
  unfold utf8 in *. rewrite !bind_cons in Heq. apply utf8_char_inj in Heq as [-> Heq]; [|done|done]. f_equal. by apply IH.
Qed.

(** ** Decimal text is read back *)

Lemma parse_digits_app a : forall b acc, parse_digits acc (a ++ b) = parse_digits acc a ≫= fun m => parse_digits m b.
Proof. induction a as [|c a IH]; intros b acc; simpl; [done|]. by destruct (is_ascii_digit c). Qed.

Lemma digit_of n : 0 <= n < 10 -> is_ascii_digit (48 + n) = true.
Proof. intros Hn. unfold is_ascii_digit, in_range. lia. Qed.

Lemma digits_fuel_spec fuel : forall n, 0 <= n < 10 ^ Z.of_nat fuel -> fuel <> 0%nat ->
  parse_digits 0 (digits_fuel fuel n) = Some n /\ forallb is_ascii_digit (digits_fuel fuel n) = true /\ digits_fuel fuel n <> [].
Proof.
  induction fuel as [|fuel IH]; intros n Hn Hf; [done|]. cbn [digits_fuel]. destruct (Z.ltb_spec n 10) as [Hs|Hl].
  - cbn [parse_digits forallb]. rewrite digit_of by lia. split_and!; [f_equal; lia|done|done].
  - rewrite Nat2Z.inj_succ, Z.pow_succ_r in Hn by lia. assert (0 < n / 10) by zdm. assert (n / 10 < 10 ^ Z.of_nat fuel) by zdm.
    assert (fuel <> 0%nat) by (intros ->; simpl in *; lia). destruct (IH (n / 10)) as (Hp & Hd & Hne); [lia|done|].
    assert (Hm : 0 <= n mod 10 < 10) by (apply Z.mod_pos_bound; lia). split_and!.
    + rewrite parse_digits_app, Hp. cbn [mbind option_bind parse_digits]. rewrite digit_of by done. f_equal. zdm.
    + rewrite forallb_app, Hd. cbn [forallb]. by rewrite digit_of.
    + intros Happ. by apply app_eq_nil in Happ as [? _].
Qed.

Lemma to_dec_spec n : 0 <= n < 10 ^ 20 ->
  parse_digits 0 (to_dec n) = Some n /\ forallb is_ascii_digit (to_dec n) = true /\ to_dec n <> [].
Proof. intros Hn. by apply (digits_fuel_spec 20). Qed.

Lemma plus_stripped c s : is_ascii_digit c = true -> (match c :: s with 43 :: s' => s' | _ => c :: s end) = c :: s.
Proof.
  unfold is_ascii_digit, in_range. intros Hc.
  assert (c = 48 \/ c = 49 \/ c = 50 \/ c = 51 \/ c = 52 \/ c = 53 \/ c = 54 \/ c = 55 \/ c = 56 \/ c = 57) as Hcases by lia.
  repeat (destruct Hcases as [->|Hcases]; [reflexivity|]). by subst.
Qed.

Lemma parse_unsigned_to_dec max n : 0 <= n <= max -> n < 10 ^ 20 -> parse_unsigned max (to_dec n) = Some n.
Proof.
  intros Hn Hl. destruct (to_dec_spec n) as (Hp & Hd & Hne); [lia|]. unfold parse_unsigned.
  destruct (to_dec n) as [|c s]; [done|]. cbn [forallb] in Hd. apply andb_true_iff in Hd as [Hc Hd]. rewrite plus_stripped by done. rewrite Hp.
  by destruct (Z.leb_spec n max); [|lia].
Qed.

Lemma parse_signed_to_dec min max n : 0 <= n <= max -> n < 10 ^ 20 -> parse_signed min max (to_dec n) = Some n.
Proof.
  intros Hn Hl. rewrite <-(parse_unsigned_to_dec max n) by done. destruct (to_dec_spec n) as (_ & Hd & Hne); [lia|]. destruct (to_dec n) as [|c s]; [done|].
  cbn [forallb] in Hd. apply andb_true_iff in Hd as [Hc _]. assert (c <> 45) by (intros ->; done). unfold parse_signed.
  destruct c as [|c|c]; try reflexivity. do 6 (try (destruct c as [c|c|]; try reflexivity)). all: by exfalso.
Qed.

(** ** Runs of characters *)

Lemma take_while_app p w c rest : forallb p w = true -> p c = false -> take_while p (w ++ c :: rest) = w.
Proof. intros Hw Hc. induction w as [|x w IH]; simpl in *; [by rewrite Hc|]. apply andb_true_iff in Hw as [Hx Hw]. rewrite Hx. by rewrite IH. Qed.

Lemma drop_while_app p w c rest : forallb p w = true -> p c = false -> drop_while p (w ++ c :: rest) = c :: rest.
Proof. intros Hw Hc. induction w as [|x w IH]; simpl in *; [by rewrite Hc|]. apply andb_true_iff in Hw as [Hx Hw]. by rewrite Hx, IH. Qed.
