(* ===== verification/RateLimit.v ===== *)
(** * RateLimit: how often one caller may try to authenticate

    Models [apps/backend/src/rate_limit.rs].  An [Instant] and a [Duration]
    are numbers of nanoseconds; the [HashMap<String, Vec<Instant>>] under the
    mutex is a [gmap] from keys to the list of instants, oldest first.  The
    clock is an argument of [check], as [Instant::now()] is read once in it. *)

From S2P Require Import Prelude Text.

#[local] Open Scope Z_scope.

Definition NANOS : Z := 1000000000.

Definition MAX_ATTEMPTS : Z := 10.
Definition WINDOW : Z := 5 * 60 * NANOS.
Definition MAX_TRACKED_KEYS : Z := 50000.

Abbreviation RateLimiter := (gmap (list Z) (list Z)) (only parsing).

Inductive Decision : Type :=
| Allow
| RetryAfter (seconds : Z).

#[global] Instance Decision_eq_dec : EqDecision Decision.
Proof. solve_decision. Defined.

(** [Instant::duration_since], which saturates at zero. *)
Definition duration_since (now earlier : Z) : Z := Z.max 0 (now - earlier).

Definition recent (now at_ : Z) : bool := duration_since now at_ <? WINDOW.

(** [Duration::saturating_sub] and [Duration::as_secs]. *)
Definition saturating_sub (a b : Z) : Z := Z.max 0 (a - b).
Definition as_secs (d : Z) : Z := d / NANOS.

(** [RateLimiter::check]. *)
Definition purge (now : Z) (attempts : RateLimiter) : RateLimiter :=
  if MAX_TRACKED_KEYS <? Z.of_nat (size attempts)
  then filter (fun kv => existsb (recent now) kv.2 = true) attempts
  else attempts.

Definition check (attempts : RateLimiter) (now : Z) (key : list Z) : Decision * RateLimiter :=
  let attempts := purge now attempts in
  let seen := List.filter (recent now) (default [] (attempts !! key)) in
  if MAX_ATTEMPTS <=? Z.of_nat (length seen)
  then
    let oldest := default now (head seen) in
    let elapsed := duration_since now oldest in
    let remaining := saturating_sub WINDOW elapsed in
    (RetryAfter (Z.max 1 (as_secs remaining)), <[key := seen]> attempts)
  else (Allow, <[key := seen ++ [now]]> attempts).

(** [client_key].  [trust_forwarded_for] is the value of the environment
    variable [TRUST_FORWARDED_FOR], [None] when it is not set; [peer] is the
    peer's address as [IpAddr]'s [Display] prints it. *)
Definition client_key (trust_forwarded_for : option (list Z)) (forwarded_for : option (list Z)) (peer : option (list Z)) : list Z :=
  let trust_header :=
    match trust_forwarded_for with
    | Some value => str_eqb value (lit "1") || eq_ignore_ascii_case value (lit "true")
    | None => false
    end in
  let from_peer := match peer with
                   | Some address => lit "ip:" ++ address
                   | None => lit "ip:unknown"
                   end in
  if trust_header then
    match forwarded_for with
    | Some value =>
        match split_on (Z.eqb 44) value with
        | first :: _ =>
            let trimmed := trim first in
            if negb (is_empty trimmed) then lit "ip:" ++ trimmed else from_peer
        | [] => from_peer
        end
    | None => from_peer
    end
  else from_peer.

(** ** A run of the limiter

    [run_checks] is the limiter serving a sequence of calls; its result pairs
    each call with the decision it got. *)

Record Call := mkCall { c_at : Z; c_key : list Z }.

Fixpoint run_checks (attempts : RateLimiter) (calls : list Call) : list (Call * Decision) * RateLimiter :=
  match calls with
  | [] => ([], attempts)
  | c :: calls =>
      let (d, attempts) := check attempts (c_at c) (c_key c) in
      let (rest, attempts) := run_checks attempts calls in
      ((c, d) :: rest, attempts)
  end.

(** The clock of one process never goes back. *)
Definition clock_ok (calls : list Call) : Prop := StronglySorted (fun a b => c_at a <= c_at b) calls.

(** The instants of the calls on [key] that were allowed. *)
Definition allowed (key : list Z) (log : list (Call * Decision)) : list Z :=
  map (fun cd => c_at cd.1)
    (List.filter (fun cd => bool_decide (c_key cd.1 = key) && bool_decide (cd.2 = Allow)) log).

(** The allowed attempts on [key] in the window of length [WINDOW] ending at [now]. *)
Definition in_window (now at_ : Z) : bool := (at_ <=? now) && (now - at_ <? WINDOW).
Definition allowed_in_window (key : list Z) (now : Z) (log : list (Call * Decision)) : list Z :=
  List.filter (in_window now) (allowed key log).

Section lemmas.
Implicit Types (l : list Z) (now t : Z) (key : list Z).

Lemma filter_length_mono {A} (p q : A -> bool) (l : list A) :
  (forall x, x ∈ l -> p x = true -> q x = true) ->
  (length (List.filter p l) <= length (List.filter q l))%nat.
Proof.
  induction l as [|x l IH]; simpl; [lia|]. intros H.
  assert (forall y, y ∈ l -> p y = true -> q y = true) by (intros; apply H; set_solver).
  specialize (IH ltac:(assumption)).
  destruct (p x) eqn:Ep, (q x) eqn:Eq; simpl; try lia.
  rewrite H in Eq; [done|set_solver|done].
Qed.

Lemma filter_filter {A} (p q : A -> bool) (l : list A) :
  (forall x, x ∈ l -> p x = true -> q x = true) ->
  List.filter p (List.filter q l) = List.filter p l.
Proof.
  induction l as [|x l IH]; simpl; [done|]. intros H.
  assert (IH' : List.filter p (List.filter q l) = List.filter p l).
  { apply IH. intros; apply H; set_solver. }
  destruct (q x) eqn:Eq; simpl; rewrite IH'; [done|].
  destruct (p x) eqn:Ep; [|done]. rewrite H in Eq; [done|set_solver|done].
Qed.

Lemma filter_nil_existsb {A} (p : A -> bool) (l : list A) :
  existsb p l = false -> List.filter p l = [].
Proof.
  induction l as [|x l IH]; simpl; [done|].
  intros [Hp Hl]%orb_false_elim. by rewrite Hp, IH.
Qed.

Lemma recent_later now now' t : now <= now' -> recent now' t = true -> recent now t = true.
Proof. unfold recent, duration_since. lia. Qed.

Lemma recent_now now : recent now now = true.
Proof. unfold recent, duration_since, WINDOW, NANOS. lia. Qed.

Lemma in_window_recent now t : in_window now t = true -> recent now t = true.
Proof. unfold in_window, recent, duration_since. unfold WINDOW, NANOS. lia. Qed.

(** Dropping the keys with nothing recent changes no recent attempt. *)
Lemma purge_recent now now' (attempts : RateLimiter) key :
  now <= now' ->
  List.filter (recent now') (default [] (purge now attempts !! key))
  = List.filter (recent now') (default [] (attempts !! key)).
Proof.
  intros Hle. unfold purge. case_bool; [|done].
  rewrite map_lookup_filter. destruct (attempts !! key) as [l|]; simpl; [|done].
  case_guard as Hg; simpl; [done|].
  apply not_true_is_false in Hg. symmetry. apply filter_nil_existsb.
  apply existsb_false_elem_of. intros x Hx. rewrite existsb_false_elem_of in Hg.
  destruct (recent now' x) eqn:E; [|done].
  apply (recent_later now) in E; [|done]. rewrite Hg in E; done.
Qed.

Lemma check_other attempts now key key' now' :
  key ≠ key' -> now <= now' ->
  List.filter (recent now') (default [] ((check attempts now key).2 !! key'))
  = List.filter (recent now') (default [] (attempts !! key')).
Proof.
  intros Hne Hle. unfold check. case_bool; simpl;
    rewrite lookup_insert_ne by done; by apply purge_recent.
Qed.

(** What [check] keeps for the key it was asked about. *)
Lemma check_same attempts now key now' :
  now <= now' ->
  List.filter (recent now') (default [] ((check attempts now key).2 !! key))
  = List.filter (recent now') (default [] (attempts !! key)
      ++ (if bool_decide ((check attempts now key).1 = Allow) then [now] else [])).
Proof.
  intros Hle. unfold check.
  pose proof (purge_recent now now' attempts key Hle) as Hp.
  assert (Hf : List.filter (recent now') (List.filter (recent now) (default [] (purge now attempts !! key)))
          = List.filter (recent now') (default [] (attempts !! key))).
  { rewrite <-Hp. apply filter_filter. intros x _. by apply recent_later. }
  case_bool; simpl; rewrite lookup_insert_eq; simpl; rewrite ?List.filter_app, Hf; [|done].
  by rewrite app_nil_r.
Qed.

Lemma check_Allow attempts now key :
  (check attempts now key).1 = Allow ->
  Z.of_nat (length (List.filter (recent now) (default [] (attempts !! key)))) < MAX_ATTEMPTS.
Proof. unfold check. rewrite purge_recent by lia. case_bool; [done|]. lia. Qed.

Lemma check_RetryAfter attempts now key n :
  (check attempts now key).1 = RetryAfter n ->
  exists oldest seen,
    List.filter (recent now) (default [] (attempts !! key)) = oldest :: seen
    /\ MAX_ATTEMPTS <= Z.of_nat (length (oldest :: seen))
    /\ n = Z.max 1 (as_secs (saturating_sub WINDOW (duration_since now oldest))).
Proof.
  unfold check. rewrite purge_recent by lia. case_bool as Hlen; [|done].
  intros [= <-]. destruct (List.filter _ _) as [|oldest seen]; [done|].
  exists oldest, seen. split_and!; [done|lia|done].
Qed.

Lemma allowed_snoc key log c d :
  allowed key (log ++ [(c, d)])
  = allowed key log ++ (if bool_decide (c_key c = key) && bool_decide (d = Allow) then [c_at c] else []).
Proof. unfold allowed. rewrite List.filter_app, map_app. simpl. by case_bool. Qed.
End lemmas.

(** ** The invariant of a run

    Whatever was served before, the recent part of what the limiter stores
    for a key is the recent part of the attempts it allowed on it. *)

Record run_inv (log : list (Call * Decision)) (attempts : RateLimiter) (now : Z) : Prop := {
  run_inv_past : forall cd, cd ∈ log -> c_at cd.1 <= now;
  run_inv_stored : forall key now', now <= now' ->
    List.filter (recent now') (default [] (attempts !! key)) = List.filter (recent now') (allowed key log);
  run_inv_bound : forall key now', Z.of_nat (length (allowed_in_window key now' log)) <= MAX_ATTEMPTS;
}.

Lemma run_inv_init now : run_inv [] ∅ now.
Proof.
  constructor.
  - set_solver.
  - intros key now' _. by rewrite lookup_empty.
  - intros. cbv. done.
Qed.

Lemma run_inv_later log attempts now now' : now <= now' -> run_inv log attempts now -> run_inv log attempts now'.
Proof.
  intros Hle [Hp Hs Hb]. constructor; [|eauto with lia|done].
  intros cd Hc. etrans; eauto.
Qed.

Lemma allowed_past log key now :
  (forall cd, cd ∈ log -> c_at cd.1 <= now) -> forall t, t ∈ allowed key log -> t <= now.
Proof.
  intros H t. unfold allowed. rewrite list_elem_of_In, List.in_map_iff.
  intros (cd & <- & Hin). apply List.filter_In in Hin as [Hin _]. apply H. by apply list_elem_of_In.
Qed.

Lemma run_inv_step log attempts now c d attempts' :
  run_inv log attempts now -> now <= c_at c ->
  check attempts (c_at c) (c_key c) = (d, attempts') ->
  run_inv (log ++ [(c, d)]) attempts' (c_at c).
Proof.
  intros Hinv Hle E. pose proof (run_inv_later _ _ _ _ Hle Hinv) as [Hpast Hst Hb].
  assert (Ed : d = (check attempts (c_at c) (c_key c)).1) by (by rewrite E).
  assert (Ea : attempts' = (check attempts (c_at c) (c_key c)).2) by (by rewrite E).
  constructor.
  - intros cd [?|Hcd%list_elem_of_singleton]%elem_of_app; [by apply Hpast|subst cd; simpl; lia].
  - intros key now' Hn. rewrite allowed_snoc, List.filter_app, <-Hst by lia. subst attempts'.
    destruct (decide (c_key c = key)) as [<-|Hk].
    + rewrite check_same by lia. rewrite List.filter_app, <-Ed. by rewrite (bool_decide_eq_true_2 (c_key c = c_key c)).
    + rewrite check_other by (done || lia). rewrite (bool_decide_eq_false_2 (c_key c = key)) by done.
      simpl. by rewrite app_nil_r.
  - intros key now'. unfold allowed_in_window. rewrite allowed_snoc, List.filter_app, length_app.
    specialize (Hb key now'). unfold allowed_in_window in Hb.
    destruct (bool_decide (c_key c = key) && bool_decide (d = Allow)) eqn:Eb; simpl; [|lia].
    apply andb_true_iff in Eb as [Hk%bool_decide_eq_true Hd%bool_decide_eq_true]. subst key.
    destruct (in_window now' (c_at c)) eqn:Ew; simpl; [|lia].
    rewrite Ed in Hd. apply check_Allow in Hd. rewrite Hst in Hd by lia.
    assert (length (List.filter (in_window now') (allowed (c_key c) log))
      <= length (List.filter (recent (c_at c)) (allowed (c_key c) log)))%nat; [|lia].
    apply filter_length_mono. intros x Hx Hw. apply (recent_later _ now'); [unfold in_window in Ew; lia|].
    by apply in_window_recent.
Qed.

Lemma run_inv_run calls : forall log attempts now,
  run_inv log attempts now -> clock_ok calls -> (forall c, c ∈ calls -> now <= c_at c) ->
  exists now', run_inv (log ++ (run_checks attempts calls).1) (run_checks attempts calls).2 now'.
Proof.
  induction calls as [|c calls IH]; intros log attempts now Hinv Hs Hn; simpl.
  - exists now. by rewrite app_nil_r.
  - destruct (check attempts (c_at c) (c_key c)) as [d attempts'] eqn:E.
    destruct (run_checks attempts' calls) as [rest attempts''] eqn:Er. simpl.
    inversion Hs as [|? ? Hs' Hall]; subst.
    assert (Hstep : run_inv (log ++ [(c, d)]) attempts' (c_at c)).
    { eapply run_inv_step; [done|apply Hn; set_solver|done]. }
    destruct (IH _ _ _ Hstep Hs') as [now' H'].
    { intros c' Hc'. rewrite List.Forall_forall in Hall. apply Hall. by apply list_elem_of_In. }
    exists now'. rewrite Er in H'. simpl in H'. by rewrite <-app_assoc in H'.
Qed.

(** ** Well-formed limiters

    What is stored for a key is in the order it was recorded, is never in the
    future and never longer than the limit. *)

Definition entry_wf (now : Z) (l : list Z) : Prop :=
  Sorted Z.le l /\ (forall t, t ∈ l -> t <= now) /\ Z.of_nat (length l) <= MAX_ATTEMPTS.

Definition limiter_wf (attempts : RateLimiter) (now : Z) : Prop :=
  forall key l, attempts !! key = Some l -> entry_wf now l.

Lemma filter_length_le {A} (p : A -> bool) (l : list A) : (length (List.filter p l) <= length l)%nat.
Proof. induction l as [|x l IH]; simpl; [lia|]. case_bool; simpl; lia. Qed.

Lemma filter_StronglySorted (R : Z -> Z -> Prop) (p : Z -> bool) l :
  StronglySorted R l -> StronglySorted R (List.filter p l).
Proof.
  induction 1 as [|x l Hs IH Hall]; simpl; [constructor|]. case_bool; [|done].
  constructor; [done|]. rewrite List.Forall_forall in *. intros y [Hy _]%List.filter_In. by apply Hall.
Qed.

Lemma filter_Sorted (p : Z -> bool) l : Sorted Z.le l -> Sorted Z.le (List.filter p l).
Proof.
  intros Hs. apply StronglySorted_Sorted, filter_StronglySorted.
  apply Sorted_StronglySorted; [|done]. intros x y z; lia.
Qed.

Lemma snoc_Sorted now l : Sorted Z.le l -> (forall t, t ∈ l -> t <= now) -> Sorted Z.le (l ++ [now]).
Proof.
  intros Hs. induction Hs as [|x l Hs IH Hd]; intros H; simpl; [repeat constructor|].
  constructor; [apply IH; set_solver|].
  destruct Hd as [|y l]; simpl; constructor; [apply H; set_solver|done].
Qed.

Lemma entry_wf_filter now (p : Z -> bool) l : entry_wf now l -> entry_wf now (List.filter p l).
Proof.
  intros (Hs & Hle & Hlen). split_and!; [by apply filter_Sorted| |pose proof (filter_length_le p l); lia].
  intros t [Ht _]%list_elem_of_In%List.filter_In. by apply Hle, list_elem_of_In.
Qed.

Lemma entry_wf_later now now' l : now <= now' -> entry_wf now l -> entry_wf now' l.
Proof. intros Hle (? & H & ?). split_and!; [done| |done]. intros t Ht. specialize (H t Ht). lia. Qed.

Lemma limiter_wf_purge attempts now now' key :
  now <= now' -> limiter_wf attempts now -> entry_wf now' (default [] (purge now' attempts !! key)).
Proof.
  intros Hle Hwf.
  assert (Hd : entry_wf now' (default [] (attempts !! key))).
  { destruct (attempts !! key) as [l|] eqn:E; simpl; [eapply entry_wf_later; eauto|].
    split_and!; [constructor|set_solver|cbv; done]. }
  unfold purge. case_bool; [|done]. rewrite map_lookup_filter.
  destruct (attempts !! key) as [l|]; simpl in *; [|done]. case_guard; simpl; [done|].
  split_and!; [constructor|set_solver|cbv; done].
Qed.

(** Every call keeps the limiter well formed. *)
Lemma check_wf attempts now now' key :
  now <= now' -> limiter_wf attempts now -> limiter_wf (check attempts now' key).2 now'.
Proof.
  intros Hle Hwf key' l. pose proof (limiter_wf_purge attempts now now' key Hle Hwf) as Hd.
  apply (entry_wf_filter _ (recent now')) in Hd.
  assert (Hother : forall l', purge now' attempts !! key' = Some l' -> entry_wf now' l').
  { intros l' E. pose proof (limiter_wf_purge attempts now now' key' Hle Hwf) as H. by rewrite E in H. }
  unfold check. case_bool as Eb; simpl; (destruct (decide (key = key')) as [<-|];
    [rewrite lookup_insert_eq; intros [= <-]|rewrite lookup_insert_ne by done; apply Hother]); [done|].
  destruct Hd as (Hs & Hp & _). split_and!; [by apply snoc_Sorted| |].
  - intros t [?|Ht%list_elem_of_singleton]%elem_of_app; [by apply Hp|lia].
  - rewrite length_app. simpl. lia.
Qed.

Lemma run_checks_wf calls : forall attempts now,
  limiter_wf attempts now -> clock_ok calls -> (forall c, c ∈ calls -> now <= c_at c) ->
  exists now', limiter_wf (run_checks attempts calls).2 now'.
Proof.
  induction calls as [|c calls IH]; intros attempts now Hwf Hs Hn; simpl; [by exists now|].
  pose proof (check_wf attempts now (c_at c) (c_key c) (Hn c ltac:(set_solver)) Hwf) as Hwf'.
  destruct (check attempts (c_at c) (c_key c)) as [d attempts'] eqn:E.
  destruct (run_checks attempts' calls) as [rest attempts''] eqn:Er.
  inversion Hs as [|? ? Hs' Hall]; subst.
  destruct (IH attempts' (c_at c) Hwf' Hs') as [now' H'].
  { intros c' Hc'. rewrite List.Forall_forall in Hall. apply Hall. by apply list_elem_of_In. }
  exists now'. by rewrite Er in H'.
Qed.

Lemma recent_tail now n oldest :
  oldest <= now ->
  n = Z.max 1 (as_secs (saturating_sub WINDOW (duration_since now oldest))) ->
  forall now', now + (n + 1) * NANOS <= now' -> recent now' oldest = false.
Proof.
  unfold recent, saturating_sub, duration_since, as_secs. intros Hold -> now' Hle.
  apply Z.ltb_ge. unfold WINDOW, NANOS in *.
  pose proof (Z.div_mod (Z.max 0 (5 * 60 * 1000000000 - Z.max 0 (now - oldest))) 1000000000 ltac:(lia)).
  pose proof (Z.mod_pos_bound (Z.max 0 (5 * 60 * 1000000000 - Z.max 0 (now - oldest))) 1000000000 ltac:(lia)).
  lia.
Qed.

(** ** Properties *)

(** C6: in any five-minute window at most [MAX_ATTEMPTS] calls on one key are
    allowed, whatever calls the limiter served, as long as they come in the order
    of the times they carry.  (The clock does not run backwards, but the code
    reads it before it takes the lock, so two calls that overlap may come in the
    other order.) *)
Theorem at_most_max_attempts_per_window (calls : list Call) (key : list Z) (now : Z) :
  clock_ok calls ->
  Z.of_nat (length (allowed_in_window key now (run_checks ∅ calls).1)) <= MAX_ATTEMPTS.
Proof.
  intros Hs.
  destruct (run_inv_run calls [] ∅ (default 0 (c_at <$> head calls)) (run_inv_init _) Hs) as [now' Hinv].
  - intros c Hc. destruct Hs as [|c0 calls Hs Hall]; [set_solver|]. simpl.
    apply elem_of_cons in Hc as [->|Hc]; [lia|].
    rewrite List.Forall_forall in Hall. apply Hall. by apply list_elem_of_In.
  - by apply Hinv.
Qed.

(** Twelve calls on one key in one second: ten are allowed, two are not. *)
Definition burst : list Call := map (fun i => mkCall (i * 50000000) (lit "account:a@b.c")) (seqZ 0 12).

Lemma at_most_max_attempts_per_window_witness :
  clock_ok burst
  /\ map snd (run_checks ∅ burst).1 = replicate 10 Allow ++ [RetryAfter 299; RetryAfter 299]
  /\ Z.of_nat (length (allowed_in_window (lit "account:a@b.c") NANOS (run_checks ∅ burst).1)) <= MAX_ATTEMPTS.
Proof.
  assert (Hs : clock_ok burst).
  { unfold clock_ok, burst. vm_compute. repeat constructor; vm_compute; discriminate. }
  split_and!; [done|vm_compute; reflexivity|apply at_most_max_attempts_per_window; done].
Defined.

(** a refusal tells the caller enough: once one second more than the
    announced number of seconds has passed, the same key is allowed again. *)
Theorem retry_after_is_enough (attempts : RateLimiter) (now now' : Z) (key : list Z) (n : Z) :
  limiter_wf attempts now ->
  (check attempts now key).1 = RetryAfter n ->
  now + (n + 1) * NANOS <= now' ->
  (check (check attempts now key).2 now' key).1 = Allow.
Proof.
  intros Hwf Hr Hle. pose proof (check_RetryAfter _ _ _ _ Hr) as (oldest & seen & Eseen & Hlen & Hn).
  assert (Hnow : now <= now').
  { assert (1 <= n) by lia. unfold NANOS in Hle. lia. }
  unfold check at 1. rewrite purge_recent by lia. rewrite check_same by done.
  rewrite Hr. rewrite (bool_decide_eq_false_2 (RetryAfter n = Allow)) by done. rewrite app_nil_r.
  rewrite <-(filter_filter (recent now') (recent now)) by (intros x _; by apply recent_later).
  assert (Hmax : entry_wf now (oldest :: seen)).
  { rewrite <-Eseen. apply entry_wf_filter.
    destruct (attempts !! key) as [l|] eqn:E; simpl; [by eapply Hwf|].
    split_and!; [constructor|set_solver|cbv; done]. }
  destruct Hmax as (_ & Hold & Hmax). rewrite Eseen. simpl.
  rewrite (recent_tail now n oldest (Hold oldest ltac:(set_solver)) Hn now' Hle).
  case_bool as Eb; [|done]. exfalso.
  pose proof (filter_length_le (recent now') seen) as Hf. simpl in Hmax. lia.
Qed.

(** Ten attempts at the start, an eleventh after 1.5 seconds. *)
Definition ten_attempts : RateLimiter := (run_checks ∅ (replicate 10 (mkCall 0 (lit "k")))).2.

Lemma ten_attempts_wf : limiter_wf ten_attempts 1500000000.
Proof.
  intros key l H.
  assert (E : ten_attempts = {[ lit "k" := replicate 10 0 ]}) by (vm_compute; reflexivity).
  rewrite E in H. apply lookup_singleton_Some in H as [_ <-].
  split_and!; [|intros t Ht; apply elem_of_replicate in Ht; lia|vm_compute; discriminate].
  repeat constructor; lia.
Qed.

Lemma retry_after_is_enough_witness :
  (check ten_attempts 1500000000 (lit "k")).1 = RetryAfter 298
  /\ (check (check ten_attempts 1500000000 (lit "k")).2 300500000000 (lit "k")).1 = Allow.
Proof.
  split; [vm_compute; reflexivity|].
  apply (retry_after_is_enough ten_attempts 1500000000 300500000000 (lit "k") 298).
  - exact ten_attempts_wf.
  - vm_compute; reflexivity.
  - vm_compute; discriminate.
Defined.

(** The announced number of seconds alone is not enough: [as_secs] rounds
    down, so the eleventh attempt is told 298 seconds, and 298 seconds later
    it is refused again. *)
Example retry_after_rounds_down :
  (check ten_attempts 1500000000 (lit "k")).1 = RetryAfter 298
  /\ (check (check ten_attempts 1500000000 (lit "k")).2 (1500000000 + 298 * NANOS) (lit "k")).1 = RetryAfter 1.
Proof. split; vm_compute; reflexivity. Qed.
