(* ===== verification/Db.v ===== *)
(** * Db: the backend's tables and the SQL statements run on them

    The tables are those of [apps/backend/migrations/*.sql], as they stand
    after all eighteen migrations: a table with a primary key is a finite map
    from the key to the other columns (or a finite set when the key is the
    whole row).  A UUID is an [N], an instant a number of microseconds.

    A statement is a function on [Db] that either fails as PostgreSQL reports
    it ([DbErr]) or returns the new tables and what the statement returns.
    The constraints the migrations declare are part of the statements: PRIMARY
    KEY and UNIQUE (a [UniqueViolation]), REFERENCES (a [ForeignKeyViolation]
    on insert), ON DELETE CASCADE and ON DELETE SET NULL (on delete), and the
    partial unique index of [node_revocations].  Tables no modelled handler
    touches ([ai_usage], [update_checks]) are left out. *)

From S2P Require Import Prelude Text.

#[local] Open Scope Z_scope.

(** JSON values, as [serde_json::json!] builds them. *)
#[warnings="-register-all"]
Inductive Json : Type :=
| JNull
| JBool (b : bool)
| JNum (n : Z)
| JStr (s : list Z)
| JUuid (u : N)
| JArr (l : list Json)
| JObj (fields : list (string * Json)).

(** ** Rows (the columns other than the primary key) *)

Record UserRow : Type := mkUser {
  u_email : list Z;
  u_password_hash : list Z;
  u_display_name : list Z;
  u_created_at : Z;
  u_updated_at : Z;
  u_must_change_password : bool;
  u_totp_secret : option (list Z);
  u_totp_pending_secret : option (list Z);
  u_totp_enabled_at : option Z;
  u_totp_last_step : option Z;
}.

Record RefreshTokenRow : Type := mkRefreshToken {
  rt_user_id : N;
  rt_token_hash : list Z;
  rt_created_at : Z;
  rt_expires_at : Z;
  rt_revoked_at : option Z;
}.

Record TeamRow : Type := mkTeam {
  t_name : list Z;
  t_owner_id : N;
  t_created_at : Z;
  t_updated_at : Z;
}.

Record RoleRow : Type := mkRole {
  r_team_id : N;
  r_name : list Z;
  r_description : option (list Z);
  r_is_system : bool;
  r_created_at : Z;
  r_updated_at : Z;
}.

Record AuditEventRow : Type := mkAuditEvent {
  ae_team_id : N;
  ae_actor_id : option N;
  ae_action : list Z;
  ae_target_type : list Z;
  ae_target_id : option N;
  ae_result : list Z;
  ae_metadata : Json;
  ae_created_at : Z;
}.

Record TeamServerRow : Type := mkTeamServer {
  ts_team_id : N;
  ts_name : list Z;
  ts_host : list Z;
  ts_ssh_port : Z;
  ts_username : option (list Z);
  ts_added_by : option N;
  ts_created_at : Z;
  ts_updated_at : Z;
}.

Record NodeRevocationRow : Type := mkNodeRevocation {
  nr_team_id : N;
  nr_team_server_id : N;
  nr_user_id : N;
  nr_node_username : list Z;
  nr_email : list Z;
  nr_requested_at : Z;
  nr_requested_by : option N;
  nr_completed_at : option Z;
  nr_completed_by : option N;
}.

Record TeamApplicationRow : Type := mkTeamApplication {
  ta_team_id : N;
  ta_team_server_id : option N;
  ta_local_id : N;
  ta_name : list Z;
  ta_blueprint_id : list Z;
  ta_runtime_type : list Z;
  ta_working_directory : list Z;
  ta_ports : Json;
  ta_environment : Json;
  ta_pushed_by : option N;
  ta_created_at : Z;
  ta_updated_at : Z;
}.

Record ApplicationMemberRow : Type := mkApplicationMember {
  am_team_id : N;
  am_granted_by : option N;
  am_granted_at : Z;
  am_permissions : list (list Z);
}.

Record DeviceKeyRow : Type := mkDeviceKey {
  dk_user_id : N;
  dk_public_key : list Z;
  dk_label : list Z;
  dk_created_at : Z;
  dk_seen_at : Z;
}.

Record PasswordResetRow : Type := mkPasswordReset {
  pr_user_id : N;
  pr_code_hash : list Z;
  pr_attempts : Z;
  pr_created_at : Z;
  pr_expires_at : Z;
  pr_used_at : option Z;
}.

(** ** The database *)

Record Db : Type := mkDb {
  users : gmap N UserRow;
  refresh_tokens : gmap N RefreshTokenRow;
  teams : gmap N TeamRow;
  team_members : gmap (N * N) Z;
  roles : gmap N RoleRow;
  role_permissions : gset (N * list Z);
  member_roles : gset (N * N * N);
  audit_events : gmap N AuditEventRow;
  team_servers : gmap N TeamServerRow;
  node_revocations : gmap N NodeRevocationRow;
  team_applications : gmap N TeamApplicationRow;
  application_members : gmap (N * N) ApplicationMemberRow;
  device_keys : gmap N DeviceKeyRow;
  totp_recovery_codes : gmap (N * list Z) (option Z);
  password_resets : gmap N PasswordResetRow;
}.

Definition empty_db : Db := mkDb ∅ ∅ ∅ ∅ ∅ ∅ ∅ ∅ ∅ ∅ ∅ ∅ ∅ ∅ ∅.

Definition set_users (x : gmap N UserRow) (d : Db) : Db :=
  mkDb x (d.(refresh_tokens)) (d.(teams)) (d.(team_members)) (d.(roles)) (d.(role_permissions)) (d.(member_roles)) (d.(audit_events)) (d.(team_servers)) (d.(node_revocations)) (d.(team_applications)) (d.(application_members)) (d.(device_keys)) (d.(totp_recovery_codes)) (d.(password_resets)).
Definition set_refresh_tokens (x : gmap N RefreshTokenRow) (d : Db) : Db :=
  mkDb (d.(users)) x (d.(teams)) (d.(team_members)) (d.(roles)) (d.(role_permissions)) (d.(member_roles)) (d.(audit_events)) (d.(team_servers)) (d.(node_revocations)) (d.(team_applications)) (d.(application_members)) (d.(device_keys)) (d.(totp_recovery_codes)) (d.(password_resets)).
Definition set_teams (x : gmap N TeamRow) (d : Db) : Db :=
  mkDb (d.(users)) (d.(refresh_tokens)) x (d.(team_members)) (d.(roles)) (d.(role_permissions)) (d.(member_roles)) (d.(audit_events)) (d.(team_servers)) (d.(node_revocations)) (d.(team_applications)) (d.(application_members)) (d.(device_keys)) (d.(totp_recovery_codes)) (d.(password_resets)).
Definition set_team_members (x : gmap (N * N) Z) (d : Db) : Db :=
  mkDb (d.(users)) (d.(refresh_tokens)) (d.(teams)) x (d.(roles)) (d.(role_permissions)) (d.(member_roles)) (d.(audit_events)) (d.(team_servers)) (d.(node_revocations)) (d.(team_applications)) (d.(application_members)) (d.(device_keys)) (d.(totp_recovery_codes)) (d.(password_resets)).
Definition set_roles (x : gmap N RoleRow) (d : Db) : Db :=
  mkDb (d.(users)) (d.(refresh_tokens)) (d.(teams)) (d.(team_members)) x (d.(role_permissions)) (d.(member_roles)) (d.(audit_events)) (d.(team_servers)) (d.(node_revocations)) (d.(team_applications)) (d.(application_members)) (d.(device_keys)) (d.(totp_recovery_codes)) (d.(password_resets)).
Definition set_role_permissions (x : gset (N * list Z)) (d : Db) : Db :=
  mkDb (d.(users)) (d.(refresh_tokens)) (d.(teams)) (d.(team_members)) (d.(roles)) x (d.(member_roles)) (d.(audit_events)) (d.(team_servers)) (d.(node_revocations)) (d.(team_applications)) (d.(application_members)) (d.(device_keys)) (d.(totp_recovery_codes)) (d.(password_resets)).
Definition set_member_roles (x : gset (N * N * N)) (d : Db) : Db :=
  mkDb (d.(users)) (d.(refresh_tokens)) (d.(teams)) (d.(team_members)) (d.(roles)) (d.(role_permissions)) x (d.(audit_events)) (d.(team_servers)) (d.(node_revocations)) (d.(team_applications)) (d.(application_members)) (d.(device_keys)) (d.(totp_recovery_codes)) (d.(password_resets)).
Definition set_audit_events (x : gmap N AuditEventRow) (d : Db) : Db :=
  mkDb (d.(users)) (d.(refresh_tokens)) (d.(teams)) (d.(team_members)) (d.(roles)) (d.(role_permissions)) (d.(member_roles)) x (d.(team_servers)) (d.(node_revocations)) (d.(team_applications)) (d.(application_members)) (d.(device_keys)) (d.(totp_recovery_codes)) (d.(password_resets)).
Definition set_team_servers (x : gmap N TeamServerRow) (d : Db) : Db :=
  mkDb (d.(users)) (d.(refresh_tokens)) (d.(teams)) (d.(team_members)) (d.(roles)) (d.(role_permissions)) (d.(member_roles)) (d.(audit_events)) x (d.(node_revocations)) (d.(team_applications)) (d.(application_members)) (d.(device_keys)) (d.(totp_recovery_codes)) (d.(password_resets)).
Definition set_node_revocations (x : gmap N NodeRevocationRow) (d : Db) : Db :=
  mkDb (d.(users)) (d.(refresh_tokens)) (d.(teams)) (d.(team_members)) (d.(roles)) (d.(role_permissions)) (d.(member_roles)) (d.(audit_events)) (d.(team_servers)) x (d.(team_applications)) (d.(application_members)) (d.(device_keys)) (d.(totp_recovery_codes)) (d.(password_resets)).
Definition set_team_applications (x : gmap N TeamApplicationRow) (d : Db) : Db :=
  mkDb (d.(users)) (d.(refresh_tokens)) (d.(teams)) (d.(team_members)) (d.(roles)) (d.(role_permissions)) (d.(member_roles)) (d.(audit_events)) (d.(team_servers)) (d.(node_revocations)) x (d.(application_members)) (d.(device_keys)) (d.(totp_recovery_codes)) (d.(password_resets)).
Definition set_application_members (x : gmap (N * N) ApplicationMemberRow) (d : Db) : Db :=
  mkDb (d.(users)) (d.(refresh_tokens)) (d.(teams)) (d.(team_members)) (d.(roles)) (d.(role_permissions)) (d.(member_roles)) (d.(audit_events)) (d.(team_servers)) (d.(node_revocations)) (d.(team_applications)) x (d.(device_keys)) (d.(totp_recovery_codes)) (d.(password_resets)).
Definition set_device_keys (x : gmap N DeviceKeyRow) (d : Db) : Db :=
  mkDb (d.(users)) (d.(refresh_tokens)) (d.(teams)) (d.(team_members)) (d.(roles)) (d.(role_permissions)) (d.(member_roles)) (d.(audit_events)) (d.(team_servers)) (d.(node_revocations)) (d.(team_applications)) (d.(application_members)) x (d.(totp_recovery_codes)) (d.(password_resets)).
Definition set_totp_recovery_codes (x : gmap (N * list Z) (option Z)) (d : Db) : Db :=
  mkDb (d.(users)) (d.(refresh_tokens)) (d.(teams)) (d.(team_members)) (d.(roles)) (d.(role_permissions)) (d.(member_roles)) (d.(audit_events)) (d.(team_servers)) (d.(node_revocations)) (d.(team_applications)) (d.(application_members)) (d.(device_keys)) x (d.(password_resets)).
Definition set_password_resets (x : gmap N PasswordResetRow) (d : Db) : Db :=
  mkDb (d.(users)) (d.(refresh_tokens)) (d.(teams)) (d.(team_members)) (d.(roles)) (d.(role_permissions)) (d.(member_roles)) (d.(audit_events)) (d.(team_servers)) (d.(node_revocations)) (d.(team_applications)) (d.(application_members)) (d.(device_keys)) (d.(totp_recovery_codes)) x.

(** ** Statements *)

Inductive DbErr : Type :=
| UniqueViolation
| ForeignKeyViolation
| CheckViolation
| RowNotFound
| ConnectionLost.

(** What one statement does: a failure, or its result and the new tables. *)
Abbreviation Stmt A := (Db -> result DbErr (A * Db)).

(** A query leaves the tables alone. *)
Definition query {A} (q : Db -> A) : Stmt A := fun d => Ok (q d, d).

(** [fetch_one] of a query that may have no row. *)
Definition query_one {A} (q : Db -> option A) : Stmt A :=
  fun d => match q d with Some a => Ok (a, d) | None => Err RowNotFound end.

Definition exists_row {K A} `{Countable K} (m : gmap K A) (k : K) : bool := bool_decide (is_Some (m !! k)).

(** A nullable foreign key holds when it is NULL or names a row. *)
Definition opt_ref {A} (m : gmap N A) (k : option N) : bool :=
  match k with None => true | Some k => exists_row m k end.

Definition any_row {K A} `{Countable K} (p : K -> A -> bool) (m : gmap K A) : bool :=
  existsb (fun kv => p kv.1 kv.2) (map_to_list m).

Definition count_rows {K A} `{Countable K} (p : K -> A -> bool) (m : gmap K A) : Z :=
  Z.of_nat (length (List.filter (fun kv => p kv.1 kv.2) (map_to_list m))).

Section rows.
Context {K A : Type} `{Countable K}.
Implicit Types (m : gmap K A) (k : K) (p : K -> A -> bool).

Lemma exists_row_true m k : exists_row m k = true <-> is_Some (m !! k).
Proof. apply bool_decide_eq_true. Qed.

Lemma exists_row_false m k : exists_row m k = false <-> m !! k = None.
Proof. unfold exists_row. rewrite bool_decide_eq_false. symmetry. apply eq_None_not_Some. Qed.

Lemma any_row_true p m : any_row p m = true <-> exists k a, m !! k = Some a /\ p k a = true.
Proof.
  unfold any_row. rewrite existsb_elem_of. split.
  - intros ([k a] & Hin & Hp). apply elem_of_map_to_list in Hin. eauto.
  - intros (k & a & Hm & Hp). exists (k, a). by rewrite elem_of_map_to_list.
Qed.

Lemma any_row_false p m : any_row p m = false <-> forall k a, m !! k = Some a -> p k a = false.
Proof.
  rewrite <-not_true_iff_false, any_row_true. split.
  - intros Hn k a Hm. destruct (p k a) eqn:E; [|done]. exfalso. eauto.
  - intros Hf (k & a & Hm & Hp). rewrite (Hf k a Hm) in Hp. done.
Qed.
End rows.

(** *** users *)

Definition insert_user (id : N) (row : UserRow) : Stmt unit := fun d =>
  if exists_row d.(users) id then Err UniqueViolation
  else if any_row (fun _ u => str_eqb u.(u_email) row.(u_email)) d.(users) then Err UniqueViolation
  else Ok (tt, set_users (<[id := row]> d.(users)) d).

(** [SELECT id FROM users WHERE email = $1]: the column is UNIQUE, so at most one row. *)
Definition find_user_by_email (email : list Z) (d : Db) : option (N * UserRow) :=
  find_first (fun kv => str_eqb kv.2.(u_email) email) (map_to_list d.(users)).

Definition update_user (id : N) (f : UserRow -> UserRow) : Stmt unit := fun d =>
  Ok (tt, set_users (alter f id d.(users)) d).

(** *** teams and team_members *)

Definition insert_team (id : N) (row : TeamRow) : Stmt unit := fun d =>
  if exists_row d.(teams) id then Err UniqueViolation
  else if negb (exists_row d.(users) row.(t_owner_id)) then Err ForeignKeyViolation
  else Ok (tt, set_teams (<[id := row]> d.(teams)) d).

Definition insert_team_member (team_id user_id : N) (joined_at : Z) : Stmt unit := fun d =>
  if exists_row d.(team_members) (team_id, user_id) then Err UniqueViolation
  else if negb (exists_row d.(teams) team_id && exists_row d.(users) user_id) then Err ForeignKeyViolation
  else Ok (tt, set_team_members (<[(team_id, user_id) := joined_at]> d.(team_members)) d).

(** Deleting a membership cascades to [member_roles] and [application_members]. *)
Definition delete_team_member (team_id user_id : N) : Stmt Z := fun d =>
  if exists_row d.(team_members) (team_id, user_id)
  then Ok (1,
    set_member_roles (filter (fun k => k.1 <> (team_id, user_id)) d.(member_roles))
    (set_application_members (filter (fun kv => (kv.2.(am_team_id), kv.1.2) <> (team_id, user_id)) d.(application_members))
    (set_team_members (delete (team_id, user_id) d.(team_members)) d)))
  else Ok (0, d).

(** *** ON DELETE SET NULL of [team_applications.team_server_id] *)

Definition null_server (gone : N -> bool) (ta : TeamApplicationRow) : TeamApplicationRow :=
  match ta.(ta_team_server_id) with
  | Some s =>
      if gone s
      then mkTeamApplication ta.(ta_team_id) None ta.(ta_local_id) ta.(ta_name) ta.(ta_blueprint_id)
             ta.(ta_runtime_type) ta.(ta_working_directory) ta.(ta_ports) ta.(ta_environment)
             ta.(ta_pushed_by) ta.(ta_created_at) ta.(ta_updated_at)
      else ta
  | None => ta
  end.

Definition role_in_team (d : Db) (team_id role_id : N) : bool :=
  match d.(roles) !! role_id with Some r => N.eqb r.(r_team_id) team_id | None => false end.
Definition server_in_team (d : Db) (team_id server_id : N) : bool :=
  match d.(team_servers) !! server_id with Some s => N.eqb s.(ts_team_id) team_id | None => false end.
Definition application_row_in_team (d : Db) (team_id application_id : N) : bool :=
  match d.(team_applications) !! application_id with Some a => N.eqb a.(ta_team_id) team_id | None => false end.

(** [DELETE FROM teams WHERE id = $1]: every table that references the team,
    or a role, server or application of it, cascades. *)
Definition delete_team_row (team_id : N) : Stmt Z := fun d =>
  if negb (exists_row d.(teams) team_id) then Ok (0, d) else
  Ok (1,
    set_teams (delete team_id d.(teams))
    (set_team_members (filter (fun kv => kv.1.1 <> team_id) d.(team_members))
    (set_roles (filter (fun kv => kv.2.(r_team_id) <> team_id) d.(roles))
    (set_role_permissions (filter (fun k => role_in_team d team_id k.1 = false) d.(role_permissions))
    (set_member_roles (filter (fun k => k.1.1 <> team_id /\ role_in_team d team_id k.2 = false) d.(member_roles))
    (set_audit_events (filter (fun kv => kv.2.(ae_team_id) <> team_id) d.(audit_events))
    (set_team_servers (filter (fun kv => kv.2.(ts_team_id) <> team_id) d.(team_servers))
    (set_node_revocations
       (filter (fun kv => kv.2.(nr_team_id) <> team_id /\ server_in_team d team_id kv.2.(nr_team_server_id) = false) d.(node_revocations))
    (set_team_applications
       (null_server (server_in_team d team_id) <$> filter (fun kv => kv.2.(ta_team_id) <> team_id) d.(team_applications))
    (set_application_members
       (filter (fun kv => kv.2.(am_team_id) <> team_id /\ application_row_in_team d team_id kv.1.1 = false) d.(application_members))
     d)))))))))).

(** *** roles, role_permissions and member_roles *)

(** UNIQUE (team_id, name) on [roles]; [self] is the row being updated. *)
Definition role_name_taken (d : Db) (team_id : N) (name : list Z) (self : option N) : bool :=
  any_row (fun id r => N.eqb r.(r_team_id) team_id && str_eqb r.(r_name) name && negb (bool_decide (self = Some id))) d.(roles).

Definition insert_role (id : N) (row : RoleRow) : Stmt unit := fun d =>
  if exists_row d.(roles) id then Err UniqueViolation
  else if role_name_taken d row.(r_team_id) row.(r_name) None then Err UniqueViolation
  else if negb (exists_row d.(teams) row.(r_team_id)) then Err ForeignKeyViolation
  else Ok (tt, set_roles (<[id := row]> d.(roles)) d).

(** [UPDATE roles SET name, description, updated_at WHERE id = $4]. *)
Definition update_role_row (id : N) (name : list Z) (description : option (list Z)) (now : Z) : Stmt unit := fun d =>
  match d.(roles) !! id with
  | None => Ok (tt, d)
  | Some r =>
      if role_name_taken d r.(r_team_id) name (Some id) then Err UniqueViolation
      else Ok (tt, set_roles (<[id := mkRole r.(r_team_id) name description r.(r_is_system) r.(r_created_at) now]> d.(roles)) d)
  end.

(** Deleting a role cascades to its permissions and assignments. *)
Definition delete_role_row (id : N) : Stmt Z := fun d =>
  if negb (exists_row d.(roles) id) then Ok (0, d) else
  Ok (1,
    set_roles (delete id d.(roles))
    (set_role_permissions (filter (fun k => k.1 <> id) d.(role_permissions))
    (set_member_roles (filter (fun k => k.2 <> id) d.(member_roles)) d))).

Definition insert_role_permission (role_id : N) (key : list Z) : Stmt unit := fun d =>
  if bool_decide ((role_id, key) ∈ d.(role_permissions)) then Err UniqueViolation
  else if negb (exists_row d.(roles) role_id) then Err ForeignKeyViolation
  else Ok (tt, set_role_permissions ({[ (role_id, key) ]} ∪ d.(role_permissions)) d).

Definition delete_role_permissions (role_id : N) : Stmt unit := fun d =>
  Ok (tt, set_role_permissions (filter (fun k => k.1 <> role_id) d.(role_permissions)) d).

Definition insert_member_role (team_id user_id role_id : N) : Stmt unit := fun d =>
  if bool_decide ((team_id, user_id, role_id) ∈ d.(member_roles)) then Err UniqueViolation
  else if negb (exists_row d.(roles) role_id && exists_row d.(team_members) (team_id, user_id)) then Err ForeignKeyViolation
  else Ok (tt, set_member_roles ({[ (team_id, user_id, role_id) ]} ∪ d.(member_roles)) d).

Definition delete_member_role (team_id user_id role_id : N) : Stmt Z := fun d =>
  if bool_decide ((team_id, user_id, role_id) ∈ d.(member_roles))
  then Ok (1, set_member_roles (d.(member_roles) ∖ {[ (team_id, user_id, role_id) ]}) d)
  else Ok (0, d).

(** *** audit_events *)

Definition insert_audit_event (id : N) (row : AuditEventRow) : Stmt unit := fun d =>
  if exists_row d.(audit_events) id then Err UniqueViolation
  else if negb (exists_row d.(teams) row.(ae_team_id) && opt_ref d.(users) row.(ae_actor_id)) then Err ForeignKeyViolation
  else Ok (tt, set_audit_events (<[id := row]> d.(audit_events)) d).

(** *** team_servers *)

Definition insert_team_server (id : N) (row : TeamServerRow) : Stmt unit := fun d =>
  if exists_row d.(team_servers) id then Err UniqueViolation
  else if negb (exists_row d.(teams) row.(ts_team_id) && opt_ref d.(users) row.(ts_added_by)) then Err ForeignKeyViolation
  else Ok (tt, set_team_servers (<[id := row]> d.(team_servers)) d).

(** Deleting a server cascades to the revocations owed on it and clears it
    from the applications that run on it. *)
Definition delete_team_server (id team_id : N) : Stmt Z := fun d =>
  if server_in_team d team_id id
  then Ok (1,
    set_team_servers (delete id d.(team_servers))
    (set_node_revocations (filter (fun kv => kv.2.(nr_team_server_id) <> id) d.(node_revocations))
    (set_team_applications (null_server (N.eqb id) <$> d.(team_applications)) d)))
  else Ok (0, d).

(** *** node_revocations *)

(** The partial unique index: one pending row for a server and a user. *)
Definition revocation_pending (d : Db) (server_id user_id : N) : bool :=
  any_row (fun _ r => N.eqb r.(nr_team_server_id) server_id && N.eqb r.(nr_user_id) user_id
                      && bool_decide (r.(nr_completed_at) = None)) d.(node_revocations).

(** One row of [INSERT ... ON CONFLICT DO NOTHING]: skipped when the id or the
    pending pair is taken.  Returns how many rows were written. *)
Definition insert_revocation (id : N) (row : NodeRevocationRow) : Stmt Z := fun d =>
  if exists_row d.(node_revocations) id || revocation_pending d row.(nr_team_server_id) row.(nr_user_id) then Ok (0, d)
  else if negb (exists_row d.(teams) row.(nr_team_id) && exists_row d.(team_servers) row.(nr_team_server_id)
                && opt_ref d.(users) row.(nr_requested_by)) then Err ForeignKeyViolation
  else Ok (1, set_node_revocations (<[id := row]> d.(node_revocations)) d).

(** The servers a team shares, as [SELECT ... FROM team_servers WHERE team_id = $1] returns them. *)
Definition servers_of_team (d : Db) (team_id : N) : list N :=
  map fst (List.filter (fun kv => N.eqb kv.2.(ts_team_id) team_id) (map_to_list d.(team_servers))).

(** [INSERT INTO node_revocations ... SELECT gen_random_uuid(), ... FROM team_servers s WHERE s.team_id = $1]:
    the [i]-th row selected gets the id [ids i]. *)
Fixpoint insert_revocations (ids : nat -> N) (row : N -> NodeRevocationRow) (i : nat) (servers : list N) : Stmt Z := fun d =>
  match servers with
  | [] => Ok (0, d)
  | s :: servers =>
      match insert_revocation (ids i) (row s) d with
      | Err e => Err e
      | Ok (n, d) =>
          match insert_revocations ids row (S i) servers d with
          | Err e => Err e
          | Ok (n', d) => Ok (n + n', d)
          end
      end
  end.

(** [DELETE FROM node_revocations WHERE team_id AND user_id AND completed_at IS NULL]. *)
Definition delete_pending_revocations (team_id user_id : N) : Stmt Z := fun d =>
  let goes r := N.eqb r.(nr_team_id) team_id && N.eqb r.(nr_user_id) user_id && bool_decide (r.(nr_completed_at) = None) in
  Ok (count_rows (fun _ r => goes r) d.(node_revocations),
      set_node_revocations (filter (fun kv => goes kv.2 = false) d.(node_revocations)) d).

(** [UPDATE node_revocations SET completed_at, completed_by WHERE id AND team_id AND completed_at IS NULL
    RETURNING node_username, email]. *)
Definition complete_revocation (id team_id : N) (now : Z) (by_ : N) : Stmt (option (list Z * list Z)) := fun d =>
  match d.(node_revocations) !! id with
  | Some r =>
      if N.eqb r.(nr_team_id) team_id && bool_decide (r.(nr_completed_at) = None)
      then if negb (exists_row d.(users) by_) then Err ForeignKeyViolation
      else Ok (Some (r.(nr_node_username), r.(nr_email)),
               set_node_revocations (<[id := mkNodeRevocation r.(nr_team_id) r.(nr_team_server_id) r.(nr_user_id)
                 r.(nr_node_username) r.(nr_email) r.(nr_requested_at) r.(nr_requested_by) (Some now) (Some by_)]>
                 d.(node_revocations)) d)
      else Ok (None, d)
  | None => Ok (None, d)
  end.

(** *** team_applications and application_members *)

Definition same_local (team_id local_id : N) (ta : TeamApplicationRow) : bool :=
  N.eqb ta.(ta_team_id) team_id && N.eqb ta.(ta_local_id) local_id.

(** The row of this team and local id, UNIQUE (team_id, local_id). *)
Definition find_application (team_id local_id : N) (d : Db) : option (N * TeamApplicationRow) :=
  find_first (fun kv => same_local team_id local_id kv.2) (map_to_list d.(team_applications)).

(** [INSERT ... ON CONFLICT (team_id, local_id) DO UPDATE SET ... RETURNING ...]: the
    row that is there keeps its id, its team, its local id and its creation time. *)
Definition upsert_application (id : N) (row : TeamApplicationRow) : Stmt (N * TeamApplicationRow) := fun d =>
  let refs := exists_row d.(teams) row.(ta_team_id) && opt_ref d.(team_servers) row.(ta_team_server_id)
              && opt_ref d.(users) row.(ta_pushed_by) in
  match find_application row.(ta_team_id) row.(ta_local_id) d with
  | Some (id', old) =>
      let row' := mkTeamApplication old.(ta_team_id) row.(ta_team_server_id) old.(ta_local_id) row.(ta_name)
        row.(ta_blueprint_id) row.(ta_runtime_type) row.(ta_working_directory) row.(ta_ports) row.(ta_environment)
        row.(ta_pushed_by) old.(ta_created_at) row.(ta_updated_at) in
      if refs then Ok ((id', row'), set_team_applications (<[id' := row']> d.(team_applications)) d)
      else Err ForeignKeyViolation
  | None =>
      if exists_row d.(team_applications) id then Err UniqueViolation
      else if refs then Ok ((id, row), set_team_applications (<[id := row]> d.(team_applications)) d)
      else Err ForeignKeyViolation
  end.

(** Deleting an application cascades to its allow-list. *)
Definition delete_application (id team_id : N) : Stmt Z := fun d =>
  if application_row_in_team d team_id id
  then Ok (1,
    set_team_applications (delete id d.(team_applications))
    (set_application_members (filter (fun kv => kv.1.1 <> id) d.(application_members)) d))
  else Ok (0, d).

(** The CHECK on [application_members.permissions], migration 0017. *)
Definition member_permissions_check (permissions : list (list Z)) : bool :=
  forallb (fun p => bool_decide (p ∈ [lit "applications.lifecycle"; lit "applications.console";
                                      lit "applications.files.read"; lit "applications.files.write"])) permissions.

Definition insert_application_member (application_id user_id : N) (row : ApplicationMemberRow) : Stmt unit := fun d =>
  if negb (member_permissions_check row.(am_permissions)) then Err CheckViolation
  else if exists_row d.(application_members) (application_id, user_id) then Err UniqueViolation
  else if negb (exists_row d.(team_applications) application_id && exists_row d.(team_members) (row.(am_team_id), user_id)
                && opt_ref d.(users) row.(am_granted_by)) then Err ForeignKeyViolation
  else Ok (tt, set_application_members (<[(application_id, user_id) := row]> d.(application_members)) d).

(** [UPDATE application_members SET permissions WHERE application_id AND team_id AND user_id]. *)
Definition update_member_permissions (application_id team_id user_id : N) (permissions : list (list Z)) : Stmt Z := fun d =>
  match d.(application_members) !! (application_id, user_id) with
  | Some am =>
      if negb (N.eqb am.(am_team_id) team_id) then Ok (0, d)
      else if negb (member_permissions_check permissions) then Err CheckViolation
      else Ok (1, set_application_members
        (<[(application_id, user_id) := mkApplicationMember am.(am_team_id) am.(am_granted_by) am.(am_granted_at) permissions]>
          d.(application_members)) d)
  | None => Ok (0, d)
  end.

Definition delete_application_member (application_id team_id user_id : N) : Stmt Z := fun d =>
  match d.(application_members) !! (application_id, user_id) with
  | Some am =>
      if N.eqb am.(am_team_id) team_id
      then Ok (1, set_application_members (delete (application_id, user_id) d.(application_members)) d)
      else Ok (0, d)
  | None => Ok (0, d)
  end.

(** *** device_keys *)

Definition find_device_key (user_id : N) (public_key : list Z) (d : Db) : option (N * DeviceKeyRow) :=
  find_first (fun kv => N.eqb kv.2.(dk_user_id) user_id && str_eqb kv.2.(dk_public_key) public_key) (map_to_list d.(device_keys)).

(** [INSERT ... ON CONFLICT (user_id, public_key) DO UPDATE SET seen_at, label RETURNING ...]. *)
Definition upsert_device_key (id : N) (row : DeviceKeyRow) : Stmt (N * DeviceKeyRow) := fun d =>
  match find_device_key row.(dk_user_id) row.(dk_public_key) d with
  | Some (id', old) =>
      let row' := mkDeviceKey old.(dk_user_id) old.(dk_public_key) row.(dk_label) old.(dk_created_at) row.(dk_seen_at) in
      Ok ((id', row'), set_device_keys (<[id' := row']> d.(device_keys)) d)
  | None =>
      if exists_row d.(device_keys) id then Err UniqueViolation
      else if negb (exists_row d.(users) row.(dk_user_id)) then Err ForeignKeyViolation
      else Ok ((id, row), set_device_keys (<[id := row]> d.(device_keys)) d)
  end.

Definition delete_device_key (id user_id : N) : Stmt Z := fun d =>
  match d.(device_keys) !! id with
  | Some k => if N.eqb k.(dk_user_id) user_id then Ok (1, set_device_keys (delete id d.(device_keys)) d) else Ok (0, d)
  | None => Ok (0, d)
  end.

(** *** refresh_tokens *)

Definition insert_refresh_token (id : N) (row : RefreshTokenRow) : Stmt unit := fun d =>
  if exists_row d.(refresh_tokens) id then Err UniqueViolation
  else if any_row (fun _ t => str_eqb t.(rt_token_hash) row.(rt_token_hash)) d.(refresh_tokens) then Err UniqueViolation
  else if negb (exists_row d.(users) row.(rt_user_id)) then Err ForeignKeyViolation
  else Ok (tt, set_refresh_tokens (<[id := row]> d.(refresh_tokens)) d).

Definition find_refresh_token (hash : list Z) (d : Db) : option (N * RefreshTokenRow) :=
  find_first (fun kv => str_eqb kv.2.(rt_token_hash) hash) (map_to_list d.(refresh_tokens)).

Definition stamp_revoked (now : Z) (t : RefreshTokenRow) : RefreshTokenRow :=
  mkRefreshToken t.(rt_user_id) t.(rt_token_hash) t.(rt_created_at) t.(rt_expires_at) (Some now).

(** [UPDATE refresh_tokens SET revoked_at = $1 WHERE id = $2]. *)
Definition revoke_token_by_id (id : N) (now : Z) : Stmt unit := fun d =>
  Ok (tt, set_refresh_tokens (alter (stamp_revoked now) id d.(refresh_tokens)) d).

(** [... WHERE <p> AND revoked_at IS NULL]. *)
Definition revoke_tokens (p : RefreshTokenRow -> bool) (now : Z) : Stmt unit := fun d =>
  Ok (tt, set_refresh_tokens
    ((fun t => if p t && bool_decide (t.(rt_revoked_at) = None) then stamp_revoked now t else t) <$> d.(refresh_tokens)) d).

(** *** totp_recovery_codes *)

Definition insert_recovery_code (user_id : N) (hash : list Z) : Stmt unit := fun d =>
  if exists_row d.(totp_recovery_codes) (user_id, hash) then Err UniqueViolation
  else if negb (exists_row d.(users) user_id) then Err ForeignKeyViolation
  else Ok (tt, set_totp_recovery_codes (<[(user_id, hash) := None]> d.(totp_recovery_codes)) d).

Definition delete_recovery_codes (user_id : N) : Stmt unit := fun d =>
  Ok (tt, set_totp_recovery_codes (filter (fun kv => kv.1.1 <> user_id) d.(totp_recovery_codes)) d).

(** [UPDATE totp_recovery_codes SET used_at WHERE user_id AND code_hash AND used_at IS NULL]. *)
Definition use_recovery_code (user_id : N) (hash : list Z) (now : Z) : Stmt Z := fun d =>
  match d.(totp_recovery_codes) !! (user_id, hash) with
  | Some None => Ok (1, set_totp_recovery_codes (<[(user_id, hash) := Some now]> d.(totp_recovery_codes)) d)
  | _ => Ok (0, d)
  end.

(** *** password_resets *)

Definition insert_password_reset (id : N) (row : PasswordResetRow) : Stmt unit := fun d =>
  if exists_row d.(password_resets) id then Err UniqueViolation
  else if negb (exists_row d.(users) row.(pr_user_id)) then Err ForeignKeyViolation
  else Ok (tt, set_password_resets (<[id := row]> d.(password_resets)) d).

Definition stamp_used (now : Z) (r : PasswordResetRow) : PasswordResetRow :=
  mkPasswordReset r.(pr_user_id) r.(pr_code_hash) r.(pr_attempts) r.(pr_created_at) r.(pr_expires_at) (Some now).

(** [UPDATE password_resets SET used_at = $2 WHERE user_id = $1 AND used_at IS NULL]. *)
Definition retire_resets (user_id : N) (now : Z) : Stmt unit := fun d =>
  Ok (tt, set_password_resets
    ((fun r => if N.eqb r.(pr_user_id) user_id && bool_decide (r.(pr_used_at) = None) then stamp_used now r else r)
      <$> d.(password_resets)) d).

(** [UPDATE password_resets SET attempts = attempts + 1 WHERE id = $1]. *)
Definition count_attempt (id : N) : Stmt unit := fun d =>
  Ok (tt, set_password_resets
    (alter (fun r => mkPasswordReset r.(pr_user_id) r.(pr_code_hash) (r.(pr_attempts) + 1) r.(pr_created_at)
                       r.(pr_expires_at) r.(pr_used_at)) id d.(password_resets)) d).

(** [UPDATE password_resets SET used_at = $2 WHERE id = $1 AND used_at IS NULL]. *)
Definition spend_reset (id : N) (now : Z) : Stmt Z := fun d =>
  match d.(password_resets) !! id with
  | Some r =>
      if bool_decide (r.(pr_used_at) = None)
      then Ok (1, set_password_resets (<[id := stamp_used now r]> d.(password_resets)) d)
      else Ok (0, d)
  | None => Ok (0, d)
  end.

(** ** Inverting statements

    [stmt_inv H] takes the equation [H] that says a statement succeeded and
    leaves what its constraints guarantee and the tables it produced. *)

Ltac row_facts :=
  repeat match goal with
  | H : negb _ = true |- _ => apply negb_true_iff in H
  | H : negb _ = false |- _ => apply negb_false_iff in H
  | H : _ && _ = true |- _ => apply andb_true_iff in H as [? ?]
  | H : _ || _ = false |- _ => apply orb_false_iff in H as [? ?]
  | H : exists_row _ _ = true |- _ => apply exists_row_true in H
  | H : exists_row _ _ = false |- _ => apply exists_row_false in H
  | H : bool_decide _ = true |- _ => apply bool_decide_eq_true in H
  | H : bool_decide _ = false |- _ => apply bool_decide_eq_false in H
  end.

Ltac stmt_inv H :=
  match type of H with ?f _ = _ => let h := head_of f in unfold h in H end;
  repeat match type of H with
  | (if ?b then _ else _) = _ => destruct b eqn:?; try discriminate H
  | (match ?x with _ => _ end) = _ => destruct x eqn:?; try discriminate H
  end;
  injection H as ? ?; subst; row_facts
with head_of f := match f with ?g _ => head_of g | ?g => constr:(g) end.
