(* ===== verification/Api.v ===== *)
(** * Api: the backend's error type and the monad its handlers run in

    [ApiError] and [Detail] are those of [apps/backend/src/errors.rs]; the
    English [message] of a [Detail], a log line and a fallback, is left out.

    A handler is a computation [M A]: it reads and changes the [World] - the
    database, the rate limiter of [AppState], and the outside it asks (clock,
    random UUIDs, random secrets, whether the database answers) - and ends in
    an [ApiResult].  The outside is an oracle the world carries, consumed one
    position at a time, so a run is a function and can be evaluated.

    Every statement may fail because the connection is lost ([o_fault]).
    [transaction] is [begin ... commit]: a body that fails leaves the tables
    as they were, since dropping an uncommitted [sqlx::Transaction] rolls it
    back.  It is serial: PostgreSQL's READ COMMITTED lets another request commit
    between a read and a write of the same transaction, which is modelled where
    a claim depends on it, with the two halves as separate computations
    ([Sessions.check_token] and [Sessions.exchange]). *)

From S2P Require Import Prelude Text RateLimit Db.

#[local] Open Scope Z_scope.

(** ** Errors *)

Record Detail : Type := mkDetail {
  d_code : string;
  d_params : list (string * Json);
}.

Definition detail (code : string) : Detail := mkDetail code [].

(** [Detail::with]. *)
Definition with_param (d : Detail) (slot : string) (value : Json) : Detail :=
  mkDetail d.(d_code) ((slot, value) :: List.filter (fun sv => negb (String.eqb sv.1 slot)) d.(d_params)).

Inductive ApiError : Type :=
| InvalidInput (d : Detail)
| Unauthorized (d : Detail)
| Forbidden (d : Detail)
| Conflict (d : Detail)
| UpstreamFailure (msg : string)
| TooManyRequests (d : Detail)
| PasswordChangeRequired (d : Detail)
| NotFound (d : Detail)
| Internal (e : DbErr + string).

(** HTTP status and [kind] of [IntoResponse for ApiError]. *)
Definition into_response (e : ApiError) : Z * string * option string :=
  match e with
  | InvalidInput d => (400, "invalid_input", Some d.(d_code))
  | Unauthorized d => (401, "unauthorized", Some d.(d_code))
  | Forbidden d => (403, "forbidden", Some d.(d_code))
  | PasswordChangeRequired d => (403, "password_change_required", Some d.(d_code))
  | Conflict d => (409, "conflict", Some d.(d_code))
  | TooManyRequests d => (429, "too_many_requests", Some d.(d_code))
  | NotFound d => (404, "not_found", Some d.(d_code))
  | UpstreamFailure _ => (502, "upstream_failure", None)
  | Internal _ => (500, "internal", None)
  end%string.

Abbreviation ApiResult A := (result ApiError A).

(** ** The world *)

Record Oracle : Type := mkOracle {
  o_clock : nat -> Z;         (* Utc::now(), in microseconds *)
  o_instant : nat -> Z;       (* Instant::now(), in nanoseconds *)
  o_uuid : nat -> N;          (* Uuid::new_v4() *)
  o_secret : nat -> list Z;   (* a freshly generated secret: a token, a password, a code *)
  o_fault : nat -> bool;      (* the database did not answer *)
}.

Record World : Type := mkWorld {
  w_db : Db;
  w_limiter : gmap (list Z) (list Z);
  w_orc : Oracle;
  w_pos : nat;
}.

Definition set_db (d : Db) (w : World) : World := mkWorld d w.(w_limiter) w.(w_orc) w.(w_pos).
Definition bump (w : World) : World := mkWorld w.(w_db) w.(w_limiter) w.(w_orc) (S w.(w_pos)).

(** ** The monad *)

Definition M (A : Type) : Type := World -> ApiResult A * World.

Definition ret {A} (a : A) : M A := fun w => (Ok a, w).
Definition throw {A} (e : ApiError) : M A := fun w => (Err e, w).
Definition bind {A B} (m : M A) (f : A -> M B) : M B := fun w =>
  match m w with
  | (Ok a, w') => f a w'
  | (Err e, w') => (Err e, w')
  end.

Notation "x <- m ;; k" := (bind m (fun x => k)) (at level 100, m at next level, right associativity) : vibe_scope.
Notation "m ;;; k" := (bind m (fun _ => k)) (at level 100, right associativity) : vibe_scope.
Open Scope vibe_scope.

(** A pure [ApiResult], as [?] lifts it. *)
Definition lift {A} (r : ApiResult A) : M A := fun w => (r, w).

(** [if cond { return Err(e) }]. *)
Definition fail_if (cond : bool) (e : ApiError) : M unit := if cond then throw e else ret tt.

Definition now : M Z := fun w => (Ok (o_clock w.(w_orc) w.(w_pos)), bump w).
Definition new_v4 : M N := fun w => (Ok (o_uuid w.(w_orc) w.(w_pos)), bump w).
Definition new_secret : M (list Z) := fun w => (Ok (o_secret w.(w_orc) w.(w_pos)), bump w).

(** One statement, its failure kept as a value (the source inspects it). *)
Definition stmt {A} (q : Stmt A) : M (result DbErr A) := fun w =>
  if o_fault w.(w_orc) w.(w_pos) then (Ok (Err ConnectionLost), bump w) else
  match q w.(w_db) with
  | Ok (a, d) => (Ok (Ok a), set_db d (bump w))
  | Err e => (Ok (Err e), bump w)
  end.

(** [From<sqlx::Error> for ApiError], as [?] applies it. *)
Definition question {A} (r : result DbErr A) : M A :=
  match r with
  | Ok a => ret a
  | Err e => throw (Internal (inl e))
  end.

(** [.execute(db).await?] and [.fetch_*(db).await?]. *)
Definition exec {A} (q : Stmt A) : M A := bind (stmt q) question.

(** The unique-violation test the source writes after an insert: that one
    failure becomes [e], any other goes through [?]. *)
Definition or_unique {A} (q : Stmt A) (e : ApiError) : M A :=
  bind (stmt q) (fun r => match r with
                          | Err UniqueViolation => throw e
                          | r => question r
                          end).

Definition transaction {A} (m : M A) : M A := fun w =>
  if o_fault w.(w_orc) w.(w_pos) then (Err (Internal (inl ConnectionLost)), bump w) else
  match m (bump w) with
  | (Ok a, w') =>
      if o_fault w'.(w_orc) w'.(w_pos)
      then (Err (Internal (inl ConnectionLost)), set_db w.(w_db) (bump w'))
      else (Ok a, bump w')
  | (Err e, w') => (Err e, set_db w.(w_db) w')
  end.

Fixpoint for_each {A} (l : list A) (f : A -> M unit) : M unit :=
  match l with
  | [] => ret tt
  | x :: l => f x ;;; for_each l f
  end.

(** ** Weakest preconditions

    [wp m Q w]: running [m] in [w] ends in a result and a world that satisfy
    [Q].  The rules below execute a handler symbolically; a step hands on the
    tables it leaves and that the outside is the same oracle. *)

Definition wp {A} (m : M A) (Q : ApiResult A -> World -> Prop) (w : World) : Prop :=
  Q (m w).1 (m w).2.

(** The same outside: the oracle is the same and has only been read further,
    and the rate limiter has not been touched. *)
Definition same_env (w w' : World) : Prop :=
  w'.(w_orc) = w.(w_orc) /\ w'.(w_limiter) = w.(w_limiter) /\ (w.(w_pos) <= w'.(w_pos))%nat.

#[global] Instance same_env_preorder : PreOrder same_env.
Proof.
  split.
  - intros w. unfold same_env. auto.
  - intros w1 w2 w3 (?&?&?) (?&?&?). unfold same_env. split_and!; [congruence|congruence|lia].
Qed.

Lemma same_env_bump w : same_env w (bump w).
Proof. unfold same_env, bump; simpl; auto. Qed.
Lemma same_env_set_db d w : same_env w (set_db d w).
Proof. unfold same_env, set_db; simpl; auto. Qed.
#[export] Hint Resolve same_env_bump same_env_set_db : vibe.

Implicit Types (w : World).

Lemma wp_mono {A} (m : M A) (Q Q' : ApiResult A -> World -> Prop) w :
  wp m Q w -> (forall r w', Q r w' -> Q' r w') -> wp m Q' w.
Proof. unfold wp; auto. Qed.

Lemma wp_ret {A} (a : A) Q w : Q (Ok a) w -> wp (ret a) Q w.
Proof. done. Qed.

Lemma wp_throw {A} e (Q : ApiResult A -> World -> Prop) w : Q (Err e) w -> wp (throw e) Q w.
Proof. done. Qed.

Lemma wp_lift {A} (r : ApiResult A) Q w : Q r w -> wp (lift r) Q w.
Proof. done. Qed.

Lemma wp_bind {A B} (m : M A) (f : A -> M B) Q w :
  wp m (fun r w' => match r with Ok a => wp (f a) Q w' | Err e => Q (Err e) w' end) w ->
  wp (bind m f) Q w.
Proof. unfold wp, bind. by destruct (m w) as [[a|e] w']. Qed.

Lemma wp_now Q w :
  (forall t w', t = o_clock w.(w_orc) w.(w_pos) -> w'.(w_db) = w.(w_db) -> same_env w w' -> Q (Ok t) w') ->
  wp now Q w.
Proof. intros H. apply H; auto with vibe. Qed.

Lemma wp_new_v4 Q w :
  (forall u w', (exists n, u = o_uuid w.(w_orc) n) -> w'.(w_db) = w.(w_db) -> same_env w w' -> Q (Ok u) w') ->
  wp new_v4 Q w.
Proof. intros H. apply H; eauto with vibe. Qed.

Lemma wp_new_secret Q w :
  (forall s w', (exists n, s = o_secret w.(w_orc) n) -> w'.(w_db) = w.(w_db) -> same_env w w' -> Q (Ok s) w') ->
  wp new_secret Q w.
Proof. intros H. apply H; eauto with vibe. Qed.

Lemma wp_stmt {A} (q : Stmt A) Q w :
  (forall w' e, w'.(w_db) = w.(w_db) -> same_env w w' ->
     e = ConnectionLost \/ q w.(w_db) = Err e -> Q (Ok (Err e)) w') ->
  (forall a d w', q w.(w_db) = Ok (a, d) -> w'.(w_db) = d -> same_env w w' -> Q (Ok (Ok a)) w') ->
  wp (stmt q) Q w.
Proof.
  intros He Ha. unfold wp, stmt. case_bool; simpl; [apply He; auto with vibe|].
  destruct (q (w_db w)) as [[a d]|e] eqn:E; simpl; [|apply He; auto with vibe].
  eapply Ha; [done|done|]. etrans; [apply same_env_bump|apply same_env_set_db].
Qed.

Lemma wp_exec {A} (q : Stmt A) Q w :
  (forall w' e, w'.(w_db) = w.(w_db) -> same_env w w' -> Q (Err (Internal e)) w') ->
  (forall a d w', q w.(w_db) = Ok (a, d) -> w'.(w_db) = d -> same_env w w' -> Q (Ok a) w') ->
  wp (exec q) Q w.
Proof.
  intros He Ha. unfold exec. apply wp_bind, wp_stmt.
  - intros w' e Hdb Henv _. apply wp_throw. auto.
  - intros a d w' Hq Hdb Henv. apply wp_ret. eauto.
Qed.

Lemma wp_or_unique {A} (q : Stmt A) err Q w :
  (forall w', w'.(w_db) = w.(w_db) -> same_env w w' -> q w.(w_db) = Err UniqueViolation -> Q (Err err) w') ->
  (forall w' e, w'.(w_db) = w.(w_db) -> same_env w w' -> Q (Err (Internal e)) w') ->
  (forall a d w', q w.(w_db) = Ok (a, d) -> w'.(w_db) = d -> same_env w w' -> Q (Ok a) w') ->
  wp (or_unique q err) Q w.
Proof.
  intros Hu He Ha. unfold or_unique. apply wp_bind, wp_stmt.
  - intros w' e Hdb Henv Hq. destruct e; apply wp_throw; auto.
    destruct Hq as [|Hq]; [done|]. auto.
  - intros a d w' Hq Hdb Henv. apply wp_ret. eauto.
Qed.

Lemma wp_transaction {A} (m : M A) (Q : ApiResult A -> World -> Prop) w :
  (forall w' e, w'.(w_db) = w.(w_db) -> same_env w w' -> Q (Err (Internal e)) w') ->
  (forall w1, w1.(w_db) = w.(w_db) -> same_env w w1 ->
     wp m (fun r w2 => same_env w1 w2 /\
       match r with
       | Ok a => forall w', w'.(w_db) = w2.(w_db) -> same_env w w' -> Q (Ok a) w'
       | Err e => forall w', w'.(w_db) = w.(w_db) -> same_env w w' -> Q (Err e) w'
       end) w1) ->
  wp (transaction m) Q w.
Proof.
  intros Hf Hm. unfold wp, transaction. case_bool; simpl; [apply Hf; auto with vibe|].
  specialize (Hm (bump w) eq_refl (same_env_bump w)). unfold wp in Hm.
  destruct (m (bump w)) as [[a|e] w2]; simpl in *; destruct Hm as [Henv Hm].
  - case_bool; simpl.
    + apply Hf; [done|]. etrans; [apply same_env_bump|]. etrans; [exact Henv|].
      etrans; [apply same_env_bump|apply same_env_set_db].
    + apply Hm; [done|]. etrans; [apply same_env_bump|]. etrans; [exact Henv|]. apply same_env_bump.
  - apply Hm; [done|]. etrans; [apply same_env_bump|]. etrans; [exact Henv|]. apply same_env_set_db.
Qed.

(** A failing guard ends the handler where it stands. *)
Lemma wp_fail_if (b : bool) e (Q : ApiResult unit -> World -> Prop) w :
  (b = true -> Q (Err e) w) -> (b = false -> Q (Ok tt) w) -> wp (fail_if b e) Q w.
Proof. intros. unfold fail_if. destruct b; [apply wp_throw|apply wp_ret]; auto. Qed.

(** A loop of statements: an invariant of the tables and the elements done. *)
Lemma wp_for_each {X} (l : list X) (f : X -> M unit) (I : list X -> World -> Prop) (Q : ApiResult unit -> World -> Prop) :
  forall w done,
  I done w ->
  (forall done x w', I done w' -> x ∈ l ->
     wp (f x) (fun r w'' => match r with Ok _ => I (done ++ [x]) w'' | Err e => Q (Err e) w'' end) w') ->
  (forall w', I (done ++ l) w' -> Q (Ok tt) w') ->
  wp (for_each l f) Q w.
Proof.
  induction l as [|x l IH]; intros w dn HI Hstep Hend; simpl.
  - apply wp_ret, Hend. by rewrite app_nil_r.
  - apply wp_bind. eapply wp_mono; [eapply (Hstep dn x); [done|set_solver]|].
    intros [[]|e] w' H; [|done]. apply (IH w' (dn ++ [x])); [done| |].
    + intros dn' y w'' HI' Hy. apply Hstep; [done|set_solver].
    + intros w'' HI'. apply Hend. by rewrite <-app_assoc in HI'.
Qed.

(** ** Symbolic execution

    [at_db w0 d w]: execution that began in [w0] is now in [w], where the
    tables are [d] and the outside is still that of [w0].  The rules below
    are the ones above in this form; [wp_step] applies the one that fits the
    next instruction and settles the branch in which it fails. *)

Definition at_db (w0 : World) (d : Db) (w : World) : Prop := w.(w_db) = d /\ same_env w0 w.

Lemma at_db_refl w : at_db w w.(w_db) w.
Proof. split; [done|reflexivity]. Qed.

Lemma at_db_db w0 d w : at_db w0 d w -> w.(w_db) = d.
Proof. by intros [? _]. Qed.

Lemma at_db_env w0 d w : at_db w0 d w -> same_env w0 w.
Proof. by intros [_ ?]. Qed.

Lemma at_db_trans w0 d w d' w' : at_db w0 d w -> w'.(w_db) = d' -> same_env w w' -> at_db w0 d' w'.
Proof. intros [_ H1] H2 H3. split; [done|]. by etrans. Qed.
#[export] Hint Resolve at_db_refl at_db_db at_db_env : vibe.

(** Execution may be said to begin anew where it is. *)
Lemma at_db_rebase w0 d w : at_db w0 d w -> at_db w d w.
Proof. intros [Hd _]. split; [done|reflexivity]. Qed.

Lemma at_db_chain w0 d w d' w' : at_db w0 d w -> at_db w d' w' -> at_db w0 d' w'.
Proof. intros [_ H1] [H2 H3]. split; [done|by etrans]. Qed.

Lemma wpa_now Q w0 d w :
  at_db w0 d w -> (forall t w', at_db w0 d w' -> Q (Ok t) w') -> wp now Q w.
Proof.
  intros Hat H. apply wp_now. intros t w' _ Hdb Henv. apply H.
  eapply at_db_trans; eauto. rewrite Hdb. by destruct Hat.
Qed.

(** The wall clock said [t] at some moment of the run from [w] to [w']. *)
Definition read_during (w w' : World) (t : Z) : Prop :=
  exists n, (w.(w_pos) <= n < w'.(w_pos))%nat /\ t = o_clock w.(w_orc) n.

Lemma read_during_within w1 w2 w w' t :
  w1.(w_orc) = w.(w_orc) -> (w.(w_pos) <= w1.(w_pos))%nat -> (w2.(w_pos) <= w'.(w_pos))%nat ->
  read_during w1 w2 t -> read_during w w' t.
Proof. intros Ho H1 H2 (n & Hn & ->). exists n. rewrite <- Ho. split; [lia|done]. Qed.

Lemma read_during_after w0 w1 w2 t : same_env w1 w2 -> read_during w0 w1 t -> read_during w0 w2 t.
Proof. intros (_ & _ & Hp). by apply read_during_within. Qed.

(** [wpa_now], when the time matters. *)
Lemma wpa_now_at Q w0 d w :
  at_db w0 d w -> (forall t w', at_db w0 d w' -> read_during w0 w' t -> Q (Ok t) w') -> wp now Q w.
Proof.
  intros Hat H. apply H.
  - eapply at_db_trans; [exact Hat|by destruct Hat|apply same_env_bump].
  - destruct Hat as [_ (Ho & _ & Hp)]. exists w.(w_pos). simpl. rewrite Ho. split; [lia|done].
Qed.

Lemma wpa_new_v4 Q w0 d w :
  at_db w0 d w -> (forall u w', at_db w0 d w' -> (exists n, u = o_uuid w0.(w_orc) n) -> Q (Ok u) w') -> wp new_v4 Q w.
Proof.
  intros Hat H. apply wp_new_v4. intros u w' [n Hn] Hdb Henv. apply H.
  - eapply at_db_trans; eauto. rewrite Hdb. by destruct Hat.
  - exists n. rewrite Hn. f_equal. destruct Hat as [_ (? & _)]. done.
Qed.

Lemma wpa_new_secret Q w0 d w :
  at_db w0 d w -> (forall s w', at_db w0 d w' -> Q (Ok s) w') -> wp new_secret Q w.
Proof.
  intros Hat H. apply wp_new_secret. intros s w' _ Hdb Henv. apply H.
  eapply at_db_trans; eauto. rewrite Hdb. by destruct Hat.
Qed.

Lemma wpa_exec {A} (q : Stmt A) Q w0 d w :
  at_db w0 d w ->
  (forall w' e, at_db w0 d w' -> Q (Err e) w') ->
  (forall a d' w', q d = Ok (a, d') -> at_db w0 d' w' -> Q (Ok a) w') ->
  wp (exec q) Q w.
Proof.
  intros Hat He Ha. pose proof (at_db_db _ _ _ Hat) as Hd. apply wp_exec.
  - intros w' e Hdb Henv. apply He. eapply at_db_trans; eauto. congruence.
  - intros a d' w' Hq Hdb Henv. eapply Ha; [by rewrite <-Hd|]. eapply at_db_trans; eauto.
Qed.

Lemma wpa_query {A} (q : Db -> A) Q w0 d w :
  at_db w0 d w ->
  (forall w' e, at_db w0 d w' -> Q (Err e) w') ->
  (forall w', at_db w0 d w' -> Q (Ok (q d)) w') ->
  wp (exec (query q)) Q w.
Proof. intros Hat He Ha. eapply wpa_exec; [done|done|]. intros a d' w' [= <- <-]. apply Ha. Qed.

Lemma wpa_or_unique {A} (q : Stmt A) err Q w0 d w :
  at_db w0 d w ->
  (forall w' e, at_db w0 d w' -> Q (Err e) w') ->
  (forall a d' w', q d = Ok (a, d') -> at_db w0 d' w' -> Q (Ok a) w') ->
  wp (or_unique q err) Q w.
Proof.
  intros Hat He Ha. pose proof (at_db_db _ _ _ Hat) as Hd. apply wp_or_unique.
  - intros w' Hdb Henv _. apply He. eapply at_db_trans; eauto. congruence.
  - intros w' e Hdb Henv. apply He. eapply at_db_trans; eauto. congruence.
  - intros a d' w' Hq Hdb Henv. eapply Ha; [by rewrite <-Hd|]. eapply at_db_trans; eauto.
Qed.

Lemma wpa_transaction {A} (m : M A) (Q : ApiResult A -> World -> Prop) w0 d w :
  at_db w0 d w ->
  (forall w' e, at_db w0 d w' -> Q (Err e) w') ->
  (forall w1, at_db w0 d w1 ->
     wp m (fun r w2 => match r with
       | Ok a => exists d', at_db w0 d' w2 /\ forall w', at_db w0 d' w' -> Q (Ok a) w'
       | Err _ => same_env w0 w2
       end) w1) ->
  wp (transaction m) Q w.
Proof.
  intros Hat He Hm. unfold wp, transaction. pose proof (same_env_bump w) as Hb.
  assert (Hat1 : at_db w0 d (bump w)) by (by eapply at_db_trans; [exact Hat|exact (at_db_db _ _ _ Hat)|]).
  assert (Hdb : w.(w_db) = d) by eauto with vibe.
  case_bool; simpl; [by apply He|].
  specialize (Hm (bump w) Hat1). unfold wp in Hm.
  destruct (m (bump w)) as [[a|e] w2]; simpl in *.
  - destruct Hm as (d' & Hat2 & HQ). case_bool; simpl.
    + apply He. split; [done|]. destruct Hat2 as [_ Henv]. etrans; [exact Henv|].
      etrans; [apply same_env_bump|apply same_env_set_db].
    + apply HQ. eapply at_db_trans; [exact Hat2|by destruct Hat2|apply same_env_bump].
  - apply He. split; [done|]. etrans; [exact Hm|apply same_env_set_db].
Qed.

(** Settles the branch of a failing step. *)
Ltac wp_err := simpl; solve [ eauto with vibe | done ].

(** The rules of later components: each redefines this hook. *)
Ltac wp_call := fail "no rule for this call".

Ltac wp_step :=
  lazymatch goal with
  | |- wp (bind _ _) _ _ => apply wp_bind; wp_step
  | |- wp (ret _) _ _ => apply wp_ret
  | |- wp (throw _) _ _ => apply wp_throw
  | |- wp (lift _) _ _ => apply wp_lift
  | |- wp (fail_if _ _) _ _ => apply wp_fail_if; [intros _; try wp_err|intros ?]
  | Hat : at_db ?w0 ?d ?w |- wp now _ ?w =>
      apply (wpa_now _ w0 d w Hat); clear Hat; intros ? ? Hat
  | Hat : at_db ?w0 ?d ?w |- wp new_v4 _ ?w =>
      apply (wpa_new_v4 _ w0 d w Hat); clear Hat; intros ? ? Hat ?
  | Hat : at_db ?w0 ?d ?w |- wp new_secret _ ?w =>
      apply (wpa_new_secret _ w0 d w Hat); clear Hat; intros ? ? Hat
  | Hat : at_db ?w0 ?d ?w |- wp (exec (query _)) _ ?w =>
      apply (wpa_query _ _ w0 d w Hat); clear Hat; [intros ? ? Hat; try wp_err|intros ? Hat]
  | Hat : at_db ?w0 ?d ?w |- wp (exec _) _ ?w =>
      apply (wpa_exec _ _ w0 d w Hat); clear Hat; [intros ? ? Hat; try wp_err|intros ? ? ? ? Hat]
  | Hat : at_db ?w0 ?d ?w |- wp (or_unique _ _) _ ?w =>
      apply (wpa_or_unique _ _ _ w0 d w Hat); clear Hat; [intros ? ? Hat; try wp_err|intros ? ? ? ? Hat]
  | Hat : at_db ?w0 ?d ?w |- wp (transaction _) _ ?w =>
      apply (wpa_transaction _ _ w0 d w Hat); clear Hat; [intros ? ? Hat; try wp_err|intros ? Hat]
  | |- wp _ _ _ => wp_call
  end.
