(* ===== verification/Permissions.v ===== *)
(** * Permissions: the permission catalog

    [apps/backend/src/permissions.rs]: the keys, the catalog a role may draw
    on, the part of it the desktop enforces, and the part that can be granted
    on one shared Application. *)

From S2P Require Import Prelude Text.

Definition TEAM_VIEW : list Z := lit "team.view".
Definition TEAM_UPDATE : list Z := lit "team.update".
Definition TEAM_DELETE : list Z := lit "team.delete".
Definition TEAM_MEMBERS_ADD : list Z := lit "team.members.add".
Definition TEAM_MEMBERS_REMOVE : list Z := lit "team.members.remove".
Definition TEAM_ROLES_MANAGE : list Z := lit "team.roles.manage".
Definition TEAM_ROLES_ASSIGN : list Z := lit "team.roles.assign".
Definition AUDIT_VIEW : list Z := lit "audit.view".
Definition SERVERS_MANAGE : list Z := lit "servers.manage".
Definition APPLICATIONS_VIEW : list Z := lit "applications.view".
Definition APPLICATIONS_CREATE : list Z := lit "applications.create".
Definition APPLICATIONS_LIFECYCLE : list Z := lit "applications.lifecycle".
Definition APPLICATIONS_CONSOLE : list Z := lit "applications.console".
Definition APPLICATIONS_DELETE : list Z := lit "applications.delete".
Definition APPLICATIONS_CONFIG : list Z := lit "applications.config".
Definition APPLICATIONS_PORTS : list Z := lit "applications.ports".
Definition APPLICATIONS_FILES_READ : list Z := lit "applications.files.read".
Definition APPLICATIONS_FILES_WRITE : list Z := lit "applications.files.write".
Definition APPLICATIONS_BACKUPS : list Z := lit "applications.backups".
Definition APPLICATIONS_DATABASES : list Z := lit "applications.databases".
Definition NODE_TERMINAL : list Z := lit "node.terminal".
Definition NODE_FIREWALL : list Z := lit "node.firewall".
Definition NODE_SERVICES : list Z := lit "node.services".
Definition NODE_SOFTWARE : list Z := lit "node.software".
Definition NODE_NETWORK : list Z := lit "node.network".

Definition ALL_PERMISSIONS : list (list Z) :=
  [TEAM_VIEW; TEAM_UPDATE; TEAM_DELETE; TEAM_MEMBERS_ADD; TEAM_MEMBERS_REMOVE; TEAM_ROLES_MANAGE;
   TEAM_ROLES_ASSIGN; AUDIT_VIEW; SERVERS_MANAGE; APPLICATIONS_VIEW; APPLICATIONS_CREATE;
   APPLICATIONS_LIFECYCLE; APPLICATIONS_CONSOLE; APPLICATIONS_DELETE; APPLICATIONS_CONFIG;
   APPLICATIONS_PORTS; APPLICATIONS_FILES_READ; APPLICATIONS_FILES_WRITE; APPLICATIONS_BACKUPS;
   APPLICATIONS_DATABASES; NODE_TERMINAL; NODE_FIREWALL; NODE_SERVICES; NODE_SOFTWARE; NODE_NETWORK].

Definition ENFORCED_BY_THE_DESKTOP_APP : list (list Z) :=
  [APPLICATIONS_VIEW; APPLICATIONS_CREATE; APPLICATIONS_LIFECYCLE; APPLICATIONS_CONSOLE;
   APPLICATIONS_DELETE; APPLICATIONS_CONFIG; APPLICATIONS_PORTS; APPLICATIONS_FILES_READ;
   APPLICATIONS_FILES_WRITE; APPLICATIONS_BACKUPS; APPLICATIONS_DATABASES; NODE_TERMINAL;
   NODE_FIREWALL; NODE_SERVICES; NODE_SOFTWARE; NODE_NETWORK].

Definition APPLICATION_SCOPED : list (list Z) :=
  [APPLICATIONS_LIFECYCLE; APPLICATIONS_CONSOLE; APPLICATIONS_FILES_READ; APPLICATIONS_FILES_WRITE].

(** [slice::contains] of a string. *)
Definition contains_key (keys : list (list Z)) (key : list Z) : bool := bool_decide (key ∈ keys).

Definition is_known_permission (key : list Z) : bool := contains_key ALL_PERMISSIONS key.

Lemma is_known_permission_spec key : is_known_permission key = true <-> key ∈ ALL_PERMISSIONS.
Proof. apply bool_decide_eq_true. Qed.

Lemma ALL_PERMISSIONS_NoDup : NoDup ALL_PERMISSIONS.
Proof. apply (bool_decide_unpack _). vm_compute. exact I. Qed.

Lemma APPLICATION_SCOPED_known : forall key, key ∈ APPLICATION_SCOPED -> key ∈ ALL_PERMISSIONS.
Proof. intros key H. unfold APPLICATION_SCOPED, ALL_PERMISSIONS in *. set_solver. Qed.
