(* ===== verification/Rbac.v ===== *)
(** * Rbac: what the team, role and permission endpoints promise

    An abstract specification of the backend's role-based access control: a
    team has an owner and members, a role belongs to a team and carries
    permissions, a member holds roles.  [step drawn a s s'] says what one call by
    user [a] may do to this state, [drawn] being the identifiers the call may
    draw for what it creates, its guards being the rules the handlers
    enforce.  The concrete handlers refine it (see [RbacRefinement]); the
    theorems about permissions are proved here once, by rule induction. *)

From S2P Require Import Prelude Text Permissions.

Create HintDb rbac.

Record state : Type := mkState {
  owner : gmap N N;                 (* team -> the user who owns it *)
  members : gset (N * N);           (* (team, user) *)
  role : gmap N (N * bool);         (* role -> its team, and whether it is built in *)
  perms : gset (N * list Z);        (* (role, permission) *)
  assigned : gset (N * N * N);      (* (team, user, role) *)
}.

(** The permission check of [authorize]: some role the user holds in the team
    carries the permission. *)
Definition holds (s : state) (t u : N) (p : list Z) : Prop :=
  exists r, (t, u, r) ∈ s.(assigned) /\ (r, p) ∈ s.(perms).

Definition role_perms (r : N) (ps : list (list Z)) : gset (N * list Z) :=
  list_to_set (map (pair r) ps).

Lemma elem_of_role_perms r ps r' p : (r', p) ∈ role_perms r ps <-> r' = r /\ p ∈ ps.
Proof.
  unfold role_perms. rewrite elem_of_list_to_set, list_elem_of_In, List.in_map_iff.
  setoid_rewrite <-list_elem_of_In. naive_solver.
Qed.

(** ** The steps *)

Inductive step (drawn : N -> Prop) (a : N) (s : state) : state -> Prop :=
| step_create_team t r :
    drawn t -> s.(owner) !! t = None -> s.(role) !! r = None ->
    step drawn a s (mkState (<[t := a]> s.(owner)) ({[ (t, a) ]} ∪ s.(members)) (<[r := (t, true)]> s.(role))
                (role_perms r ALL_PERMISSIONS ∪ s.(perms)) ({[ (t, a, r) ]} ∪ s.(assigned)))
| step_add_member t u :
    (t, a) ∈ s.(members) -> holds s t a TEAM_MEMBERS_ADD ->
    is_Some (s.(owner) !! t) -> (t, u) ∉ s.(members) ->
    step drawn a s (mkState s.(owner) ({[ (t, u) ]} ∪ s.(members)) s.(role) s.(perms) s.(assigned))
| step_provision t u ro :
    (t, a) ∈ s.(members) -> holds s t a TEAM_MEMBERS_ADD ->
    is_Some (s.(owner) !! t) -> (t, u) ∉ s.(members) ->
    (forall r, ro = Some r -> exists b, s.(role) !! r = Some (t, b)
       /\ forall p, (r, p) ∈ s.(perms) -> holds s t a p) ->
    step drawn a s (mkState s.(owner) ({[ (t, u) ]} ∪ s.(members)) s.(role) s.(perms)
                (match ro with Some r => {[ (t, u, r) ]} ∪ s.(assigned) | None => s.(assigned) end))
| step_remove_member t u o :
    (t, a) ∈ s.(members) -> holds s t a TEAM_MEMBERS_REMOVE ->
    s.(owner) !! t = Some o -> u <> o -> (t, u) ∈ s.(members) ->
    step drawn a s (mkState s.(owner) (s.(members) ∖ {[ (t, u) ]}) s.(role) s.(perms)
                (filter (fun k => k.1 <> (t, u)) s.(assigned)))
| step_delete_team t :
    (t, a) ∈ s.(members) -> holds s t a TEAM_DELETE ->
    step drawn a s (mkState (delete t s.(owner)) (filter (fun k => k.1 <> t) s.(members))
                (filter (fun kv => kv.2.1 <> t) s.(role))
                (filter (fun k => fst <$> s.(role) !! k.1 <> Some t) s.(perms))
                (filter (fun k => k.1.1 <> t /\ fst <$> s.(role) !! k.2 <> Some t) s.(assigned)))
| step_create_role t r ps :
    (t, a) ∈ s.(members) -> holds s t a TEAM_ROLES_MANAGE ->
    is_Some (s.(owner) !! t) -> s.(role) !! r = None ->
    (forall p, p ∈ ps -> p ∈ ALL_PERMISSIONS /\ holds s t a p) ->
    step drawn a s (mkState s.(owner) s.(members) (<[r := (t, false)]> s.(role)) (role_perms r ps ∪ s.(perms)) s.(assigned))
| step_update_role t r ps :
    (t, a) ∈ s.(members) -> holds s t a TEAM_ROLES_MANAGE ->
    s.(role) !! r = Some (t, false) ->
    (forall p, p ∈ ps -> p ∈ ALL_PERMISSIONS /\ holds s t a p) ->
    step drawn a s (mkState s.(owner) s.(members) s.(role)
                (role_perms r ps ∪ filter (fun k => k.1 <> r) s.(perms)) s.(assigned))
| step_delete_role t r :
    (t, a) ∈ s.(members) -> holds s t a TEAM_ROLES_MANAGE ->
    s.(role) !! r = Some (t, false) ->
    step drawn a s (mkState s.(owner) s.(members) (delete r s.(role)) (filter (fun k => k.1 <> r) s.(perms))
                (filter (fun k => k.2 <> r) s.(assigned)))
| step_assign_role t u r b :
    (t, a) ∈ s.(members) -> holds s t a TEAM_ROLES_MANAGE \/ holds s t a TEAM_ROLES_ASSIGN ->
    s.(role) !! r = Some (t, b) -> (forall p, (r, p) ∈ s.(perms) -> holds s t a p) ->
    (t, u) ∈ s.(members) ->
    step drawn a s (mkState s.(owner) s.(members) s.(role) s.(perms) ({[ (t, u, r) ]} ∪ s.(assigned)))
| step_unassign_role t u r b o :
    (t, a) ∈ s.(members) -> holds s t a TEAM_ROLES_MANAGE \/ holds s t a TEAM_ROLES_ASSIGN ->
    s.(role) !! r = Some (t, b) -> s.(owner) !! t = Some o -> (b = true -> u <> o) ->
    step drawn a s (mkState s.(owner) s.(members) s.(role) s.(perms) (s.(assigned) ∖ {[ (t, u, r) ]})).

(** ** The invariant *)

Record inv (s : state) : Prop := {
  inv_assigned : forall t u r, (t, u, r) ∈ s.(assigned) -> (t, u) ∈ s.(members) /\ exists b, s.(role) !! r = Some (t, b);
  inv_perms : forall r p, (r, p) ∈ s.(perms) -> is_Some (s.(role) !! r) /\ p ∈ ALL_PERMISSIONS;
  inv_members : forall t u, (t, u) ∈ s.(members) -> is_Some (s.(owner) !! t);
  inv_role : forall r t b, s.(role) !! r = Some (t, b) -> is_Some (s.(owner) !! t);
  inv_builtin : forall r t p, s.(role) !! r = Some (t, true) -> p ∈ ALL_PERMISSIONS -> (r, p) ∈ s.(perms);
  inv_owner : forall t o, s.(owner) !! t = Some o ->
    (t, o) ∈ s.(members) /\ exists r, s.(role) !! r = Some (t, true) /\ (t, o, r) ∈ s.(assigned);
}.

Definition init : state := mkState ∅ ∅ ∅ ∅ ∅.

Lemma inv_init : inv init.
Proof. split; simpl; try set_solver; intros; by rewrite lookup_empty in *. Qed.

(** Splits an update of a finite map or set at the key it changes. *)
Ltac rbac_simpl :=
  simpl in *; subst;
  repeat match goal with
  | H : (_, _) ∈ role_perms _ _ |- _ => apply elem_of_role_perms in H as [? ?]; subst
  | H : _ ∈ _ ∪ _ |- _ => apply elem_of_union in H as [H|H]
  | H : _ ∈ {[ _ ]} |- _ => apply elem_of_singleton in H
  | H : (_, _) = (_, _) |- _ => injection H as H; subst
  | H : _ ∈ filter _ _ |- _ => apply elem_of_filter in H as [? H]; simpl in *
  | H : _ ∈ _ ∖ _ |- _ => apply elem_of_difference in H as [H ?]
  | H : <[?k := _]> _ !! ?k = Some _ |- _ => rewrite lookup_insert_eq in H; injection H as H; subst
  | H : <[?k := _]> _ !! ?k' = Some _ |- _ =>
      apply lookup_insert_Some in H as [[? H]|[? H]]; subst
  | H : delete _ _ !! _ = Some _ |- _ => apply lookup_delete_Some in H as [? H]
  | H : filter _ _ !! _ = Some _ |- _ => apply map_lookup_filter_Some in H as [H ?]; simpl in *
  end.

(** *** Each clause of the invariant is kept by each step *)

Section preservation.
Context (drawn : N -> Prop) (a : N) (s s' : state) (Hinv : inv s) (Hstep : step drawn a s s').

Lemma step_assigned t u r :
  (t, u, r) ∈ s'.(assigned) -> (t, u) ∈ s'.(members) /\ exists b, s'.(role) !! r = Some (t, b).
Proof.
  intros H. destruct Hstep; try destruct ro; rbac_simpl;
    try match goal with H : (_, _, _) ∈ assigned s |- _ => destruct (inv_assigned s Hinv _ _ _ H) as [? [b' Hb]] end;
    split; try set_solver.
  - exists true. by rewrite lookup_insert_eq.
  - exists b'. rewrite lookup_insert_ne; congruence.
  - exists b'. apply map_lookup_filter_Some. rewrite Hb in *. simpl in *. naive_solver.
  - exists b'. rewrite lookup_insert_ne; congruence.
  - exists b'. by rewrite lookup_delete_ne.
Qed.

Lemma step_perms r p : (r, p) ∈ s'.(perms) -> is_Some (s'.(role) !! r) /\ p ∈ ALL_PERMISSIONS.
Proof.
  intros H. destruct Hstep; rbac_simpl;
    try match goal with H : (_, _) ∈ perms s |- _ => destruct (inv_perms s Hinv _ _ H) as [[[t' b'] Hb] ?] end;
    split; eauto; try solve [naive_solver].
  - rewrite lookup_insert_eq. eauto.
  - rewrite lookup_insert_ne by congruence. eauto.
  - exists (t', b'). apply map_lookup_filter_Some. rewrite Hb in *. simpl in *. naive_solver.
  - rewrite lookup_insert_eq. eauto.
  - rewrite lookup_insert_ne by congruence. eauto.
  - rewrite lookup_delete_ne by done. eauto.
Qed.

Lemma step_owned t : is_Some (s.(owner) !! t) -> (forall t', s'.(owner) = delete t' s.(owner) -> t <> t') -> is_Some (s'.(owner) !! t).
Proof.
  intros Ho Hd. destruct Hstep; simpl in *; try done.
  - destruct (decide (t = t0)); [subst; rewrite lookup_insert_eq; eauto|by rewrite lookup_insert_ne].
  - rewrite lookup_delete_ne; [done|]. intros ->. by eapply Hd.
Qed.

Lemma step_members t u : (t, u) ∈ s'.(members) -> is_Some (s'.(owner) !! t).
Proof.
  intros H. destruct Hstep; rbac_simpl; eauto using inv_members.
  - rewrite lookup_insert_eq. eauto.
  - destruct (decide (t = t0)); [subst; rewrite lookup_insert_eq; eauto|].
    rewrite lookup_insert_ne by done. eauto using inv_members.
  - rewrite lookup_delete_ne by done. eauto using inv_members.
Qed.

Lemma step_role r t b : s'.(role) !! r = Some (t, b) -> is_Some (s'.(owner) !! t).
Proof.
  intros H. destruct Hstep; rbac_simpl; simplify_eq; eauto using inv_role.
  - rewrite lookup_insert_eq. eauto.
  - destruct (decide (t = t0)); [subst; rewrite lookup_insert_eq; eauto|].
    rewrite lookup_insert_ne by done. eauto using inv_role.
  - rewrite lookup_delete_ne by done. eauto using inv_role.
Qed.

Lemma step_builtin r t p : s'.(role) !! r = Some (t, true) -> p ∈ ALL_PERMISSIONS -> (r, p) ∈ s'.(perms).
Proof.
  intros H Hp. destruct Hstep; rbac_simpl; simplify_eq; eauto using inv_builtin.
  - apply elem_of_union_l, elem_of_role_perms. done.
  - apply elem_of_union_r. eauto using inv_builtin.
  - apply elem_of_filter. split; [|eauto using inv_builtin]. simpl. rewrite H. simpl. congruence.
  - apply elem_of_union_r. eauto using inv_builtin.
  - apply elem_of_union_r, elem_of_filter. split; [|eauto using inv_builtin]. simpl. congruence.
  - apply elem_of_filter. split; [|eauto using inv_builtin]. simpl. congruence.
Qed.

Lemma step_owner t o : s'.(owner) !! t = Some o ->
  (t, o) ∈ s'.(members) /\ exists r, s'.(role) !! r = Some (t, true) /\ (t, o, r) ∈ s'.(assigned).
Proof.
  intros H. destruct Hstep; simpl in *.
  1: apply lookup_insert_Some in H as [[<- <-]|[Hne H]].
  1: { split; [set_solver|]. exists r. rewrite lookup_insert_eq. set_solver. }
  5: apply lookup_delete_Some in H as [Hne H].
  all: destruct (inv_owner s Hinv _ _ H) as (Hm & rr & Hr & Ha).
  - split; [set_solver|]. exists rr. rewrite lookup_insert_ne by congruence. set_solver.
  - split; [set_solver|]. eauto.
  - split; [set_solver|]. exists rr. destruct ro; set_solver.
  - assert ((t, o) <> (t0, u)) by (intros ?; simplify_eq).
    split; [set_solver|]. exists rr. split; [done|]. by apply elem_of_filter.
  - split; [by apply elem_of_filter|]. exists rr. split.
    + by apply map_lookup_filter_Some.
    + apply elem_of_filter. simpl. rewrite Hr. simpl. split; [|done]. split; congruence.
  - split; [done|]. exists rr. rewrite lookup_insert_ne by congruence. done.
  - eauto.
  - split; [done|]. assert (rr <> r) by congruence. exists rr.
    rewrite lookup_delete_ne by done. split; [done|]. by apply elem_of_filter.
  - split; [done|]. exists rr. split; [done|]. set_solver.
  - split; [done|]. exists rr. split; [done|]. apply elem_of_difference. split; [done|].
    intros Heq%elem_of_singleton. simplify_eq. naive_solver.
Qed.
End preservation.

(** Every step keeps the invariant. *)
Lemma inv_step drawn a s s' : inv s -> step drawn a s s' -> inv s'.
Proof.
  intros Hinv Hs. split.
  - eauto using step_assigned.
  - eauto using step_perms.
  - eauto using step_members.
  - eauto using step_role.
  - eauto using step_builtin.
  - eauto using step_owner.
Qed.

Lemma step_mono (drawn drawn' : N -> Prop) a s s' :
  (forall t, drawn t -> drawn' t) -> step drawn a s s' -> step drawn' a s s'.
Proof. intros Hd Hs. destruct Hs; econstructor; eauto. Qed.

(** ** Runs: any number of calls by users of a set *)

Inductive run (drawn : N -> Prop) (actors : gset N) (s : state) : state -> Prop :=
| run_refl : run drawn actors s s
| run_step a s1 s2 : run drawn actors s s1 -> a ∈ actors -> step drawn a s1 s2 -> run drawn actors s s2.

Lemma inv_run drawn actors s s' : inv s -> run drawn actors s s' -> inv s'.
Proof. intros Hi Hr. induction Hr; eauto using inv_step. Qed.

(** ** Permissions do not appear from nowhere *)

Lemma holds_known s t u p : inv s -> holds s t u p -> p ∈ ALL_PERMISSIONS.
Proof. intros Hi (r & _ & Hp). by apply (inv_perms s Hi) in Hp as [_ ?]. Qed.

Lemma holds_member s t u p : inv s -> holds s t u p -> (t, u) ∈ s.(members).
Proof. intros Hi (r & Hr & _). by apply (inv_assigned s Hi) in Hr as [? _]. Qed.

Lemma owner_holds_all s t o p : inv s -> s.(owner) !! t = Some o -> p ∈ ALL_PERMISSIONS -> holds s t o p.
Proof.
  intros Hi Ho Hp. destruct (inv_owner s Hi t o Ho) as (_ & r & Hr & Ha).
  exists r. split; [done|]. by eapply inv_builtin.
Qed.

Lemma assigned_role s t u r t' b :
  inv s -> (t, u, r) ∈ s.(assigned) -> s.(role) !! r = Some (t', b) -> t' = t.
Proof. intros Hi Ha Hr. apply (inv_assigned s Hi) in Ha as [_ [b' Hb]]. congruence. Qed.

Lemma unassigned_new s t u r : inv s -> s.(role) !! r = None -> (t, u, r) ∉ s.(assigned).
Proof. intros Hi Hr Ha. apply (inv_assigned s Hi) in Ha as [_ [b' Hb]]. congruence. Qed.

(** A team appears only under an identifier the call drew. *)
Lemma step_new_team drawn a s s' t :
  step drawn a s s' -> is_Some (s'.(owner) !! t) -> is_Some (s.(owner) !! t) \/ drawn t.
Proof.
  intros Hs [o Ho]. destruct Hs; rbac_simpl; simplify_eq; eauto.
Qed.

(** One call by [a] gives a user a permission in a team the call did not
    create only if [a] held that permission in that team. *)
Lemma step_no_escalation drawn a s s' t u p :
  inv s -> step drawn a s s' -> ~ drawn t -> holds s' t u p ->
  holds s t u p \/ holds s t a p.
Proof.
  intros Hi Hs Ht (r & Ha & Hp). unfold holds.
  destruct Hs; try destruct ro; rbac_simpl; simplify_eq; try solve [left; eauto | done].
  - exfalso. by eapply unassigned_new.
  - right. naive_solver.
  - exfalso. by eapply unassigned_new.
  - right. assert (t0 = t) as -> by (by eapply assigned_role). naive_solver.
  - right. naive_solver.
Qed.

(** Users who together do not hold a permission in a team cannot, whatever
    they do and in whatever order, give it to anybody in that team. *)
Lemma run_no_escalation drawn actors s s' t p :
  inv s -> run drawn actors s s' -> ~ drawn t ->
  (forall a, a ∈ actors -> ~ holds s t a p) ->
  forall u, holds s' t u p -> holds s t u p.
Proof.
  intros Hi Hr Ht Hno. induction Hr as [|a s1 s2 Hr IH Ha Hs]; intros u Hu; [done|].
  assert (Hi1 : inv s1) by (by eapply inv_run).
  destruct (step_no_escalation drawn a s1 s2 t u p Hi1 Hs Ht Hu) as [H|H]; [by apply IH|].
  exfalso. apply (Hno a Ha). by apply IH.
Qed.

(** A member who was removed holds nothing in the team. *)
Lemma removed_holds_nothing s t u p :
  inv s -> (t, u) ∉ s.(members) -> ~ holds s t u p.
Proof. intros Hi Hn Hh. apply Hn. by eapply holds_member. Qed.
