(* ===== verification/Authorize.v ===== *)
(** * Authorize: can this user do this on this team

    [apps/backend/src/authorize.rs].  The joins of [member_roles] and
    [role_permissions] are written on the two sets; [effective_permissions]
    is DISTINCT (a set) and ordered by key. *)

From S2P Require Import Prelude Text Db Api Permissions.

#[local] Open Scope Z_scope.

(** [SELECT EXISTS (... mr JOIN rp ... WHERE team, user, rp.permission_key = ANY(keys))]. *)
Definition granted_any (d : Db) (team_id user_id : N) (keys : list (list Z)) : bool :=
  existsb (fun k => bool_decide (k.1 = (team_id, user_id))
                    && existsb (fun key => bool_decide ((k.2, key) ∈ d.(role_permissions))) keys)
    (elements d.(member_roles)).

Definition authorize (team_id user_id : N) (permission : list Z) : M unit :=
  granted <- exec (query (fun d => granted_any d team_id user_id [permission])) ;;
  fail_if (negb granted) (Forbidden (with_param (detail "missing_permission") "permission" (JStr permission))).

Definition authorize_any (team_id user_id : N) (permissions_wanted : list (list Z)) : M unit :=
  granted <- exec (query (fun d => granted_any d team_id user_id permissions_wanted)) ;;
  fail_if (negb granted)
    (Forbidden (with_param (detail "missing_one_of_permissions") "permissions" (JStr (join (lit ", ") permissions_wanted)))).

(** ORDER BY on text: the order of the characters. *)
Fixpoint str_le (a b : list Z) : bool :=
  match a, b with
  | [], _ => true
  | _ :: _, [] => false
  | x :: a, y :: b => if x <? y then true else if x =? y then str_le a b else false
  end.

#[global] Instance str_le_dec : RelDecision (fun a b => str_le a b = true).
Proof. intros a b. apply _. Defined.

Definition order_by_key (l : list (list Z)) : list (list Z) := merge_sort (fun a b => str_le a b = true) l.

Definition effective_set (d : Db) (team_id user_id : N) : gset (list Z) :=
  set_map snd (filter (fun rp : N * list Z => (team_id, user_id, rp.1) ∈ d.(member_roles)) d.(role_permissions)).

Definition effective_permissions (team_id user_id : N) : M (list (list Z)) :=
  exec (query (fun d => order_by_key (elements (effective_set d team_id user_id)))).

Definition ensure_can_grant (team_id actor_id : N) (desired : list (list Z)) : M unit :=
  held <- effective_permissions team_id actor_id ;;
  match find_first (fun permission => negb (contains_key held permission)) desired with
  | Some missing =>
      throw (Forbidden (with_param (detail "cannot_grant_unheld_permission") "permission" (JStr missing)))
  | None => ret tt
  end.

(** ** What the checks decide *)

(** The relation all three checks are about. *)
Definition holds_perm (d : Db) (team_id user_id : N) (p : list Z) : Prop :=
  exists r, (team_id, user_id, r) ∈ d.(member_roles) /\ (r, p) ∈ d.(role_permissions).

Lemma granted_any_spec d t u keys :
  granted_any d t u keys = true <-> exists p, p ∈ keys /\ holds_perm d t u p.
Proof.
  unfold granted_any, holds_perm. rewrite existsb_elem_of. split.
  - intros (k & Hk & [Ek%bool_decide_eq_true Hp]%andb_true_iff).
    apply elem_of_elements in Hk. apply existsb_elem_of in Hp as (p & Hp & Hr%bool_decide_eq_true).
    destruct k as [tu r]. simpl in *. subst. eauto.
  - intros (p & Hp & r & Hr & Hrp). exists (t, u, r). rewrite elem_of_elements. split; [done|]. simpl.
    rewrite bool_decide_eq_true_2 by done. simpl. apply existsb_elem_of. exists p.
    by rewrite bool_decide_eq_true_2.
Qed.

Lemma elem_of_effective_set d t u p : p ∈ effective_set d t u <-> holds_perm d t u p.
Proof.
  unfold effective_set, holds_perm. rewrite elem_of_map. split.
  - intros ([r p'] & -> & Hf). apply elem_of_filter in Hf as [? ?]. eauto.
  - intros (r & Hr & Hp). exists (r, p). split; [done|]. by apply elem_of_filter.
Qed.

Lemma elem_of_order_by_key l (p : list Z) : p ∈ order_by_key l <-> p ∈ l.
Proof. unfold order_by_key. by rewrite merge_sort_Permutation. Qed.

Section wp.
Context (w0 : World) (d : Db) (w : World) (Hat : at_db w0 d w).

Lemma wpa_authorize t u p Q :
  (forall w' e, at_db w0 d w' -> Q (Err e) w') ->
  (forall w', at_db w0 d w' -> holds_perm d t u p -> Q (Ok tt) w') ->
  wp (authorize t u p) Q w.
Proof.
  intros He Ho. unfold authorize. do 2 wp_step.
  apply Ho; [done|]. apply negb_false_iff, granted_any_spec in H as (p' & Hp' & Hh).
  by apply list_elem_of_singleton in Hp' as ->.
Qed.

Lemma wpa_authorize_any t u ps Q :
  (forall w' e, at_db w0 d w' -> Q (Err e) w') ->
  (forall w', at_db w0 d w' -> (exists p, p ∈ ps /\ holds_perm d t u p) -> Q (Ok tt) w') ->
  wp (authorize_any t u ps) Q w.
Proof.
  intros He Ho. unfold authorize_any. do 2 wp_step.
  apply Ho; [done|]. by apply negb_false_iff, granted_any_spec in H.
Qed.

Lemma wpa_ensure_can_grant t u ps Q :
  (forall w' e, at_db w0 d w' -> Q (Err e) w') ->
  (forall w', at_db w0 d w' -> (forall p, p ∈ ps -> holds_perm d t u p) -> Q (Ok tt) w') ->
  wp (ensure_can_grant t u ps) Q w.
Proof.
  intros He Ho. unfold ensure_can_grant, effective_permissions. wp_step.
  destruct (find_first _ ps) as [missing|] eqn:E; wp_step; [by apply He|].
  apply Ho; [done|]. intros p Hp. rewrite find_first_None in E. specialize (E p Hp).
  apply negb_false_iff, bool_decide_eq_true in E.
  by apply elem_of_effective_set, elem_of_elements, elem_of_order_by_key.
Qed.
End wp.
