(* ===== verification/Membership.v ===== *)
(** * Membership: what every team endpoint shares

    The access check [teams::team_for_member], the account name
    [device_keys::node_username], the audit record [audit::record] and the two
    statements of [revocations.rs] that run inside another handler's
    transaction. *)

From S2P Require Import Prelude Text Db Api Permissions Authorize.

#[local] Open Scope Z_scope.

(** [models::Team]. *)
Record Team : Type := mkTeamView { tv_id : N; tv_name : list Z; tv_owner_id : N; tv_created_at : Z }.

Definition team_view (id : N) (t : TeamRow) : Team := mkTeamView id t.(t_name) t.(t_owner_id) t.(t_created_at).

(** [SELECT ... FROM teams t JOIN team_members tm ... WHERE t.id = $1 AND tm.user_id = $2]. *)
Definition member_team (d : Db) (team_id user_id : N) : option Team :=
  match d.(teams) !! team_id with
  | Some t => if exists_row d.(team_members) (team_id, user_id) then Some (team_view team_id t) else None
  | None => None
  end.

Definition team_for_member (team_id user_id : N) : M Team :=
  team <- exec (query (fun d => member_team d team_id user_id)) ;;
  lift (ok_or team (NotFound (detail "team_not_found"))).

(** The account name on a Node: [vibessh-m-] and the first twelve of the 32
    hexadecimal digits of the user id. *)
Definition node_username (user_id : N) : list Z :=
  lit "vibessh-m-" ++ take 12 (hex_fixed 32 (Z.of_N user_id)).

(** ** The audit log *)

Definition TEAM_CREATED : list Z := lit "team.created".
Definition MEMBER_ADDED : list Z := lit "member.added".
Definition MEMBER_REMOVED : list Z := lit "member.removed".
Definition ROLE_CREATED : list Z := lit "role.created".
Definition ROLE_UPDATED : list Z := lit "role.updated".
Definition ROLE_DELETED : list Z := lit "role.deleted".
Definition ROLE_ASSIGNED : list Z := lit "role.assigned".
Definition ROLE_UNASSIGNED : list Z := lit "role.unassigned".
Definition APPLICATION_SHARED : list Z := lit "application.shared".
Definition APPLICATION_UNSHARED : list Z := lit "application.unshared".
Definition APPLICATION_ACCESS_GRANTED : list Z := lit "application.access_granted".
Definition APPLICATION_ACCESS_REVOKED : list Z := lit "application.access_revoked".
Definition APPLICATION_ACCESS_CHANGED : list Z := lit "application.access_changed".
Definition ACCESS_REVOKED : list Z := lit "access.revoked".
Definition SERVER_ADDED : list Z := lit "server.added".
Definition SERVER_REMOVED : list Z := lit "server.removed".

(** [audit::record]; the [result] column defaults to ['success']. *)
Definition audit_record (team_id actor_id : N) (action target_type : list Z) (target_id : option N) (metadata : Json) : M unit :=
  id <- new_v4 ;;
  created_at <- now ;;
  exec (insert_audit_event id
    (mkAuditEvent team_id (Some actor_id) action target_type target_id (lit "success") metadata created_at)).

(** ** Revocations written by other handlers *)

(** The ids [gen_random_uuid()] will give to the rows of one statement. *)
Definition db_uuids : M (nat -> N) := fun w =>
  (Ok (fun i => o_uuid w.(w_orc) (w.(w_pos) + i)%nat),
   mkWorld w.(w_db) w.(w_limiter) w.(w_orc) (w.(w_pos) + S (size w.(w_db).(team_servers)))%nat).

(** [revocations::record_for_removed_member]. *)
Definition record_for_removed_member (team_id user_id : N) (email : list Z) (requested_by : N) : M Z :=
  ids <- db_uuids ;;
  requested_at <- now ;;
  exec (fun d => insert_revocations ids
    (fun server => mkNodeRevocation team_id server user_id (node_username user_id) email requested_at (Some requested_by) None None)
    0 (servers_of_team d team_id) d).

(** [revocations::cancel_for_returning_member]. *)
Definition cancel_for_returning_member (team_id user_id : N) : M Z :=
  exec (delete_pending_revocations team_id user_id).

(** ** Rules *)

Lemma wpa_team_for_member w0 d w t u Q :
  at_db w0 d w ->
  (forall w' e, at_db w0 d w' -> Q (Err e) w') ->
  (forall team w', at_db w0 d w' -> member_team d t u = Some team -> Q (Ok team) w') ->
  wp (team_for_member t u) Q w.
Proof.
  intros Hat He Ho. unfold team_for_member. do 2 wp_step.
  destruct (member_team d t u) as [team|]; simpl; [by apply Ho|by apply He].
Qed.

Lemma member_team_Some d t u team :
  member_team d t u = Some team <->
  exists row, d.(teams) !! t = Some row /\ is_Some (d.(team_members) !! (t, u)) /\ team = team_view t row.
Proof.
  unfold member_team, exists_row. destruct (teams d !! t) as [row|] eqn:E; [|naive_solver].
  case_bool as Eb.
  - apply bool_decide_eq_true in Eb. naive_solver.
  - apply bool_decide_eq_false in Eb. naive_solver.
Qed.

Lemma wpa_db_uuids w0 d w Q :
  at_db w0 d w ->
  (forall ids w', at_db w0 d w' -> (exists n, forall i, ids i = o_uuid w0.(w_orc) (n + i)%nat) -> Q (Ok ids) w') ->
  wp db_uuids Q w.
Proof.
  intros [Hd (Ho & Hl & Hp)] H. apply H.
  - split; [done|]. unfold same_env. simpl. split_and!; [done|done|lia].
  - exists w.(w_pos). intros i. by rewrite Ho.
Qed.

(** The effect of an audit record: one more event, about this team and actor,
    every other table untouched. *)
Definition audited (team_id actor_id : N) (action target_type : list Z) (target_id : option N) (metadata : Json) (d d' : Db) : Prop :=
  exists id t, d.(audit_events) !! id = None /\ d' =
    set_audit_events (<[id := mkAuditEvent team_id (Some actor_id) action target_type target_id (lit "success") metadata t]> d.(audit_events)) d.

Lemma wpa_audit_record w0 d w t a action ty tid md Q :
  at_db w0 d w ->
  (forall w' e, at_db w0 d w' -> Q (Err e) w') ->
  (forall d' w', at_db w0 d' w' -> audited t a action ty tid md d d' -> Q (Ok tt) w') ->
  wp (audit_record t a action ty tid md) Q w.
Proof.
  intros Hat He Ho. unfold audit_record. do 3 wp_step.
  match goal with H : insert_audit_event _ _ _ = _ |- _ => stmt_inv H end.
  eapply Ho; [exact Hat|]. by eexists _, _.
Qed.

Ltac wp_call ::=
  lazymatch goal with
  | Hat : at_db ?w0 ?d ?w |- wp (authorize _ _ _) _ ?w =>
      apply (wpa_authorize w0 d w Hat); clear Hat; [intros ? ? Hat; try wp_err|intros ? Hat ?]
  | Hat : at_db ?w0 ?d ?w |- wp (authorize_any _ _ _) _ ?w =>
      apply (wpa_authorize_any w0 d w Hat); clear Hat; [intros ? ? Hat; try wp_err|intros ? Hat ?]
  | Hat : at_db ?w0 ?d ?w |- wp (ensure_can_grant _ _ _) _ ?w =>
      apply (wpa_ensure_can_grant w0 d w Hat); clear Hat; [intros ? ? Hat; try wp_err|intros ? Hat ?]
  | Hat : at_db ?w0 ?d ?w |- wp (team_for_member _ _) _ ?w =>
      apply (wpa_team_for_member w0 d w _ _ _ Hat); clear Hat; [intros ? ? Hat; try wp_err|intros ? ? Hat ?]
  | Hat : at_db ?w0 ?d ?w |- wp (audit_record _ _ _ _ _ _) _ ?w =>
      apply (wpa_audit_record w0 d w _ _ _ _ _ _ _ Hat); clear Hat; [intros ? ? Hat; try wp_err|intros ? ? Hat ?]
  | Hat : at_db ?w0 ?d ?w |- wp db_uuids _ ?w =>
      apply (wpa_db_uuids w0 d w _ Hat); clear Hat; intros ? ? Hat ?
  end.

(** [for key in keys { INSERT INTO role_permissions ... }]. *)
Definition insert_all_permissions (role_id : N) (keys : list (list Z)) : M unit :=
  for_each keys (fun key => exec (insert_role_permission role_id key)).

Definition with_role_permissions (role_id : N) (keys : list (list Z)) (d : Db) : Db :=
  set_role_permissions (list_to_set (map (pair role_id) keys) ∪ d.(role_permissions)) d.

Lemma set_role_permissions_id d : set_role_permissions d.(role_permissions) d = d.
Proof. by destruct d. Qed.

Lemma wpa_insert_all_permissions w0 role_id keys (Q : ApiResult unit -> World -> Prop) : forall d w,
  at_db w0 d w ->
  (forall w' d' e, at_db w0 d' w' -> Q (Err e) w') ->
  (forall w', at_db w0 (with_role_permissions role_id keys d) w' -> Q (Ok tt) w') ->
  wp (insert_all_permissions role_id keys) Q w.
Proof.
  unfold insert_all_permissions.
  induction keys as [|key keys IH]; intros d w Hat He Ho; simpl.
  - wp_step. apply Ho. unfold with_role_permissions. simpl. rewrite union_empty_l_L. by rewrite set_role_permissions_id.
  - wp_step. match goal with H : insert_role_permission _ _ _ = _ |- _ => stmt_inv H end.
    eapply IH; [exact Hat|eauto|]. intros w2 Hat2. apply Ho. unfold with_role_permissions in *. simpl in *.
    by rewrite union_assoc_L, (union_comm_L _ {[_]}) in Hat2.
Qed.
