(* ===== verification/Accounts.v ===== *)
(** * Accounts: what an email, a password and a display name must look like

    The validators of [apps/backend/src/auth.rs] that the team endpoints use
    too, and the interface to password hashing ([password.rs] on Argon2). *)

From S2P Require Import Prelude Text Db Api.

#[local] Open Scope Z_scope.

Definition MIN_PASSWORD_LEN : Z := 8.
Definition MAX_PASSWORD_LEN : Z := 256.
Definition MAX_DISPLAY_NAME_LEN : Z := 100.

(** Argon2 hashing and verification, from the [argon2] crate: [hash_password]
    draws a salt, and what it returns verifies against the same password. *)
Class PasswordHashing : Type := {
  argon2_hash : list Z -> list Z -> result string (list Z);   (* salt, password *)
  argon2_verify : list Z -> list Z -> bool;                   (* password, stored PHC string *)
  argon2_hash_verifies : forall salt p h, argon2_hash salt p = Ok h -> argon2_verify p h = true;
}.

(** A hash that keeps the password in it: enough to run the handlers. *)
#[global] Program Instance plain_hashing : PasswordHashing | 100 := {|
  argon2_hash salt p := Ok (lit "$argon2$" ++ p);
  argon2_verify p h := str_eqb (lit "$argon2$" ++ p) h;
|}.
Next Obligation. intros salt p h [= <-]. by apply bool_decide_eq_true. Qed.

Definition hash_password `{PasswordHashing} (password : list Z) : M (list Z) :=
  salt <- new_secret ;;
  match argon2_hash salt password with
  | Ok h => ret h
  | Err e => throw (Internal (inr e))
  end.

Definition normalize_email `{UnicodeCase} (email : list Z) : list Z := to_lowercase (trim email).

Definition validate_email (email : list Z) : ApiResult unit :=
  match split_once 64 email with
  | None => Err (InvalidInput (detail "email_missing_at"))
  | Some (local, domain) =>
      if is_empty local || is_empty domain || negb (contains_char 46 domain) || existsb is_whitespace email
      then Err (InvalidInput (detail "email_invalid"))
      else Ok tt
  end.

Definition validate_password (password : list Z) : ApiResult unit :=
  if chars_count password <? MIN_PASSWORD_LEN
  then Err (InvalidInput (with_param (detail "password_too_short") "min" (JNum MIN_PASSWORD_LEN)))
  else if MAX_PASSWORD_LEN <? byte_len password
  then Err (InvalidInput (with_param (detail "password_too_long") "max" (JNum MAX_PASSWORD_LEN)))
  else Ok tt.

Definition validate_display_name (name : list Z) : ApiResult (list Z) :=
  let trimmed := trim name in
  if is_empty trimmed then Err (InvalidInput (detail "display_name_empty"))
  else if MAX_DISPLAY_NAME_LEN <? chars_count trimmed
  then Err (InvalidInput (with_param (detail "display_name_too_long") "max" (JNum MAX_DISPLAY_NAME_LEN)))
  else Ok trimmed.

Lemma wpa_hash_password `{PasswordHashing} w0 d w p (Q : ApiResult (list Z) -> World -> Prop) :
  at_db w0 d w ->
  (forall w' e, at_db w0 d w' -> Q (Err e) w') ->
  (forall w' h, at_db w0 d w' -> argon2_verify p h = true -> Q (Ok h) w') ->
  wp (hash_password p) Q w.
Proof.
  intros Hat He Ho. unfold hash_password. wp_step.
  destruct (argon2_hash s p) as [h|e] eqn:E; wp_step; [|by apply He].
  apply Ho; [done|]. by eapply argon2_hash_verifies.
Qed.
