(* ===== verification/Teams.v ===== *)
(** * Teams: the endpoints of [apps/backend/src/teams.rs]

    Each handler is one definition, with its checks in the order the source
    makes them.  The user id is the one [AuthUser] extracted; the status code
    is part of the result. *)

From S2P Require Import Prelude Text Db Api Permissions Authorize Membership Accounts.

#[local] Open Scope Z_scope.

Definition OWNER_ROLE_NAME : list Z := lit "Owner".
Definition MAX_TEAM_NAME_LEN : Z := 100.

(** [POST /teams]. *)
Definition create_team (user_id : N) (body_name : list Z) : M (Z * Team) :=
  let name := trim body_name in
  fail_if (is_empty name) (InvalidInput (detail "team_name_empty")) ;;;
  fail_if (MAX_TEAM_NAME_LEN <? chars_count name)
    (InvalidInput (with_param (detail "team_name_too_long") "max" (JNum MAX_TEAM_NAME_LEN))) ;;;
  team_id <- new_v4 ;;
  t <- now ;;
  transaction (
    exec (insert_team team_id (mkTeam name user_id t t)) ;;;
    exec (insert_team_member team_id user_id t) ;;;
    owner_role_id <- new_v4 ;;
    exec (insert_role owner_role_id
      (mkRole team_id OWNER_ROLE_NAME
        (Some (lit "Full control over the team - every permission, cannot be edited or deleted.")) true t t)) ;;;
    insert_all_permissions owner_role_id ALL_PERMISSIONS ;;;
    exec (insert_member_role team_id user_id owner_role_id) ;;;
    audit_record team_id user_id TEAM_CREATED (lit "team") (Some team_id) (JObj [("name"%string, JStr name)])) ;;;
  ret (201, mkTeamView team_id name user_id t).

(** [ORDER BY created_at] and the like. *)
Definition key_le {A} (key : A -> Z) (a b : A) : Prop := key a <= key b.
#[global] Instance key_le_dec {A} (key : A -> Z) : RelDecision (key_le key).
Proof. intros a b. unfold key_le. apply _. Defined.

Definition order_by {A} (key : A -> Z) (l : list A) : list A := merge_sort (key_le key) l.

(** The first of the rows in order is one of them, and none comes before it. *)
Lemma order_by_head {A} (key : A -> Z) (l : list A) (a : A) :
  head (order_by key l) = Some a -> a ∈ l /\ forall b, b ∈ l -> key a <= key b.
Proof.
  assert (Ht : Transitive (key_le key)) by (intros x y z; unfold key_le; lia).
  assert (Htot : Total (key_le key)) by (intros x y; unfold key_le; lia).
  pose proof (merge_sort_Permutation (key_le key) l) as Hp. pose proof (StronglySorted_merge_sort (key_le key) l) as Hs.
  unfold order_by. destruct (merge_sort (key_le key) l) as [|x rest]; [done|]. intros [= <-].
  split; [rewrite <- Hp; set_solver|]. intros b. rewrite <- Hp. intros [->|Hb]%elem_of_cons; [done|].
  apply StronglySorted_inv in Hs as [_ Hall]. rewrite Forall_forall in Hall. by apply (Hall b).
Qed.

(** [GET /teams]. *)
Definition list_teams (user_id : N) : M (list Team) :=
  exec (query (fun d => order_by tv_created_at
    (map (fun kv => team_view kv.1 kv.2)
      (List.filter (fun kv => exists_row d.(team_members) (kv.1, user_id)) (map_to_list d.(teams)))))).

(** [GET /teams/:team_id]. *)
Definition get_team (user_id team_id : N) : M Team := team_for_member team_id user_id.

(** [models::TeamMember]. *)
Record TeamMember : Type := mkTeamMember {
  tm_user_id : N; tm_email : list Z; tm_display_name : list Z; tm_joined_at : Z; tm_is_owner : bool;
}.

Definition members_of_team (d : Db) (team_id : N) : list TeamMember :=
  omap (fun kv : N * N * Z =>
    if negb (N.eqb kv.1.1 team_id) then None else
    match d.(users) !! kv.1.2, d.(teams) !! team_id with
    | Some u, Some t => Some (mkTeamMember kv.1.2 u.(u_email) u.(u_display_name) kv.2 (N.eqb t.(t_owner_id) kv.1.2))
    | _, _ => None
    end) (map_to_list d.(team_members)).

(** [GET /teams/:team_id/members]. *)
Definition list_members (user_id team_id : N) : M (list TeamMember) :=
  team_for_member team_id user_id ;;;
  exec (query (fun d => order_by tm_joined_at (members_of_team d team_id))).

(** [POST /teams/:team_id/members]. *)
Definition add_member `{UnicodeCase} (user_id team_id : N) (body_email : list Z) : M Z :=
  team_for_member team_id user_id ;;;
  authorize team_id user_id TEAM_MEMBERS_ADD ;;;
  let email := to_lowercase (trim body_email) in
  found <- exec (query (fun d => fst <$> find_user_by_email email d)) ;;
  target_user_id <- lift (ok_or found (NotFound (detail "no_account_with_email"))) ;;
  transaction (
    t <- now ;;
    or_unique (insert_team_member team_id target_user_id t) (Conflict (detail "already_a_team_member")) ;;;
    cancelled <- cancel_for_returning_member team_id target_user_id ;;
    audit_record team_id user_id MEMBER_ADDED (lit "user") (Some target_user_id)
      (JObj [("email"%string, JStr email); ("revocations_cancelled"%string, JNum cancelled)])) ;;;
  ret 201.

(** [models::UserProfile] and [models::ProvisionedMember]. *)
Record UserProfile : Type := mkProfile {
  up_id : N; up_email : list Z; up_display_name : list Z; up_created_at : Z;
  up_must_change_password : bool; up_two_factor_enabled : bool;
}.

Record ProvisionedMember : Type := mkProvisioned {
  pm_user : UserProfile; pm_temporary_password : list Z; pm_role_assigned : bool;
}.

(** The permissions of a role of this team: no row when the role is not one of it. *)
Definition permissions_of_role (d : Db) (role_id : N) : list (list Z) :=
  map snd (List.filter (fun rp => N.eqb rp.1 role_id) (elements d.(role_permissions))).

Definition permissions_of_team_role (d : Db) (team_id role_id : N) : list (list Z) :=
  if role_in_team d team_id role_id then permissions_of_role d role_id else [].

Definition when_some {A} (o : option A) (f : A -> M unit) : M unit :=
  match o with Some a => f a | None => ret tt end.

(** [POST /teams/:team_id/members/provision]. *)
Definition provision_member `{UnicodeCase, PasswordHashing}
    (actor_id team_id : N) (body_email : list Z) (body_display_name : option (list Z)) (body_role_id : option N)
    : M (Z * ProvisionedMember) :=
  team_for_member team_id actor_id ;;;
  authorize team_id actor_id TEAM_MEMBERS_ADD ;;;
  let email := normalize_email body_email in
  lift (validate_email email) ;;;
  display_name <- lift (
    match option_map trim body_display_name with
    | Some ((_ :: _) as name) => validate_display_name name
    | _ => validate_display_name (default (lit "member") (head (split_on (Z.eqb 64) email)))
    end) ;;
  existing <- exec (query (fun d => fst <$> find_user_by_email email d)) ;;
  fail_if (bool_decide (is_Some existing)) (Conflict (detail "email_taken_add_as_member")) ;;;
  when_some body_role_id (fun role_id =>
    role_permissions <- exec (query (fun d => permissions_of_team_role d team_id role_id)) ;;
    ensure_can_grant team_id actor_id role_permissions) ;;;
  temporary_password <- new_secret ;;
  password_hash <- hash_password temporary_password ;;
  new_user_id <- new_v4 ;;
  t <- now ;;
  transaction (
    or_unique (insert_user new_user_id (mkUser email password_hash display_name t t true None None None None))
      (Conflict (detail "email_taken_add_as_member")) ;;;
    exec (insert_team_member team_id new_user_id t) ;;;
    when_some body_role_id (fun role_id =>
      belongs <- exec (query (fun d => role_in_team d team_id role_id)) ;;
      fail_if (negb belongs) (NotFound (detail "role_not_found")) ;;;
      exec (insert_member_role team_id new_user_id role_id)) ;;;
    audit_record team_id actor_id MEMBER_ADDED (lit "user") (Some new_user_id)
      (JObj [("email"%string, JStr email); ("provisioned"%string, JBool true);
             ("role_assigned"%string, JBool (bool_decide (is_Some body_role_id)))])) ;;;
  ret (201, mkProvisioned (mkProfile new_user_id email display_name t true false)
         temporary_password (bool_decide (is_Some body_role_id))).

(** [DELETE /teams/:team_id/members/:user_id]. *)
Definition remove_member (user_id team_id target_user_id : N) : M Z :=
  team <- team_for_member team_id user_id ;;
  authorize team_id user_id TEAM_MEMBERS_REMOVE ;;;
  fail_if (N.eqb target_user_id team.(tv_owner_id)) (Conflict (detail "owner_cannot_be_removed")) ;;;
  transaction (
    affected <- exec (delete_team_member team_id target_user_id) ;;
    fail_if (affected =? 0) (NotFound (detail "not_a_team_member")) ;;;
    email <- exec (query_one (fun d => u_email <$> d.(users) !! target_user_id)) ;;
    nodes <- record_for_removed_member team_id target_user_id email user_id ;;
    audit_record team_id user_id MEMBER_REMOVED (lit "user") (Some target_user_id)
      (JObj [("email"%string, JStr email); ("revocations_pending"%string, JNum nodes)])) ;;;
  ret 204.

(** [DELETE /teams/:team_id]. *)
Definition delete_team (user_id team_id : N) : M Z :=
  team_for_member team_id user_id ;;;
  authorize team_id user_id TEAM_DELETE ;;;
  exec (delete_team_row team_id) ;;;
  ret 204.
