(* ===== verification/Roles.v ===== *)
(** * Roles: the endpoints of [apps/backend/src/roles.rs] *)

From S2P Require Import Prelude Text Db Api Permissions Authorize Membership Teams.

#[local] Open Scope Z_scope.

Definition MAX_ROLE_NAME_LEN : Z := 60.

(** [models::Role] and [models::RoleWithPermissions]. *)
Record Role : Type := mkRoleView {
  rv_id : N; rv_team_id : N; rv_name : list Z; rv_description : option (list Z); rv_is_system : bool; rv_created_at : Z;
}.

Record RoleWithPermissions : Type := mkRoleWithPermissions { rwp_role : Role; rwp_permissions : list (list Z) }.

Definition role_view (id : N) (r : RoleRow) : Role :=
  mkRoleView id r.(r_team_id) r.(r_name) r.(r_description) r.(r_is_system) r.(r_created_at).

Definition find_team_role (d : Db) (team_id role_id : N) : option Role :=
  match d.(roles) !! role_id with
  | Some r => if N.eqb r.(r_team_id) team_id then Some (role_view role_id r) else None
  | None => None
  end.

Definition role_for_team (team_id role_id : N) : M Role :=
  role <- exec (query (fun d => find_team_role d team_id role_id)) ;;
  lift (ok_or role (NotFound (detail "role_not_found"))).

Definition with_permissions (role : Role) : M RoleWithPermissions :=
  permissions <- exec (query (fun d => order_by_key (permissions_of_role d role.(rv_id)))) ;;
  ret (mkRoleWithPermissions role permissions).

Definition validate_role_name (name : list Z) : ApiResult (list Z) :=
  let trimmed := trim name in
  if is_empty trimmed then Err (InvalidInput (detail "role_name_empty"))
  else if MAX_ROLE_NAME_LEN <? chars_count trimmed
  then Err (InvalidInput (with_param (detail "role_name_too_long") "max" (JNum MAX_ROLE_NAME_LEN)))
  else if eq_ignore_ascii_case trimmed OWNER_ROLE_NAME
  then Err (InvalidInput (with_param (detail "role_name_reserved") "name" (JStr OWNER_ROLE_NAME)))
  else Ok trimmed.

Fixpoint validate_permission_keys (keys : list (list Z)) : ApiResult unit :=
  match keys with
  | [] => Ok tt
  | key :: keys =>
      if negb (is_known_permission key)
      then Err (InvalidInput (with_param (detail "unknown_permission") "permission" (JStr key)))
      else validate_permission_keys keys
  end.

(** The filter keeps a key the first time it is seen. *)
Fixpoint dedupe_seen (seen : gset (list Z)) (keys : list (list Z)) : list (list Z) :=
  match keys with
  | [] => []
  | key :: keys =>
      if bool_decide (key ∈ seen) then dedupe_seen seen keys
      else key :: dedupe_seen ({[ key ]} ∪ seen) keys
  end.

Definition dedupe_permissions (keys : list (list Z)) : list (list Z) := dedupe_seen ∅ keys.

Definition replace_role_permissions (role_id : N) (keys : list (list Z)) : M unit :=
  exec (delete_role_permissions role_id) ;;;
  insert_all_permissions role_id keys.

(** [backfill_system_role_permissions]: the whole catalog for every built-in
    role, ON CONFLICT DO NOTHING; the result is the number of rows added. *)
Definition missing_catalog (d : Db) : gset (N * list Z) :=
  list_to_set (map fst (List.filter (fun kv => r_is_system kv.2) (map_to_list d.(roles))) ≫=
    fun r => map (pair r) ALL_PERMISSIONS) ∖ d.(role_permissions).

Definition backfill_stmt : Stmt Z := fun d =>
  Ok (Z.of_nat (size (missing_catalog d)), set_role_permissions (missing_catalog d ∪ d.(role_permissions)) d).

Definition backfill_system_role_permissions : M Z := exec backfill_stmt.

Definition list_permissions : list (list Z) := ALL_PERMISSIONS.

(** [GET /teams/:team_id/me/permissions]. *)
Definition my_permissions (user_id team_id : N) : M (list (list Z)) :=
  team_for_member team_id user_id ;;;
  effective_permissions team_id user_id.

Definition metadata_of_role (name : list Z) (permissions : list (list Z)) : Json :=
  JObj [("name"%string, JStr name); ("permissions"%string, JArr (map JStr permissions))].

(** [POST /teams/:team_id/roles]. *)
Definition create_role (user_id team_id : N) (body_name : list Z) (body_description : option (list Z)) (body_permissions : list (list Z))
    : M (Z * RoleWithPermissions) :=
  team_for_member team_id user_id ;;;
  authorize team_id user_id TEAM_ROLES_MANAGE ;;;
  name <- lift (validate_role_name body_name) ;;
  lift (validate_permission_keys body_permissions) ;;;
  let permissions_to_grant := dedupe_permissions body_permissions in
  ensure_can_grant team_id user_id permissions_to_grant ;;;
  role_id <- new_v4 ;;
  t <- now ;;
  transaction (
    or_unique (insert_role role_id (mkRole team_id name body_description false t t)) (Conflict (detail "role_name_taken")) ;;;
    insert_all_permissions role_id permissions_to_grant ;;;
    audit_record team_id user_id ROLE_CREATED (lit "role") (Some role_id) (metadata_of_role name permissions_to_grant)) ;;;
  rwp <- with_permissions (mkRoleView role_id team_id name body_description false t) ;;
  ret (201, rwp).

(** [GET /teams/:team_id/roles]. *)
Definition list_roles (user_id team_id : N) : M (list RoleWithPermissions) :=
  team_for_member team_id user_id ;;;
  rows <- exec (query (fun d => order_by rv_created_at
    (map (fun kv => role_view kv.1 kv.2) (List.filter (fun kv => N.eqb (r_team_id kv.2) team_id) (map_to_list d.(roles)))))) ;;
  (fix go (rows : list Role) : M (list RoleWithPermissions) :=
     match rows with
     | [] => ret []
     | role :: rows => r <- with_permissions role ;; rest <- go rows ;; ret (r :: rest)
     end) rows.

(** [GET /teams/:team_id/roles/:role_id]. *)
Definition get_role (user_id team_id role_id : N) : M RoleWithPermissions :=
  team_for_member team_id user_id ;;;
  role <- role_for_team team_id role_id ;;
  with_permissions role.

(** [PATCH /teams/:team_id/roles/:role_id]. *)
Definition update_role (user_id team_id role_id : N) (body_name : list Z) (body_description : option (list Z)) (body_permissions : list (list Z))
    : M RoleWithPermissions :=
  team_for_member team_id user_id ;;;
  authorize team_id user_id TEAM_ROLES_MANAGE ;;;
  role <- role_for_team team_id role_id ;;
  fail_if role.(rv_is_system) (Forbidden (detail "owner_role_immutable")) ;;;
  name <- lift (validate_role_name body_name) ;;
  lift (validate_permission_keys body_permissions) ;;;
  let permissions_to_grant := dedupe_permissions body_permissions in
  ensure_can_grant team_id user_id permissions_to_grant ;;;
  t <- now ;;
  transaction (
    or_unique (update_role_row role_id name body_description t) (Conflict (detail "role_name_taken")) ;;;
    replace_role_permissions role_id permissions_to_grant ;;;
    audit_record team_id user_id ROLE_UPDATED (lit "role") (Some role_id) (metadata_of_role name permissions_to_grant)) ;;;
  with_permissions (mkRoleView role_id team_id name body_description false role.(rv_created_at)).

(** [DELETE /teams/:team_id/roles/:role_id]. *)
Definition delete_role (user_id team_id role_id : N) : M Z :=
  team_for_member team_id user_id ;;;
  authorize team_id user_id TEAM_ROLES_MANAGE ;;;
  role <- role_for_team team_id role_id ;;
  fail_if role.(rv_is_system) (Forbidden (detail "owner_role_undeletable")) ;;;
  transaction (
    exec (delete_role_row role_id) ;;;
    audit_record team_id user_id ROLE_DELETED (lit "role") (Some role_id) (JObj [("name"%string, JStr role.(rv_name))])) ;;;
  ret 204.

(** [GET /teams/:team_id/members/:user_id/roles]. *)
Definition list_member_roles (user_id team_id target_user_id : N) : M (list Role) :=
  team_for_member team_id user_id ;;;
  exec (query (fun d => order_by rv_created_at
    (omap (fun k : N * N * N =>
       if bool_decide (k.1 = (team_id, target_user_id)) then role_view k.2 <$> d.(roles) !! k.2 else None)
     (elements d.(member_roles))))).

(** [POST /teams/:team_id/members/:user_id/roles]. *)
Definition assign_role (user_id team_id target_user_id body_role_id : N) : M Z :=
  team_for_member team_id user_id ;;;
  authorize_any team_id user_id [TEAM_ROLES_MANAGE; TEAM_ROLES_ASSIGN] ;;;
  role_to_assign <- role_for_team team_id body_role_id ;;
  role_permissions <- exec (query (fun d => permissions_of_role d role_to_assign.(rv_id))) ;;
  ensure_can_grant team_id user_id role_permissions ;;;
  target_is_member <- exec (query (fun d => exists_row d.(team_members) (team_id, target_user_id))) ;;
  fail_if (negb target_is_member) (NotFound (detail "not_a_team_member")) ;;;
  transaction (
    or_unique (insert_member_role team_id target_user_id body_role_id) (Conflict (detail "role_already_assigned")) ;;;
    audit_record team_id user_id ROLE_ASSIGNED (lit "user") (Some target_user_id) (JObj [("roleId"%string, JUuid body_role_id)])) ;;;
  ret 201.

(** [DELETE /teams/:team_id/members/:user_id/roles/:role_id]. *)
Definition unassign_role (user_id team_id target_user_id role_id : N) : M Z :=
  team <- team_for_member team_id user_id ;;
  authorize_any team_id user_id [TEAM_ROLES_MANAGE; TEAM_ROLES_ASSIGN] ;;;
  role <- role_for_team team_id role_id ;;
  fail_if (role.(rv_is_system) && N.eqb target_user_id team.(tv_owner_id)) (Conflict (detail "owner_role_unassignable")) ;;;
  transaction (
    affected <- exec (delete_member_role team_id target_user_id role_id) ;;
    fail_if (affected =? 0) (NotFound (detail "role_not_assigned")) ;;;
    audit_record team_id user_id ROLE_UNASSIGNED (lit "user") (Some target_user_id) (JObj [("roleId"%string, JUuid role_id)])) ;;;
  ret 204.
