(* ===== verification/RbacRefinement.v ===== *)
(** * RbacRefinement: the team and role endpoints implement [Rbac]

    [abs] reads the abstract access-control state off the tables.  For every
    handler of [teams.rs] and [roles.rs] that writes, a success is a step of
    the abstract system by the calling user and a failure leaves the tables
    alone - the two handlers that read the role back after the commit may
    also fail with the step already made. *)

From S2P Require Import Prelude Text Db Api Permissions Rbac Authorize Membership Accounts Teams Roles.

#[local] Open Scope Z_scope.

Definition abs (d : Db) : Rbac.state :=
  Rbac.mkState (t_owner_id <$> d.(teams)) (dom d.(team_members))
    ((fun r => (r.(r_team_id), r.(r_is_system))) <$> d.(roles)) d.(role_permissions) d.(member_roles).

(** A call by [a] left the tables alone or made a step of the specification. *)
Definition steps_or_keeps (drawn : N -> Prop) (a : N) (d d' : Db) : Prop := d' = d \/ Rbac.step drawn a (abs d) (abs d').

(** The identifiers a call in [w] may draw. *)
Definition drawn (w : World) (u : N) : Prop := exists n, u = o_uuid w.(w_orc) n.

Lemma abs_holds d t u p : Rbac.holds (abs d) t u p <-> holds_perm d t u p.
Proof. done. Qed.

Lemma abs_audited t a act ty tid md d d' : audited t a act ty tid md d d' -> abs d' = abs d.
Proof. intros (id & ts & _ & ->). done. Qed.

Lemma abs_owner d t row : d.(teams) !! t = Some row -> Rbac.owner (abs d) !! t = Some row.(t_owner_id).
Proof. intros H. simpl. by rewrite lookup_fmap, H. Qed.

Lemma abs_owner_None d t : d.(teams) !! t = None -> Rbac.owner (abs d) !! t = None.
Proof. intros H. simpl. by rewrite lookup_fmap, H. Qed.

Lemma abs_role d r row : d.(roles) !! r = Some row -> Rbac.role (abs d) !! r = Some (row.(r_team_id), row.(r_is_system)).
Proof. intros H. simpl. by rewrite lookup_fmap, H. Qed.

Lemma abs_role_None d r : d.(roles) !! r = None -> Rbac.role (abs d) !! r = None.
Proof. intros H. simpl. by rewrite lookup_fmap, H. Qed.

Lemma abs_member d t u : is_Some (d.(team_members) !! (t, u)) -> (t, u) ∈ Rbac.members (abs d).
Proof. intros H. simpl. by apply elem_of_dom. Qed.

Lemma abs_not_member d t u : d.(team_members) !! (t, u) = None -> (t, u) ∉ Rbac.members (abs d).
Proof. intros H. simpl. by apply not_elem_of_dom. Qed.
#[export] Hint Resolve abs_owner abs_owner_None abs_role abs_role_None abs_member abs_not_member : rbac.

(** Brings the facts a handler's checks left into the form the steps ask for. *)
Ltac rbac_facts :=
  repeat match goal with
  | H : member_team _ _ _ = Some _ |- _ => apply member_team_Some in H as (? & ? & ? & ->)
  | H : audited _ _ _ _ _ _ _ _ |- _ => apply abs_audited in H
  end.

Lemma query_one_inv {A} (q : Db -> option A) d a d' : query_one q d = Ok (a, d') -> q d = Some a /\ d' = d.
Proof. unfold query_one. destruct (q d); intros ?; by simplify_eq. Qed.

(** Inverts every statement that succeeded. *)
Ltac inv_stmts :=
  repeat match goal with
  | H : query_one _ _ = Ok _ |- _ => apply query_one_inv in H as [? ->]
  | H : insert_team _ _ _ = Ok _ |- _ => stmt_inv H
  | H : insert_team_member _ _ _ _ = Ok _ |- _ => stmt_inv H
  | H : insert_role _ _ _ = Ok _ |- _ => stmt_inv H
  | H : insert_member_role _ _ _ _ = Ok _ |- _ => stmt_inv H
  | H : insert_user _ _ _ = Ok _ |- _ => stmt_inv H
  | H : delete_team_member _ _ _ = Ok _ |- _ => stmt_inv H
  | H : delete_pending_revocations _ _ _ = Ok _ |- _ => stmt_inv H
  | H : delete_role_row _ _ = Ok _ |- _ => stmt_inv H
  | H : delete_role_permissions _ _ = Ok _ |- _ => stmt_inv H
  | H : delete_member_role _ _ _ _ = Ok _ |- _ => stmt_inv H
  | H : delete_team_row _ _ = Ok _ |- _ => stmt_inv H
  end.

(** [wp_step] with the rules of the loop and of the lookups below. *)
Lemma wpa_role_for_team w0 d w t r Q :
  at_db w0 d w ->
  (forall w' e, at_db w0 d w' -> Q (Err e) w') ->
  (forall row w', at_db w0 d w' -> d.(roles) !! r = Some row -> row.(r_team_id) = t -> Q (Ok (role_view r row)) w') ->
  wp (role_for_team t r) Q w.
Proof.
  intros Hat He Ho. unfold role_for_team. do 2 wp_step. unfold find_team_role.
  destruct (roles d !! r) as [row|] eqn:E; simpl; [|by apply He].
  case_bool as Et; simpl; [|by apply He]. apply N.eqb_eq in Et. eauto.
Qed.

Lemma wpa_with_permissions w0 d w role (Q : ApiResult RoleWithPermissions -> World -> Prop) :
  at_db w0 d w ->
  (forall w' r, at_db w0 d w' -> Q r w') ->
  wp (with_permissions role) Q w.
Proof. intros Hat H. unfold with_permissions. wp_step. wp_step. eauto. Qed.

Lemma wp_lift_case {A} (r : ApiResult A) (Q : ApiResult A -> World -> Prop) w :
  (forall e, r = Err e -> Q (Err e) w) -> (forall a, r = Ok a -> Q (Ok a) w) -> wp (lift r) Q w.
Proof. intros He Ho. apply wp_lift. destruct r; auto. Qed.

Ltac wp_more :=
  lazymatch goal with
  | |- wp (lift _) _ _ => apply wp_lift_case; [intros ? _; try wp_err|intros ? ?]
  | |- wp (when_some (Some _) _) _ _ => unfold when_some
  | |- wp (when_some None _) _ _ => apply wp_ret
  | |- wp (bind _ _) _ _ => apply wp_bind; wp_more
  | Hat : at_db ?w0 ?d ?w |- wp (insert_all_permissions _ _) _ ?w =>
      apply (wpa_insert_all_permissions w0 _ _ _ d w Hat); clear Hat; [intros ? ? ? Hat; try wp_err|intros ? Hat]
  | Hat : at_db ?w0 ?d ?w |- wp (role_for_team _ _) _ ?w =>
      apply (wpa_role_for_team w0 d w _ _ _ Hat); clear Hat; [intros ? ? Hat; try wp_err|intros ? ? Hat ? ?]
  | Hat : at_db ?w0 ?d ?w |- wp (hash_password _) _ ?w =>
      apply (wpa_hash_password w0 d w _ _ Hat); clear Hat; [intros ? ? Hat; try wp_err|intros ? ? Hat ?]
  | |- wp _ _ _ => wp_step
  end.

Definition refines {A} (a : N) (m : M A) : Prop :=
  forall w, wp m (fun r w' => match r with
                              | Ok _ => Rbac.step (drawn w) a (abs w.(w_db)) (abs w'.(w_db))
                              | Err _ => w'.(w_db) = w.(w_db)
                              end) w.

(** Shows that the tables a handler left are the state the step produces. *)
Lemma step_to F a s s1 s2 : Rbac.step F a s s1 -> s1 = s2 -> Rbac.step F a s s2.
Proof. by intros ? <-. Qed.

Ltac abs_eq := unfold abs; simpl; f_equal; rewrite ?fmap_insert, ?fmap_delete, ?dom_insert_L, ?dom_delete_L; try done.

(** Ends a handler: the transaction committed, the tables are what it left. *)
Ltac commit :=
  match goal with Hat : at_db _ _ _ |- exists d', at_db _ d' _ /\ _ =>
    eexists; split; [exact Hat|]; clear Hat; intros ? Hat end.

Ltac at_end :=
  match goal with Hat : at_db _ _ ?w |- _ => rewrite (at_db_db _ _ _ Hat); clear Hat end;
  inv_stmts; rbac_facts;
  try match goal with H : abs _ = abs _ |- _ => rewrite H; clear H end; simpl in *.

Lemma create_team_refines user_id name : refines user_id (create_team user_id name).
Proof.
  intros w. pose proof (at_db_refl w) as Hat. unfold create_team.
  repeat wp_more. commit. wp_more. at_end.
  eapply step_to; [eapply Rbac.step_create_team with (t := u); eauto with rbac|]. abs_eq.
Qed.

Lemma add_member_refines `{UnicodeCase} user_id t email : refines user_id (add_member user_id t email).
Proof.
  intros w. pose proof (at_db_refl w) as Hat. unfold add_member, cancel_for_returning_member.
  repeat wp_more. commit. wp_more. at_end.
  eapply step_to; [eapply Rbac.step_add_member; eauto with rbac|]. abs_eq.
Qed.

(** What [INSERT ... SELECT] of the revocations does to the other tables: nothing. *)
Lemma insert_revocation_frame id row d n d' :
  insert_revocation id row d = Ok (n, d') -> exists x, d' = set_node_revocations x d.
Proof. intros H. stmt_inv H; [exists d'.(node_revocations); by destruct d'|eauto]. Qed.

Lemma insert_revocations_frame ids row servers : forall i d n d',
  insert_revocations ids row i servers d = Ok (n, d') -> exists x, d' = set_node_revocations x d.
Proof.
  induction servers as [|s servers IH]; intros i d n d' H; simpl in H.
  - injection H as <- <-. exists d.(node_revocations). by destruct d.
  - destruct (insert_revocation _ _ d) as [[n1 d1]|] eqn:E1; [|done].
    destruct (insert_revocations _ _ _ _ d1) as [[n2 d2]|] eqn:E2; [|done]. injection H as <- <-.
    apply insert_revocation_frame in E1 as [x ->]. apply IH in E2 as [y ->]. by exists y.
Qed.

Lemma wpa_record_for_removed_member w0 d w t u email by_ (Q : ApiResult Z -> World -> Prop) :
  at_db w0 d w ->
  (forall w' e, at_db w0 d w' -> Q (Err e) w') ->
  (forall w' n x, at_db w0 (set_node_revocations x d) w' -> Q (Ok n) w') ->
  wp (record_for_removed_member t u email by_) Q w.
Proof.
  intros Hat He Ho. unfold record_for_removed_member. repeat wp_step.
  match goal with H : insert_revocations _ _ _ _ _ = _ |- _ => apply insert_revocations_frame in H as [x ->] end.
  eauto.
Qed.

Ltac wp_removed :=
  match goal with
  | Hat : at_db ?w0 ?d ?w |- wp (bind (record_for_removed_member _ _ _ _) _) _ ?w =>
      apply wp_bind, (wpa_record_for_removed_member w0 d w _ _ _ _ _ Hat); clear Hat; [intros ? ? Hat; try wp_err|intros ? ? ? Hat]
  end.

Lemma remove_member_refines user_id t target : refines user_id (remove_member user_id t target).
Proof.
  intros w. pose proof (at_db_refl w) as Hat. unfold remove_member.
  do 4 wp_more. repeat wp_more. wp_removed. repeat wp_more. commit. wp_more. at_end; [|done].
  eapply step_to; [eapply Rbac.step_remove_member with (u := target); eauto with rbac; by apply N.eqb_neq|]. abs_eq.
Qed.

Lemma role_in_team_abs d t r : role_in_team d t r = false <-> fst <$> Rbac.role (abs d) !! r <> Some t.
Proof.
  unfold role_in_team. simpl. rewrite lookup_fmap. destruct (roles d !! r) as [row|]; simpl; [|done].
  rewrite N.eqb_neq. naive_solver.
Qed.

Lemma delete_team_refines user_id t : refines user_id (delete_team user_id t).
Proof.
  intros w. pose proof (at_db_refl w) as Hat. unfold delete_team.
  repeat wp_more. at_end; [congruence|].
  eapply step_to; [eapply Rbac.step_delete_team with (t := t); eauto with rbac|].
  unfold abs; simpl; f_equal.
  - by rewrite fmap_delete.
  - apply set_eq. intros [t' u']. rewrite elem_of_filter, !elem_of_dom. simpl. unfold is_Some.
    setoid_rewrite map_lookup_filter_Some. naive_solver.
  - apply map_eq. intros r. rewrite map_filter_fmap, !lookup_fmap. f_equal.
  - apply set_eq. intros k. rewrite !elem_of_filter. by rewrite role_in_team_abs.
  - apply set_eq. intros k. rewrite !elem_of_filter. by rewrite role_in_team_abs.
Qed.

Lemma permissions_of_role_spec d r p : p ∈ permissions_of_role d r <-> (r, p) ∈ d.(role_permissions).
Proof.
  unfold permissions_of_role. rewrite list_elem_of_In, List.in_map_iff. split.
  - intros ([r' p'] & <- & Hin). apply List.filter_In in Hin as [Hin Hr]. simpl in *.
    apply N.eqb_eq in Hr as ->. by apply list_elem_of_In, elem_of_elements in Hin.
  - intros H. exists (r, p). split; [done|]. apply List.filter_In. simpl. rewrite N.eqb_refl.
    split; [|done]. by apply list_elem_of_In, elem_of_elements.
Qed.

Lemma abs_role_in_team d t r : role_in_team d t r = true -> exists b, Rbac.role (abs d) !! r = Some (t, b).
Proof.
  unfold role_in_team. simpl. rewrite lookup_fmap. destruct (roles d !! r) as [row|]; simpl; [|done].
  intros <-%N.eqb_eq. eauto.
Qed.

Lemma provision_member_refines `{UnicodeCase, PasswordHashing} user_id t email name ro :
  refines user_id (provision_member user_id t email name ro).
Proof.
  intros w. pose proof (at_db_refl w) as Hat. unfold provision_member.
  destruct ro as [r|]; repeat wp_more; commit; wp_more; at_end.
  - eapply step_to; [eapply Rbac.step_provision with (ro := Some r); eauto with rbac|abs_eq].
    intros r' [= <-]. destruct (abs_role_in_team (w_db w) t r) as [b Hb]; [done|].
    exists b. split; [done|]. intros p Hp. match goal with H : forall p, _ -> _ |- _ => apply H end.
    unfold permissions_of_team_role. replace (role_in_team (w_db w) t r) with true by done.
    by apply permissions_of_role_spec.
  - eapply step_to; [eapply Rbac.step_provision with (ro := None); eauto with rbac; done|abs_eq].
Qed.

(** *** Roles *)

Lemma abs_plain_role d r row :
  d.(roles) !! r = Some row -> row.(r_is_system) = false -> Rbac.role (abs d) !! r = Some (row.(r_team_id), false).
Proof. intros H <-. by apply abs_role. Qed.
#[export] Hint Resolve abs_plain_role : rbac.

Lemma delete_role_refines user_id t r : refines user_id (delete_role user_id t r).
Proof.
  intros w. pose proof (at_db_refl w) as Hat. unfold delete_role.
  repeat wp_more; commit; wp_more; at_end; [congruence|].
  eapply step_to; [eapply Rbac.step_delete_role with (r := r); eauto with rbac|abs_eq].
Qed.

Lemma either_permission d t u p q :
  (exists k, k ∈ [p; q] /\ holds_perm d t u k) -> Rbac.holds (abs d) t u p \/ Rbac.holds (abs d) t u q.
Proof. intros (k & Hk & Hh). apply elem_of_cons in Hk as [->|Hk]; [by left|]. apply list_elem_of_singleton in Hk as ->. by right. Qed.

Lemma granted_role_permissions d t u r :
  (forall p, p ∈ permissions_of_role d r -> holds_perm d t u p) ->
  forall p, (r, p) ∈ Rbac.perms (abs d) -> Rbac.holds (abs d) t u p.
Proof. intros H p Hp. by apply H, permissions_of_role_spec. Qed.
#[export] Hint Resolve either_permission granted_role_permissions : rbac.

Lemma assign_role_refines user_id t u r : refines user_id (assign_role user_id t u r).
Proof.
  intros w. pose proof (at_db_refl w) as Hat. unfold assign_role.
  repeat wp_more; commit; wp_more; at_end.
  eapply step_to; [eapply Rbac.step_assign_role with (r := r) (u := u); eauto with rbac|abs_eq].
Qed.

Lemma unassign_role_refines user_id t u r : refines user_id (unassign_role user_id t u r).
Proof.
  intros w. pose proof (at_db_refl w) as Hat. unfold unassign_role.
  repeat wp_more; commit; wp_more; at_end; [|done].
  eapply step_to; [eapply Rbac.step_unassign_role with (r := r) (u := u); eauto with rbac|abs_eq].
  intros Hb Hu. subst. rewrite Hb, N.eqb_refl in *. done.
Qed.

Lemma validate_permission_keys_Ok keys u : validate_permission_keys keys = Ok u -> forall p, p ∈ keys -> p ∈ ALL_PERMISSIONS.
Proof.
  induction keys as [|k keys IH]; simpl; intros H p Hp; [set_solver|].
  case_bool as Ek; [done|]. apply negb_false_iff in Ek. 
  apply elem_of_cons in Hp as [->|Hp]; [|by apply IH]. 
  by apply bool_decide_eq_true in Ek.
Qed.

Lemma dedupe_seen_spec p keys : forall seen, p ∈ dedupe_seen seen keys <-> p ∈ keys /\ p ∉ seen.
Proof.
  induction keys as [|k keys IH]; intros seen; simpl; [set_solver|].
  case_bool as Ek; row_facts.
  - rewrite IH, elem_of_cons. naive_solver.
  - rewrite elem_of_cons, IH, elem_of_cons. destruct (decide (p = k)); set_solver.
Qed.

Lemma dedupe_permissions_spec p keys : p ∈ dedupe_permissions keys <-> p ∈ keys.
Proof. unfold dedupe_permissions. rewrite dedupe_seen_spec. set_solver. Qed.

(** A handler that reads the role back after the commit: the change may be
    made although the answer is an error. *)
Definition refines_late {A} (a : N) (m : M A) : Prop :=
  forall w, wp m (fun r w' => match r with
                              | Ok _ => Rbac.step (drawn w) a (abs w.(w_db)) (abs w'.(w_db))
                              | Err _ => steps_or_keeps (drawn w) a w.(w_db) w'.(w_db)
                              end) w.

Lemma keeps a w0 w : at_db w0 w0.(w_db) w -> steps_or_keeps (drawn w0) a w0.(w_db) w.(w_db).
Proof. intros H. left. by eapply at_db_db. Qed.
#[export] Hint Resolve keeps : vibe.

Lemma wp_bind_ret {A} (m : M A) Q w : wp (x <- m ;; ret x) Q w = wp m Q w.
Proof. unfold wp, bind. by destruct (m w) as [[]]. Qed.

(** The two last instructions of such a handler. *)
Lemma wp_read_back {A} a w0 d w role (f : RoleWithPermissions -> A) :
  at_db w0 d w -> Rbac.step (drawn w0) a (abs w0.(w_db)) (abs d) ->
  wp (rwp <- with_permissions role ;; ret (f rwp))
    (fun r w' => match r with
                 | Ok _ => Rbac.step (drawn w0) a (abs w0.(w_db)) (abs w'.(w_db))
                 | Err _ => steps_or_keeps (drawn w0) a w0.(w_db) w'.(w_db)
                 end) w.
Proof.
  intros Hat Hs. apply wp_bind, (wpa_with_permissions w0 d w _ _ Hat). intros w' [x|e] Hat'.
  - apply wp_ret. by rewrite (at_db_db _ _ _ Hat').
  - right. by rewrite (at_db_db _ _ _ Hat').
Qed.

Lemma granted_permissions d t a keys u :
  validate_permission_keys keys = Ok u ->
  (forall p, p ∈ dedupe_permissions keys -> holds_perm d t a p) ->
  forall p, p ∈ dedupe_permissions keys -> p ∈ ALL_PERMISSIONS /\ Rbac.holds (abs d) t a p.
Proof.
  intros Hk Hh p Hp. split; [|by apply Hh]. eapply validate_permission_keys_Ok; [done|].
  by apply dedupe_permissions_spec.
Qed.
#[export] Hint Resolve granted_permissions : rbac.

Lemma create_role_refines user_id t name desc ps : refines_late user_id (create_role user_id t name desc ps).
Proof.
  intros w. pose proof (at_db_refl w) as Hat. unfold create_role.
  repeat wp_more. commit. eapply wp_read_back; [exact Hat|]. clear Hat.
  inv_stmts; rbac_facts. match goal with H : abs _ = abs _ |- _ => rewrite H; clear H end.
  eapply step_to; [eapply Rbac.step_create_role; eauto with rbac|]. abs_eq.
Qed.

(** The row keeps its team and its kind, so nothing changes for [Rbac]. *)
Lemma update_role_row_frame r name desc now d u d' row :
  d.(roles) !! r = Some row -> update_role_row r name desc now d = Ok (u, d') ->
  exists x, d' = set_roles x d /\ (fun r => (r.(r_team_id), r.(r_is_system))) <$> x =
                                 (fun r => (r.(r_team_id), r.(r_is_system))) <$> d.(roles).
Proof.
  intros Hr H. unfold update_role_row in H. rewrite Hr in H. case_bool; [done|]. injection H as <- <-.
  eexists. split; [done|]. rewrite fmap_insert. simpl. apply insert_id. by rewrite lookup_fmap, Hr.
Qed.

Lemma update_role_refines user_id t r name desc ps : refines_late user_id (update_role user_id t r name desc ps).
Proof.
  intros w. pose proof (at_db_refl w) as Hat. unfold update_role, replace_role_permissions.
  repeat wp_more. commit. rewrite <-(wp_bind_ret (with_permissions _)).
  eapply wp_read_back; [exact Hat|]. clear Hat.
  inv_stmts; rbac_facts. match goal with H : abs _ = abs _ |- _ => rewrite H; clear H end.
  match goal with H : update_role_row _ _ _ _ _ = _ |- _ => eapply update_role_row_frame in H as (x' & -> & Hx); [|done] end.
  eapply step_to; [eapply Rbac.step_update_role with (r := r); eauto with rbac|]. abs_eq.
Qed.
