(* ===== verification/TeamServers.v ===== *)
(** * TeamServers: the servers a team shares, what is owed on them, the log

    The endpoints of [apps/backend/src/team_servers.rs] and
    [revocations.rs], and the one of [audit.rs].  The statements of
    [revocations.rs] that run inside the membership handlers are in
    [Membership]. *)

From S2P Require Import Prelude Text Db Api Permissions Authorize Membership Teams.

#[local] Open Scope Z_scope.

Definition MAX_NAME_LEN : Z := 100.
Definition MAX_HOST_LEN : Z := 255.

(** [models::TeamServer]. *)
Record TeamServer : Type := mkServerView {
  sv_id : N; sv_team_id : N; sv_name : list Z; sv_host : list Z; sv_ssh_port : Z; sv_username : option (list Z); sv_created_at : Z;
}.

Definition server_view (id : N) (s : TeamServerRow) : TeamServer :=
  mkServerView id s.(ts_team_id) s.(ts_name) s.(ts_host) s.(ts_ssh_port) s.(ts_username) s.(ts_created_at).

(** [GET /teams/:team_id/servers]. *)
Definition list_servers (user_id team_id : N) : M (list TeamServer) :=
  team_for_member team_id user_id ;;;
  exec (query (fun d => order_by sv_created_at
    (map (fun kv => server_view kv.1 kv.2)
      (List.filter (fun kv => N.eqb (ts_team_id kv.2) team_id) (map_to_list d.(team_servers)))))).

(** [POST /teams/:team_id/servers]. *)
Definition create_server (user_id team_id : N) (body_name body_host : list Z) (body_ssh_port : option Z) (body_username : option (list Z))
    : M (Z * TeamServer) :=
  team_for_member team_id user_id ;;;
  authorize team_id user_id SERVERS_MANAGE ;;;
  let name := trim body_name in
  fail_if (is_empty name) (InvalidInput (detail "server_name_empty")) ;;;
  fail_if (MAX_NAME_LEN <? chars_count name)
    (InvalidInput (with_param (detail "server_name_too_long") "max" (JNum MAX_NAME_LEN))) ;;;
  let host := trim body_host in
  fail_if (is_empty host) (InvalidInput (detail "host_empty")) ;;;
  fail_if (MAX_HOST_LEN <? chars_count host)
    (InvalidInput (with_param (detail "host_too_long") "max" (JNum MAX_HOST_LEN))) ;;;
  let ssh_port := default 22 body_ssh_port in
  fail_if (negb (in_range 1 65535 ssh_port)) (InvalidInput (detail "ssh_port_out_of_range")) ;;;
  server_id <- new_v4 ;;
  t <- now ;;
  transaction (
    exec (insert_team_server server_id (mkTeamServer team_id name host ssh_port body_username (Some user_id) t t)) ;;;
    audit_record team_id user_id SERVER_ADDED (lit "server") (Some server_id)
      (JObj [("name"%string, JStr name); ("host"%string, JStr host)])) ;;;
  ret (201, mkServerView server_id team_id name host ssh_port body_username t).

(** [DELETE /teams/:team_id/servers/:server_id]. *)
Definition delete_server (user_id team_id server_id : N) : M Z :=
  team_for_member team_id user_id ;;;
  authorize team_id user_id SERVERS_MANAGE ;;;
  transaction (
    affected <- exec (delete_team_server server_id team_id) ;;
    fail_if (affected =? 0) (NotFound (detail "server_not_found")) ;;;
    audit_record team_id user_id SERVER_REMOVED (lit "server") (Some server_id) (JObj [])) ;;;
  ret 204.

(** ** Revocations *)

(** [models::NodeRevocation]. *)
Record NodeRevocation : Type := mkRevocationView {
  nv_id : N; nv_team_id : N; nv_team_server_id : N; nv_server_name : list Z; nv_host : list Z; nv_ssh_port : Z;
  nv_user_id : N; nv_node_username : list Z; nv_email : list Z; nv_requested_at : Z;
}.

(** [node_revocations r JOIN team_servers s ON s.id = r.team_server_id WHERE r.team_id = $1 AND r.completed_at IS NULL]. *)
Definition pending_of_team (d : Db) (team_id : N) : list NodeRevocation :=
  omap (fun kv : N * NodeRevocationRow =>
    let r := kv.2 in
    if negb (N.eqb r.(nr_team_id) team_id && bool_decide (r.(nr_completed_at) = None)) then None else
    s ← d.(team_servers) !! r.(nr_team_server_id);
    Some (mkRevocationView kv.1 r.(nr_team_id) r.(nr_team_server_id) s.(ts_name) s.(ts_host) s.(ts_ssh_port)
            r.(nr_user_id) r.(nr_node_username) r.(nr_email) r.(nr_requested_at)))
    (map_to_list d.(node_revocations)).

(** [GET /teams/:team_id/revocations]. *)
Definition list_pending (user_id team_id : N) : M (list NodeRevocation) :=
  team_for_member team_id user_id ;;;
  exec (query (fun d => order_by nv_requested_at (pending_of_team d team_id))).

(** [POST /teams/:team_id/revocations/:revocation_id]. *)
Definition complete (user_id team_id revocation_id : N) : M Z :=
  team_for_member team_id user_id ;;;
  authorize team_id user_id SERVERS_MANAGE ;;;
  transaction (
    t <- now ;;
    row <- exec (complete_revocation revocation_id team_id t user_id) ;;
    completed <- lift (ok_or row (NotFound (detail "revocation_not_pending"))) ;;
    let '(account, email) := completed in
    audit_record team_id user_id ACCESS_REVOKED (lit "revocation") (Some revocation_id)
      (JObj [("email"%string, JStr email); ("account"%string, JStr account)])) ;;;
  ret 204.

(** ** The audit log *)

Definition DEFAULT_PAGE_SIZE : Z := 50.
Definition MAX_PAGE_SIZE : Z := 200.

(** [models::AuditEvent]. *)
Record AuditEvent : Type := mkAuditView {
  av_id : N; av_action : list Z; av_target_type : list Z; av_target_id : option N; av_result : list Z;
  av_metadata : Json; av_created_at : Z; av_actor_id : option N; av_actor_email : option (list Z); av_actor_display_name : option (list Z);
}.

(** [audit_events e LEFT JOIN users u ON u.id = e.actor_id WHERE e.team_id = $1]. *)
Definition events_of_team (d : Db) (team_id : N) : list AuditEvent :=
  map (fun kv : N * AuditEventRow =>
    let e := kv.2 in
    let actor := e.(ae_actor_id) ≫= (fun u => d.(users) !! u) in
    mkAuditView kv.1 e.(ae_action) e.(ae_target_type) e.(ae_target_id) e.(ae_result) e.(ae_metadata) e.(ae_created_at)
      e.(ae_actor_id) (u_email <$> actor) (u_display_name <$> actor))
    (List.filter (fun kv => N.eqb (ae_team_id kv.2) team_id) (map_to_list d.(audit_events))).

(** [i64::clamp]. *)
Definition clamp (lo hi x : Z) : Z := Z.max lo (Z.min hi x).

(** [ORDER BY created_at DESC LIMIT $2 OFFSET $3]. *)
Definition page (limit offset : Z) (l : list AuditEvent) : list AuditEvent :=
  take (Z.to_nat limit) (drop (Z.to_nat offset) (order_by (fun e => - e.(av_created_at)) l)).

(** [GET /teams/:team_id/audit]. *)
Definition list_audit_events (user_id team_id : N) (query_limit query_offset : option Z) : M (list AuditEvent) :=
  team_for_member team_id user_id ;;;
  authorize team_id user_id AUDIT_VIEW ;;;
  let limit := clamp 1 MAX_PAGE_SIZE (default DEFAULT_PAGE_SIZE query_limit) in
  let offset := Z.max 0 (default 0 query_offset) in
  exec (query (fun d => page limit offset (events_of_team d team_id))).
