(* ===== verification/TeamApplications.v ===== *)
(** * TeamApplications: the applications a team can see

    The endpoints of [apps/backend/src/team_applications.rs].  [list_members],
    [add_member] and [remove_member] here are about one application's
    allow-list; the team's own are in [Teams]. *)

From S2P Require Import Prelude Text Db Api Permissions Authorize Membership Teams.

#[local] Open Scope Z_scope.

Definition MAX_NAME_LEN : Z := 100.
Definition MAX_PATH_LEN : Z := 512.
Definition MAX_ENTRIES : Z := 200.

(** [models::TeamApplication]. *)
Record TeamApplication : Type := mkApplicationView {
  pv_id : N; pv_team_id : N; pv_team_server_id : option N; pv_local_id : N; pv_name : list Z; pv_blueprint_id : list Z;
  pv_runtime_type : list Z; pv_working_directory : list Z; pv_ports : Json; pv_environment : Json; pv_updated_at : Z;
}.

Definition application_view (id : N) (a : TeamApplicationRow) : TeamApplication :=
  mkApplicationView id a.(ta_team_id) a.(ta_team_server_id) a.(ta_local_id) a.(ta_name) a.(ta_blueprint_id)
    a.(ta_runtime_type) a.(ta_working_directory) a.(ta_ports) a.(ta_environment) a.(ta_updated_at).

(** The WHERE of [list_applications]: pushed by the caller, or with no
    allow-list, or with the caller on it. *)
Definition application_visible (d : Db) (user_id application_id : N) (a : TeamApplicationRow) : bool :=
  bool_decide (a.(ta_pushed_by) = Some user_id)
  || negb (any_row (fun k _ => N.eqb k.1 application_id) d.(application_members))
  || any_row (fun k _ => N.eqb k.1 application_id && N.eqb k.2 user_id) d.(application_members).

Definition name_le (a b : TeamApplication) : Prop := str_le a.(pv_name) b.(pv_name) = true.
#[global] Instance name_le_dec : RelDecision name_le.
Proof. intros a b. unfold name_le. apply _. Defined.

Definition visible_applications (d : Db) (team_id user_id : N) : list TeamApplication :=
  map (fun kv => application_view kv.1 kv.2)
    (List.filter (fun kv => N.eqb (ta_team_id kv.2) team_id && application_visible d user_id kv.1 kv.2)
      (map_to_list d.(team_applications))).

(** [GET /teams/:team_id/applications]. *)
Definition list_applications (user_id team_id : N) : M (list TeamApplication) :=
  team_for_member team_id user_id ;;;
  exec (query (fun d => merge_sort name_le (visible_applications d team_id user_id))).

Definition application_in_team (team_id application_id : N) : M unit :=
  shared <- exec (query (fun d => application_row_in_team d team_id application_id)) ;;
  fail_if (negb shared) (NotFound (detail "application_not_shared")).

(** [models::ApplicationMember]. *)
Record ApplicationMember : Type := mkAppMemberView {
  xv_user_id : N; xv_email : list Z; xv_display_name : list Z; xv_granted_at : Z; xv_permissions : list (list Z);
}.

Definition display_le (a b : ApplicationMember) : Prop := str_le a.(xv_display_name) b.(xv_display_name) = true.
#[global] Instance display_le_dec : RelDecision display_le.
Proof. intros a b. unfold display_le. apply _. Defined.

(** [GET /teams/:team_id/applications/:application_id/members]. *)
Definition list_members (user_id team_id application_id : N) : M (list ApplicationMember) :=
  team_for_member team_id user_id ;;;
  application_in_team team_id application_id ;;;
  exec (query (fun d => merge_sort display_le
    (omap (fun kv : N * N * ApplicationMemberRow =>
       let am := kv.2 in
       if negb (N.eqb kv.1.1 application_id && N.eqb am.(am_team_id) team_id) then None else
       u ← d.(users) !! kv.1.2;
       Some (mkAppMemberView kv.1.2 u.(u_email) u.(u_display_name) am.(am_granted_at) am.(am_permissions)))
     (map_to_list d.(application_members))))).

(** [Vec::dedup]: drops an element equal to the one kept before it. *)
Fixpoint dedup_from (last : list Z) (l : list (list Z)) : list (list Z) :=
  match l with
  | [] => []
  | x :: l => if str_eqb x last then dedup_from last l else x :: dedup_from x l
  end.

Definition dedup (l : list (list Z)) : list (list Z) :=
  match l with [] => [] | x :: l => x :: dedup_from x l end.

(** [Vec<String>::sort]. *)
Definition sort (l : list (list Z)) : list (list Z) := order_by_key l.

Definition application_grant (team_id actor_id : N) (requested : list (list Z)) : M (list (list Z)) :=
  match find_first (fun key => negb (contains_key APPLICATION_SCOPED key)) requested with
  | Some unscoped =>
      throw (InvalidInput (with_param (detail "permission_not_application_scoped") "permission" (JStr unscoped)))
  | None =>
      let granted := dedup (sort requested) in
      ensure_can_grant team_id actor_id granted ;;;
      ret granted
  end.

Definition metadata_of_grant (user_id : N) (granted : list (list Z)) : Json :=
  JObj [("userId"%string, JUuid user_id); ("permissions"%string, JArr (map JStr granted))].

(** [POST /teams/:team_id/applications/:application_id/members]. *)
Definition add_member (user_id team_id application_id body_user_id : N) (body_permissions : list (list Z)) : M Z :=
  authorize team_id user_id APPLICATIONS_CREATE ;;;
  application_in_team team_id application_id ;;;
  target_is_member <- exec (query (fun d => exists_row d.(team_members) (team_id, body_user_id))) ;;
  fail_if (negb target_is_member) (NotFound (detail "not_a_team_member")) ;;;
  granted <- application_grant team_id user_id body_permissions ;;
  transaction (
    t <- now ;;
    or_unique (insert_application_member application_id body_user_id (mkApplicationMember team_id (Some user_id) t granted))
      (Conflict (detail "application_member_exists")) ;;;
    audit_record team_id user_id APPLICATION_ACCESS_GRANTED (lit "application") (Some application_id)
      (metadata_of_grant body_user_id granted)) ;;;
  ret 201.

(** [PUT /teams/:team_id/applications/:application_id/members/:user_id]. *)
Definition set_member_permissions (user_id team_id application_id target_user_id : N) (body_permissions : list (list Z)) : M Z :=
  authorize team_id user_id APPLICATIONS_CREATE ;;;
  granted <- application_grant team_id user_id body_permissions ;;
  transaction (
    affected <- exec (update_member_permissions application_id team_id target_user_id granted) ;;
    fail_if (affected =? 0) (NotFound (detail "application_member_not_added")) ;;;
    audit_record team_id user_id APPLICATION_ACCESS_CHANGED (lit "application") (Some application_id)
      (metadata_of_grant target_user_id granted)) ;;;
  ret 204.

(** [DELETE /teams/:team_id/applications/:application_id/members/:user_id]. *)
Definition remove_member (user_id team_id application_id target_user_id : N) : M Z :=
  authorize team_id user_id APPLICATIONS_CREATE ;;;
  transaction (
    affected <- exec (delete_application_member application_id team_id target_user_id) ;;
    fail_if (affected =? 0) (NotFound (detail "application_member_not_added")) ;;;
    audit_record team_id user_id APPLICATION_ACCESS_REVOKED (lit "application") (Some application_id)
      (JObj [("userId"%string, JUuid target_user_id)])) ;;;
  ret 204.

(** [bounded]. *)
Definition bounded (value : list Z) (max : Z) : option (list Z) :=
  let trimmed := trim value in
  if is_empty trimmed || (max <? chars_count trimmed) then None else Some trimmed.

(** [models::PushTeamApplicationRequest]; a port and a variable are the JSON
    they are stored as. *)
Record PushTeamApplicationRequest : Type := mkPush {
  push_local_id : N;
  push_team_server_id : option N;
  push_name : list Z;
  push_blueprint_id : list Z;
  push_runtime_type : list Z;
  push_working_directory : list Z;
  push_ports : list Json;
  push_environment : list Json;
}.

Definition invalid_with_max (code : string) (max : Z) : ApiError :=
  InvalidInput (with_param (detail code) "max" (JNum max)).

(** [POST /teams/:team_id/applications]. *)
Definition push_application (user_id team_id : N) (body : PushTeamApplicationRequest) : M (Z * TeamApplication) :=
  authorize team_id user_id APPLICATIONS_CREATE ;;;
  name <- lift (ok_or (bounded body.(push_name) MAX_NAME_LEN) (invalid_with_max "application_name_invalid" MAX_NAME_LEN)) ;;
  blueprint_id <- lift (ok_or (bounded body.(push_blueprint_id) MAX_NAME_LEN) (invalid_with_max "application_blueprint_invalid" MAX_NAME_LEN)) ;;
  runtime_type <- lift (ok_or (bounded body.(push_runtime_type) MAX_NAME_LEN) (invalid_with_max "application_runtime_invalid" MAX_NAME_LEN)) ;;
  working_directory <- lift (ok_or (bounded body.(push_working_directory) MAX_PATH_LEN) (invalid_with_max "application_directory_invalid" MAX_PATH_LEN)) ;;
  fail_if ((MAX_ENTRIES <? Z.of_nat (length body.(push_ports))) || (MAX_ENTRIES <? Z.of_nat (length body.(push_environment))))
    (invalid_with_max "application_too_many_entries" MAX_ENTRIES) ;;;
  t <- now ;;
  application <- transaction (
    id <- new_v4 ;;
    application <- exec (upsert_application id
      (mkTeamApplication team_id body.(push_team_server_id) body.(push_local_id) name blueprint_id runtime_type working_directory
         (JArr body.(push_ports)) (JArr body.(push_environment)) (Some user_id) t t)) ;;
    audit_record team_id user_id APPLICATION_SHARED (lit "application") (Some application.1) (JObj [("name"%string, JStr name)]) ;;;
    ret application) ;;
  ret (200, application_view application.1 application.2).

(** [DELETE /teams/:team_id/applications/:application_id]. *)
Definition remove_application (user_id team_id application_id : N) : M Z :=
  authorize team_id user_id APPLICATIONS_DELETE ;;;
  transaction (
    affected <- exec (delete_application application_id team_id) ;;
    fail_if (affected =? 0) (NotFound (detail "application_not_shared")) ;;;
    audit_record team_id user_id APPLICATION_UNSHARED (lit "application") (Some application_id) (JObj [])) ;;;
  ret 204.
