(* ===== verification/DeviceKeys.v ===== *)
(** * DeviceKeys: the public keys of a member's devices

    The endpoints of [apps/backend/src/device_keys.rs].  [node_username] is
    in [Membership], where the revocations use it.  Decoding base64 is the
    [base64] crate's; what the theorems use of it is that its standard engine
    refuses a character outside its alphabet. *)

From S2P Require Import Prelude Text Db Api Permissions Authorize Membership Teams.

#[local] Open Scope Z_scope.

Definition MAX_LABEL_LEN : Z := 60.
Definition MAX_KEY_LEN : Z := 4096.

Definition KEY_TYPES : list (list Z) :=
  [lit "ssh-ed25519"; lit "ssh-rsa"; lit "ecdsa-sha2-nistp256"; lit "sk-ssh-ed25519@openssh.com"].

Definition base64_alphabet (c : Z) : bool := is_ascii_alphanumeric c || (c =? 43) || (c =? 47) || (c =? 61).

Class Base64 : Type := {
  base64_decode : list Z -> option (list Z);
  base64_decode_alphabet : forall s b, base64_decode s = Some b -> forallb base64_alphabet s = true;
}.

(** [u32::from_be_bytes]. *)
Definition u32_from_be_bytes (b0 b1 b2 b3 : Z) : Z := ((b0 * 256 + b1) * 256 + b2) * 256 + b3.

(** [blob_declares]; [slice::get] of a range gives [None] when it does not fit. *)
Definition blob_declares (decoded : list Z) (expected : list Z) : bool :=
  match decoded with
  | b0 :: b1 :: b2 :: b3 :: rest =>
      let length_ := u32_from_be_bytes b0 b1 b2 b3 in
      if (length_ =? 0) || (64 <? length_) then false
      else if Z.of_nat (length rest) <? length_ then false
      else str_eqb (take (Z.to_nat length_) rest) expected
  | _ => false
  end.

Definition device_key_malformed : ApiError := InvalidInput (detail "device_key_malformed").

Definition validate_public_key `{Base64} (value : list Z) : ApiResult (list Z) :=
  let trimmed := trim value in
  if is_empty trimmed then Err (InvalidInput (detail "device_key_empty"))
  else if MAX_KEY_LEN <? byte_len trimmed
  then Err (InvalidInput (with_param (detail "device_key_too_long") "max" (JNum MAX_KEY_LEN)))
  else if contains_char 10 trimmed || contains_char 13 trimmed then Err (InvalidInput (detail "device_key_multiline"))
  else
    let fields := split_whitespace trimmed in
    let key_type := default [] (head fields) in
    if negb (bool_decide (key_type ∈ KEY_TYPES))
    then Err (InvalidInput (with_param (detail "device_key_unsupported_type") "type" (JStr key_type)))
    else
      let body := default [] (head (tail fields)) in
      match base64_decode body with
      | None => Err device_key_malformed
      | Some decoded => if negb (blob_declares decoded key_type) then Err device_key_malformed else Ok trimmed
      end.

Definition validate_label (value : list Z) : ApiResult (list Z) :=
  let trimmed := trim value in
  if is_empty trimmed then Err (InvalidInput (detail "device_label_empty"))
  else if MAX_LABEL_LEN <? chars_count trimmed
  then Err (InvalidInput (with_param (detail "device_label_too_long") "max" (JNum MAX_LABEL_LEN)))
  else Ok trimmed.

(** [models::DeviceKey]. *)
Record DeviceKey : Type := mkDeviceKeyView { kv_id : N; kv_user_id : N; kv_public_key : list Z; kv_label : list Z; kv_created_at : Z }.

Definition device_key_view (id : N) (k : DeviceKeyRow) : DeviceKey :=
  mkDeviceKeyView id k.(dk_user_id) k.(dk_public_key) k.(dk_label) k.(dk_created_at).

(** [POST /devices]. *)
Definition publish `{Base64} (user_id : N) (body_public_key body_label : list Z) : M (Z * DeviceKey) :=
  public_key <- lift (validate_public_key body_public_key) ;;
  label <- lift (validate_label body_label) ;;
  t <- now ;;
  id <- new_v4 ;;
  key <- exec (upsert_device_key id (mkDeviceKey user_id public_key label t t)) ;;
  ret (200, device_key_view key.1 key.2).

(** [GET /devices]. *)
Definition list_mine (user_id : N) : M (list DeviceKey) :=
  exec (query (fun d => order_by kv_created_at
    (map (fun kv => device_key_view kv.1 kv.2)
      (List.filter (fun kv => N.eqb (dk_user_id kv.2) user_id) (map_to_list d.(device_keys)))))).

(** [DELETE /devices/:key_id]. *)
Definition revoke (user_id key_id : N) : M Z :=
  affected <- exec (delete_device_key key_id user_id) ;;
  fail_if (affected =? 0) (NotFound (detail "device_key_not_found")) ;;;
  ret 204.

(** ** What every account on a shared Node should hold *)

(** [models::MemberApplicationAccess] and [models::MemberAccess]. *)
Record MemberApplicationAccess : Type := mkAppAccess {
  aa_local_id : N; aa_team_server_id : option N; aa_runtime_type : list Z; aa_working_directory : list Z; aa_permissions : list (list Z);
}.

Record MemberAccess : Type := mkMemberAccess {
  ma_user_id : N; ma_email : list Z; ma_display_name : list Z; ma_node_username : list Z;
  ma_public_keys : list (list Z); ma_permissions : list (list Z); ma_applications : list MemberApplicationAccess;
}.

(** A row of the first query: the member and, of the LEFT JOIN, one key. *)
Record AccessRow : Type := mkAccessRow {
  ar_id : N; ar_email : list Z; ar_display_name : list Z; ar_key : option (list Z * Z);
}.

Definition keys_of_user (d : Db) (user_id : N) : list (list Z * Z) :=
  map (fun kv => (dk_public_key kv.2, dk_created_at kv.2))
    (List.filter (fun kv => N.eqb (dk_user_id kv.2) user_id) (map_to_list d.(device_keys))).

Definition rows_of_member (d : Db) (user_id : N) (u : UserRow) : list AccessRow :=
  match keys_of_user d user_id with
  | [] => [mkAccessRow user_id u.(u_email) u.(u_display_name) None]
  | keys => map (fun k => mkAccessRow user_id u.(u_email) u.(u_display_name) (Some k)) keys
  end.

(** [ORDER BY u.email, k.created_at]; a NULL sorts last. *)
Definition created_le (a b : option (list Z * Z)) : bool :=
  match a, b with
  | _, None => true
  | None, Some _ => false
  | Some a, Some b => a.2 <=? b.2
  end.

Definition access_le (a b : AccessRow) : Prop :=
  (if str_eqb a.(ar_email) b.(ar_email) then created_le a.(ar_key) b.(ar_key) else str_le a.(ar_email) b.(ar_email)) = true.
#[global] Instance access_le_dec : RelDecision access_le.
Proof. intros a b. unfold access_le. apply _. Defined.

Definition access_rows (d : Db) (team_id : N) : list AccessRow :=
  merge_sort access_le
    (map_to_list d.(team_members) ≫= fun kv : N * N * Z =>
       if negb (N.eqb kv.1.1 team_id) then [] else
       match d.(users) !! kv.1.2 with Some u => rows_of_member d kv.1.2 u | None => [] end).

(** [SELECT DISTINCT mr.user_id, rp.permission_key ... ORDER BY mr.user_id, rp.permission_key]. *)
Definition permission_row_le (a b : N * list Z) : Prop :=
  (if N.eqb a.1 b.1 then str_le a.2 b.2 else N.leb a.1 b.1) = true.
#[global] Instance permission_row_le_dec : RelDecision permission_row_le.
Proof. intros a b. unfold permission_row_le. apply _. Defined.

Definition permission_set (d : Db) (team_id : N) : gset (N * list Z) :=
  list_to_set (elements d.(member_roles) ≫= fun mr : N * N * N =>
    if negb (N.eqb mr.1.1 team_id) then [] else
    map (pair mr.1.2) (permissions_of_role d mr.2)).

Definition permission_rows (d : Db) (team_id : N) : list (N * list Z) :=
  merge_sort permission_row_le (elements (permission_set d team_id)).

(** The third query, with [ORDER BY am.user_id, ta.local_id]. *)
Definition application_row_le (a b : N * MemberApplicationAccess) : Prop :=
  (if N.eqb a.1 b.1 then N.leb a.2.(aa_local_id) b.2.(aa_local_id) else N.leb a.1 b.1) = true.
#[global] Instance application_row_le_dec : RelDecision application_row_le.
Proof. intros a b. unfold application_row_le. apply _. Defined.

Definition application_rows (d : Db) (team_id : N) : list (N * MemberApplicationAccess) :=
  merge_sort application_row_le
    (omap (fun kv : N * N * ApplicationMemberRow =>
       let am := kv.2 in
       if negb (N.eqb am.(am_team_id) team_id) then None else
       ta ← d.(team_applications) !! kv.1.1;
       Some (kv.1.2, mkAppAccess ta.(ta_local_id) ta.(ta_team_server_id) ta.(ta_runtime_type) ta.(ta_working_directory) am.(am_permissions)))
     (map_to_list d.(application_members))).

(** [map.entry(user_id).or_default().push(x)] over the rows. *)
Fixpoint group_by_user {A} (rows : list (N * A)) (acc : gmap N (list A)) : gmap N (list A) :=
  match rows with
  | [] => acc
  | (user_id, x) :: rows => group_by_user rows (<[user_id := default [] (acc !! user_id) ++ [x]]> acc)
  end.

(** [member.public_keys.push(key)] on the last member. *)
Definition push_key (key : list Z) (m : MemberAccess) : MemberAccess :=
  mkMemberAccess m.(ma_user_id) m.(ma_email) m.(ma_display_name) m.(ma_node_username) (m.(ma_public_keys) ++ [key])
    m.(ma_permissions) m.(ma_applications).

Fixpoint update_last (f : MemberAccess -> MemberAccess) (l : list MemberAccess) : list MemberAccess :=
  match l with
  | [] => []
  | [m] => [f m]
  | m :: l => m :: update_last f l
  end.

(** The loop that builds the answer. *)
Fixpoint collect_members (rows : list AccessRow) (members : list MemberAccess)
    (permissions_by_user : gmap N (list (list Z))) (applications_by_user : gmap N (list MemberApplicationAccess)) : list MemberAccess :=
  match rows with
  | [] => members
  | row :: rows =>
      let id := row.(ar_id) in
      let push_ (members : list MemberAccess) :=
        match row.(ar_key) with Some (key, _) => update_last (push_key key) members | None => members end in
      if bool_decide (ma_user_id <$> last members = Some id)
      then collect_members rows (push_ members) permissions_by_user applications_by_user
      else collect_members rows
        (push_ (members ++ [mkMemberAccess id row.(ar_email) row.(ar_display_name) (node_username id) []
                              (default [] (permissions_by_user !! id)) (default [] (applications_by_user !! id))]))
        (delete id permissions_by_user) (delete id applications_by_user)
  end.

(** [GET /teams/:team_id/access]. *)
Definition list_team_access (user_id team_id : N) : M (list MemberAccess) :=
  team_for_member team_id user_id ;;;
  rows <- exec (query (fun d => access_rows d team_id)) ;;
  permissions <- exec (query (fun d => permission_rows d team_id)) ;;
  applications <- exec (query (fun d => application_rows d team_id)) ;;
  ret (collect_members rows [] (group_by_user permissions ∅) (group_by_user applications ∅)).
