(* ===== verification/Sample.v ===== *)
(** * Sample: a small concrete world

    Three accounts and an outside that always answers, in which the witnesses
    of the backend theorems are evaluated. *)

From S2P Require Import Prelude Text RateLimit Db Api Accounts DeviceKeys.

#[local] Open Scope Z_scope.

Definition ann : N := 1.
Definition bob : N := 2.
Definition eve : N := 3.

(** An account with the password [secret-word], as [plain_hashing] stores it. *)
Definition account (email : list Z) : UserRow :=
  mkUser email (lit "$argon2$secret-word") email 0 0 false None None None None.

Definition people : Db :=
  set_users (<[ann := account (lit "ann@x.pl")]> (<[bob := account (lit "bob@x.pl")]> (<[eve := account (lit "eve@x.pl")]> ∅))) empty_db.

(** Identifiers count up from [base], clocks from 0; the database always answers. *)
Definition quiet (base : N) : Oracle :=
  mkOracle (fun n => Z.of_nat n) (fun n => Z.of_nat n) (fun n => (base + N.of_nat n)%N) (fun n => [65 + Z.of_nat n]) (fun _ => false).

Definition world (d : Db) (base : N) : World := mkWorld d ∅ (quiet base) 0.

Lemma world_draws_from d base t : (t < base)%N -> ~ exists k, t = o_uuid (world d base).(w_orc) k.
Proof. intros Ht [k Hk]. simpl in Hk. lia. Qed.

(** Base64 as RFC 4648 has it, without the padding rules: enough to decode the samples. *)
Definition base64_value (c : Z) : option Z :=
  if in_range 65 90 c then Some (c - 65)
  else if in_range 97 122 c then Some (c - 71)
  else if in_range 48 57 c then Some (c + 4)
  else if c =? 43 then Some 62
  else if c =? 47 then Some 63
  else None.

Fixpoint base64_bits (bits buffer : Z) (s : list Z) : option (list Z) :=
  match s with
  | [] => Some []
  | c :: s =>
      if c =? 61 then base64_bits bits buffer s else
      v ← base64_value c;
      let buffer := buffer * 64 + v in
      let bits := bits + 6 in
      if 8 <=? bits
      then rest ← base64_bits (bits - 8) (buffer mod 2 ^ (bits - 8)) s; Some (buffer / 2 ^ (bits - 8) :: rest)
      else base64_bits bits buffer s
  end.

Lemma base64_value_alphabet c v : base64_value c = Some v -> base64_alphabet c = true.
Proof.
  unfold base64_value, base64_alphabet, is_ascii_alphanumeric, is_ascii_alphabetic, is_ascii_uppercase,
    is_ascii_lowercase, is_ascii_digit.
  repeat case_bool; intros ?; simplify_eq; unfold in_range in *; lia.
Qed.

Lemma base64_bits_alphabet s : forall bits buffer b, base64_bits bits buffer s = Some b -> forallb base64_alphabet s = true.
Proof.
  induction s as [|c s IH]; intros bits buffer b Hb; [done|]. simpl in *. apply andb_true_iff.
  destruct (Z.eqb_spec c 61) as [->|Hc]; [split; [done|eauto]|].
  destruct (base64_value c) as [v|] eqn:Ev; simpl in *; [|done].
  split; [by eapply base64_value_alphabet|]. case_bool; [|eauto].
  destruct (base64_bits (_ - 8) _ s) as [r|] eqn:Er; simpl in *; [eauto|done].
Qed.

#[global] Program Instance rfc4648 : Base64 | 100 := {| base64_decode := base64_bits 0 0 |}.
Next Obligation. intros s b. apply base64_bits_alphabet. Qed.

Example decodes : base64_decode (lit "Zm9vYmFy") = Some (lit "foobar").
Proof. reflexivity. Qed.
