(* ===== verification/Sessions.v ===== *)
(** * Sessions: refresh tokens and access tokens

    [apps/backend/src/refresh_token.rs], [tokens.rs] and [jwt.rs].  SHA-256 and
    the base64 of the crates are the class [Digests]; signing and checking a
    JWT is the class [Jwt], whose laws are the ones the [jsonwebtoken] crate
    documents for its default validation (the signature, and [exp] with a
    leeway of sixty seconds). *)

From S2P Require Import Prelude Text Db Api Accounts DeviceKeys Sample.

#[local] Open Scope Z_scope.

Definition MICROS : Z := 1000000.
(** [DateTime::timestamp]: whole seconds. *)
Definition timestamp (t : Z) : Z := t / MICROS.

Class Digests : Type := {
  sha256 : list Z -> list Z;
  base64url : list Z -> list Z;   (* URL_SAFE_NO_PAD.encode *)
}.

(** [tokens::generate] and [tokens::hash]. *)
Definition generate `{Digests} : M (list Z) := bytes <- new_secret ;; ret (base64url bytes).
Definition hash `{Digests} (raw : list Z) : list Z := base64url (sha256 (utf8 raw)).

(** ** Refresh tokens *)

Definition REFRESH_TOKEN_TTL_DAYS : Z := 30.
Definition days (n : Z) : Z := n * 86400 * MICROS.

Record IssuedRefreshToken : Type := mkIssued { ir_raw : list Z; ir_expires_at : Z }.

Definition issue `{Digests} (user_id : N) : M IssuedRefreshToken :=
  raw <- generate ;;
  t <- now ;;
  let expires_at := t + days REFRESH_TOKEN_TTL_DAYS in
  id <- new_v4 ;;
  exec (insert_refresh_token id (mkRefreshToken user_id (hash raw) t expires_at None)) ;;;
  ret (mkIssued raw expires_at).

(** The first half of [verify_and_rotate]: the [SELECT] and the checks of the
    row it returns.  What the rest of the call uses of it is the id of the row
    and the account. *)
Definition check_token `{Digests} (raw_token : list Z) : M (N * N) :=
  row <- exec (query (find_refresh_token (hash raw_token))) ;;
  found <- lift (ok_or row (Unauthorized (detail "refresh_token_invalid"))) ;;
  let '(token_id, token) := found in
  fail_if (bool_decide (is_Some token.(rt_revoked_at))) (Unauthorized (detail "refresh_token_used")) ;;;
  checked_at <- now ;;
  fail_if (token.(rt_expires_at) <? checked_at) (Unauthorized (detail "refresh_token_expired")) ;;;
  ret (token_id, token.(rt_user_id)).

(** The second half: the [UPDATE] by that id, and the [INSERT]. *)
Definition exchange `{Digests} (token_id user_id : N) : M (N * IssuedRefreshToken) :=
  revoked_at <- now ;;
  exec (revoke_token_by_id token_id revoked_at) ;;;
  raw <- generate ;;
  t <- now ;;
  let new_expires_at := t + days REFRESH_TOKEN_TTL_DAYS in
  id <- new_v4 ;;
  exec (insert_refresh_token id (mkRefreshToken user_id (hash raw) t new_expires_at None)) ;;;
  ret (user_id, mkIssued raw new_expires_at).

Definition verify_and_rotate `{Digests} (raw_token : list Z) : M (N * IssuedRefreshToken) :=
  transaction (
    found <- check_token raw_token ;;
    let '(token_id, user_id) := found in
    exchange token_id user_id).

Definition revoke `{Digests} (raw_token : list Z) : M unit :=
  t <- now ;;
  exec (revoke_tokens (fun row => str_eqb row.(rt_token_hash) (hash raw_token)) t).

Definition revoke_all_for_user (user_id : N) : M unit :=
  t <- now ;;
  exec (revoke_tokens (fun row => N.eqb row.(rt_user_id) user_id) t).

(** ** Access tokens *)

Definition ACCESS_TOKEN_TTL_SECONDS : Z := 15 * 60.

Record Claims : Type := mkClaims { sub : N; exp : Z; iat : Z }.

(** The leeway of [Validation::default()]. *)
Definition LEEWAY : Z := 60.

Class Jwt : Type := {
  jwt_encode : Claims -> list Z -> result string (list Z);         (* claims, secret *)
  jwt_decode : list Z -> list Z -> Z -> result string Claims;      (* token, secret, the time in seconds *)
  jwt_decode_encoded : forall c k tok t, jwt_encode c k = Ok tok -> t < c.(exp) + LEEWAY -> jwt_decode tok k t = Ok c;
  jwt_decode_live : forall tok k t c, jwt_decode tok k t = Ok c -> t < c.(exp) + LEEWAY;
}.

Definition issue_access_token `{Jwt} (user_id : N) (secret : list Z) : M (list Z * Z) :=
  t <- now ;;
  let expires_at := t + ACCESS_TOKEN_TTL_SECONDS * MICROS in
  match jwt_encode (mkClaims user_id (timestamp expires_at) (timestamp t)) secret with
  | Ok token => ret (token, timestamp expires_at)
  | Err e => throw (Internal (inr e))
  end.

(** The clock is read inside [decode]. *)
Definition verify_access_token `{Jwt} (token secret : list Z) : M (result string Claims) :=
  t <- now ;;
  ret (jwt_decode token secret (timestamp t)).

(** ** Lemmas *)

(** The uniqueness the table declares. *)
Definition token_hashes_unique (d : Db) : Prop := forall i j a b,
  d.(refresh_tokens) !! i = Some a -> d.(refresh_tokens) !! j = Some b -> a.(rt_token_hash) = b.(rt_token_hash) -> i = j.

(** A token the database would still rotate at time [t]. *)
Definition live (d : Db) (hashed : list Z) : Prop :=
  exists id row, d.(refresh_tokens) !! id = Some row /\ row.(rt_token_hash) = hashed /\ row.(rt_revoked_at) = None.

Section lemmas.
Implicit Types (d : Db).

Lemma find_refresh_token_Some h d id row :
  find_refresh_token h d = Some (id, row) -> d.(refresh_tokens) !! id = Some row /\ row.(rt_token_hash) = h.
Proof.
  intros H. apply find_first_Some in H as [Hin Heq]. apply elem_of_map_to_list in Hin.
  simpl in Heq. by apply bool_decide_eq_true in Heq.
Qed.

Lemma find_refresh_token_None h d :
  find_refresh_token h d = None -> forall id row, d.(refresh_tokens) !! id = Some row -> row.(rt_token_hash) <> h.
Proof.
  intros H id row Hr Heq. unfold find_refresh_token in H. rewrite find_first_None in H.
  specialize (H (id, row)). rewrite elem_of_map_to_list in H. specialize (H Hr). simpl in H.
  by apply bool_decide_eq_false in H.
Qed.

Lemma insert_refresh_token_inv id row d u d' :
  insert_refresh_token id row d = Ok (u, d') ->
  d.(refresh_tokens) !! id = None
  /\ (forall i r, d.(refresh_tokens) !! i = Some r -> r.(rt_token_hash) <> row.(rt_token_hash))
  /\ is_Some (d.(users) !! row.(rt_user_id))
  /\ d' = set_refresh_tokens (<[id := row]> d.(refresh_tokens)) d.
Proof.
  intros H. stmt_inv H. split_and!; try done. intros i r Hr Heq.
  match goal with H : any_row _ _ = false |- _ => rewrite any_row_false in H; specialize (H i r Hr); simpl in H;
    by apply bool_decide_eq_false in H end.
Qed.

Lemma insert_keeps_unique id row d u d' :
  token_hashes_unique d -> insert_refresh_token id row d = Ok (u, d') -> token_hashes_unique d'.
Proof.
  intros Hu H. apply insert_refresh_token_inv in H as (Hn & Hh & _ & ->). intros i j a b Hi Hj Hab. simpl in *.
  apply lookup_insert_Some in Hi as [[<- <-]|[Hne Hi]], Hj as [[<- <-]|[Hne' Hj]]; [done| | |by eapply Hu].
  - exfalso. eapply Hh; [exact Hj|done].
  - exfalso. eapply Hh; [exact Hi|done].
Qed.

Lemma alter_keeps_unique id t d : token_hashes_unique d ->
  token_hashes_unique (set_refresh_tokens (alter (stamp_revoked t) id d.(refresh_tokens)) d).
Proof.
  intros Hu i j a b Hi Hj Hab. simpl in *.
  apply lookup_alter_Some in Hi as [(-> & a' & Hi & ->)|[Hne Hi]], Hj as [(-> & b' & Hj & ->)|[Hne' Hj]]; try done; by eapply Hu.
Qed.

Lemma fmap_keeps_unique p t d : token_hashes_unique d ->
  token_hashes_unique (set_refresh_tokens
    ((fun r => if p r && bool_decide (r.(rt_revoked_at) = None) then stamp_revoked t r else r) <$> d.(refresh_tokens)) d).
Proof.
  intros Hu i j a b Hi Hj Hab. simpl in *. rewrite lookup_fmap in Hi, Hj.
  destruct (refresh_tokens d !! i) as [a'|] eqn:Ea, (refresh_tokens d !! j) as [b'|] eqn:Eb; simpl in *; try done.
  injection Hi as <-. injection Hj as <-. eapply Hu; [exact Ea|exact Eb|].
  destruct (p a' && _), (p b' && _); done.
Qed.
End lemmas.

(** ** What a rotation does *)

Section rotate.
Context `{Digests}.

(** The tables after row [id] was stamped and [new] issued to account [u]. *)
Definition exchanged_rows (id u : N) (new : IssuedRefreshToken) (d d' : Db) : Prop :=
  exists id' t t', d.(refresh_tokens) !! id' = None
    /\ (forall i r, d.(refresh_tokens) !! i = Some r -> r.(rt_token_hash) <> hash new.(ir_raw))
    /\ d' = set_refresh_tokens
         (<[id' := mkRefreshToken u (hash new.(ir_raw)) t' new.(ir_expires_at) None]> (alter (stamp_revoked t) id d.(refresh_tokens))) d.

(** The tables after [raw] was exchanged for [new]. *)
Definition rotated (raw : list Z) (u : N) (new : IssuedRefreshToken) (d d' : Db) : Prop :=
  exists id row, d.(refresh_tokens) !! id = Some row /\ row.(rt_token_hash) = hash raw
    /\ row.(rt_revoked_at) = None /\ row.(rt_user_id) = u /\ exchanged_rows id u new d d'.

Lemma wpa_check_token w0 d w raw (Q : ApiResult (N * N) -> World -> Prop) :
  at_db w0 d w ->
  (forall w' e, at_db w0 d w' -> Q (Err e) w') ->
  (forall w' id row, at_db w0 d w' -> d.(refresh_tokens) !! id = Some row -> row.(rt_token_hash) = hash raw ->
     row.(rt_revoked_at) = None -> Q (Ok (id, row.(rt_user_id))) w') ->
  wp (check_token raw) Q w.
Proof.
  intros Hat He Ho. unfold check_token. wp_step. wp_step.
  destruct (find_refresh_token (hash raw) d) as [[id row]|] eqn:Ef; simpl; [|eauto with vibe].
  apply find_refresh_token_Some in Ef as [Hr Hh]. repeat wp_step. row_facts.
  eapply Ho; [exact Hat|exact Hr|exact Hh|]. destruct (rt_revoked_at row); [exfalso; eauto|done].
Qed.

Lemma wpa_exchange w0 d w id u (Q : ApiResult (N * IssuedRefreshToken) -> World -> Prop) :
  at_db w0 d w ->
  (forall w' d' e, at_db w0 d' w' -> Q (Err e) w') ->
  (forall w' d' new, at_db w0 d' w' -> exchanged_rows id u new d d' -> Q (Ok (u, new)) w') ->
  wp (exchange id u) Q w.
Proof.
  intros Hat He Ho. unfold exchange, generate. repeat wp_step.
  match goal with Hs : revoke_token_by_id _ _ _ = _ |- _ => stmt_inv Hs end.
  match goal with Hi : insert_refresh_token _ _ _ = _ |- _ => apply insert_refresh_token_inv in Hi as (Hn & Hne & _ & ->) end.
  simpl in *. rewrite lookup_alter_None in Hn.
  eapply Ho; [exact Hat|]. eexists _, _, _. split_and!; [exact Hn| |done].
  intros i r Hi Heq. destruct (decide (i = id)) as [->|Hd].
  - eapply (Hne id (stamp_revoked _ r)); [rewrite lookup_alter_eq, Hi; reflexivity|exact Heq].
  - eapply (Hne i r); [by rewrite lookup_alter_ne|done].
Qed.

Lemma verify_and_rotate_spec raw w :
  wp (verify_and_rotate raw) (fun r w' => match r with
    | Ok (u, new) => rotated raw u new w.(w_db) w'.(w_db)
    | Err _ => w'.(w_db) = w.(w_db)
    end) w.
Proof.
  pose proof (at_db_refl w) as Hat. unfold verify_and_rotate. wp_step.
  apply wp_bind. apply (wpa_check_token w _ _ _ _ Hat); clear Hat; [intros ? ? Hat; by eapply at_db_env|].
  intros wc id row Hat Hr Hh Hn. apply (wpa_exchange w _ _ _ _ _ Hat); clear Hat; [intros ? ? ? Hat; by eapply at_db_env|].
  intros wx d' new Hat He. exists d'. split; [done|]. intros wf Hf. rewrite (at_db_db _ _ _ Hf). by exists id, row.
Qed.

(** The second half, run and committed as a transaction of its own. *)
Lemma exchange_commit_spec id u w :
  wp (transaction (exchange id u)) (fun r w' => match r with
    | Ok (u', new) => u' = u /\ exchanged_rows id u new w.(w_db) w'.(w_db)
    | Err _ => w'.(w_db) = w.(w_db)
    end) w.
Proof.
  pose proof (at_db_refl w) as Hat. wp_step.
  apply (wpa_exchange w _ _ _ _ _ Hat); clear Hat; [intros ? ? ? Hat; by eapply at_db_env|].
  intros w2 d' new Hat He. exists d'. split; [done|]. intros wf Hf. by rewrite (at_db_db _ _ _ Hf).
Qed.

(** A token that was exchanged, revoked or ended with its account's sessions. *)
Definition spent (d : Db) (hashed : list Z) : Prop :=
  exists id row, d.(refresh_tokens) !! id = Some row /\ row.(rt_token_hash) = hashed /\ is_Some row.(rt_revoked_at).

Lemma exchanged_spends id u new d d' row :
  d.(refresh_tokens) !! id = Some row -> exchanged_rows id u new d d' ->
  spent d' row.(rt_token_hash) /\ live d' (hash new.(ir_raw)).
Proof.
  intros Hr (id' & t & t' & Hf & Hne & ->). split; simpl.
  - exists id, (stamp_revoked t row). simpl. split_and!; [|done|eauto].
    rewrite lookup_insert_ne by congruence. by rewrite lookup_alter_eq, Hr.
  - eexists id', _. simpl. rewrite lookup_insert_eq. split_and!; done.
Qed.

Lemma rotated_spends raw u new d d' : rotated raw u new d d' -> spent d' (hash raw) /\ live d' (hash new.(ir_raw)).
Proof. intros (id & row & Hr & <- & _ & _ & He). by eapply exchanged_spends. Qed.

(** *** Calls on the sessions table *)

Inductive SessionCall : Type :=
| Issue (user_id : N)
| Rotate (raw : list Z)
| Logout (raw : list Z)
| EndSessions (user_id : N).

Definition session_call (c : SessionCall) (w : World) : Db :=
  match c with
  | Issue u => (issue u w).2.(w_db)
  | Rotate raw => (verify_and_rotate raw w).2.(w_db)
  | Logout raw => (revoke raw w).2.(w_db)
  | EndSessions u => (revoke_all_for_user u w).2.(w_db)
  end.

(** What a call may have done to the table. *)
Definition session_effect (d d' : Db) : Prop :=
  d' = d
  \/ (exists id row, d.(refresh_tokens) !! id = None
        /\ (forall i r, d.(refresh_tokens) !! i = Some r -> r.(rt_token_hash) <> row.(rt_token_hash))
        /\ row.(rt_revoked_at) = None /\ d' = set_refresh_tokens (<[id := row]> d.(refresh_tokens)) d)
  \/ (exists id u new, exchanged_rows id u new d d')
  \/ (exists p t, d' = set_refresh_tokens
        ((fun r => if p r && bool_decide (r.(rt_revoked_at) = None) then stamp_revoked t r else r) <$> d.(refresh_tokens)) d).

Lemma issue_spec u w :
  wp (issue u) (fun r w' => match r with
    | Ok new => exists id t, w.(w_db).(refresh_tokens) !! id = None
        /\ (forall i r, w.(w_db).(refresh_tokens) !! i = Some r -> r.(rt_token_hash) <> hash new.(ir_raw))
        /\ w'.(w_db) = set_refresh_tokens (<[id := mkRefreshToken u (hash new.(ir_raw)) t new.(ir_expires_at) None]>
                        w.(w_db).(refresh_tokens)) w.(w_db)
    | Err _ => w'.(w_db) = w.(w_db)
    end) w.
Proof.
  pose proof (at_db_refl w) as Hat. unfold issue, generate. repeat wp_step.
  match goal with Hi : insert_refresh_token _ _ _ = _ |- _ => apply insert_refresh_token_inv in Hi as (Hn & Hne & _ & ->) end.
  rewrite (at_db_db _ _ _ Hat). eauto 10.
Qed.

Lemma revoke_effect p w : session_effect w.(w_db) ((t <- now ;; exec (revoke_tokens p t)) w).2.(w_db).
Proof.
  change (wp (t <- now ;; exec (revoke_tokens p t)) (fun _ w' => session_effect w.(w_db) w'.(w_db)) w).
  pose proof (at_db_refl w) as Hat. wp_step. wp_step.
  - left. by eapply at_db_db.
  - match goal with Hs : revoke_tokens _ _ _ = _ |- _ => stmt_inv Hs end.
    right. right. right. rewrite (at_db_db _ _ _ Hat). eauto.
Qed.

Lemma commit_effect id u w : session_effect w.(w_db) (transaction (exchange id u) w).2.(w_db).
Proof.
  pose proof (exchange_commit_spec id u w) as Hs. unfold wp in Hs.
  destruct (transaction (exchange id u) w) as [[[u' new]|e] w']; simpl in *; [|by left].
  destruct Hs as [_ He]. right. right. left. eauto.
Qed.

Lemma session_call_effect c w : session_effect w.(w_db) (session_call c w).
Proof.
  destruct c; simpl.
  - pose proof (issue_spec user_id w) as Hs. unfold wp in Hs. destruct (issue user_id w) as [[new|e] w']; simpl in *; [|by left].
    destruct Hs as (id & t & Hn & Hne & ->). right. left. exists id, (mkRefreshToken user_id (hash new.(ir_raw)) t new.(ir_expires_at) None). split_and!; done.
  - pose proof (verify_and_rotate_spec raw w) as Hs. unfold wp in Hs.
    destruct (verify_and_rotate raw w) as [[[u new]|e] w']; simpl in *; [|by left]. destruct Hs as (id & row & _ & _ & _ & _ & He). right. right. left. eauto.
  - apply revoke_effect.
  - apply revoke_effect.
Qed.

(** No call forgets a row, gives it another hash, or takes a stamp back. *)
Definition evolves (d d' : Db) : Prop := forall id row, d.(refresh_tokens) !! id = Some row ->
  exists row', d'.(refresh_tokens) !! id = Some row' /\ row'.(rt_token_hash) = row.(rt_token_hash)
    /\ (is_Some row.(rt_revoked_at) -> is_Some row'.(rt_revoked_at)).

#[global] Instance evolves_preorder : PreOrder evolves.
Proof.
  split.
  - intros d id row Hr. eauto.
  - intros d1 d2 d3 H12 H23 id row Hr. destruct (H12 id row Hr) as (r2 & Hr2 & E2 & S2).
    destruct (H23 id r2 Hr2) as (r3 & Hr3 & E3 & S3). exists r3. split_and!; [done|congruence|auto].
Qed.

Lemma effect_evolves d d' : session_effect d d' -> evolves d d'.
Proof.
  intros [->|[(i & r & Hn & _ & _ & ->)|[(i & u & new & i' & t & t' & Hf & _ & ->)|(p & t & ->)]]]; [done| | |]; intros id row Hr; simpl.
  - exists row. rewrite lookup_insert_ne by congruence. done.
  - rewrite lookup_insert_ne by congruence. destruct (decide (i = id)) as [->|Hd].
    + exists (stamp_revoked t row). rewrite lookup_alter_eq, Hr. split_and!; [done|done|intros _; simpl; eauto].
    + exists row. by rewrite lookup_alter_ne.
  - rewrite lookup_fmap, Hr. simpl. destruct (p row && _); eexists; (split_and!; [reflexivity|done|simpl; eauto]).
Qed.

Lemma evolves_spent d d' h : spent d h -> evolves d d' -> spent d' h.
Proof. intros (id & row & Hr & <- & Hv) He. destruct (He id row Hr) as (row' & Hr' & Hh & Hs). exists id, row'. auto. Qed.

Lemma effect_keeps_unique d d' : token_hashes_unique d -> session_effect d d' -> token_hashes_unique d'.
Proof.
  intros Hu He. destruct He as [->|[(i & r & Hn & Hne & _ & ->)|[(i & u & new & Hrot)|(p & t & ->)]]]; [done| | |by apply fmap_keeps_unique].
  - intros a b ra rb Ha Hb Hab. simpl in *.
    apply lookup_insert_Some in Ha as [[<- <-]|[_ Ha]], Hb as [[<- <-]|[_ Hb]]; [done| | |by eapply Hu].
    + exfalso. by eapply Hne.
    + exfalso. by eapply Hne.
  - destruct Hrot as (i' & t & t' & Hf & Hne & ->).
    intros a b ra rb Ha Hb Hab. simpl in *.
    assert (Hold : forall k x, alter (stamp_revoked t) i d.(refresh_tokens) !! k = Some x ->
              exists y, d.(refresh_tokens) !! k = Some y /\ y.(rt_token_hash) = x.(rt_token_hash)).
    { intros k x Hk. apply lookup_alter_Some in Hk as [(-> & y & Hy & ->)|[_ Hk]]; eauto. }
    apply lookup_insert_Some in Ha as [[<- <-]|[_ Ha]], Hb as [[<- <-]|[_ Hb]]; [done| | |].
    + apply Hold in Hb as (y & Hy & Hyh). exfalso. eapply Hne; [exact Hy|]. simpl in *. congruence.
    + apply Hold in Ha as (y & Hy & Hyh). exfalso. eapply Hne; [exact Hy|]. simpl in *. congruence.
    + apply Hold in Ha as (x & Hx & Hxh), Hb as (y & Hy & Hyh). eapply Hu; [exact Hx|exact Hy|congruence].
Qed.

(** *** Calls that overlap

    The [SELECT] of [verify_and_rotate] takes no lock and the tables are read
    as they were last committed, so another call may commit between a
    refresh's check and its update.  A configuration is the tables and the
    refreshes under way: those whose check has passed and whose update has
    not been committed.  From its [UPDATE], which takes the row's lock, to its
    commit a refresh is one step. *)
Record Refreshing : Type := mkRefreshing {
  rf_db : Db;
  rf_under_way : list (N * N);   (* what [check_token] returned *)
}.

Inductive session_step : Refreshing -> Refreshing -> Prop :=
| step_call c w l : session_step (mkRefreshing w.(w_db) l) (mkRefreshing (session_call c w) l)
| step_check raw w found w' l : check_token raw w = (Ok found, w') ->
    session_step (mkRefreshing w.(w_db) l) (mkRefreshing w.(w_db) (found :: l))
| step_commit l1 id u l2 w :
    session_step (mkRefreshing w.(w_db) (l1 ++ (id, u) :: l2)) (mkRefreshing (transaction (exchange id u) w).2.(w_db) (l1 ++ l2)).

Lemma session_step_effect s s' : session_step s s' -> session_effect s.(rf_db) s'.(rf_db).
Proof. intros [c w l|raw w found w' l _|l1 id u l2 w]; simpl; [apply session_call_effect|by left|apply commit_effect]. Qed.

Lemma session_steps_evolve s s' : rtc session_step s s' ->
  evolves s.(rf_db) s'.(rf_db) /\ (token_hashes_unique s.(rf_db) -> token_hashes_unique s'.(rf_db)).
Proof.
  induction 1 as [s|s1 s2 s3 Hs _ [IH1 IH2]]; [done|]. apply session_step_effect in Hs. split.
  - etrans; [by apply effect_evolves|done].
  - eauto using effect_keeps_unique.
Qed.

(** From [s] to [s'], [raw] was exchanged for [new]: by a refresh nothing
    overlapped, or by one whose check and whose commit had other steps between
    them. *)
Inductive exchanged (raw : list Z) : Refreshing -> IssuedRefreshToken -> Refreshing -> Prop :=
| exchanged_at_once w u new w' l : verify_and_rotate raw w = (Ok (u, new), w') ->
    exchanged raw (mkRefreshing w.(w_db) l) new (mkRefreshing w'.(w_db) l)
| exchanged_in_halves w id u wc l l1 l2 w1 u' new w' :
    check_token raw w = (Ok (id, u), wc) ->
    rtc session_step (mkRefreshing w.(w_db) ((id, u) :: l)) (mkRefreshing w1.(w_db) (l1 ++ (id, u) :: l2)) ->
    transaction (exchange id u) w1 = (Ok (u', new), w') ->
    exchanged raw (mkRefreshing w.(w_db) l) new (mkRefreshing w'.(w_db) (l1 ++ l2)).

Lemma check_token_spec raw w id u w' :
  check_token raw w = (Ok (id, u), w') ->
  exists row, w.(w_db).(refresh_tokens) !! id = Some row /\ row.(rt_token_hash) = hash raw /\ row.(rt_revoked_at) = None.
Proof.
  intros Hc. assert (Hs : wp (check_token raw) (fun r _ => match r with
    | Ok (id, _) => exists row, w.(w_db).(refresh_tokens) !! id = Some row /\ row.(rt_token_hash) = hash raw /\ row.(rt_revoked_at) = None
    | Err _ => True end) w).
  { apply (wpa_check_token w _ _ _ _ (at_db_refl w)); [done|]. eauto. }
  unfold wp in Hs. by rewrite Hc in Hs.
Qed.

Lemma exchanged_spent raw s new s' :
  token_hashes_unique s.(rf_db) -> exchanged raw s new s' ->
  spent s'.(rf_db) (hash raw) /\ live s'.(rf_db) (hash new.(ir_raw)) /\ token_hashes_unique s'.(rf_db).
Proof.
  intros Hu Hx. revert Hu. destruct Hx as [w u n w' l Hr|w id u wc l l1 l2 w1 u' n w' Hc Hsteps Hx]; simpl; intros Hu.
  - pose proof (verify_and_rotate_spec raw w) as Hs. unfold wp in Hs. rewrite Hr in Hs. simpl in Hs.
    destruct (rotated_spends _ _ _ _ _ Hs) as [Hsp Hli]. split_and!; [done|done|].
    eapply effect_keeps_unique; [exact Hu|]. destruct Hs as (id & row & _ & _ & _ & _ & He). right. right. left. exists id, u, n. exact He.
  - apply check_token_spec in Hc as (row & Hrow & Hh & _). apply session_steps_evolve in Hsteps as [Hev Hun]; simpl in *.
    destruct (Hev id row Hrow) as (row1 & Hrow1 & Hh1 & _). pose proof (exchange_commit_spec id u w1) as Hs. unfold wp in Hs.
    rewrite Hx in Hs. destruct Hs as [_ He]. destruct (exchanged_spends _ _ _ _ _ _ Hrow1 He) as [Hsp Hli]. split_and!; [by rewrite <- Hh, <- Hh1|done|].
    eapply effect_keeps_unique; [by apply Hun|]. right. right. left. exists id, u, n. exact He.
Qed.

(** A spent token passes no check, and so no refresh. *)
Lemma spent_fails_check raw w : spent w.(w_db) (hash raw) -> token_hashes_unique w.(w_db) -> is_ok (check_token raw w).1 = false.
Proof.
  intros (id & row & Hr & Hh & Hv) Hu. destruct (check_token raw w) as [[[id2 u]|e] w'] eqn:E; [|done]. exfalso.
  apply check_token_spec in E as (row2 & Hr2 & Hh2 & Hn2).
  assert (id = id2) as -> by (eapply Hu; [exact Hr|exact Hr2|congruence]).
  rewrite Hr in Hr2. injection Hr2 as ->. rewrite Hn2 in Hv. by destruct Hv.
Qed.

Lemma spent_refused raw w : spent w.(w_db) (hash raw) -> token_hashes_unique w.(w_db) -> is_ok (verify_and_rotate raw w).1 = false.
Proof.
  intros Hsp Hu. pose proof (verify_and_rotate_spec raw w) as Hs. unfold wp in Hs.
  destruct (verify_and_rotate raw w) as [[[u new]|e] w']; simpl in *; [|done]. exfalso.
  destruct Hsp as (id & row & Hr & Hh & Hv), Hs as (id2 & row2 & Hr2 & Hh2 & Hn2 & _).
  assert (id = id2) as -> by (eapply Hu; [exact Hr|exact Hr2|congruence]).
  rewrite Hr in Hr2. injection Hr2 as ->. rewrite Hn2 in Hv. by destruct Hv.
Qed.
End rotate.

(** ** Properties *)

(** Functions for the witnesses. *)
#[global] Instance plain_digests : Digests | 100 := {| sha256 b := b; base64url b := b |}.

(** C7: A refresh token opens nothing once it has been exchanged.  Whatever
    other calls on the sessions were under way or ran while it was exchanged,
    and whatever sessions are opened, refreshed (overlapping or not), logged
    out or ended afterwards, in whatever order: presenting it again is
    refused at the check.  What is refused is every refresh that begins after
    the exchange is committed; two that overlap can both succeed
    ([overlapping_refreshes_both_succeed]). *)
Theorem refresh_token_single_use `{Digests} raw s new s1 s2 w :
  token_hashes_unique s.(rf_db) ->
  exchanged raw s new s1 ->
  rtc session_step s1 s2 -> w.(w_db) = s2.(rf_db) ->
  is_ok (check_token raw w).1 = false /\ is_ok (verify_and_rotate raw w).1 = false.
Proof.
  intros Hu Hx Hs Hw. destruct (exchanged_spent raw s new s1 Hu Hx) as (Hsp & _ & Hu1).
  destruct (session_steps_evolve s1 s2 Hs) as [Hev Hun]. specialize (Hun Hu1). apply (evolves_spent _ _ _ Hsp) in Hev.
  rewrite <- Hw in Hev, Hun. split; [by apply spent_fails_check|by apply spent_refused].
Qed.

(** Bob's session, and the same table after he refreshed it. *)
Definition bob_signed_in : Db := (issue bob (world people 1000)).2.(w_db).
Definition bob_token : list Z := [65].

Lemma bob_signed_in_unique : token_hashes_unique bob_signed_in.
Proof.
  eapply effect_keeps_unique; [|apply (session_call_effect (Issue bob) (world people 1000))].
  intros i j a b Hi. simpl in Hi. change (refresh_tokens people) with (∅ : gmap N RefreshTokenRow) in Hi. rewrite lookup_empty in Hi. done.
Qed.

(** The same outside, further on. *)
Definition later (d : Db) (pos : nat) : World := mkWorld d ∅ (quiet 2000) pos.

(** Bob's token is checked, Ann signs in, and the exchange is committed; then
    Ann signs in once more. *)
Definition ann_signed_in_too : World := (issue ann (later bob_signed_in 10)).2.
Definition bob_exchanged : World := (transaction (exchange 1002 bob) ann_signed_in_too).2.

Definition ann_again : World := (issue ann (later bob_exchanged.(w_db) 50)).2.

Lemma refresh_token_single_use_witness :
  is_ok (check_token bob_token ann_again).1 = false /\ is_ok (verify_and_rotate bob_token ann_again).1 = false.
Proof.
  assert (Hx : exists new, exchanged bob_token (mkRefreshing bob_signed_in []) new (mkRefreshing bob_exchanged.(w_db) [])).
  { eexists. apply (exchanged_in_halves bob_token (later bob_signed_in 10) 1002 bob (bump (bump (later bob_signed_in 10)))
      [] [] [] ann_signed_in_too bob).
    - vm_compute. reflexivity.
    - apply rtc_once, (step_call (Issue ann) (later bob_signed_in 10)).
    - vm_compute. reflexivity. }
  destruct Hx as [new Hx].
  apply (refresh_token_single_use bob_token (mkRefreshing bob_signed_in []) new (mkRefreshing bob_exchanged.(w_db) [])
    (mkRefreshing ann_again.(w_db) [])); [exact bob_signed_in_unique|exact Hx| |reflexivity].
  apply rtc_once, (step_call (Issue ann) (later bob_exchanged.(w_db) 50)).
Defined.

(** The second half of a refresh with Bob's token. *)
Definition refreshed (w : World) : ApiResult (N * IssuedRefreshToken) * World := transaction (exchange 1002 bob) w.

(** Two refreshes with the same token, the second checked before the first
    is committed: both succeed, and where there was one session there are two. *)
Lemma overlapping_refreshes_both_succeed :
  let w := later bob_signed_in 10 in
  let w' := (refreshed (refreshed w).2).2 in
  rtc session_step (mkRefreshing bob_signed_in []) (mkRefreshing w'.(w_db) [])
  /\ (check_token bob_token w).1 = Ok (1002%N, bob)
  /\ (exists new, (refreshed w).1 = Ok (bob, new) /\ live w'.(w_db) (hash new.(ir_raw)))
  /\ (exists new, (refreshed (refreshed w).2).1 = Ok (bob, new) /\ live w'.(w_db) (hash new.(ir_raw)))
  /\ size w'.(w_db).(refresh_tokens) = 3%nat.
Proof.
  cbv zeta. repeat apply conj.
  - eapply rtc_l; [eapply (step_check bob_token (later bob_signed_in 10) (1002%N, bob) _ []); vm_compute; reflexivity|].
    eapply rtc_l; [eapply (step_check bob_token (later bob_signed_in 10) (1002%N, bob)); vm_compute; reflexivity|].
    eapply rtc_l; [apply (step_commit [] 1002 bob [(1002%N, bob)] (later bob_signed_in 10))|].
    apply rtc_once, (step_commit [] 1002 bob [] (refreshed (later bob_signed_in 10)).2).
  - vm_compute. reflexivity.
  - eexists. split; [vm_compute; reflexivity|]. eexists 2015%N, _. vm_compute. repeat split.
  - eexists. split; [vm_compute; reflexivity|]. eexists 2023%N, _. vm_compute. repeat split.
  - vm_compute. reflexivity.
Qed.

(** A rotation is all or nothing.  When it succeeds, the token presented
    is spent, the one returned is live under the same account, and every other
    session is what it was; when it fails, no table changed. *)
Theorem rotation_all_or_nothing `{Digests} raw w :
  match verify_and_rotate raw w with
  | (Ok (u, new), w') =>
      spent w'.(w_db) (hash raw) /\ live w'.(w_db) (hash new.(ir_raw))
      /\ (forall i row, row.(rt_token_hash) <> hash raw -> row.(rt_token_hash) <> hash new.(ir_raw) ->
            w'.(w_db).(refresh_tokens) !! i = Some row <-> w.(w_db).(refresh_tokens) !! i = Some row)
      /\ (exists i row, w.(w_db).(refresh_tokens) !! i = Some row /\ row.(rt_token_hash) = hash raw
            /\ row.(rt_user_id) = u /\ row.(rt_revoked_at) = None)
  | (Err _, w') => w'.(w_db) = w.(w_db)
  end.
Proof.
  pose proof (verify_and_rotate_spec raw w) as Hspec. unfold wp in Hspec.
  destruct (verify_and_rotate raw w) as [[[u new]|e] w']; simpl in *; [|done].
  destruct (rotated_spends _ _ _ _ _ Hspec) as [Hsp Hli]. split_and!; [done|done| |].
  - destruct Hspec as (id & row & Hr & Hh & Hn & Hu & id' & t & t' & Hf & Hne & ->). intros i r H1 H2. simpl. split.
    + intros [[<- <-]|[_ Hi]]%lookup_insert_Some; [done|].
      apply lookup_alter_Some in Hi as [(-> & y & Hy & ->)|[_ Hi]]; [|done]. simpl in *. congruence.
    + intros Hi. rewrite lookup_insert_ne by congruence. rewrite lookup_alter_ne; [done|]. intros ->. congruence.
  - destruct Hspec as (id & row & Hr & Hh & Hn & Hu & _). eauto 10.
Qed.
