(* ===== verification/TwoFactor.v ===== *)
(** * TwoFactor: time-based codes, base32 and recovery codes

    The pure part of [apps/backend/src/two_factor.rs].  HMAC-SHA1 and
    AES-256-GCM come from crates and are the classes [HmacSha1] and [Aes256Gcm];
    random bytes are arguments.  Bytes are [Z]s below 256, a [u32] is kept
    below 2^32 by [shl_u32]. *)

From S2P Require Import Prelude Text DeviceKeys.

#[local] Open Scope Z_scope.

Definition STEP_SECONDS : Z := 30.
Definition DIGITS : Z := 6.
Definition SKEW_STEPS : Z := 1.
Definition SECRET_BYTES : Z := 20.
Definition RECOVERY_CODE_COUNT : nat := 10.

Definition is_byte (b : Z) : bool := in_range 0 255 b.

(** The digest of [Hmac<Sha1>] is 20 bytes. *)
Class HmacSha1 : Type := {
  hmac_sha1 : list Z -> list Z -> list Z;   (* key, message *)
  hmac_sha1_length : forall k m, length (hmac_sha1 k m) = 20%nat;
  hmac_sha1_bytes : forall k m, forallb is_byte (hmac_sha1 k m) = true;
}.

(** AES-256-GCM: what was sealed under a key, a nonce and associated data opens with the same three. *)
Class Aes256Gcm : Type := {
  aead_encrypt : list Z -> list Z -> list Z -> list Z -> option (list Z);   (* key, nonce, aad, message *)
  aead_decrypt : list Z -> list Z -> list Z -> list Z -> option (list Z);
  aead_opens : forall k n aad m c, aead_encrypt k n aad m = Some c -> aead_decrypt k n aad c = Some m;
}.

(** [cipher]: the key from [TOTP_ENCRYPTION_KEY], when it is 32 bytes of base64. *)
Definition cipher `{Base64} (totp_encryption_key : option (list Z)) : option (list Z) :=
  encoded ← totp_encryption_key;
  key ← base64_decode (trim encoded);
  if Nat.eqb (length key) 32 then Some key else None.

(** [Uuid::as_bytes]. *)
Fixpoint be_bytes (n : nat) (x : Z) : list Z :=
  match n with
  | O => []
  | S n => be_bytes n (x / 256) ++ [x mod 256]
  end.
Definition uuid_bytes (u : N) : list Z := be_bytes 16 (Z.of_N u).

(** [encrypt]; [nonce] is the twelve random bytes. *)
Definition encrypt `{Aes256Gcm} (key : list Z) (nonce : list Z) (user_id : N) (secret : list Z) : result string (list Z) :=
  match aead_encrypt key nonce (uuid_bytes user_id) secret with
  | Some ciphertext => Ok (nonce ++ ciphertext)
  | None => Err "couldn't encrypt the two-factor secret"%string
  end.

Definition decrypt `{Aes256Gcm} (key : list Z) (user_id : N) (stored : list Z) : result string (list Z) :=
  if Nat.ltb (length stored) 12 then Err "the stored two-factor secret is malformed"%string
  else match aead_decrypt key (take 12 stored) (uuid_bytes user_id) (drop 12 stored) with
       | Some secret => Ok secret
       | None => Err "couldn't decrypt the two-factor secret"%string
       end.

(** [hotp]. *)
Definition byte_at (digest : list Z) (i : Z) : Z := nth (Z.to_nat i) digest 0.

Definition hotp `{HmacSha1} (secret : list Z) (counter : Z) : Z :=
  let digest := hmac_sha1 secret (be_bytes 8 counter) in
  let offset := Z.land (byte_at digest 19) 15 in
  let value := u32_from_be_bytes (Z.land (byte_at digest offset) 127) (byte_at digest (offset + 1))
                 (byte_at digest (offset + 2)) (byte_at digest (offset + 3)) in
  value mod 10 ^ DIGITS.

(** [format!("{:0width$}", n, width = DIGITS)] of an integer below 10^6. *)
Fixpoint dec_fixed (width : nat) (n : Z) : list Z :=
  match width with
  | O => []
  | S w => dec_fixed w (n / 10) ++ [48 + n mod 10]
  end.

Definition code_text (n : Z) : list Z := dec_fixed 6 n.

(** [constant_time_eq]. *)
Definition constant_time_eq (a b : list Z) : bool :=
  Nat.eqb (length a) (length b)
  && (fold_left (fun acc xy => Z.lor acc (Z.lxor xy.1 xy.2)) (zip a b) 0 =? 0).

(** [verify]: the candidates in the order the range yields them. *)
Definition verify `{HmacSha1} (secret code : list Z) (now_unix : Z) (after_step : option Z) : option Z :=
  let digits := List.filter (fun c => negb (is_whitespace c)) code in
  if negb (byte_len digits =? DIGITS) || negb (forallb is_ascii_digit digits) then None
  else
    let current := now_unix / STEP_SECONDS in
    let steps := [current - SKEW_STEPS; current; current + SKEW_STEPS] in
    find_first (fun step => constant_time_eq (code_text (hotp secret step)) digits)
      (List.filter (fun step => match after_step with None => true | Some last => last <? step end && (0 <=? step)) steps).

Definition code_at `{HmacSha1} (secret : list Z) (unix : Z) : list Z := code_text (hotp secret (unix / STEP_SECONDS)).

(** ** Base32 *)

Definition shl_u32 (x n : Z) : Z := Z.land (Z.shiftl x n) (Z.ones 32).

Definition ALPHABET : list Z := lit "ABCDEFGHIJKLMNOPQRSTUVWXYZ234567".

Definition base32_char (v : Z) : Z := nth (Z.to_nat v) ALPHABET 0.

(** [while bits >= 5]: with at most 12 bits there are at most two turns. *)
Fixpoint base32_emit (fuel : nat) (buffer bits : Z) : list Z * Z :=
  match fuel with
  | O => ([], bits)
  | S fuel =>
      if 5 <=? bits
      then let bits := bits - 5 in
           let (out, rest) := base32_emit fuel buffer bits in
           (base32_char (Z.land (Z.shiftr buffer bits) 31) :: out, rest)
      else ([], bits)
  end.

Fixpoint base32_loop (buffer bits : Z) (bytes : list Z) : list Z :=
  match bytes with
  | [] => if 0 <? bits then [base32_char (Z.land (shl_u32 buffer (5 - bits)) 31)] else []
  | byte :: bytes =>
      let buffer := Z.lor (shl_u32 buffer 8) byte in
      let (out, bits) := base32_emit 2 buffer (bits + 8) in
      out ++ base32_loop buffer bits bytes
  end.

Definition base32 (bytes : list Z) : list Z := base32_loop 0 0 bytes.

Definition base32_value (c : Z) : option Z :=
  let c := to_ascii_uppercase c in
  if in_range 65 90 c then Some (c - 65)
  else if in_range 50 55 c then Some (c - 50 + 26)
  else None.

Fixpoint base32_decode_loop (buffer bits : Z) (text : list Z) : option (list Z) :=
  match text with
  | [] => Some []
  | c :: text =>
      if c =? 61 then base32_decode_loop buffer bits text else
      value ← base32_value c;
      let buffer := Z.lor (shl_u32 buffer 5) value in
      let bits := bits + 5 in
      if 8 <=? bits
      then rest ← base32_decode_loop buffer (bits - 8) text;
           Some (Z.land (Z.shiftr buffer (bits - 8)) 255 :: rest)
      else base32_decode_loop buffer bits text
  end.

Definition base32_decode (text : list Z) : option (list Z) := base32_decode_loop 0 0 text.

(** ** The link an authenticator app reads *)

Definition unreserved (b : Z) : bool :=
  is_ascii_alphanumeric b || (b =? 45) || (b =? 46) || (b =? 95) || (b =? 126) || (b =? 58) || (b =? 64).

(** [format!("%{byte:02X}")]. *)
Definition hex_upper (n : Z) : Z := if n <? 10 then 48 + n else 55 + n.

Definition percent_encode (text : list Z) : list Z :=
  utf8 text ≫= fun byte => if unreserved byte then [byte] else [37; hex_upper (byte / 16); hex_upper (byte mod 16)].

Definition otpauth_uri (email secret : list Z) : list Z :=
  let label := percent_encode (lit "VibeSSH:" ++ email) in
  lit "otpauth://totp/" ++ label ++ lit "?secret=" ++ base32 secret ++ lit "&issuer=VibeSSH&algorithm=SHA1&digits="
    ++ to_dec DIGITS ++ lit "&period=" ++ to_dec STEP_SECONDS.

(** ** Recovery codes *)

Definition RECOVERY_ALPHABET : list Z := lit "abcdefghjkmnpqrstuvwxyz23456789".

(** One of [generate_recovery_codes], from its ten random bytes. *)
Definition recovery_code (bytes : list Z) : list Z :=
  let chars := map (fun b => nth (Z.to_nat (b mod 31)) RECOVERY_ALPHABET 0) bytes in
  take 5 chars ++ [45] ++ drop 5 chars.

Definition generate_recovery_codes (random : list (list Z)) : list (list Z) := map recovery_code random.

Definition normalize_recovery_code (code : list Z) : list Z :=
  map to_ascii_lowercase (List.filter is_ascii_alphanumeric code).

(** ** Comparing in constant time *)

Lemma fold_lor_zero l : forall acc : Z,
  fold_left (fun acc (xy : Z * Z) => Z.lor acc (Z.lxor xy.1 xy.2)) l acc = 0 <-> acc = 0 /\ Forall (fun xy : Z * Z => xy.1 = xy.2) l.
Proof.
  induction l as [|[x y] l IH]; intros acc; simpl; [naive_solver|].
  rewrite IH, Z.lor_eq_0_iff, Z.lxor_eq_0_iff, Forall_cons. simpl. naive_solver.
Qed.

Lemma constant_time_eq_spec a b : constant_time_eq a b = true <-> a = b.
Proof.
  unfold constant_time_eq. rewrite andb_true_iff, Nat.eqb_eq, Z.eqb_eq, fold_lor_zero. split.
  - intros (Hl & _ & Hf). revert b Hl Hf. induction a as [|x a IH]; intros [|y b] Hl Hf; simpl in *; try done.
    apply Forall_cons in Hf as [Hx Hf]. simpl in Hx. subst. f_equal. apply IH; [lia|done].
  - intros ->. split_and!; [done|done|]. induction b as [|y b IH]; simpl; constructor; done.
Qed.

(** ** Time steps *)

Section verify.
Context `{HmacSha1}.

Lemma hotp_range secret counter : 0 <= hotp secret counter < 10 ^ DIGITS.
Proof. apply Z.mod_pos_bound. reflexivity. Qed.

Lemma dec_fixed_length width : forall n, length (dec_fixed width n) = width.
Proof. induction width as [|w IH]; intros n; simpl; [done|]. rewrite length_app, IH. simpl. lia. Qed.

Lemma dec_fixed_digits width : forall n, forallb is_ascii_digit (dec_fixed width n) = true.
Proof.
  induction width as [|w IH]; intros n; simpl; [done|]. rewrite forallb_app, IH. simpl.
  unfold is_ascii_digit, in_range. assert (0 <= n mod 10 < 10) by (apply Z.mod_pos_bound; lia). lia.
Qed.

Lemma ascii_digits_byte_len s : forallb is_ascii_digit s = true -> byte_len s = chars_count s.
Proof.
  unfold chars_count. induction s as [|c s IH]; simpl; [done|]. intros [Hc Hs]%andb_true_iff. rewrite IH by done.
  unfold is_ascii_digit, in_range in Hc. unfold len_utf8. destruct (Z.ltb_spec c 128); lia.
Qed.

Lemma digits_no_whitespace s :
  forallb is_ascii_digit s = true -> List.filter (fun c => negb (is_whitespace c)) s = s.
Proof.
  induction s as [|c s IH]; simpl; [done|]. intros [Hc Hs]%andb_true_iff. rewrite IH by done.
  replace (negb (is_whitespace c)) with true; [done|].
  unfold is_ascii_digit, in_range in Hc. unfold is_whitespace. lia.
Qed.

(** What an accepted code is: the code of a step at most one away from now,
    later than the last one used. *)
Lemma verify_sound secret code now_unix after_step step :
  verify secret code now_unix after_step = Some step ->
  List.filter (fun c => negb (is_whitespace c)) code = code_text (hotp secret step)
  /\ Z.abs (step - now_unix / STEP_SECONDS) <= SKEW_STEPS /\ 0 <= step
  /\ (forall last, after_step = Some last -> last < step).
Proof.
  unfold verify. case_bool; [done|]. intros Hf. apply find_first_Some in Hf as [Hin Heq].
  apply constant_time_eq_spec in Heq. apply list_elem_of_In, List.filter_In in Hin as [Hin Hc].
  apply andb_true_iff in Hc as [Hlast Hpos]. split_and!; [done| |lia|].
  - unfold SKEW_STEPS in *. simpl in Hin. destruct Hin as [<-|[<-|[<-|[]]]]; lia.
  - intros last ->. lia.
Qed.

(** The code of an unused step at most one away from now is accepted. *)
Lemma verify_complete secret step now_unix after_step :
  Z.abs (step - now_unix / STEP_SECONDS) <= SKEW_STEPS -> 0 <= step ->
  (forall last, after_step = Some last -> last < step) ->
  is_Some (verify secret (code_text (hotp secret step)) now_unix after_step).
Proof.
  intros Hs Hp Hl. unfold verify. assert (Hd := dec_fixed_digits 6 (hotp secret step)).
  fold (code_text (hotp secret step)) in Hd. rewrite digits_no_whitespace by done.
  rewrite ascii_digits_byte_len by done. unfold chars_count, code_text. rewrite dec_fixed_length.
  fold (code_text (hotp secret step)). rewrite Hd. simpl.
  destruct (find_first _ _) as [s|] eqn:E; [eauto|]. exfalso. rewrite find_first_None in E.
  assert (Hin : step ∈ List.filter (fun step => match after_step with None => true | Some last => last <? step end && (0 <=? step))
      [now_unix / STEP_SECONDS - SKEW_STEPS; now_unix / STEP_SECONDS; now_unix / STEP_SECONDS + SKEW_STEPS]).
  { apply list_elem_of_In, List.filter_In. split.
    - unfold SKEW_STEPS in *. simpl. lia.
    - apply andb_true_iff. split; [|lia]. destruct after_step as [l|]; [|done]. specialize (Hl l eq_refl). lia. }
  specialize (E step Hin). apply not_true_iff_false in E. by apply E, constant_time_eq_spec.
Qed.
End verify.

(** ** Base32 *)

Lemma lor_low q n v : 0 <= n -> 0 <= v < 2 ^ n -> Z.lor (q * 2 ^ n) v = q * 2 ^ n + v.
Proof.
  intros Hn Hv. rewrite <-Z.add_lor_land. replace (Z.land (q * 2 ^ n) v) with 0; [lia|].
  rewrite <-(Z.mod_small v (2 ^ n)) by done. rewrite <-Z.land_ones by done.
  rewrite (Z.land_comm v), Z.land_assoc, Z.land_ones by done. rewrite Z.mod_mul by lia. by rewrite Z.land_0_l.
Qed.

Lemma shl_or_mod x v n k :
  0 <= n -> 0 <= k -> n + k <= 32 -> 0 <= v < 2 ^ n ->
  Z.lor (shl_u32 x n) v mod 2 ^ (n + k) = (x mod 2 ^ k) * 2 ^ n + v.
Proof.
  intros Hn Hk Hnk Hv. unfold shl_u32. rewrite Z.land_ones, Z.shiftl_mul_pow2 by lia.
  replace (2 ^ 32) with (2 ^ (32 - n) * 2 ^ n) by (rewrite <-Z.pow_add_r by lia; f_equal; lia).
  rewrite Z.mul_mod_distr_r by lia. rewrite lor_low by done.
  replace (2 ^ (n + k)) with (2 ^ k * 2 ^ n) by (rewrite <-Z.pow_add_r by lia; f_equal; lia).
  rewrite <-Z.add_mod_idemp_l by lia. rewrite Z.mul_mod_distr_r by lia.
  rewrite Z.mod_mod_divide.
  - apply Z.mod_small. pose proof (Z.mod_pos_bound x (2 ^ k)). nia.
  - exists (2 ^ (32 - n - k)). rewrite <-Z.pow_add_r by lia. f_equal. lia.
Qed.

Lemma shiftr_land y s w : 0 <= s -> 0 <= w -> Z.land (Z.shiftr y s) (Z.ones w) = y mod 2 ^ (s + w) / 2 ^ s.
Proof.
  intros Hs Hw. rewrite Z.land_ones, Z.shiftr_div_pow2 by done. rewrite Z.pow_add_r by done.
  rewrite Z.rem_mul_r by lia. rewrite Z.mul_comm, Z.div_add by lia.
  rewrite (Z.div_small (y mod 2 ^ s)) by (apply Z.mod_pos_bound; lia). lia.
Qed.

(** Each of the 32 digits is read back, and none of them is the padding. *)
Lemma base32_char_value v : 0 <= v < 32 -> base32_value (base32_char v) = Some v /\ (base32_char v =? 61) = false.
Proof.
  intros Hv. assert (Hall : forallb (fun n => bool_decide (base32_value (base32_char (Z.of_nat n)) = Some (Z.of_nat n))
     && negb (base32_char (Z.of_nat n) =? 61)) (seq 0 32) = true) by reflexivity.
  rewrite forallb_elem_of in Hall. specialize (Hall (Z.to_nat v)). rewrite Z2Nat.id in Hall by lia.
  rewrite elem_of_seq in Hall. specialize (Hall ltac:(lia)). apply andb_true_iff in Hall as [H1 H2].
  split; [by apply bool_decide_eq_true in H1|by apply negb_true_iff in H2].
Qed.

(** One character read: the decoder's next step. *)
Lemma base32_decode_char buf d v text : 0 <= v < 32 ->
  base32_decode_loop buf d (base32_char v :: text) =
  let buf := Z.lor (shl_u32 buf 5) v in
  if 8 <=? d + 5
  then rest ← base32_decode_loop buf (d + 5 - 8) text; Some (Z.land (Z.shiftr buf (d + 5 - 8)) 255 :: rest)
  else base32_decode_loop buf (d + 5) text.
Proof.
  intros Hv. destruct (base32_char_value v Hv) as [H1 H2]. simpl. rewrite H2, H1. done.
Qed.

(** The five bits at position [s], and the byte at position [s], as arithmetic. *)
Lemma bits5 y s : 0 <= s -> Z.land (Z.shiftr y s) 31 = y mod 2 ^ (s + 5) / 2 ^ s.
Proof. intros Hs. by apply (shiftr_land y s 5). Qed.
Lemma bits8 y s : 0 <= s -> Z.land (Z.shiftr y s) 255 = y mod 2 ^ (s + 8) / 2 ^ s.
Proof. intros Hs. by apply (shiftr_land y s 8). Qed.

Lemma bits5_range y s : 0 <= s -> 0 <= Z.land (Z.shiftr y s) 31 < 32.
Proof. intros Hs. change 31 with (Z.ones 5). rewrite Z.land_ones by lia. by apply Z.mod_pos_bound. Qed.

Ltac pows :=
  repeat match goal with
  | |- context [2 ^ ?e] => let v := eval compute in (2 ^ e) in change (2 ^ e) with v
  | H : context [2 ^ ?e] |- _ => let v := eval compute in (2 ^ e) in change (2 ^ e) with v in H
  end.

(** What the encoder holds after a byte, and the decoder after a character. *)
Ltac pushed buf n v k := pose proof (shl_or_mod buf v n k ltac:(lia) ltac:(lia) ltac:(lia) ltac:(lia)).

(** The decoder is [8 - b] bits into the byte of which the encoder still
    holds the last [b] bits. *)
Definition decodes (b : Z) (bytes : list Z) : Prop := forall buf buf2,
  base32_decode_loop buf2 (8 - b) (base32_loop buf b bytes) = Some ((buf2 mod 2 ^ (8 - b)) * 2 ^ b + buf mod 2 ^ b :: bytes).

Lemma last_char buf b : 1 <= b <= 4 -> Z.land (shl_u32 buf (5 - b)) 31 = (buf mod 2 ^ b) * 2 ^ (5 - b).
Proof.
  intros Hb. change 31 with (Z.ones 5). rewrite Z.land_ones by lia.
  pose proof (shl_or_mod buf 0 (5 - b) b ltac:(lia) ltac:(lia) ltac:(lia) ltac:(lia)) as E.
  rewrite Z.lor_0_r, Z.add_0_r in E. by replace (5 - b + b) with 5 in E by lia.
Qed.

Lemma decodes_end b : 1 <= b <= 4 -> decodes b [].
Proof.
  intros Hr buf buf2. simpl. destruct (Z.ltb_spec 0 b); [|lia]. rewrite last_char by done.
  assert (b = 1 \/ b = 2 \/ b = 3 \/ b = 4) as [ -> | [ -> | [ -> | -> ]]] by lia.
  all: match goal with |- base32_decode_loop _ ?d [base32_char ?v] = _ =>
    assert (0 <= v < 32) by (pows; zdm); rewrite base32_decode_char by done;
    pushed buf2 5 v d end; cbn -[Z.lor shl_u32 Z.land Z.shiftr Z.pow Z.modulo Z.mul]; f_equal; f_equal;
    rewrite bits8 by lia; simpl (_ + _) in *; pows; zdm.
Qed.

(** One byte encoded: one character or two, depending on the bits held. *)
Lemma base32_loop_one buf b byte bytes : b = 0 \/ b = 1 ->
  base32_loop buf b (byte :: bytes) =
  let buf := Z.lor (shl_u32 buf 8) byte in
  base32_char (Z.land (Z.shiftr buf (b + 3)) 31) :: base32_loop buf (b + 3) bytes.
Proof. by intros [->| ->]. Qed.

Lemma base32_loop_two buf b byte bytes : 2 <= b <= 4 ->
  base32_loop buf b (byte :: bytes) =
  let buf := Z.lor (shl_u32 buf 8) byte in
  base32_char (Z.land (Z.shiftr buf (b + 3)) 31) :: base32_char (Z.land (Z.shiftr buf (b - 2)) 31) :: base32_loop buf (b - 2) bytes.
Proof. intros Hb. by assert (b = 2 \/ b = 3 \/ b = 4) as [ -> | [ -> | -> ]] by lia. Qed.

(** One character read that does not, or does, complete a byte. *)
Lemma decode_partial buf d v text : 0 <= v < 32 -> d + 5 < 8 ->
  base32_decode_loop buf d (base32_char v :: text) = base32_decode_loop (Z.lor (shl_u32 buf 5) v) (d + 5) text.
Proof. intros Hv Hd. rewrite base32_decode_char by done. simpl. by destruct (Z.leb_spec 8 (d + 5)); [lia|]. Qed.

Lemma decode_byte buf d v text : 0 <= v < 32 -> 3 <= d <= 7 ->
  base32_decode_loop buf d (base32_char v :: text) =
  rest ← base32_decode_loop (Z.lor (shl_u32 buf 5) v) (d - 3) text;
  Some ((buf mod 2 ^ d * 32 + v) / 2 ^ (d - 3) :: rest).
Proof.
  intros Hv Hd. rewrite base32_decode_char by done. simpl. destruct (Z.leb_spec 8 (d + 5)); [|lia].
  replace (d + 5 - 8) with (d - 3) by lia. rewrite bits8 by lia. replace (d - 3 + 8) with (5 + d) by lia.
  by rewrite shl_or_mod by (try lia; exact Hv).
Qed.

(** Name a buffer or a character and keep what is known of it as arithmetic. *)
Ltac name_pushed E buf n v k :=
  let H := fresh "H" E in
  pose proof (shl_or_mod buf v n k ltac:(lia) ltac:(lia) ltac:(lia) ltac:(lia)) as H;
  set (E := Z.lor (shl_u32 buf n) v) in *; clearbody E.
Ltac name_char v E s :=
  let H := fresh "H" v in let R := fresh "R" v in
  pose proof (bits5_range E s ltac:(lia)) as R; pose proof (bits5 E s ltac:(lia)) as H;
  set (v := Z.land (Z.shiftr E s) 31) in *; clearbody v.

Section step.
Context (byte : Z) (bytes : list Z) (Hbyte : 0 <= byte <= 255).

Lemma decodes_0 : decodes 3 bytes -> forall buf buf2, base32_decode_loop buf2 0 (base32_loop buf 0 (byte :: bytes)) = Some (byte :: bytes).
Proof.
  intros IH buf buf2. rewrite base32_loop_one by lia. cbv zeta. change (0 + 3) with 3.
  name_pushed E buf 8 byte 0. name_char v E 3. rewrite decode_partial by lia.
  name_pushed D buf2 5 v 0. change (0 + 5) with (8 - 3). rewrite IH. do 2 f_equal. pows. zdm.
Qed.

Lemma decodes_1 : decodes 4 bytes -> decodes 1 (byte :: bytes).
Proof.
  intros IH buf buf2. rewrite base32_loop_one by lia. cbv zeta. change (1 + 3) with 4.
  name_pushed E buf 8 byte 1. name_char v E 4. rewrite decode_byte by lia.
  name_pushed D buf2 5 v 7. change (8 - 1 - 3) with (8 - 4). rewrite IH. cbn [mbind option_bind]. do 2 f_equal; [|f_equal]; pows; zdm.
Qed.

Lemma decodes_2 : (forall buf buf2, base32_decode_loop buf2 0 (base32_loop buf 0 bytes) = Some bytes) -> decodes 2 (byte :: bytes).
Proof.
  intros IH buf buf2. rewrite base32_loop_two by lia. cbv zeta. change (2 + 3) with 5. change (2 - 2) with 0.
  name_pushed E buf 8 byte 2. name_char v E 5. name_char v' E 0. rewrite decode_byte by lia.
  name_pushed D buf2 5 v 6. change (8 - 2 - 3) with 3. rewrite decode_byte by lia. change (3 - 3) with 0.
  rewrite IH. cbn [mbind option_bind]. do 2 f_equal; [|f_equal]; pows; zdm.
Qed.

Lemma decodes_3 : decodes 1 bytes -> decodes 3 (byte :: bytes).
Proof.
  intros IH buf buf2. rewrite base32_loop_two by lia. cbv zeta. change (3 + 3) with 6. change (3 - 2) with 1.
  name_pushed E buf 8 byte 3. name_char v E 6. name_char v' E 1. rewrite decode_byte by lia.
  name_pushed D buf2 5 v 5. change (8 - 3 - 3) with 2. rewrite decode_partial by lia.
  name_pushed D' D 5 v' 2. change (2 + 5) with (8 - 1).
  rewrite IH. cbn [mbind option_bind]. do 2 f_equal; [|f_equal]; pows; zdm.
Qed.

Lemma decodes_4 : decodes 2 bytes -> decodes 4 (byte :: bytes).
Proof.
  intros IH buf buf2. rewrite base32_loop_two by lia. cbv zeta. change (4 + 3) with 7. change (4 - 2) with 2.
  name_pushed E buf 8 byte 4. name_char v E 7. name_char v' E 2. rewrite decode_byte by lia.
  name_pushed D buf2 5 v 4. change (8 - 4 - 3) with 1. rewrite decode_partial by lia.
  name_pushed D' D 5 v' 1. change (1 + 5) with (8 - 2).
  rewrite IH. cbn [mbind option_bind]. do 2 f_equal; [|f_equal]; pows; zdm.
Qed.
End step.

Lemma base32_loop_decodes bytes : forallb is_byte bytes = true ->
  (forall buf buf2, base32_decode_loop buf2 0 (base32_loop buf 0 bytes) = Some bytes)
  /\ decodes 1 bytes /\ decodes 2 bytes /\ decodes 3 bytes /\ decodes 4 bytes.
Proof.
  induction bytes as [|byte bytes IH]; intros Hb.
  - split_and!; [done|..]; apply decodes_end; lia.
  - simpl in Hb. apply andb_true_iff in Hb as [Hbyte Hb]. destruct (IH Hb) as (I0 & I1 & I2 & I3 & I4).
    assert (0 <= byte <= 255) by (unfold is_byte, in_range in Hbyte; lia).
    split_and!; eauto using decodes_0, decodes_1, decodes_2, decodes_3, decodes_4.
Qed.

(** ** Properties *)

(** Base32 is undone by decoding, for every secret: the u32 buffer, which
    drops its high bits, never loses a bit that is still to be written. *)
Theorem base32_round_trip bytes :
  forallb is_byte bytes = true -> base32_decode (base32 bytes) = Some bytes.
Proof. intros Hb. by apply base32_loop_decodes. Qed.

Lemma base32_round_trip_witness : base32_decode (base32 (lit "foobar")) = Some (lit "foobar").
Proof. apply base32_round_trip. reflexivity. Defined.

(** Examples of RFC 4648, as in the unit tests. *)
Example base32_rfc4648 :
  base32 (lit "f") = lit "MY" /\ base32 (lit "fooba") = lit "MZXW6YTB" /\ base32 (lit "foobar") = lit "MZXW6YTBOI".
Proof. split_and!; reflexivity. Qed.

(** A digest for the witnesses: the message's last byte in every position. *)
#[global] Program Instance echo_hmac : HmacSha1 | 100 :=
  {| hmac_sha1 k m := repeat (nth 7 m 0 mod 256) 20 |}.
Next Obligation. done. Qed.
Next Obligation.
  intros k m. apply forallb_elem_of. intros x Hx%list_elem_of_In%List.repeat_spec. subst.
  unfold is_byte, in_range. assert (0 <= nth 7 m 0 mod 256 < 256) by (by apply Z.mod_pos_bound). lia.
Qed.

(** A code is accepted exactly when it is, spaces aside, the six digits of
    a time step at most one away from the current one, not negative and later
    than the last step used; the step returned is such a step. *)
Theorem totp_accepts_exactly `{HmacSha1} secret code now_unix after_step :
  let digits := List.filter (fun c => negb (is_whitespace c)) code in
  let good step :=
    digits = code_text (hotp secret step) /\ Z.abs (step - now_unix / STEP_SECONDS) <= SKEW_STEPS /\ 0 <= step
    /\ (forall last, after_step = Some last -> last < step) in
  (forall step, verify secret code now_unix after_step = Some step -> good step)
  /\ (verify secret code now_unix after_step = None -> forall step, ~ good step).
Proof.
  intros digits good. split; [intros step Hv; exact (verify_sound secret code now_unix after_step step Hv)|].
  intros Hn step (Hd & Hs & Hp & Hl).
  destruct (verify_complete secret step now_unix after_step Hs Hp Hl) as [x Hx].
  assert (Hsame : verify secret code now_unix after_step = verify secret (code_text (hotp secret step)) now_unix after_step).
  { unfold verify. fold digits. rewrite Hd. rewrite (digits_no_whitespace (code_text _)); [done|].
    apply dec_fixed_digits. }
  congruence.
Qed.

Lemma totp_accepts_exactly_witness :
  verify (lit "k") (code_at (lit "k") 3000) 3010 (Some 99) = Some 100 /\ 99 < 100.
Proof.
  assert (E : verify (lit "k") (code_at (lit "k") 3000) 3010 (Some 99) = Some 100) by reflexivity.
  split; [exact E|].
  destruct (totp_accepts_exactly (lit "k") (code_at (lit "k") 3000) 3010 (Some 99)) as [Hg _].
  destruct (Hg 100 E) as (_ & _ & _ & Hl). by apply Hl.
Defined.

(** *** The account name in the link *)

(** Reads a percent-encoded text back to bytes. *)
Definition hex_value (c : Z) : Z := if c <? 65 then c - 48 else c - 55.
Fixpoint percent_decode (s : list Z) : list Z :=
  match s with
  | [] => []
  | c :: s' =>
      if c =? 37
      then match s' with
           | a :: b :: s => hex_value a * 16 + hex_value b :: percent_decode s
           | _ => []
           end
      else c :: percent_decode s'
  end.

Lemma utf8_char_bytes c : 0 <= c < 1114112 -> forallb is_byte (utf8_char c) = true.
Proof.
  intros Hc. unfold utf8_char, is_byte, in_range.
  repeat match goal with |- context [if ?b then _ else _] => destruct b eqn:? end; simpl; zdm.
Qed.

Lemma utf8_bytes s : Forall (fun c => 0 <= c < 1114112) s -> forallb is_byte (utf8 s) = true.
Proof.
  induction 1 as [|c s Hc _ IH]; [done|]. unfold utf8 in *. simpl. by rewrite forallb_app, utf8_char_bytes.
Qed.

Lemma percent_decode_plain b s : unreserved b = true -> percent_decode (b :: s) = b :: percent_decode s.
Proof.
  intros Hb. simpl. destruct (Z.eqb_spec b 37) as [->|]; [by vm_compute in Hb|done].
Qed.

Lemma percent_decode_escape b s : is_byte b = true ->
  percent_decode (37 :: hex_upper (b / 16) :: hex_upper (b mod 16) :: s) = b :: percent_decode s.
Proof.
  intros Hb. unfold is_byte, in_range in Hb. cbn [percent_decode]. rewrite Z.eqb_refl. f_equal.
  unfold hex_upper, hex_value. repeat match goal with |- context [?x <? ?y] => destruct (Z.ltb_spec x y) end; zdm.
Qed.

(** The account name put into the [otpauth] link decodes back to its UTF-8
    bytes, and nothing in it can end the label or start a parameter: every
    character is unreserved, a percent sign or a hexadecimal digit. *)
Theorem otpauth_label_round_trip text :
  Forall (fun c => 0 <= c < 1114112) text ->
  percent_decode (percent_encode text) = utf8 text
  /\ Forall (fun c => unreserved c = true \/ c = 37) (percent_encode text).
Proof.
  intros Ht. unfold percent_encode. pose proof (utf8_bytes text Ht) as Hb.
  induction (utf8 text) as [|b bs IH]; [done|]. simpl in Hb. apply andb_true_iff in Hb as [Hb Hbs].
  destruct (IH Hbs) as [IH1 IH2]. cbn [mbind list_bind]. destruct (unreserved b) eqn:Eu; split; simpl app.
  - by rewrite percent_decode_plain, IH1.
  - constructor; [by left|done].
  - by rewrite percent_decode_escape, IH1.
  - unfold is_byte, in_range in Hb.
    assert (forall n, 0 <= n < 16 -> unreserved (hex_upper n) = true) as Hh.
    { intros n Hn. unfold hex_upper, unreserved, is_ascii_alphanumeric, is_ascii_alphabetic, is_ascii_uppercase, is_ascii_digit, in_range.
      destruct (Z.ltb_spec n 10); lia. }
    constructor; [by right|]. constructor; [left; apply Hh; zdm|]. constructor; [left; apply Hh; zdm|done].
Qed.

Lemma otpauth_label_round_trip_witness :
  percent_decode (percent_encode (lit "a&b@x.pl")) = utf8 (lit "a&b@x.pl") /\ percent_encode (lit "a&b@x.pl") = lit "a%26b@x.pl".
Proof.
  split; [|reflexivity]. apply otpauth_label_round_trip. simpl. repeat constructor; lia.
Defined.

(** *** Recovery codes *)

Lemma normalize_app a b : normalize_recovery_code (a ++ b) = normalize_recovery_code a ++ normalize_recovery_code b.
Proof. unfold normalize_recovery_code. by rewrite List.filter_app, map_app. Qed.

Lemma normalize_upper s : normalize_recovery_code (map to_ascii_uppercase s) = normalize_recovery_code s.
Proof.
  unfold normalize_recovery_code. induction s as [|c s IH]; [done|]. simpl.
  assert (is_ascii_alphanumeric (to_ascii_uppercase c) = is_ascii_alphanumeric c
          /\ to_ascii_lowercase (to_ascii_uppercase c) = to_ascii_lowercase c) as [Ha Hl].
  { unfold to_ascii_uppercase, to_ascii_lowercase, is_ascii_alphanumeric, is_ascii_alphabetic, is_ascii_uppercase,
      is_ascii_lowercase, is_ascii_digit, in_range.
    split; repeat match goal with |- context [if ?b then _ else _] => destruct b eqn:? end; lia. }
  rewrite Ha. case_bool; simpl; by rewrite ?Hl, IH.
Qed.

Lemma normalize_separator sep : forallb (fun c => negb (is_ascii_alphanumeric c)) sep = true -> normalize_recovery_code sep = [].
Proof.
  unfold normalize_recovery_code. induction sep as [|c sep IH]; [done|]. simpl. intros [Hc Hs]%andb_true_iff.
  apply negb_true_iff in Hc. rewrite Hc. by apply IH.
Qed.

Lemma recovery_alphabet_char b : let c := nth (Z.to_nat (b mod 31)) RECOVERY_ALPHABET 0 in
  is_ascii_alphanumeric c = true /\ to_ascii_lowercase c = c.
Proof.
  intros c. assert (Hall : forallb (fun c => is_ascii_alphanumeric c && (to_ascii_lowercase c =? c)) RECOVERY_ALPHABET = true) by reflexivity.
  rewrite forallb_elem_of in Hall. assert (Hin : c ∈ RECOVERY_ALPHABET).
  { apply list_elem_of_In, nth_In. assert (0 <= b mod 31 < 31) by (by apply Z.mod_pos_bound).
    change (length RECOVERY_ALPHABET) with 31%nat. lia. }
  specialize (Hall c Hin). apply andb_true_iff in Hall as [H1 H2]. split; [done|]. by apply Z.eqb_eq in H2.
Qed.

Lemma normalize_recovery_chars bytes :
  normalize_recovery_code (map (fun b => nth (Z.to_nat (b mod 31)) RECOVERY_ALPHABET 0) bytes)
  = map (fun b => nth (Z.to_nat (b mod 31)) RECOVERY_ALPHABET 0) bytes.
Proof.
  unfold normalize_recovery_code. induction bytes as [|b bytes IH]; [done|]. cbn [map List.filter].
  destruct (recovery_alphabet_char b) as [H1 H2]. rewrite H1. cbn [map]. by rewrite H2, IH.
Qed.

(** A recovery code is recognised however it is typed back: the form that
    was hashed is the ten characters drawn, and upper case, a space or nothing
    for the hyphen, or separators around it do not change it. *)
Theorem recovery_code_typed_in_any_form bytes before between after :
  forallb (fun c => negb (is_ascii_alphanumeric c)) (before ++ between ++ after) = true ->
  let chars := map (fun b => nth (Z.to_nat (b mod 31)) RECOVERY_ALPHABET 0) bytes in
  normalize_recovery_code (recovery_code bytes) = chars
  /\ normalize_recovery_code (map to_ascii_uppercase (before ++ take 5 chars ++ between ++ drop 5 chars ++ after))
     = normalize_recovery_code (recovery_code bytes).
Proof.
  intros Hsep chars. rewrite !forallb_app in Hsep. apply andb_true_iff in Hsep as [Hb [Hm Ha]%andb_true_iff].
  assert (Hchars : normalize_recovery_code (take 5 chars) ++ normalize_recovery_code (drop 5 chars) = chars).
  { rewrite <-normalize_app, take_drop. apply normalize_recovery_chars. }
  assert (Hcode : normalize_recovery_code (recovery_code bytes) = chars).
  { unfold recovery_code. fold chars. rewrite !normalize_app, (normalize_separator [45]) by done. done. }
  split; [done|]. rewrite Hcode, normalize_upper, !normalize_app.
  rewrite (normalize_separator before), (normalize_separator between), (normalize_separator after) by done.
  by rewrite app_nil_r.
Qed.

Lemma recovery_code_typed_in_any_form_witness :
  let bytes := [0; 1; 2; 3; 4; 250; 251; 252; 253; 254] in
  normalize_recovery_code (map to_ascii_uppercase (lit " abcde cdefg")) = normalize_recovery_code (recovery_code bytes)
  /\ recovery_code bytes = lit "abcde-cdefg".
Proof.
  split; [|reflexivity].
  exact (proj2 (recovery_code_typed_in_any_form [0; 1; 2; 3; 4; 250; 251; 252; 253; 254] [32] [32] [] eq_refl)).
Defined.
