(* ===== verification/Auth.v ===== *)
(** * Auth: signing in, sessions, passwords and the second factor

    The handlers of [apps/backend/src/auth.rs] and [password_reset.rs].  The
    request's headers and peer are an [Origin]; what the process read from its
    environment is a [Config].  The Argon2 verification the source runs for an
    unknown address, for its running time only, has no counterpart here, nor
    has the task that sends the email after the answer. *)

From S2P Require Import Prelude Text RateLimit Db Api Permissions Authorize Membership Accounts Teams DeviceKeys Sample Sessions TwoFactor.

#[local] Open Scope Z_scope.

Record Config : Type := mkConfig {
  cfg_jwt_secret : list Z;
  cfg_trust_forwarded_for : option (list Z);
  cfg_totp_encryption_key : option (list Z);
  cfg_mailer : bool;   (* mail::mailer() is configured *)
}.

Record Origin : Type := mkOrigin {
  cf_connecting_ip : option (list Z);
  x_forwarded_for : option (list Z);
  peer_ip : option (list Z);
}.

(** [HeaderValue::to_str]: visible ASCII, space and tab only. *)
Definition header_to_str (v : list Z) : option (list Z) :=
  if forallb (fun c => in_range 32 126 c || (c =? 9)) v then Some v else None.

(** [RateLimiter::check] on the shared limiter. *)
Definition limiter_check (key : list Z) : M Decision := fun w =>
  let '(d, l) := check w.(w_limiter) (o_instant w.(w_orc) w.(w_pos)) key in
  (Ok d, mkWorld w.(w_db) l w.(w_orc) (S w.(w_pos))).

(** [models::AuthResponse]. *)
Record AuthResponse : Type := mkAuthResponse {
  res_user : UserProfile; res_access_token : list Z; res_access_token_expires_at : Z; res_refresh_token : list Z;
}.

Definition two_factor_enabled (u : UserRow) : bool := bool_decide (is_Some u.(u_totp_enabled_at)).

(** [UserProfile::from]. *)
Definition profile (id : N) (u : UserRow) : UserProfile :=
  mkProfile id u.(u_email) u.(u_display_name) u.(u_created_at) u.(u_must_change_password) (two_factor_enabled u).

Definition invalid_credentials : ApiError := Unauthorized (detail "invalid_credentials").
Definition two_factor_invalid : ApiError := Unauthorized (detail "two_factor_invalid").
Definition two_factor_unavailable : ApiError := InvalidInput (detail "two_factor_unavailable").
Definition internal {A} (r : result string A) : M A :=
  match r with Ok a => ret a | Err e => throw (Internal (inr e)) end.

(** *** Statements on the [users] row *)

(** [UPDATE users SET totp_last_step = $1 WHERE id = $2 AND (totp_last_step IS NULL OR totp_last_step < $1)]. *)
Definition record_step (user_id : N) (step : Z) : Stmt Z := fun d =>
  match d.(users) !! user_id with
  | Some u =>
      if match u.(u_totp_last_step) with None => true | Some last => last <? step end
      then Ok (1, set_users (<[user_id := mkUser u.(u_email) u.(u_password_hash) u.(u_display_name) u.(u_created_at) u.(u_updated_at)
             u.(u_must_change_password) u.(u_totp_secret) u.(u_totp_pending_secret) u.(u_totp_enabled_at) (Some step)]> d.(users)) d)
      else Ok (0, d)
  | None => Ok (0, d)
  end.

Definition with_totp (secret pending : option (list Z)) (enabled last : option Z) (u : UserRow) : UserRow :=
  mkUser u.(u_email) u.(u_password_hash) u.(u_display_name) u.(u_created_at) u.(u_updated_at) u.(u_must_change_password)
    secret pending enabled last.

Definition set_pending (pending : list Z) (u : UserRow) : UserRow :=
  with_totp u.(u_totp_secret) (Some pending) u.(u_totp_enabled_at) u.(u_totp_last_step) u.

Definition enable_totp (now step : Z) (u : UserRow) : UserRow :=
  with_totp u.(u_totp_pending_secret) None (Some now) (Some step) u.

Definition disable_totp (u : UserRow) : UserRow := with_totp None None None None u.

Definition set_password (hash : list Z) (now : Z) (u : UserRow) : UserRow :=
  mkUser u.(u_email) hash u.(u_display_name) u.(u_created_at) now false
    u.(u_totp_secret) u.(u_totp_pending_secret) u.(u_totp_enabled_at) u.(u_totp_last_step).

Section handlers.
Context `{UnicodeCase, PasswordHashing, Base64, HmacSha1, Aes256Gcm, Digests, Jwt} (cfg : Config).

Definition issue_auth_response (id : N) (u : UserRow) : M AuthResponse :=
  access <- issue_access_token id cfg.(cfg_jwt_secret) ;;
  refresh <- issue id ;;
  ret (mkAuthResponse (profile id u) access.1 access.2 refresh.(ir_raw)).

Definition check_rate_limit (from : Origin) (email : list Z) : M unit :=
  let forwarded := (match from.(cf_connecting_ip) with Some v => Some v | None => from.(x_forwarded_for) end) ≫= header_to_str in
  let address_key := client_key cfg.(cfg_trust_forwarded_for) forwarded from.(peer_ip) in
  let account_key := lit "account:" ++ email in
  for_each [address_key; account_key] (fun key =>
    decision <- limiter_check key ;;
    match decision with
    | RetryAfter seconds => throw (TooManyRequests (with_param (detail "too_many_attempts") "seconds" (JNum seconds)))
    | Allow => ret tt
    end).

(** [POST /auth/register]. *)
Definition register (from : Origin) (body_email body_password body_display_name : list Z) : M (Z * AuthResponse) :=
  let email := normalize_email body_email in
  check_rate_limit from email ;;;
  lift (validate_email email) ;;;
  lift (validate_password body_password) ;;;
  display_name <- lift (validate_display_name body_display_name) ;;
  password_hash <- hash_password body_password ;;
  t <- now ;;
  user_id <- new_v4 ;;
  let row := mkUser email password_hash display_name t t false None None None None in
  or_unique (insert_user user_id row) (Conflict (detail "email_taken")) ;;;
  response <- issue_auth_response user_id row ;;
  ret (201, response).

Definition non_empty (s : list Z) : option (list Z) := match s with [] => None | _ => Some s end.

Definition check_second_factor (user_id : N) (totp_code recovery_code : option (list Z)) : M unit :=
  stored <- exec (query_one (fun d => u ← d.(users) !! user_id; Some (u.(u_totp_secret), u.(u_totp_last_step)))) ;;
  match stored.1 with
  | None => ret tt
  | Some secret_stored =>
      match (trim <$> totp_code) ≫= non_empty with
      | Some code =>
          key <- lift (ok_or (cipher cfg.(cfg_totp_encryption_key)) two_factor_unavailable) ;;
          secret <- internal (decrypt key user_id secret_stored) ;;
          t <- now ;;
          step <- lift (ok_or (verify secret code (timestamp t) stored.2) two_factor_invalid) ;;
          recorded <- exec (record_step user_id step) ;;
          fail_if (negb (recorded =? 1)) two_factor_invalid
      | None =>
          match (normalize_recovery_code <$> recovery_code) ≫= non_empty with
          | Some code =>
              t <- now ;;
              used <- exec (use_recovery_code user_id (hash code) t) ;;
              fail_if (negb (used =? 1)) two_factor_invalid
          | None => throw (Unauthorized (detail "two_factor_required"))
          end
      end
  end.

(** [POST /auth/login]. *)
Definition login (from : Origin) (body_email body_password : list Z) (totp_code recovery_code : option (list Z)) : M AuthResponse :=
  let email := normalize_email body_email in
  check_rate_limit from email ;;;
  fail_if (MAX_PASSWORD_LEN <? byte_len body_password) invalid_credentials ;;;
  found <- exec (query (find_user_by_email email)) ;;
  user <- lift (ok_or found invalid_credentials) ;;
  fail_if (negb (argon2_verify body_password (user.2).(u_password_hash))) invalid_credentials ;;;
  (if two_factor_enabled user.2 then check_second_factor user.1 totp_code recovery_code else ret tt) ;;;
  issue_auth_response user.1 user.2.

(** [POST /auth/2fa/setup]. *)
Definition two_factor_setup (user_id : N) : M (list Z * list Z) :=
  key <- lift (ok_or (cipher cfg.(cfg_totp_encryption_key)) two_factor_unavailable) ;;
  user <- exec (query_one (fun d => d.(users) !! user_id)) ;;
  fail_if (two_factor_enabled user) (Conflict (detail "two_factor_already_enabled")) ;;;
  secret <- new_secret ;;
  nonce <- new_secret ;;
  encrypted <- internal (encrypt key nonce user_id secret) ;;
  exec (update_user user_id (set_pending encrypted)) ;;;
  ret (base32 secret, otpauth_uri user.(u_email) secret).

(** The random bytes of the ten recovery codes. *)
Fixpoint draw (n : nat) : M (list (list Z)) :=
  match n with
  | O => ret []
  | S n => x <- new_secret ;; rest <- draw n ;; ret (x :: rest)
  end.

(** [POST /auth/2fa/enable], in its two halves: what it reads and checks, and
    the transaction that follows, between which other requests may run. *)
Definition two_factor_enable_check (user_id : N) (body_code : list Z) : M Z :=
  key <- lift (ok_or (cipher cfg.(cfg_totp_encryption_key)) two_factor_unavailable) ;;
  found <- exec (query_one (fun d => u_totp_pending_secret <$> d.(users) !! user_id)) ;;
  pending <- lift (ok_or found (InvalidInput (detail "two_factor_setup_missing"))) ;;
  secret <- internal (decrypt key user_id pending) ;;
  t <- now ;;
  lift (ok_or (verify secret body_code (timestamp t) None) (InvalidInput (detail "two_factor_invalid"))).

Definition two_factor_enable_commit (user_id : N) (step : Z) : M (list (list Z)) :=
  random <- draw RECOVERY_CODE_COUNT ;;
  let codes := generate_recovery_codes random in
  transaction (
    t <- now ;;
    exec (update_user user_id (enable_totp t step)) ;;;
    exec (delete_recovery_codes user_id) ;;;
    for_each codes (fun code => exec (insert_recovery_code user_id (hash (normalize_recovery_code code))))) ;;;
  ret codes.

Definition two_factor_enable (user_id : N) (body_code : list Z) : M (list (list Z)) :=
  step <- two_factor_enable_check user_id body_code ;;
  two_factor_enable_commit user_id step.

(** [POST /auth/2fa/disable]. *)
Definition two_factor_disable (from : Origin) (user_id : N) (body_password : list Z) (totp_code recovery_code : option (list Z)) : M Z :=
  user <- exec (query_one (fun d => d.(users) !! user_id)) ;;
  check_rate_limit from user.(u_email) ;;;
  fail_if ((MAX_PASSWORD_LEN <? byte_len body_password) || negb (argon2_verify body_password user.(u_password_hash))) invalid_credentials ;;;
  fail_if (negb (two_factor_enabled user)) (Conflict (detail "two_factor_not_enabled")) ;;;
  check_second_factor user_id totp_code recovery_code ;;;
  transaction (
    exec (update_user user_id disable_totp) ;;;
    exec (delete_recovery_codes user_id)) ;;;
  ret 204.

(** [POST /auth/refresh]. *)
Definition refresh (body_refresh_token : list Z) : M AuthResponse :=
  rotated <- verify_and_rotate body_refresh_token ;;
  found <- exec (query (fun d => d.(users) !! rotated.1)) ;;
  user <- lift (ok_or found (Unauthorized (detail "account_gone"))) ;;
  access <- issue_access_token rotated.1 cfg.(cfg_jwt_secret) ;;
  ret (mkAuthResponse (profile rotated.1 user) access.1 access.2 (rotated.2).(ir_raw)).

(** [POST /auth/logout]. *)
Definition logout (body_refresh_token : list Z) : M Z :=
  revoke body_refresh_token ;;;
  ret 204.

(** [user_id_from_parts]; [authorization] is the header's value. *)
Definition user_id_from_parts (authorization : option (list Z)) : M N :=
  header <- lift (ok_or (authorization ≫= header_to_str) (Unauthorized (detail "missing_authorization_header"))) ;;
  token <- lift (ok_or (strip_prefix (lit "Bearer ") header) (Unauthorized (detail "malformed_authorization_header"))) ;;
  claims <- verify_access_token token cfg.(cfg_jwt_secret) ;;
  match claims with
  | Ok claims => ret claims.(sub)
  | Err _ => throw (Unauthorized (detail "access_token_invalid"))
  end.

(** The extractors [AnyAuthUser] and [AuthUser]. *)
Definition AnyAuthUser (authorization : option (list Z)) : M N := user_id_from_parts authorization.

Definition AuthUser (authorization : option (list Z)) : M N :=
  user_id <- user_id_from_parts authorization ;;
  must_change <- exec (query (fun d => u_must_change_password <$> d.(users) !! user_id)) ;;
  match must_change with
  | None => throw (Unauthorized (detail "account_gone"))
  | Some true => throw (PasswordChangeRequired (detail "password_change_required"))
  | Some false => ret user_id
  end.

(** [POST /auth/password]. *)
Definition change_password (user_id : N) (current_password new_password : list Z) : M AuthResponse :=
  fail_if (MAX_PASSWORD_LEN <? byte_len current_password) invalid_credentials ;;;
  lift (validate_password new_password) ;;;
  found <- exec (query (fun d => d.(users) !! user_id)) ;;
  user <- lift (ok_or found (NotFound (detail "account_gone"))) ;;
  fail_if (negb (argon2_verify current_password user.(u_password_hash))) invalid_credentials ;;;
  fail_if (argon2_verify new_password user.(u_password_hash)) (InvalidInput (detail "password_unchanged")) ;;;
  new_hash <- hash_password new_password ;;
  t <- now ;;
  exec (update_user user_id (set_password new_hash t)) ;;;
  revoke_all_for_user user_id ;;;
  issue_auth_response user_id (set_password new_hash t user).

(** [GET /auth/me]. *)
Definition me (user_id : N) : M UserProfile :=
  found <- exec (query (fun d => d.(users) !! user_id)) ;;
  user <- lift (ok_or found (NotFound (detail "account_gone"))) ;;
  ret (profile user_id user).

(** ** Resetting a forgotten password *)

Definition CODE_LIFETIME_MINUTES : Z := 30.
Definition MAX_CODE_ATTEMPTS : Z := 5.
Definition CODE_ALPHABET : list Z := lit "ABCDEFGHJKLMNPQRSTUVWXYZ23456789".
Definition minutes (n : Z) : Z := n * 60 * MICROS.

(** [generate_code], from its ten random numbers. *)
Definition generate_code (random : list Z) : list Z :=
  let raw := map (fun n => nth (Z.to_nat (n mod 32)) CODE_ALPHABET 0) random in
  take 5 raw ++ [45] ++ drop 5 raw.

Definition normalize_code (code : list Z) : list Z := map to_ascii_uppercase (List.filter is_ascii_alphanumeric code).

Definition hash_code (normalized : list Z) : list Z := sha256 (utf8 normalized) ≫= hex_byte.

Definition reset_code_invalid : ApiError := InvalidInput (detail "reset_code_invalid").

(** [POST /auth/password-reset/request]; the second component is the code put
    into the email, when there is one to send. *)
Definition request (from : Origin) (body_email : list Z) : M (Z * option (list Z)) :=
  let email := normalize_email body_email in
  check_rate_limit from email ;;;
  fail_if (negb cfg.(cfg_mailer)) (InvalidInput (detail "password_reset_unavailable")) ;;;
  found <- exec (query (fun d => fst <$> find_user_by_email email d)) ;;
  match found with
  | Some user_id =>
      random <- new_secret ;;
      let code := generate_code random in
      t <- now ;;
      transaction (
        exec (retire_resets user_id t) ;;;
        id <- new_v4 ;;
        exec (insert_password_reset id
          (mkPasswordReset user_id (hash_code (normalize_code code)) 0 t (t + minutes CODE_LIFETIME_MINUTES) None))) ;;;
      ret (202, Some code)
  | None => ret (202, None)
  end.

(** [... WHERE user_id AND used_at IS NULL AND expires_at > $2 ORDER BY created_at DESC LIMIT 1]. *)
Definition newest_reset (d : Db) (user_id : N) (now : Z) : option (N * PasswordResetRow) :=
  head (order_by (fun kv : N * PasswordResetRow => - (kv.2).(pr_created_at))
    (List.filter (fun kv : N * PasswordResetRow =>
       N.eqb (kv.2).(pr_user_id) user_id && bool_decide ((kv.2).(pr_used_at) = None) && (now <? (kv.2).(pr_expires_at)))
     (map_to_list d.(password_resets)))).

(** [POST /auth/password-reset/confirm]. *)
Definition confirm (from : Origin) (body_email body_code body_new_password : list Z) : M Z :=
  let email := normalize_email body_email in
  check_rate_limit from email ;;;
  lift (validate_password body_new_password) ;;;
  found <- exec (query (fun d => fst <$> find_user_by_email email d)) ;;
  user_id <- lift (ok_or found reset_code_invalid) ;;
  asked_at <- now ;;
  pending <- exec (query (fun d => newest_reset d user_id asked_at)) ;;
  reset <- lift (ok_or pending reset_code_invalid) ;;
  fail_if (MAX_CODE_ATTEMPTS <=? (reset.2).(pr_attempts)) reset_code_invalid ;;;
  (if negb (str_eqb (hash_code (normalize_code body_code)) (reset.2).(pr_code_hash))
   then exec (count_attempt reset.1) ;;; throw reset_code_invalid
   else ret tt) ;;;
  new_hash <- hash_password body_new_password ;;
  t <- now ;;
  transaction (
    spent <- exec (spend_reset reset.1 t) ;;
    fail_if (negb (spent =? 1)) reset_code_invalid ;;;
    exec (update_user user_id (set_password new_hash t))) ;;;
  revoke_all_for_user user_id ;;;
  ret 204.
End handlers.

(** ** Rules *)

Section rules.
Context `{UnicodeCase, PasswordHashing, Base64, HmacSha1, Aes256Gcm, Digests, Jwt} (cfg : Config).

(** Counting an attempt touches the limiter only. *)
Definition same_tables (w w' : World) : Prop := w'.(w_db) = w.(w_db) /\ w'.(w_orc) = w.(w_orc) /\ (w.(w_pos) <= w'.(w_pos))%nat.

Lemma wp_limiter_check key (Q : ApiResult Decision -> World -> Prop) w :
  (forall d w', same_tables w w' -> Q (Ok d) w') -> wp (limiter_check key) Q w.
Proof.
  intros HQ. unfold wp, limiter_check. destruct (check _ _ _) as [d l]. simpl. apply HQ. split_and!; simpl; auto.
Qed.

Lemma wp_check_rate_limit from email (Q : ApiResult unit -> World -> Prop) w :
  (forall e w', same_tables w w' -> Q (Err (TooManyRequests e)) w') ->
  (forall w', same_tables w w' -> Q (Ok tt) w') ->
  wp (check_rate_limit cfg from email) Q w.
Proof.
  intros He Ho. unfold check_rate_limit. simpl for_each.
  do 2 apply wp_bind. apply wp_limiter_check. intros [|s] w1 (D1 & O1 & P1); [apply wp_ret|apply wp_throw, He; split_and!; auto].
  do 2 apply wp_bind. apply wp_limiter_check. intros [|s] w2 (D2 & O2 & P2);
    [apply wp_ret, wp_ret, Ho|apply wp_throw, He]; split_and!; try congruence; lia.
Qed.

Lemma wpa_internal {A} (r : result string A) w0 d w (Q : ApiResult A -> World -> Prop) :
  at_db w0 d w -> (forall e, at_db w0 d w -> Q (Err e) w) -> (forall a, r = Ok a -> at_db w0 d w -> Q (Ok a) w) -> wp (internal r) Q w.
Proof. intros Hat He Ho. destruct r; simpl; [apply wp_ret|apply wp_throw]; auto. Qed.

Lemma wpa_issue_access_token w0 d w id secret (Q : ApiResult (list Z * Z) -> World -> Prop) :
  at_db w0 d w -> (forall e w', at_db w0 d w' -> Q (Err e) w') -> (forall r w', at_db w0 d w' -> Q (Ok r) w') ->
  wp (issue_access_token id secret) Q w.
Proof.
  intros Hat He Ho. unfold issue_access_token. wp_step. destruct (jwt_encode _ _); [apply wp_ret|apply wp_throw]; eauto.
Qed.

(** A new session row, and nothing else. *)
Definition session_added (id : N) (raw : list Z) (d d' : Db) : Prop :=
  exists i t e, d.(refresh_tokens) !! i = None
    /\ (forall j r, d.(refresh_tokens) !! j = Some r -> r.(rt_token_hash) <> hash raw)
    /\ d' = set_refresh_tokens (<[i := mkRefreshToken id (hash raw) t e None]> d.(refresh_tokens)) d.

Lemma wpa_issue w0 d w id (Q : ApiResult IssuedRefreshToken -> World -> Prop) :
  at_db w0 d w -> (forall e w', at_db w0 d w' -> Q (Err e) w') ->
  (forall new d' w', at_db w0 d' w' -> session_added id new.(ir_raw) d d' -> Q (Ok new) w') ->
  wp (issue id) Q w.
Proof.
  intros Hat He Ho. unfold issue, generate. repeat wp_step.
  match goal with Hi : insert_refresh_token _ _ _ = _ |- _ => apply insert_refresh_token_inv in Hi as (Hn & Hne & _ & ->) end.
  eapply Ho; [exact Hat|]. by eexists _, _, _.
Qed.

Lemma wpa_issue_auth_response w0 d w id u (Q : ApiResult AuthResponse -> World -> Prop) :
  at_db w0 d w -> (forall e w', at_db w0 d w' -> Q (Err e) w') ->
  (forall r d' w', at_db w0 d' w' -> session_added id r.(res_refresh_token) d d' -> r.(res_user) = profile id u -> Q (Ok r) w') ->
  wp (issue_auth_response cfg id u) Q w.
Proof.
  intros Hat He Ho. unfold issue_auth_response. apply wp_bind, (wpa_issue_access_token w0 d w _ _ _ Hat); clear w Hat.
  - intros e w Hat. eauto.
  - intros r w Hat. apply wp_bind, (wpa_issue w0 d w _ _ Hat); clear w Hat.
    + intros e w Hat. eauto.
    + intros new d' w Hat Hs. apply wp_ret. eapply Ho; [exact Hat|done|done].
Qed.

(** *** The second factor *)

(** The row of [id] with the step of the code just used. *)
Definition step_recorded (id : N) (step : Z) (d d' : Db) : Prop :=
  exists u, d.(users) !! id = Some u
    /\ d' = set_users (<[id := with_totp u.(u_totp_secret) u.(u_totp_pending_secret) u.(u_totp_enabled_at) (Some step) u]> d.(users)) d.

(** What a successful check at time [t] did: the code is that of the account's
    own secret for a step next to the one of [t] and later than any used
    before, now recorded; or a recovery code of the account that had not been
    used, and is marked used at [t]. *)
Definition factor_used (id : N) (totp_code recovery_code : option (list Z)) (t : Z) (d d' : Db) : Prop :=
  (exists u stored, d.(users) !! id = Some u /\ u.(u_totp_secret) = Some stored) /\
  ((exists u stored key secret code step,
     d.(users) !! id = Some u /\ u.(u_totp_secret) = Some stored /\ (trim <$> totp_code) = Some code
     /\ cipher cfg.(cfg_totp_encryption_key) = Some key /\ decrypt key id stored = Ok secret
     /\ List.filter (fun c => negb (is_whitespace c)) code = code_text (hotp secret step)
     /\ Z.abs (step - timestamp t / STEP_SECONDS) <= SKEW_STEPS
     /\ (forall last, u.(u_totp_last_step) = Some last -> last < step)
     /\ step_recorded id step d d')
  \/ (exists code, (normalize_recovery_code <$> recovery_code) = Some code
        /\ d.(totp_recovery_codes) !! (id, hash code) = Some None
        /\ d' = set_totp_recovery_codes (<[(id, hash code) := Some t]> d.(totp_recovery_codes)) d)).

Lemma non_empty_Some o s : o ≫= non_empty = Some s -> o = Some s.
Proof. destruct o as [[|c l]|]; simpl; congruence. Qed.

Lemma wpa_check_second_factor w0 d w id totp rec (Q : ApiResult unit -> World -> Prop) :
  at_db w0 d w ->
  (forall e w', at_db w0 d w' -> Q (Err e) w') ->
  (forall w', at_db w0 d w' -> (exists u, d.(users) !! id = Some u /\ u.(u_totp_secret) = None) -> Q (Ok tt) w') ->
  (forall d' w' t, at_db w0 d' w' -> read_during w0 w' t -> factor_used id totp rec t d d' -> Q (Ok tt) w') ->
  wp (check_second_factor cfg id totp rec) Q w.
Proof.
  intros Hat He Hnone Hused. unfold check_second_factor. wp_step.
  match goal with Hq : query_one _ _ = _ |- _ => rename Hq into Hq0 end. unfold query_one in Hq0.
  destruct (users d !! id) as [u|] eqn:Hu; simpl in Hq0; [|done]. injection Hq0 as <- <-. simpl.
  destruct (u_totp_secret u) as [stored|] eqn:Hs; [|apply wp_ret; eauto].
  destruct ((trim <$> totp) ≫= non_empty) as [code|] eqn:Ec.
  - apply non_empty_Some in Ec. wp_step. destruct (cipher _) as [key|] eqn:Ek; simpl; [|by apply He].
    apply wp_bind, (wpa_internal _ w0 d _ _ Hat); [intros; by eapply He|]. intros secret Hd Hat'. clear Hat.
    apply wp_bind, (wpa_now_at _ w0 d _ Hat'). clear Hat'. intros t wt Hat Ht.
    wp_step. destruct (verify _ _ _ _) as [step|] eqn:Ev; simpl; [|by apply He].
    pose proof (verify_sound _ _ _ _ _ Ev) as (Hdigits & Hnear & _ & Hlater).
    pose proof (at_db_rebase _ _ _ Hat) as Hb. apply wp_bind. apply (wpa_exec _ _ wt d wt Hb).
    { intros w2 e Hb2. by eapply He, at_db_chain. }
    intros n2 d2 w2 Hq Hb2. apply (read_during_after _ _ w2) in Ht; [|by eapply at_db_env].
    apply (at_db_chain _ _ _ _ _ Hat) in Hb2. unfold record_step in Hq. rewrite Hu in Hq.
    assert (Hlt : match u_totp_last_step u with None => true | Some last => last <? step end = true).
    { destruct (u_totp_last_step u); [|done]. specialize (Hlater _ eq_refl). lia. }
    rewrite Hlt in Hq. injection Hq as <- <-. apply wp_fail_if; [done|intros _]. eapply Hused; [exact Hb2|exact Ht|]. split; [eauto|left].
    exists u, stored, key, secret, code, step. split_and!; try done. by exists u.
  - destruct ((normalize_recovery_code <$> rec) ≫= non_empty) as [code|] eqn:Er; [|apply wp_throw; eauto].
    apply non_empty_Some in Er. apply wp_bind, (wpa_now_at _ w0 d _ Hat). clear Hat. intros t wt Hat Ht.
    pose proof (at_db_rebase _ _ _ Hat) as Hb. apply wp_bind. apply (wpa_exec _ _ wt d wt Hb).
    { intros w2 e Hb2. by eapply He, at_db_chain. }
    intros n2 d2 w2 Hq Hb2. apply (read_during_after _ _ w2) in Ht; [|by eapply at_db_env].
    apply (at_db_chain _ _ _ _ _ Hat) in Hb2. unfold use_recovery_code in Hq.
    destruct (totp_recovery_codes d !! (id, hash code)) as [[used|]|] eqn:Ed; injection Hq as <- <-.
    + apply wp_fail_if; [intros _; by eapply He|done].
    + apply wp_fail_if; [done|intros _]. eapply Hused; [exact Hb2|exact Ht|]. split; [eauto|right]. eexists code. split_and!; done.
    + apply wp_fail_if; [intros _; by eapply He|done].
Qed.
End rules.

(** ** Properties *)

Section properties.
Context `{UnicodeCase, PasswordHashing, Base64, HmacSha1, Aes256Gcm, Digests, Jwt} (cfg : Config).

Lemma find_user_by_email_Some email d id u :
  find_user_by_email email d = Some (id, u) -> d.(users) !! id = Some u /\ u.(u_email) = email.
Proof.
  intros Hf. apply find_first_Some in Hf as [Hin Heq]. apply elem_of_map_to_list in Hin.
  simpl in Heq. by apply bool_decide_eq_true in Heq.
Qed.

(** Whether an account that has two-factor on has a secret to check against. *)
Definition second_factor_armed (u : UserRow) : bool := two_factor_enabled u && bool_decide (is_Some u.(u_totp_secret)).

(** What a successful sign-in did: the account of that address exists, the
    password is its password, a second factor of the moment was used up when it
    has one, and one session was added. *)
Definition signed_in (email pw : list Z) (totp rec : option (list Z)) (resp : AuthResponse) (w w' : World) : Prop :=
  exists id u d1, find_user_by_email (normalize_email email) w.(w_db) = Some (id, u)
    /\ argon2_verify pw u.(u_password_hash) = true /\ byte_len pw <= MAX_PASSWORD_LEN
    /\ resp.(res_user) = profile id u
    /\ (if second_factor_armed u then exists t, read_during w w' t /\ factor_used cfg id totp rec t w.(w_db) d1 else d1 = w.(w_db))
    /\ session_added id resp.(res_refresh_token) d1 w'.(w_db).

Lemma login_spec from email pw totp rec w :
  wp (login cfg from email pw totp rec) (fun r w' => match r with
    | Ok resp => signed_in email pw totp rec resp w w'
    | Err _ => True
    end) w.
Proof.
  unfold login. apply wp_bind, wp_check_rate_limit; [done|]. intros w1 (D1 & O1 & P1).
  pose proof (at_db_refl w1) as Hat. wp_step. wp_step. wp_step.
  destruct (find_user_by_email _ _) as [[id u]|] eqn:Ef; simpl; [|done]. wp_step. simpl in *. row_facts.
  apply wp_bind. destruct (find_user_by_email_Some _ _ _ _ Ef) as [Hu _].
  assert (Hend : forall d1 w2, at_db w1 d1 w2 ->
    (if second_factor_armed u then exists t, read_during w1 w2 t /\ factor_used cfg id totp rec t w1.(w_db) d1 else d1 = w1.(w_db)) ->
    wp (issue_auth_response cfg id u) (fun r w' => match r with
      | Ok resp => signed_in email pw totp rec resp w w'
      | Err _ => True end) w2).
  { intros d1 w2 Hat2 Hd1. apply (wpa_issue_auth_response cfg w2 d1 w2 _ _ _ (at_db_rebase _ _ _ Hat2)); [done|].
    intros resp d' w3 Hat3 Hs Hp. unfold signed_in. rewrite (at_db_db _ _ _ Hat3), <- D1. exists id, u, d1. split_and!; try done; [lia|].
    destruct (second_factor_armed u); [|done]. destruct Hd1 as (t & Ht & Hused). exists t. split; [|done].
    eapply read_during_within; [exact O1|exact P1| |exact Ht]. by apply at_db_env in Hat3 as (_ & _ & ?). }
  unfold second_factor_armed in Hend. destruct (two_factor_enabled u) eqn:Et; simpl in Hend; [|apply wp_ret; by eapply Hend].
  apply (wpa_check_second_factor cfg w1 _ _ _ _ _ _ Hat); clear Hat; [done| |].
  - intros w2 Hat (u' & Hu' & Hs). eapply Hend; [exact Hat|]. replace u' with u in Hs by congruence. by rewrite Hs.
  - intros d1 w2 t Hat Ht Hused. eapply Hend; [exact Hat|]. case_bool; [eauto|]. row_facts.
    destruct Hused as [(u' & stored & Hu' & Hs) _]. replace u' with u in Hs by congruence. rewrite Hs in Eb. exfalso. eauto.
Qed.

(** C8: Signing in succeeds only for an account of that address, with its
    password, and, when the account has two-factor on and a secret, with a
    second factor that the same request used up: a code of the account's
    secret for a time step at most one away from the one the clock showed
    during the request, and later than any step accepted before, now recorded
    as the last one; or a recovery code that was unused and is marked used at
    that time.  One session is added, for that account. *)
Theorem sign_in_needs_every_factor from email pw totp rec w resp w' :
  login cfg from email pw totp rec w = (Ok resp, w') ->
  signed_in email pw totp rec resp w w'.
Proof. intros Hl. pose proof (login_spec from email pw totp rec w) as Hs. unfold wp in Hs. by rewrite Hl in Hs. Qed.

(** A step recorded once is never accepted again. *)
Definition last_step (d : Db) (id : N) : option Z := d.(users) !! id ≫= u_totp_last_step.

Lemma factor_used_step id totp rec t d d' :
  factor_used cfg id totp rec t d d' ->
  (forall last, last_step d id = Some last -> exists last', last_step d' id = Some last' /\ last <= last')
  /\ (last_step d' id = last_step d id \/ exists step, last_step d' id = Some step /\ forall last, last_step d id = Some last -> last < step).
Proof.
  intros [_ [(u & stored & key & secret & code & step & Hu & Hs & _ & _ & _ & _ & _ & Hlt & (u' & Hu' & ->))|(code & _ & _ & ->)]].
  - unfold last_step. simpl. rewrite lookup_insert_eq, Hu. simpl. split.
    + intros last Hl. exists step. split; [done|]. specialize (Hlt last Hl). lia.
    + right. exists step. split; [done|]. intros last Hl. by apply Hlt.
  - unfold last_step. simpl. split; [|by left]. intros last Hl. exists last. split; [done|lia].
Qed.

(** The code an account with a secret is asked for. *)
Lemma totp_check_spec id code rec w u stored :
  w.(w_db).(users) !! id = Some u -> u.(u_totp_secret) = Some stored -> trim code <> [] ->
  wp (check_second_factor cfg id (Some code) rec) (fun r w' => match r with
    | Ok _ => exists key secret step, cipher cfg.(cfg_totp_encryption_key) = Some key /\ decrypt key id stored = Ok secret
        /\ List.filter (fun c => negb (is_whitespace c)) (trim code) = code_text (hotp secret step)
        /\ (forall last, u.(u_totp_last_step) = Some last -> last < step)
        /\ last_step w'.(w_db) id = Some step
    | Err _ => w'.(w_db) = w.(w_db)
    end) w.
Proof.
  intros Hu Hs Hc. pose proof (at_db_refl w) as Hat. unfold check_second_factor. wp_step.
  match goal with Hq : query_one _ _ = _ |- _ => unfold query_one in Hq; rewrite Hu in Hq; simpl in Hq; injection Hq as <- <- end.
  simpl. rewrite Hs. destruct (trim code) as [|c0 cs] eqn:Ec; [done|]. simpl non_empty.
  cbv iota. wp_step. destruct (cipher _) as [key|] eqn:Ek; simpl; [|eauto with vibe].
  apply wp_bind, (wpa_internal _ w _ _ _ Hat); [intros; eauto with vibe|]. clear Hat. intros secret Hd Hat.
  wp_step. wp_step. destruct (verify _ _ _ _) as [step|] eqn:Ev; simpl; [|eauto with vibe].
  pose proof (verify_sound _ _ _ _ _ Ev) as (Hdig & _ & _ & Hl). wp_step.
  match goal with Hq : record_step _ _ _ = _ |- _ => unfold record_step in Hq; rewrite Hu in Hq; rename Hq into Hr end.
  replace (match u_totp_last_step u with None => true | Some last => last <? step end) with true in Hr.
  2: { destruct (u_totp_last_step u) as [last|]; [|done]. specialize (Hl last eq_refl). lia. }
  injection Hr as <- <-. apply wp_fail_if; [done|intros _]. exists key, secret, step. split_and!; try done.
  rewrite (at_db_db _ _ _ Hat). unfold last_step. simpl. by rewrite lookup_insert_eq.
Qed.

(** A time-based code is not accepted twice.  Of two codes an account's
    sign-ins accepted one after the other, however many requests ran between
    them, the second belongs to a later time step than the first. *)
Theorem totp_code_accepted_once id code1 code2 rec1 rec2 w1 u1 s1 w1' w2 u2 s2 w2' :
  w1.(w_db).(users) !! id = Some u1 -> u1.(u_totp_secret) = Some s1 -> trim code1 <> [] ->
  check_second_factor cfg id (Some code1) rec1 w1 = (Ok tt, w1') ->
  w2.(w_db).(users) !! id = Some u2 -> u2.(u_totp_secret) = Some s2 -> trim code2 <> [] ->
  (forall step, last_step w1'.(w_db) id = Some step -> exists step', last_step w2.(w_db) id = Some step' /\ step <= step') ->
  check_second_factor cfg id (Some code2) rec2 w2 = (Ok tt, w2') ->
  exists secret1 secret2 step1 step2, step1 < step2
    /\ List.filter (fun c => negb (is_whitespace c)) (trim code1) = code_text (hotp secret1 step1)
    /\ List.filter (fun c => negb (is_whitespace c)) (trim code2) = code_text (hotp secret2 step2).
Proof.
  intros Hu1 Hs1 Hc1 R1 Hu2 Hs2 Hc2 Hmono R2.
  pose proof (totp_check_spec id code1 rec1 w1 u1 s1 Hu1 Hs1 Hc1) as T1. unfold wp in T1. rewrite R1 in T1.
  pose proof (totp_check_spec id code2 rec2 w2 u2 s2 Hu2 Hs2 Hc2) as T2. unfold wp in T2. rewrite R2 in T2.
  destruct T1 as (k1 & sec1 & st1 & _ & _ & D1 & _ & L1), T2 as (k2 & sec2 & st2 & _ & _ & D2 & B2 & L2).
  exists sec1, sec2, st1, st2. split_and!; try done.
  destruct (Hmono st1 L1) as (st' & Hst' & Hle). assert (st' < st2); [|lia].
  apply B2. unfold last_step in Hst'. rewrite Hu2 in Hst'. done.
Qed.

(** *** Turning two-factor on *)

Lemma wpa_draw n : forall w0 d w (Q : ApiResult (list (list Z)) -> World -> Prop),
  at_db w0 d w -> (forall l w', at_db w0 d w' -> length l = n -> Q (Ok l) w') -> wp (draw n) Q w.
Proof.
  induction n as [|n IH]; intros w0 d w Q Hat HQ; simpl; [apply wp_ret; by apply HQ|].
  wp_step. apply wp_bind, (IH w0 d _ _ Hat). intros l w2 Hat2 Hl. apply wp_ret. apply HQ; [done|]. simpl. lia.
Qed.

Lemma wpa_insert_codes w0 id codes (Q : ApiResult unit -> World -> Prop) : forall d w,
  at_db w0 d w ->
  (forall w' d' e, at_db w0 d' w' -> Q (Err e) w') ->
  (forall x w', at_db w0 (set_totp_recovery_codes x d) w' ->
     (forall c, c ∈ codes -> x !! (id, hash (normalize_recovery_code c)) = Some None) ->
     (forall k, is_Some (d.(totp_recovery_codes) !! k) -> x !! k = d.(totp_recovery_codes) !! k) -> Q (Ok tt) w') ->
  wp (for_each codes (fun code => exec (insert_recovery_code id (hash (normalize_recovery_code code))))) Q w.
Proof.
  induction codes as [|c codes IH]; intros d w Hat He Ho; simpl.
  - apply wp_ret. apply (Ho d.(totp_recovery_codes)); [by destruct d|set_solver|done].
  - wp_step. match goal with Hs : insert_recovery_code _ _ _ = _ |- _ => stmt_inv Hs end.
    eapply IH; [exact Hat|eauto|]. simpl. intros x w2 Hat2 Hx Hk. apply (Ho x); [exact Hat2| |].
    + intros c' Hc'. apply elem_of_cons in Hc' as [->|Hc']; [|by apply Hx].
      rewrite Hk; rewrite lookup_insert_eq; eauto.
    + intros k Hsome. rewrite Hk; destruct (decide (k = (id, hash (normalize_recovery_code c)))) as [->|Hne];
        rewrite ?lookup_insert_eq, ?lookup_insert_ne by done; eauto.
      match goal with Hn : totp_recovery_codes d !! _ = None |- _ => rewrite Hn in Hsome end. by destruct Hsome.
Qed.

Lemma enable_commit_spec id step w u :
  w.(w_db).(users) !! id = Some u ->
  wp (two_factor_enable_commit id step) (fun r w' => match r with
    | Ok codes => length codes = RECOVERY_CODE_COUNT
        /\ (exists t, w'.(w_db).(users) !! id = Some (enable_totp t step u))
        /\ (forall c, c ∈ codes -> w'.(w_db).(totp_recovery_codes) !! (id, hash (normalize_recovery_code c)) = Some None)
    | Err _ => w'.(w_db) = w.(w_db)
    end) w.
Proof.
  intros Hu. pose proof (at_db_refl w) as Hat. unfold two_factor_enable_commit.
  apply wp_bind, (wpa_draw _ w _ _ _ Hat). clear Hat. intros random w1 Hat Hlen. repeat wp_step.
  match goal with Hs : update_user _ _ _ = _ |- _ => stmt_inv Hs end.
  match goal with Hs : delete_recovery_codes _ _ = _ |- _ => stmt_inv Hs end.
  eapply wpa_insert_codes; [exact Hat|intros w2 d2 e Hd2; by apply at_db_env in Hd2|].
  intros x w2 Hat2 Hx _. eexists. split; [exact Hat2|]. intros w3 Hat3. apply wp_ret. rewrite (at_db_db _ _ _ Hat3). simpl.
  split_and!; [|rewrite lookup_alter_eq, Hu; eauto|done]. unfold generate_recovery_codes. by rewrite length_map.
Qed.

Lemma enable_check_spec id code w :
  wp (two_factor_enable_check cfg id code) (fun r w' => w'.(w_db) = w.(w_db) /\ match r with
    | Ok step => exists u pending key secret t, w.(w_db).(users) !! id = Some u /\ u.(u_totp_pending_secret) = Some pending
        /\ cipher cfg.(cfg_totp_encryption_key) = Some key /\ decrypt key id pending = Ok secret
        /\ verify secret code t None = Some step
    | Err _ => True
    end) w.
Proof.
  pose proof (at_db_refl w) as Hat. unfold two_factor_enable_check. wp_step.
  destruct (cipher _) as [key|] eqn:Ek; simpl; [|eauto with vibe]. wp_step.
  match goal with Hq : query_one _ _ = _ |- _ => unfold query_one in Hq; rename Hq into Hq0 end.
  destruct (users (w_db w) !! id) as [u|] eqn:Hu; simpl in Hq0; [|done]. injection Hq0 as <- <-.
  wp_step. destruct (u_totp_pending_secret u) as [pending|] eqn:Hp; simpl; [|eauto with vibe].
  apply wp_bind, (wpa_internal _ w _ _ _ Hat); [intros; eauto with vibe|]. clear Hat. intros secret Hd Hat.
  wp_step. wp_step. destruct (verify _ _ _ _) as [step|] eqn:Ev; simpl; [|eauto with vibe].
  split; [eauto with vibe|]. eexists u, pending, key, secret, _. split_and!; done.
Qed.

(** Turning two-factor on arms the account: after it succeeds, and if no
    other request of the account ran in between, the account has two-factor on
    with the very secret its code was checked against, the step of that code
    is used up, and the ten recovery codes it was shown are stored, unused. *)
Theorem enabling_arms_the_account id code w codes w' :
  two_factor_enable cfg id code w = (Ok codes, w') ->
  exists u u' pending key secret t step,
    w.(w_db).(users) !! id = Some u /\ u.(u_totp_pending_secret) = Some pending
    /\ cipher cfg.(cfg_totp_encryption_key) = Some key /\ decrypt key id pending = Ok secret
    /\ verify secret code t None = Some step
    /\ w'.(w_db).(users) !! id = Some u' /\ second_factor_armed u' = true
    /\ u'.(u_totp_secret) = Some pending /\ u'.(u_totp_last_step) = Some step
    /\ length codes = RECOVERY_CODE_COUNT
    /\ (forall c, c ∈ codes -> w'.(w_db).(totp_recovery_codes) !! (id, hash (normalize_recovery_code c)) = Some None).
Proof.
  intros Hrun. unfold two_factor_enable, bind in Hrun. pose proof (enable_check_spec id code w) as Hc. unfold wp in Hc.
  destruct (two_factor_enable_check cfg id code w) as [[step|e] w1]; simpl in *; [|done].
  destruct Hc as (D1 & u & pending & key & secret & t & Hu & Hp & Hk & Hd & Hv).
  pose proof (enable_commit_spec id step w1 u) as Hs. rewrite D1 in Hs. specialize (Hs Hu). unfold wp in Hs.
  rewrite Hrun in Hs. simpl in Hs. destruct Hs as (Hl & (t' & Hu') & Hcodes).
  exists u, (enable_totp t' step u), pending, key, secret, t, step. split_and!; try done.
  unfold second_factor_armed, two_factor_enabled. simpl. rewrite Hp. done.
Qed.

(** An account that is on but has no secret is let in on its password alone. *)
Lemma unarmed_accepts_anything id totp rec w u :
  w.(w_db).(users) !! id = Some u -> u.(u_totp_secret) = None -> o_fault w.(w_orc) w.(w_pos) = false ->
  is_ok (check_second_factor cfg id totp rec w).1 = true.
Proof.
  intros Hu Hs Hf. unfold check_second_factor, bind, exec, bind, stmt. rewrite Hf. unfold query_one. rewrite Hu. simpl.
  by rewrite Hs.
Qed.

(** Two [enable] requests of one account whose checks both ran before either
    transaction: the second transaction copies the pending secret the first
    one has already cleared. *)
Theorem double_enable_disarms id step1 step2 w1 u codes1 w1' w2 codes2 w2' :
  w1.(w_db).(users) !! id = Some u ->
  two_factor_enable_commit id step1 w1 = (Ok codes1, w1') -> w2.(w_db) = w1'.(w_db) ->
  two_factor_enable_commit id step2 w2 = (Ok codes2, w2') ->
  exists u', w2'.(w_db).(users) !! id = Some u' /\ two_factor_enabled u' = true /\ second_factor_armed u' = false
    /\ (forall totp rec, o_fault w2'.(w_orc) w2'.(w_pos) = false -> is_ok (check_second_factor cfg id totp rec w2').1 = true).
Proof.
  intros Hu R1 D2 R2. pose proof (enable_commit_spec id step1 w1 u Hu) as S1. unfold wp in S1. rewrite R1 in S1.
  destruct S1 as (_ & (t1 & U1) & _). simpl in U1. rewrite <-D2 in U1.
  pose proof (enable_commit_spec id step2 w2 _ U1) as S2. unfold wp in S2. rewrite R2 in S2.
  destruct S2 as (_ & (t2 & U2) & _). simpl in U2. eexists. split_and!; [exact U2|done|done|].
  intros totp rec Hf. by eapply unarmed_accepts_anything.
Qed.

(** *** Changing a password *)

Lemma wpa_revoke_all w0 d w id (Q : ApiResult unit -> World -> Prop) :
  at_db w0 d w -> (forall e w', at_db w0 d w' -> Q (Err e) w') ->
  (forall t w', at_db w0 (set_refresh_tokens
      ((fun r => if N.eqb r.(rt_user_id) id && bool_decide (r.(rt_revoked_at) = None) then stamp_revoked t r else r) <$> d.(refresh_tokens)) d) w' ->
     Q (Ok tt) w') ->
  wp (revoke_all_for_user id) Q w.
Proof.
  intros Hat He Ho. unfold revoke_all_for_user. do 2 wp_step.
  match goal with Hs : revoke_tokens _ _ _ = _ |- _ => stmt_inv Hs end. eauto.
Qed.

(** After the sessions of [id] were ended, none of its tokens is live. *)
Lemma ended_sessions id t (m : gmap N RefreshTokenRow) i r :
  ((fun r => if N.eqb r.(rt_user_id) id && bool_decide (r.(rt_revoked_at) = None) then stamp_revoked t r else r) <$> m) !! i = Some r ->
  r.(rt_user_id) = id -> is_Some r.(rt_revoked_at).
Proof.
  rewrite lookup_fmap. destruct (m !! i) as [r0|]; simpl; [|done]. intros [= <-]. case_bool as Eb; [simpl; eauto|].
  intros <-. rewrite N.eqb_refl in Eb. simpl in Eb. row_facts. destruct (rt_revoked_at r0); [eauto|done].
Qed.

(** What a successful change of password did. *)
Definition password_changed (id : N) (current new : list Z) (resp : AuthResponse) (d d' : Db) : Prop :=
  exists u u', d.(users) !! id = Some u /\ argon2_verify current u.(u_password_hash) = true
    /\ argon2_verify new u.(u_password_hash) = false
    /\ d'.(users) !! id = Some u' /\ argon2_verify new u'.(u_password_hash) = true /\ u'.(u_must_change_password) = false
    /\ (forall i r, d'.(refresh_tokens) !! i = Some r -> r.(rt_user_id) = id -> r.(rt_revoked_at) = None ->
          r.(rt_token_hash) = hash resp.(res_refresh_token)).

Lemma change_password_spec id current new w :
  wp (change_password cfg id current new) (fun r w' => match r with
    | Ok resp => password_changed id current new resp w.(w_db) w'.(w_db) | Err _ => True end) w.
Proof.
  pose proof (at_db_refl w) as Hat. unfold change_password. wp_step. wp_step. destruct (validate_password new); simpl; [|done].
  wp_step. wp_step. destruct (users (w_db w) !! id) as [u|] eqn:Hu; simpl; [|done]. wp_step. wp_step. row_facts.
  apply wp_bind, (wpa_hash_password w _ _ _ _ Hat); [done|]. clear Hat. intros w1 h Hat Hh. wp_step. wp_step.
  match goal with Hs : update_user _ _ _ = _ |- _ => stmt_inv Hs end.
  apply wp_bind, (wpa_revoke_all w _ _ _ _ Hat); [done|]. clear Hat. intros t2 w2 Hat.
  apply (wpa_issue_auth_response cfg w _ _ _ _ _ Hat); [done|]. clear Hat. intros resp d' w3 Hat (i & ti & e & Hn & Hne & ->) _.
  simpl in *. exists u, (set_password h t u). rewrite (at_db_db _ _ _ Hat). simpl. rewrite lookup_alter_eq, Hu.
  split_and!; try done. intros j r Hj Hr Hlive. apply lookup_insert_Some in Hj as [[<- <-]|[_ Hj]]; [done|].
  apply ended_sessions in Hj; [|done]. rewrite Hlive in Hj. by destruct Hj.
Qed.

(** Changing a password works only with the current one, and only to a
    different one; afterwards the new password is the account's, the flag that
    somebody else set it is cleared, and the one session that is still alive
    on the account is the one returned. *)
Theorem password_change_ends_sessions id current new w resp w' :
  change_password cfg id current new w = (Ok resp, w') -> password_changed id current new resp w.(w_db) w'.(w_db).
Proof. intros Hr. pose proof (change_password_spec id current new w) as Hs. unfold wp in Hs. by rewrite Hr in Hs. Qed.

(** *** Resetting a password *)

(** A reset of the account that is unused and not past its time at [t]. *)
Definition open_reset (id : N) (t : Z) (r : PasswordResetRow) : Prop :=
  r.(pr_user_id) = id /\ r.(pr_used_at) = None /\ t < r.(pr_expires_at).

Lemma newest_reset_Some d id t i r :
  newest_reset d id t = Some (i, r) ->
  d.(password_resets) !! i = Some r /\ open_reset id t r
  /\ forall j x, d.(password_resets) !! j = Some x -> open_reset id t x -> x.(pr_created_at) <= r.(pr_created_at).
Proof.
  unfold newest_reset. intros Hh. apply order_by_head in Hh as [Hin Hmin].
  assert (Hopen : forall k x, (k, x) ∈ List.filter (fun kv : N * PasswordResetRow =>
       N.eqb (kv.2).(pr_user_id) id && bool_decide ((kv.2).(pr_used_at) = None) && (t <? (kv.2).(pr_expires_at)))
     (map_to_list d.(password_resets)) <-> d.(password_resets) !! k = Some x /\ open_reset id t x).
  { intros k x. rewrite list_elem_of_In, List.filter_In, <- list_elem_of_In, elem_of_map_to_list. unfold open_reset. simpl.
    rewrite !andb_true_iff, N.eqb_eq, bool_decide_eq_true, Z.ltb_lt. tauto. }
  apply Hopen in Hin as [Hr Ho]. split_and!; [done|done|]. intros j x Hj Hx.
  specialize (Hmin (j, x) (proj2 (Hopen j x) (conj Hj Hx))). simpl in Hmin. lia.
Qed.

(** What a request with the right code did: the code matched, at time [t], the
    newest unexpired and unused reset of the account, which had guesses left
    and is used now, and the password is the new one. *)
Definition reset_committed (email code new : list Z) (t : Z) (d d' : Db) : Prop :=
  exists id u i r t' h, find_user_by_email (normalize_email email) d = Some (id, u)
    /\ d.(password_resets) !! i = Some r /\ open_reset id t r
    /\ (forall j x, d.(password_resets) !! j = Some x -> open_reset id t x -> x.(pr_created_at) <= r.(pr_created_at))
    /\ r.(pr_attempts) < MAX_CODE_ATTEMPTS /\ hash_code (normalize_code code) = r.(pr_code_hash)
    /\ argon2_verify new h = true
    /\ d' = set_users (alter (set_password h t') id d.(users))
              (set_password_resets (<[i := stamp_used t' r]> d.(password_resets)) d).

(** A wrong guess: it is counted on the reset that had guesses left. *)
Definition guess_counted (code : list Z) (d d' : Db) : Prop :=
  exists i r, d.(password_resets) !! i = Some r /\ r.(pr_attempts) < MAX_CODE_ATTEMPTS
    /\ hash_code (normalize_code code) <> r.(pr_code_hash)
    /\ d' = set_password_resets (<[i := mkPasswordReset r.(pr_user_id) r.(pr_code_hash) (r.(pr_attempts) + 1) r.(pr_created_at)
              r.(pr_expires_at) r.(pr_used_at)]> d.(password_resets)) d.

Definition sessions_ended (id : N) (t : Z) (d : Db) : Db :=
  set_refresh_tokens ((fun r => if N.eqb r.(rt_user_id) id && bool_decide (r.(rt_revoked_at) = None) then stamp_revoked t r else r)
    <$> d.(refresh_tokens)) d.

Lemma count_attempt_inv i r d u d' :
  d.(password_resets) !! i = Some r -> count_attempt i d = Ok (u, d') ->
  d' = set_password_resets (<[i := mkPasswordReset r.(pr_user_id) r.(pr_code_hash) (r.(pr_attempts) + 1) r.(pr_created_at)
         r.(pr_expires_at) r.(pr_used_at)]> d.(password_resets)) d.
Proof.
  intros Hr Hc. injection Hc as _ <-. f_equal. apply map_eq. intros k. destruct (decide (k = i)) as [->|Hne].
  - by rewrite lookup_alter_eq, lookup_insert_eq, Hr.
  - by rewrite lookup_alter_ne, lookup_insert_ne.
Qed.

Lemma confirm_spec from email code new w :
  wp (confirm cfg from email code new) (fun r w' => match r with
    | Ok _ => exists t d1 id u t4, read_during w w' t /\ reset_committed email code new t w.(w_db) d1
        /\ find_user_by_email (normalize_email email) w.(w_db) = Some (id, u) /\ w'.(w_db) = sessions_ended id t4 d1
    | Err _ => w'.(w_db) = w.(w_db) \/ guess_counted code w.(w_db) w'.(w_db)
        \/ exists t, read_during w w' t /\ reset_committed email code new t w.(w_db) w'.(w_db)
    end) w.
Proof.
  unfold confirm. apply wp_bind, wp_check_rate_limit; [intros e w1 (D1 & _); by left|].
  intros w1 (D1 & O1 & P1). rewrite <-D1.
  assert (Hkeep : forall w0 w', at_db w0 w1.(w_db) w' -> w'.(w_db) = w1.(w_db) \/ guess_counted code w1.(w_db) w'.(w_db)
            \/ exists t, read_during w w' t /\ reset_committed email code new t w1.(w_db) w'.(w_db)) by (intros w0 w' Hw; left; by eapply at_db_db).
  pose proof (at_db_refl w1) as Hat. wp_step. destruct (validate_password new); simpl; [|by eapply Hkeep]. wp_step; try by eapply Hkeep.
  wp_step. destruct (find_user_by_email _ _) as [[id u]|] eqn:Ef; simpl; [|by eapply Hkeep].
  apply wp_bind, (wpa_now_at _ w1 _ _ Hat). clear Hat. intros t wt Hat0 Ht.
  assert (Hread : forall wf, same_env wt wf -> read_during w wf t).
  { intros wf (_ & _ & Hp). by eapply read_during_within; [exact O1|exact P1|exact Hp|exact Ht]. }
  apply at_db_rebase in Hat0 as Hat. clear Hat0 Ht. wp_step; try by eapply Hkeep. wp_step.
  destruct (newest_reset _ _ _) as [[i r]|] eqn:En; simpl; [|by eapply Hkeep].
  apply newest_reset_Some in En as (Hr & Hopen & Hnew). wp_step; try by eapply Hkeep. simpl in *. apply wp_bind. case_bool as Eh; row_facts.
  { do 2 wp_step; try by eapply Hkeep. right. left. match goal with Hc : count_attempt _ _ = _ |- _ => apply (count_attempt_inv _ _ _ _ _ Hr) in Hc as -> end.
    rewrite (at_db_db _ _ _ Hat). exists i, r. split_and!; try done; [lia|]. unfold str_eqb in Eh. by row_facts. }
  apply wp_ret. apply wp_bind, (wpa_hash_password wt _ _ _ _ Hat); [intros; by eapply Hkeep|]. clear Hat. intros w2 h Hat Hh.
  repeat (wp_step; try by eapply Hkeep). match goal with Hs : update_user _ _ _ = _ |- _ => stmt_inv Hs end.
  match goal with Hs : spend_reset _ _ _ = _ |- _ => unfold spend_reset in Hs; rewrite Hr, (proj1 (proj2 Hopen)) in Hs; injection Hs as <- <- end.
  eexists. split; [exact Hat|]. clear Hat. intros w3 Hat.
  assert (Hc : reset_committed email code new t w1.(w_db) w3.(w_db)).
  { rewrite (at_db_db _ _ _ Hat). eexists _, u, i, r, _, h. unfold str_eqb in Eh. row_facts. split_and!; try done. lia. }
  rewrite (at_db_db _ _ _ Hat) in Hc.
  apply wp_bind, (wpa_revoke_all wt _ _ _ _ Hat).
  - intros e w4 Hat4. right. right. exists t. rewrite (at_db_db _ _ _ Hat4). split; [by eapply Hread, at_db_env|done].
  - intros t4 w4 Hat4. apply wp_ret. eexists t, _, _, u, t4. split_and!; [by eapply Hread, at_db_env|exact Hc|reflexivity|].
    by rewrite (at_db_db _ _ _ Hat4).
Qed.

(** C9: Resetting a password by code succeeds only with the code of the newest
    of that account's resets that are unused and were unexpired at a moment of
    the request, and only while it has guesses left; it spends that reset,
    sets the password, leaves the second factor as it was, and ends every
    session of the account. *)
Theorem reset_needs_a_live_code from email code new w s w' :
  confirm cfg from email code new w = (Ok s, w') ->
  exists id u u' i r r' t, find_user_by_email (normalize_email email) w.(w_db) = Some (id, u)
    /\ read_during w w' t
    /\ w.(w_db).(password_resets) !! i = Some r /\ open_reset id t r
    /\ (forall j x, w.(w_db).(password_resets) !! j = Some x -> open_reset id t x -> x.(pr_created_at) <= r.(pr_created_at))
    /\ r.(pr_attempts) < MAX_CODE_ATTEMPTS /\ hash_code (normalize_code code) = r.(pr_code_hash)
    /\ w'.(w_db).(password_resets) !! i = Some r' /\ is_Some r'.(pr_used_at)
    /\ w'.(w_db).(users) !! id = Some u' /\ argon2_verify new u'.(u_password_hash) = true
    /\ u'.(u_totp_secret) = u.(u_totp_secret) /\ u'.(u_totp_enabled_at) = u.(u_totp_enabled_at)
    /\ (forall j x, w'.(w_db).(refresh_tokens) !! j = Some x -> x.(rt_user_id) = id -> is_Some x.(rt_revoked_at)).
Proof.
  intros Hr. pose proof (confirm_spec from email code new w) as Hs. unfold wp in Hs. rewrite Hr in Hs. simpl in Hs.
  destruct Hs as (t & d1 & id & u & t2 & Hread & (id' & u0 & i & r & t' & h & Hf & Hi & Ho & Hnew & Ha & Hh & Hv & ->) & Hf' & D).
  rewrite Hf in Hf'. injection Hf' as -> ->. destruct (find_user_by_email_Some _ _ _ _ Hf) as [Hu _].
  exists id, u, (set_password h t' u), i, r, (stamp_used t' r), t. rewrite D. simpl.
  rewrite lookup_insert_eq, lookup_alter_eq, Hu. split_and!; try done.
  intros j x Hj Hx. by eapply ended_sessions.
Qed.

(** Guesses are bounded: whatever address and code a request names, it
    counts at most one guess, on a reset that had fewer than five, and a reset
    with five is not accepted; so no reset ever has more than five. *)
Theorem reset_guesses_bounded from email code new w i r' :
  (forall j r, w.(w_db).(password_resets) !! j = Some r -> 0 <= r.(pr_attempts) <= MAX_CODE_ATTEMPTS) ->
  (confirm cfg from email code new w).2.(w_db).(password_resets) !! i = Some r' ->
  0 <= r'.(pr_attempts) <= MAX_CODE_ATTEMPTS.
Proof.
  intros Hb Hi. pose proof (confirm_spec from email code new w) as Hs. unfold wp in Hs.
  destruct (confirm cfg from email code new w) as [[s|e] w']; simpl in *.
  - destruct Hs as (t & d1 & id & u & t2 & _ & (id' & u0 & j & r & t' & h & _ & Hj & _ & _ & _ & _ & _ & ->) & _ & D).
    rewrite D in Hi. simpl in Hi. apply lookup_insert_Some in Hi as [[<- <-]|[_ Hi]]; [simpl|]; by eapply Hb.
  - destruct Hs as [D|[(j & r & Hj & Ha & _ & D)|(t & _ & id' & u0 & j & r & t' & h & _ & Hj & _ & _ & _ & _ & _ & D)]]; rewrite D in Hi; simpl in Hi.
    + by eapply Hb.
    + apply lookup_insert_Some in Hi as [[<- <-]|[_ Hi]]; [simpl; specialize (Hb j r Hj); lia|by eapply Hb].
    + apply lookup_insert_Some in Hi as [[<- <-]|[_ Hi]]; [simpl|]; by eapply Hb.
Qed.
End properties.

(** *** Who a request is from *)

Section extractors.
Context `{Jwt} (cfg : Config).

Lemma user_id_from_parts_spec authorization w :
  wp (user_id_from_parts cfg authorization) (fun r w' => at_db w w.(w_db) w' /\ match r with
    | Ok id => exists token t c, authorization = Some (lit "Bearer " ++ token) /\ jwt_decode token cfg.(cfg_jwt_secret) t = Ok c
        /\ c.(sub) = id /\ t < c.(exp) + LEEWAY
    | Err _ => True
    end) w.
Proof.
  pose proof (at_db_refl w) as Hat. unfold user_id_from_parts, verify_access_token. wp_step.
  destruct (authorization ≫= header_to_str) as [header|] eqn:Eh; cbn [ok_or]; cbv iota; [|done].
  assert (Ha : authorization = Some header).
  { destruct authorization as [v|]; simpl in Eh; [|done]. unfold header_to_str in Eh. case_bool; congruence. }
  wp_step. destruct (strip_prefix (lit "Bearer ") header) as [token|] eqn:Es; cbn [ok_or]; cbv iota; [|done].
  assert (Hp : header = lit "Bearer " ++ token).
  { revert Es. generalize (lit "Bearer "). clear. intros p. revert header. induction p as [|a p IH]; intros [|b s]; simpl; try congruence.
    destruct (Z.eqb_spec a b) as [->|]; [|done]. intros Es. f_equal. by apply IH. }
  apply wp_bind. wp_step. wp_step. destruct (jwt_decode _ _ _) as [c|e] eqn:Ed; [apply wp_ret|by apply wp_throw].
  split; [done|]. eexists token, _, c. rewrite Ha, Hp. split_and!; try done. by eapply jwt_decode_live.
Qed.

(** A request gets past the [AuthUser] extractor only with a bearer token
    that verifies and is not past its expiry and the leeway, for an account
    that exists and has replaced any password somebody else set; a failed
    extraction changes no table. *)
Theorem auth_user_gate authorization w :
  (AuthUser cfg authorization w).2.(w_db) = w.(w_db) /\
  forall id, (AuthUser cfg authorization w).1 = Ok id ->
    exists token t c u, authorization = Some (lit "Bearer " ++ token) /\ jwt_decode token cfg.(cfg_jwt_secret) t = Ok c
      /\ c.(sub) = id /\ t < c.(exp) + LEEWAY
      /\ w.(w_db).(users) !! id = Some u /\ u.(u_must_change_password) = false.
Proof.
  assert (Hwp : wp (AuthUser cfg authorization) (fun r w' => w'.(w_db) = w.(w_db) /\ forall id, r = Ok id ->
    exists token t c u, authorization = Some (lit "Bearer " ++ token) /\ jwt_decode token cfg.(cfg_jwt_secret) t = Ok c
      /\ c.(sub) = id /\ t < c.(exp) + LEEWAY /\ w.(w_db).(users) !! id = Some u /\ u.(u_must_change_password) = false) w); [|exact Hwp].
  unfold AuthUser. apply wp_bind. eapply wp_mono; [apply user_id_from_parts_spec|].
  intros [id|e] w1 [Hat Hr]; [|split; [by eapply at_db_db|done]].
  destruct Hr as (token & t & c & Ha & Hd & Hs & Ht). wp_step.
  - split; [by eapply at_db_db|done].
  - destruct (users (w_db w) !! id) as [u|] eqn:Hu; simpl.
    + destruct (u_must_change_password u) eqn:Em; [apply wp_throw; split; [by eapply at_db_db|done]|].
      apply wp_ret. split; [by eapply at_db_db|]. intros id' [= <-]. exists token, t, c, u. split_and!; done.
    + apply wp_throw. split; [by eapply at_db_db|done].
Qed.
End extractors.

(** ** Witnesses *)

#[global] Program Instance plain_aead : Aes256Gcm | 100 :=
  {| aead_encrypt k n aad m := Some m; aead_decrypt k n aad c := Some c |}.
Next Obligation. intros k n aad m c [= <-]. done. Qed.

(** A token that is its claims. *)
Definition plain_jwt_decode (tok k : list Z) (t : Z) : result string Claims :=
  match tok with
  | [s; e; i] => if t <? e + LEEWAY then Ok (mkClaims (Z.to_N s) e i) else Err "expired"%string
  | _ => Err "malformed"%string
  end.

#[global] Program Instance plain_jwt : Jwt | 100 :=
  {| jwt_encode c k := Ok [Z.of_N c.(sub); c.(exp); c.(iat)]; jwt_decode := plain_jwt_decode |}.
Next Obligation.
  intros [s e i] k tok t [= <-] Ht. simpl in *. destruct (Z.ltb_spec t (e + LEEWAY)); [|lia]. by rewrite N2Z.id.
Qed.
Next Obligation. intros tok k t c. unfold plain_jwt_decode. repeat case_match; intros ?; simplify_eq. simpl. lia. Qed.

(** 32 zero bytes, in base64, as the key of the second factor. *)
Definition sample_cfg : Config := mkConfig (lit "jwt") None (Some (lit "AAAAAAAAAAAAAAAAAAAAAAAAAAAAAAAAAAAAAAAAAAA=")) true.
Definition here : Origin := mkOrigin None None (Some (lit "192.0.2.7")).

Definition with_bob (u : UserRow) : Db := set_users (<[bob := u]> people.(users)) people.
Definition stored_secret : list Z := repeat 0 12 ++ [1; 2; 3].

(** Bob with two-factor on, and the codes his app shows at steps 0 and 1. *)
Definition bob_armed : Db := with_bob (with_totp (Some stored_secret) None (Some 0) None (account (lit "bob@x.pl"))).
Definition bob_code (step : Z) : list Z := code_text (hotp [1; 2; 3] step).

(** Bob's account needs a second factor, and the code of the moment is one. *)
Lemma sign_in_needs_every_factor_witness :
  match login sample_cfg here (lit "Bob@x.pl ") (lit "secret-word") (Some (bob_code 0)) None (world bob_armed 1000) with
  | (Ok resp, w') => signed_in sample_cfg (lit "Bob@x.pl ") (lit "secret-word") (Some (bob_code 0)) None resp (world bob_armed 1000) w'
      /\ option_map second_factor_armed (bob_armed.(users) !! bob) = Some true
  | (Err _, _) => False
  end.
Proof.
  assert (Hok : is_ok (login sample_cfg here (lit "Bob@x.pl ") (lit "secret-word") (Some (bob_code 0)) None (world bob_armed 1000)).1 = true) by (vm_compute; reflexivity).
  destruct (login sample_cfg here (lit "Bob@x.pl ") (lit "secret-word") (Some (bob_code 0)) None (world bob_armed 1000)) as [[resp|e] w'] eqn:E.
  - split; [exact (sign_in_needs_every_factor sample_cfg here _ _ (Some (bob_code 0)) None (world bob_armed 1000) resp w' E)|vm_compute; reflexivity].
  - discriminate Hok.
Defined.

(** The same code does not sign in a second time, nor does one of an hour ago. *)
Lemma used_and_stale_codes_are_refused :
  let again := (login sample_cfg here (lit "bob@x.pl") (lit "secret-word") (Some (bob_code 0)) None (world bob_armed 1000)).2 in
  let in_an_hour := mkWorld bob_armed ∅ (mkOracle (fun _ => 3600 * MICROS) (fun n => Z.of_nat n) N.of_nat (fun n => [65 + Z.of_nat n]) (fun _ => false)) 0 in
  is_ok (login sample_cfg here (lit "bob@x.pl") (lit "secret-word") (Some (bob_code 0)) None again).1 = false
  /\ is_ok (login sample_cfg here (lit "bob@x.pl") (lit "secret-word") (Some (bob_code 0)) None in_an_hour).1 = false
  /\ is_ok (login sample_cfg here (lit "bob@x.pl") (lit "secret-word") (Some (bob_code 120)) None in_an_hour).1 = true.
Proof. vm_compute. repeat split. Qed.

Lemma totp_code_accepted_once_witness :
  match check_second_factor sample_cfg bob (Some (bob_code 0)) None (world bob_armed 1000) with
  | (Ok _, w1') =>
      match check_second_factor sample_cfg bob (Some (bob_code 1)) None w1' with
      | (Ok _, _) => exists secret1 secret2 step1 step2, step1 < step2
          /\ List.filter (fun c => negb (is_whitespace c)) (trim (bob_code 0)) = code_text (hotp secret1 step1)
          /\ List.filter (fun c => negb (is_whitespace c)) (trim (bob_code 1)) = code_text (hotp secret2 step2)
      | (Err _, _) => False
      end
  | (Err _, _) => False
  end.
Proof.
  destruct (check_second_factor sample_cfg bob (Some (bob_code 0)) None (world bob_armed 1000)) as [[[]|e] w1'] eqn:E1;
    [|vm_compute in E1; discriminate E1].
  assert (W1 : w1' = (check_second_factor sample_cfg bob (Some (bob_code 0)) None (world bob_armed 1000)).2) by (rewrite E1; reflexivity).
  destruct (check_second_factor sample_cfg bob (Some (bob_code 1)) None w1') as [[[]|e] w2'] eqn:E2.
  - refine (totp_code_accepted_once sample_cfg bob (bob_code 0) (bob_code 1) None None (world bob_armed 1000) _ stored_secret w1'
      w1' _ stored_secret w2' _ _ _ E1 _ _ _ _ E2).
    + vm_compute. reflexivity.
    + reflexivity.
    + vm_compute. discriminate.
    + subst w1'. vm_compute. reflexivity.
    + reflexivity.
    + vm_compute. discriminate.
    + intros step Hs. exists step. split; [exact Hs|lia].
  - subst w1'. vm_compute in E2. discriminate E2.
Defined.

Definition bob_pending : Db := with_bob (set_pending stored_secret (account (lit "bob@x.pl"))).

Lemma enabling_arms_the_account_witness :
  match two_factor_enable sample_cfg bob (bob_code 0) (world bob_pending 1000) with
  | (Ok _, w') => exists u', w'.(w_db).(users) !! bob = Some u' /\ second_factor_armed u' = true
  | (Err _, _) => False
  end.
Proof.
  assert (Hok : is_ok (two_factor_enable sample_cfg bob (bob_code 0) (world bob_pending 1000)).1 = true) by (vm_compute; reflexivity).
  destruct (two_factor_enable sample_cfg bob (bob_code 0) (world bob_pending 1000)) as [[codes|e] w'] eqn:E.
  - destruct (enabling_arms_the_account sample_cfg bob (bob_code 0) (world bob_pending 1000) codes w' E)
      as (u & u' & p & k & sec & t & s & _ & _ & _ & _ & _ & Hu' & Ha & _). exists u'. split; [exact Hu'|exact Ha].
  - discriminate Hok.
Defined.

(** The double submission, played out: both checks pass, both transactions
    commit, and Bob's account says two-factor is on while his password alone
    signs in. *)
Definition raced : World :=
  let w0 := world bob_pending 1000 in
  let '(s1, w1) := two_factor_enable_check sample_cfg bob (bob_code 0) w0 in
  let '(s2, w2) := two_factor_enable_check sample_cfg bob (bob_code 1) w1 in
  match s1, s2 with
  | Ok s1, Ok s2 => (two_factor_enable_commit bob s2 (two_factor_enable_commit bob s1 w2).2).2
  | _, _ => w0
  end.

Lemma double_enable_disarms_witness :
  (exists u', raced.(w_db).(users) !! bob = Some u' /\ two_factor_enabled u' = true /\ second_factor_armed u' = false)
  /\ is_ok (login sample_cfg here (lit "bob@x.pl") (lit "secret-word") None None raced).1 = true.
Proof.
  split; [|vm_compute; reflexivity].
  pose (w1 := (two_factor_enable_check sample_cfg bob (bob_code 1) (two_factor_enable_check sample_cfg bob (bob_code 0) (world bob_pending 1000)).2).2).
  destruct (two_factor_enable_commit bob 0 w1) as [[c1|e] w1'] eqn:E1; [|vm_compute in E1; discriminate E1].
  assert (W1 : w1' = (two_factor_enable_commit bob 0 w1).2) by (rewrite E1; reflexivity).
  destruct (two_factor_enable_commit bob 1 w1') as [[c2|e] w2'] eqn:E2; [|subst w1'; vm_compute in E2; discriminate E2].
  assert (W2 : w2'.(w_db).(users) = raced.(w_db).(users)).
  { replace w2' with (two_factor_enable_commit bob 1 w1').2 by (rewrite E2; reflexivity). rewrite W1. vm_compute. reflexivity. }
  destruct (double_enable_disarms sample_cfg bob 0 1 w1 _ c1 w1' w1' c2 w2' ltac:(vm_compute; reflexivity) E1 eq_refl E2)
    as (u' & Hu' & Ht & Ha & _).
  exists u'. rewrite <-W2. split; [exact Hu'|]. split; [exact Ht|exact Ha].
Defined.

Lemma password_change_ends_sessions_witness :
  match change_password sample_cfg bob (lit "secret-word") (lit "another-word") (world bob_signed_in 2000) with
  | (Ok resp, w') => password_changed bob (lit "secret-word") (lit "another-word") resp bob_signed_in w'.(w_db)
  | (Err _, _) => False
  end.
Proof.
  assert (Hok : is_ok (change_password sample_cfg bob (lit "secret-word") (lit "another-word") (world bob_signed_in 2000)).1 = true) by (vm_compute; reflexivity).
  destruct (change_password sample_cfg bob (lit "secret-word") (lit "another-word") (world bob_signed_in 2000)) as [[resp|e] w'] eqn:E.
  - exact (password_change_ends_sessions sample_cfg bob _ _ (world bob_signed_in 2000) resp w' E).
  - discriminate Hok.
Defined.

(** Bob asked for a reset; the code is in his inbox. *)
Definition bob_reset : World := (request sample_cfg here (lit "bob@x.pl") (world people 1000)).2.
Definition bob_reset_code : list Z :=
  match (request sample_cfg here (lit "bob@x.pl") (world people 1000)).1 with
  | Ok (_, Some code) => code
  | _ => []
  end.

Lemma reset_needs_a_live_code_witness :
  match confirm sample_cfg here (lit "bob@x.pl") bob_reset_code (lit "another-word") (world bob_reset.(w_db) 2000) with
  | (Ok _, w') => exists u', w'.(w_db).(users) !! bob = Some u' /\ argon2_verify (lit "another-word") u'.(u_password_hash) = true
  | (Err _, _) => False
  end.
Proof.
  assert (Hok : is_ok (confirm sample_cfg here (lit "bob@x.pl") bob_reset_code (lit "another-word") (world bob_reset.(w_db) 2000)).1 = true) by (vm_compute; reflexivity).
  destruct (confirm sample_cfg here (lit "bob@x.pl") bob_reset_code (lit "another-word") (world bob_reset.(w_db) 2000)) as [[s|e] w'] eqn:E.
  - destruct (reset_needs_a_live_code sample_cfg here _ _ _ (world bob_reset.(w_db) 2000) s w' E)
      as (id & u & u' & i & r & r' & t & Hf & _ & _ & _ & _ & _ & _ & _ & _ & Hu' & Hv & _).
    assert (id = bob) as -> by (vm_compute in Hf; injection Hf as <- _; reflexivity). exists u'. split; [exact Hu'|exact Hv].
  - discriminate Hok.
Defined.

Lemma reset_guesses_bounded_witness :
  let w' := (confirm sample_cfg here (lit "bob@x.pl") (lit "WRONG") (lit "another-word") (world bob_reset.(w_db) 2000)).2 in
  Forall (fun kv : N * PasswordResetRow => 0 <= (kv.2).(pr_attempts) <= 5) (map_to_list w'.(w_db).(password_resets)).
Proof.
  cbv zeta. apply Forall_forall. intros [i r] Hi%elem_of_map_to_list.
  apply (reset_guesses_bounded sample_cfg here (lit "bob@x.pl") (lit "WRONG") (lit "another-word") (world bob_reset.(w_db) 2000) i r); [|exact Hi].
  intros j r0 Hj. assert (Hall : forallb (fun kv : N * PasswordResetRow => (0 <=? (kv.2).(pr_attempts)) && ((kv.2).(pr_attempts) <=? 5))
    (map_to_list (world bob_reset.(w_db) 2000).(w_db).(password_resets)) = true) by (vm_compute; reflexivity).
  rewrite forallb_elem_of in Hall. specialize (Hall (j, r0)). rewrite elem_of_map_to_list in Hall. specialize (Hall Hj).
  simpl in Hall. unfold MAX_CODE_ATTEMPTS. lia.
Defined.
