(* ===== verification/Ai.v ===== *)
(** * Ai: the daily allowance of the hosted assistant

    [apps/backend/src/ai.rs] and the table [ai_usage] (migration 0007).  A
    question is one statement that takes it off the allowance, a call of the
    provider, which may last for minutes, and one statement that gives it back
    when the call failed.  Between the two any number of other requests run, and
    the day may turn: [step] interleaves them, statement by statement.

    The provider's answer, and reading it as JSON, are parameters. *)

From S2P Require Import Prelude Text RateLimit Db Api.

#[local] Open Scope Z_scope.
#[local] Open Scope vibe_scope.

(** ** Data *)

Definition DEFAULT_DAILY_LIMIT : Z := 20.
Definition MAX_PROMPT_CHARS : Z := 60000.

Record Upstream : Type := mkUpstream { up_base_url : list Z; up_api_key : list Z; up_model : list Z; up_daily_limit : Z }.

(** The four variables of the environment. *)
Record AiEnv : Type := mkAiEnv { ae_base_url : option (list Z); ae_api_key : option (list Z); ae_model : option (list Z); ae_limit : option (list Z) }.

Definition from_env (env : AiEnv) : option Upstream :=
  match env.(ae_base_url), env.(ae_api_key), env.(ae_model) with
  | Some base_url, Some api_key, Some model =>
      if is_empty (trim base_url) || is_empty (trim api_key) || is_empty (trim model) then None
      else
        let daily_limit := match env.(ae_limit) ≫= parse_i32 with Some limit => if 0 <? limit then limit else DEFAULT_DAILY_LIMIT | None => DEFAULT_DAILY_LIMIT end in
        Some (mkUpstream (trim base_url) api_key (trim model) daily_limit)
  | _, _, _ => None
  end.

Definition ends_with_text (suffix s : list Z) : bool := starts_with (rev suffix) (rev s).

Definition chat_url (upstream : Upstream) : list Z :=
  let base := trim_end_matches (Z.eqb 47) upstream.(up_base_url) in
  if ends_with_text (lit "/chat/completions") base then base else base ++ lit "/chat/completions".

Record ChatMessage : Type := mkMessage { cm_role : list Z; cm_content : list Z }.

(** [qv_resets_at] in days. *)
Record QuotaView : Type := mkQuota { qv_used : Z; qv_limit : Z; qv_resets_at : Z; qv_prompt_chars : Z }.
Record ChatResponse : Type := mkChatResponse { ch_content : list Z; ch_quota : QuotaView }.

Definition next_midnight_utc (today : Z) : Z := today + 1.

(** ** The table *)

(** By user and date: question_count and prompt_chars. *)
Abbreviation Usage := (gmap (N * Z) (Z * Z)).

Definition I64_MAX : Z := 9223372036854775807.

(** INSERT ... ON CONFLICT DO UPDATE ... WHERE ... RETURNING: the count, or no row.
    Postgres refuses a statement whose BIGINT would overflow. *)
Definition reserve_statement (user_id : N) (today limit prompt_chars : Z) (usage : Usage) : option (option Z * Usage) :=
  match usage !! (user_id, today) with
  | None => Some (Some 1, <[(user_id, today) := (1, prompt_chars)]> usage)
  | Some (count, chars) =>
      if count <? limit then
        if I64_MAX <? chars + prompt_chars then None else Some (Some (count + 1), <[(user_id, today) := (count + 1, chars + prompt_chars)]> usage)
      else Some (None, usage)
  end.

Definition refund_statement (user_id : N) (today prompt_chars : Z) (usage : Usage) : Usage :=
  match usage !! (user_id, today) with
  | None => usage
  | Some (count, chars) => <[(user_id, today) := (Z.max (count - 1) 0, Z.max (chars - prompt_chars) 0)]> usage
  end.

(** ** The handlers *)

Definition not_hosted : ApiError := NotFound (detail "ai_not_hosted").

(** [fault]: the statement did not reach the database. *)
Definition reserve_question (user_id : N) (limit prompt_chars today : Z) (fault : bool) (usage : Usage) : ApiResult Z * Usage :=
  if fault then (Err (Internal (inr "failed to record AI usage"%string)), usage)
  else match reserve_statement user_id today limit prompt_chars usage with
       | None => (Err (Internal (inr "failed to record AI usage"%string)), usage)
       | Some (Some used, usage) => (Ok used, usage)
       | Some (None, usage) => (Err (TooManyRequests (with_param (detail "ai_daily_limit_used") "limit" (JNum limit))), usage)
       end.

Definition refund_question (user_id : N) (prompt_chars today : Z) (fault : bool) (usage : Usage) : Usage :=
  if fault then usage else refund_statement user_id today prompt_chars usage.

Definition quota (env : AiEnv) (user_id : N) (today : Z) (fault : bool) (usage : Usage) : ApiResult QuotaView :=
  match from_env env with
  | None => Err not_hosted
  | Some upstream =>
      if fault then Err (Internal (inr "failed to read AI usage"%string))
      else let '(used, prompt_chars) := default (0, 0) (usage !! (user_id, today)) in Ok (mkQuota used upstream.(up_daily_limit) (next_midnight_utc today) prompt_chars)
  end.

Definition prompt_size (messages : list ChatMessage) : Z := fold_right (fun message n => chars_count message.(cm_content) + n) 0 messages.

(** Indexing a JSON value: [Null] where there is nothing. *)
Definition json_field (name : string) (v : Json) : Json :=
  match v with JObj fields => default JNull (snd <$> List.find (fun f => String.eqb f.1 name) fields) | _ => JNull end.
Definition json_first (v : Json) : Json := match v with JArr (x :: _) => x | _ => JNull end.

Definition answer_from_response (parsed : Json) : ApiResult (list Z) :=
  match json_field "content" (json_field "message" (json_first (json_field "choices" parsed))) with
  | JStr content => if is_empty (trim content) then Err (UpstreamFailure "the AI provider returned an empty answer") else Ok content
  | _ => Err (UpstreamFailure "the AI provider returned no answer")
  end.

Section provider.
Variable parse_json : list Z -> option Json.

(** What came back: no answer, or a status and a body. *)
Definition call_upstream (response : option (Z * list Z)) : ApiResult (list Z) :=
  match response with
  | None => Err (UpstreamFailure "couldn't reach the AI provider")
  | Some (status, text) =>
      if negb ((200 <=? status) && (status <? 300)) then Err (UpstreamFailure "the AI provider answered an error")
      else match parse_json text with
           | None => Err (UpstreamFailure "the AI provider's response didn't parse")
           | Some parsed => answer_from_response parsed
           end
  end.

(** A question that was taken off the allowance and waits for its answer.
    [pd_day] is when; the code does not keep it, the theorems speak of it. *)
Record Pending : Type := mkPending { pd_user : N; pd_used : Z; pd_limit : Z; pd_chars : Z; pd_day : Z }.

(** [chat], up to the call of the provider. *)
Definition chat_begin (env : AiEnv) (user_id : N) (messages : list ChatMessage) (today : Z) (fault : bool) (usage : Usage) : ApiResult Pending * Usage :=
  match from_env env with
  | None => (Err not_hosted, usage)
  | Some upstream =>
      match messages with
      | [] => (Err (InvalidInput (detail "ai_empty_question")), usage)
      | _ =>
          let prompt_chars := prompt_size messages in
          if MAX_PROMPT_CHARS <? prompt_chars
          then (Err (InvalidInput (with_param (with_param (detail "ai_question_too_large") "characters" (JNum prompt_chars)) "limit" (JNum MAX_PROMPT_CHARS))), usage)
          else match reserve_question user_id upstream.(up_daily_limit) prompt_chars today fault usage with
               | (Err e, usage) => (Err e, usage)
               | (Ok used, usage) => (Ok (mkPending user_id used upstream.(up_daily_limit) prompt_chars today), usage)
               end
      end
  end.

(** [chat], from the provider's answer on. *)
Definition chat_end (pending : Pending) (response : option (Z * list Z)) (today : Z) (fault : bool) (usage : Usage) : ApiResult ChatResponse * Usage :=
  match call_upstream response with
  | Ok content => (Ok (mkChatResponse content (mkQuota pending.(pd_used) pending.(pd_limit) (next_midnight_utc today) pending.(pd_chars))), usage)
  | Err err => (Err err, refund_question pending.(pd_user) pending.(pd_chars) today fault usage)
  end.
End provider.

(** ** Interleavings *)

Section allowance.
Variable parse_json : list Z -> option Json.

(** The table, the date, the questions under way; and, for the theorems, the
    questions answered, by user and the day they were taken off, and the
    refunds, by user, that day, and the day of the refund. *)
Record Service : Type := mkService {
  sv_usage : Usage; sv_day : Z; sv_pending : list Pending; sv_answered : list (N * Z); sv_refunded : list (N * Z * Z);
}.

Definition ask (env : AiEnv) (user_id : N) (messages : list ChatMessage) (fault : bool) (s : Service) : Service :=
  match chat_begin env user_id messages s.(sv_day) fault s.(sv_usage) with
  | (Ok pending, usage) => mkService usage s.(sv_day) (s.(sv_pending) ++ [pending]) s.(sv_answered) s.(sv_refunded)
  | (Err _, usage) => mkService usage s.(sv_day) s.(sv_pending) s.(sv_answered) s.(sv_refunded)
  end.

Definition finish (i : nat) (pending : Pending) (response : option (Z * list Z)) (fault : bool) (s : Service) : Service :=
  match chat_end parse_json pending response s.(sv_day) fault s.(sv_usage) with
  | (Ok _, usage) => mkService usage s.(sv_day) (delete i s.(sv_pending)) (s.(sv_answered) ++ [(pending.(pd_user), pending.(pd_day))]) s.(sv_refunded)
  | (Err _, usage) =>
      mkService usage s.(sv_day) (delete i s.(sv_pending)) s.(sv_answered) (s.(sv_refunded) ++ if fault then [] else [(pending.(pd_user), pending.(pd_day), s.(sv_day))])
  end.

(** [limit] is the largest allowance the deployment ever had. *)
Inductive step (limit : Z) : Service -> Service -> Prop :=
| step_day s day : s.(sv_day) <= day -> step limit s (mkService s.(sv_usage) day s.(sv_pending) s.(sv_answered) s.(sv_refunded))
| step_ask s env user_id messages fault : (forall upstream, from_env env = Some upstream -> upstream.(up_daily_limit) <= limit) -> step limit s (ask env user_id messages fault s)
| step_finish s i pending response fault : s.(sv_pending) !! i = Some pending -> step limit s (finish i pending response fault s).

Definition start (day : Z) : Service := mkService ∅ day [] [] [].

Definition matching {A} (f : A -> bool) (l : list A) : Z := Z.of_nat (length (List.filter f l)).

Definition asked (s : Service) (u : N) (d : Z) : Z := matching (fun p => N.eqb p.(pd_user) u && (p.(pd_day) =? d)) s.(sv_pending).
Definition answered (s : Service) (u : N) (d : Z) : Z := matching (fun a => N.eqb a.1 u && (a.2 =? d)) s.(sv_answered).
(** Refunds of another day's question. *)
Definition crossed (s : Service) (u : N) (d : Z) : Z := matching (fun '(u', from, on) => N.eqb u' u && (on =? d) && negb (from =? d)) s.(sv_refunded).
Definition used (s : Service) (u : N) (d : Z) : Z := fst (default (0, 0) (s.(sv_usage) !! (u, d))).

Lemma matching_app {A} (f : A -> bool) l l' : matching f (l ++ l') = matching f l + matching f l'.
Proof. unfold matching. rewrite List.filter_app, length_app. lia. Qed.
Lemma matching_one {A} (f : A -> bool) x : matching f [x] = if f x then 1 else 0.
Proof. unfold matching. cbn. by destruct (f x). Qed.
Lemma matching_nonneg {A} (f : A -> bool) l : 0 <= matching f l.
Proof. unfold matching. lia. Qed.

Lemma matching_delete {A} (f : A -> bool) l i x : l !! i = Some x -> matching f l = matching f (delete i l) + if f x then 1 else 0.
Proof.
  revert i. induction l as [|y l IH]; intros [|i] Hi; [done..| |].
  - injection Hi as ->. unfold matching. change (delete 0%nat (x :: l)) with l. cbn [List.filter]. destruct (f x); cbn [length]; lia.
  - specialize (IH i Hi). unfold matching in *. change (delete (S i) (y :: l)) with (y :: delete i l). cbn [List.filter]. destruct (f y); cbn [length]; lia.
Qed.

(** What the table accounts for. *)
Record Accounted (limit : Z) (s : Service) : Prop := {
  ac_used : forall u d, 0 <= used s u d <= limit;
  ac_asked : forall u d, asked s u d + answered s u d <= used s u d + crossed s u d;
}.

Lemma used_insert s u d v u' d' day pending answered refunded :
  used (mkService (<[(u, d) := v]> s.(sv_usage)) day pending answered refunded) u' d' = if bool_decide ((u, d) = (u', d')) then v.1 else used s u' d'.
Proof. unfold used. cbn [sv_usage]. case_bool_decide as Hd; [by rewrite Hd, lookup_insert_eq|by rewrite lookup_insert_ne]. Qed.

Lemma from_env_limit env upstream : from_env env = Some upstream -> 0 < upstream.(up_daily_limit).
Proof.
  unfold from_env. destruct (ae_base_url env), (ae_api_key env), (ae_model env); try done. destruct (_ || _ || _); [done|]. intros [= <-]. cbn [up_daily_limit]. unfold DEFAULT_DAILY_LIMIT.
  destruct (ae_limit env ≫= parse_i32) as [n|]; [destruct (Z.ltb_spec 0 n)|]; lia.
Qed.

(** A question either changes nothing, or is one more under way and one more used. *)
Lemma ask_cases limit env user_id messages fault s : (forall upstream, from_env env = Some upstream -> upstream.(up_daily_limit) <= limit) ->
  ask env user_id messages fault s = s \/ exists p count chars, ask env user_id messages fault s = mkService (<[(user_id, s.(sv_day)) := (used s user_id s.(sv_day) + 1, chars)]> s.(sv_usage)) s.(sv_day) (s.(sv_pending) ++ [p]) s.(sv_answered) s.(sv_refunded) /\
    p.(pd_user) = user_id /\ p.(pd_day) = s.(sv_day) /\ count = used s user_id s.(sv_day) /\ (count < limit \/ count = 0 /\ 0 < limit).
Proof.
  intros Hlim. assert (Hsame : mkService (sv_usage s) (sv_day s) (sv_pending s) (sv_answered s) (sv_refunded s) = s) by (by destruct s).
  unfold ask, chat_begin. destruct (from_env env) as [upstream|] eqn:He; [|left; apply Hsame]. pose proof (from_env_limit env upstream He). specialize (Hlim upstream eq_refl).
  destruct messages as [|m messages]; [left; apply Hsame|]. destruct (MAX_PROMPT_CHARS <? _); [left; apply Hsame|]. unfold reserve_question. destruct fault; [left; apply Hsame|].
  unfold reserve_statement, used. destruct (sv_usage s !! (user_id, sv_day s)) as [[count chars]|] eqn:Hu.
  - destruct (Z.ltb_spec count (up_daily_limit upstream)); [|left; apply Hsame]. destruct (I64_MAX <? _); [left; apply Hsame|]. right. eexists _, count, _. cbn. split_and!; [done..|left; lia].
  - right. eexists _, 0, _. cbn. split_and!; [done..|right; lia].
Qed.

Lemma accounted_step limit s s' : step limit s s' -> Accounted limit s -> Accounted limit s'.
Proof.
  intros Hstep [Hused Hasked]. destruct Hstep as [s day Hday|s env user_id messages fault Hlim|s i p response fault Hi]; [by split| |].
  - destruct (ask_cases limit env user_id messages fault s Hlim) as [->|(p & count & chars & -> & Hpu & Hpd & Hcount & Hlt)]; [by split|]. split; intros u d; specialize (Hused u d) as Hu; specialize (Hasked u d) as Ha.
    + rewrite used_insert. case_bool_decide as Hd; [|done]. injection Hd as Hd1 Hd2. subst u d. cbn [fst]. lia.
    + rewrite used_insert. unfold asked, answered, crossed in *. cbn [sv_pending sv_answered sv_refunded]. rewrite matching_app, matching_one, Hpu, Hpd. case_bool_decide as Hd.
      * injection Hd as Hd1 Hd2. subst u d. rewrite N.eqb_refl, Z.eqb_refl. cbn [andb fst]. lia.
      * destruct (N.eqb_spec user_id u), (Z.eqb_spec (sv_day s) d); cbn [andb]; subst; try done; lia.
  - unfold finish, chat_end. destruct (call_upstream parse_json response) as [content|e].
    + split; intros u d; [by apply Hused|]. specialize (Hasked u d). unfold asked, answered, crossed, used in *. cbn [sv_pending sv_answered sv_refunded sv_usage]. rewrite (matching_delete _ _ _ _ Hi) in Hasked.
      rewrite matching_app, matching_one. cbn [fst snd]. lia.
    + destruct fault; cbn [refund_question].
      * rewrite app_nil_r. split; intros u d; [by apply Hused|]. specialize (Hasked u d). unfold asked, answered, crossed, used in *. cbn [sv_pending sv_answered sv_refunded sv_usage]. rewrite (matching_delete _ _ _ _ Hi) in Hasked.
        destruct (_ && _); lia.
      * unfold refund_statement. destruct (sv_usage s !! (pd_user p, sv_day s)) as [[count chars]|] eqn:Hrow; split; intros u d; specialize (Hused u d) as Hu; specialize (Hasked u d) as Ha.
        -- rewrite used_insert. case_bool_decide as Hd; [|done]. injection Hd as Hd1 Hd2. subst u d. unfold used in Hu. rewrite Hrow in Hu. cbn in *. lia.
        -- rewrite used_insert. unfold asked, answered, crossed in *. cbn [sv_pending sv_answered sv_refunded]. rewrite (matching_delete _ _ _ _ Hi) in Ha. rewrite matching_app, matching_one.
           case_bool_decide as Hd.
           ++ injection Hd as Hd1 Hd2. subst u d. unfold used in Ha. rewrite Hrow in Ha. cbn [default from_option id fst] in *. rewrite N.eqb_refl, Z.eqb_refl in *. cbn [andb] in *. destruct (pd_day p =? sv_day s); cbn [negb] in *; lia.
           ++ destruct (N.eqb_spec (pd_user p) u), (Z.eqb_spec (sv_day s) d), (Z.eqb_spec (pd_day p) d); cbn [andb negb] in *; subst; try done; lia.
        -- done.
        -- unfold asked, answered, crossed, used in *. cbn [sv_pending sv_answered sv_refunded sv_usage]. rewrite (matching_delete _ _ _ _ Hi) in Ha. rewrite matching_app, matching_one.
           destruct (N.eqb (pd_user p) u && (pd_day p =? d)); destruct (N.eqb (pd_user p) u && (sv_day s =? d) && negb (pd_day p =? d)); lia.
Qed.

(** C33: An account gets no more than its allowance.  Over every interleaving of
    questions, answers, failed calls and lost statements, with midnight at any
    moment, the questions of one day that were answered or are under way are
    at most the daily limit - plus the refunds that failed questions of another
    day brought that day; and the count the table holds never passes the limit,
    so it cannot overflow either. *)
Theorem daily_limit_holds limit day s : 0 <= limit -> rtc (step limit) (start day) s ->
  forall u d, asked s u d + answered s u d <= limit + crossed s u d /\ 0 <= used s u d <= limit.
Proof.
  intros Hl Hr u d. assert (Ha : Accounted limit s).
  { assert (H0 : Accounted limit (start day)) by (split; intros u' d'; unfold used, asked, answered, crossed; cbn; rewrite ?lookup_empty; cbn; unfold matching; cbn; lia).
    revert H0. generalize (start day), Hr. clear. induction 1 as [|s1 s2 s3 Hs _ IH]; [done|]. intros H1. by apply IH, (accounted_step limit s1). }
  destruct Ha as [Hu Ha]. specialize (Hu u d). specialize (Ha u d). lia.
Qed.
End allowance.

(** ** A small deployment: one question a day *)

Definition sample_env : AiEnv := mkAiEnv (Some (lit "https://ai.example/v1/")) (Some (lit "key")) (Some (lit "model")) (Some (lit "1")).
Definition sample_messages : list ChatMessage := [mkMessage (lit "user") (lit "why?")].
Definition sample_json (_ : list Z) : option Json :=
  Some (JObj [("choices"%string, JArr [JObj [("message"%string, JObj [("content"%string, JStr (lit "because"))])]])]).
Definition sample_response : option (Z * list Z) := Some (200, []).

Lemma sample_limit upstream : from_env sample_env = Some upstream -> upstream.(up_daily_limit) <= 1.
Proof. by intros [= <-]. Qed.

(** One question, answered; a second one of the same day is refused. *)
Definition sample_day : Service :=
  let s := ask sample_env 7 sample_messages false (start 0) in
  let s := finish sample_json 0 (mkPending 7 1 1 4 0) sample_response false s in
  ask sample_env 7 sample_messages false s.

Lemma daily_limit_holds_witness : asked sample_day 7 0 + answered sample_day 7 0 <= 1 + crossed sample_day 7 0 /\ 0 <= used sample_day 7 0 <= 1.
Proof.
  apply (daily_limit_holds sample_json 1 0); [done|]. unfold sample_day. eapply rtc_l; [exact (step_ask sample_json 1 (start 0) sample_env 7 sample_messages false sample_limit)|]. eapply rtc_l; [apply (step_finish sample_json 1 _ 0 (mkPending 7 1 1 4 0) sample_response false); reflexivity|].
  apply rtc_once. exact (step_ask sample_json 1 _ sample_env 7 sample_messages false sample_limit).
Defined.

(** ** Refunds look at the wrong day *)

Definition turn_of_day (day : Z) (s : Service) : Service := mkService s.(sv_usage) day s.(sv_pending) s.(sv_answered) s.(sv_refunded).

(** A question taken off the allowance before midnight whose call fails after it
    is given back to the new day: the account keeps paying for a failed
    question of the old day, and is answered twice on a day it may ask once. *)
Theorem refund_after_midnight_moves_a_question :
  let s := ask sample_env 7 sample_messages false (start 0) in
  let s := ask sample_env 7 sample_messages false (turn_of_day 1 s) in
  let s := finish sample_json 1 (mkPending 7 1 1 4 1) sample_response false s in
  let s := finish sample_json 0 (mkPending 7 1 1 4 0) None false s in
  let s := ask sample_env 7 sample_messages false s in
  let s := finish sample_json 0 (mkPending 7 1 1 4 1) sample_response false s in
  answered s 7 1 = 2 /\ used s 7 0 = 1 /\ answered s 7 0 = 0.
Proof. split_and!; reflexivity. Qed.

(** [prompt_chars] is documented as the characters sent today, across every
    question; after a chat it is those of that question alone. *)
Theorem chat_reports_one_question_only :
  let usage : Usage := {[(7%N, 0) := (3, 5000)]} in
  let env := mkAiEnv sample_env.(ae_base_url) sample_env.(ae_api_key) sample_env.(ae_model) None in
  match chat_begin env 7 sample_messages 0 false usage with
  | (Ok pending, usage) =>
      match chat_end sample_json pending sample_response 0 false usage with
      | (Ok response, usage) => (response.(ch_quota).(qv_prompt_chars), qv_prompt_chars <$> match quota env 7 0 false usage with Ok view => Some view | Err _ => None end) = (4, Some 5004)
      | _ => False
      end
  | _ => False
  end.
Proof. vm_compute. reflexivity. Qed.
