(* ===== verification/Access.v ===== *)
(** * Access: what the whole API does to who may do what

    [dispatch] is the part of [build_router] of [apps/backend/src/lib.rs] that
    takes an [AuthUser] and works on teams: one constructor of [Call] per
    route.  Every call by a user is a step of [Rbac] or leaves the
    access-control state alone ([dispatch_refines]), so the theorems of [Rbac]
    hold of any sequence of calls, by any users, whatever the outside did. *)

From S2P Require Import Prelude Text Db Api Permissions Rbac Authorize Membership Accounts Teams Roles RbacRefinement TeamServers TeamApplications DeviceKeys Sample.

#[local] Open Scope Z_scope.

Inductive Call : Type :=
| CreateTeam (name : list Z)
| ListTeams
| GetTeam (t : N)
| DeleteTeam (t : N)
| ListMembers (t : N)
| AddMember (t : N) (email : list Z)
| ProvisionMember (t : N) (email : list Z) (display_name : option (list Z)) (role_id : option N)
| RemoveMember (t u : N)
| ListRoles (t : N)
| CreateRole (t : N) (name : list Z) (description : option (list Z)) (permissions : list (list Z))
| GetRole (t r : N)
| UpdateRole (t r : N) (name : list Z) (description : option (list Z)) (permissions : list (list Z))
| DeleteRole (t r : N)
| ListMemberRoles (t u : N)
| AssignRole (t u r : N)
| UnassignRole (t u r : N)
| MyPermissions (t : N)
| ListAuditEvents (t : N) (limit offset : option Z)
| ListServers (t : N)
| CreateServer (t : N) (name host : list Z) (ssh_port : option Z) (username : option (list Z))
| DeleteServer (t s : N)
| ListPending (t : N)
| CompleteRevocation (t r : N)
| ListApplications (t : N)
| PushApplication (t : N) (body : PushTeamApplicationRequest)
| RemoveApplication (t a : N)
| ListApplicationMembers (t a : N)
| AddApplicationMember (t a u : N) (permissions : list (list Z))
| SetMemberPermissions (t a u : N) (permissions : list (list Z))
| RemoveApplicationMember (t a u : N)
| PublishKey (public_key label : list Z)
| ListMine
| RevokeKey (k : N)
| ListTeamAccess (t : N).

(** A call without its answer. *)
Definition served {A} (m : M A) : M unit := m ;;; ret tt.

Section dispatch.
Context `{UnicodeCase, PasswordHashing, Base64}.

Definition dispatch (user_id : N) (c : Call) : M unit :=
  match c with
  | CreateTeam name => served (create_team user_id name)
  | ListTeams => served (list_teams user_id)
  | GetTeam t => served (get_team user_id t)
  | DeleteTeam t => served (delete_team user_id t)
  | ListMembers t => served (Teams.list_members user_id t)
  | AddMember t email => served (Teams.add_member user_id t email)
  | ProvisionMember t email name role => served (provision_member user_id t email name role)
  | RemoveMember t u => served (Teams.remove_member user_id t u)
  | ListRoles t => served (list_roles user_id t)
  | CreateRole t name desc ps => served (create_role user_id t name desc ps)
  | GetRole t r => served (get_role user_id t r)
  | UpdateRole t r name desc ps => served (update_role user_id t r name desc ps)
  | DeleteRole t r => served (delete_role user_id t r)
  | ListMemberRoles t u => served (list_member_roles user_id t u)
  | AssignRole t u r => served (assign_role user_id t u r)
  | UnassignRole t u r => served (unassign_role user_id t u r)
  | MyPermissions t => served (my_permissions user_id t)
  | ListAuditEvents t limit offset => served (list_audit_events user_id t limit offset)
  | ListServers t => served (list_servers user_id t)
  | CreateServer t name host port username => served (create_server user_id t name host port username)
  | DeleteServer t s => served (delete_server user_id t s)
  | ListPending t => served (list_pending user_id t)
  | CompleteRevocation t r => served (complete user_id t r)
  | ListApplications t => served (list_applications user_id t)
  | PushApplication t body => served (push_application user_id t body)
  | RemoveApplication t a => served (remove_application user_id t a)
  | ListApplicationMembers t a => served (TeamApplications.list_members user_id t a)
  | AddApplicationMember t a u ps => served (TeamApplications.add_member user_id t a u ps)
  | SetMemberPermissions t a u ps => served (set_member_permissions user_id t a u ps)
  | RemoveApplicationMember t a u => served (TeamApplications.remove_member user_id t a u)
  | PublishKey key label => served (publish user_id key label)
  | ListMine => served (list_mine user_id)
  | RevokeKey k => served (revoke user_id k)
  | ListTeamAccess t => served (list_team_access user_id t)
  end.
End dispatch.

(** ** Calls that do not touch access control *)

Definition keeps_abs {A} (m : M A) : Prop := forall w, abs (m w).2.(w_db) = abs w.(w_db).

(** A statement that leaves the access-control tables alone. *)
Definition keeps_stmt {A} (q : Stmt A) : Prop := forall d a d', q d = Ok (a, d') -> abs d' = abs d.

Create HintDb keeps.

Section keeps.
Context {A B : Type}.

Lemma keeps_ret (a : A) : keeps_abs (ret a).
Proof. by intros w. Qed.
Lemma keeps_throw e : keeps_abs (@throw A e).
Proof. by intros w. Qed.
Lemma keeps_lift (r : ApiResult A) : keeps_abs (lift r).
Proof. by intros w. Qed.
Lemma keeps_fail_if b e : keeps_abs (fail_if b e).
Proof. intros w. by destruct b. Qed.

Lemma keeps_bind (m : M A) (f : A -> M B) : keeps_abs m -> (forall a, keeps_abs (f a)) -> keeps_abs (bind m f).
Proof.
  intros Hm Hf w. unfold bind. specialize (Hm w). destruct (m w) as [[a|e] w']; simpl in *; [|done].
  by rewrite Hf.
Qed.

Lemma keeps_stmt_run (q : Stmt A) : keeps_stmt q -> keeps_abs (stmt q).
Proof.
  intros Hq w. unfold stmt. case_bool; [done|]. destruct (q (w_db w)) as [[a d]|e] eqn:E; [|done].
  simpl. by eapply Hq.
Qed.

Lemma keeps_question (r : result DbErr A) : keeps_abs (question r).
Proof. intros w. by destruct r. Qed.

Lemma keeps_transaction (m : M A) : keeps_abs m -> keeps_abs (transaction m).
Proof.
  intros Hm w. unfold transaction. case_bool; [done|]. specialize (Hm (bump w)).
  destruct (m (bump w)) as [[a|e] w']; simpl in *; [|done]. by case_bool.
Qed.

Lemma keeps_query (q : Db -> A) : keeps_stmt (query q).
Proof. by intros d a d' [= <- <-]. Qed.
End keeps.

Lemma keeps_exec {A} (q : Stmt A) : keeps_stmt q -> keeps_abs (exec q).
Proof. intros Hq. apply keeps_bind; [by apply keeps_stmt_run|intros; apply keeps_question]. Qed.

Lemma keeps_or_unique {A} (q : Stmt A) e : keeps_stmt q -> keeps_abs (or_unique q e).
Proof. intros Hq. apply keeps_bind; [by apply keeps_stmt_run|]. by intros [a|[]] w. Qed.

Lemma keeps_now : keeps_abs now.
Proof. by intros w. Qed.
Lemma keeps_new_v4 : keeps_abs new_v4.
Proof. by intros w. Qed.
#[export] Hint Resolve keeps_ret keeps_throw keeps_lift keeps_fail_if keeps_bind keeps_transaction keeps_query keeps_exec
  keeps_or_unique keeps_now keeps_new_v4 : keeps.

Ltac keeps_stmt_tac := let H := fresh in intros ? ? ? H; by stmt_inv H.

Lemma keeps_insert_audit_event id row : keeps_stmt (insert_audit_event id row).
Proof. keeps_stmt_tac. Qed.
Lemma keeps_insert_team_server id row : keeps_stmt (insert_team_server id row).
Proof. keeps_stmt_tac. Qed.
Lemma keeps_delete_team_server id t : keeps_stmt (delete_team_server id t).
Proof. keeps_stmt_tac. Qed.
Lemma keeps_complete_revocation id t n u : keeps_stmt (complete_revocation id t n u).
Proof. keeps_stmt_tac. Qed.
Lemma keeps_upsert_application id row : keeps_stmt (upsert_application id row).
Proof. keeps_stmt_tac. Qed.
Lemma keeps_delete_application id t : keeps_stmt (delete_application id t).
Proof. keeps_stmt_tac. Qed.
Lemma keeps_insert_application_member a u row : keeps_stmt (insert_application_member a u row).
Proof. keeps_stmt_tac. Qed.
Lemma keeps_update_member_permissions a t u ps : keeps_stmt (update_member_permissions a t u ps).
Proof. keeps_stmt_tac. Qed.
Lemma keeps_delete_application_member a t u : keeps_stmt (delete_application_member a t u).
Proof. keeps_stmt_tac. Qed.
Lemma keeps_upsert_device_key id row : keeps_stmt (upsert_device_key id row).
Proof. keeps_stmt_tac. Qed.
Lemma keeps_delete_device_key id u : keeps_stmt (delete_device_key id u).
Proof. keeps_stmt_tac. Qed.
#[export] Hint Resolve keeps_insert_audit_event keeps_insert_team_server keeps_delete_team_server keeps_complete_revocation
  keeps_upsert_application keeps_delete_application keeps_insert_application_member keeps_update_member_permissions
  keeps_delete_application_member keeps_upsert_device_key keeps_delete_device_key : keeps.

(** Proves [keeps_abs] of a handler by following its instructions. *)
Ltac keeps :=
  simpl; intros;
  lazymatch goal with
  | |- keeps_abs (exec _) => apply keeps_exec; auto with keeps
  | |- keeps_abs (or_unique _ _) => apply keeps_or_unique; auto with keeps
  | |- keeps_abs (bind _ _) => apply keeps_bind; keeps
  | |- keeps_abs (transaction _) => apply keeps_transaction; keeps
  | |- keeps_abs (match ?x with _ => _ end) => destruct x; keeps
  | |- keeps_abs _ => auto with keeps
  end.

Lemma keeps_team_for_member t u : keeps_abs (team_for_member t u).
Proof. unfold team_for_member. keeps. Qed.
Lemma keeps_authorize t u p : keeps_abs (authorize t u p).
Proof. unfold authorize. keeps. Qed.
Lemma keeps_ensure_can_grant t u ps : keeps_abs (ensure_can_grant t u ps).
Proof. unfold ensure_can_grant, effective_permissions. keeps. Qed.
Lemma keeps_audit_record t a act ty tid md : keeps_abs (audit_record t a act ty tid md).
Proof. unfold audit_record. keeps. Qed.
Lemma keeps_with_permissions r : keeps_abs (with_permissions r).
Proof. unfold with_permissions. keeps. Qed.
Lemma keeps_application_in_team t a : keeps_abs (application_in_team t a).
Proof. unfold application_in_team. keeps. Qed.
Lemma keeps_role_for_team t r : keeps_abs (role_for_team t r).
Proof. unfold role_for_team. keeps. Qed.
#[export] Hint Resolve keeps_role_for_team keeps_team_for_member keeps_authorize keeps_ensure_can_grant keeps_audit_record keeps_with_permissions
  keeps_application_in_team : keeps.
Lemma keeps_application_grant t a ps : keeps_abs (application_grant t a ps).
Proof. unfold application_grant. keeps. Qed.
#[export] Hint Resolve keeps_application_grant : keeps.

Lemma keeps_all_roles rows : keeps_abs ((fix go (rows : list Role) : M (list RoleWithPermissions) :=
     match rows with
     | [] => ret []
     | role :: rows => r <- with_permissions role ;; rest <- go rows ;; ret (r :: rest)
     end) rows).
Proof. induction rows as [|r rows IH]; keeps. Qed.
#[export] Hint Resolve keeps_all_roles : keeps.

(** ** The refinement of the whole API *)

(** [refines_late] of a call by [user_id], its answer dropped. *)
Lemma keeps_served {A} (m : M A) : keeps_abs m -> keeps_abs (served m).
Proof. intros Hm. unfold served. keeps. Qed.

Definition step_or_same (drawn : N -> Prop) (a : N) (s s' : Rbac.state) : Prop := s' = s \/ Rbac.step drawn a s s'.

Lemma keeps_dispatched {A} a (m : M A) w : keeps_abs m -> step_or_same (drawn w) a (abs w.(w_db)) (abs (served m w).2.(w_db)).
Proof. intros Hm. left. by apply keeps_served. Qed.

Lemma served_db {A} (m : M A) w : (served m w).2.(w_db) = (m w).2.(w_db).
Proof. unfold served, bind. by destruct (m w) as [[a|e] w']. Qed.

Lemma refines_dispatched {A} a (m : M A) w : refines a m -> step_or_same (drawn w) a (abs w.(w_db)) (abs (served m w).2.(w_db)).
Proof.
  intros Hm. specialize (Hm w). unfold wp in Hm. rewrite served_db.
  destruct (m w) as [[x|e] w']; simpl in *; [by right|left; congruence].
Qed.

Lemma refines_late_dispatched {A} a (m : M A) w : refines_late a m -> step_or_same (drawn w) a (abs w.(w_db)) (abs (served m w).2.(w_db)).
Proof.
  intros Hm. specialize (Hm w). unfold wp in Hm. rewrite served_db.
  destruct (m w) as [[x|e] w']; simpl in *; [by right|].
  destruct Hm as [->|Hm]; [by left|by right].
Qed.

Section theorems.
Context `{UnicodeCase, PasswordHashing, Base64}.

Lemma dispatch_refines a c w : step_or_same (drawn w) a (abs w.(w_db)) (abs (dispatch a c w).2.(w_db)).
Proof.
  destruct c;
    first
    [ apply refines_dispatched;
      solve [ auto using create_team_refines, delete_team_refines, add_member_refines, provision_member_refines,
                remove_member_refines, delete_role_refines, assign_role_refines, unassign_role_refines ]
    | apply refines_late_dispatched; solve [ auto using create_role_refines, update_role_refines ]
    | apply keeps_dispatched;
      unfold list_teams, get_team, Teams.list_members, list_roles, get_role, list_member_roles, my_permissions,
        effective_permissions, list_audit_events, list_servers, create_server, delete_server, list_pending, complete,
        list_applications, push_application, remove_application, TeamApplications.list_members,
        TeamApplications.add_member, set_member_permissions, TeamApplications.remove_member, publish, list_mine,
        revoke, list_team_access; solve [ keeps ] ].
Qed.

(** C2: The team API implements the access-control specification [Rbac]: a
    call by any user, in any world - whatever fails underneath - leaves the
    owners, members, roles, permissions and assignments as they were or makes
    one step the specification allows that user, under its guards. *)
Theorem team_api_refines_rbac a c w :
  abs (dispatch a c w).2.(w_db) = abs w.(w_db) \/ Rbac.step (drawn w) a (abs w.(w_db)) (abs (dispatch a c w).2.(w_db)).
Proof. apply dispatch_refines. Qed.

(** ** Histories

    Any number of calls, by users of [actors], each in any world whose tables
    are the ones the last call left.  None of them draws an identifier of
    [known] for something new: a random UUID is not the one of a team that
    exists or existed. *)

Inductive history (known actors : gset N) (d0 : Db) : Db -> Prop :=
| history_start : history known actors d0 d0
| history_call a c w :
    history known actors d0 w.(w_db) -> a ∈ actors -> (forall t, t ∈ known -> ~ drawn w t) ->
    history known actors d0 (dispatch a c w).2.(w_db).

Lemma history_run known actors d0 d :
  history known actors d0 d -> Rbac.run (fun x => x ∉ known) actors (abs d0) (abs d).
Proof.
  intros Hh. induction Hh as [|a c w Hh IH Ha Hd]; [constructor|].
  destruct (dispatch_refines a c w) as [->|Hs]; [done|].
  eapply Rbac.run_step; [exact IH|exact Ha|]. eapply Rbac.step_mono; [|exact Hs].
  intros x Hx Hk. by apply (Hd x).
Qed.

Lemma history_inv known actors d0 d : Rbac.inv (abs d0) -> history known actors d0 d -> Rbac.inv (abs d).
Proof. intros Hi Hh. eapply Rbac.inv_run; [exact Hi|]. by eapply history_run. Qed.

Lemma granted_one d t u p : granted_any d t u [p] = true <-> Rbac.holds (abs d) t u p.
Proof.
  rewrite granted_any_spec, abs_holds. split.
  - intros (p' & Hp & Hh). by apply list_elem_of_singleton in Hp as ->.
  - intros Hh. exists p. split; [set_solver|done].
Qed.

(** A database in which nobody has created a team yet. *)
Definition no_teams (d : Db) : Prop :=
  d.(teams) = ∅ /\ d.(team_members) = ∅ /\ d.(roles) = ∅ /\ d.(role_permissions) = ∅ /\ d.(member_roles) = ∅.

Lemma no_teams_inv d : no_teams d -> Rbac.inv (abs d).
Proof.
  intros (E1 & E2 & E3 & E4 & E5). replace (abs d) with Rbac.init; [apply Rbac.inv_init|].
  unfold abs, Rbac.init. by rewrite E1, E2, E3, E4, E5, !fmap_empty, dom_empty_L.
Qed.

(** ** Properties *)

(** C1: Nobody can be given, by any sequence of API calls of any users, a
    permission in a team that none of those users held in it at the start:
    however the calls interleave, fail or hit a lost connection, the
    permission check [authorize] answers yes afterwards only where it did
    before. *)
Theorem no_privilege_escalation t actors d0 d u p :
  Rbac.inv (abs d0) -> history {[ t ]} actors d0 d ->
  (forall a, a ∈ actors -> granted_any d0 t a [p] = false) ->
  granted_any d t u [p] = true -> granted_any d0 t u [p] = true.
Proof.
  intros Hi Hh Hno. rewrite !granted_one.
  eapply Rbac.run_no_escalation; [exact Hi|by apply (history_run {[ t ]} actors)|set_solver|].
  intros a Ha Hp. apply granted_one in Hp. by rewrite Hno in Hp.
Qed.

(** C3: Whatever calls are made, the owner of a team passes the check of every
    permission of the catalogue in it. *)
Theorem owner_keeps_every_permission actors d0 d t row p :
  no_teams d0 -> history ∅ actors d0 d ->
  d.(teams) !! t = Some row -> p ∈ ALL_PERMISSIONS ->
  granted_any d t row.(t_owner_id) [p] = true.
Proof.
  intros Hn Hh Ht Hp. apply granted_one. eapply Rbac.owner_holds_all; [|by apply abs_owner|done].
  eapply history_inv; [by apply no_teams_inv|done].
Qed.

(** Reading any history from a database without teams, a role held by a
    user in a team belongs to that very team and the user is a member of it;
    every stored permission is one of the catalogue; and every built-in role
    carries the whole catalogue. *)
Theorem roles_stay_well_formed actors d0 d :
  no_teams d0 -> history ∅ actors d0 d ->
  (forall t' u r, (t', u, r) ∈ d.(member_roles) ->
     is_Some (d.(team_members) !! (t', u)) /\ role_in_team d t' r = true) /\
  (forall r p, (r, p) ∈ d.(role_permissions) -> is_Some (d.(roles) !! r) /\ is_known_permission p = true) /\
  (forall r row p, d.(roles) !! r = Some row -> row.(r_is_system) = true -> is_known_permission p = true ->
     (r, p) ∈ d.(role_permissions)).
Proof.
  intros Hn Hh. assert (Hi : Rbac.inv (abs d)) by (eapply history_inv; [by apply no_teams_inv|done]).
  split_and!.
  - intros t' u r Hr. apply (Rbac.inv_assigned _ Hi) in Hr as [Hm [b Hb]].
    split; [by apply elem_of_dom|]. apply not_false_iff_true. rewrite role_in_team_abs, Hb. naive_solver.
  - intros r p Hr. apply (Rbac.inv_perms _ Hi) in Hr as [Hr Hp]. rewrite is_known_permission_spec.
    simpl in Hr. rewrite lookup_fmap in Hr. by apply fmap_is_Some in Hr.
  - intros r row p Hr Hs Hp. apply is_known_permission_spec in Hp. eapply (Rbac.inv_builtin _ Hi r); [|done].
    rewrite <-Hs. by apply abs_role.
Qed.
End theorems.

(** ** Witnesses *)

Definition after (a : N) (c : Call) (w : World) : Db := (dispatch a c w).2.(w_db).

Lemma history_after known actors d0 a c d base :
  history known actors d0 d -> a ∈ actors -> (forall t, t ∈ known -> (t < base)%N) ->
  history known actors d0 (after a c (world d base)).
Proof.
  intros Hh Ha Ht. apply (history_call known actors d0 a c (world d base)); [exact Hh|exact Ha|].
  intros t Hk. by apply world_draws_from, Ht.
Qed.

(** Ann's team, number 1000, with Bob in it. *)
Definition team_of_ann : Db := after ann (CreateTeam (lit "Ops")) (world people 1000).
Definition ann_and_bob : Db := after ann (AddMember 1000 (lit "bob@x.pl")) (world team_of_ann 2000).

Lemma people_no_teams : no_teams people.
Proof. unfold no_teams. split_and!; reflexivity. Qed.

Lemma ann_and_bob_history : history ∅ {[ ann ]} people ann_and_bob.
Proof. apply history_after; [apply history_after; [constructor| |]| |]; set_solver. Qed.

Lemma ann_and_bob_inv : Rbac.inv (abs ann_and_bob).
Proof. eapply history_inv; [apply no_teams_inv, people_no_teams|apply ann_and_bob_history]. Qed.

(** Bob, a member without a role, tries to make himself one that deletes the team. *)
Definition bob_tries : Db := after bob (CreateRole 1000 (lit "mine") None [TEAM_DELETE]) (world ann_and_bob 3000).

Lemma no_privilege_escalation_witness :
  granted_any bob_tries 1000 ann [TEAM_DELETE] = true /\ granted_any ann_and_bob 1000 ann [TEAM_DELETE] = true.
Proof.
  assert (granted_any bob_tries 1000 ann [TEAM_DELETE] = true) by (vm_compute; reflexivity).
  split; [assumption|].
  apply (no_privilege_escalation 1000 {[ bob ]} ann_and_bob bob_tries ann TEAM_DELETE).
  - apply ann_and_bob_inv.
  - apply history_after; [constructor|set_solver|]. intros t Ht. apply elem_of_singleton in Ht as ->. reflexivity.
  - intros a Ha. apply elem_of_singleton in Ha as ->. vm_compute. reflexivity.
  - assumption.
Defined.

Lemma owner_keeps_every_permission_witness :
  exists row, ann_and_bob.(teams) !! 1000%N = Some row /\ granted_any ann_and_bob 1000 row.(t_owner_id) [TEAM_DELETE] = true.
Proof.
  eexists. split; [vm_compute; reflexivity|].
  apply (owner_keeps_every_permission {[ ann ]} people ann_and_bob 1000).
  - apply people_no_teams.
  - apply ann_and_bob_history.
  - vm_compute. reflexivity.
  - apply is_known_permission_spec. vm_compute. reflexivity.
Defined.

Lemma roles_stay_well_formed_witness : (1000%N, ann, 1005%N) ∈ ann_and_bob.(member_roles) /\ role_in_team ann_and_bob 1000 1005 = true.
Proof.
  assert (Hin : (1000%N, ann, 1005%N) ∈ ann_and_bob.(member_roles)) by (apply (bool_decide_unpack _); vm_compute; exact I).
  split; [exact Hin|]. destruct (roles_stay_well_formed {[ ann ]} people ann_and_bob people_no_teams ann_and_bob_history) as [Hr _].
  exact (proj2 (Hr _ _ _ Hin)).
Defined.
