(* ===== verification/Journal.v ===== *)
(** * Journal: every change of a team is recorded with it

    For each call of [Access.dispatch] that changes a team, deleting one
    aside, a success adds exactly one audit event, by the caller and about
    that team, and a failure changes nothing - except that the two role
    handlers that read the role back after the commit may fail with the
    change, and its event, already made. *)

From S2P Require Import Prelude Text Db Api Permissions Rbac Authorize Membership Accounts Teams Roles RbacRefinement TeamServers TeamApplications DeviceKeys Sample Access.

#[local] Open Scope Z_scope.

(** The team a call changes, when the change is one the audit log records. *)
Definition changes_team (c : Call) : option N :=
  match c with
  | AddMember t _ | ProvisionMember t _ _ _ | RemoveMember t _
  | CreateRole t _ _ _ | UpdateRole t _ _ _ _ | DeleteRole t _ | AssignRole t _ _ | UnassignRole t _ _
  | CreateServer t _ _ _ _ | DeleteServer t _ | CompleteRevocation t _
  | PushApplication t _ | RemoveApplication t _ | AddApplicationMember t _ _ _ | SetMemberPermissions t _ _ _
  | RemoveApplicationMember t _ _ => Some t
  | _ => None
  end.

(** One event more, by [a] about [t]. *)
Definition logged (a t : N) (d d' : Db) : Prop :=
  exists id ev, d.(audit_events) !! id = None /\ d'.(audit_events) = <[id := ev]> d.(audit_events)
    /\ ev.(ae_team_id) = t /\ ev.(ae_actor_id) = Some a /\ ev.(ae_result) = lit "success".

(** Done and logged, or not done at all. *)
Definition logs {A} (a t : N) (m : M A) : Prop := forall w,
  wp m (fun r w' => match r with Ok _ => logged a t w.(w_db) w'.(w_db) | Err _ => w'.(w_db) = w.(w_db) end) w.

(** As [logs], but a failure may come after the change. *)
Definition logs_late {A} (a t : N) (m : M A) : Prop := forall w,
  wp m (fun r w' => match r with
                    | Ok _ => logged a t w.(w_db) w'.(w_db)
                    | Err _ => w'.(w_db) = w.(w_db) \/ logged a t w.(w_db) w'.(w_db)
                    end) w.

Lemma audited_logged t a act ty tid md d0 d d' :
  d.(audit_events) = d0.(audit_events) -> audited t a act ty tid md d d' -> logged a t d0 d'.
Proof.
  intros He (id & ts & Hn & ->). rewrite He in *. eexists id, _. split_and!; done.
Qed.

(** What each statement of these handlers leaves of the log. *)
Definition keeps_log {A} (q : Stmt A) : Prop := forall d x d', q d = Ok (x, d') -> d'.(audit_events) = d.(audit_events).

Ltac keeps_log_tac := let H := fresh in intros ? ? ? H; by stmt_inv H.

Lemma log_insert_team_member t u j : keeps_log (insert_team_member t u j). Proof. keeps_log_tac. Qed.
Lemma log_delete_pending t u : keeps_log (delete_pending_revocations t u). Proof. keeps_log_tac. Qed.
Lemma log_insert_user id r : keeps_log (insert_user id r). Proof. keeps_log_tac. Qed.
Lemma log_insert_member_role t u r : keeps_log (insert_member_role t u r). Proof. keeps_log_tac. Qed.
Lemma log_delete_team_member t u : keeps_log (delete_team_member t u). Proof. keeps_log_tac. Qed.
Lemma log_query_one {A} (q : Db -> option A) : keeps_log (query_one q).
Proof. intros d x d' H. by apply query_one_inv in H as [_ ->]. Qed.
Lemma log_insert_role id r : keeps_log (insert_role id r). Proof. keeps_log_tac. Qed.
Lemma log_update_role_row r n d t : keeps_log (update_role_row r n d t). Proof. keeps_log_tac. Qed.
Lemma log_delete_role_row r : keeps_log (delete_role_row r). Proof. keeps_log_tac. Qed.
Lemma log_delete_role_permissions r : keeps_log (delete_role_permissions r). Proof. keeps_log_tac. Qed.
Lemma log_delete_member_role t u r : keeps_log (delete_member_role t u r). Proof. keeps_log_tac. Qed.
Lemma log_insert_team_server i r : keeps_log (insert_team_server i r). Proof. keeps_log_tac. Qed.
Lemma log_delete_team_server i r : keeps_log (delete_team_server i r). Proof. keeps_log_tac. Qed.
Lemma log_complete_revocation i t n b : keeps_log (complete_revocation i t n b). Proof. keeps_log_tac. Qed.
Lemma log_upsert_application i r : keeps_log (upsert_application i r). Proof. keeps_log_tac. Qed.
Lemma log_delete_application i t : keeps_log (delete_application i t). Proof. keeps_log_tac. Qed.
Lemma log_insert_application_member a u r : keeps_log (insert_application_member a u r). Proof. keeps_log_tac. Qed.
Lemma log_update_member_permissions a t u p : keeps_log (update_member_permissions a t u p). Proof. keeps_log_tac. Qed.
Lemma log_delete_application_member a t u : keeps_log (delete_application_member a t u). Proof. keeps_log_tac. Qed.
Create HintDb log.
#[export] Hint Resolve log_insert_team_member log_delete_pending log_insert_user log_insert_member_role log_delete_team_member
  log_query_one log_insert_role log_update_role_row log_delete_role_row log_delete_role_permissions log_delete_member_role
  log_insert_team_server log_delete_team_server log_complete_revocation log_upsert_application log_delete_application
  log_insert_application_member log_update_member_permissions log_delete_application_member : log.

(** The log the statements that ran left, as a chain of equations. *)
Ltac log_facts :=
  repeat match goal with
  | H : ?q ?d = Ok (?x, ?d') |- _ =>
      let K := fresh "K" in assert (K : keeps_log q) by auto with log;
      apply K in H; clear K
  end.

Ltac logged_tac :=
  match goal with Hat : at_db _ _ ?w |- _ => rewrite (at_db_db _ _ _ Hat); clear Hat end;
  log_facts; simpl in *;
  match goal with H : audited _ _ _ _ _ _ _ _ |- _ => eapply audited_logged; [|exact H] end; simpl in *; congruence.

Lemma wpa_application_grant w0 d w t a ps (Q : ApiResult (list (list Z)) -> World -> Prop) :
  at_db w0 d w -> (forall w' e, at_db w0 d w' -> Q (Err e) w') ->
  (forall w', at_db w0 d w' -> (forall p, p ∈ ps -> p ∈ APPLICATION_SCOPED) ->
     (forall p, p ∈ dedup (sort ps) -> holds_perm d t a p) -> Q (Ok (dedup (sort ps))) w') ->
  wp (application_grant t a ps) Q w.
Proof.
  intros Hat He Ho. unfold application_grant. destruct (find_first _ ps) as [k|] eqn:E; [apply wp_throw; eauto|].
  wp_step. wp_step. apply Ho; [done| |done]. rewrite find_first_None in E. intros p Hp. specialize (E p Hp).
  apply negb_false_iff in E. by apply bool_decide_eq_true in E.
Qed.

Lemma wpa_application_in_team w0 d w t x (Q : ApiResult unit -> World -> Prop) :
  at_db w0 d w -> (forall w' e, at_db w0 d w' -> Q (Err e) w') ->
  (forall w', at_db w0 d w' -> application_row_in_team d t x = true -> Q (Ok tt) w') ->
  wp (application_in_team t x) Q w.
Proof. intros Hat He Ho. unfold application_in_team. do 2 wp_step. row_facts. auto. Qed.

Ltac wp_app :=
  lazymatch goal with
  | |- wp (bind _ _) _ _ => apply wp_bind; wp_app
  | Hat : at_db ?w0 ?d ?w |- wp (application_grant _ _ _) _ ?w =>
      apply (wpa_application_grant w0 d w _ _ _ _ Hat); clear Hat; [intros ? ? Hat; try wp_err|intros ? Hat ? ?]
  | Hat : at_db ?w0 ?d ?w |- wp (application_in_team _ _) _ ?w =>
      apply (wpa_application_in_team w0 d w _ _ _ Hat); clear Hat; [intros ? ? Hat; try wp_err|intros ? Hat ?]
  | Hat : at_db ?w0 ?d ?w |- wp (record_for_removed_member _ _ _ _) _ ?w =>
      apply (wpa_record_for_removed_member w0 d w _ _ _ _ _ Hat); clear Hat; [intros ? ? Hat; try wp_err|intros ? ? ? Hat]
  | |- wp _ _ _ => wp_more
  end.

Section handlers.
Context `{UnicodeCase, PasswordHashing, Base64}.

(** The handler ran its transaction to the end. *)
Ltac log_handler := intros w; pose proof (at_db_refl w) as Hat; repeat wp_app; commit; repeat wp_app; logged_tac.

Lemma add_member_logs a t email : logs a t (Teams.add_member a t email).
Proof. unfold Teams.add_member, cancel_for_returning_member. log_handler. Qed.

Lemma provision_member_logs a t email name ro : logs a t (provision_member a t email name ro).
Proof. unfold provision_member. destruct ro; log_handler. Qed.

Lemma remove_member_logs a t u : logs a t (Teams.remove_member a t u).
Proof. unfold Teams.remove_member. log_handler. Qed.

Lemma delete_role_logs a t r : logs a t (delete_role a t r).
Proof. unfold delete_role. log_handler. Qed.

Lemma assign_role_logs a t u r : logs a t (assign_role a t u r).
Proof. unfold assign_role. log_handler. Qed.

Lemma unassign_role_logs a t u r : logs a t (unassign_role a t u r).
Proof. unfold unassign_role. log_handler. Qed.

Lemma create_server_logs a t n h p u : logs a t (create_server a t n h p u).
Proof. unfold create_server. log_handler. Qed.

Lemma delete_server_logs a t s : logs a t (delete_server a t s).
Proof. unfold delete_server. log_handler. Qed.

Lemma remove_application_logs a t x : logs a t (remove_application a t x).
Proof. unfold remove_application. log_handler. Qed.

Lemma app_add_member_logs a t x u ps : logs a t (TeamApplications.add_member a t x u ps).
Proof. unfold TeamApplications.add_member. log_handler. Qed.

Lemma set_member_permissions_logs a t x u ps : logs a t (set_member_permissions a t x u ps).
Proof. unfold set_member_permissions. log_handler. Qed.

Lemma app_remove_member_logs a t x u : logs a t (TeamApplications.remove_member a t x u).
Proof. unfold TeamApplications.remove_member. log_handler. Qed.

Lemma complete_logs a t r : logs a t (complete a t r).
Proof.
  unfold complete. intros w; pose proof (at_db_refl w) as Hat. do 4 wp_app. wp_app. wp_app.
  match goal with x : (list Z * list Z)%type |- _ => destruct x as [account email] end.
  repeat wp_app; commit; repeat wp_app; logged_tac.
Qed.

Lemma push_application_logs a t body : logs a t (push_application a t body).
Proof. unfold push_application. log_handler. Qed.

Lemma wp_read_back_logs {A} a t w0 d w role (f : RoleWithPermissions -> A) :
  at_db w0 d w -> logged a t w0.(w_db) d ->
  wp (rwp <- with_permissions role ;; ret (f rwp))
    (fun r w' => match r with
                 | Ok _ => logged a t w0.(w_db) w'.(w_db)
                 | Err _ => w'.(w_db) = w0.(w_db) \/ logged a t w0.(w_db) w'.(w_db)
                 end) w.
Proof.
  intros Hat Hl. apply wp_bind, (wpa_with_permissions w0 d w _ _ Hat). intros w' [x|e] Hat'; [apply wp_ret|right];
    by rewrite (at_db_db _ _ _ Hat').
Qed.

Lemma late_keeps a t w0 w : at_db w0 w0.(w_db) w -> w.(w_db) = w0.(w_db) \/ logged a t w0.(w_db) w.(w_db).
Proof. intros Hk. left. by eapply at_db_db. Qed.
#[local] Hint Resolve late_keeps : vibe.

Ltac log_facts_only := log_facts; simpl in *;
  match goal with H : audited _ _ _ _ _ _ _ _ |- _ => eapply audited_logged; [|exact H] end; simpl in *; congruence.

Lemma create_role_logs a t n d ps : logs_late a t (create_role a t n d ps).
Proof.
  intros w. pose proof (at_db_refl w) as Hat. unfold create_role. repeat wp_app. commit.
  eapply wp_read_back_logs; [exact Hat|]. log_facts_only.
Qed.

Lemma update_role_logs a t r n d ps : logs_late a t (update_role a t r n d ps).
Proof.
  intros w. pose proof (at_db_refl w) as Hat. unfold update_role, replace_role_permissions. repeat wp_app. commit.
  rewrite <-(wp_bind_ret (with_permissions _)). eapply wp_read_back_logs; [exact Hat|]. log_facts_only.
Qed.

Lemma served_ok {A} (m : M A) w : is_ok (served m w).1 = is_ok (m w).1.
Proof. unfold served, bind. by destruct (m w) as [[a|e] w']. Qed.

Lemma logs_served {A} a t (m : M A) w : logs_late a t m ->
  if is_ok (served m w).1 then logged a t w.(w_db) (served m w).2.(w_db)
  else (served m w).2.(w_db) = w.(w_db) \/ logged a t w.(w_db) (served m w).2.(w_db).
Proof.
  intros Hm. rewrite served_ok, served_db. specialize (Hm w). unfold wp in Hm. by destruct (m w) as [[x|e] w'].
Qed.

Lemma logs_logs_late {A} a t (m : M A) : logs a t m -> logs_late a t m.
Proof. intros Hm w. eapply wp_mono; [apply Hm|]. intros [x|e] w' Hr; [done|by left]. Qed.

(** C5: An action and its audit event are one: a call that changes an existing
    team, other than deleting it, succeeds only with exactly one new audit event,
    by the caller and about that team, and a call that fails either left every
    table as it was or, when only reading the role back failed, made the change
    with its event.  (Deleting a team writes no event, since the team's events go
    with it; making one is not a call on an existing team.) *)
Theorem change_and_log_are_one a c t w :
  changes_team c = Some t ->
  if is_ok (dispatch a c w).1 then logged a t w.(w_db) (dispatch a c w).2.(w_db)
  else (dispatch a c w).2.(w_db) = w.(w_db) \/ logged a t w.(w_db) (dispatch a c w).2.(w_db).
Proof.
  intros Hc. destruct c; simpl in Hc; try done; injection Hc as ->; apply logs_served;
    first [ apply logs_logs_late; solve [ auto using add_member_logs, provision_member_logs, remove_member_logs, delete_role_logs,
              assign_role_logs, unassign_role_logs, create_server_logs, delete_server_logs, complete_logs, push_application_logs,
              remove_application_logs, app_add_member_logs, set_member_permissions_logs, app_remove_member_logs ]
          | solve [ auto using create_role_logs, update_role_logs ] ].
Qed.
End handlers.

Definition bob_added (w : World) : ApiResult unit * World := dispatch ann (AddMember 1000 (lit "bob@x.pl")) w.

Lemma change_and_log_are_one_witness :
  logged ann 1000 (world team_of_ann 2000).(w_db) (bob_added (world team_of_ann 2000)).2.(w_db).
Proof.
  assert (E : is_ok (bob_added (world team_of_ann 2000)).1 = true) by (vm_compute; reflexivity).
  pose proof (change_and_log_are_one ann (AddMember 1000 (lit "bob@x.pl")) 1000 (world team_of_ann 2000) eq_refl) as H.
  fold (bob_added (world team_of_ann 2000)) in H. rewrite E in H. exact H.
Defined.
