(* ===== verification/Offboarding.v ===== *)
(** * Offboarding: what is owed on the Nodes when a member leaves

    Theorems about [teams::remove_member], [teams::add_member] and
    [revocations::complete]: removing a member leaves a pending revocation on
    every server the team shares, taking them back cancels what is pending,
    and a revocation is completed once. *)

From S2P Require Import Prelude Text Db Api Permissions Rbac Authorize Membership Accounts Teams Roles RbacRefinement TeamServers TeamApplications DeviceKeys Sample Access.

#[local] Open Scope Z_scope.

(** A removal is owed on server [s] for user [u]. *)
Definition owed (d : Db) (s u : N) : Prop :=
  exists id r, d.(node_revocations) !! id = Some r /\ r.(nr_team_server_id) = s /\ r.(nr_user_id) = u /\ r.(nr_completed_at) = None.

Lemma revocation_pending_owed d s u : revocation_pending d s u = true <-> owed d s u.
Proof.
  unfold revocation_pending, owed. rewrite any_row_true. split.
  - intros (id & r & Hr & Hp). row_facts. apply N.eqb_eq in H1, H. eauto 10.
  - intros (id & r & Hr & <- & <- & Hc). exists id, r. split; [done|]. rewrite !N.eqb_refl. simpl. by apply bool_decide_eq_true.
Qed.

(** The random identifiers of a world are all different and none is in use. *)
Definition fresh_uuids (orc : Oracle) (d : Db) : Prop :=
  (forall i j, o_uuid orc i = o_uuid orc j -> i = j) /\ (forall i, d.(node_revocations) !! o_uuid orc i = None).

(** Every revocation of [d] is still there in [d'], as it was. *)
Definition keeps_revocations (d d' : Db) : Prop :=
  forall k r, d.(node_revocations) !! k = Some r -> d'.(node_revocations) !! k = Some r.

Section insert.
Context (ids : nat -> N) (row : N -> NodeRevocationRow) (u : N).
Hypothesis Hrow : forall s, (row s).(nr_team_server_id) = s /\ (row s).(nr_user_id) = u /\ (row s).(nr_completed_at) = None.
Hypothesis Hinj : forall i j, ids i = ids j -> i = j.

(** Every revocation of [d'] is one of [d] or the new row of one of [servers]. *)
Definition adds_rows (servers : list N) (d d' : Db) : Prop :=
  forall k r, d'.(node_revocations) !! k = Some r -> d.(node_revocations) !! k = Some r \/ exists s, s ∈ servers /\ r = row s.

Lemma insert_revocation_owed id s d n d' :
  insert_revocation id (row s) d = Ok (n, d') -> d.(node_revocations) !! id = None ->
  owed d' s u /\ keeps_revocations d d' /\ adds_rows [s] d d'
  /\ (forall k, k <> id -> d'.(node_revocations) !! k = d.(node_revocations) !! k).
Proof.
  intros H Hn. unfold insert_revocation in H. destruct (Hrow s) as (R1 & R2 & R3). rewrite R1, R2 in H.
  assert (E : exists_row d.(node_revocations) id = false) by (by apply exists_row_false). rewrite E in H. simpl in H.
  destruct (revocation_pending d s u) eqn:Ep.
  - injection H as <- <-. split; [by apply revocation_pending_owed|]. split; [intros k r Hk; exact Hk|]. split; [intros k r Hk; by left|done].
  - case_bool; [done|]. injection H as <- <-. unfold keeps_revocations, adds_rows. simpl. repeat apply conj.
    + exists id, (row s). simpl. rewrite lookup_insert_eq. done.
    + intros k r Hk. rewrite lookup_insert_ne; [done|]. congruence.
    + intros k r Hk. apply lookup_insert_Some in Hk as [[_ <-]|[_ Hk]]; [|by left]. right. exists s. split; [set_solver|done].
    + intros k Hk. by rewrite lookup_insert_ne.
Qed.

Lemma owed_mono d d' s : keeps_revocations d d' -> owed d s u -> owed d' s u.
Proof. intros Hm (id & r & Hr & Hx). exists id, r. split; [by apply Hm|done]. Qed.

Lemma insert_revocations_owed servers : forall i d n d',
  insert_revocations ids row i servers d = Ok (n, d') ->
  (forall j, (i <= j)%nat -> d.(node_revocations) !! ids j = None) ->
  (forall s, s ∈ servers -> owed d' s u) /\ keeps_revocations d d' /\ adds_rows servers d d'.
Proof.
  induction servers as [|s servers IH]; intros i d n d' H Hf; simpl in H.
  - injection H as <- <-. split; [set_solver|]. split; [intros k r Hk; exact Hk|intros k r Hk; by left].
  - destruct (insert_revocation (ids i) (row s) d) as [[n1 d1]|] eqn:E1; [|done].
    destruct (insert_revocations ids row (S i) servers d1) as [[n2 d2]|] eqn:E2; [|done]. injection H as <- <-.
    destruct (insert_revocation_owed _ _ _ _ _ E1 (Hf i ltac:(lia))) as (O1 & M1 & A1 & K1).
    assert (Hf1 : forall j, (S i <= j)%nat -> d1.(node_revocations) !! ids j = None).
    { intros j Hj. rewrite K1; [apply Hf; lia|]. intros E. apply Hinj in E. lia. }
    destruct (IH _ _ _ _ E2 Hf1) as (O2 & M2 & A2). repeat apply conj.
    + intros s' Hs. apply elem_of_cons in Hs as [->|Hs]; [|by apply O2]. by eapply owed_mono.
    + intros k r Hk. by apply M2, M1.
    + intros k r Hk. destruct (A2 k r Hk) as [Hk1|(s' & Hs & ->)]; [|right; exists s'; set_solver].
      destruct (A1 k r Hk1) as [Hk0|(s' & Hs & ->)]; [by left|right; exists s'; set_solver].
Qed.
End insert.

Lemma elem_of_servers_of_team d t s : s ∈ servers_of_team d t <-> server_in_team d t s = true.
Proof.
  unfold servers_of_team, server_in_team. rewrite list_elem_of_In, List.in_map_iff. split.
  - intros ([k r] & <- & Hin). apply List.filter_In in Hin as [Hin Ht]. simpl in *.
    apply list_elem_of_In, elem_of_map_to_list in Hin. by rewrite Hin.
  - intros Hs. destruct (team_servers d !! s) as [r|] eqn:E; [|done]. exists (s, r). split; [done|].
    apply List.filter_In. split; [|done]. by apply list_elem_of_In, elem_of_map_to_list.
Qed.

(** The row [record_for_removed_member] writes for server [s]: it names the
    login of [u] on the Nodes and the member's address, and who asked. *)
Definition revocation_row (t s u : N) (email : list Z) (requested_by : N) (ts : Z) : NodeRevocationRow :=
  mkNodeRevocation t s u (node_username u) email ts (Some requested_by) None None.

(** The revocations are those of [d], unchanged, and rows asked for by [a]
    now, one for each server of team [t] on which none was pending for [u]. *)
Definition revocations_of (a t u : N) (email : list Z) (d d' : Db) : Prop :=
  (forall s, server_in_team d t s = true -> owed d' s u)
  /\ keeps_revocations d d'
  /\ exists ts, forall id r, d'.(node_revocations) !! id = Some r ->
       d.(node_revocations) !! id = Some r \/ exists s, server_in_team d t s = true /\ r = revocation_row t s u email a ts.

Section removal.
Implicit Types (w : World).

(** What [record_for_removed_member] leaves. *)
Lemma wpa_record_owed w0 d w t u email by_ (Q : ApiResult Z -> World -> Prop) :
  at_db w0 d w -> fresh_uuids w0.(w_orc) d ->
  (forall w' e, at_db w0 d w' -> Q (Err e) w') ->
  (forall w' n x, at_db w0 (set_node_revocations x d) w' ->
     revocations_of by_ t u email d (set_node_revocations x d) -> Q (Ok n) w') ->
  wp (record_for_removed_member t u email by_) Q w.
Proof.
  intros Hat [Hi Hf] He Ho. unfold record_for_removed_member. wp_step. wp_step. wp_step.
  match goal with Hx : exists n, forall i, ids i = _ |- _ => destruct Hx as [k Hk] end.
  match goal with Hx : insert_revocations _ _ _ _ _ = _ |- _ => pose proof Hx as Hins; apply insert_revocations_frame in Hx as [x ->] end.
  eapply insert_revocations_owed with (u := u) in Hins as (Hown & Hkeep & Hadd).
  - eapply Ho; [exact Hat|]. split_and!; [|exact Hkeep|].
    + intros s Hs. apply Hown. by apply elem_of_servers_of_team.
    + eexists. intros id r Hr. destruct (Hadd id r Hr) as [Hold|(s & Hs & ->)]; [by left|]. right. exists s.
      apply elem_of_servers_of_team in Hs. done.
  - done.
  - intros i j E. rewrite !Hk in E. apply Hi in E. lia.
  - intros j _. rewrite Hk. apply Hf.
Qed.

(** User [u] left team [t] at the request of [a]. *)
Definition removed (a t u : N) (d d' : Db) : Prop :=
  d'.(team_members) !! (t, u) = None
  /\ (forall r, (t, u, r) ∉ d'.(member_roles))
  /\ (forall ap, d'.(application_members) !! (ap, u) = None \/ exists am, d'.(application_members) !! (ap, u) = Some am /\ am.(am_team_id) <> t)
  /\ exists user, d.(users) !! u = Some user /\ revocations_of a t u user.(u_email) d d'.

Lemma remove_member_spec a t u w :
  fresh_uuids w.(w_orc) w.(w_db) ->
  wp (Teams.remove_member a t u) (fun r w' => match r with Ok _ => removed a t u w.(w_db) w'.(w_db) | Err _ => w'.(w_db) = w.(w_db) end) w.
Proof.
  intros Hf. pose proof (at_db_refl w) as Hat. unfold Teams.remove_member.
  do 4 wp_more. repeat wp_more.
  match goal with Hx : query_one _ _ = _ |- _ => apply query_one_inv in Hx as [Hu ->] end.
  match goal with Hx : delete_team_member _ _ _ = _ |- _ => stmt_inv Hx end; [|done].
  apply wp_bind, (wpa_record_owed w _ _ _ _ _ _ _ Hat); [exact Hf|intros; wp_err|]. clear Hat. intros w2 n x Hat Ho.
  repeat wp_more. commit. wp_more. rewrite (at_db_db _ _ _ Hat).
  match goal with Hx : audited _ _ _ _ _ _ _ _ |- _ => destruct Hx as (id & ts & _ & ->) end.
  apply fmap_Some in Hu as (user & Hu & ->). unfold removed. simpl. split_and!.
  - by rewrite lookup_delete_eq.
  - intros r [Hne _]%elem_of_filter. by apply Hne.
  - intros ap. destruct (filter _ _ !! (ap, u)) as [am|] eqn:E; [|by left]. right. exists am. split; [done|].
    apply map_lookup_filter_Some in E as [_ Hne]. simpl in Hne. congruence.
  - exists user. split; [exact Hu|exact Ho].
Qed.
End removal.

(** C4: When removing a member succeeds, that user is no longer a member of the
    team, holds none of its roles and none of its applications and passes none
    of its permission checks.  On every server the team shares a removal of
    their account is pending; every revocation that was there is still there,
    unchanged, and a new one is for a server of the team and names exactly
    that member's Node login and address and the caller who asked.  (On a
    server on which a removal of that member was pending already, the older
    row stays and no second one is written.) *)
Theorem removed_member_is_owed_removal a t u w s w' :
  fresh_uuids w.(w_orc) w.(w_db) ->
  Teams.remove_member a t u w = (Ok s, w') ->
  removed a t u w.(w_db) w'.(w_db) /\ (forall p, granted_any w'.(w_db) t u [p] = false).
Proof.
  intros Hf Hr. pose proof (remove_member_spec a t u w Hf) as Hs. unfold wp in Hs. rewrite Hr in Hs. simpl in Hs.
  split; [done|]. intros p. apply not_true_iff_false. rewrite granted_one. intros (r & Hin & _).
  destruct Hs as (_ & Hno & _). by apply (Hno r).
Qed.

(** What taking a member back leaves. *)
Definition returned (t : N) (d d' : Db) : Prop :=
  exists u, is_Some (d'.(team_members) !! (t, u)) /\ d.(team_members) !! (t, u) = None
    /\ (forall id r, d'.(node_revocations) !! id = Some r -> r.(nr_team_id) = t -> r.(nr_user_id) = u -> is_Some r.(nr_completed_at)).

Lemma add_member_returns `{UnicodeCase} a t email w :
  wp (Teams.add_member a t email) (fun r w' => match r with Ok _ => returned t w.(w_db) w'.(w_db) | Err _ => True end) w.
Proof.
  pose proof (at_db_refl w) as Hat. unfold Teams.add_member, cancel_for_returning_member. repeat wp_more. commit. wp_more.
  rewrite (at_db_db _ _ _ Hat). match goal with Hx : audited _ _ _ _ _ _ _ _ |- _ => destruct Hx as (id & ts & _ & ->) end.
  inv_stmts. eexists. simpl. split_and!; [rewrite lookup_insert_eq; eauto|eassumption|].
  intros id' r Hr Ht Hu. apply map_lookup_filter_Some in Hr as [Hr Hg]. simpl in Hg. rewrite Ht, Hu, !N.eqb_refl in Hg. simpl in Hg.
  row_facts. destruct (nr_completed_at r); [eauto|done].
Qed.

(** When a member is added back, nothing is pending on the team's servers
    for them any more: no later sync takes away the account they were just
    given. *)
Theorem returning_member_is_owed_nothing `{UnicodeCase} a t email w s w' :
  Teams.add_member a t email w = (Ok s, w') -> returned t w.(w_db) w'.(w_db).
Proof. intros Hr. pose proof (add_member_returns a t email w) as Hs. unfold wp in Hs. by rewrite Hr in Hs. Qed.

(** ** Completing *)

(** [id] was pending on team [t] and is completed now, by [a]; no other
    revocation changed. *)
Definition completed (a t id : N) (d d' : Db) : Prop :=
  exists r now, d.(node_revocations) !! id = Some r /\ r.(nr_team_id) = t /\ r.(nr_completed_at) = None
    /\ d'.(node_revocations) = <[id := mkNodeRevocation r.(nr_team_id) r.(nr_team_server_id) r.(nr_user_id) r.(nr_node_username)
         r.(nr_email) r.(nr_requested_at) r.(nr_requested_by) (Some now) (Some a)]> d.(node_revocations).

Lemma complete_spec a t id w :
  wp (complete a t id) (fun r w' => match r with
    | Ok _ => completed a t id w.(w_db) w'.(w_db) /\ holds_perm w.(w_db) t a SERVERS_MANAGE
    | Err _ => w'.(w_db) = w.(w_db) end) w.
Proof.
  pose proof (at_db_refl w) as Hat. unfold complete. do 5 wp_more. wp_more.
  match goal with x : (list Z * list Z)%type |- _ => destruct x as [account email] end.
  repeat wp_more. commit. wp_more. rewrite (at_db_db _ _ _ Hat).
  match goal with Hx : audited _ _ _ _ _ _ _ _ |- _ => destruct Hx as (eid & ts & _ & ->) end.
  match goal with Hx : complete_revocation _ _ _ _ _ = Ok (?row, _), Ho : ok_or ?row _ = Ok _ |- _ =>
    destruct row as [p|]; [|done]; unfold complete_revocation in Hx; rename Hx into Hc end.
  destruct (node_revocations (w_db w) !! id) as [r|] eqn:Er; [|done].
  destruct ((nr_team_id r =? t)%N && bool_decide (nr_completed_at r = None)) eqn:Eb; [|done].
  case_bool; [done|]. injection Hc as _ <-. apply andb_true_iff in Eb as [Et%N.eqb_eq En%bool_decide_eq_true]. split; [|done]. eexists r, _. simpl. split_and!; done.
Qed.

(** A revocation is marked done once, only while it is pending on that
    team, and only by a member who may manage its servers: marking it again is
    refused and changes nothing. *)
Theorem revocation_completed_once a t id w s w' :
  complete a t id w = (Ok s, w') ->
  completed a t id w.(w_db) w'.(w_db) /\ granted_any w.(w_db) t a [SERVERS_MANAGE] = true
  /\ (forall b w2, w2.(w_db).(node_revocations) !! id = w'.(w_db).(node_revocations) !! id ->
        is_ok (complete b t id w2).1 = false /\ (complete b t id w2).2.(w_db) = w2.(w_db)).
Proof.
  intros Hr. pose proof (complete_spec a t id w) as Hs. unfold wp in Hs. rewrite Hr in Hs. destruct Hs as [Hc Hp].
  split_and!; [done|by apply granted_one|]. intros b w2 Hw2. pose proof (complete_spec b t id w2) as Hs2. unfold wp in Hs2.
  destruct (complete b t id w2) as [[s2|e] w2']; simpl in *; [|done]. exfalso.
  destruct Hs2 as [(r2 & n2 & Hr2 & _ & Hn2 & _) _], Hc as (r & n & _ & _ & _ & E).
  rewrite Hw2, E, lookup_insert_eq in Hr2. injection Hr2 as <-. done.
Qed.

(** ** Witnesses *)

(** Ann's team shares server 1500 with Bob. *)
Definition with_server : Db :=
  set_team_servers {[ 1500%N := mkTeamServer 1000 (lit "db1") (lit "192.0.2.1") 22 None (Some ann) 0 0 ]} ann_and_bob.

Lemma world_fresh d base : d.(node_revocations) = ∅ -> fresh_uuids (world d base).(w_orc) (world d base).(w_db).
Proof.
  intros Hd. split; simpl.
  - intros i j Hij. lia.
  - intros i. by rewrite Hd, lookup_empty.
Qed.

Lemma removed_member_is_owed_removal_witness :
  match Teams.remove_member ann 1000 bob (world with_server 3000) with
  | (Ok _, w') => exists id ts, w'.(w_db).(node_revocations) !! id = Some (revocation_row 1000 1500 bob (lit "bob@x.pl") ann ts)
  | (Err _, _) => False
  end.
Proof.
  assert (Hok : is_ok (Teams.remove_member ann 1000 bob (world with_server 3000)).1 = true) by (vm_compute; reflexivity).
  destruct (Teams.remove_member ann 1000 bob (world with_server 3000)) as [[s|e] w'] eqn:E.
  - destruct (removed_member_is_owed_removal ann 1000 bob (world with_server 3000) s w') as [(_ & _ & _ & user & Hu & Ho & _ & ts & Hnew) _].
    + apply world_fresh. vm_compute. reflexivity.
    + exact E.
    + destruct (Ho 1500%N) as (id & r & Hr & Hs & _); [vm_compute; reflexivity|]. exists id, ts.
      assert (Hnone : (world with_server 3000).(w_db).(node_revocations) = ∅) by (vm_compute; reflexivity).
      destruct (Hnew id r Hr) as [Hold|(s' & _ & ->)]; [by rewrite Hnone, lookup_empty in Hold|]. rewrite Hr. simpl in Hs. subst s'.
      assert (Hbob : u_email <$> (world with_server 3000).(w_db).(users) !! bob = Some (lit "bob@x.pl")) by (vm_compute; reflexivity).
      rewrite Hu in Hbob. apply (inj Some) in Hbob. rewrite Hbob. reflexivity.
  - discriminate Hok.
Defined.

(** Bob was removed and is taken back. *)
Definition bob_removed : Db := (Teams.remove_member ann 1000 bob (world with_server 3000)).2.(w_db).

Lemma returning_member_is_owed_nothing_witness :
  match Teams.add_member ann 1000 (lit "bob@x.pl") (world bob_removed 4000) with
  | (Ok _, w') => returned 1000 (world bob_removed 4000).(w_db) w'.(w_db)
  | (Err _, _) => False
  end.
Proof.
  assert (Hok : is_ok (Teams.add_member ann 1000 (lit "bob@x.pl") (world bob_removed 4000)).1 = true) by (vm_compute; reflexivity).
  destruct (Teams.add_member ann 1000 (lit "bob@x.pl") (world bob_removed 4000)) as [[s|e] w'] eqn:E.
  - exact (returning_member_is_owed_nothing ann 1000 (lit "bob@x.pl") (world bob_removed 4000) s w' E).
  - discriminate Hok.
Defined.

(** The revocation on server 1500 got the identifier 3005. *)
Lemma revocation_completed_once_witness :
  match complete ann 1000 3005 (world bob_removed 5000) with
  | (Ok _, w') => is_ok (complete ann 1000 3005 w').1 = false
  | (Err _, _) => False
  end.
Proof.
  assert (Hok : is_ok (complete ann 1000 3005 (world bob_removed 5000)).1 = true) by (vm_compute; reflexivity).
  destruct (complete ann 1000 3005 (world bob_removed 5000)) as [[s|e] w'] eqn:E.
  - destruct (revocation_completed_once ann 1000 3005 (world bob_removed 5000) s w' E) as (_ & _ & Hagain).
    apply (Hagain ann w'). reflexivity.
  - discriminate Hok.
Defined.
