(* ===== verification/AppAccess.v ===== *)
(** * AppAccess: grants on one application, who sees it, and pushing it

    Theorems about [apps/backend/src/team_applications.rs]. *)

From S2P Require Import Prelude Text Db Api Permissions Rbac Authorize Membership Accounts Teams Roles RbacRefinement TeamServers TeamApplications DeviceKeys Sample Access Journal.

#[local] Open Scope Z_scope.

(** ** Sorting and removing repeats *)

Lemma elem_of_sort p l : p ∈ sort l <-> p ∈ l.
Proof. apply elem_of_order_by_key. Qed.


Lemma dedup_from_subset p l : forall last, p ∈ dedup_from last l -> p ∈ l.
Proof.
  induction l as [|x l IH]; intros last; simpl; [done|]. case_bool; [intros Hp; apply IH in Hp; set_solver|].
  intros [->|Hp]%elem_of_cons; [set_solver|]. apply IH in Hp. set_solver.
Qed.

Lemma dedup_from_complete p l : forall last, p ∈ l -> p = last \/ p ∈ dedup_from last l.
Proof.
  induction l as [|x l IH]; intros last Hp; simpl; [set_solver|]. unfold str_eqb. case_bool as E; row_facts.
  - subst. apply elem_of_cons in Hp as [->|Hp]; [by left|by apply IH].
  - apply elem_of_cons in Hp as [->|Hp]; [right; set_solver|]. destruct (IH x Hp) as [->|Hx]; right; set_solver.
Qed.

Lemma elem_of_dedup p l : p ∈ dedup l <-> p ∈ l.
Proof.
  destruct l as [|x l]; [done|]. simpl. rewrite !elem_of_cons. split.
  - intros [->|Hp]; [by left|right; by eapply dedup_from_subset].
  - intros [->|Hp]; [by left|]. destruct (dedup_from_complete p l x Hp); [by left|by right].
Qed.

(** In a sorted list equal keys are next to each other, so none is left twice. *)
Lemma str_le_refl a : str_le a a = true.
Proof. induction a as [|x a IH]; simpl; [done|]. by rewrite Z.ltb_irrefl, Z.eqb_refl. Qed.

Lemma str_le_antisym a : forall b, str_le a b = true -> str_le b a = true -> a = b.
Proof.
  induction a as [|x a IH]; intros [|y b] Hab Hba; simpl in *; try done.
  destruct (Z.ltb_spec x y), (Z.ltb_spec y x), (Z.eqb_spec x y), (Z.eqb_spec y x); try lia; try done.
  subst. f_equal. by apply IH.
Qed.

Lemma str_le_trans a : forall b c, str_le a b = true -> str_le b c = true -> str_le a c = true.
Proof.
  induction a as [|x a IH]; intros [|y b] [|z c] Hab Hbc; simpl in *; try done.
  destruct (Z.ltb_spec x y), (Z.ltb_spec y z), (Z.eqb_spec x y), (Z.eqb_spec y z), (Z.ltb_spec x z), (Z.eqb_spec x z); try lia; try done.
  by eapply IH.
Qed.

Lemma str_le_total a : forall b, str_le a b = true \/ str_le b a = true.
Proof.
  induction a as [|x a IH]; intros [|y b]; simpl; auto.
  destruct (Z.ltb_spec x y), (Z.ltb_spec y x), (Z.eqb_spec x y), (Z.eqb_spec y x); try lia; auto.
Qed.

#[global] Instance str_le_preorder_total : Total (fun a b => str_le a b = true).
Proof. intros a b. apply str_le_total. Qed.
#[global] Instance str_le_preorder_trans : Transitive (fun a b => str_le a b = true).
Proof. intros a b c. apply str_le_trans. Qed.

Lemma dedup_from_NoDup l : forall last,
  StronglySorted (fun a b => str_le a b = true) (last :: l) -> NoDup (last :: dedup_from last l).
Proof.
  induction l as [|x l IH]; intros last Hs; simpl; [apply NoDup_singleton|].
  apply StronglySorted_inv in Hs as [Hs Hall]. apply Forall_cons in Hall as [Hx Hall]. unfold str_eqb. case_bool as E; row_facts.
  - subst. apply IH. done.
  - specialize (IH x Hs). constructor; [|done]. intros [->|Hin]%elem_of_cons; [done|].
    apply dedup_from_subset in Hin. apply StronglySorted_inv in Hs as [_ Hall2]. rewrite Forall_forall in Hall2.
    specialize (Hall2 last Hin). apply E. by apply str_le_antisym.
Qed.

Lemma dedup_sort_NoDup l : NoDup (dedup (sort l)).
Proof.
  assert (Hs : StronglySorted (fun a b => str_le a b = true) (sort l)) by (unfold sort, order_by_key; apply (StronglySorted_merge_sort _)).
  destruct (sort l) as [|x l']; [constructor|]. by apply dedup_from_NoDup.
Qed.

(** ** Grants on one application *)

(** The permissions stored for [u] on application [x]. *)
Definition granted_on (d : Db) (x u : N) : option (list (list Z)) := am_permissions <$> d.(application_members) !! (x, u).

(** What a grant by [a] in [t] may store for the request [ps]. *)
Definition scoped_grant (t a x u : N) (ps : list (list Z)) (d d' : Db) : Prop :=
  exists g, granted_on d' x u = Some g /\ NoDup g /\ (forall p, p ∈ g <-> p ∈ ps)
    /\ (forall p, p ∈ g -> p ∈ APPLICATION_SCOPED /\ granted_any d t a [p] = true)
    /\ granted_any d t a [APPLICATIONS_CREATE] = true
    /\ (forall k, k <> (x, u) -> d'.(application_members) !! k = d.(application_members) !! k).

Lemma grant_stored t a x u ps d d1 am :
  holds_perm d t a APPLICATIONS_CREATE -> (forall p, p ∈ ps -> p ∈ APPLICATION_SCOPED) ->
  (forall p, p ∈ dedup (sort ps) -> holds_perm d t a p) -> am.(am_permissions) = dedup (sort ps) ->
  d1.(application_members) = <[(x, u) := am]> d.(application_members) -> scoped_grant t a x u ps d d1.
Proof.
  intros Hc Hs Hh Ham Hd1. assert (Hin : forall p, p ∈ dedup (sort ps) <-> p ∈ ps) by (intros p; by rewrite elem_of_dedup, elem_of_sort).
  exists (dedup (sort ps)). split_and!; [|apply dedup_sort_NoDup|done| |by apply granted_one|].
  - unfold granted_on. by rewrite Hd1, lookup_insert_eq, <-Ham.
  - intros p Hp. split; [by apply Hs, Hin|]. apply granted_one. by apply Hh.
  - intros k Hk. by rewrite Hd1, lookup_insert_ne.
Qed.

Lemma add_member_grants t a x u ps w :
  wp (TeamApplications.add_member a t x u ps) (fun r w' => match r with
    | Ok _ => scoped_grant t a x u ps w.(w_db) w'.(w_db) /\ is_Some (w.(w_db).(team_members) !! (t, u))
    | Err _ => w'.(w_db) = w.(w_db) end) w.
Proof.
  pose proof (at_db_refl w) as Hat. unfold TeamApplications.add_member. repeat wp_app. commit. wp_app. rewrite (at_db_db _ _ _ Hat).
  match goal with Hx : audited _ _ _ _ _ _ _ _ |- _ => destruct Hx as (id & ts & _ & ->) end.
  match goal with Hx : insert_application_member _ _ _ _ = _ |- _ => stmt_inv Hx end. split; [|done].
  eapply grant_stored; [done|done|done| |reflexivity]. done.
Qed.

Lemma set_permissions_grants t a x u ps w :
  wp (set_member_permissions a t x u ps) (fun r w' => match r with
    | Ok _ => scoped_grant t a x u ps w.(w_db) w'.(w_db) /\ is_Some (w.(w_db).(application_members) !! (x, u))
    | Err _ => w'.(w_db) = w.(w_db) end) w.
Proof.
  pose proof (at_db_refl w) as Hat. unfold set_member_permissions. repeat wp_app. commit. wp_app. rewrite (at_db_db _ _ _ Hat).
  match goal with Hx : audited _ _ _ _ _ _ _ _ |- _ => destruct Hx as (id & ts & _ & ->) end.
  match goal with Hx : update_member_permissions _ _ _ _ _ = _ |- _ => stmt_inv Hx end; try done. split; [|eauto].
  eapply grant_stored; [done|done|done| |reflexivity]. done.
Qed.

(** A grant on one application, when it is made or changed, stores exactly
    the permissions asked for, each once; each is one a Node can hold to a
    single application, and one the person granting holds in the team; and no
    other grant changes. *)
Theorem application_grants_stay_in_scope t a x u ps w s w' :
  TeamApplications.add_member a t x u ps w = (Ok s, w') \/ set_member_permissions a t x u ps w = (Ok s, w') ->
  scoped_grant t a x u ps w.(w_db) w'.(w_db).
Proof.
  intros [Hr|Hr].
  - pose proof (add_member_grants t a x u ps w) as Hs. unfold wp in Hs. rewrite Hr in Hs. apply Hs.
  - pose proof (set_permissions_grants t a x u ps w) as Hs. unfold wp in Hs. rewrite Hr in Hs. apply Hs.
Qed.

(** ** Who sees an application *)

(** Somebody is on the application's allow-list. *)
Definition restricted (d : Db) (x : N) : Prop := exists u, is_Some (d.(application_members) !! (x, u)).

Lemma application_visible_spec d u x row :
  application_visible d u x row = true <->
  row.(ta_pushed_by) = Some u \/ ~ restricted d x \/ is_Some (d.(application_members) !! (x, u)).
Proof.
  unfold application_visible, restricted. rewrite !orb_true_iff, bool_decide_eq_true, negb_true_iff, any_row_false, any_row_true. split.
  - intros [[Hp|Hn]|(k & am & Hk & Hb)]; [by left| |].
    + right. left. intros (v & am & Hv). specialize (Hn (x, v) am Hv). simpl in Hn. by rewrite N.eqb_refl in Hn.
    + right. right. row_facts. destruct k as [y v]. simpl in *. apply N.eqb_eq in H, H0. subst. eauto.
  - intros [Hp|[Hn|[am Hv]]]; [by left; left| |].
    + left. right. intros [y v] am Hk. simpl. apply N.eqb_neq. intros ->. apply Hn. exists v. eauto.
    + right. exists (x, u), am. simpl. by rewrite !N.eqb_refl.
Qed.

(** A member's list of applications holds exactly the team's applications
    that nobody is on the allow-list of, that the member pushed, or that the
    member is on the allow-list of; somebody outside the team gets no list. *)
Theorem application_list_is_exact a t w l w' :
  list_applications a t w = (Ok l, w') ->
  is_Some (w.(w_db).(team_members) !! (t, a)) /\
  forall v, v ∈ l <-> exists x row, w.(w_db).(team_applications) !! x = Some row /\ row.(ta_team_id) = t /\ v = application_view x row
    /\ (row.(ta_pushed_by) = Some a \/ ~ restricted w.(w_db) x \/ is_Some (w.(w_db).(application_members) !! (x, a))).
Proof.
  assert (Hwp : wp (list_applications a t) (fun r w' => match r with
     | Ok l => is_Some (w.(w_db).(team_members) !! (t, a)) /\ l = merge_sort name_le (visible_applications w.(w_db) t a)
     | Err _ => True end) w).
  { pose proof (at_db_refl w) as Hat. unfold list_applications. repeat wp_app. rbac_facts. done. }
  intros Hr. unfold wp in Hwp. rewrite Hr in Hwp. destruct Hwp as [Hm ->]. split; [done|]. intros v.
  rewrite merge_sort_Permutation. unfold visible_applications. rewrite list_elem_of_In, List.in_map_iff. split.
  - intros ([x row] & <- & Hin). apply List.filter_In in Hin as [Hin Hb]. simpl in Hb. row_facts.
    apply list_elem_of_In, elem_of_map_to_list in Hin. apply N.eqb_eq in H. apply application_visible_spec in H0. eauto 10.
  - intros (x & row & Hx & Ht & -> & Hv). exists (x, row). split; [done|]. apply List.filter_In. simpl.
    rewrite Ht, N.eqb_refl. simpl. split; [by apply list_elem_of_In, elem_of_map_to_list|by apply application_visible_spec].
Qed.

(** ** Pushing *)

(** One row per team and local id, as the unique index has it. *)
Definition applications_unique (d : Db) : Prop := forall i j a b,
  d.(team_applications) !! i = Some a -> d.(team_applications) !! j = Some b ->
  a.(ta_team_id) = b.(ta_team_id) -> a.(ta_local_id) = b.(ta_local_id) -> i = j.

Lemma find_application_Some t l d i row :
  find_application t l d = Some (i, row) -> d.(team_applications) !! i = Some row /\ row.(ta_team_id) = t /\ row.(ta_local_id) = l.
Proof.
  intros Hf. apply find_first_Some in Hf as [Hin Hs]. apply elem_of_map_to_list in Hin. unfold same_local in Hs. simpl in Hs.
  apply andb_true_iff in Hs as [H1%N.eqb_eq H2%N.eqb_eq]. done.
Qed.

Lemma find_application_None t l d :
  find_application t l d = None -> forall i row, d.(team_applications) !! i = Some row -> row.(ta_team_id) = t -> row.(ta_local_id) <> l.
Proof.
  intros Hf i row Hi Ht Hl. unfold find_application in Hf. rewrite find_first_None in Hf. specialize (Hf (i, row)).
  rewrite elem_of_map_to_list in Hf. specialize (Hf Hi). unfold same_local in Hf. simpl in Hf. by rewrite Ht, Hl, !N.eqb_refl in Hf.
Qed.

(** The table after one push: one row written, under the id it already had. *)
Definition pushed (t l id : N) (row : TeamApplicationRow) (d d' : Db) : Prop :=
  d'.(team_applications) = <[id := row]> d.(team_applications) /\ row.(ta_team_id) = t /\ row.(ta_local_id) = l
  /\ ((exists old, d.(team_applications) !! id = Some old /\ old.(ta_team_id) = t /\ old.(ta_local_id) = l)
      \/ (d.(team_applications) !! id = None
          /\ forall i old, d.(team_applications) !! i = Some old -> old.(ta_team_id) = t -> old.(ta_local_id) <> l)).

Lemma upsert_application_pushed id row d r d' :
  upsert_application id row d = Ok (r, d') -> pushed row.(ta_team_id) row.(ta_local_id) r.1 r.2 d d'.
Proof.
  intros Hu. unfold upsert_application in Hu. destruct (find_application _ _ d) as [[i old]|] eqn:Ef.
  - case_bool; [|done]. injection Hu as <- <-. apply find_application_Some in Ef as (Hi & Ht & Hl). split_and!; [done|done|done|]. left. eauto.
  - destruct (exists_row (team_applications d) id) eqn:Ex; [done|]. case_bool; [|done]. injection Hu as <- <-. row_facts.
    split_and!; [done|done|done|]. right. split; [done|]. by apply find_application_None.
Qed.

Lemma pushed_unique t l id row d d' : pushed t l id row d d' -> applications_unique d -> applications_unique d'.
Proof.
  intros (Hd & Ht & Hl & Hcase) Hu i j a b Hi Hj Hab Hab2. rewrite Hd in Hi, Hj.
  assert (Hone : forall k x, k <> id -> d.(team_applications) !! k = Some x -> x.(ta_team_id) = t -> x.(ta_local_id) = l -> False).
  { intros k x Hk Hx Hxt Hxl. destruct Hcase as [(old & Ho & Hot & Hol)|[_ Hno]]; [|by eapply Hno].
    apply Hk. eapply Hu; [exact Hx|exact Ho|congruence|congruence]. }
  apply lookup_insert_Some in Hi as [[<- <-]|[Hni Hi]], Hj as [[<- <-]|[Hnj Hj]]; [done| | |by eapply Hu].
  - exfalso. eapply (Hone j b); [done|done|congruence|congruence].
  - exfalso. eapply (Hone i a); [done|done|congruence|congruence].
Qed.

Lemma push_application_spec a t body w :
  wp (push_application a t body) (fun r w' => match r with
    | Ok (_, v) => exists row, pushed t body.(push_local_id) v.(pv_id) row w.(w_db) w'.(w_db) /\ v = application_view v.(pv_id) row
        /\ row.(ta_pushed_by) = Some a /\ granted_any w.(w_db) t a [APPLICATIONS_CREATE] = true
    | Err _ => w'.(w_db) = w.(w_db) end) w.
Proof.
  pose proof (at_db_refl w) as Hat. unfold push_application. repeat wp_app. commit. wp_app. rewrite (at_db_db _ _ _ Hat).
  match goal with Hx : audited _ _ _ _ _ _ _ _ |- _ => destruct Hx as (id & ts & _ & ->) end.
  match goal with Hx : upsert_application _ _ _ = Ok (?r, _) |- _ => destruct r as [i row]; pose proof Hx as Hp; apply upsert_application_pushed in Hp;
    unfold upsert_application in Hx; rename Hx into Hc end.
  exists row. simpl in *. split_and!; [exact Hp|done| |by apply granted_one].
  destruct (find_application _ _ _) as [[i' old]|]; repeat case_bool; try done; by injection Hc as <- <- _ || by injection Hc as <- _ _.
Qed.

(** Publishing an application again updates the row that is there: a push
    writes one row of the table, under the id the application already had in
    the team when it had one, and never leaves two rows for it. *)
Theorem push_is_idempotent a t body w s v w' :
  applications_unique w.(w_db) -> push_application a t body w = (Ok (s, v), w') ->
  applications_unique w'.(w_db)
  /\ (forall i old, w.(w_db).(team_applications) !! i = Some old -> old.(ta_team_id) = t -> old.(ta_local_id) = body.(push_local_id) -> v.(pv_id) = i)
  /\ (exists row, w'.(w_db).(team_applications) = <[v.(pv_id) := row]> w.(w_db).(team_applications) /\ v = application_view v.(pv_id) row).
Proof.
  intros Hu Hr. pose proof (push_application_spec a t body w) as Hs. unfold wp in Hs. rewrite Hr in Hs. simpl in Hs.
  destruct Hs as (row & Hp & Hv & _). split_and!; [by eapply pushed_unique| |].
  - intros i old Hi Ht Hl. destruct Hp as (_ & _ & _ & [(o & Ho & Hot & Hol)|[_ Hno]]).
    + eapply Hu; [exact Ho|exact Hi|congruence|congruence].
    + exfalso. by eapply Hno.
  - exists row. split; [|done]. apply Hp.
Qed.

(** ** Witnesses *)

Definition paper : PushTeamApplicationRequest :=
  mkPush 77 None (lit "paper") (lit "minecraft-paper") (lit "docker") (lit "/srv/paper") [] [].
Definition paper_pushed : Db := (push_application ann 1000 paper (world ann_and_bob 3000)).2.(w_db).

Lemma application_grants_stay_in_scope_witness :
  match TeamApplications.add_member ann 1000 3003 bob [APPLICATIONS_CONSOLE; APPLICATIONS_CONSOLE] (world paper_pushed 4000) with
  | (Ok _, w') => granted_on w'.(w_db) 3003 bob = Some [APPLICATIONS_CONSOLE]
      /\ scoped_grant 1000 ann 3003 bob [APPLICATIONS_CONSOLE; APPLICATIONS_CONSOLE] (world paper_pushed 4000).(w_db) w'.(w_db)
  | (Err _, _) => False
  end.
Proof.
  assert (Hok : (is_ok (TeamApplications.add_member ann 1000 3003 bob [APPLICATIONS_CONSOLE; APPLICATIONS_CONSOLE] (world paper_pushed 4000)).1 = true)
    /\ granted_on (TeamApplications.add_member ann 1000 3003 bob [APPLICATIONS_CONSOLE; APPLICATIONS_CONSOLE] (world paper_pushed 4000)).2.(w_db) 3003 bob
       = Some [APPLICATIONS_CONSOLE]) by (vm_compute; split; reflexivity).
  destruct (TeamApplications.add_member ann 1000 3003 bob [APPLICATIONS_CONSOLE; APPLICATIONS_CONSOLE] (world paper_pushed 4000)) as [[s|e] w'] eqn:E.
  - split; [exact (proj2 Hok)|]. apply (application_grants_stay_in_scope 1000 ann 3003 bob _ (world paper_pushed 4000) s w'). left. exact E.
  - destruct Hok as [Hok _]. discriminate Hok.
Defined.

Lemma application_list_is_exact_witness :
  match list_applications bob 1000 (world paper_pushed 4000) with
  | (Ok l, _) => length l = 1%nat /\ is_Some ((world paper_pushed 4000).(w_db).(team_members) !! (1000%N, bob))
  | (Err _, _) => False
  end.
Proof.
  assert (Hok : match (list_applications bob 1000 (world paper_pushed 4000)).1 with Ok l => length l = 1%nat | Err _ => False end)
    by (vm_compute; reflexivity).
  destruct (list_applications bob 1000 (world paper_pushed 4000)) as [[l|e] w'] eqn:E; [|destruct Hok].
  split; [exact Hok|]. exact (proj1 (application_list_is_exact bob 1000 (world paper_pushed 4000) l w' E)).
Defined.

Lemma push_is_idempotent_witness :
  match push_application ann 1000 paper (world paper_pushed 4000) with
  | (Ok (_, v), w') => v.(pv_id) = 3003%N
  | (Err _, _) => False
  end.
Proof.
  assert (Hok : is_ok (push_application ann 1000 paper (world paper_pushed 4000)).1 = true) by (vm_compute; reflexivity).
  destruct (push_application ann 1000 paper (world paper_pushed 4000)) as [[[s v]|e] w'] eqn:E; [|discriminate Hok].
  assert (Hone : exists row, (world paper_pushed 4000).(w_db).(team_applications) = {[ 3003%N := row ]} /\ row.(ta_team_id) = 1000%N /\ row.(ta_local_id) = 77%N)
    by (eexists; vm_compute; split; [reflexivity|split; reflexivity]).
  destruct Hone as (row & Hrow & Ht & Hl).
  destruct (push_is_idempotent ann 1000 paper (world paper_pushed 4000) s v w') as (_ & Hid & _).
  - intros i j a b Hi Hj _ _. rewrite Hrow in Hi, Hj. apply lookup_singleton_Some in Hi as [<- _], Hj as [<- _]. reflexivity.
  - exact E.
  - apply (Hid 3003%N row); [|exact Ht|exact Hl]. rewrite Hrow. apply lookup_singleton_eq.
Defined.

(** A team may name, as the server an application runs on, a server that
    another team shares: nothing checks whose server it is. *)
Definition eves_server : Db :=
  set_team_servers {[ 600%N := mkTeamServer 500 (lit "hers") (lit "192.0.2.9") 22 None (Some eve) 0 0 ]}
    (set_teams (<[500%N := mkTeam (lit "Eve") eve 0 0]> ann_and_bob.(teams)) ann_and_bob).

Example push_accepts_a_foreign_server :
  let body := mkPush 77 (Some 600%N) (lit "paper") (lit "p") (lit "docker") (lit "/srv") [] [] in
  match (push_application ann 1000 body (world eves_server 3000)).1 with
  | Ok (_, v) => v.(pv_team_server_id) = Some 600%N /\ server_in_team eves_server 1000 600 = false
  | Err _ => False
  end.
Proof. vm_compute. split; reflexivity. Qed.
