(* ===== verification/AccessList.v ===== *)
(** * AccessList: the list a Node's accounts are made from

    [device_keys::list_team_access] answers with one entry per member, the
    member's keys and what the member may do.  The theorem says the answer is
    exact: the loop that groups the joined rows merges them correctly. *)

From S2P Require Import Prelude Text Db Api Permissions Rbac Authorize Membership Accounts Teams Roles RbacRefinement TeamServers TeamApplications DeviceKeys Sample Access Journal AppAccess.

#[local] Open Scope Z_scope.

(** ** Grouping rows by user *)

Lemma group_by_user_lookup {A} (rows : list (N * A)) : forall acc u,
  default [] (group_by_user rows acc !! u) = default [] (acc !! u) ++ map snd (List.filter (fun r => N.eqb r.1 u) rows).
Proof.
  induction rows as [|[v x] rows IH]; intros acc u; simpl; [by rewrite app_nil_r|]. rewrite IH. simpl.
  destruct (N.eqb_spec v u) as [->|Hne].
  - rewrite lookup_insert_eq. simpl. by rewrite <-app_assoc.
  - by rewrite lookup_insert_ne.
Qed.

(** ** The loop over the joined rows *)

(** The entry of [id], and the keys the rows have for [id]. *)
Definition entry (l : list MemberAccess) (id : N) : option MemberAccess := find_first (fun m => N.eqb m.(ma_user_id) id) l.

Definition row_keys (rows : list AccessRow) (id : N) : list (list Z) :=
  omap (fun r => if N.eqb r.(ar_id) id then fst <$> r.(ar_key) else None) rows.

#[global] Arguments row_keys : simpl never.

Definition add_keys (keys : list (list Z)) (m : MemberAccess) : MemberAccess :=
  mkMemberAccess m.(ma_user_id) m.(ma_email) m.(ma_display_name) m.(ma_node_username) (m.(ma_public_keys) ++ keys) m.(ma_permissions) m.(ma_applications).

Definition first_row (rows : list AccessRow) (id : N) : option AccessRow := find_first (fun r => N.eqb r.(ar_id) id) rows.

Lemma update_last_snoc f l m : update_last f (l ++ [m]) = l ++ [f m].
Proof.
  induction l as [|x l IH]; [done|]. simpl. rewrite IH. by destruct l.
Qed.

Lemma entry_app l1 l2 id : entry (l1 ++ l2) id = match entry l1 id with Some m => Some m | None => entry l2 id end.
Proof. unfold entry. induction l1 as [|x l1 IH]; simpl; [done|]. by case_bool. Qed.

Lemma entry_None l id : entry l id = None <-> forall m, m ∈ l -> m.(ma_user_id) <> id.
Proof. unfold entry. rewrite find_first_None. setoid_rewrite N.eqb_neq. done. Qed.

Lemma entry_Some l id m : entry l id = Some m -> m ∈ l /\ m.(ma_user_id) = id.
Proof. intros He. apply find_first_Some in He as [Hin Heq]. by apply N.eqb_eq in Heq. Qed.

(** Strictly increasing addresses, and an address belongs to one user. *)
Definition before (a b : MemberAccess) : Prop := str_le a.(ma_email) b.(ma_email) = true /\ a.(ma_email) <> b.(ma_email).

Section loop.
Context (email_of : N -> option (list Z)) (Hinj : forall u v e, email_of u = Some e -> email_of v = Some e -> u = v).

Record loop_inv (members : list MemberAccess) (rows : list AccessRow) : Prop := {
  li_sorted : StronglySorted before members;
  li_rows : StronglySorted (fun a b => str_le a.(ar_email) b.(ar_email) = true) rows;
  li_below : forall m r, m ∈ members -> r ∈ rows -> str_le m.(ma_email) r.(ar_email) = true;
  li_member : forall m, m ∈ members -> email_of m.(ma_user_id) = Some m.(ma_email);
  li_row : forall r, r ∈ rows -> email_of r.(ar_id) = Some r.(ar_email);
}.

Lemma StronglySorted_snoc {A} (R : A -> A -> Prop) l x : StronglySorted R (l ++ [x]) <-> StronglySorted R l /\ forall y, y ∈ l -> R y x.
Proof. rewrite StronglySorted_app. split; [set_solver|]. intros [? ?]. split_and!; [set_solver|done|repeat constructor]. Qed.

(** A user whose rows come next and who is not the last member is new. *)
Lemma next_is_new members row rows :
  loop_inv members (row :: rows) -> ma_user_id <$> last members <> Some row.(ar_id) ->
  forall m, m ∈ members -> before m (mkMemberAccess row.(ar_id) row.(ar_email) row.(ar_display_name) (node_username row.(ar_id)) [] [] []).
Proof.
  intros Hi Hlast m Hm. split; [simpl; eapply li_below; [done|done|set_solver]|]. simpl. intros Heq.
  destruct members as [|l members _] using rev_ind; [set_solver|]. rewrite last_snoc in Hlast. simpl in Hlast.
  destruct (proj1 (StronglySorted_snoc _ _ _) (li_sorted _ _ Hi)) as [_ Hb].
  assert (Hl : str_le l.(ma_email) row.(ar_email) = true) by (eapply li_below; [done|set_solver|set_solver]).
  assert (m = l) as ->.
  { apply elem_of_app in Hm as [Hm|Hm]; [|by apply list_elem_of_singleton in Hm]. destruct (Hb m Hm) as [Hle Hne]. exfalso.
    apply Hne. apply str_le_antisym; [done|]. by rewrite Heq. }
  apply Hlast. f_equal. apply (Hinj _ _ row.(ar_email)); [|by apply (li_row _ _ Hi); set_solver]. rewrite (li_member _ _ Hi l) by set_solver. by rewrite Heq.
Qed.

(** What one row adds to the member it belongs to, who is the last one. *)
Definition one_key (row : AccessRow) : list (list Z) := match row.(ar_key) with Some (key, _) => [key] | None => [] end.

Lemma add_keys_nil m : add_keys [] m = m.
Proof. destruct m. unfold add_keys. simpl. by rewrite app_nil_r. Qed.

Lemma add_keys_app k1 k2 m : add_keys k2 (add_keys k1 m) = add_keys (k1 ++ k2) m.
Proof. destruct m. unfold add_keys. simpl. by rewrite app_assoc. Qed.

Definition push_row (row : AccessRow) (members : list MemberAccess) : list MemberAccess :=
  match row.(ar_key) with Some (key, _) => update_last (push_key key) members | None => members end.

Lemma push_row_snoc row l m : push_row row (l ++ [m]) = l ++ [add_keys (one_key row) m].
Proof.
  unfold push_row, one_key. destruct (ar_key row) as [[key t]|]; [by rewrite update_last_snoc|by rewrite add_keys_nil].
Qed.

Lemma row_keys_cons row rows id : row_keys (row :: rows) id = (if N.eqb row.(ar_id) id then one_key row else []) ++ row_keys rows id.
Proof. unfold row_keys, one_key. simpl. destruct (N.eqb (ar_id row) id), (ar_key row) as [[k t]|]; done. Qed.

Definition new_member (row : AccessRow) (perms : list (list Z)) (apps : list MemberApplicationAccess) : MemberAccess :=
  mkMemberAccess row.(ar_id) row.(ar_email) row.(ar_display_name) (node_username row.(ar_id)) [] perms apps.

Lemma inv_snoc l m row rows k :
  loop_inv (l ++ [m]) (row :: rows) -> loop_inv (l ++ [add_keys k m]) rows.
Proof.
  intros [H1 H2 H3 H4 H5]. apply StronglySorted_snoc in H1 as [H1 Hb]. apply StronglySorted_inv in H2 as [H2 _]. split.
  - by apply StronglySorted_snoc.
  - done.
  - intros x r Hx Hr. apply elem_of_app in Hx as [Hx|Hx]; [apply H3; set_solver|].
    apply list_elem_of_singleton in Hx as ->. apply (H3 m r); set_solver.
  - intros x Hx. apply elem_of_app in Hx as [Hx|Hx]; [apply H4; set_solver|].
    apply list_elem_of_singleton in Hx as ->. apply (H4 m). set_solver.
  - intros r Hr. apply H5. set_solver.
Qed.

Lemma inv_new members row rows perms apps :
  loop_inv members (row :: rows) -> ma_user_id <$> last members <> Some row.(ar_id) ->
  loop_inv (members ++ [new_member row perms apps]) (row :: rows).
Proof.
  intros Hi Hlast. pose proof (next_is_new _ _ _ Hi Hlast) as Hb. destruct Hi as [H1 H2 H3 H4 H5]. split.
  - by apply StronglySorted_snoc.
  - done.
  - intros x r Hx Hr. apply elem_of_app in Hx as [Hx|Hx]; [by apply H3|]. apply list_elem_of_singleton in Hx as ->. simpl.
    apply elem_of_cons in Hr as [->|Hr]; [apply str_le_refl|]. apply StronglySorted_inv in H2 as [_ Ha].
    rewrite Forall_forall in Ha. by apply Ha.
  - intros x Hx. apply elem_of_app in Hx as [Hx|Hx]; [by apply H4|]. apply list_elem_of_singleton in Hx as ->. apply H5. set_solver.
  - done.
Qed.

Lemma sorted_entry_last l m : StronglySorted before (l ++ [m]) -> (forall x, x ∈ l ++ [m] -> email_of x.(ma_user_id) = Some x.(ma_email)) ->
  entry l m.(ma_user_id) = None.
Proof.
  intros Hs He. apply StronglySorted_snoc in Hs as [_ Hb]. apply entry_None. intros x Hx Hid. destruct (Hb x Hx) as [_ Hne].
  apply Hne. pose proof (He x ltac:(set_solver)) as Hx'. rewrite Hid, (He m) in Hx' by set_solver. by injection Hx'.
Qed.

(** The members after one row, by user. *)
Lemma entry_push l m row id :
  m.(ma_user_id) = row.(ar_id) -> entry l row.(ar_id) = None ->
  entry (l ++ [add_keys (one_key row) m]) id =
  (add_keys (if N.eqb row.(ar_id) id then one_key row else [])) <$> entry (l ++ [m]) id.
Proof.
  intros Hm Hl. rewrite !entry_app. destruct (N.eqb_spec row.(ar_id) id) as [<-|Hne].
  - rewrite Hl. unfold entry. simpl. by rewrite Hm, N.eqb_refl.
  - destruct (entry l id); simpl; [by rewrite add_keys_nil|]. unfold entry. simpl. rewrite Hm.
    destruct (N.eqb_spec row.(ar_id) id); done.
Qed.

Lemma collect_cons row rows members pm am :
  collect_members (row :: rows) members pm am =
  if bool_decide (ma_user_id <$> last members = Some row.(ar_id))
  then collect_members rows (push_row row members) pm am
  else collect_members rows (push_row row (members ++ [new_member row (default [] (pm !! row.(ar_id))) (default [] (am !! row.(ar_id)))]))
         (delete row.(ar_id) pm) (delete row.(ar_id) am).
Proof. reflexivity. Qed.

Definition from_rows (rows : list AccessRow) (pm : gmap N (list (list Z))) (am : gmap N (list MemberApplicationAccess)) (id : N) : option MemberAccess :=
  (fun r => add_keys (row_keys rows id) (new_member r (default [] (pm !! id)) (default [] (am !! id)))) <$> first_row rows id.
#[global] Arguments from_rows : simpl never.

Lemma from_rows_skip row rows pm am id : row.(ar_id) <> id -> from_rows (row :: rows) pm am id = from_rows rows pm am id.
Proof.
  intros Hne. unfold from_rows, first_row. rewrite row_keys_cons. simpl. destruct (N.eqb_spec row.(ar_id) id); done.
Qed.

Lemma collect_spec rows : forall members pm am,
  loop_inv members rows ->
  loop_inv (collect_members rows members pm am) [] /\
  forall id, entry (collect_members rows members pm am) id =
    match entry members id with Some m => Some (add_keys (row_keys rows id) m) | None => from_rows rows pm am id end.
Proof.
  induction rows as [|row rows IH]; intros members pm am Hi.
  - simpl. split; [done|]. intros id. destruct (entry members id); [by rewrite add_keys_nil|done].
  - rewrite collect_cons. case_bool_decide as El.
    + destruct members as [|m l _] using rev_ind; [done|]. rewrite last_snoc in El. simpl in El. injection El as Em.
      assert (Hnone := sorted_entry_last l m (li_sorted _ _ Hi) (li_member _ _ Hi)). rewrite Em in Hnone.
      rewrite push_row_snoc.
      destruct (IH _ pm am (inv_snoc _ _ _ _ (one_key row) Hi)) as [IH1 IH2]. split; [done|]. intros id. rewrite IH2.
      rewrite entry_push by done. rewrite row_keys_cons. destruct (entry (l ++ [m]) id) as [x|] eqn:Ex; simpl; [by rewrite add_keys_app|].
      rewrite from_rows_skip; [done|]. intros <-. rewrite entry_app, Hnone in Ex. unfold entry in Ex. simpl in Ex. by rewrite Em, N.eqb_refl in Ex.
    + rewrite push_row_snoc. set (nm := new_member _ _ _). pose proof (inv_new _ _ _ (default [] (pm !! row.(ar_id))) (default [] (am !! row.(ar_id))) Hi El) as Hi'.
      fold nm in Hi'. assert (Hnone := sorted_entry_last members nm (li_sorted _ _ Hi') (li_member _ _ Hi')).
      destruct (IH _ (delete row.(ar_id) pm) (delete row.(ar_id) am) (inv_snoc _ _ _ _ (one_key row) Hi')) as [IH1 IH2]. split; [done|].
      intros id. rewrite IH2. rewrite entry_push by done. rewrite entry_app. destruct (entry members id) as [x|] eqn:Ex; simpl.
      { rewrite add_keys_app, row_keys_cons. done. }
      destruct (N.eqb_spec row.(ar_id) id) as [<-|Hne].
      * unfold entry. simpl. rewrite N.eqb_refl. simpl. rewrite add_keys_app. unfold from_rows, first_row. rewrite row_keys_cons. simpl.
        by rewrite N.eqb_refl.
      * unfold entry. simpl. destruct (N.eqb_spec row.(ar_id) id); [done|]. simpl. rewrite from_rows_skip by done. unfold from_rows.
        rewrite !lookup_delete_ne by done. done.
Qed.
End loop.

(** ** The rows the queries return *)

Section rows.
Context (d : Db) (t : N).

(** [users.email] is UNIQUE. *)
Definition emails_unique : Prop := forall u v ru rv, d.(users) !! u = Some ru -> d.(users) !! v = Some rv -> ru.(u_email) = rv.(u_email) -> u = v.

Lemma elem_of_keys_of_user u k : k ∈ keys_of_user d u <-> exists i row, d.(device_keys) !! i = Some row /\ row.(dk_user_id) = u /\ k = (row.(dk_public_key), row.(dk_created_at)).
Proof.
  unfold keys_of_user. rewrite list_elem_of_In, List.in_map_iff. split.
  - intros ([i row] & <- & Hin). apply List.filter_In in Hin as [Hin Hu%N.eqb_eq]. apply list_elem_of_In, elem_of_map_to_list in Hin. eauto.
  - intros (i & row & Hi & Hu & ->). exists (i, row). split; [done|]. apply List.filter_In. simpl. rewrite Hu, N.eqb_refl.
    split; [by apply list_elem_of_In, elem_of_map_to_list|done].
Qed.

Lemma elem_of_rows_of_member u ru r :
  r ∈ rows_of_member d u ru <->
  (exists k, k ∈ keys_of_user d u /\ r = mkAccessRow u ru.(u_email) ru.(u_display_name) (Some k)) \/
  (keys_of_user d u = [] /\ r = mkAccessRow u ru.(u_email) ru.(u_display_name) None).
Proof.
  unfold rows_of_member. destruct (keys_of_user d u) as [|k0 ks]; [set_solver|]. rewrite list_elem_of_In, List.in_map_iff.
  setoid_rewrite <-list_elem_of_In. split; [intros (k & <- & Hk); eauto|]. intros [(k & Hk & ->)|[Hn _]]; [eauto|done].
Qed.

Lemma rows_of_member_some u ru : exists r, r ∈ rows_of_member d u ru.
Proof.
  setoid_rewrite elem_of_rows_of_member. destruct (keys_of_user d u) as [|k ks]; [eauto|]. eexists. left. exists k. split; [set_solver|done].
Qed.

Lemma rows_of_member_user u ru r : r ∈ rows_of_member d u ru -> r.(ar_id) = u /\ r.(ar_email) = ru.(u_email) /\ r.(ar_display_name) = ru.(u_display_name).
Proof. intros [(k & _ & ->)|[_ ->]]%elem_of_rows_of_member; done. Qed.

Lemma elem_of_access_rows r :
  r ∈ access_rows d t <-> exists u ru, is_Some (d.(team_members) !! (t, u)) /\ d.(users) !! u = Some ru /\ r ∈ rows_of_member d u ru.
Proof.
  unfold access_rows. rewrite merge_sort_Permutation, list_elem_of_bind. split.
  - intros ([[t' u] z] & Hr & Hin%elem_of_map_to_list). simpl in Hr. destruct (N.eqb_spec t' t) as [->|]; simpl in Hr; [|set_solver].
    destruct (d.(users) !! u) as [ru|] eqn:Eu; [|set_solver]. eauto 10.
  - intros (u & ru & [z Hm] & Hu & Hr). exists ((t, u), z). simpl. rewrite N.eqb_refl, Hu. split; [done|]. by apply elem_of_map_to_list.
Qed.

Lemma sorted_weaken {A} (R R' : A -> A -> Prop) l : (forall a b, R a b -> R' a b) -> StronglySorted R l -> StronglySorted R' l.
Proof. intros Hr. induction 1 as [|a l _ IH Ha]; constructor; [done|]. eapply Forall_impl; [done|]. apply Hr. Qed.

#[local] Instance access_le_total : Total access_le.
Proof.
  intros a b. unfold access_le, str_eqb. rewrite (bool_decide_ext (ar_email b = ar_email a) (ar_email a = ar_email b)) by done.
  case_bool_decide; [|by apply str_le_total].
  unfold created_le. destruct (ar_key a), (ar_key b); auto. destruct (Z.leb_spec p.2 p0.2); [by left|right; lia].
Qed.

#[local] Instance access_le_trans : Transitive access_le.
Proof.
  intros a b c. unfold access_le, str_eqb.
  case_bool_decide as E1; case_bool_decide as E2; case_bool_decide as E3; try congruence.
  - unfold created_le. destruct (ar_key a), (ar_key b), (ar_key c); try done. lia.
  - intros Hab Hbc. exfalso. apply E1. apply str_le_antisym; [done|by rewrite E3].
  - apply str_le_trans.
Qed.

Lemma access_rows_sorted : StronglySorted (fun a b => str_le a.(ar_email) b.(ar_email) = true) (access_rows d t).
Proof.
  apply (sorted_weaken access_le); [|apply (StronglySorted_merge_sort _)].
  intros a b. unfold access_le, str_eqb. case_bool_decide as E; [|done]. rewrite E. intros _. apply str_le_refl.
Qed.

Lemma elem_of_row_keys rows u k : k ∈ row_keys rows u <-> exists r z, r ∈ rows /\ r.(ar_id) = u /\ r.(ar_key) = Some (k, z).
Proof.
  unfold row_keys. rewrite list_elem_of_omap. split.
  - intros (r & Hr & Hk). destruct (N.eqb_spec r.(ar_id) u); [|done]. destruct (ar_key r) as [[k' z]|] eqn:Ek; simplify_eq/=. eauto 10.
  - intros (r & z & Hr & <- & Hk). exists r. by rewrite N.eqb_refl, Hk.
Qed.

Lemma access_row_keys u k : is_Some (d.(team_members) !! (t, u)) -> is_Some (d.(users) !! u) ->
  k ∈ row_keys (access_rows d t) u <-> exists i row, d.(device_keys) !! i = Some row /\ row.(dk_user_id) = u /\ row.(dk_public_key) = k.
Proof.
  intros Hm [ru Hu]. rewrite elem_of_row_keys. setoid_rewrite elem_of_access_rows. split.
  - intros (r & z & (v & rv & _ & Hv & Hr) & Hid & Hk). pose proof (rows_of_member_user _ _ _ Hr) as (Hrid & _). rewrite Hid in Hrid. subst v.
    apply elem_of_rows_of_member in Hr as [(k' & Hk' & ->)|[_ ->]]; simplify_eq/=. apply elem_of_keys_of_user in Hk' as (i & row & Hi & Hd & Heq).
    simplify_eq. eauto.
  - intros (i & row & Hi & Hd & <-). eexists _, _. split; [exists u, ru; split_and!; [done|done|]|].
    + apply elem_of_rows_of_member. left. eexists. split; [|reflexivity]. apply elem_of_keys_of_user. eauto.
    + done.
Qed.

Lemma elem_of_permission_rows u p : (u, p) ∈ permission_rows d t <-> holds_perm d t u p.
Proof.
  unfold permission_rows, permission_set, holds_perm. rewrite merge_sort_Permutation, elem_of_elements, elem_of_list_to_set, list_elem_of_bind. split.
  - intros ([[t' v] r] & Hin & Hr%elem_of_elements). simpl in Hin. destruct (N.eqb_spec t' t) as [->|]; simpl in Hin; [|set_solver].
    apply list_elem_of_In, List.in_map_iff in Hin as (q & Heq & Hq). simplify_eq. exists r. split; [done|]. by apply permissions_of_role_spec, list_elem_of_In.
  - intros (r & Hr & Hp). exists ((t, u), r). simpl. rewrite N.eqb_refl. simpl. split; [|by apply elem_of_elements].
    apply list_elem_of_In, List.in_map_iff. exists p. split; [done|]. by apply list_elem_of_In, permissions_of_role_spec.
Qed.

Lemma elem_of_application_rows u aa : (u, aa) ∈ application_rows d t <->
  exists x am ta, d.(application_members) !! (x, u) = Some am /\ am.(am_team_id) = t /\ d.(team_applications) !! x = Some ta
    /\ aa = mkAppAccess ta.(ta_local_id) ta.(ta_team_server_id) ta.(ta_runtime_type) ta.(ta_working_directory) am.(am_permissions).
Proof.
  unfold application_rows. rewrite merge_sort_Permutation, list_elem_of_omap. split.
  - intros ([[x v] am] & Hin%elem_of_map_to_list & Ha). simpl in Ha. destruct (N.eqb_spec am.(am_team_id) t) as [Ht|]; simpl in Ha; [|done].
    destruct (team_applications d !! x) as [ta|] eqn:Ex; simplify_eq/=. eauto 10.
  - intros (x & am & ta & Ham & Ht & Hx & ->). exists ((x, u), am). simpl. rewrite Ht, N.eqb_refl, Hx. split; [by apply elem_of_map_to_list|done].
Qed.

Lemma elem_of_grouped {A} (rows : list (N * A)) u x : x ∈ default [] (group_by_user rows ∅ !! u) <-> (u, x) ∈ rows.
Proof.
  rewrite group_by_user_lookup, lookup_empty. simpl. rewrite list_elem_of_In, List.in_map_iff. split.
  - intros ([v y] & <- & [Hin ?%N.eqb_eq]%List.filter_In). simpl in *. subst. by apply list_elem_of_In.
  - intros Hin. exists (u, x). split; [done|]. apply List.filter_In. simpl. rewrite N.eqb_refl. split; [by apply list_elem_of_In|done].
Qed.
End rows.

(** ** The answer *)

(** The entry of [m] says what [d] says of that user in team [t]. *)
Definition exact_entry (d : Db) (t : N) (m : MemberAccess) : Prop :=
  let u := m.(ma_user_id) in
  is_Some (d.(team_members) !! (t, u)) /\
  (exists row, d.(users) !! u = Some row /\ m.(ma_email) = row.(u_email) /\ m.(ma_display_name) = row.(u_display_name)) /\
  m.(ma_node_username) = node_username u /\
  (forall k, k ∈ m.(ma_public_keys) <-> exists i row, d.(device_keys) !! i = Some row /\ row.(dk_user_id) = u /\ row.(dk_public_key) = k) /\
  (forall p, p ∈ m.(ma_permissions) <-> granted_any d t u [p] = true) /\
  (forall a, a ∈ m.(ma_applications) <-> exists x am ta,
     d.(application_members) !! (x, u) = Some am /\ am.(am_team_id) = t /\ d.(team_applications) !! x = Some ta /\
     a = mkAppAccess ta.(ta_local_id) ta.(ta_team_server_id) ta.(ta_runtime_type) ta.(ta_working_directory) am.(am_permissions)).

Definition access_list (d : Db) (t : N) : list MemberAccess :=
  collect_members (access_rows d t) [] (group_by_user (permission_rows d t) ∅) (group_by_user (application_rows d t) ∅).

Definition email_of (d : Db) (u : N) : option (list Z) := u_email <$> d.(users) !! u.

Lemma access_list_entries d t : emails_unique d ->
  loop_inv (email_of d) (access_list d t) [] /\ forall id, entry (access_list d t) id =
    from_rows (access_rows d t) (group_by_user (permission_rows d t) ∅) (group_by_user (application_rows d t) ∅) id.
Proof.
  intros Hu. apply (collect_spec (email_of d)).
  - unfold email_of. intros u v e Eu Ev. destruct (users d !! u) as [ru|] eqn:Hru, (users d !! v) as [rv|] eqn:Hrv; simplify_eq/=. eapply Hu; eauto.
  - split; [constructor|apply access_rows_sorted|set_solver|set_solver|].
    intros r (u & ru & _ & Hru & Hr)%elem_of_access_rows. destruct (rows_of_member_user _ _ _ _ Hr) as (-> & -> & _). unfold email_of. by rewrite Hru.
Qed.

Lemma inv_entry f l m : loop_inv f l [] -> m ∈ l -> entry l m.(ma_user_id) = Some m.
Proof.
  intros [Hs _ _ Hm _] Hin. induction Hs as [|x l Hs IH Hx]; [set_solver|]. unfold entry. simpl.
  destruct (N.eqb_spec x.(ma_user_id) m.(ma_user_id)) as [Hid|Hne].
  - f_equal. apply elem_of_cons in Hin as [->|Hin]; [done|]. exfalso. rewrite Forall_forall in Hx. apply (Hx m Hin).
    pose proof (Hm x ltac:(set_solver)) as H1. rewrite Hid, (Hm m) in H1 by set_solver. by injection H1.
  - apply elem_of_cons in Hin as [->|Hin]; [done|]. apply IH; [|done]. intros y Hy. apply Hm. set_solver.
Qed.

Lemma inv_NoDup f l : loop_inv f l [] -> NoDup (map ma_user_id l).
Proof.
  intros Hi. destruct Hi as [Hs _ _ Hm _]. induction Hs as [|x l Hs IH Hx]; simpl; [constructor|]. constructor.
  - intros (y & Hid & Hy%list_elem_of_In)%list_elem_of_In%List.in_map_iff. rewrite Forall_forall in Hx. apply (Hx y Hy).
    pose proof (Hm y ltac:(set_solver)) as H1. rewrite Hid, (Hm x) in H1 by set_solver. by injection H1.
  - apply IH. intros y Hy. apply Hm. set_solver.
Qed.

Lemma from_rows_exact d t id m :
  from_rows (access_rows d t) (group_by_user (permission_rows d t) ∅) (group_by_user (application_rows d t) ∅) id = Some m ->
  m.(ma_user_id) = id /\ exact_entry d t m.
Proof.
  unfold from_rows. intros Hm. destruct (first_row _ id) as [r|] eqn:Hr; simplify_eq/=.
  apply find_first_Some in Hr as [Hin Hid%N.eqb_eq]. split; [done|].
  apply elem_of_access_rows in Hin as (u & ru & Hmem & Hu & Hr). destruct (rows_of_member_user _ _ _ _ Hr) as (Hru & He & Hn).
  assert (u = id) as -> by congruence. unfold exact_entry. simpl. rewrite Hid. split_and!; [done| |done| | |].
  - exists ru. done.
  - intros k. apply access_row_keys; eauto.
  - intros p. rewrite elem_of_grouped, elem_of_permission_rows. symmetry. apply granted_one.
  - intros a. rewrite elem_of_grouped. apply elem_of_application_rows.
Qed.

Lemma access_list_exact d t : emails_unique d ->
  NoDup (map ma_user_id (access_list d t)) /\
  (forall m, m ∈ access_list d t -> exact_entry d t m) /\
  (forall u, is_Some (d.(team_members) !! (t, u)) -> is_Some (d.(users) !! u) -> exists m, m ∈ access_list d t /\ m.(ma_user_id) = u).
Proof.
  intros Hu. destruct (access_list_entries d t Hu) as [Hi He]. split_and!.
  - by eapply inv_NoDup.
  - intros m Hm. pose proof (inv_entry _ _ _ Hi Hm) as E. rewrite He in E. by apply from_rows_exact in E as [_ ?].
  - intros u Hm [ru Hr]. destruct (rows_of_member_some d u ru) as [r Hrow].
    destruct (entry (access_list d t) u) as [m|] eqn:E; [apply entry_Some in E as [? ?]; eauto|]. exfalso.
    rewrite He in E. unfold from_rows in E. destruct (first_row (access_rows d t) u) as [?|] eqn:Ef; [done|].
    unfold first_row in Ef. rewrite find_first_None in Ef. specialize (Ef r). destruct (rows_of_member_user _ _ _ _ Hrow) as [Hid _].
    rewrite Hid, N.eqb_refl in Ef. discriminate Ef. apply elem_of_access_rows. eauto.
Qed.

(** What [GET /teams/:id/access] answers a member is exact: one entry per
    member of the team, with the login the Node uses, every key the member
    published and no other, exactly the permissions the server would grant
    that member, and exactly the applications the member is on the allow-list
    of; somebody outside the team gets no answer. *)
Theorem access_list_is_exact a t w l w' :
  emails_unique w.(w_db) -> list_team_access a t w = (Ok l, w') ->
  is_Some (w.(w_db).(team_members) !! (t, a)) /\
  NoDup (map ma_user_id l) /\
  (forall m, m ∈ l -> exact_entry w.(w_db) t m) /\
  (forall u, is_Some (w.(w_db).(team_members) !! (t, u)) -> is_Some (w.(w_db).(users) !! u) -> exists m, m ∈ l /\ m.(ma_user_id) = u).
Proof.
  assert (Hwp : wp (list_team_access a t) (fun r w' => match r with
     | Ok l => is_Some (w.(w_db).(team_members) !! (t, a)) /\ l = access_list w.(w_db) t
     | Err _ => True end) w).
  { pose proof (at_db_refl w) as Hat. unfold list_team_access. repeat wp_app. rbac_facts. done. }
  intros Hu Hr. unfold wp in Hwp. rewrite Hr in Hwp. destruct Hwp as [Hm ->]. split; [done|]. by apply access_list_exact.
Qed.

Definition with_key : Db :=
  set_device_keys {[ 700%N := mkDeviceKey bob (lit "ssh-ed25519 AAAA") (lit "laptop") 5 5 ]} ann_and_bob.

Lemma people_emails_unique d : d.(users) = people.(users) -> emails_unique d.
Proof.
  intros Hd u v ru rv. unfold emails_unique. rewrite Hd. unfold people. simpl. rewrite !lookup_insert_Some, !lookup_empty.
  naive_solver.
Qed.

Lemma access_list_is_exact_witness :
  match list_team_access bob 1000 (world with_key 4000) with
  | (Ok l, _) => length l = 2%nat /\ NoDup (map ma_user_id l)
  | (Err _, _) => False
  end.
Proof.
  assert (Hok : match (list_team_access bob 1000 (world with_key 4000)).1 with Ok l => length l = 2%nat | Err _ => False end)
    by (vm_compute; reflexivity).
  destruct (list_team_access bob 1000 (world with_key 4000)) as [[l|e] w'] eqn:E; [|destruct Hok].
  split; [exact Hok|]. refine (proj1 (proj2 (access_list_is_exact bob 1000 (world with_key 4000) l w' _ E))).
  apply people_emails_unique. vm_compute. reflexivity.
Defined.
