(* ===== verification/Shell.v ===== *)
(** * Shell: quoting, and the words a POSIX shell reads

    [apps/desktop/src-tauri/src/ssh/command.rs] ([quote],
    [reject_shell_metacharacters], [reject_newlines]) and [shell_quote] of
    [apps/agent/src/transport/connection.rs].

    The shell is not part of the repository.  [tokens] is token recognition as
    POSIX has it (XCU 2.2 and 2.3) on the fragment in which nothing is
    expanded: blanks separate words, a backslash or a pair of single quotes
    takes what follows literally, an operator character ends a word.  A
    character that would start an expansion, a double quote or a comment is
    outside the fragment, and a NUL cannot be part of a command: both make
    [tokens] fail. *)

From S2P Require Import Prelude Text.

#[local] Open Scope Z_scope.

(** ** The shell *)

Inductive Token : Type :=
| Word (w : list Z)
| Op (c : Z).

#[global] Instance token_eq_dec : EqDecision Token.
Proof. solve_decision. Defined.

Definition is_blank (c : Z) : bool := (c =? 32) || (c =? 9).

(** The newline, and the characters operators are made of: | & ; < > ( ). *)
Definition is_operator (c : Z) : bool :=
  (c =? 10) || (c =? 124) || (c =? 38) || (c =? 59) || (c =? 60) || (c =? 62) || (c =? 40) || (c =? 41).

(** NUL, and what starts an expansion, a pattern, a comment or a double quote: $ ` dquote * ? [ # ~ *)
Definition leaves_fragment (c : Z) : bool :=
  (c =? 0) || (c =? 36) || (c =? 96) || (c =? 34) || (c =? 42) || (c =? 63) || (c =? 91) || (c =? 35) || (c =? 126).

Definition flush (cur : option (list Z)) : list Token := match cur with Some w => [Word w] | None => [] end.

Inductive Mode : Type := Bare | Single | Escaped.

(** [cur] is the word being read, if one was started. *)
Fixpoint lex (mode : Mode) (cur : option (list Z)) (s : list Z) : option (list Token) :=
  match s with
  | [] => match mode with Bare => Some (flush cur) | _ => None end
  | c :: s =>
      let push := Some (default [] cur ++ [c]) in
      match mode with
      | Single => if c =? 0 then None else if c =? 39 then lex Bare cur s else lex Single push s
      | Escaped => if c =? 0 then None else if c =? 10 then lex Bare cur s else lex Bare push s
      | Bare =>
          if c =? 39 then lex Single (Some (default [] cur)) s
          else if c =? 92 then lex Escaped cur s
          else if is_blank c then app (flush cur) <$> lex Bare None s
          else if is_operator c then (fun t => flush cur ++ Op c :: t) <$> lex Bare None s
          else if leaves_fragment c then None
          else lex Bare push s
      end
  end.

Definition tokens (command : list Z) : option (list Token) := lex Bare None command.

Example tokens_sample : tokens (lit "docker logs 'a b' 2>&1") =
  Some [Word (lit "docker"); Word (lit "logs"); Word (lit "a b"); Word (lit "2"); Op 62; Op 38; Word (lit "1")].
Proof. reflexivity. Qed.

Example tokens_substitution : tokens (lit "echo $(id)") = None.
Proof. reflexivity. Qed.

(** ** Quoting *)

(** [ssh::command::quote]: the loop over the characters. *)
Definition quote_char (c : Z) : list Z := if c =? 39 then [39; 92; 39; 39] else [c].
Definition quote (value : list Z) : list Z := [39] ++ (value ≫= quote_char) ++ [39].

(** [str::replace] of one character by a string. *)
Fixpoint replace_char (c : Z) (by_ value : list Z) : list Z :=
  match value with
  | [] => []
  | x :: value => if x =? c then by_ ++ replace_char c by_ value else x :: replace_char c by_ value
  end.

(** The Agent's [shell_quote]. *)
Definition shell_quote (value : list Z) : list Z := [39] ++ replace_char 39 [39; 92; 39; 39] value ++ [39].

(** ** Rejecting what cannot be quoted *)

(** What [AppError::InvalidInput] says, by the field and the reason. *)
Inductive Reason : Type :=
| CannotContain (c : Z) | HasNewline | IsRequired | TooLong | NotAHost | NotAWireguardKey | NotIpv4 | NotCidr
| BadPrefix | HostBits (network bits : Z) | NotAbsolute | HasNul | HasParent | SharedDirectory | NotOctal | NotAUsername | Other (text : list Z).
Record InvalidInput : Type := mkInvalid { field : list Z; reason : Reason }.

Definition AppResult (A : Type) : Type := result InvalidInput A.

Definition SHELL_METACHARACTERS : list Z := [36; 96; 92; 10; 13; 0].

Definition reject_shell_metacharacters (value field : list Z) : AppResult unit :=
  match find_first (fun c => bool_decide (c ∈ SHELL_METACHARACTERS)) value with
  | Some found => Err (mkInvalid field (CannotContain found))
  | None => Ok tt
  end.

Definition reject_newlines (value field : list Z) : AppResult unit :=
  if contains_char 10 value || contains_char 13 value || contains_char 0 value then Err (mkInvalid field HasNewline) else Ok tt.

(** ** Facts *)

Lemma lex_single value : forall cur rest, contains_char 0 value = false ->
  lex Single (Some cur) ((value ≫= quote_char) ++ 39 :: rest) = lex Bare (Some (cur ++ value)) rest.
Proof.
  induction value as [|c value IH]; intros cur rest Hn.
  - cbn. by rewrite app_nil_r.
  - unfold contains_char in Hn. cbn [existsb] in Hn. apply orb_false_iff in Hn as [Hc Hn]. rewrite Z.eqb_sym in Hc. rewrite bind_cons, <-app_assoc. unfold quote_char at 1.
    replace (cur ++ c :: value) with ((cur ++ [c]) ++ value) by (by rewrite <-app_assoc). rewrite <-IH by done.
    destruct (c =? 39) eqn:Eq.
    + apply Z.eqb_eq in Eq as ->. reflexivity.
    + cbn [app lex]. by rewrite Hc, Eq.
Qed.

(** A quoted value is read as itself, whatever stands around it. *)
Lemma lex_quote value cur rest : contains_char 0 value = false ->
  lex Bare cur (quote value ++ rest) = lex Bare (Some (default [] cur ++ value)) rest.
Proof.
  intros Hn. unfold quote. rewrite <-!app_assoc. rewrite <-(lex_single value _ rest Hn). reflexivity.
Qed.

Lemma shell_quote_eq value : shell_quote value = quote value.
Proof.
  unfold shell_quote, quote. f_equal. f_equal. induction value as [|c value IH]; [done|]. rewrite bind_cons. unfold quote_char at 1.
  cbn [replace_char]. rewrite IH. by destruct (c =? 39).
Qed.

Lemma lex_blank cur rest : lex Bare cur (32 :: rest) = app (flush cur) <$> lex Bare None rest.
Proof. reflexivity. Qed.

Lemma lex_semicolon cur rest : lex Bare cur (59 :: rest) = (fun toks => flush cur ++ Op 59 :: toks) <$> lex Bare None rest.
Proof. reflexivity. Qed.

(** A word none of whose characters means anything to the shell. *)
Definition plain_char (c : Z) : bool :=
  negb ((c =? 39) || (c =? 92) || is_blank c || is_operator c || leaves_fragment c).

Lemma lex_plain w : forall cur rest, forallb plain_char w = true -> w <> [] ->
  lex Bare cur (w ++ rest) = lex Bare (Some (default [] cur ++ w)) rest.
Proof.
  induction w as [|c w IH]; intros cur rest Hp Hne; [done|]. cbn [forallb] in Hp. apply andb_true_iff in Hp as [Hc Hp].
  unfold plain_char in Hc. rewrite negb_true_iff, !orb_false_iff in Hc. destruct Hc as ((((H1 & H2) & H3) & H4) & H5).
  cbn [app lex]. rewrite H1, H2, H3, H4, H5. destruct w as [|c' w]; [done|]. rewrite IH by done. simpl. by rewrite <-app_assoc.
Qed.

Lemma lex_word w rest : forallb plain_char w = true -> w <> [] -> lex Bare None (w ++ 32 :: rest) = cons (Word w) <$> lex Bare None rest.
Proof. intros Hp Hne. rewrite lex_plain by done. cbn [default from_option app]. by rewrite lex_blank. Qed.

Lemma lex_quoted_word w rest : contains_char 0 w = false -> lex Bare None (quote w ++ 32 :: rest) = cons (Word w) <$> lex Bare None rest.
Proof. intros Hp. rewrite lex_quote by done. cbn [default from_option app]. by rewrite lex_blank. Qed.

Lemma lex_last_word w : forallb plain_char w = true -> w <> [] -> lex Bare None w = Some [Word w].
Proof. intros Hp Hne. rewrite <-(app_nil_r w) at 1. by rewrite lex_plain. Qed.

Lemma join_cons (sep a b : list Z) l : join sep (a :: b :: l) = a ++ sep ++ join sep (b :: l).
Proof. reflexivity. Qed.

Lemma tokens_quoted args : Forall (fun a => contains_char 0 a = false) args ->
  lex Bare None (join [32] (map quote args)) = Some (map Word args).
Proof.
  induction 1 as [|a args Ha Hargs IH]; [done|]. destruct args as [|b args].
  - cbn [map join]. rewrite <-(app_nil_r (quote a)), lex_quote by done. done.
  - cbn [map]. rewrite join_cons, lex_quote by done. change ([32] ++ ?x) with (32 :: x). rewrite lex_blank. cbn [map] in IH. by rewrite IH.
Qed.

(** C39: Whatever values an operator, a Node or the database supplies, a
    command made of their quotations is read by the shell as exactly those
    values, one argument each: nothing in them is expanded, ends its argument
    or becomes a command of its own. *)
Theorem quoted_values_are_arguments args :
  Forall (fun a => contains_char 0 a = false) args ->
  tokens (join [32] (map quote args)) = Some (map Word args) /\
  tokens (join [32] (map shell_quote args)) = Some (map Word args).
Proof.
  intros Ha. unfold tokens. rewrite (map_ext shell_quote quote) by apply shell_quote_eq. split; by apply tokens_quoted.
Qed.

Lemma quoted_values_are_arguments_witness :
  tokens (join [32] (map quote [lit "x'; rm -rf /; '"; lit "$(id)"; []])) = Some [Word (lit "x'; rm -rf /; '"); Word (lit "$(id)"); Word []].
Proof. apply (quoted_values_are_arguments [lit "x'; rm -rf /; '"; lit "$(id)"; []]). repeat constructor. Defined.
