(* ===== verification/Pairing.v ===== *)
(** * Pairing: how a desktop becomes trusted by an Agent

    [apps/agent/src/pairing/mod.rs] and [pairing/credential.rs], and the code a
    desktop generates, [crates/protocol/src/pairing.rs].

    The one file the Agent keeps, [paired_credential.json], is the [cf_bytes]
    of [CredentialDir]; reading and writing JSON is the class [CredentialJson],
    whose law is that what was written is read back.  What the clock, the
    random generator and the file system answer is an argument of each
    operation. *)

From S2P Require Import Prelude Text Db Api Accounts DeviceKeys Sample Sessions TwoFactor.

#[local] Open Scope Z_scope.

(** ** The registry of pairing codes *)

Definition MAX_FAILED_ATTEMPTS : Z := 10.

(** [chrono::Duration::minutes] in microseconds, as the clock counts. *)
Definition PAIRING_CODE_TTL : Z := 5 * 60 * MICROS.

Record PendingCode : Type := mkPending { pc_code : list Z; pc_expires_at : Z; pc_failed_attempts : Z }.

(** [RegistryState]: the pending code, if there is one. *)
Definition RegistryState : Type := option PendingCode.

(** [credential::constant_time_eq]: the early return on the lengths, then the loop. *)
Fixpoint diff_loop (diff : Z) (a b : list Z) : Z :=
  match a, b with
  | x :: a, y :: b => diff_loop (Z.lor diff (Z.lxor x y)) a b
  | _, _ => diff
  end.

Definition constant_time_eq (a b : list Z) : bool :=
  if negb (Nat.eqb (length a) (length b)) then false else diff_loop 0 a b =? 0.

(** [PairingRegistry::register]. *)
Definition register (now : Z) (code : list Z) (ttl : Z) (state : RegistryState) : RegistryState :=
  Some (mkPending code (now + ttl) 0).

(** [PairingRegistry::try_consume]. *)
Definition try_consume (now : Z) (candidate : list Z) (state : RegistryState) : bool * RegistryState :=
  match state with
  | None => (false, None)
  | Some pending =>
      if pending.(pc_expires_at) <? now then (false, None)
      else if constant_time_eq (utf8 pending.(pc_code)) (utf8 candidate) then (true, None)
      else
        let failed_attempts := pending.(pc_failed_attempts) + 1 in
        if MAX_FAILED_ATTEMPTS <=? failed_attempts then (false, None)
        else (false, Some (mkPending pending.(pc_code) pending.(pc_expires_at) failed_attempts))
  end.

(** ** The durable credential *)

Record PersistedCredential : Type := mkPersisted { cr_hash : list Z; cr_paired_at : Z }.

(** [serde_json] on that record. *)
Class CredentialJson : Type := {
  to_vec_pretty : PersistedCredential -> list Z;
  from_slice : list Z -> option PersistedCredential;
  from_to : forall r, from_slice (to_vec_pretty r) = Some r;
}.

(** What is in the data directory: no credential file, or its bytes. *)
Definition CredentialDir : Type := option (list Z).

(** What the machine answers [issue_credential]: the random id, the clock,
    whether the directory could be made, and how the write went.  A write that
    failed may leave anything behind. *)
Inductive Written : Type := WriteOk | WriteFailed (left_behind : CredentialDir).
Record IssueEnv : Type := mkIssueEnv { ie_uuid : N; ie_now : Z; ie_create_dir : bool; ie_write : Written }.

Definition hex_encode (bytes : list Z) : list Z := bytes ≫= hex_byte.

Section credential.
Context `{Digests, CredentialJson}.

(** [credential::hash]. *)
Definition credential_hash (raw : list Z) : list Z := hex_encode (sha256 (utf8 raw)).

(** [Uuid::simple]: 32 hexadecimal digits. *)
Definition simple (id : N) : list Z := hex_fixed 32 (Z.of_N id).

Definition issue_credential (env : IssueEnv) (dir : CredentialDir) : option (list Z) * CredentialDir :=
  let raw := simple env.(ie_uuid) in
  let record := mkPersisted (credential_hash raw) env.(ie_now) in
  if negb env.(ie_create_dir) then (None, dir)
  else match env.(ie_write) with
       | WriteFailed left_behind => (None, left_behind)
       | WriteOk => (Some raw, Some (to_vec_pretty record))
       end.

(** [readable] is whether [fs::read] succeeds. *)
Definition verify_credential (readable : bool) (dir : CredentialDir) (candidate : list Z) : bool :=
  match (if readable then dir else None) with
  | None => false
  | Some bytes =>
      match from_slice bytes with
      | None => false
      | Some record => constant_time_eq (utf8 record.(cr_hash)) (utf8 (credential_hash candidate))
      end
  end.

Definition has_paired_credential (dir : CredentialDir) : bool := bool_decide (is_Some dir).
End credential.

(** ** The code the desktop shows *)

Definition PREFIX : list Z := lit "VIBE".
Definition GROUP_LEN : nat := 4.
Definition GROUP_COUNT : nat := 2.
Definition PAIRING_ALPHABET : list Z := lit "23456789ABCDEFGHJKMNPQRSTVWXYZ".

(** [gen_range(0..ALPHABET.len())] draws an index below the length; [draw i] is the [i]-th one drawn. *)
Definition pairing_group (draw : nat -> nat) (first : nat) : list Z :=
  map (fun i => nth (draw (first + i)%nat) PAIRING_ALPHABET 0) (seq 0 GROUP_LEN).

Definition generate_pairing_code (draw : nat -> nat) : list Z :=
  PREFIX ++ (seq 0 GROUP_COUNT ≫= fun g => 45 :: pairing_group draw (g * GROUP_LEN)%nat).

(** ** Facts *)

Lemma diff_loop_spec a : forall diff b, length a = length b -> diff_loop diff a b = 0 <-> diff = 0 /\ a = b.
Proof.
  induction a as [|x a IH]; intros diff [|y b] Hl; simpl in *; try done; [naive_solver|].
  rewrite IH, Z.lor_eq_0_iff, Z.lxor_eq_0_iff by lia. naive_solver.
Qed.

Lemma pairing_eq_spec a b : constant_time_eq a b = true <-> a = b.
Proof.
  unfold constant_time_eq. destruct (Nat.eqb_spec (length a) (length b)) as [Hl|Hl]; simpl.
  - rewrite Z.eqb_eq, diff_loop_spec by done. naive_solver.
  - split; [done|]. by intros ->.
Qed.

Lemma text_eq_spec a b : scalars a -> scalars b -> constant_time_eq (utf8 a) (utf8 b) = true <-> a = b.
Proof. intros Ha Hb. rewrite pairing_eq_spec. split; [by apply utf8_inj|by intros ->]. Qed.

(** The Agent's comparison and the backend's are the same function. *)
Lemma constant_time_eq_agree a b : constant_time_eq a b = TwoFactor.constant_time_eq a b.
Proof. apply eq_bool_prop_intro. rewrite !Is_true_true, pairing_eq_spec. symmetry. apply constant_time_eq_spec. Qed.

(** ** Guessing *)

(** The answers to a sequence of guesses, each at the time it arrives. *)
Fixpoint guesses (state : RegistryState) (attempts : list (Z * list Z)) : list bool :=
  match attempts with
  | [] => []
  | (now, candidate) :: attempts =>
      let '(answer, state) := try_consume now candidate state in answer :: guesses state attempts
  end.

Lemma guesses_none attempts : Forall (eq false) (guesses None attempts).
Proof. induction attempts as [|[now c] attempts IH]; simpl; constructor; done. Qed.

(** When the [i]-th guess opens a code: it is the code, it was not guessed
    before, fewer wrong guesses than the limit came before it, and every guess
    so far arrived in time. *)
Definition opens (code : list Z) (deadline failed : Z) (attempts : list (Z * list Z)) (i : nat) : Prop :=
  (exists now, attempts !! i = Some (now, code)) /\ failed + Z.of_nat i < MAX_FAILED_ATTEMPTS /\
  (forall j a, (j < i)%nat -> attempts !! j = Some a -> a.2 <> code) /\
  (forall j a, (j <= i)%nat -> attempts !! j = Some a -> a.1 <= deadline).

Lemma opens_zero code deadline failed now c attempts :
  opens code deadline failed ((now, c) :: attempts) 0 <-> c = code /\ now <= deadline /\ failed < MAX_FAILED_ATTEMPTS.
Proof.
  unfold opens. simpl. split.
  - intros ([n Hn] & Hf & _ & Ht). specialize (Ht 0%nat (now, c) ltac:(lia) eq_refl). simpl in Ht. split_and!; [congruence|done|lia].
  - intros (-> & Hn & Hf). split_and!; [eauto|lia|lia|]. intros [|j] a Hj Ha; [by simplify_eq/=|lia].
Qed.

Lemma opens_succ code deadline failed now c attempts i :
  opens code deadline failed ((now, c) :: attempts) (S i) <-> c <> code /\ now <= deadline /\ opens code deadline (failed + 1) attempts i.
Proof.
  unfold opens. simpl. split.
  - intros (He & Hf & Hn & Ht). split_and!; [by apply (Hn 0%nat (now, c)); [lia|]|by apply (Ht 0%nat (now, c)); [lia|]|done|lia| |].
    + intros j a Hj Ha. apply (Hn (S j)); [lia|done].
    + intros j a Hj Ha. apply (Ht (S j)); [lia|done].
  - intros (Hc & Hnow & He & Hf & Hn & Ht). split_and!; [done|lia| |].
    + intros [|j] a Hj Ha; [by simplify_eq/=|]. apply (Hn j); [lia|done].
    + intros [|j] a Hj Ha; [by simplify_eq/=|]. apply (Ht j); [lia|done].
Qed.

Lemma guesses_none_false attempts i : guesses None attempts !! i <> Some true.
Proof. intros Hi. pose proof (guesses_none attempts) as Hg. rewrite Forall_lookup in Hg. by specialize (Hg _ _ Hi). Qed.

Lemma guesses_spec code deadline attempts : scalars code -> Forall (fun a => scalars a.2) attempts ->
  forall failed i, failed < MAX_FAILED_ATTEMPTS ->
  guesses (Some (mkPending code deadline failed)) attempts !! i = Some true <-> opens code deadline failed attempts i.
Proof.
  intros Hcode Hall. induction Hall as [|[now c] attempts Hc Hall IH]; intros failed i Hf.
  - unfold opens. split; [done|]. intros ([n Hn] & _). done.
  - pose proof (guesses_none_false attempts) as Hnone. cbn [guesses try_consume pc_code pc_expires_at pc_failed_attempts].
    assert (Hz : forall b l, (b :: l) !! 0%nat = Some true <-> b = true) by (intros b l; simpl; naive_solver).
    destruct (Z.ltb_spec deadline now) as [Hlate|Htime]; [|destruct (constant_time_eq _ _) eqn:Eq].
    + destruct i as [|i]; [rewrite Hz, opens_zero; naive_solver lia|rewrite opens_succ; simpl; naive_solver lia].
    + apply text_eq_spec in Eq as ->; [|done|done].
      destruct i as [|i]; [rewrite Hz, opens_zero; naive_solver|rewrite opens_succ; simpl; naive_solver].
    + apply not_true_iff_false in Eq. rewrite text_eq_spec in Eq by done.
      destruct (Z.leb_spec MAX_FAILED_ATTEMPTS (failed + 1)) as [Hburn|Hleft];
        (destruct i as [|i]; [rewrite Hz, opens_zero; naive_solver|rewrite opens_succ; simpl]).
      * split; [naive_solver|]. intros (_ & _ & _ & Hi & _). lia.
      * rewrite IH by lia. naive_solver.
Qed.

(** C40: A pairing code lets in exactly the first guess that is the code, if
    fewer than ten wrong guesses came before it and none of the guesses so far
    came later than five minutes after the code was registered.  So a code
    works once, ten wrong guesses burn it, and it dies with its time. *)
Theorem pairing_code_opens_once now0 code attempts i state :
  scalars code -> Forall (fun a => scalars a.2) attempts ->
  guesses (register now0 code PAIRING_CODE_TTL state) attempts !! i = Some true <->
  (exists now, attempts !! i = Some (now, code)) /\ Z.of_nat i < 10 /\
  (forall j a, (j < i)%nat -> attempts !! j = Some a -> a.2 <> code) /\
  (forall j a, (j <= i)%nat -> attempts !! j = Some a -> a.1 <= now0 + 5 * 60 * MICROS).
Proof.
  intros Hcode Hall. unfold register. rewrite guesses_spec by (done || reflexivity). unfold opens, MAX_FAILED_ATTEMPTS. by rewrite Z.add_0_l.
Qed.

Lemma pairing_code_opens_once_witness :
  guesses (register 0 (lit "VIBE-J7K4-92QT") PAIRING_CODE_TTL None) [(1, lit "no"); (2, lit "VIBE-J7K4-92QT"); (3, lit "VIBE-J7K4-92QT")] !! 1%nat = Some true.
Proof.
  apply (pairing_code_opens_once 0 (lit "VIBE-J7K4-92QT") [(1, lit "no"); (2, lit "VIBE-J7K4-92QT"); (3, lit "VIBE-J7K4-92QT")] 1 None).
  - repeat constructor; lia.
  - repeat constructor; simpl; lia.
  - split_and!; [eexists; reflexivity|lia| |].
    + intros [|j] a Hj Ha; [by injection Ha as <-|lia].
    + intros [|[|j]] a Hj Ha; [injection Ha as <-; vm_compute; congruence|injection Ha as <-; vm_compute; congruence|lia].
Defined.

(** ** The code's shape *)

(** Every code is the prefix and two groups of four characters of the
    alphabet, whatever the generator draws. *)
Lemma pairing_code_shape draw : (forall i, (draw i < length PAIRING_ALPHABET)%nat) ->
  exists a b, generate_pairing_code draw = PREFIX ++ [45] ++ a ++ [45] ++ b /\ length a = GROUP_LEN /\ length b = GROUP_LEN
    /\ Forall (fun c => c ∈ PAIRING_ALPHABET) a /\ Forall (fun c => c ∈ PAIRING_ALPHABET) b.
Proof.
  intros Hd. exists (pairing_group draw 0), (pairing_group draw GROUP_LEN).
  assert (Hg : forall n, Forall (fun c => c ∈ PAIRING_ALPHABET) (pairing_group draw n)).
  { intros n. unfold pairing_group. apply Forall_forall. intros c Hc. apply list_elem_of_In, List.in_map_iff in Hc as (i & <- & _).
    apply list_elem_of_In, nth_In. apply Hd. }
  split_and!; [reflexivity|reflexivity|reflexivity|apply Hg|apply Hg].
Qed.
