(* ===== verification/Agent.v ===== *)
(** * Agent: one connection from a desktop

    [apps/agent/src/transport/connection.rs], [transport/control.rs],
    [capabilities.rs] and the message types of [crates/protocol/src].

    What the outside does (frames that arrive, whether a send succeeds, what
    the file system answers) is data of the events.  [serde_json] on incoming
    text is the class [WireJson].  A follow's process has the number of the
    spawn that made it; [cs_running] are the ones still alive. *)

From S2P Require Import Prelude Text Db Api Accounts DeviceKeys Sample Sessions TwoFactor Shell Pairing.

#[local] Open Scope Z_scope.

(** ** The protocol *)

Definition PROTOCOL_VERSION : Z := 1.

Inductive ProtocolErrorCode : Type := VersionMismatch | Unauthorized | RateLimited | InvalidMessage | Internal.

Record AgentCapabilities : Type := mkCapabilities { docker : bool; systemd : bool; minecraft : bool; file_access : bool; terminal : bool }.
Definition no_capabilities : AgentCapabilities := mkCapabilities false false false false false.

Record HandshakeRequest : Type := mkRequest {
  rq_protocol_version : Z; rq_client_name : list Z; rq_client_version : list Z; rq_auth_token : option (list Z);
}.

Record HandshakeResponse : Type := mkResponse {
  rs_accepted : bool; rs_agent_id : N; rs_agent_version : list Z; rs_protocol_version : Z;
  rs_error : option ProtocolErrorCode; rs_issued_credential : option (list Z); rs_capabilities : AgentCapabilities;
}.

(** [NodeDesiredState] has no fields. *)
Inductive DesktopCommand : Type :=
| ApplyDesiredState (revision : Z)
| FollowLogs (follow_id : N) (container : list Z) (tail : Z)
| StopFollowingLogs (follow_id : N).

Record LogLine : Type := mkLine { ll_source : list Z; ll_line : list Z; ll_timestamp : Z; ll_follow_id : option N }.

(** The events this Agent sends; a sample of metrics is opaque. *)
Inductive ServerEvent : Type :=
| Heartbeat
| MetricsUpdate (metrics : list Z)
| LogsLine (line : LogLine)
| StateApplied (revision : Z) (ok : bool) (error : option (list Z)).

Class WireJson : Type := {
  parse_handshake : list Z -> option HandshakeRequest;
  parse_command : list Z -> option DesktopCommand;
}.

(** ** What the host can do *)

(** [str::contains] of a string. *)
Fixpoint contains (needle s : list Z) : bool :=
  starts_with needle s || match s with [] => false | _ :: s => contains needle s end.

Definition MARKERS : list (list Z) :=
  [lit "paper.jar"; lit "spigot.jar"; lit "purpur.jar"; lit "server.jar"; lit "fabric-server"; lit "forge"; lit "bukkit"].

(** What the file system answers: the entries of /proc with the decoded
    command line of each one that could be read. *)
Record Host : Type := mkHost {
  h_docker_sock : bool; h_systemd_dir : bool; h_bin_sh : bool; h_proc : option (list (list Z * option (list Z)));
}.

Section detect.
Context `{UnicodeCase}.

Definition is_minecraft (cmdline : list Z) : bool :=
  let cmdline := to_lowercase (replace_char 0 [32] cmdline) in
  contains (lit "java") cmdline && existsb (fun marker => contains marker cmdline) MARKERS.

Fixpoint detect_minecraft (entries : list (list Z * option (list Z))) : bool :=
  match entries with
  | [] => false
  | (name, cmdline) :: entries =>
      match parse_u32 name, cmdline with
      | Some _, Some cmdline => if is_minecraft cmdline then true else detect_minecraft entries
      | _, _ => detect_minecraft entries
      end
  end.

Definition detect (h : Host) : AgentCapabilities :=
  mkCapabilities h.(h_docker_sock) h.(h_systemd_dir)
    (match h.(h_proc) with None => false | Some entries => detect_minecraft entries end) true h.(h_bin_sh).
End detect.

(** ** The handshake *)

(** [SharedState]: who the Agent is, its data directory and its registry. *)
Record SharedState : Type := mkShared {
  ss_id : N; ss_version : list Z; ss_dir : CredentialDir; ss_pairing : RegistryState;
}.

Definition with_trust (st : SharedState) (dir : CredentialDir) (pairing : RegistryState) : SharedState :=
  mkShared st.(ss_id) st.(ss_version) dir pairing.

(** [control::pair]: the loopback endpoint, the only caller of [register]. *)
Definition pair_ (now : Z) (code : list Z) (st : SharedState) : SharedState :=
  with_trust st st.(ss_dir) (register now code PAIRING_CODE_TTL st.(ss_pairing)).

(** The first frame, or what came instead of it. *)
Inductive FirstFrame : Type := FirstText (text : list Z) | FirstOther | FirstTimeout.

Record HandshakeEnv : Type := mkEnv {
  he_readable : bool; he_now : Z; he_issue : IssueEnv; he_host : Host; he_send : bool;
}.

Inductive AuthOutcome : Type :=
| AlreadyPaired
| NewlyPaired (raw_credential : list Z)
| CredentialIssueFailed
| Rejected.

Section handshake.
Context `{UnicodeCase, Digests, CredentialJson, WireJson}.

Definition authenticate (env : HandshakeEnv) (token : option (list Z)) (st : SharedState) : AuthOutcome * SharedState :=
  match token with
  | None => (Rejected, st)
  | Some token =>
      if verify_credential env.(he_readable) st.(ss_dir) token then (AlreadyPaired, st)
      else
        let '(consumed, pairing) := try_consume env.(he_now) token st.(ss_pairing) in
        if consumed
        then
          let '(issued, dir) := issue_credential env.(he_issue) st.(ss_dir) in
          match issued with
          | Some raw => (NewlyPaired raw, with_trust st dir pairing)
          | None => (CredentialIssueFailed, with_trust st dir pairing)
          end
        else (Rejected, with_trust st st.(ss_dir) pairing)
  end.

Definition rejection (st : SharedState) (code : ProtocolErrorCode) : HandshakeResponse :=
  mkResponse false st.(ss_id) st.(ss_version) PROTOCOL_VERSION (Some code) None no_capabilities.

Definition acceptance (env : HandshakeEnv) (st : SharedState) (issued : option (list Z)) : HandshakeResponse :=
  mkResponse true st.(ss_id) st.(ss_version) PROTOCOL_VERSION None issued (detect env.(he_host)).

(** [perform_handshake]: whether the connection goes on, and the one response
    handed to the socket, if any. *)
Definition perform_handshake (env : HandshakeEnv) (frame : FirstFrame) (st : SharedState)
    : bool * option HandshakeResponse * SharedState :=
  match frame with
  | FirstOther | FirstTimeout => (false, None, st)
  | FirstText text =>
      match parse_handshake text with
      | None => (false, Some (rejection st InvalidMessage), st)
      | Some request =>
          if negb (request.(rq_protocol_version) =? PROTOCOL_VERSION)
          then (false, Some (rejection st VersionMismatch), st)
          else
            let '(outcome, st) := authenticate env request.(rq_auth_token) st in
            match outcome with
            | AlreadyPaired => (env.(he_send), Some (acceptance env st None), st)
            | NewlyPaired raw => (env.(he_send), Some (acceptance env st (Some raw)), st)
            | CredentialIssueFailed => (false, Some (rejection st Internal), st)
            | Rejected => (false, Some (rejection st Unauthorized), st)
            end
      end
  end.
End handshake.

(** ** Following logs *)

(** [u32::clamp]. *)
Definition clamp_u32 (x lo hi : Z) : Z := if x <? lo then lo else if hi <? x then hi else x.

(** The command line of [start_follow]. *)
Definition follow_command (container : list Z) (tail : Z) : list Z :=
  lit "docker logs --tail " ++ to_dec (clamp_u32 tail 1 5000) ++ lit " -f " ++ shell_quote container ++ lit " 2>&1".

(** One connection: [follows] by the Desktop's id, the processes alive, the
    number of the next one, and what was handed to the socket. *)
Record ConnState : Type := mkConn {
  cs_follows : gmap N N; cs_running : gset N; cs_next : N; cs_sent : list ServerEvent;
}.
Definition connected : ConnState := mkConn ∅ ∅ 0 [].

Definition sent (e : ServerEvent) (cs : ConnState) : ConnState :=
  mkConn cs.(cs_follows) cs.(cs_running) cs.(cs_next) (cs.(cs_sent) ++ [e]).

(** [follows.remove] and [kill] of what was there. *)
Definition stop (follow_id : N) (cs : ConnState) : ConnState :=
  match cs.(cs_follows) !! follow_id with
  | None => cs
  | Some p => mkConn (delete follow_id cs.(cs_follows)) (cs.(cs_running) ∖ {[ p ]}) cs.(cs_next) cs.(cs_sent)
  end.

(** [handle_command]; [spawned] is whether the process could be started and
    [ok] whether the socket took the answer. *)
Definition handle_command (spawned ok : bool) (command : DesktopCommand) (cs : ConnState) : bool * ConnState :=
  match command with
  | ApplyDesiredState revision => (ok, sent (StateApplied revision true None) cs)
  | FollowLogs follow_id container tail =>
      let cs := stop follow_id cs in
      (true,
        if spawned
        then mkConn (<[follow_id := cs.(cs_next)]> cs.(cs_follows)) ({[ cs.(cs_next) ]} ∪ cs.(cs_running)) (cs.(cs_next) + 1) cs.(cs_sent)
        else cs)
  | StopFollowingLogs follow_id => (true, stop follow_id cs)
  end.

(** ** The loop *)

Inductive Inbound : Type := InClose | InEnd | InText (text : list Z) | InOther | InError.

(** One turn of [select!], or a process ending by itself. *)
Inductive LoopEvent : Type :=
| LineReceived (line : option LogLine)
| HeartbeatTick
| MetricsTick (metrics : list Z)
| Incoming (message : Inbound)
| ChildExits (p : N).

(** What the machine answers in that turn. *)
Record Turn : Type := mkTurn { tn_event : LoopEvent; tn_send : bool; tn_spawn : bool }.

Section loop.
Context `{WireJson}.

(** One turn: whether the loop goes on. *)
Definition turn (t : Turn) (cs : ConnState) : bool * ConnState :=
  match t.(tn_event) with
  | LineReceived (Some line) => (t.(tn_send), sent (LogsLine line) cs)
  | LineReceived None => (false, cs)
  | HeartbeatTick => (t.(tn_send), sent Heartbeat cs)
  | MetricsTick metrics => (t.(tn_send), sent (MetricsUpdate metrics) cs)
  | Incoming InClose | Incoming InEnd => (false, cs)
  | Incoming (InText text) =>
      match parse_command text with
      | Some command => handle_command t.(tn_spawn) t.(tn_send) command cs
      | None => (true, cs)
      end
  | Incoming InOther => (true, cs)
  | Incoming InError => (false, cs)
  | ChildExits p => (true, mkConn cs.(cs_follows) (cs.(cs_running) ∖ {[ p ]}) cs.(cs_next) cs.(cs_sent))
  end.

(** Dropping the registry: [kill_on_drop] on each child in it. *)
Definition drop_follows (cs : ConnState) : ConnState :=
  mkConn ∅ (cs.(cs_running) ∖ map_img cs.(cs_follows)) cs.(cs_next) cs.(cs_sent).

(** The turns until the loop returns; [true] while it has not. *)
Fixpoint turns (ts : list Turn) (cs : ConnState) : bool * ConnState :=
  match ts with
  | [] => (true, cs)
  | t :: ts =>
      let '(goes_on, cs) := turn t cs in
      if goes_on then turns ts cs else (false, drop_follows cs)
  end.
End loop.

(** ** Who gets in *)

Section trust.
Context `{UnicodeCase, Digests, CredentialJson, WireJson}.

(** The stored credential is the hash of [token]. *)
Definition is_stored (dir : CredentialDir) (token : list Z) : Prop :=
  exists bytes record, dir = Some bytes /\ from_slice bytes = Some record /\ utf8 record.(cr_hash) = utf8 (credential_hash token).

Lemma verify_credential_spec readable dir token :
  verify_credential readable dir token = true <-> readable = true /\ is_stored dir token.
Proof.
  unfold verify_credential, is_stored. destruct readable; [|split; [done|by intros [? _]]].
  destruct dir as [bytes|]; [|split; [done|naive_solver]]. destruct (from_slice bytes) as [record|] eqn:E; [|split; [done|naive_solver]].
  rewrite pairing_eq_spec. naive_solver.
Qed.

Lemma is_stored_issued raw t : is_stored (Some (to_vec_pretty (mkPersisted (credential_hash raw) t))) raw.
Proof. unfold is_stored. eexists _, _. split; [done|]. by rewrite from_to. Qed.

Lemma try_consume_true now token st st' : try_consume now token st = (true, st') ->
  st' = None /\ exists p, st = Some p /\ now <= p.(pc_expires_at) /\ utf8 p.(pc_code) = utf8 token.
Proof.
  unfold try_consume. destruct st as [p|]; [|done]. destruct (Z.ltb_spec p.(pc_expires_at) now); [done|].
  destruct (constant_time_eq _ _) eqn:E; [|by case_match]. apply pairing_eq_spec in E. intros [= <-]. eauto.
Qed.

(** How a token is taken. *)
Inductive taken (env : HandshakeEnv) (token : list Z) (st : SharedState) : option (list Z) -> SharedState -> Prop :=
| taken_credential : he_readable env = true -> is_stored st.(ss_dir) token -> taken env token st None st
| taken_code p raw :
    st.(ss_pairing) = Some p -> utf8 p.(pc_code) = utf8 token -> env.(he_now) <= p.(pc_expires_at) ->
    raw = simple env.(he_issue).(ie_uuid) ->
    taken env token st (Some raw)
      (with_trust st (Some (to_vec_pretty (mkPersisted (credential_hash raw) env.(he_issue).(ie_now)))) None).

Lemma authenticate_spec env token st outcome st' : authenticate env token st = (outcome, st') ->
  match outcome with
  | AlreadyPaired => exists tok, token = Some tok /\ taken env tok st None st'
  | NewlyPaired raw => exists tok, token = Some tok /\ taken env tok st (Some raw) st'
  | CredentialIssueFailed => st'.(ss_pairing) = None /\ is_Some st.(ss_pairing)
  | Rejected => st'.(ss_dir) = st.(ss_dir)
  end.
Proof.
  unfold authenticate. destruct token as [tok|]; [|by intros [= <- <-]].
  destruct (verify_credential _ _ tok) eqn:Ev.
  - intros [= <- <-]. apply verify_credential_spec in Ev as [Hr Hs]. eauto using taken.
  - destruct (try_consume _ tok _) as [consumed pairing] eqn:Ec. destruct consumed; [|by intros [= <- <-]].
    apply try_consume_true in Ec as (-> & p & Hp & Ht & Hc). unfold issue_credential.
    destruct (ie_create_dir _); simpl; [|by intros [= <- <-]; rewrite Hp].
    destruct (ie_write _); intros [= <- <-]; [|by rewrite Hp]. eauto using taken.
Qed.

Definition accepted (r : option HandshakeResponse) : Prop := exists resp, r = Some resp /\ resp.(rs_accepted) = true.

Lemma not_accepted st code : accepted (Some (rejection st code)) \/ false = true -> False.
Proof. intros [(r & Hr & Ha)|Hf]; [by injection Hr as <-|done]. Qed.

Lemma handshake_taken env frame st goes_on response st' :
  perform_handshake env frame st = (goes_on, response, st') -> accepted response \/ goes_on = true ->
  exists text rq token issued, frame = FirstText text /\ parse_handshake text = Some rq /\ rq.(rq_protocol_version) = PROTOCOL_VERSION
    /\ rq.(rq_auth_token) = Some token /\ response = Some (acceptance env st' issued) /\ taken env token st issued st'.
Proof.
  unfold perform_handshake. destruct frame as [text| |].
  2-3: intros [= <- <- <-] [(r & ? & _)|?]; done.
  destruct (parse_handshake text) as [rq|] eqn:Ep; [|by intros [= <- <- <-] ?%not_accepted].
  destruct (Z.eqb_spec (rq_protocol_version rq) PROTOCOL_VERSION) as [Hv|Hv]; simpl; [|by intros [= <- <- <-] ?%not_accepted].
  destruct (authenticate _ _ _) as [outcome st1] eqn:Ea. apply authenticate_spec in Ea.
  destruct outcome as [|raw| |]; intros [= <- <- <-] Ha; [| |by apply not_accepted in Ha|by apply not_accepted in Ha].
  all: destruct Ea as (tok & Htok & Ht); eauto 10.
Qed.

(** A connection is let in only on the token of a text handshake of the
    Agent's own protocol version: either the token whose hash is stored, which
    changes nothing, or the pending pairing code in its time, which is then
    spent and answered with a new credential that is the one now stored.
    Everybody else is answered without a credential and without being told
    what the host can do. *)
Theorem handshake_admits_the_trusted env frame st goes_on response st' :
  perform_handshake env frame st = (goes_on, response, st') ->
  (accepted response \/ goes_on = true ->
     exists text rq token issued, frame = FirstText text /\ parse_handshake text = Some rq /\ rq.(rq_protocol_version) = PROTOCOL_VERSION
       /\ rq.(rq_auth_token) = Some token /\ response = Some (acceptance env st' issued) /\ taken env token st issued st') /\
  (forall r, response = Some r -> r.(rs_accepted) = false ->
     goes_on = false /\ r.(rs_issued_credential) = None /\ r.(rs_capabilities) = no_capabilities).
Proof.
  intros E. split; [by apply handshake_taken|]. intros r Hr Hf. revert E. unfold perform_handshake.
  repeat case_match; intros; simplify_eq; done.
Qed.

(** Handshakes one after another: the responses, and the Agent afterwards. *)
Fixpoint handshakes (hs : list (HandshakeEnv * FirstFrame)) (st : SharedState) : list (option HandshakeResponse) * SharedState :=
  match hs with
  | [] => ([], st)
  | (env, frame) :: hs =>
      let '(_, response, st) := perform_handshake env frame st in
      let '(responses, st) := handshakes hs st in (response :: responses, st)
  end.

(** Without a pending code a handshake changes nothing. *)
Lemma unpaired_handshake env frame st goes_on response st' : st.(ss_pairing) = None ->
  perform_handshake env frame st = (goes_on, response, st') -> st' = st.
Proof.
  intros Hp. unfold perform_handshake, authenticate. rewrite Hp. cbn [try_consume].
  assert (Hst : with_trust st st.(ss_dir) None = st) by (rewrite <-Hp; by destruct st).
  repeat case_match; intros; simplify_eq; congruence.
Qed.

Lemma unpaired_handshakes hs : forall st, st.(ss_pairing) = None -> (handshakes hs st).2 = st.
Proof.
  induction hs as [|[env frame] hs IH]; intros st Hp; [done|]. cbn [handshakes].
  destruct (perform_handshake env frame st) as [[goes_on response] st1] eqn:E. apply unpaired_handshake in E as ->; [|done].
  specialize (IH st Hp). by destruct (handshakes hs st).
Qed.

(** What one handshake answers, when nothing is pending: by the stored
    credential alone. *)
Lemma unpaired_response env frame st goes_on response st' : st.(ss_pairing) = None ->
  perform_handshake env frame st = (goes_on, response, st') -> accepted response ->
  exists text rq token, frame = FirstText text /\ parse_handshake text = Some rq /\ rq.(rq_auth_token) = Some token
    /\ is_stored st.(ss_dir) token /\ response = Some (acceptance env st None).
Proof.
  intros Hp E Ha. pose proof (unpaired_handshake _ _ _ _ _ _ Hp E) as ->.
  destruct (handshake_taken _ _ _ _ _ _ E (or_introl Ha)) as (text & rq & token & issued & -> & Hparse & _ & Htok & Hresp & Ht).
  exists text, rq, token. inversion Ht as [Hr Hs|p raw Hpend]; subst; [done|]. congruence.
Qed.

(** As long as no code is registered on the machine itself, nothing that
    arrives over the network changes whom the Agent trusts: after any sequence
    of handshakes the Agent is what it was, no response carried a credential,
    and each one accepted presented a token whose hash was already stored. *)
Theorem network_cannot_pair hs st : st.(ss_pairing) = None ->
  (handshakes hs st).2 = st /\
  forall i response, (handshakes hs st).1 !! i = Some response -> accepted response ->
    exists env text rq token, hs !! i = Some (env, FirstText text) /\ parse_handshake text = Some rq /\ rq.(rq_auth_token) = Some token
      /\ is_stored st.(ss_dir) token /\ response = Some (acceptance env st None).
Proof.
  intros Hp. split; [by apply unpaired_handshakes|]. induction hs as [|[env frame] hs IH]; intros i response; [done|]. cbn [handshakes].
  destruct (perform_handshake env frame st) as [[goes_on r] st1] eqn:E.
  pose proof (unpaired_handshake _ _ _ _ _ _ Hp E) as ->. destruct (handshakes hs st) as [responses st2]. simpl in *.
  destruct i as [|i]; [|apply IH]. intros [= <-] Ha.
  destruct (unpaired_response _ _ _ _ _ _ Hp E Ha) as (text & rq & token & -> & Hr). eauto 10.
Qed.

(** A request this Agent can read, with a token. *)
Definition presents (text token : list Z) : Prop :=
  exists rq, parse_handshake text = Some rq /\ rq.(rq_protocol_version) = PROTOCOL_VERSION /\ rq.(rq_auth_token) = Some token.

Lemma stored_is_admitted env text token st : presents text token -> env.(he_readable) = true -> is_stored st.(ss_dir) token ->
  perform_handshake env (FirstText text) st = (env.(he_send), Some (acceptance env st None), st).
Proof.
  intros (rq & Hp & Hv & Ht) Hr Hs. unfold perform_handshake, authenticate. rewrite Hp, Hv, Z.eqb_refl, Ht. simpl.
  by rewrite (proj2 (verify_credential_spec _ _ _)).
Qed.

Lemma unstored_is_refused env text token st : presents text token -> ~ is_stored st.(ss_dir) token -> st.(ss_pairing) = None ->
  perform_handshake env (FirstText text) st = (false, Some (rejection st Unauthorized), st).
Proof.
  intros (rq & Hp & Hv & Ht) Hs Hn. unfold perform_handshake, authenticate. rewrite Hp, Hv, Z.eqb_refl, Ht, Hn. simpl.
  destruct (verify_credential _ _ token) eqn:Ev; [by apply verify_credential_spec in Ev as [_ ?]|].
  replace (with_trust st st.(ss_dir) None) with st; [done|]. rewrite <-Hn. by destruct st.
Qed.

(** The handshake that spends the pending code. *)
Lemma code_is_exchanged env text p st :
  st.(ss_pairing) = Some p -> presents text p.(pc_code) -> ~ is_stored st.(ss_dir) p.(pc_code) -> env.(he_now) <= p.(pc_expires_at) ->
  env.(he_issue).(ie_create_dir) = true -> env.(he_issue).(ie_write) = WriteOk ->
  let raw := simple env.(he_issue).(ie_uuid) in
  let st' := with_trust st (Some (to_vec_pretty (mkPersisted (credential_hash raw) env.(he_issue).(ie_now)))) None in
  perform_handshake env (FirstText text) st = (env.(he_send), Some (acceptance env st' (Some raw)), st').
Proof.
  intros Hp (rq & Hpr & Hv & Ht) Hs Hnow Hd Hw raw st'. unfold perform_handshake, authenticate. rewrite Hpr, Hv, Z.eqb_refl, Ht, Hp. simpl.
  destruct (verify_credential _ _ p.(pc_code)) eqn:Ev; [by apply verify_credential_spec in Ev as [_ ?]|].
  destruct (Z.ltb_spec p.(pc_expires_at) env.(he_now)); [lia|].
  rewrite (proj2 (pairing_eq_spec _ _)) by done. unfold issue_credential. rewrite Hd, Hw. done.
Qed.

(** Pairing works and lasts.  The pending code presented in time is
    answered with a new credential; whatever handshakes arrive afterwards,
    that credential is accepted, changes nothing and yields no other one,
    while the code itself is refused. *)
Theorem paired_desktop_reconnects env text p st hs env' text' text'' raw :
  st.(ss_pairing) = Some p -> presents text p.(pc_code) -> ~ is_stored st.(ss_dir) p.(pc_code) -> env.(he_now) <= p.(pc_expires_at) ->
  env.(he_issue).(ie_create_dir) = true -> env.(he_issue).(ie_write) = WriteOk -> raw = simple env.(he_issue).(ie_uuid) ->
  presents text' raw -> env'.(he_readable) = true ->
  presents text'' p.(pc_code) -> utf8 (credential_hash p.(pc_code)) <> utf8 (credential_hash raw) ->
  exists st', perform_handshake env (FirstText text) st = (env.(he_send), Some (acceptance env st' (Some raw)), st') /\
    (handshakes hs st').2 = st' /\
    perform_handshake env' (FirstText text') st' = (env'.(he_send), Some (acceptance env' st' None), st') /\
    perform_handshake env' (FirstText text'') st' = (false, Some (rejection st' Unauthorized), st').
Proof.
  intros Hp Hpr Hs Hnow Hd Hw -> Hpr' Hread Hpr'' Hne. eexists. split; [exact (code_is_exchanged env text p st Hp Hpr Hs Hnow Hd Hw)|]. split_and!.
  - by apply unpaired_handshakes.
  - apply stored_is_admitted with (simple env.(he_issue).(ie_uuid)); [done|done|]. apply is_stored_issued.
  - apply unstored_is_refused with p.(pc_code); [done| |done]. simpl. intros (bytes & record & Hb & Hf & Hh). injection Hb as <-.
    rewrite from_to in Hf. injection Hf as <-. simpl in Hh. done.
Qed.
End trust.

(** ** The processes of a connection *)

Section processes.
Context `{WireJson}.

(** Every process alive belongs to a follow, no two follows share one, and
    the next number is new. *)
Record conn_inv (cs : ConnState) : Prop := {
  ci_owned : forall p, p ∈ cs.(cs_running) -> exists id, cs.(cs_follows) !! id = Some p;
  ci_once : forall i j p, cs.(cs_follows) !! i = Some p -> cs.(cs_follows) !! j = Some p -> i = j;
  ci_new : forall i p, cs.(cs_follows) !! i = Some p -> (p < cs.(cs_next))%N;
}.

Lemma conn_inv_connected : conn_inv connected.
Proof. split; simpl; [set_solver| |]; intros *; by rewrite lookup_empty. Qed.

Lemma conn_inv_sent e cs : conn_inv cs -> conn_inv (sent e cs).
Proof. intros [H1 H2 H3]. by split. Qed.

Lemma conn_inv_stop id cs : conn_inv cs -> conn_inv (stop id cs) /\ (stop id cs).(cs_follows) !! id = None /\ (stop id cs).(cs_next) = cs.(cs_next).
Proof.
  intros [Ho Hu Hn]. unfold stop. destruct (cs_follows cs !! id) as [p|] eqn:E; [|done]. split; [split|]; simpl.
  - intros q [Hq Hne]%elem_of_difference. destruct (Ho q Hq) as [j Hj]. exists j. rewrite lookup_delete_ne; [done|]. set_solver.
  - intros i j q [_ Hi]%lookup_delete_Some [_ Hj]%lookup_delete_Some. eauto.
  - intros i q [_ Hi]%lookup_delete_Some. eauto.
  - by rewrite lookup_delete_eq.
Qed.

Lemma conn_inv_spawn id cs : conn_inv cs -> cs.(cs_follows) !! id = None ->
  conn_inv (mkConn (<[id := cs.(cs_next)]> cs.(cs_follows)) ({[ cs.(cs_next) ]} ∪ cs.(cs_running)) (cs.(cs_next) + 1) cs.(cs_sent)).
Proof.
  intros [Ho Hu Hn] Hid. split; simpl.
  - intros p [->%elem_of_singleton|Hp]%elem_of_union; [exists id; by rewrite lookup_insert_eq|].
    destruct (Ho p Hp) as [j Hj]. exists j. rewrite lookup_insert_ne; [done|]. intros ->. congruence.
  - intros i j p Hi Hj. apply lookup_insert_Some in Hi as [[-> Hp]|[? Hi]]; apply lookup_insert_Some in Hj as [[-> Hp']|[? Hj]]; [done| | |eauto]; exfalso.
    + apply Hn in Hj. lia.
    + apply Hn in Hi. lia.
  - intros i p [[<- <-]|[? Hi]]%lookup_insert_Some; [lia|]. apply Hn in Hi. lia.
Qed.

Lemma conn_inv_turn t cs goes_on cs' : conn_inv cs -> turn t cs = (goes_on, cs') -> conn_inv cs'.
Proof.
  intros Hi. unfold turn, handle_command. pose proof (fun id => conn_inv_stop id cs Hi) as Hstop.
  repeat case_match; intros; simplify_eq; auto using conn_inv_sent.
  - apply conn_inv_spawn; apply Hstop.
  - apply Hstop.
  - apply Hstop.
  - destruct Hi as [Ho Hu Hn]. split; simpl; [|done|done]. intros q [Hq _]%elem_of_difference. auto.
Qed.

Lemma conn_inv_drop cs : conn_inv cs -> (drop_follows cs).(cs_running) = ∅.
Proof.
  intros [Ho _ _]. apply set_eq. intros p. simpl. rewrite elem_of_difference, elem_of_map_img. split; [|set_solver].
  intros [Hp Hn]. exfalso. by apply Hn, Ho.
Qed.

Lemma turns_inv ts : forall cs, conn_inv cs ->
  match turns ts cs with (true, cs') => conn_inv cs' | (false, cs') => cs'.(cs_running) = ∅ end.
Proof.
  induction ts as [|t ts IH]; intros cs Hi; [done|]. cbn [turns]. destruct (turn t cs) as [goes_on cs1] eqn:E.
  pose proof (conn_inv_turn _ _ _ _ Hi E) as Hi1. destruct goes_on; [by apply IH|by apply conn_inv_drop].
Qed.

(** While a connection lives each log process that runs belongs to
    exactly one follow the desktop asked for, so no console gets a line twice;
    when the connection ends, for whatever reason, none is left on the Node. *)
Theorem follows_end_with_the_connection ts cs goes_on :
  turns ts connected = (goes_on, cs) ->
  (forall p, p ∈ cs.(cs_running) -> goes_on = true /\ exists id, cs.(cs_follows) !! id = Some p /\ forall id', cs.(cs_follows) !! id' = Some p -> id' = id).
Proof.
  intros E. pose proof (turns_inv ts connected conn_inv_connected) as Hi. rewrite E in Hi. intros p Hp. destruct goes_on; [|set_solver].
  split; [done|]. destruct Hi as [Ho Hu _]. destruct (Ho p Hp) as [id Hid]. eauto.
Qed.

(** ** Acknowledgements *)

Definition ack (e : ServerEvent) : option Z := match e with StateApplied revision true None => Some revision | _ => None end.

Definition asked (t : Turn) : option Z :=
  match t.(tn_event) with
  | Incoming (InText text) => match parse_command text with Some (ApplyDesiredState revision) => Some revision | _ => None end
  | _ => None
  end.

Lemma stop_sent id cs : (stop id cs).(cs_sent) = cs.(cs_sent).
Proof. unfold stop. by case_match. Qed.

Lemma turn_acks t cs goes_on cs' : turn t cs = (goes_on, cs') -> omap ack cs'.(cs_sent) = omap ack cs.(cs_sent) ++ option_list (asked t).
Proof.
  unfold turn, handle_command, asked.
  repeat case_match; intros; simplify_eq/=; rewrite ?stop_sent, ?omap_app, ?app_nil_r; done.
Qed.

(** The desired states a desktop pushes are acknowledged one for one, in
    the order they came and under the revision they carried, whatever else the
    connection is doing. *)
Theorem desired_states_are_acknowledged ts : forall cs goes_on cs',
  turns ts cs = (goes_on, cs') -> goes_on = true ->
  omap ack cs'.(cs_sent) = omap ack cs.(cs_sent) ++ omap asked ts.
Proof.
  induction ts as [|t ts IH]; intros cs goes_on cs' E Hg; simpl in E.
  - injection E as <- <-. by rewrite app_nil_r.
  - destruct (turn t cs) as [g cs1] eqn:Et. destruct g; [|simplify_eq]. apply turn_acks in Et. rewrite (IH _ _ _ E Hg), Et, <-app_assoc.
    f_equal. cbn [omap list_omap]. by destruct (asked t).
Qed.
End processes.

(** ** The command a follow runs *)

Lemma to_dec_plain n : 1 <= n <= 5000 -> forallb plain_char (to_dec n) = true /\ to_dec n <> [].
Proof.
  intros Hn.
  assert (Hall : forallb (fun k => forallb plain_char (to_dec (Z.of_nat k)) && negb (is_empty (to_dec (Z.of_nat k)))) (seq 1 5000) = true)
    by (vm_compute; reflexivity).
  rewrite forallb_elem_of in Hall. specialize (Hall (Z.to_nat n)). rewrite elem_of_seq, Z2Nat.id in Hall by lia.
  specialize (Hall ltac:(lia)). apply andb_true_iff in Hall as [Hp He]. split; [done|]. by destruct (to_dec n).
Qed.

Lemma clamp_range x : 1 <= clamp_u32 x 1 5000 <= 5000.
Proof. unfold clamp_u32. repeat case_match; lia. Qed.

(** Whatever container name the desktop sends, the command the Agent runs
    reads the logs of exactly that one container, with between one and five
    thousand lines of history. *)
Theorem follow_command_reads_one_container container tail :
  contains_char 0 container = false ->
  exists n, 1 <= n <= 5000 /\ tokens (follow_command container tail) =
    Some [Word (lit "docker"); Word (lit "logs"); Word (lit "--tail"); Word (to_dec n); Word (lit "-f"); Word container;
          Word (lit "2"); Op 62; Op 38; Word (lit "1")].
Proof.
  intros Hc. exists (clamp_u32 tail 1 5000). split; [apply clamp_range|]. destruct (to_dec_plain _ (clamp_range tail)) as [Hp Hne].
  unfold tokens, follow_command. rewrite shell_quote_eq. generalize dependent (to_dec (clamp_u32 tail 1 5000)). intros n Hp Hne.
  change (lit "docker logs --tail ") with (lit "docker" ++ 32 :: lit "logs" ++ 32 :: lit "--tail" ++ [32]).
  change (lit " -f ") with (32 :: lit "-f" ++ [32]). change (lit " 2>&1") with (32 :: lit "2>&1").
  repeat (rewrite <-app_assoc || cbn [app]).
  rewrite (lex_plain (lit "docker")), lex_blank, (lex_plain (lit "logs")), lex_blank, (lex_plain (lit "--tail")), lex_blank by done.
  rewrite (lex_plain n), lex_blank, (lex_plain (lit "-f")), lex_blank, lex_quote, lex_blank by done. reflexivity.
Qed.

(** ** A concrete Agent *)

#[local] Program Instance sample_credentials : CredentialJson :=
  {| to_vec_pretty r := r.(cr_paired_at) :: r.(cr_hash); from_slice b := match b with t :: h => Some (mkPersisted h t) | [] => None end |}.
Next Obligation. by intros []. Qed.

(** The first character is the protocol version, or the kind of command. *)
#[local] Instance sample_wire : WireJson :=
  {| parse_handshake text := match text with v :: token => Some (mkRequest v (lit "desktop") (lit "1") (Some token)) | [] => None end;
     parse_command text :=
       match text with
       | [k; n] => if k =? 0 then Some (ApplyDesiredState n) else if k =? 1 then Some (FollowLogs (Z.to_N n) (lit "app") 10)
                   else if k =? 2 then Some (StopFollowingLogs (Z.to_N n)) else None
       | _ => None
       end |}.

Definition new_agent : SharedState := mkShared 5 (lit "0.1") None None.
Definition sample_host : Host := mkHost true true true (Some [(lit "12", Some (lit "java -jar paper.jar"))]).
Definition sample_env (now : Z) : HandshakeEnv := mkEnv true now (mkIssueEnv 77 now true WriteOk) sample_host true.
Definition sample_code : list Z := lit "VIBE-J7K4-92QT".
Definition waiting_agent : SharedState := pair_ 0 sample_code new_agent.

Lemma handshake_admits_the_trusted_witness :
  exists text rq token issued, FirstText (1 :: sample_code) = FirstText text /\ parse_handshake text = Some rq
    /\ rq.(rq_protocol_version) = PROTOCOL_VERSION /\ rq.(rq_auth_token) = Some token /\ issued = Some (simple 77).
Proof.
  assert (E : perform_handshake (sample_env 9) (FirstText (1 :: sample_code)) waiting_agent
    = (true, Some (acceptance (sample_env 9) (perform_handshake (sample_env 9) (FirstText (1 :: sample_code)) waiting_agent).2 (Some (simple 77))),
       (perform_handshake (sample_env 9) (FirstText (1 :: sample_code)) waiting_agent).2)) by (vm_compute; reflexivity).
  destruct (handshake_admits_the_trusted _ _ _ _ _ _ E) as [Hin _].
  destruct (Hin (or_intror eq_refl)) as (text & rq & token & issued & H1 & H2 & H3 & H4 & H5 & _).
  exists text, rq, token, issued. split_and!; [exact H1|exact H2|exact H3|exact H4|]. injection H5 as H5. symmetry. exact H5.
Defined.

Lemma network_cannot_pair_witness :
  (handshakes [(sample_env 9, FirstText (1 :: sample_code)); (sample_env 9, FirstTimeout)] new_agent).2 = new_agent.
Proof. apply (network_cannot_pair [(sample_env 9, FirstText (1 :: sample_code)); (sample_env 9, FirstTimeout)] new_agent). reflexivity. Defined.

Lemma sample_presents token : presents (1 :: token) token.
Proof. eexists. split_and!; reflexivity. Qed.

Lemma paired_desktop_reconnects_witness :
  exists st', perform_handshake (sample_env 9) (FirstText (1 :: sample_code)) waiting_agent
    = (true, Some (acceptance (sample_env 9) st' (Some (simple 77))), st').
Proof.
  destruct (paired_desktop_reconnects (sample_env 9) (1 :: sample_code) (mkPending sample_code PAIRING_CODE_TTL 0) waiting_agent []
    (sample_env 20) (1 :: simple 77) (1 :: sample_code) (simple 77)) as (st' & E & _).
  - reflexivity.
  - apply sample_presents.
  - intros (bytes & record & Hb & _). discriminate Hb.
  - vm_compute. congruence.
  - reflexivity.
  - reflexivity.
  - reflexivity.
  - apply sample_presents.
  - reflexivity.
  - apply sample_presents.
  - vm_compute. congruence.
  - exists st'. exact E.
Defined.

Definition two_follows : list Turn :=
  [mkTurn (Incoming (InText [1; 4])) true true; mkTurn (Incoming (InText [0; 6])) true true; mkTurn (Incoming (InText [1; 4])) true true].

Lemma follows_end_with_the_connection_witness :
  exists cs, turns two_follows connected = (true, cs) /\ cs.(cs_running) = {[ 1%N ]} /\ exists id, cs.(cs_follows) !! id = Some 1%N.
Proof.
  destruct (turns two_follows connected) as [goes_on cs] eqn:E. exists cs.
  assert (Hr : (turns two_follows connected).2.(cs_running) = {[ 1%N ]} /\ (turns two_follows connected).1 = true) by (vm_compute; split; reflexivity).
  rewrite E in Hr. simpl in Hr. destruct Hr as [Hr ->]. split; [reflexivity|]. split; [exact Hr|].
  destruct (follows_end_with_the_connection two_follows cs true E 1%N) as (_ & id & Hid & _); [rewrite Hr; apply elem_of_singleton; reflexivity|].
  exists id. exact Hid.
Defined.

Lemma desired_states_are_acknowledged_witness :
  omap ack (turns two_follows connected).2.(cs_sent) = [6].
Proof.
  rewrite (desired_states_are_acknowledged two_follows connected true (turns two_follows connected).2).
  - reflexivity.
  - vm_compute. reflexivity.
  - reflexivity.
Defined.

Lemma follow_command_reads_one_container_witness :
  exists n, tokens (follow_command (lit "a'; reboot") 9999) =
    Some [Word (lit "docker"); Word (lit "logs"); Word (lit "--tail"); Word (to_dec n); Word (lit "-f"); Word (lit "a'; reboot");
          Word (lit "2"); Op 62; Op 38; Word (lit "1")].
Proof. destruct (follow_command_reads_one_container (lit "a'; reboot") 9999) as (n & _ & Hn); [reflexivity|]. exists n. exact Hn. Defined.

(** A pending code also works against an Agent that is already paired: it
    takes the place of the credential the first desktop holds. *)
Definition paired_agent : SharedState := (perform_handshake (sample_env 9) (FirstText (1 :: sample_code)) waiting_agent).2.
Definition second_env : HandshakeEnv := mkEnv true 30 (mkIssueEnv 78 30 true WriteOk) sample_host true.

Example a_second_code_replaces_the_first_desktop :
  let st := (perform_handshake second_env (FirstText (1 :: lit "VIBE-AAAA-BBBB")) (pair_ 20 (lit "VIBE-AAAA-BBBB") paired_agent)).2 in
  (perform_handshake (sample_env 40) (FirstText (1 :: simple 77)) paired_agent).1.1 = true /\
  (perform_handshake (sample_env 40) (FirstText (1 :: simple 78)) st).1.1 = true /\
  (perform_handshake (sample_env 40) (FirstText (1 :: simple 77)) st).1.1 = false.
Proof. vm_compute. split_and!; reflexivity. Qed.
