(* ===== verification/Sandbox.v ===== *)
(** * Sandbox: which files of a Node an application may name

    [apps/desktop/src-tauri/src/files/sandbox.rs] and
    [apps/desktop/src-tauri/src/naming.rs].

    [resolve] is what a path means lexically: empty and [.] components are
    skipped and [..] goes up, as [std::path] and the SFTP servers' REALPATH
    have it before links are followed.  [canonical] prints the resolved form. *)

From S2P Require Import Prelude Text Shell.

#[local] Open Scope Z_scope.

(** ** The operations *)

Definition DOT : list Z := [46].
Definition DOTDOT : list Z := [46; 46].

Definition is_separator (c : Z) : bool := (c =? 47) || (c =? 92).

(** The loop of [sanitize_relative_path]. *)
Fixpoint sanitize_loop (segments : list (list Z)) (pieces : list (list Z)) : AppResult (list (list Z)) :=
  match pieces with
  | [] => Ok segments
  | segment :: pieces =>
      if is_empty segment || str_eqb segment DOT then sanitize_loop segments pieces
      else if str_eqb segment DOTDOT then Err (mkInvalid (lit "path") HasParent)
      else if contains_char 0 segment then Err (mkInvalid (lit "path") HasNul)
      else sanitize_loop (segments ++ [segment]) pieces
  end.

Definition sanitize_relative_path (path : list Z) : AppResult (list Z) :=
  match sanitize_loop [] (split_on is_separator path) with
  | Ok segments => Ok (join [47] segments)
  | Err e => Err e
  end.

Definition is_within_root (candidate root : list Z) : bool :=
  let root := trim_end_matches (Z.eqb 47) root in
  str_eqb candidate root || starts_with (root ++ [47]) candidate.

Definition relativize (path root : list Z) : list Z :=
  let root := trim_end_matches (Z.eqb 47) root in
  if str_eqb path root then DOT
  else match (rest ← strip_prefix root path; strip_prefix [47] rest) with
       | Some relative => relative
       | None => path
       end.

(** ** What a path means *)

(** One component more, from the innermost directory outwards. *)
Definition enter (dir : list (list Z)) (segment : list Z) : list (list Z) :=
  if is_empty segment || str_eqb segment DOT then dir
  else if str_eqb segment DOTDOT then tail dir
  else segment :: dir.

Definition resolve (path : list Z) : list (list Z) := rev (fold_left enter (split_on (Z.eqb 47) path) []).

Definition canonical (segments : list (list Z)) : list Z :=
  match segments with [] => [47] | _ => segments ≫= fun s => 47 :: s end.

(** A component that names an entry of its directory. *)
Definition entry_name (s : list Z) : bool :=
  negb (is_empty s || str_eqb s DOT || str_eqb s DOTDOT) && negb (contains_char 47 s) && negb (contains_char 0 s).

(** ** Splitting and joining *)

Lemma split_on_none p s : existsb p s = false -> split_on p s = [s].
Proof.
  induction s as [|c s IH]; simpl; [done|]. intros [Hc Hs]%orb_false_iff. by rewrite Hc, IH.
Qed.

Lemma split_on_app p a s c : existsb p a = false -> p c = true -> split_on p (a ++ c :: s) = a :: split_on p s.
Proof.
  intros Ha Hc. induction a as [|x a IH]; simpl; [by rewrite Hc|]. simpl in Ha. apply orb_false_iff in Ha as [Hx Ha].
  by rewrite Hx, IH.
Qed.

Lemma split_on_nil p s : split_on p s <> [].
Proof. destruct s as [|c s]; simpl; [done|]. repeat case_match; done. Qed.

Lemma split_on_pieces p s piece : piece ∈ split_on p s -> existsb p piece = false.
Proof.
  revert piece. induction s as [|c s IH]; intros piece; simpl; [by intros ->%list_elem_of_singleton|].
  destruct (p c) eqn:Ec; [intros [->|Hp]%elem_of_cons; [done|by apply IH]|].
  destruct (split_on p s) as [|q qs] eqn:Es; [by apply split_on_nil in Es|].
  intros [->|Hp]%elem_of_cons; [|apply IH; set_solver]. simpl. rewrite Ec. simpl. apply IH. set_solver.
Qed.

Lemma split_join p c segments : p c = true -> Forall (fun s => existsb p s = false) segments -> segments <> [] ->
  split_on p (join [c] segments) = segments.
Proof.
  intros Hc. induction 1 as [|s segments Hs Hall IH]; intros Hne; [done|]. destruct segments as [|t segments].
  - simpl. by apply split_on_none.
  - rewrite join_cons. cbn [app]. rewrite split_on_app by done. f_equal. by apply IH.
Qed.

(** ** Sanitizing *)

Definition skipped (s : list Z) : bool := is_empty s || str_eqb s DOT.
Definition refused (s : list Z) : bool := str_eqb s DOTDOT || contains_char 0 s.

Lemma sanitize_loop_spec pieces : forall segments,
  sanitize_loop segments pieces =
  match find_first refused (List.filter (fun s => negb (skipped s)) pieces) with
  | Some s => Err (mkInvalid (lit "path") (if str_eqb s DOTDOT then HasParent else HasNul))
  | None => Ok (segments ++ List.filter (fun s => negb (skipped s)) pieces)
  end.
Proof.
  induction pieces as [|s pieces IH]; intros segments; [by rewrite app_nil_r|]. cbn [sanitize_loop List.filter]. fold (skipped s).
  destruct (skipped s); cbn [negb]; [apply IH|]. cbn [find_first]. unfold refused at 1.
  destruct (str_eqb s DOTDOT) eqn:Ed; cbn [orb]; [by rewrite Ed|]. destruct (contains_char 0 s); cbn [orb]; [by rewrite Ed|].
  rewrite IH. case_match; [done|]. by rewrite <-app_assoc.
Qed.

Definition pieces_of (path : list Z) : list (list Z) := List.filter (fun s => negb (skipped s)) (split_on is_separator path).

Lemma sanitize_spec path q : sanitize_relative_path path = Ok q <->
  q = join [47] (pieces_of path) /\ forall s, s ∈ pieces_of path -> refused s = false.
Proof.
  unfold sanitize_relative_path. rewrite sanitize_loop_spec. fold (pieces_of path). destruct (find_first _ _) as [s|] eqn:E.
  - split; [done|]. intros [_ Hall]. apply find_first_Some in E as [Hin Hr]. by rewrite Hall in Hr.
  - rewrite find_first_None in E. naive_solver.
Qed.

Lemma pieces_entry path s : (forall s, s ∈ pieces_of path -> refused s = false) -> s ∈ pieces_of path ->
  entry_name s = true /\ existsb is_separator s = false.
Proof.
  intros Hall Hin. specialize (Hall s Hin) as Hr. unfold pieces_of in Hin. apply list_elem_of_In, List.filter_In in Hin as [Hin Hs].
  apply list_elem_of_In, split_on_pieces in Hin as Hsep. split; [|done]. unfold entry_name, refused, skipped in *.
  apply orb_false_iff in Hr as [Hd H0]. apply negb_true_iff in Hs. rewrite Hs, Hd, H0. simpl. rewrite andb_true_r, negb_true_iff.
  unfold contains_char. rewrite <-not_true_iff_false, existsb_elem_of in *. intros (c & Hc & Heq). apply Hsep. exists c. split; [done|].
  unfold is_separator. apply orb_true_iff. left. by rewrite Z.eqb_sym.
Qed.

(** ** Walking a path *)

Lemma enter_entry dir s : entry_name s = true -> enter dir s = s :: dir.
Proof.
  unfold entry_name, enter. rewrite !andb_true_iff, negb_true_iff, !orb_false_iff. intros [[[[He Hd] Hdd] _] _]. by rewrite He, Hd, Hdd.
Qed.

Lemma enter_all segments : forall dir, Forall (fun s => entry_name s = true) segments -> fold_left enter segments dir = rev segments ++ dir.
Proof.
  induction segments as [|s segments IH]; intros dir Hall; [done|]. apply Forall_cons in Hall as [Hs Hall]. simpl.
  rewrite enter_entry, IH by done. by rewrite <-app_assoc.
Qed.

Lemma split_on_cons p s c : p c = true -> split_on p (c :: s) = [] :: split_on p s.
Proof. intros Hc. simpl. by rewrite Hc. Qed.

Lemma split_on_snoc p s t c : p c = true -> split_on p (s ++ c :: t) = split_on p s ++ split_on p t.
Proof.
  intros Hc. induction s as [|x s IH]; simpl; [by rewrite Hc|]. rewrite IH. destruct (p x); [done|].
  pose proof (split_on_nil p s) as Hne. by destruct (split_on p s).
Qed.

(** Joining onto a directory: the directory, then the components. *)
Lemma resolve_join root path : resolve (root ++ 47 :: path) = rev (fold_left enter (split_on (Z.eqb 47) path) (rev (resolve root))).
Proof. unfold resolve. rewrite split_on_snoc by done. by rewrite fold_left_app, rev_involutive. Qed.

Lemma resolve_below root segments : Forall (fun s => entry_name s = true) segments ->
  resolve (root ++ 47 :: join [47] segments) = resolve root ++ segments.
Proof.
  intros Hall. rewrite resolve_join. destruct segments as [|s segments].
  - cbn [join split_on fold_left]. change (enter ?d []) with d. by rewrite rev_involutive, app_nil_r.
  - rewrite split_join; [|done| |done].
    + rewrite enter_all by done. by rewrite rev_app_distr, !rev_involutive.
    + eapply Forall_impl; [exact Hall|]. intros x Hx. unfold entry_name in Hx. rewrite !andb_true_iff in Hx. destruct Hx as [[_ Hx] _].
      by apply negb_true_iff in Hx.
Qed.

Lemma filter_twice {A} (p : A -> bool) l : List.filter p (List.filter p l) = List.filter p l.
Proof. induction l as [|x l IH]; [done|]. simpl. destruct (p x) eqn:E; [|done]. simpl. by rewrite E, IH. Qed.

Lemma pieces_of_join path : (forall s, s ∈ pieces_of path -> refused s = false) -> pieces_of (join [47] (pieces_of path)) = pieces_of path.
Proof.
  intros Hall. destruct (decide (pieces_of path = [])) as [->|Hne]; [done|]. unfold pieces_of at 1. rewrite split_join; [|done| |done].
  - apply filter_twice.
  - apply Forall_forall. intros s Hs. by apply (pieces_entry path).
Qed.

(** A path that came from outside and was accepted names an entry of the
    application's directory or below, whatever it contained: joined onto any
    root it means the root's own components followed by named entries, and
    sanitizing it again changes nothing.  A path is refused only for a parent
    component or a NUL. *)
Theorem sanitized_paths_stay_below path :
  (exists q, sanitize_relative_path path = Ok q /\ sanitize_relative_path q = Ok q /\
     exists segments, Forall (fun s => entry_name s = true) segments /\ forall root, resolve (root ++ [47] ++ q) = resolve root ++ segments) \/
  (exists piece, piece ∈ split_on is_separator path /\ (piece = DOTDOT \/ contains_char 0 piece = true) /\ is_ok (sanitize_relative_path path) = false).
Proof.
  destruct (find_first refused (pieces_of path)) as [s|] eqn:E.
  - right. apply find_first_Some in E as [Hin Hr]. exists s. split_and!.
    + unfold pieces_of in Hin. apply list_elem_of_In, List.filter_In in Hin as [Hin _]. by apply list_elem_of_In.
    + unfold refused in Hr. apply orb_true_iff in Hr as [Hd|H0]; [|by right]. left. by apply bool_decide_eq_true in Hd.
    + destruct (sanitize_relative_path path) as [q|] eqn:Eq; [|done]. apply sanitize_spec in Eq as [_ Hall]. by rewrite Hall in Hr.
  - left. rewrite find_first_None in E. exists (join [47] (pieces_of path)).
    split_and!; [by apply sanitize_spec|apply sanitize_spec; by rewrite pieces_of_join|]. exists (pieces_of path).
    assert (Hall : Forall (fun s => entry_name s = true) (pieces_of path)) by (apply Forall_forall; intros s Hs; by apply (pieces_entry path)).
    split; [done|]. intros root. by apply resolve_below.
Qed.

(** ** Being below a root *)

Lemma trim_end_none p s : (forall c, last s = Some c -> p c = false) -> trim_end_matches p s = s.
Proof.
  intros Hl. unfold trim_end_matches. destruct s as [|c s _] using rev_ind; [done|]. rewrite last_snoc in Hl. rewrite rev_app_distr. simpl.
  rewrite (Hl c eq_refl). simpl. by rewrite rev_involutive.
Qed.

(** What is left of a canonical root once its slash is trimmed. *)
Definition slashed (segments : list (list Z)) : list Z := segments ≫= fun s => 47 :: s.

Lemma entry_no_slash s : entry_name s = true -> existsb (Z.eqb 47) s = false /\ s <> [].
Proof.
  unfold entry_name. rewrite !andb_true_iff, !negb_true_iff, !orb_false_iff. intros [[[[He _] _] Hs] _]. split; [done|by intros ->].
Qed.

Lemma slashed_last segments c : Forall (fun s => entry_name s = true) segments -> last (slashed segments) = Some c -> (47 =? c) = false.
Proof.
  intros Hall Hl. destruct segments as [|s segments _] using rev_ind; [done|]. apply Forall_app in Hall as [_ Hs]. rewrite Forall_singleton in Hs.
  apply entry_no_slash in Hs as [Hs Hne]. unfold slashed in Hl. rewrite bind_app in Hl. cbn [mbind list_bind] in Hl. rewrite app_nil_r in Hl.
  destruct s as [|x s _] using rev_ind; [done|]. rewrite app_comm_cons, app_assoc, last_snoc in Hl. injection Hl as ->.
  rewrite existsb_app, orb_false_iff in Hs. destruct Hs as [_ Hs]. simpl in Hs. by rewrite orb_false_r in Hs.
Qed.

Lemma trim_canonical segments : Forall (fun s => entry_name s = true) segments -> trim_end_matches (Z.eqb 47) (canonical segments) = slashed segments.
Proof.
  intros Hall. destruct segments as [|s segments]; [reflexivity|]. apply trim_end_none. intros c. by apply slashed_last.
Qed.

Lemma strip_prefix_spec p : forall s r, strip_prefix p s = Some r <-> s = p ++ r.
Proof.
  induction p as [|a p IH]; intros s r; simpl; [naive_solver|]. destruct s as [|b s]; [naive_solver|].
  destruct (Z.eqb_spec a b) as [->|Hne]; [rewrite IH|]; naive_solver.
Qed.

Lemma starts_with_spec p s : starts_with p s = true <-> exists r, s = p ++ r.
Proof. unfold starts_with. rewrite bool_decide_eq_true. unfold is_Some. by setoid_rewrite strip_prefix_spec. Qed.

Lemma split_slashed segments : Forall (fun s => entry_name s = true) segments -> split_on (Z.eqb 47) (slashed segments) = [] :: segments.
Proof.
  induction segments as [|s segments IH] using rev_ind; intros Hall; [done|]. apply Forall_app in Hall as [Hall Hs].
  rewrite Forall_singleton in Hs. apply entry_no_slash in Hs as [Hs _]. unfold slashed. rewrite bind_app. fold (slashed segments).
  cbn [mbind list_bind]. rewrite app_nil_r, split_on_snoc by done. rewrite IH by done. by rewrite (split_on_none _ s).
Qed.

Lemma slashed_app a b : slashed (a ++ b) = slashed a ++ slashed b.
Proof. apply bind_app. Qed.

(** Slashed paths are read back uniquely: a component ends at a slash. *)
Lemma slashed_prefix root segments r : Forall (fun s => entry_name s = true) root -> Forall (fun s => entry_name s = true) segments ->
  slashed segments = slashed root ++ r -> (r = [] \/ exists r', r = 47 :: r') -> exists rest, segments = root ++ rest /\ r = slashed rest.
Proof.
  intros Hr Hs Heq [->|[r' ->]].
  - exists []. split; [|done]. rewrite !app_nil_r in *. pose proof (split_slashed _ Hs) as H1. rewrite Heq, split_slashed in H1 by done. by injection H1.
  - exists (split_on (Z.eqb 47) r'). pose proof (split_slashed _ Hs) as H1. rewrite Heq, split_on_snoc, split_slashed in H1 by done.
    injection H1 as H1. split; [done|]. rewrite <-H1, slashed_app in Heq. by apply app_inv_head in Heq.
Qed.

Lemma canonical_slashed segments : canonical segments = slashed segments \/ segments = [] /\ canonical segments = [47].
Proof. destruct segments; [by right|by left]. Qed.

Lemma within_root_spec segments root :
  Forall (fun s => entry_name s = true) segments -> Forall (fun s => entry_name s = true) root ->
  is_within_root (canonical segments) (canonical root) = true <-> root `prefix_of` segments.
Proof.
  intros Hs Hr. unfold is_within_root. rewrite trim_canonical by done. rewrite orb_true_iff, starts_with_spec. unfold str_eqb. rewrite bool_decide_eq_true.
  destruct (canonical_slashed segments) as [->|[-> ->]].
  - split.
    + intros [Heq|[r Heq]].
      * destruct (slashed_prefix root segments [] Hr Hs) as (rest & -> & _); [by rewrite app_nil_r|by left|by exists rest].
      * rewrite <-app_assoc in Heq. destruct (slashed_prefix root segments ([47] ++ r) Hr Hs Heq) as (rest & -> & _); [right; by exists r|by exists rest].
    + intros [rest ->]. rewrite slashed_app. destruct rest as [|x rest]; [left; by rewrite app_nil_r|right].
      exists (x ++ slashed rest). unfold slashed at 2. rewrite bind_cons. by rewrite <-app_assoc.
  - split; [|intros [k Hx]; destruct root; [by right; exists []|done]]. destruct root as [|x root]; [by exists []|].
    unfold slashed. rewrite bind_cons. apply Forall_cons in Hr as [Hx _]. apply entry_no_slash in Hx as [_ Hne].
    intros [Heq|[r Heq]]; destruct x; try done; simpl in Heq; simplify_eq; done.
Qed.

(** For resolved paths the containment check is exact: it answers yes for
    the root itself and for what is below it, and no for everything else,
    such as a sibling whose name only starts with the root's. *)
Theorem within_root_is_exact segments root :
  Forall (fun s => entry_name s = true) segments -> Forall (fun s => entry_name s = true) root ->
  is_within_root (canonical segments) (canonical root) = true <-> root `prefix_of` segments.
Proof. apply within_root_spec. Qed.

(** The text after the root, and what comes back from it. *)
Lemma relativize_canonical root rest : Forall (fun s => entry_name s = true) (root ++ rest) -> rest <> [] ->
  relativize (canonical (root ++ rest)) (canonical root) = join [47] rest.
Proof.
  intros Hall Hne. assert (Hr := Hall). apply Forall_app in Hr as [Hr Hrest]. unfold relativize. rewrite trim_canonical by done.
  destruct (canonical_slashed (root ++ rest)) as [->|[He _]]; [|by apply app_eq_nil in He as [_ ?]].
  rewrite slashed_app. destruct rest as [|x rest]; [done|]. unfold str_eqb. rewrite bool_decide_false.
  - rewrite (proj2 (strip_prefix_spec (slashed root) _ (slashed (x :: rest)))) by done. cbn [mbind option_bind].
    assert (Hj : forall x rest, slashed (x :: rest) = 47 :: join [47] (x :: rest)).
    { clear. intros x rest. revert x. induction rest as [|y rest IH]; intros x; [by unfold slashed; cbn; rewrite app_nil_r|].
      rewrite join_cons. unfold slashed. rewrite bind_cons. fold (slashed (y :: rest)). rewrite IH. done. }
    rewrite Hj. reflexivity.
  - intros Heq. rewrite <-(app_nil_r (slashed root)) in Heq at 2. apply app_inv_head in Heq. done.
Qed.

Lemma pieces_of_entries segments : Forall (fun s => entry_name s = true /\ contains_char 92 s = false) segments -> segments <> [] ->
  pieces_of (join [47] segments) = segments.
Proof.
  intros Hall Hne. unfold pieces_of. rewrite split_join; [|done| |done].
  - apply forallb_filter_id. apply forallb_forall. intros s Hs. rewrite Forall_forall in Hall. destruct (Hall s) as [He _]; [by apply list_elem_of_In|].
    unfold entry_name in He. unfold skipped. rewrite !andb_true_iff, !negb_true_iff, !orb_false_iff in He. destruct He as [[[[E1 E2] _] _] _].
    by rewrite E1, E2.
  - eapply Forall_impl; [exact Hall|]. intros s [He Hb]. apply entry_no_slash in He as [Hs _]. unfold contains_char in Hb.
    rewrite <-not_true_iff_false, existsb_elem_of in *. intros (c & Hc & Hsep). unfold is_separator in Hsep.
    apply orb_true_iff in Hsep as [->%Z.eqb_eq| ->%Z.eqb_eq]; [apply Hs|apply Hb]; eexists; (split; [exact Hc|reflexivity]).
Qed.

(** A path the desktop lists can be handed back: made relative to its
    root, sanitized and joined onto the root again it is the same path.  File
    names with a backslash are outside the statement, since sanitizing reads a
    backslash as a separator. *)
Theorem listed_paths_come_back root rest :
  Forall (fun s => entry_name s = true) root -> Forall (fun s => entry_name s = true /\ contains_char 92 s = false) rest ->
  exists q, sanitize_relative_path (relativize (canonical (root ++ rest)) (canonical root)) = Ok q /\
    resolve (canonical root ++ [47] ++ q) = root ++ rest /\ (rest <> [] -> q = join [47] rest).
Proof.
  intros Hr Hrest. assert (Hrest' : Forall (fun s => entry_name s = true) rest) by (eapply Forall_impl; [exact Hrest|]; by intros ? [? _]).
  assert (Hres : resolve (canonical root) = root).
  { unfold resolve. destruct (canonical_slashed root) as [->|[-> ->]]; [|done]. rewrite split_slashed by done. cbn [fold_left].
    rewrite enter_all by done. change (enter [] []) with (@nil (list Z)). by rewrite app_nil_r, rev_involutive. }
  exists (join [47] rest). split; [|split; [|done]].
  - destruct rest as [|x rest].
    + rewrite app_nil_r. unfold relativize. destruct (canonical_slashed root) as [Hc|[-> _]]; [|reflexivity].
      rewrite trim_canonical, Hc by done. unfold str_eqb. by rewrite bool_decide_true.
    + rewrite relativize_canonical by (try done; by apply Forall_app). apply sanitize_spec. rewrite pieces_of_entries by done.
      split; [done|]. intros s Hs. rewrite Forall_forall in Hrest'. specialize (Hrest' s Hs). unfold entry_name in Hrest'.
      unfold refused. rewrite !andb_true_iff, !negb_true_iff, !orb_false_iff in Hrest'. destruct Hrest' as [[[_ E1] _] E2]. by rewrite E1, E2.
  - cbn [app]. rewrite resolve_below by done. by rewrite Hres.
Qed.

Definition srv_app : list (list Z) := [lit "srv"; lit "app"].

Lemma within_root_is_exact_witness :
  is_within_root (canonical [lit "srv"; lit "app-other"]) (canonical srv_app) = true <-> srv_app `prefix_of` [lit "srv"; lit "app-other"].
Proof. apply (within_root_is_exact [lit "srv"; lit "app-other"] srv_app); repeat constructor. Defined.

Lemma listed_paths_come_back_witness :
  exists q, sanitize_relative_path (relativize (canonical (srv_app ++ [lit "plugins"; lit "My.jar"])) (canonical srv_app)) = Ok q
    /\ resolve (canonical srv_app ++ [47] ++ q) = srv_app ++ [lit "plugins"; lit "My.jar"].
Proof.
  destruct (listed_paths_come_back srv_app [lit "plugins"; lit "My.jar"]) as (q & Hq & Hr & _); [repeat constructor|repeat constructor|].
  exists q. split; [exact Hq|exact Hr].
Defined.

(** ** Names for DNS and Docker: [naming::dns_label] *)

Definition MAX_LABEL_LENGTH : Z := 63.

Section label.
Context `{UnicodeCase}.

(** The loop over the lower-cased characters. *)
Fixpoint label_loop (result : list Z) (last_was_dash : bool) (chars : list Z) : list Z :=
  match chars with
  | [] => result
  | c :: chars =>
      if MAX_LABEL_LENGTH <=? byte_len result then result
      else if is_ascii_alphanumeric c then label_loop (result ++ [c]) false chars
      else if negb last_was_dash && negb (is_empty result) then label_loop (result ++ [45]) true chars
      else label_loop result last_was_dash chars
  end.

(** [while result.ends_with('-') { result.pop(); }] is a trim at the end. *)
Definition dns_label (input : list Z) : option (list Z) :=
  let result := trim_end_matches (Z.eqb 45) (label_loop [] false (input ≫= char_to_lowercase)) in
  if is_empty result then None else Some result.
End label.

(** A label of RFC 1123, in lower case: letters, digits and single dashes
    between them, at most 63 of them. *)
Definition label_char (c : Z) : bool := is_ascii_lowercase c || is_ascii_digit c || (c =? 45).

Fixpoint no_double_dash (s : list Z) : bool :=
  match s with
  | a :: (b :: _) as t => negb ((a =? 45) && (b =? 45)) && no_double_dash t
  | _ => true
  end.

Definition rfc1123_label (s : list Z) : bool :=
  negb (is_empty s) && (byte_len s <=? MAX_LABEL_LENGTH) && forallb label_char s
  && negb (starts_with_char 45 s) && negb (ends_with_char 45 s) && no_double_dash s.

Lemma byte_len_app a b : byte_len (a ++ b) = byte_len a + byte_len b.
Proof. induction a as [|c a IH]; simpl; [done|]. lia. Qed.

Lemma ends_with_snoc c s x : ends_with_char c (s ++ [x]) = (x =? c).
Proof. unfold ends_with_char. by rewrite rev_app_distr. Qed.

Lemma no_double_dash_snoc s x : no_double_dash (s ++ [x]) = no_double_dash s && negb (ends_with_char 45 s && (x =? 45)).
Proof.
  induction s as [|a s IH]; [done|]. destruct s as [|b s]; [cbn; by rewrite !andb_true_r|].
  change (no_double_dash ((a :: b :: s) ++ [x])) with (negb ((a =? 45) && (b =? 45)) && no_double_dash ((b :: s) ++ [x])).
  rewrite IH. change (no_double_dash (a :: b :: s)) with (negb ((a =? 45) && (b =? 45)) && no_double_dash (b :: s)).
  rewrite <-andb_assoc. do 3 f_equal. destruct s as [|y s _] using rev_ind; [done|].
  rewrite !app_comm_cons. by rewrite !ends_with_snoc.
Qed.

(** What the loop has built so far. *)
Record label_inv (result : list Z) (last_was_dash : bool) : Prop := {
  lb_len : byte_len result <= MAX_LABEL_LENGTH;
  lb_chars : forallb label_char result = true;
  lb_start : starts_with_char 45 result = false;
  lb_dashes : no_double_dash result = true;
  lb_last : ends_with_char 45 result = last_was_dash;
}.

Lemma label_inv_push result d c : label_inv result d -> byte_len result < MAX_LABEL_LENGTH -> label_char c = true ->
  (c = 45 -> d = false /\ result <> []) -> label_inv (result ++ [c]) (c =? 45).
Proof.
  intros [Hl Hc Hs Hd He] Hlt Hcc Hdash. assert (Hc1 : len_utf8 c = 1).
  { unfold label_char, is_ascii_lowercase, is_ascii_digit, in_range in Hcc. unfold len_utf8. destruct (Z.ltb_spec c 128); lia. }
  split; [rewrite byte_len_app; simpl; lia|rewrite forallb_app; simpl; by rewrite Hc, Hcc| | |by rewrite ends_with_snoc].
  - destruct result as [|x result]; [|exact Hs]. simpl. apply Z.eqb_neq. intros ->. by destruct Hdash.
  - rewrite no_double_dash_snoc, Hd, He. simpl. destruct (Z.eqb_spec c 45) as [->|]; [by destruct Hdash as [-> _]|by rewrite andb_false_r].
Qed.

Lemma label_loop_inv chars : Forall (fun c => is_ascii_uppercase c = false) chars -> forall result d,
  label_inv result d -> exists d', label_inv (label_loop result d chars) d'.
Proof.
  induction 1 as [|c chars Hc _ IH]; intros result d Hi; [by exists d|]. cbn [label_loop].
  destruct (Z.leb_spec MAX_LABEL_LENGTH (byte_len result)) as [|Hlt]; [by exists d|]. destruct (is_ascii_alphanumeric c) eqn:Ea.
  - apply IH. assert (Hcc : label_char c = true).
    { unfold label_char. unfold is_ascii_alphanumeric, is_ascii_alphabetic in Ea. rewrite Hc in Ea. simpl in Ea. by rewrite Ea. }
    assert (c <> 45) by (intros ->; discriminate Ea). rewrite <-(proj2 (Z.eqb_neq c 45)) by done. by eapply label_inv_push.
  - destruct d; simpl; [by apply IH|]. destruct (is_empty result) eqn:Ee; simpl; [by apply IH|]. apply IH.
    change true with (45 =? 45). eapply label_inv_push; [done|done|done|]. intros _. split; [done|]. by intros ->.
Qed.

Lemma drop_while_suffix p s : exists a, s = a ++ drop_while p s.
Proof. induction s as [|c s [a IH]]; simpl; [by exists []|]. destruct (p c); [exists (c :: a); simpl; by f_equal|by exists []]. Qed.

Lemma trim_end_prefix p s : exists b, s = trim_end_matches p s ++ b.
Proof.
  unfold trim_end_matches. destruct (drop_while_suffix p (rev s)) as [a Ha]. exists (rev a). rewrite <-rev_app_distr, <-Ha. by rewrite rev_involutive.
Qed.

Lemma drop_while_head p s c t : drop_while p s = c :: t -> p c = false.
Proof. induction s as [|x s IH]; simpl; [done|]. destruct (p x) eqn:E; [done|]. by intros [= <- <-]. Qed.

Lemma drop_while_nil p s : drop_while p s = [] -> Forall (fun c => p c = true) s.
Proof. induction s as [|c s IH]; cbn [drop_while]; [constructor|]. destruct (p c) eqn:E; [|done]. constructor; auto. Qed.

Lemma no_double_dash_app a b : no_double_dash (a ++ b) = true -> no_double_dash a = true.
Proof.
  revert a. induction b as [|x b IH] using rev_ind; intros a; [by rewrite app_nil_r|]. rewrite app_assoc, no_double_dash_snoc, andb_true_iff.
  intros [Ha _]. by apply IH.
Qed.

Lemma label_loop_grows chars : forall result d, result `prefix_of` label_loop result d chars.
Proof.
  induction chars as [|c chars IH]; intros result d; [done|]. cbn [label_loop].
  repeat case_match; try done; try (etrans; [|apply IH]); by apply prefix_app_r.
Qed.

Lemma label_loop_empty chars d : label_loop [] d chars = [] -> Forall (fun c => is_ascii_alphanumeric c = false) chars.
Proof.
  revert d. induction chars as [|c chars IH]; intros d; [constructor|]. cbn [label_loop byte_len app]. change (MAX_LABEL_LENGTH <=? 0) with false. cbv iota.
  destruct (is_ascii_alphanumeric c) eqn:Ea; [|rewrite andb_false_r; constructor; eauto].
  intros Hn. pose proof (label_loop_grows chars [c] false) as [k Hk]. by rewrite Hn in Hk.
Qed.

Lemma lowered_small `{UnicodeCase} input : Forall (fun c => is_ascii_uppercase c = false) (input ≫= char_to_lowercase).
Proof.
  apply Forall_forall. intros x (c & Hx & _)%list_elem_of_bind. apply char_to_lowercase_small with c. by apply list_elem_of_In.
Qed.

(** The trimmed result of the loop is a label, unless it is empty. *)
Lemma label_trimmed result d : label_inv result d ->
  rfc1123_label (trim_end_matches (Z.eqb 45) result) = true \/ trim_end_matches (Z.eqb 45) result = [] /\ result = [].
Proof.
  intros [Hl Hc Hs Hd _]. destruct (trim_end_prefix (Z.eqb 45) result) as [b Hb]. set (t := trim_end_matches (Z.eqb 45) result) in *.
  assert (Hend : ends_with_char 45 t = false).
  { unfold ends_with_char, t, trim_end_matches. rewrite rev_involutive. destruct (drop_while _ _) as [|x r] eqn:E; [done|].
    apply drop_while_head in E. simpl. by rewrite Z.eqb_sym. }
  destruct t as [|x t'] eqn:Et.
  - right. split; [done|]. destruct result as [|y result]; [done|]. exfalso. subst t. unfold trim_end_matches in Et.
    apply (f_equal (@rev Z)) in Et. rewrite rev_involutive in Et. change (rev []) with (@nil Z) in Et. rename Et into Hn.
    apply drop_while_nil in Hn. rewrite Forall_forall in Hn. specialize (Hn y). simpl in Hs. rewrite Z.eqb_sym, Hn in Hs; [done|].
    apply list_elem_of_In, in_rev. rewrite rev_involutive. by left.
  - left. rewrite <-Et in *. clearbody t. unfold rfc1123_label. rewrite Hb in Hl, Hc, Hs, Hd. rewrite byte_len_app in Hl.
    apply no_double_dash_app in Hd. rewrite forallb_app in Hc. apply andb_true_iff in Hc as [Hc _]. rewrite Hd, Hc, Hend, Et in *.
    assert (0 <= byte_len b) by (clear; induction b as [|c b IH]; simpl; [done|]; unfold len_utf8; repeat case_match; lia).
    simpl in Hs. simpl starts_with_char. rewrite Hs. rewrite !andb_true_r. simpl is_empty. simpl negb. rewrite andb_true_l. apply Z.leb_le. lia.
Qed.

(** Whatever name a user gives a Node or an application, the label made
    of it is one DNS and Docker accept: one to sixty-three lower-case letters,
    digits and dashes, no dash first, last or next to another.  There is none
    only when nothing of the name is a letter or a digit. *)
Theorem labels_are_valid `{UnicodeCase} input :
  match dns_label input with
  | Some label => rfc1123_label label = true
  | None => forall c x, c ∈ input -> x ∈ char_to_lowercase c -> is_ascii_alphanumeric x = false
  end.
Proof.
  unfold dns_label. destruct (label_loop_inv _ (lowered_small input) [] false) as [d Hi]; [by split|].
  destruct (label_trimmed _ _ Hi) as [Ht|[Ht Hn]].
  - destruct (trim_end_matches _ _) as [|x r] eqn:E; [discriminate Ht|]. done.
  - rewrite Ht. simpl. intros c x Hc Hx. apply label_loop_empty in Hn. rewrite Forall_forall in Hn. apply Hn.
    apply list_elem_of_bind. eauto.
Qed.
