(* ===== verification/Validators.v ===== *)
(** * Validators: the shapes a value must have before it reaches a Node

    The [validate_*] functions and [canonical_ipv4_source] of
    [apps/desktop/src-tauri/src/ssh/command.rs], with the address parsers of
    [std::net] they call. *)

From S2P Require Import Prelude Text Shell Sandbox.

#[local] Open Scope Z_scope.

(** ** [std::net] *)

(** One decimal part of an IPv4 address: one to three digits, no leading
    zero, at most 255. *)
Definition parse_octet (s : list Z) : option Z :=
  if negb (forallb is_ascii_digit s) || is_empty s || (3 <? chars_count s) || ((1 <? chars_count s) && starts_with_char 48 s) then None
  else n ← parse_digits 0 s; if n <=? 255 then Some n else None.

(** [Ipv4Addr::from_str], as the number [u32::from] gives. *)
Definition parse_ipv4 (s : list Z) : option Z :=
  match split_on (Z.eqb 46) s with
  | [a; b; c; d] =>
      a ← parse_octet a; b ← parse_octet b; c ← parse_octet c; d ← parse_octet d;
      Some (((a * 256 + b) * 256 + c) * 256 + d)
  | _ => None
  end.

(** [Ipv4Addr::to_string]. *)
Definition show_ipv4 (n : Z) : list Z :=
  to_dec (n / 16777216) ++ [46] ++ to_dec (n / 65536 mod 256) ++ [46] ++ to_dec (n / 256 mod 256) ++ [46] ++ to_dec (n mod 256).

Definition is_hex_digit (c : Z) : bool := is_ascii_digit c || in_range 65 70 c || in_range 97 102 c.

(** A group of an IPv6 address: one to four hexadecimal digits. *)
Definition ipv6_group (s : list Z) : bool := negb (is_empty s) && (chars_count s <=? 4) && forallb is_hex_digit s.

(** Groups separated by colons, the last of which may be an IPv4 address that
    counts for two; how many groups they are. *)
Fixpoint count_groups (pieces : list (list Z)) : option Z :=
  match pieces with
  | [] => Some 0
  | [last_] => if ipv6_group last_ then Some 1 else if bool_decide (is_Some (parse_ipv4 last_)) then Some 2 else None
  | g :: pieces => if ipv6_group g then n ← count_groups pieces; Some (n + 1) else None
  end.

(** The groups of one side of a double colon; an empty side has none. *)
Definition side_groups (s : list Z) : option Z := if is_empty s then Some 0 else count_groups (split_on (Z.eqb 58) s).

(** The text before and after the first double colon. *)
Fixpoint split_double_colon (s : list Z) : option (list Z * list Z) :=
  match s with
  | a :: (b :: s'') as s' =>
      if (a =? 58) && (b =? 58) then Some ([], s'')
      else p ← split_double_colon s'; Some (a :: p.1, p.2)
  | _ => None
  end.

(** Whether [Ipv6Addr::from_str] succeeds: eight groups, or fewer around one
    double colon, which stands for one group at least; only the last part of
    the address may be in IPv4 form. *)
Definition parses_as_ipv6 (s : list Z) : bool :=
  match split_double_colon s with
  | None => bool_decide (side_groups s = Some 8)
  | Some (front, back) =>
      negb (contains_char 46 front) &&
      match side_groups front, side_groups back with
      | Some n, Some m => n + m <=? 7
      | _, _ => false
      end
  end.

(** ** The validators *)

Definition label_ok (label : list Z) : bool :=
  negb (is_empty label) && (byte_len label <=? 63) && negb (starts_with_char 45 label) && negb (ends_with_char 45 label)
  && forallb (fun c => is_ascii_alphanumeric c || (c =? 45)) label.

Definition validate_host (value field : list Z) : AppResult unit :=
  let trimmed := trim value in
  if is_empty trimmed then Err (mkInvalid field IsRequired)
  else if 253 <? byte_len trimmed then Err (mkInvalid field TooLong)
  else if parses_as_ipv6 trimmed then Ok tt
  else if negb (forallb label_ok (split_on (Z.eqb 46) trimmed)) then Err (mkInvalid field NotAHost)
  else Ok tt.

(** The slice [..43] of a text of 44 bytes that ends in [=]. *)
Definition validate_wireguard_key (value field : list Z) : AppResult unit :=
  let trimmed := trim value in
  let body := removelast trimmed in
  if (byte_len trimmed =? 44) && ends_with_char 61 trimmed
     && forallb (fun c => is_ascii_alphanumeric c || (c =? 43) || (c =? 47)) body
     && (Z.of_nat (length (List.filter (Z.eqb 61) body)) =? 0)
  then Ok tt else Err (mkInvalid field NotAWireguardKey).

Definition validate_ipv4 (value field : list Z) : AppResult unit :=
  match parse_ipv4 (trim value) with Some _ => Ok tt | None => Err (mkInvalid field NotIpv4) end.

Definition validate_ipv4_cidr (value field : list Z) : AppResult unit :=
  let trimmed := trim value in
  match split_once 47 trimmed with
  | None => Err (mkInvalid field NotCidr)
  | Some (address, prefix) =>
      match validate_ipv4 address field with
      | Err e => Err e
      | Ok _ =>
          match parse_u8 prefix with
          | Some bits => if bits <=? 32 then Ok tt else Err (mkInvalid field BadPrefix)
          | None => Err (mkInvalid field BadPrefix)
          end
      end
  end.

(** [u32::MAX << (32 - bits)], in 32 bits. *)
Definition mask_of (bits : Z) : Z := if bits =? 0 then 0 else Z.land (Z.shiftl 4294967295 (32 - bits)) 4294967295.

Definition canonical_ipv4_source (value field : list Z) : AppResult (list Z) :=
  let trimmed := trim value in
  match split_once 47 trimmed with
  | None =>
      match validate_ipv4 trimmed field with Err e => Err e | Ok _ => Ok trimmed end
  | Some (address, prefix) =>
      match validate_ipv4_cidr trimmed field with
      | Err e => Err e
      | Ok _ =>
          match parse_u32 prefix, parse_ipv4 address with
          | None, _ => Err (mkInvalid field BadPrefix)
          | _, None => Err (mkInvalid field NotIpv4)
          | Some bits, Some address =>
              if bits =? 32 then Ok (show_ipv4 address)
              else
                let mask := mask_of bits in
                if negb (Z.land address (4294967295 - mask) =? 0)
                then Err (mkInvalid field (HostBits (Z.land address mask) bits))
                else Ok (show_ipv4 address ++ [47] ++ to_dec bits)
          end
      end
  end.

Definition validate_absolute_path (value field : list Z) : AppResult unit :=
  let trimmed := trim value in
  if negb (starts_with_char 47 trimmed) then Err (mkInvalid field NotAbsolute)
  else if contains_char 0 trimmed then Err (mkInvalid field HasNul)
  else if existsb (fun segment => str_eqb segment DOTDOT) (split_on (Z.eqb 47) trimmed) then Err (mkInvalid field HasParent)
  else Ok tt.

Definition FORBIDDEN_DIRECTORIES : list (list Z) :=
  [lit "/"; lit "/bin"; lit "/boot"; lit "/dev"; lit "/etc"; lit "/home"; lit "/lib"; lit "/lib32"; lit "/lib64"; lit "/media";
   lit "/mnt"; lit "/opt"; lit "/proc"; lit "/root"; lit "/run"; lit "/sbin"; lit "/srv"; lit "/sys"; lit "/tmp"; lit "/usr"; lit "/var"].

Definition validate_application_directory (value : list Z) : AppResult unit :=
  let field := lit "the working directory" in
  match validate_absolute_path value field with
  | Err e => Err e
  | Ok _ =>
      let trimmed := trim_end_matches (Z.eqb 47) (trim value) in
      let normalized := if is_empty trimmed then [47] else trimmed in
      let depth := length (List.filter (fun s => negb (is_empty s)) (split_on (Z.eqb 47) normalized)) in
      if bool_decide (normalized ∈ FORBIDDEN_DIRECTORIES) || (Z.of_nat depth <? 2)
      then Err (mkInvalid field SharedDirectory) else Ok tt
  end.

Definition validate_octal_mode (value field : list Z) : AppResult unit :=
  let trimmed := trim value in
  if is_empty trimmed || (4 <? byte_len trimmed) || negb (forallb (in_range 48 55) (utf8 trimmed))
  then Err (mkInvalid field NotOctal) else Ok tt.

Definition validate_linux_username (value field : list Z) : AppResult unit :=
  let first_ok := match value with c :: _ => is_ascii_lowercase c || (c =? 95) | [] => false end in
  let rest_ok := forallb (fun c => is_ascii_lowercase c || is_ascii_digit c || (c =? 95) || (c =? 45)) (tail value) in
  if negb first_ok || negb rest_ok || (32 <? byte_len value) then Err (mkInvalid field NotAUsername) else Ok tt.

Example ipv6_samples :
  map parses_as_ipv6 [lit "::1"; lit "fe80::1:2"; lit "1:2:3:4:5:6:7:8"; lit "::ffff:10.0.0.1"; lit "1::2::3"; lit "1:2:3"; lit "::"; lit "1:2:3:4:5:6:7::"; lit "1:2:3:4:5:6:7:8::"; lit "10.0.0.1"]
  = [true; true; true; true; false; false; true; true; false; false].
Proof. vm_compute. reflexivity. Qed.

(** ** IPv4 text is canonical *)

(** Texts of at most three digits. *)
Definition short_digits : list (list Z) :=
  let d := map (fun i => 48 + Z.of_nat i) (seq 0 10) in
  map (fun a => [a]) d ++ (a ← d; map (fun b => [a; b]) d) ++ (a ← d; b ← d; map (fun c => [a; b; c]) d).

Lemma digit_in c : is_ascii_digit c = true -> c ∈ map (fun i => 48 + Z.of_nat i) (seq 0 10).
Proof.
  unfold is_ascii_digit, in_range. intros Hc. apply list_elem_of_In, List.in_map_iff. exists (Z.to_nat (c - 48)). split; [lia|]. apply in_seq. lia.
Qed.

Lemma short_digits_spec s : forallb is_ascii_digit s = true -> is_empty s = false -> chars_count s <= 3 -> s ∈ short_digits.
Proof.
  intros Hd He Hl. unfold chars_count in Hl. unfold short_digits. rewrite !elem_of_app.
  destruct s as [|a [|b [|c [|e s]]]]; simpl in Hd, Hl; try done; try lia; repeat (apply andb_true_iff in Hd as [? Hd]).
  - left. apply list_elem_of_In, List.in_map_iff. exists a. split; [done|]. by apply list_elem_of_In, digit_in.
  - right. left. apply list_elem_of_bind. exists a. split; [|by apply digit_in].
    apply list_elem_of_In, List.in_map_iff. exists b. split; [done|]. by apply list_elem_of_In, digit_in.
  - right. right. apply list_elem_of_bind. exists a. split; [|by apply digit_in]. apply list_elem_of_bind. exists b. split; [|by apply digit_in].
    apply list_elem_of_In, List.in_map_iff. exists c. split; [done|]. by apply list_elem_of_In, digit_in.
Qed.

(** Printing undoes parsing an octet: there is one way to write it. *)
Lemma parse_octet_show s n : parse_octet s = Some n -> s = to_dec n /\ 0 <= n <= 255.
Proof.
  intros Hp.
  assert (Hall : forallb (fun s => match parse_octet s with Some n => bool_decide (s = to_dec n) && in_range 0 255 n | None => true end) short_digits = true)
    by (vm_compute; reflexivity).
  rewrite forallb_elem_of in Hall. specialize (Hall s). rewrite Hp in Hall. unfold in_range in Hall.
  assert (Hin : s ∈ short_digits).
  { unfold parse_octet in Hp. destruct (_ || _) eqn:E in Hp; [done|]. rewrite !orb_false_iff, negb_false_iff in E. destruct E as [[[E1 E2] E3] _].
    apply short_digits_spec; [done|done|lia]. }
  specialize (Hall Hin). apply andb_true_iff in Hall as [He Hr]. apply bool_decide_eq_true in He. split; [done|lia].
Qed.

Lemma parse_show_octet n : 0 <= n <= 255 -> parse_octet (to_dec n) = Some n /\ existsb (Z.eqb 46) (to_dec n) = false /\ forallb is_ascii_digit (to_dec n) = true.
Proof.
  intros Hn.
  assert (Hall : forallb (fun k => bool_decide (parse_octet (to_dec (Z.of_nat k)) = Some (Z.of_nat k))
     && negb (existsb (Z.eqb 46) (to_dec (Z.of_nat k))) && forallb is_ascii_digit (to_dec (Z.of_nat k))) (seq 0 256) = true) by (vm_compute; reflexivity).
  rewrite forallb_elem_of in Hall. specialize (Hall (Z.to_nat n)). rewrite elem_of_seq, Z2Nat.id in Hall by lia. specialize (Hall ltac:(lia)).
  rewrite !andb_true_iff, bool_decide_eq_true, negb_true_iff in Hall. tauto.
Qed.

Definition of_octets (a b c d : Z) : Z := ((a * 256 + b) * 256 + c) * 256 + d.

Definition show_octets (a b c d : Z) : list Z := to_dec a ++ [46] ++ to_dec b ++ [46] ++ to_dec c ++ [46] ++ to_dec d.

Lemma show_ipv4_octets a b c d : 0 <= a <= 255 -> 0 <= b <= 255 -> 0 <= c <= 255 -> 0 <= d <= 255 ->
  show_ipv4 (of_octets a b c d) = show_octets a b c d.
Proof.
  intros Ha Hb Hc Hd. unfold show_ipv4, show_octets, of_octets.
  replace ((((a * 256 + b) * 256 + c) * 256 + d) / 16777216) with a by zdm.
  replace ((((a * 256 + b) * 256 + c) * 256 + d) / 65536 mod 256) with b by zdm.
  replace ((((a * 256 + b) * 256 + c) * 256 + d) / 256 mod 256) with c by zdm.
  by replace ((((a * 256 + b) * 256 + c) * 256 + d) mod 256) with d by zdm.
Qed.

Lemma octets_of n : 0 <= n < 2 ^ 32 -> exists a b c d, n = of_octets a b c d /\ 0 <= a <= 255 /\ 0 <= b <= 255 /\ 0 <= c <= 255 /\ 0 <= d <= 255.
Proof.
  intros Hn. exists (n / 16777216), (n / 65536 mod 256), (n / 256 mod 256), (n mod 256). unfold of_octets. change (2 ^ 32) with 4294967296 in Hn.
  split_and!; zdm.
Qed.

Lemma parse_show_ipv4 n : 0 <= n < 2 ^ 32 -> parse_ipv4 (show_ipv4 n) = Some n.
Proof.
  intros (a & b & c & d & -> & Ha & Hb & Hc & Hd)%octets_of. rewrite show_ipv4_octets by done. unfold parse_ipv4, show_octets. cbn [app].
  destruct (parse_show_octet a Ha) as (Pa & Sa & _), (parse_show_octet b Hb) as (Pb & Sb & _), (parse_show_octet c Hc) as (Pc & Sc & _), (parse_show_octet d Hd) as (Pd & Sd & _).
  rewrite !split_on_app by done. rewrite split_on_none by done. by rewrite Pa, Pb, Pc, Pd.
Qed.

Lemma split_join_dots s a b c d : split_on (Z.eqb 46) s = [a; b; c; d] -> s = a ++ [46] ++ b ++ [46] ++ c ++ [46] ++ d.
Proof.
  intros Hs. assert (Hj : forall s, join [46] (split_on (Z.eqb 46) s) = s).
  { clear. induction s as [|c s IH]; [done|]. cbn [split_on]. destruct (Z.eqb_spec 46 c) as [<-|Hne].
    - destruct (split_on (Z.eqb 46) s) as [|x l] eqn:E; [by apply split_on_nil in E|]. rewrite join_cons, IH. done.
    - destruct (split_on (Z.eqb 46) s) as [|x l] eqn:E; [by apply split_on_nil in E|]. destruct l as [|y l]; simpl in *; [by rewrite IH|].
      by rewrite <-IH. }
  by rewrite <-(Hj s), Hs.
Qed.

Lemma parse_ipv4_show s n : parse_ipv4 s = Some n -> s = show_ipv4 n /\ 0 <= n < 2 ^ 32.
Proof.
  unfold parse_ipv4. destruct (split_on (Z.eqb 46) s) as [|a [|b [|c [|d [|]]]]] eqn:Es; try done.
  destruct (parse_octet a) as [a'|] eqn:Ea; [|done]. destruct (parse_octet b) as [b'|] eqn:Eb; [|done].
  destruct (parse_octet c) as [c'|] eqn:Ec; [|done]. destruct (parse_octet d) as [d'|] eqn:Ed; [|done]. cbn [mbind option_bind]. intros [= <-].
  apply parse_octet_show in Ea as [-> Ha], Eb as [-> Hb], Ec as [-> Hc], Ed as [-> Hd]. fold (of_octets a' b' c' d'). rewrite show_ipv4_octets by done.
  split; [by apply split_join_dots|]. unfold of_octets. change (2 ^ 32) with 4294967296. lia.
Qed.

(** ** Texts without blanks *)

Lemma trim_solid s : forallb (fun c => negb (is_whitespace c)) s = true -> trim s = s.
Proof.
  intros Hs. assert (Hd : forall l, forallb (fun c => negb (is_whitespace c)) l = true -> drop_while is_whitespace l = l).
  { intros [|c l]; simpl; [done|]. intros [Hc _]%andb_true_iff. apply negb_true_iff in Hc. by rewrite Hc. }
  unfold trim, trim_end_matches, trim_start_matches. rewrite (Hd s) by done. rewrite Hd; [apply rev_involutive|].
  rewrite forallb_forall in *. intros x Hx. apply Hs. by apply in_rev.
Qed.

Lemma trim_twice s : trim (trim s) = trim s.
Proof.
  unfold trim, trim_end_matches, trim_start_matches.
  assert (Hd : forall p l, drop_while p (drop_while p l) = drop_while p l).
  { intros p l. destruct (drop_while p l) as [|c r] eqn:E; [done|]. simpl. by rewrite (drop_while_head _ _ _ _ E). }
  set (a := drop_while is_whitespace s). set (b := drop_while is_whitespace (rev a)).
  assert (Hb : drop_while is_whitespace (rev b) = rev b).
  { destruct (drop_while_suffix is_whitespace (rev a)) as [x Hx]. fold b in Hx. apply (f_equal (@rev Z)) in Hx. rewrite rev_involutive, rev_app_distr in Hx.
    destruct (rev b) as [|c r] eqn:Er; [done|]. simpl. assert (Ha : a = c :: r ++ rev x) by done. by rewrite (drop_while_head _ _ _ _ Ha). }
  rewrite Hb, rev_involutive. unfold b. by rewrite Hd.
Qed.

Lemma split_once_app c a b : contains_char c a = false -> split_once c (a ++ c :: b) = Some (a, b).
Proof.
  unfold contains_char. induction a as [|x a IH]; cbn [existsb app split_once]; [by rewrite Z.eqb_refl|].
  intros [Hx Ha]%orb_false_iff. rewrite Z.eqb_sym, Hx, IH by done. done.
Qed.

Lemma split_once_spec c s : forall a b, split_once c s = Some (a, b) -> s = a ++ c :: b /\ contains_char c a = false.
Proof.
  induction s as [|x s IH]; intros a b; cbn [split_once]; [done|]. destruct (Z.eqb_spec x c) as [->|Hne]; [by intros [= <- <-]|].
  destruct (split_once c s) as [[a' b']|]; [|done]. intros [= <- <-]. destruct (IH a' b' eq_refl) as [-> Hc]. split; [done|].
  unfold contains_char in *. cbn [existsb]. rewrite Hc, orb_false_r. lia.
Qed.

Lemma split_once_none c a : contains_char c a = false -> split_once c a = None.
Proof.
  unfold contains_char. induction a as [|x a IH]; cbn [existsb split_once]; [done|]. intros [Hx Ha]%orb_false_iff. by rewrite Z.eqb_sym, Hx, IH.
Qed.

(** Digits, dots and slashes: what an address or a network is written with. *)
Definition net_char (c : Z) : bool := is_ascii_digit c || (c =? 46) || (c =? 47).

Lemma net_solid s : forallb net_char s = true -> trim s = s.
Proof.
  intros Hs. apply trim_solid. rewrite forallb_forall in *. intros c Hc. specialize (Hs c Hc). unfold net_char, is_ascii_digit, in_range in Hs.
  unfold is_whitespace. lia.
Qed.

Lemma show_ipv4_chars n : 0 <= n < 2 ^ 32 -> forallb (fun c => is_ascii_digit c || (c =? 46)) (show_ipv4 n) = true.
Proof.
  intros (a & b & c & d & -> & Ha & Hb & Hc & Hd)%octets_of. rewrite show_ipv4_octets by done. unfold show_octets. rewrite !forallb_app.
  assert (Hg : forall k, 0 <= k <= 255 -> forallb (fun c => is_ascii_digit c || (c =? 46)) (to_dec k) = true).
  { intros k Hk. destruct (parse_show_octet k Hk) as (_ & _ & Hk'). rewrite forallb_forall in *. intros x Hx. by rewrite (Hk' x Hx). }
  by rewrite !Hg.
Qed.

Lemma show_ipv4_net n : 0 <= n < 2 ^ 32 -> forallb net_char (show_ipv4 n) = true /\ contains_char 47 (show_ipv4 n) = false.
Proof.
  intros Hn. pose proof (show_ipv4_chars n Hn) as Hc. rewrite forallb_forall in Hc. split.
  - apply forallb_forall. intros x Hx. unfold net_char. by rewrite (Hc x Hx).
  - unfold contains_char. apply not_true_iff_false. rewrite existsb_exists. intros (x & Hx & Heq%Z.eqb_eq). subst x. by specialize (Hc _ Hx).
Qed.

Lemma show_bits b : 0 <= b <= 32 -> parse_u8 (to_dec b) = Some b /\ parse_u32 (to_dec b) = Some b /\ forallb net_char (to_dec b) = true.
Proof.
  intros Hb.
  assert (Hall : forallb (fun k => bool_decide (parse_u8 (to_dec (Z.of_nat k)) = Some (Z.of_nat k))
    && bool_decide (parse_u32 (to_dec (Z.of_nat k)) = Some (Z.of_nat k)) && forallb net_char (to_dec (Z.of_nat k))) (seq 0 33) = true) by (vm_compute; reflexivity).
  rewrite forallb_elem_of in Hall. specialize (Hall (Z.to_nat b)). rewrite elem_of_seq, Z2Nat.id in Hall by lia. specialize (Hall ltac:(lia)).
  rewrite !andb_true_iff, !bool_decide_eq_true in Hall. tauto.
Qed.

Lemma parse_digits_nonneg s : forall acc n, 0 <= acc -> parse_digits acc s = Some n -> 0 <= n.
Proof.
  induction s as [|c s IH]; intros acc n Ha; simpl; [by intros [= <-]|]. destruct (is_ascii_digit c) eqn:E; [|done].
  apply IH. unfold is_ascii_digit, in_range in E. lia.
Qed.

Lemma parse_u8_u32 s n : parse_u8 s = Some n -> parse_u32 s = Some n /\ 0 <= n <= 255.
Proof.
  unfold parse_u8, parse_u32, parse_unsigned. set (body := match s with 43 :: s' => s' | _ => s end).
  destruct body as [|c body]; [done|]. destruct (parse_digits 0 (c :: body)) as [m|] eqn:E; [|done].
  apply parse_digits_nonneg in E; [|done]. destruct (Z.leb_spec m 255); [|done]. intros [= <-]. destruct (Z.leb_spec m 4294967295); [|lia].
  split; [done|lia].
Qed.

(** ** One spelling per network *)

(** The address and prefix length a text stands for. *)
Definition network_of (value : list Z) : option (Z * Z) :=
  match split_once 47 (trim value) with
  | None => a ← parse_ipv4 (trim value); Some (a, 32)
  | Some (address, prefix) => a ← parse_ipv4 address; bits ← parse_u8 prefix; Some (a, bits)
  end.

Definition network_text (a bits : Z) : list Z := if bits =? 32 then show_ipv4 a else show_ipv4 a ++ [47] ++ to_dec bits.

Lemma mask_ones bits : 0 <= bits <= 32 -> 4294967295 - mask_of bits = Z.ones (32 - bits).
Proof.
  intros Hb.
  assert (Hall : forallb (fun k => 4294967295 - mask_of (Z.of_nat k) =? Z.ones (32 - Z.of_nat k)) (seq 0 33) = true) by (vm_compute; reflexivity).
  rewrite forallb_elem_of in Hall. specialize (Hall (Z.to_nat bits)). rewrite elem_of_seq, Z2Nat.id in Hall by lia. apply Z.eqb_eq, Hall. lia.
Qed.

Lemma host_bits a bits : 0 <= bits <= 32 -> Z.land a (4294967295 - mask_of bits) = a mod 2 ^ (32 - bits).
Proof. intros Hb. rewrite mask_ones by done. apply Z.land_ones. lia. Qed.

Lemma cidr_parts address prefix field bits : parse_u8 prefix = Some bits -> bits <= 32 ->
  forall a, parse_ipv4 address = Some a -> trim (address ++ [47] ++ prefix) = address ++ [47] ++ prefix ->
  contains_char 47 address = false ->
  canonical_ipv4_source (address ++ [47] ++ prefix) field =
  if bits =? 32 then Ok (show_ipv4 a)
  else if negb (a mod 2 ^ (32 - bits) =? 0) then Err (mkInvalid field (HostBits (Z.land a (mask_of bits)) bits))
  else Ok (network_text a bits).
Proof.
  intros Hp Hb a Ha Ht Hc. destruct (parse_u8_u32 _ _ Hp) as [Hp' Hr]. pose proof (parse_ipv4_show _ _ Ha) as [Hs Hrange].
  unfold canonical_ipv4_source, validate_ipv4_cidr, validate_ipv4, network_text. rewrite !Ht. cbn [app]. rewrite split_once_app by done.
  assert (Hat : trim address = address) by (rewrite Hs; apply net_solid, show_ipv4_net; exact Hrange).
  rewrite Hat, Ha, Hp, Hp'. destruct (Z.leb_spec bits 32); [|lia]. rewrite host_bits by lia. destruct (bits =? 32); done.
Qed.

Lemma canonical_fixed a bits field : 0 <= a < 2 ^ 32 -> 0 <= bits <= 32 -> a mod 2 ^ (32 - bits) = 0 ->
  canonical_ipv4_source (network_text a bits) field = Ok (network_text a bits).
Proof.
  intros Ha Hb Hm. destruct (show_ipv4_net a Ha) as [Hn Hs]. destruct (show_bits bits Hb) as (P8 & _ & Hbn). unfold network_text.
  destruct (Z.eqb_spec bits 32) as [->|Hne].
  - unfold canonical_ipv4_source, validate_ipv4. rewrite !(net_solid _ Hn), split_once_none by done. by rewrite parse_show_ipv4.
  - rewrite (cidr_parts _ _ _ bits) with (a := a); [|done|lia|by apply parse_show_ipv4| |done].
    + unfold network_text. destruct (Z.eqb_spec bits 32); [done|]. by rewrite Hm.
    + apply net_solid. by rewrite !forallb_app, Hn, Hbn.
Qed.

Lemma canonical_sound value field s : canonical_ipv4_source value field = Ok s ->
  exists a bits, network_of value = Some (a, bits) /\ 0 <= a < 2 ^ 32 /\ 0 <= bits <= 32 /\ a mod 2 ^ (32 - bits) = 0 /\ s = network_text a bits.
Proof.
  unfold canonical_ipv4_source, network_of. destruct (split_once 47 (trim value)) as [[address prefix]|] eqn:Es.
  - destruct (validate_ipv4_cidr (trim value) field) as [u0|e0] eqn:Ev; [|done]. unfold validate_ipv4_cidr in Ev. rewrite trim_twice, Es in Ev.
    destruct (validate_ipv4 address field) as [u1|e1]; [|done]. destruct (parse_u8 prefix) as [bits|] eqn:Ep; [|done].
    destruct (Z.leb_spec bits 32); [|done]. destruct (parse_u8_u32 _ _ Ep) as [-> Hr]. destruct (parse_ipv4 address) as [a|] eqn:Ea; [|done].
    apply parse_ipv4_show in Ea as [_ Ha]. rewrite host_bits by lia. intros Hs. exists a, bits. simpl. split_and!; [done|lia|lia|lia|lia| |].
    + destruct (Z.eqb_spec bits 32) as [->|]; [by rewrite Z.mod_1_r|]. by destruct (Z.eqb_spec (a mod 2 ^ (32 - bits)) 0).
    + unfold network_text. destruct (bits =? 32); [by injection Hs|]. destruct (negb _); [done|]. by injection Hs.
  - unfold validate_ipv4. rewrite trim_twice. destruct (parse_ipv4 (trim value)) as [a|] eqn:Ea; [|done]. intros [= <-].
    apply parse_ipv4_show in Ea as [Hs Ha]. exists a, 32. split_and!; [done|lia|lia|lia|lia|by rewrite Z.mod_1_r|exact Hs].
Qed.

(** The source of a firewall rule is stored in one spelling.  An accepted
    text stands for an address and a prefix length with no host bits set, what
    is returned is their one canonical text (no blanks, no sign, no leading
    zeros, no /32), so two texts for one network are stored alike, and
    canonicalising the stored text again gives it back. *)
Theorem source_has_one_spelling value field s :
  canonical_ipv4_source value field = Ok s ->
  (exists a bits, network_of value = Some (a, bits) /\ 0 <= a < 2 ^ 32 /\ 0 <= bits <= 32 /\ a mod 2 ^ (32 - bits) = 0 /\ s = network_text a bits) /\
  (forall field', canonical_ipv4_source s field' = Ok s).
Proof.
  intros Hs. apply canonical_sound in Hs as (a & bits & Hn & Ha & Hb & Hm & ->). split; [eauto 10|]. intros field'. by apply canonical_fixed.
Qed.

Lemma source_has_one_spelling_witness :
  canonical_ipv4_source (lit " 10.77.0.0/+16 ") (lit "source") = Ok (lit "10.77.0.0/16") /\
  canonical_ipv4_source (lit "10.77.0.0/16") (lit "source") = Ok (lit "10.77.0.0/16").
Proof.
  assert (E : canonical_ipv4_source (lit " 10.77.0.0/+16 ") (lit "source") = Ok (lit "10.77.0.0/16")) by (vm_compute; reflexivity).
  split; [exact E|]. apply (source_has_one_spelling _ _ _ E).
Defined.

(** ** Directories *)

(** Components that name something: not empty and not [.]. *)
Definition named (p : list Z) : bool := negb (is_empty p) && negb (str_eqb p DOT).

Lemma fold_enter_named pieces : forall dir, (forall s, s ∈ pieces -> s <> DOTDOT) -> fold_left enter pieces dir = rev (List.filter named pieces) ++ dir.
Proof.
  induction pieces as [|s pieces IH]; intros dir Hall; [done|]. simpl. rewrite IH by (intros x Hx; apply Hall; set_solver).
  unfold enter, named. assert (Hs : str_eqb s DOTDOT = false) by (apply bool_decide_false, Hall; set_solver). rewrite Hs.
  destruct (is_empty s), (str_eqb s DOT); simpl; try done. by rewrite <-app_assoc.
Qed.

Lemma resolve_named path : (forall s, s ∈ split_on (Z.eqb 47) path -> s <> DOTDOT) -> resolve path = List.filter named (split_on (Z.eqb 47) path).
Proof. intros Hall. unfold resolve. rewrite fold_enter_named by done. by rewrite app_nil_r, rev_involutive. Qed.

Lemma absolute_path_spec value field : validate_absolute_path value field = Ok tt ->
  starts_with_char 47 (trim value) = true /\ contains_char 0 (trim value) = false /\ forall s, s ∈ split_on (Z.eqb 47) (trim value) -> s <> DOTDOT.
Proof.
  unfold validate_absolute_path. destruct (starts_with_char _ _); simpl; [|done]. destruct (contains_char _ _); [done|].
  destruct (existsb _ _) eqn:E; [done|]. intros _. split_and!; [done|done|]. intros s Hs ->.
  apply not_true_iff_false in E. apply E, existsb_exists. exists DOTDOT. split; [by apply list_elem_of_In|]. unfold str_eqb. by apply bool_decide_eq_true.
Qed.

(** Slashes at the end add no component. *)
Lemma slashes_add_nothing s b : Forall (fun c => (47 =? c) = true) b ->
  List.filter (fun p => negb (is_empty p)) (split_on (Z.eqb 47) (s ++ b)) = List.filter (fun p => negb (is_empty p)) (split_on (Z.eqb 47) s).
Proof.
  revert s. induction b as [|c b IH]; intros s Hb; [by rewrite app_nil_r|]. apply Forall_cons in Hb as [Hc Hb].
  replace (s ++ c :: b) with ((s ++ [c]) ++ b) by (by rewrite <-app_assoc). rewrite IH by done. rewrite split_on_snoc by done.
  rewrite List.filter_app. simpl. by rewrite app_nil_r.
Qed.

Lemma drop_while_rest p s : exists a, s = a ++ drop_while p s /\ Forall (fun c => p c = true) a.
Proof.
  induction s as [|c s (a & IH & Ha)]; cbn [drop_while]; [by exists []|]. destruct (p c) eqn:E; [|by exists []].
  exists (c :: a). split; [simpl; by f_equal|by constructor].
Qed.

Lemma trim_end_rest p s : exists b, s = trim_end_matches p s ++ b /\ Forall (fun c => p c = true) b.
Proof.
  unfold trim_end_matches. destruct (drop_while_rest p (rev s)) as (a & Ha & Hf). exists (rev a). rewrite <-rev_app_distr, <-Ha, rev_involutive.
  split; [done|]. rewrite Forall_forall in *. intros x Hx. apply Hf. apply list_elem_of_In. apply list_elem_of_In in Hx. by apply in_rev.
Qed.

Lemma dots_and_names l : length (List.filter (fun p => negb (is_empty p)) l) = (length (List.filter named l) + length (List.filter (fun p => str_eqb p DOT) l))%nat.
Proof.
  induction l as [|s l IH]; [done|]. cbn [List.filter]. unfold named at 1. destruct (str_eqb s DOT) eqn:Ed; simpl.
  - apply bool_decide_eq_true in Ed as ->. simpl. lia.
  - destruct (is_empty s); simpl; lia.
Qed.

(** How many components of a path are [.]. *)
Definition dots (path : list Z) : nat := length (List.filter (fun p => str_eqb p DOT) (split_on (Z.eqb 47) path)).

(** The working directory of an application, over which the desktop runs
    [chown -R] and [rm -rf] as root, is absolute, climbs nowhere, and, counting
    its [.] components, lies at least two levels below the root; so without
    such components it is never one of the directories the system shares. *)
Theorem application_directory_is_deep value :
  validate_application_directory value = Ok tt ->
  starts_with_char 47 (trim value) = true /\
  (forall s, s ∈ split_on (Z.eqb 47) (trim value) -> s <> DOTDOT) /\
  (2 <= length (resolve (trim value)) + dots (trim value))%nat /\
  (dots (trim value) = 0%nat -> forall shared, shared ∈ FORBIDDEN_DIRECTORIES -> resolve (trim value) <> resolve shared).
Proof.
  unfold validate_application_directory. destruct (validate_absolute_path value _) as [[]|e] eqn:Ea; [|done].
  destruct (absolute_path_spec _ _ Ea) as (Hs & _ & Hp). set (t := trim_end_matches _ _). set (n := if is_empty t then _ else _).
  destruct (bool_decide _ || _) eqn:Eb; [done|]. intros _. apply orb_false_iff in Eb as [_ Hd].
  assert (Hdepth : (2 <= length (resolve (trim value)) + dots (trim value))%nat).
  { unfold dots. rewrite resolve_named, <-dots_and_names by done. destruct (trim_end_rest (Z.eqb 47) (trim value)) as (b & Hb & Hall). fold t in Hb.
    rewrite Hb, slashes_add_nothing by done. subst n. destruct t as [|c t]; [discriminate Hd|]. simpl is_empty in Hd. cbv iota in Hd. lia. }
  split_and!; [done|done|done|]. intros H0 shared Hin Heq. rewrite H0, Heq in Hdepth.
  assert (Hsh : forallb (fun d => Nat.leb (length (resolve d)) 1) FORBIDDEN_DIRECTORIES = true) by (vm_compute; reflexivity).
  rewrite forallb_elem_of in Hsh. specialize (Hsh shared Hin). apply Nat.leb_le in Hsh. lia.
Qed.

Lemma application_directory_is_deep_witness :
  validate_application_directory (lit " /srv/app/ ") = Ok tt /\ (2 <= length (resolve (trim (lit " /srv/app/ "))) + dots (trim (lit " /srv/app/ ")))%nat.
Proof. split; [reflexivity|]. apply (application_directory_is_deep (lit " /srv/app/ ")). reflexivity. Defined.

(** A [.] component counts as a level.  So [/./etc] passes the check that
    guards [chown -R] and [rm -rf], although it is the directory [/etc] the
    list forbids, and [/./.] passes although it is the root itself. *)
Theorem dot_components_reach_shared_directories :
  validate_application_directory (lit "/./etc") = Ok tt /\ resolve (lit "/./etc") = resolve (lit "/etc") /\ lit "/etc" ∈ FORBIDDEN_DIRECTORIES /\
  validate_application_directory (lit "/./.") = Ok tt /\ resolve (lit "/./.") = resolve (lit "/").
Proof.
  split_and!; [vm_compute; reflexivity|vm_compute; reflexivity| |vm_compute; reflexivity|vm_compute; reflexivity].
  apply (bool_decide_unpack _). vm_compute. exact I.
Qed.
