(* ===== verification/Ufw.v ===== *)
(** * Ufw: firewall rules as ufw commands, and back

    [apps/desktop/src-tauri/src/firewall/mod.rs] and [firewall/ufw.rs]: the
    rule, the command that adds it, the command that removes it, and the
    parsers of what [ufw show added], [ufw status] and [$SSH_CONNECTION] say. *)

From S2P Require Import Prelude Text Shell Sandbox Validators.

#[local] Open Scope Z_scope.

Inductive PortProtocol : Type := Tcp | Udp.
#[global] Instance PortProtocol_eq_dec : EqDecision PortProtocol.
Proof. solve_decision. Defined.

Record FirewallRule : Type := mkRule { fr_port : Z; fr_protocol : PortProtocol; fr_source_cidr : option (list Z) }.
#[global] Instance FirewallRule_eq_dec : EqDecision FirewallRule.
Proof. solve_decision. Defined.

Definition protocol_str (p : PortProtocol) : list Z := match p with Tcp => lit "tcp" | Udp => lit "udp" end.

(** ** Commands *)

Definition allow_command (rule : FirewallRule) : list Z :=
  match rule.(fr_source_cidr) with
  | None => lit "sudo ufw allow " ++ to_dec rule.(fr_port) ++ lit "/" ++ protocol_str rule.(fr_protocol) ++ lit " comment 'vibessh'"
  | Some cidr =>
      lit "sudo ufw allow from " ++ quote cidr ++ lit " to any port " ++ to_dec rule.(fr_port) ++ lit " proto "
      ++ protocol_str rule.(fr_protocol) ++ lit " comment 'vibessh'"
  end.

Definition revoke_command (rule : FirewallRule) : list Z :=
  match rule.(fr_source_cidr) with
  | None => lit "sudo ufw delete allow " ++ to_dec rule.(fr_port) ++ lit "/" ++ protocol_str rule.(fr_protocol)
  | Some cidr =>
      lit "sudo ufw delete allow from " ++ quote cidr ++ lit " to any port " ++ to_dec rule.(fr_port) ++ lit " proto "
      ++ protocol_str rule.(fr_protocol)
  end.

(** ** Parsers *)

Definition trim_end (s : list Z) : list Z := trim_end_matches is_whitespace s.
Definition ends_with (suffix s : list Z) : bool := starts_with (rev suffix) (rev s).

Definition parse_protocol (s : list Z) : option PortProtocol :=
  if str_eqb s (lit "tcp") then Some Tcp else if str_eqb s (lit "udp") then Some Udp else None.

(** [tokens.get(i) == Some(&word)]. *)
Definition token_is (tokens : list (list Z)) (i : nat) (word : string) : bool := bool_decide (tokens !! i = Some (lit word)).

(** One line of [parse_added_rules], after the filter. *)
Definition parse_added_line (line : list Z) : option FirewallRule :=
  let tokens := split_whitespace line in
  if negb (token_is tokens 0 "ufw") || negb (token_is tokens 1 "allow") then None
  else if token_is tokens 2 "from" then
    cidr ← tokens !! 3%nat;
    if negb (token_is tokens 4 "to") || negb (token_is tokens 5 "any") || negb (token_is tokens 6 "port") || negb (token_is tokens 8 "proto") then None
    else
      port ← tokens !! 7%nat ≫= parse_u16;
      protocol ← tokens !! 9%nat ≫= parse_protocol;
      Some (mkRule port protocol (Some cidr))
  else
    p ← tokens !! 2%nat ≫= split_once 47;
    port ← parse_u16 p.1;
    protocol ← parse_protocol p.2;
    Some (mkRule port protocol None).

Definition MARK : list Z := lit "comment 'vibessh'".

Definition parse_added_rules (output : list Z) : list FirewallRule :=
  omap parse_added_line (List.filter (fun line => ends_with MARK (trim_end line)) (lines output)).

Definition parse_status_rules (output : list Z) : list FirewallRule :=
  omap (fun line =>
    to_column ← head (split_whitespace line);
    p ← split_once 47 to_column;
    port ← parse_u16 p.1;
    protocol ← parse_protocol p.2;
    Some (mkRule port protocol None)) (lines output).

Definition parse_live_ssh_port (ssh_connection : list Z) : option Z := split_whitespace ssh_connection !! 3%nat ≫= parse_u16.

Definition parse_is_active (output : list Z) : bool := bool_decide (trim <$> head (lines output) = Some (lit "Status: active")).

(** ** What ufw prints *)

(** The words of a rule as [ufw show added] reprints them. *)
Definition rule_words (rule : FirewallRule) : list (list Z) :=
  match rule.(fr_source_cidr) with
  | None => [lit "ufw"; lit "allow"; to_dec rule.(fr_port) ++ lit "/" ++ protocol_str rule.(fr_protocol)]
  | Some cidr => [lit "ufw"; lit "allow"; lit "from"; cidr; lit "to"; lit "any"; lit "port"; to_dec rule.(fr_port); lit "proto"; protocol_str rule.(fr_protocol)]
  end.

Definition marked_line (rule : FirewallRule) : list Z := join [32] (rule_words rule ++ [lit "comment"; lit "'vibessh'"]).

(** A line without the mark, of a rule somebody else added. *)
Definition foreign_line (line : list Z) : Prop := ends_with MARK (trim_end line) = false /\ existsb (fun c => (c =? 10) || (c =? 13)) line = false.

(** The listing: a heading, then one line per rule. *)
Inductive Listed : Type := Ours (rule : FirewallRule) | Theirs (line : list Z).
Definition listed_line (l : Listed) : list Z := match l with Ours rule => marked_line rule | Theirs line => line end.
Definition HEADING : list Z := lit "Added user rules (see 'ufw status' for running firewall):".
Definition listing (l : list Listed) : list Z := (HEADING :: map listed_line l) ≫= fun line => line ++ [10].

Definition ours (l : list Listed) : list FirewallRule := omap (fun x => match x with Ours rule => Some rule | Theirs _ => None end) l.

(** A rule the desktop makes: a port of a TCP or UDP header, and a source in
    canonical spelling.  The source 0.0.0.0/0 is left out: ufw keeps it as
    "anywhere" and prints the rule without it. *)
Definition rule_ok (rule : FirewallRule) : Prop :=
  0 <= rule.(fr_port) <= 65535 /\
  match rule.(fr_source_cidr) with
  | None => True
  | Some cidr => exists a bits, 0 <= a < 2 ^ 32 /\ 1 <= bits <= 32 /\ cidr = network_text a bits
  end.

Example listing_sample :
  parse_added_rules (listing [Ours (mkRule 22 Tcp None); Theirs (lit "ufw allow in on docker0 to any port 3306 proto tcp"); Ours (mkRule 8080 Udp (Some (lit "10.77.0.0/16")))])
  = [mkRule 22 Tcp None; mkRule 8080 Udp (Some (lit "10.77.0.0/16"))].
Proof. vm_compute. reflexivity. Qed.

(** ** Words *)

(** A word of a line: not empty and without blanks. *)
Definition solid (w : list Z) : bool := negb (is_empty w) && negb (existsb is_whitespace w).

Lemma split_whitespace_join words : Forall (fun w => solid w = true) words -> words <> [] -> split_whitespace (join [32] words) = words.
Proof.
  intros Hall Hne. unfold split_whitespace. rewrite split_join; [|done| |done].
  - apply forallb_filter_id, forallb_forall. intros w Hw. rewrite Forall_forall in Hall. specialize (Hall w ltac:(by apply list_elem_of_In)).
    unfold solid in Hall. by apply andb_true_iff in Hall as [? _].
  - eapply Forall_impl; [exact Hall|]. intros w Hw. unfold solid in Hw. apply andb_true_iff in Hw as [_ Hw]. by apply negb_true_iff in Hw.
Qed.

Lemma digits_solid s : forallb is_ascii_digit s = true -> s <> [] -> solid s = true.
Proof.
  intros Hd Hne. unfold solid. rewrite andb_true_iff, !negb_true_iff. split; [by destruct s|].
  apply not_true_iff_false. rewrite existsb_exists. intros (c & Hc & Hw). rewrite forallb_forall in Hd. specialize (Hd c Hc).
  unfold is_ascii_digit, in_range in Hd. unfold is_whitespace in Hw. lia.
Qed.

Lemma existsb_net_false p s : (forall c, net_char c = true -> p c = false) -> forallb net_char s = true -> existsb p s = false.
Proof.
  intros Hp Hs. apply not_true_iff_false. rewrite existsb_exists. intros (c & Hc & Hpc). rewrite forallb_forall in Hs. by rewrite Hp in Hpc by auto.
Qed.

Lemma net_solid_word s : forallb net_char s = true -> s <> [] -> solid s = true.
Proof.
  intros Hs Hne. unfold solid. rewrite andb_true_iff, !negb_true_iff. split; [by destruct s|]. apply existsb_net_false; [|done].
  intros c. unfold net_char, is_ascii_digit, in_range, is_whitespace. lia.
Qed.

Lemma network_text_net a bits : 0 <= a < 2 ^ 32 -> 0 <= bits <= 32 -> forallb net_char (network_text a bits) = true /\ network_text a bits <> [].
Proof.
  intros Ha Hb. destruct (show_ipv4_net a Ha) as [Hn _]. destruct (show_bits bits Hb) as (_ & _ & Hbn). unfold network_text. split.
  - destruct (bits =? 32); [done|]. by rewrite !forallb_app, Hn, Hbn.
  - assert (Hs : show_ipv4 a <> []) by (unfold show_ipv4; intros Hx; by apply app_eq_nil in Hx as [_ Hx]).
    destruct (bits =? 32); [done|]. intros Hx. by apply app_eq_nil in Hx as [_ Hx].
Qed.

Lemma port_facts n : 0 <= n <= 65535 -> parse_u16 (to_dec n) = Some n /\ forallb is_ascii_digit (to_dec n) = true /\ to_dec n <> [].
Proof.
  intros Hn. destruct (to_dec_spec n) as (_ & Hd & Hne); [lia|]. split; [|done]. apply parse_unsigned_to_dec; lia.
Qed.

Lemma digits_no_slash s : forallb is_ascii_digit s = true -> contains_char 47 s = false.
Proof.
  intros Hd. unfold contains_char. apply not_true_iff_false. rewrite existsb_exists. intros (c & Hc & Heq%Z.eqb_eq). subst c. rewrite forallb_forall in Hd.
  by specialize (Hd _ Hc).
Qed.

Lemma solid_app a b : solid a = true -> existsb is_whitespace b = false -> solid (a ++ b) = true.
Proof.
  unfold solid. rewrite !andb_true_iff, !negb_true_iff, existsb_app, orb_false_iff. intros [Ha Hb] Hc. split; [by destruct a|done].
Qed.

Lemma rule_words_solid rule : rule_ok rule -> Forall (fun w => solid w = true) (rule_words rule ++ [lit "comment"; lit "'vibessh'"]).
Proof.
  intros [Hp Hc]. destruct (port_facts _ Hp) as (_ & Hd & Hne). pose proof (digits_solid _ Hd Hne) as Hs. unfold rule_words.
  destruct rule as [port proto [cidr|]]; simpl in *.
  - destruct Hc as (a & bits & Ha & Hb & ->). destruct (network_text_net a bits Ha ltac:(lia)) as [Hn Hnn].
    repeat constructor; try done; [by apply net_solid_word|by destruct proto].
  - repeat constructor. apply solid_app; [done|]. by destruct proto.
Qed.

(** The words of a rule are read as the rule, whatever words follow. *)
Lemma parse_words rule suffix : rule_ok rule -> Forall (fun w => solid w = true) suffix -> parse_added_line (join [32] (rule_words rule ++ suffix)) = Some rule.
Proof.
  intros Hok Hsuf. unfold parse_added_line. rewrite split_whitespace_join; [| |by destruct rule as [? ? []]].
  2:{ apply Forall_app. split; [|done]. pose proof (rule_words_solid rule Hok) as Hall. by apply Forall_app in Hall as [? _]. }
  destruct Hok as [Hp Hc]. destruct (port_facts _ Hp) as (Hparse & Hd & _). unfold rule_words. destruct rule as [port proto [cidr|]]; cbn [fr_port fr_source_cidr fr_protocol] in *.
  - unfold token_is. cbn [lookup list_lookup app mbind option_bind]. repeat (rewrite bool_decide_true by done). cbn [negb orb]. rewrite Hparse. by destruct proto.
  - unfold token_is. cbn [lookup list_lookup app mbind option_bind]. do 2 rewrite (bool_decide_true) by done. cbn [negb orb].
    rewrite bool_decide_false.
    + change (lit "/" ++ ?x) with (47 :: x). rewrite split_once_app by (by apply digits_no_slash). cbn [mbind option_bind fst snd]. rewrite Hparse.
      by destruct proto.
    + intros [= Hx]. apply (f_equal (contains_char 47)) in Hx. revert Hx. unfold contains_char. rewrite existsb_app. change (lit "/" ++ ?x) with (47 :: x).
      cbn [existsb]. rewrite Z.eqb_refl, orb_true_r. discriminate.
Qed.

(** What the desktop reads in the line ufw prints for a rule is the rule. *)
Lemma parse_marked_line rule : rule_ok rule -> parse_added_line (marked_line rule) = Some rule.
Proof. intros Hok. by apply parse_words; [|repeat constructor]. Qed.

Lemma starts_with_app a b : starts_with a (a ++ b) = true.
Proof. apply starts_with_spec. by exists b. Qed.

Lemma marked_line_marked rule : ends_with MARK (trim_end (marked_line rule)) = true.
Proof.
  assert (Hj : exists pre, marked_line rule = pre ++ MARK).
  { unfold marked_line. destruct (rule_words rule) as [|w ws] eqn:E; [by unfold rule_words in E; case_match|].
    exists (join [32] (w :: ws) ++ [32]). clear E. revert w. induction ws as [|v ws IH]; intros w; [cbn; by rewrite <-app_assoc|].
    cbn [app]. rewrite !join_cons. cbn [app] in IH. rewrite IH. by rewrite <-!app_assoc. }
  destruct Hj as [pre ->]. unfold trim_end. rewrite trim_end_none.
  - unfold ends_with. rewrite rev_app_distr. apply starts_with_app.
  - change MARK with (lit "comment 'vibessh" ++ [39]). rewrite app_assoc. intros c. rewrite last_snoc. by intros [= <-].
Qed.

(** ** Lines *)

Lemma split_lines ls : Forall (fun l => existsb (Z.eqb 10) l = false) ls -> split_on (Z.eqb 10) (ls ≫= fun l => l ++ [10]) = ls ++ [[]].
Proof.
  induction 1 as [|l ls Hl _ IH]; [done|]. rewrite bind_cons, <-app_assoc. cbn [app]. rewrite split_on_app by done. by rewrite IH.
Qed.

Lemma strip_cr_none l : existsb (Z.eqb 13) l = false -> strip_cr l = l.
Proof.
  intros Hl. unfold strip_cr. destruct (rev l) as [|c r] eqn:E; [done|].
  assert (Hc : c <> 13).
  { intros ->. apply not_true_iff_false in Hl. apply Hl, existsb_exists. exists 13. split; [|done]. apply in_rev. rewrite E. by left. }
  destruct (Z.eq_dec c 13); [done|]. clear -Hc. destruct c as [|p|p]; try done. repeat (destruct p as [p|p|]; try done).
Qed.

Lemma lines_unlines ls : Forall (fun l => existsb (fun c => (c =? 10) || (c =? 13)) l = false) ls -> lines (ls ≫= fun l => l ++ [10]) = ls.
Proof.
  intros Hall. assert (H10 : Forall (fun l => existsb (Z.eqb 10) l = false /\ existsb (Z.eqb 13) l = false) ls).
  { eapply Forall_impl; [exact Hall|]. intros l Hl. rewrite <-!not_true_iff_false, !existsb_exists in *.
    split; intros (c & Hc & Heq%Z.eqb_eq); subst c; apply Hl; eexists; (split; [exact Hc|done]). }
  unfold lines. rewrite split_lines by (eapply Forall_impl; [exact H10|]; by intros ? [? _]). rewrite rev_app_distr. cbn [rev app].
  rewrite rev_involutive. clear Hall. induction H10 as [|l ls [_ Hl] _ IH]; [done|]. cbn [map]. by rewrite strip_cr_none, IH.
Qed.

Lemma marked_line_plain rule : rule_ok rule -> existsb (fun c => (c =? 10) || (c =? 13)) (marked_line rule) = false.
Proof.
  intros Hok. pose proof (rule_words_solid rule Hok) as Hs. unfold marked_line. revert Hs. generalize (rule_words rule ++ [lit "comment"; lit "'vibessh'"]).
  assert (Hw : forall w, solid w = true -> existsb (fun c => (c =? 10) || (c =? 13)) w = false).
  { intros w Hw. unfold solid in Hw. apply andb_true_iff in Hw as [_ Hw]. apply negb_true_iff in Hw. rewrite <-not_true_iff_false, existsb_exists in *.
    intros (c & Hc & Heq). apply Hw. exists c. split; [done|]. unfold is_whitespace. lia. }
  induction 1 as [|w ws H1 H2 IH]; [done|]. destruct ws as [|v ws]; [by apply Hw|]. rewrite join_cons, !existsb_app, Hw, IH by done. done.
Qed.

(** What is listed: rules of the desktop as it makes them, other lines unmarked. *)
Definition listed_ok (x : Listed) : Prop := match x with Ours rule => rule_ok rule | Theirs line => foreign_line line end.

Lemma read_back l : Forall listed_ok l -> parse_added_rules (listing l) = ours l.
Proof.
  intros Hall. unfold parse_added_rules, listing. rewrite lines_unlines.
  - cbn [List.filter map]. change (ends_with MARK (trim_end HEADING)) with false. cbv iota. induction Hall as [|x l Hx _ IH]; [done|].
    destruct x as [rule|line]; cbn [map listed_line List.filter].
    + rewrite marked_line_marked. cbn [omap list_omap ours]. rewrite parse_marked_line by done. cbn. f_equal. exact IH.
    + destruct Hx as [-> _]. exact IH.
  - constructor; [done|]. apply Forall_forall. intros x Hx. apply list_elem_of_In, List.in_map_iff in Hx as (y & <- & Hy).
    rewrite Forall_forall in Hall. specialize (Hall y ltac:(by apply list_elem_of_In)). destruct y as [rule|line]; [by apply marked_line_plain|]. by destruct Hall.
Qed.

(** The rules read back from [ufw show added] are exactly the ones the
    desktop added, in the order ufw lists them, however many rules of others
    stand between them: a rule without the mark is never reported as the
    desktop's own, and none of the desktop's own is missed or misread. *)
Theorem own_rules_are_read_back l : Forall listed_ok l -> parse_added_rules (listing l) = ours l.
Proof. apply read_back. Qed.

Lemma own_rules_are_read_back_witness :
  parse_added_rules (listing [Ours (mkRule 22 Tcp None); Theirs (lit "ufw allow 80/tcp"); Ours (mkRule 8080 Udp (Some (network_text 172818432 16)))])
  = [mkRule 22 Tcp None; mkRule 8080 Udp (Some (lit "10.77.0.0/16"))].
Proof.
  rewrite (own_rules_are_read_back [Ours (mkRule 22 Tcp None); Theirs (lit "ufw allow 80/tcp"); Ours (mkRule 8080 Udp (Some (network_text 172818432 16)))]).
  - vm_compute. reflexivity.
  - repeat constructor; simpl; try lia. exists 172818432, 16. split_and!; reflexivity || lia.
Defined.
