(* ===== verification/Firewall.v ===== *)
(** * Firewall: bringing a Node's firewall in line

    [apps/desktop/src-tauri/src/services/firewall_service.rs] (the desired
    rules and both sync operations), the [FirewallProvider] operations of
    [firewall/ufw.rs], and [firewall/docker_user.rs].

    A Node is whatever runs commands: the class [Connection].  Each operation
    threads the Node through a small state and error monad.  What the theorems
    need of ufw itself is the class [UfwHost] of the file [FirewallSync]. *)

From S2P Require Import Prelude Text Shell Sandbox Validators Ufw.

#[local] Open Scope Z_scope.

(** ** The connection *)

Record CommandOutput : Type := mkOutput { exit_code : Z; stdout : list Z; stderr : list Z }.

(** [AppError]; the firewall's own failures, whose texts are built from data, are constructors of their own. *)
Inductive AppError : Type :=
| NotFound
| Storage (message : list Z)
| InvalidInput (e : InvalidInput)
| RefusedLockout (live_port : Z)
| NetworkLeaveHasMeshPorts (ports : list (list Z))
| Transport (message : list Z)
| ConnectionFailed (message : list Z)
| RulesNotApplied (failures : list (FirewallRule * list Z))
| RuleNotRemoved (rule : FirewallRule) (detail : list Z)
| NotEnabled (detail : list Z)
| LivePortUnknown
| HelperNotInstalled (detail : list Z)
| ChainUnreadable
| NotRestricted (port : Z) (protocol : PortProtocol) (detail : list Z)
| EstablishedNotAllowed (detail : list Z)
| DockerUnavailable
| CronMissing (server_id : N)
| DiskLimitExceeded (used_mb limit_mb : Z)
| DatabaseServerUnavailable (host : list Z)
| DatabaseBindUnsupported
| DatabaseFirewallRuleFailed (port : Z)
| DatabaseSocketAuthOnly (user : list Z)
| Internal (message : list Z).

(** How a Node is reached: [models/server.rs]. *)
Inductive ConnectionMode : Type := SshMode | AgentMode.

(** [SshSession]: a command may run on the Node even when its answer is lost. *)
Class Connection (Node : Type) : Type := {
  execute_command : list Z -> Node -> result (list Z) CommandOutput * Node;
  write_file : list Z -> list Z -> Node -> result (list Z) unit * Node;
  session_id : Node -> N;
}.

(** The Node, the sessions whose helper was verified, and fresh ids. *)
Record FwState (Node : Type) : Type := mkFw { fw_node : Node; fw_verified : gset N; fw_uuid : N }.
Arguments mkFw {Node} _ _ _.
Arguments fw_node {Node} _.
Arguments fw_verified {Node} _.
Arguments fw_uuid {Node} _.

Definition F (Node A : Type) : Type := FwState Node -> result AppError A * FwState Node.

Section monad.
Context {Node : Type} `{Connection Node}.

Definition ret {A} (a : A) : F Node A := fun s => (Ok a, s).
Definition throw {A} (e : AppError) : F Node A := fun s => (Err e, s).
Definition bind {A B} (m : F Node A) (f : A -> F Node B) : F Node B := fun s =>
  match m s with (Ok a, s) => f a s | (Err e, s) => (Err e, s) end.

Definition run_command (command : list Z) : F Node CommandOutput := fun s =>
  let '(r, n) := execute_command command s.(fw_node) in
  (match r with Ok out => Ok out | Err m => Err (Transport m) end, mkFw n s.(fw_verified) s.(fw_uuid)).

Definition put_file (path bytes : list Z) : F Node unit := fun s =>
  let '(r, n) := write_file path bytes s.(fw_node) in
  (match r with Ok _ => Ok tt | Err m => Err (Transport m) end, mkFw n s.(fw_verified) s.(fw_uuid)).

(** The result of [m] as a value: [match m.await]. *)
Definition attempt {A} (m : F Node A) : F Node (result AppError A) := fun s => let '(r, s) := m s in (Ok r, s).
End monad.

Declare Scope fw_scope.
Notation "x <- m ;; k" := (bind m (fun x => k)) (at level 100, m at next level, right associativity) : fw_scope.
Notation "m ;;; k" := (bind m (fun _ => k)) (at level 100, right associativity) : fw_scope.
#[local] Open Scope fw_scope.

(** ** Ufw *)

Section ufw.
Context {Node : Type} `{Connection Node}.

Definition detail_or (output : CommandOutput) (fallback : string) : list Z :=
  let detail := trim output.(stderr) in if is_empty detail then lit fallback else detail.

Definition detect_ufw : F Node bool :=
  output <- run_command (lit "command -v ufw >/dev/null 2>&1 && echo yes || echo no") ;;
  ret (str_eqb (trim output.(stdout)) (lit "yes")).

(** The loop of [apply_rules]: a rule ufw rejects is noted and the loop goes on. *)
Fixpoint apply_loop (failures : list (FirewallRule * list Z)) (desired : list FirewallRule) : F Node (list (FirewallRule * list Z)) :=
  match desired with
  | [] => ret failures
  | rule :: desired =>
      output <- run_command (allow_command rule) ;;
      if output.(exit_code) =? 0 then apply_loop failures desired
      else apply_loop (failures ++ [(rule, detail_or output "ufw allow failed")]) desired
  end.

Definition apply_rules (desired : list FirewallRule) : F Node unit :=
  failures <- apply_loop [] desired ;;
  match failures with [] => ret tt | _ => throw (RulesNotApplied failures) end.

Definition SHOW_ADDED : list Z := lit "sudo ufw show added".
Definition STATUS : list Z := lit "sudo ufw status".

Definition current_rules : F Node (list FirewallRule) := output <- run_command STATUS ;; ret (parse_status_rules output.(stdout)).

Definition vibessh_owned_rules : F Node (list FirewallRule) := output <- run_command SHOW_ADDED ;; ret (parse_added_rules output.(stdout)).

Fixpoint revoke_rules (obsolete : list FirewallRule) : F Node unit :=
  match obsolete with
  | [] => ret tt
  | rule :: obsolete =>
      output <- run_command (revoke_command rule) ;;
      if negb (output.(exit_code) =? 0) then throw (RuleNotRemoved rule (detail_or output "ufw delete failed"))
      else revoke_rules obsolete
  end.

Definition is_active : F Node bool := output <- run_command STATUS ;; ret (parse_is_active output.(stdout)).

(** The command is [printf '%s' ] and the variable in double quotes. *)
Definition SSH_CONNECTION : list Z := lit "printf '%s' " ++ [34] ++ lit "$SSH_CONNECTION" ++ [34].

Definition live_ssh_port : F Node Z :=
  output <- run_command SSH_CONNECTION ;;
  match parse_live_ssh_port output.(stdout) with Some port => ret port | None => throw LivePortUnknown end.

Definition covers (live_port : Z) (rule : FirewallRule) : bool :=
  (rule.(fr_port) =? live_port) && bool_decide (rule.(fr_protocol) = Tcp) && bool_decide (rule.(fr_source_cidr) = None).

Definition ENABLE : list Z := lit "sudo ufw --force enable".

Definition enable (desired : list FirewallRule) : F Node unit :=
  live_port <- live_ssh_port ;;
  if negb (existsb (covers live_port) desired) then throw (RefusedLockout live_port)
  else
    apply_rules desired ;;;
    output <- run_command ENABLE ;;
    if negb (output.(exit_code) =? 0) then throw (NotEnabled (detail_or output "ufw enable failed")) else ret tt.

(** [revoke_obsolete_rules] of the service. *)
Definition revoke_obsolete_rules (desired : list FirewallRule) : F Node Z :=
  owned <- vibessh_owned_rules ;;
  let obsolete := List.filter (fun rule => negb (bool_decide (rule ∈ desired))) owned in
  match obsolete with
  | [] => ret 0
  | _ => revoke_rules obsolete ;;; ret (Z.of_nat (length obsolete))
  end.
End ufw.

(** ** The DOCKER-USER chain *)

Record ContainerRule : Type := mkContainerRule { cr_port : Z; cr_protocol : PortProtocol; cr_source_cidr : list Z }.
#[global] Instance ContainerRule_eq_dec : EqDecision ContainerRule.
Proof. solve_decision. Defined.

Definition MARKER : list Z := lit "vibessh".
Definition HELPER_PATH : list Z := lit "/usr/local/lib/vibessh/docker-user".

Definition helper_command (arguments : list (list Z)) : list Z :=
  lit "sudo " ++ quote HELPER_PATH ++ lit " " ++ join [32] (map quote arguments).

Definition drop_command (rule : ContainerRule) : list Z :=
  helper_command [lit "drop"; lit "add"; protocol_str rule.(cr_protocol); to_dec rule.(cr_port); rule.(cr_source_cidr)].
Definition delete_command (rule : ContainerRule) : list Z :=
  helper_command [lit "drop"; lit "del"; protocol_str rule.(cr_protocol); to_dec rule.(cr_port); rule.(cr_source_cidr)].
Definition conntrack_return_command : list Z := helper_command [lit "established"; lit "add"].
Definition conntrack_delete_command : list Z := helper_command [lit "established"; lit "del"].

Definition rules_for_published_port (internal_port external_port : Z) (protocol : PortProtocol) (source_cidr : list Z) : list ContainerRule :=
  let rules := [mkContainerRule internal_port protocol source_cidr] in
  if negb (external_port =? internal_port) then rules ++ [mkContainerRule external_port protocol source_cidr] else rules.

(** [str::contains] of a string. *)
Fixpoint contains_str (needle s : list Z) : bool :=
  starts_with needle s || match s with [] => false | _ :: s => contains_str needle s end.

(** The token after the first occurrence of [flag]. *)
Fixpoint after (flag : string) (tokens : list (list Z)) : option (list Z) :=
  match tokens with
  | [] => None
  | t :: tokens => if str_eqb t (lit flag) then head tokens else after flag tokens
  end.

Definition parse_owned_line (line : list Z) : option ContainerRule :=
  let tokens := split_whitespace line in
  protocol ← after "-p" tokens ≫= parse_protocol;
  port ← after "--dport" tokens ≫= parse_u16;
  cidr ← after "-s" tokens;
  Some (mkContainerRule port protocol cidr).

Definition parse_owned_rules (output : list Z) : list ContainerRule :=
  omap parse_owned_line
    (List.filter (fun line => contains_str (lit "--comment " ++ MARKER) line || contains_str (lit "--comment " ++ [34] ++ MARKER ++ [34]) line) (lines output)).

(** The first of each rule, in order. *)
Fixpoint dedupe_from (out rules : list ContainerRule) : list ContainerRule :=
  match rules with
  | [] => out
  | rule :: rules => dedupe_from (if bool_decide (rule ∈ out) then out else out ++ [rule]) rules
  end.
Definition dedupe (rules : list ContainerRule) : list ContainerRule := dedupe_from [] rules.

Section docker_user.
Context {Node : Type} `{Connection Node}.
(** The text of the helper script, of which only equality with the Node's copy matters. *)
Context (HELPER_SCRIPT : list Z).

Definition MAX_VERIFIED : Z := 512.

Definition fresh_uuid : F Node (list Z) := fun s =>
  (Ok (uuid_text s.(fw_uuid)), mkFw s.(fw_node) s.(fw_verified) (s.(fw_uuid) + 1)).

Definition ensure_helper_installed : F Node unit := fun s =>
  if bool_decide (session_id s.(fw_node) ∈ s.(fw_verified)) then (Ok tt, s) else
  (let helper := quote HELPER_PATH in
   deployed <- run_command (lit "cat " ++ helper ++ lit " 2>/dev/null") ;;
   (if str_eqb deployed.(stdout) HELPER_SCRIPT then ret tt
    else
      id <- fresh_uuid ;;
      let staging := lit ".vibessh-docker-user-" ++ id in
      put_file staging HELPER_SCRIPT ;;;
      let staging := quote staging in
      output <- run_command (lit "sudo install -D -o root -g root -m 0755 " ++ staging ++ lit " " ++ helper ++ lit "; rc=$?; rm -f " ++ staging ++ lit "; exit $rc") ;;
      if negb (output.(exit_code) =? 0) then throw (HelperNotInstalled (trim output.(stderr))) else ret tt) ;;;
   (fun s =>
      let verified := if MAX_VERIFIED <=? Z.of_nat (size s.(fw_verified)) then ∅ else s.(fw_verified) in
      (Ok tt, mkFw s.(fw_node) ({[ session_id s.(fw_node) ]} ∪ verified) s.(fw_uuid)))) s.

Definition detect_chain : F Node bool :=
  ensure_helper_installed ;;;
  output <- run_command (helper_command [lit "check"] ++ lit " >/dev/null 2>&1 && echo yes || echo no") ;;
  ret (str_eqb (trim output.(stdout)) (lit "yes")).

Definition read_owned : F Node (list ContainerRule) :=
  ensure_helper_installed ;;;
  listing <- run_command (helper_command [lit "list"]) ;;
  if negb (listing.(exit_code) =? 0) then throw ChainUnreadable else ret (parse_owned_rules listing.(stdout)).

Fixpoint remove_stale (removed : Z) (stale : list ContainerRule) : F Node Z :=
  match stale with
  | [] => ret removed
  | rule :: stale =>
      output <- run_command (delete_command rule) ;;
      remove_stale (if output.(exit_code) =? 0 then removed + 1 else removed) stale
  end.

Fixpoint add_missing (added : Z) (missing : list ContainerRule) : F Node Z :=
  match missing with
  | [] => ret added
  | rule :: missing =>
      output <- run_command (drop_command rule) ;;
      if negb (output.(exit_code) =? 0) then throw (NotRestricted rule.(cr_port) rule.(cr_protocol) (detail_or output "iptables failed"))
      else add_missing (added + 1) missing
  end.

(** [docker_user::reconcile]. *)
Definition reconcile_chain (desired : list ContainerRule) : F Node (Z * Z) :=
  present <- detect_chain ;;
  if negb present then ret (0, 0) else
  owned <- read_owned ;;
  let wanted := dedupe desired in
  removed <- remove_stale 0 (List.filter (fun rule => negb (bool_decide (rule ∈ wanted))) owned) ;;
  added <- add_missing 0 (List.filter (fun rule => negb (bool_decide (rule ∈ owned))) wanted) ;;
  match wanted with
  | [] => ret (added, removed)
  | _ =>
      attempt (run_command conntrack_delete_command) ;;;
      output <- run_command conntrack_return_command ;;
      if negb (output.(exit_code) =? 0) then throw (EstablishedNotAllowed (detail_or output "iptables failed")) else ret (added, removed)
  end.

(** ** The service *)

(** [reconcile_containers]: the failure as a value. *)
Definition reconcile_containers (container_rules : list ContainerRule) : F Node (option AppError) :=
  r <- attempt (reconcile_chain container_rules) ;;
  ret (match r with Ok _ => None | Err e => Some e end).

Record FirewallSyncResult : Type := mkSync {
  sy_backend : option (list Z); sy_active : bool; sy_rules_applied : Z; sy_rules_removed : Z; sy_unenforced : bool; sy_container_error : option AppError;
}.

Definition unenforced (container_error : option AppError) : FirewallSyncResult := mkSync None false 0 0 true container_error.

(** The [attempt] of [reconcile_node], on the connection it got. *)
Definition reconcile_attempt (rules : list FirewallRule) (container_rules : list ContainerRule) : F Node FirewallSyncResult :=
  provider <- detect_ufw ;;
  if negb provider then (container_error <- reconcile_containers container_rules ;; ret (unenforced container_error)) else
  apply_rules rules ;;;
  rules_removed <- revoke_obsolete_rules rules ;;
  container_error <- reconcile_containers container_rules ;;
  active <- is_active ;;
  ret (mkSync (Some (lit "ufw")) active (Z.of_nat (length rules)) rules_removed (negb active) container_error).

(** The [attempt] of [enable_node_firewall]. *)
Definition enable_attempt (rules : list FirewallRule) (container_rules : list ContainerRule) : F Node FirewallSyncResult :=
  provider <- detect_ufw ;;
  if negb provider then (container_error <- reconcile_containers container_rules ;; ret (unenforced container_error)) else
  enable rules ;;;
  rules_removed <- revoke_obsolete_rules rules ;;
  container_error <- reconcile_containers container_rules ;;
  active <- is_active ;;
  ret (mkSync (Some (lit "ufw")) active (Z.of_nat (length rules)) rules_removed (negb active) container_error).
End docker_user.

(** ** The desired rules *)

Inductive PortVisibility : Type := Public | VibeNetwork | Localhost | Custom.
#[global] Instance PortVisibility_eq_dec : EqDecision PortVisibility.
Proof. solve_decision. Defined.

(** The columns of an [ApplicationPort], an [Application], a [FirewallCustomRule] and a [Server] the service reads. *)
Record ApplicationPort : Type := mkPort {
  ap_name : list Z; ap_protocol : PortProtocol; ap_internal_port : Z; ap_external_port : option Z; ap_visibility : PortVisibility;
}.
Record Application : Type := mkApplication { ap_id : N; ap_application_name : list Z }.
Record FirewallCustomRule : Type := mkCustom { fc_id : N; fc_label : option (list Z); fc_protocol : PortProtocol; fc_port : Z; fc_source_cidr : option (list Z) }.
Record FirewallCustomRuleInput : Type := mkCustomInput { fi_label : option (list Z); fi_protocol : PortProtocol; fi_port : Z; fi_source_cidr : option (list Z) }.

(** What the four repositories answer about one Node. *)
Record Repositories : Type := mkRepositories {
  server_ssh_port : result AppError (option Z);
  network_get : result AppError (option unit);
  list_by_server : result AppError (list Application);
  list_ports : N -> result AppError (list ApplicationPort);
  custom_list : result AppError (list FirewallCustomRule);
}.

Inductive FirewallRuleOrigin : Type :=
| Ssh
| WireGuard
| FromApplication (application_id : N) (application_name port_name : list Z)
| FromCustom (rule_id : N) (label : option (list Z)).
Record FirewallRuleView : Type := mkView { fv_rule : FirewallRule; fv_origin : FirewallRuleOrigin }.

Definition LISTEN_PORT : Z := 54221.
Definition MESH_CIDR : list Z := lit "10.77.0.0/16".

(** [if !views.iter().any(|view| view.rule == rule) { views.push(..) }]. *)
Definition push_view (views : list FirewallRuleView) (view : FirewallRuleView) : list FirewallRuleView :=
  if existsb (fun v => bool_decide (v.(fv_rule) = view.(fv_rule))) views then views else views ++ [view].

Definition port_rule (port : ApplicationPort) (external_port : Z) : FirewallRule :=
  mkRule external_port port.(ap_protocol) (match port.(ap_visibility) with VibeNetwork => Some MESH_CIDR | _ => None end).

Fixpoint port_views (application : Application) (views : list FirewallRuleView) (ports : list ApplicationPort) : list FirewallRuleView :=
  match ports with
  | [] => views
  | port :: ports =>
      match port.(ap_external_port) with
      | None => port_views application views ports
      | Some external_port =>
          port_views application
            (push_view views (mkView (port_rule port external_port) (FromApplication application.(ap_id) application.(ap_application_name) port.(ap_name)))) ports
      end
  end.

Section desired.
Context (repos : Repositories).
#[local] Open Scope vibe_scope.

Fixpoint application_views (views : list FirewallRuleView) (applications : list Application) : result AppError (list FirewallRuleView) :=
  match applications with
  | [] => Ok views
  | application :: applications =>
      let? ports := repos.(list_ports) application.(ap_id) in
      application_views (port_views application views ports) applications
  end.

Definition custom_rule (custom : FirewallCustomRule) : FirewallRule := mkRule custom.(fc_port) custom.(fc_protocol) custom.(fc_source_cidr).

Definition custom_views (views : list FirewallRuleView) (customs : list FirewallCustomRule) : list FirewallRuleView :=
  foldl (fun views custom => push_view views (mkView (custom_rule custom) (FromCustom custom.(fc_id) custom.(fc_label)))) views customs.

Definition desired_rules_with_origin : result AppError (list FirewallRuleView) :=
  let? server := repos.(server_ssh_port) in
  let? ssh_port := ok_or server NotFound in
  let views := [mkView (mkRule ssh_port Tcp None) Ssh] in
  let? membership := repos.(network_get) in
  let views := match membership with Some _ => views ++ [mkView (mkRule LISTEN_PORT Udp None) WireGuard] | None => views end in
  let? applications := repos.(list_by_server) in
  let? views := application_views views applications in
  let? customs := repos.(custom_list) in
  Ok (custom_views views customs).

(** The filter of [desired_rules]. *)
Definition is_applied (view : FirewallRuleView) : bool :=
  match view.(fv_origin), view.(fv_rule).(fr_source_cidr) with
  | FromCustom _ _, Some source =>
      match canonical_ipv4_source source (lit "the source") with
      | Ok canonical => str_eqb canonical source
      | Err _ => false
      end
  | _, _ => true
  end.

Definition desired_rules : result AppError (list FirewallRule) :=
  let? views := desired_rules_with_origin in
  Ok (map fv_rule (List.filter is_applied views)).

Fixpoint container_port_rules (ports : list ApplicationPort) : list ContainerRule :=
  match ports with
  | [] => []
  | port :: ports =>
      match port.(ap_external_port) with
      | None => container_port_rules ports
      | Some external_port =>
          if negb (bool_decide (port.(ap_visibility) = VibeNetwork)) then container_port_rules ports
          else rules_for_published_port port.(ap_internal_port) external_port port.(ap_protocol) MESH_CIDR ++ container_port_rules ports
      end
  end.

Fixpoint container_rules (rules : list ContainerRule) (applications : list Application) : result AppError (list ContainerRule) :=
  match applications with
  | [] => Ok rules
  | application :: applications =>
      let? ports := repos.(list_ports) application.(ap_id) in
      container_rules (rules ++ container_port_rules ports) applications
  end.

Definition desired_container_rules : result AppError (list ContainerRule) :=
  let? membership := repos.(network_get) in
  match membership with
  | None => Ok []
  | Some _ => let? applications := repos.(list_by_server) in container_rules [] applications
  end.
End desired.

(** The checks of [add_custom_firewall_rule]: the input as it is stored. *)
Definition check_custom_input (input : FirewallCustomRuleInput) : result AppError FirewallCustomRuleInput :=
  match match trim <$> input.(fi_source_cidr) with
        | None | Some [] => Ok None
        | Some source => match canonical_ipv4_source source (lit "The source") with Ok s => Ok (Some s) | Err e => Err (InvalidInput e) end
        end with
  | Err e => Err e
  | Ok source_cidr =>
      if input.(fi_port) =? 0 then Err (InvalidInput (mkInvalid (lit "The port") (Other (lit "must be between 1 and 65535"))))
      else Ok (mkCustomInput input.(fi_label) input.(fi_protocol) input.(fi_port) source_cidr)
  end.
