(* ===== verification/FirewallSync.v ===== *)
(** * FirewallSync: what the firewall operations do to a Node

    The class [UfwHost] states what the operations of [Firewall] rely on:
    what ufw does with the commands they send, as its manual has it, and that
    their other commands leave ufw alone.  A command may always fail, and its
    answer may be lost after it ran, so what holds at the end of a run
    whatever its result holds between any two commands of it too. *)

From S2P Require Import Prelude Text Shell Sandbox Validators Ufw Firewall.

#[local] Open Scope Z_scope.
#[local] Open Scope fw_scope.

(** ** The host *)

Definition option_words (rule : FirewallRule) : list (list Z) :=
  match rule.(fr_source_cidr) with
  | None => [to_dec rule.(fr_port) ++ lit "/" ++ protocol_str rule.(fr_protocol)]
  | Some cidr => [lit "from"; cidr; lit "to"; lit "any"; lit "port"; to_dec rule.(fr_port); lit "proto"; protocol_str rule.(fr_protocol)]
  end.

Definition allow_words (rule : FirewallRule) : list (list Z) := [lit "sudo"; lit "ufw"; lit "allow"] ++ option_words rule ++ [lit "comment"; lit "vibessh"].
Definition delete_words (rule : FirewallRule) : list (list Z) := [lit "sudo"; lit "ufw"; lit "delete"; lit "allow"] ++ option_words rule.

(** An entry with the rule's own words, whoever added it and whatever its comment. *)
Definition concerns (rule : FirewallRule) (x : Listed) : Prop :=
  match x with
  | Ours r => r = rule
  | Theirs line => rule_words rule `prefix_of` split_whitespace line
  end.

(** The commands that are none of ufw's: the probes, and everything done through or for the helper. *)
Inductive Quiet : list Z -> Prop :=
| quiet_detect : Quiet (lit "command -v ufw >/dev/null 2>&1 && echo yes || echo no")
| quiet_connection : Quiet SSH_CONNECTION
| quiet_helper arguments : Quiet (helper_command arguments)
| quiet_check : Quiet (helper_command [lit "check"] ++ lit " >/dev/null 2>&1 && echo yes || echo no")
| quiet_cat : Quiet (lit "cat " ++ quote HELPER_PATH ++ lit " 2>/dev/null")
| quiet_install staging : Quiet (lit "sudo install -D -o root -g root -m 0755 " ++ quote staging ++ lit " " ++ quote HELPER_PATH ++ lit "; rc=$?; rm -f " ++ quote staging ++ lit "; exit $rc").

(** [added] is what [ufw show added] lists, [enforcing] whether ufw is
    enabled, [session_port] the port of the Node the session arrived on. *)
Class UfwHost (Node : Type) `{Connection Node} : Type := {
  added : Node -> list Listed;
  enforcing : Node -> bool;
  session_port : Node -> Z;

  (** [ufw allow]: the rule is there if the command succeeded, and an entry
      with the same words may have become it (its comment is replaced). *)
  allow_keeps : forall rule command n r n', rule_ok rule -> tokens command = Some (map Word (allow_words rule)) -> execute_command command n = (r, n') ->
    enforcing n' = enforcing n /\ (forall x, x ∈ added n' -> x ∈ added n \/ x = Ours rule) /\
    (forall x, x ∈ added n -> x = Ours rule \/ ~ concerns rule x -> x ∈ added n');
  allow_adds : forall rule command n out n', rule_ok rule -> tokens command = Some (map Word (allow_words rule)) -> execute_command command n = (Ok out, n') ->
    out.(exit_code) = 0 -> Ours rule ∈ added n';

  (** [ufw delete]. *)
  delete_keeps : forall rule command n r n', rule_ok rule -> tokens command = Some (map Word (delete_words rule)) -> execute_command command n = (r, n') ->
    enforcing n' = enforcing n /\ (forall x, x ∈ added n' -> x ∈ added n) /\ (forall x, x ∈ added n -> ~ concerns rule x -> x ∈ added n');
  delete_removes : forall rule command n out n', rule_ok rule -> tokens command = Some (map Word (delete_words rule)) -> execute_command command n = (Ok out, n') ->
    out.(exit_code) = 0 -> Ours rule ∉ added n';

  (** [ufw show added] and [ufw status] read; a failure is said on stderr. *)
  show_reads : forall n r n', execute_command SHOW_ADDED n = (r, n') ->
    added n' = added n /\ enforcing n' = enforcing n /\
    (forall out, r = Ok out -> if out.(exit_code) =? 0 then out.(stdout) = listing (added n) else out.(stdout) = []);
  status_reads : forall n r n', execute_command STATUS n = (r, n') ->
    added n' = added n /\ enforcing n' = enforcing n /\
    (forall out, r = Ok out ->
       if out.(exit_code) =? 0 then head (lines out.(stdout)) = Some (if enforcing n then lit "Status: active" else lit "Status: inactive") else out.(stdout) = []);

  (** [ufw enable]. *)
  enable_keeps : forall n r n', execute_command ENABLE n = (r, n') -> added n' = added n;

  quiet_keeps : forall command n r n', Quiet command -> execute_command command n = (r, n') -> added n' = added n /\ enforcing n' = enforcing n;
  file_keeps : forall path bytes n r n', write_file path bytes n = (r, n') ->
    added n' = added n /\ enforcing n' = enforcing n /\ session_port n' = session_port n;

  (** sshd sets [$SSH_CONNECTION] to the session's addresses and ports. *)
  port_kept : forall command n r n', execute_command command n = (r, n') -> session_port n' = session_port n;
  connection_tells : forall n out n', execute_command SSH_CONNECTION n = (Ok out, n') ->
    out.(stdout) = [] \/ exists a b c, split_whitespace out.(stdout) = [a; b; c; to_dec (session_port n)] /\ 0 <= session_port n <= 65535;
}.

(** ** The words of the commands *)

Lemma digits_plain s : forallb is_ascii_digit s = true -> forallb plain_char s = true.
Proof.
  rewrite !forallb_forall. intros Hs c Hc. specialize (Hs c Hc). revert Hs.
  unfold plain_char, is_ascii_digit, in_range, is_blank, is_operator, leaves_fragment. lia.
Qed.

Lemma protocol_plain p : forallb plain_char (protocol_str p) = true /\ protocol_str p <> [].
Proof. by destruct p. Qed.


(** [rest] ends the word before it and reads as [toks]. *)
Definition ends_word (rest : list Z) (toks : list Token) : Prop := forall w, forallb plain_char w = true -> w <> [] -> lex Bare None (w ++ rest) = Some (Word w :: toks).

Lemma ends_word_nil : ends_word [] [].
Proof. intros w Hw Hne. by rewrite app_nil_r, lex_last_word. Qed.

Lemma ends_word_blank rest toks : lex Bare None rest = Some toks -> ends_word (32 :: rest) toks.
Proof. intros Hr w Hw Hne. by rewrite lex_word, Hr. Qed.

(** What follows [sudo ufw allow ] in a command. *)
Definition options_text (rule : FirewallRule) : list Z :=
  match rule.(fr_source_cidr) with
  | None => to_dec rule.(fr_port) ++ lit "/" ++ protocol_str rule.(fr_protocol)
  | Some cidr => lit "from " ++ quote cidr ++ lit " to any port " ++ to_dec rule.(fr_port) ++ lit " proto " ++ protocol_str rule.(fr_protocol)
  end.

Lemma lex_options rule rest toks : rule_ok rule -> ends_word rest toks ->
  lex Bare None (options_text rule ++ rest) = Some (map Word (option_words rule) ++ toks).
Proof.
  intros [Hp Hc] Hrest. destruct (port_facts _ Hp) as (_ & Hd%digits_plain & Hne). destruct (protocol_plain rule.(fr_protocol)) as [Hpp Hpn].
  unfold option_words, options_text. destruct rule as [port proto [cidr|]]; cbn [fr_port fr_protocol fr_source_cidr] in *.
  - assert (Hz : contains_char 0 cidr = false).
    { destruct Hc as (a & bits & Ha & Hb & ->). destruct (network_text_net a bits Ha ltac:(lia)) as [Hn _]. eapply existsb_net_false; [|exact Hn].
      intros c. unfold net_char, is_ascii_digit, in_range. lia. }
    rewrite <-!app_assoc. change (lit "from " ++ ?x) with (lit "from" ++ 32 :: x). rewrite lex_word by done.
    change (lit " to any port " ++ ?x) with (32 :: lit "to" ++ 32 :: lit "any" ++ 32 :: lit "port" ++ 32 :: x). rewrite lex_quoted_word by done.
    do 3 rewrite lex_word by done. change (lit " proto " ++ ?x) with (32 :: lit "proto" ++ 32 :: x). do 2 rewrite lex_word by done. by rewrite Hrest.
  - rewrite Hrest; [done| |by destruct (to_dec port)]. by rewrite !forallb_app, Hd, Hpp.
Qed.

Lemma tokens_allow rule : rule_ok rule -> tokens (allow_command rule) = Some (map Word (allow_words rule)).
Proof.
  intros Hok. assert (Ha : allow_command rule = lit "sudo" ++ 32 :: lit "ufw" ++ 32 :: lit "allow" ++ 32 :: options_text rule ++ lit " comment 'vibessh'").
  { unfold allow_command, options_text. destruct (fr_source_cidr rule); by rewrite <-!app_assoc. }
  unfold tokens. rewrite Ha. do 3 rewrite lex_word by done.
  rewrite (lex_options rule _ [Word (lit "comment"); Word (lit "vibessh")] Hok); [|by apply ends_word_blank]. unfold allow_words. by rewrite !map_app.
Qed.

Lemma tokens_delete rule : rule_ok rule -> tokens (revoke_command rule) = Some (map Word (delete_words rule)).
Proof.
  intros Hok. assert (Ha : revoke_command rule = lit "sudo" ++ 32 :: lit "ufw" ++ 32 :: lit "delete" ++ 32 :: lit "allow" ++ 32 :: options_text rule ++ []).
  { unfold revoke_command, options_text. rewrite app_nil_r. by destruct (fr_source_cidr rule). }
  unfold tokens. rewrite Ha. do 4 rewrite lex_word by done. rewrite (lex_options rule _ [] Hok ends_word_nil), app_nil_r. unfold delete_words. by rewrite !map_app.
Qed.

(** ** Reasoning about runs *)

(** What a claim can say about a Node: its entries, whether ufw is enabled, the port of the session. *)
Record View : Type := mkHostView { v_added : list Listed; v_enforcing : bool; v_port : Z }.

Section logic.
Context {Node : Type} `{UfwHost Node}.

Definition view (n : Node) : View := mkHostView (added n) (enforcing n) (session_port n).
Definition final {A} (m : F Node A) (s : FwState Node) : View := view (m s).2.(fw_node).

Definition hoare {A} (P : View -> Prop) (m : F Node A) (Q : result AppError A -> View -> Prop) : Prop :=
  forall s, P (view s.(fw_node)) -> Q (m s).1 (final m s).

(** A run that changes nothing ufw keeps. *)
Definition inert {A} (m : F Node A) : Prop := forall s, final m s = view s.(fw_node).

Lemma hoare_conseq {A} (P P' : View -> Prop) (m : F Node A) (Q Q' : result AppError A -> View -> Prop) :
  hoare P' m Q' -> (forall v, P v -> P' v) -> (forall r v, Q' r v -> Q r v) -> hoare P m Q.
Proof. unfold hoare. naive_solver. Qed.

Lemma hoare_ret {A} (P : View -> Prop) (a : A) (Q : result AppError A -> View -> Prop) : (forall v, P v -> Q (Ok a) v) -> hoare P (ret a) Q.
Proof. intros HQ s Hs. by apply HQ. Qed.

Lemma hoare_throw {A} (P : View -> Prop) e (Q : result AppError A -> View -> Prop) : (forall v, P v -> Q (Err e) v) -> hoare P (throw e) Q.
Proof. intros HQ s Hs. by apply HQ. Qed.

Lemma hoare_bind {A B} (P : View -> Prop) (m : F Node A) (f : A -> F Node B) (R : A -> View -> Prop) (Q : result AppError B -> View -> Prop) :
  hoare P m (fun r v => match r with Ok a => R a v | Err e => Q (Err e) v end) -> (forall a, hoare (R a) (f a) Q) -> hoare P (bind m f) Q.
Proof.
  intros Hm Hf s Hs. specialize (Hm s Hs). unfold final, bind in *. destruct (m s) as [[a|e] s'] eqn:E; [|done]. by apply (Hf a s').
Qed.

Lemma hoare_run (P : View -> Prop) command (Q : result AppError CommandOutput -> View -> Prop) :
  (forall n r n', P (view n) -> execute_command command n = (r, n') -> Q (match r with Ok out => Ok out | Err m => Err (Transport m) end) (view n')) ->
  hoare P (run_command command) Q.
Proof.
  intros HQ s Hs. unfold final, run_command. destruct (execute_command command s.(fw_node)) as [r n'] eqn:E. cbn. by eapply HQ.
Qed.

Lemma hoare_inert {A} (P : View -> Prop) (m : F Node A) : inert m -> hoare P m (fun _ v => P v).
Proof. intros Hm s Hs. by rewrite Hm. Qed.

(** A run that changes nothing, before one that may. *)
Lemma hoare_after {A B} (P : View -> Prop) (m : F Node A) (f : A -> F Node B) (Q : result AppError B -> View -> Prop) :
  inert m -> (forall e v, P v -> Q (Err e) v) -> (forall a, hoare P (f a) Q) -> hoare P (bind m f) Q.
Proof.
  intros Hm He Hf. apply (hoare_bind P m f (fun _ => P)); [|done]. eapply hoare_conseq; [by apply (hoare_inert P)|done|]. intros [a|e] v Hv; auto.
Qed.

Lemma hoare_if {A} (b : bool) (P : View -> Prop) (m1 m2 : F Node A) (Q : result AppError A -> View -> Prop) :
  hoare P m1 Q -> hoare P m2 Q -> hoare P (if b then m1 else m2) Q.
Proof. by destruct b. Qed.

Lemma inert_ret {A} (a : A) : inert (ret a).
Proof. done. Qed.

Lemma inert_throw {A} e : inert (throw (A := A) e).
Proof. done. Qed.

Lemma inert_bind {A B} (m : F Node A) (f : A -> F Node B) : inert m -> (forall a, inert (f a)) -> inert (bind m f).
Proof.
  intros Hm Hf s. specialize (Hm s). unfold final, bind in *. destruct (m s) as [[a|e] s'] eqn:E; [|done]. rewrite <-Hm. apply (Hf a s').
Qed.

Lemma inert_attempt {A} (m : F Node A) : inert m -> inert (attempt m).
Proof. intros Hm s. specialize (Hm s). unfold final, attempt in *. by destruct (m s) as [r s']. Qed.

Lemma inert_if {A} (b : bool) (m1 m2 : F Node A) : inert m1 -> inert m2 -> inert (if b then m1 else m2).
Proof. by destruct b. Qed.

Lemma inert_run command : (forall n r n', execute_command command n = (r, n') -> added n' = added n /\ enforcing n' = enforcing n) -> inert (run_command command).
Proof.
  intros Hc s. unfold final, run_command. destruct (execute_command command s.(fw_node)) as [r n'] eqn:E. destruct (Hc _ _ _ E) as [Ha He].
  cbn. unfold view. by rewrite Ha, He, (port_kept _ _ _ _ E).
Qed.

Lemma inert_quiet command : Quiet command -> inert (run_command command).
Proof. intros Hq. apply inert_run. intros n r n' E. by eapply quiet_keeps. Qed.

Lemma inert_status : inert (run_command STATUS).
Proof. apply inert_run. intros n r n' E. destruct (status_reads _ _ _ E) as (? & ? & _). auto. Qed.

Lemma inert_show : inert (run_command SHOW_ADDED).
Proof. apply inert_run. intros n r n' E. destruct (show_reads _ _ _ E) as (? & ? & _). auto. Qed.

Lemma inert_put_file path bytes : inert (put_file path bytes).
Proof.
  intros s. unfold final, put_file. destruct (write_file path bytes s.(fw_node)) as [r n'] eqn:E. destruct (file_keeps _ _ _ _ _ E) as (Ha & He & Hp).
  cbn. unfold view. by rewrite Ha, He, Hp.
Qed.
End logic.

Create HintDb inert.
#[export] Hint Resolve inert_ret inert_throw inert_bind inert_attempt inert_if inert_quiet inert_status inert_show inert_put_file : inert.
#[export] Hint Constructors Quiet : inert.

Section operations.
Context {Node : Type} `{UfwHost Node}.
Context (HELPER_SCRIPT : list Z).

(** ** The operations that leave ufw alone *)

Lemma inert_detect : inert (Node := Node) detect_ufw.
Proof. unfold detect_ufw. auto with inert. Qed.

Lemma inert_live_port : inert (Node := Node) live_ssh_port.
Proof. unfold live_ssh_port. apply inert_bind; [auto with inert|]. intros out. destruct (parse_live_ssh_port _); auto with inert. Qed.

Lemma inert_active : inert (Node := Node) is_active.
Proof. unfold is_active. auto with inert. Qed.

Lemma inert_owned : inert (Node := Node) vibessh_owned_rules.
Proof. unfold vibessh_owned_rules. auto with inert. Qed.

Lemma inert_ensure_helper : inert (Node := Node) (ensure_helper_installed HELPER_SCRIPT).
Proof.
  intros s. unfold ensure_helper_installed, final. case_bool_decide; [done|].
  match goal with |- view (fw_node (?m s).2) = _ => enough (Hi : inert m) by apply (Hi s) end.
  apply inert_bind; [auto with inert|]. intros out. apply inert_bind; [|done]. apply inert_if; [auto with inert|].
  apply inert_bind; [done|]. intros id. apply inert_bind; [auto with inert|]. intros _. auto with inert.
Qed.

Lemma inert_remove_stale stale : forall removed, inert (Node := Node) (remove_stale removed stale).
Proof. induction stale as [|rule stale IH]; intros removed; cbn [remove_stale]; [auto with inert|]. unfold delete_command. auto with inert. Qed.

Lemma inert_add_missing missing : forall n, inert (Node := Node) (add_missing n missing).
Proof. induction missing as [|rule missing IH]; intros n; cbn [add_missing]; [auto with inert|]. unfold drop_command. auto 6 with inert. Qed.

Lemma inert_containers rules : inert (Node := Node) (reconcile_containers HELPER_SCRIPT rules).
Proof.
  unfold reconcile_containers, reconcile_chain, detect_chain, read_owned. pose proof inert_ensure_helper as He.
  apply inert_bind; [|auto with inert]. apply inert_attempt, inert_bind; [auto with inert|]. intros present. apply inert_if; [auto with inert|].
  apply inert_bind; [auto 6 with inert|]. intros owned. apply inert_bind; [apply inert_remove_stale|]. intros removed.
  apply inert_bind; [apply inert_add_missing|]. intros added. destruct (dedupe rules); [auto with inert|]. unfold conntrack_delete_command, conntrack_return_command.
  auto 8 with inert.
Qed.
End operations.
#[export] Hint Resolve inert_detect inert_live_port inert_active inert_owned inert_containers : inert.

(** ** The rules that matter *)

Section sync.
Context {Node : Type} `{UfwHost Node}.
Context (HELPER_SCRIPT : list Z).
Context (desired : list FirewallRule) (containers : list ContainerRule).
Context (desired_ok : Forall rule_ok desired).
(** The entries at the start. *)
Context (start : list Listed).

(** Whether ufw is enabled, and the session's port. *)
Definition setting (v : View) : bool * Z := (v.(v_enforcing), v.(v_port)).

(** What every moment of a sync keeps. *)
Record Kept (l : list Listed) : Prop := {
  k_ok : Forall listed_ok l;
  k_only : forall x, x ∈ l -> x ∈ start \/ exists rule, rule ∈ desired /\ x = Ours rule;
  k_desired : forall rule, rule ∈ desired -> Ours rule ∈ start -> Ours rule ∈ l;
  k_foreign : forall line, Theirs line ∈ start -> (forall rule, rule ∈ desired \/ Ours rule ∈ start -> ~ concerns rule (Theirs line)) -> Theirs line ∈ l;
}.

(** A set of desired rules that, once there, stays. *)
Definition Has (rules : list FirewallRule) (v : View) : Prop := Kept v.(v_added) /\ forall rule, rule ∈ rules -> rule ∈ desired /\ Ours rule ∈ v.(v_added).

Lemma rule_ok_in rule : rule ∈ desired -> rule_ok rule.
Proof. intros Hr. rewrite Forall_forall in desired_ok. auto. Qed.

Lemma allow_step rule rules e : rule ∈ desired ->
  hoare (Node := Node) (fun v => Has rules v /\ setting v = e) (run_command (allow_command rule))
    (fun r v => setting v = e /\ match r with Ok out => if out.(exit_code) =? 0 then Has (rule :: rules) v else Has rules v | Err _ => Has rules v end).
Proof.
  intros Hr. apply hoare_run. intros n r n' [[HK HH] He] E. pose proof (rule_ok_in rule Hr) as Hok.
  destruct (allow_keeps _ _ _ _ _ Hok (tokens_allow rule Hok) E) as (He' & Hback & Hfwd).
  assert (Hours : forall x, Ours x ∈ added n -> Ours x ∈ added n').
  { intros x Hx. apply Hfwd; [done|]. destruct (decide (x = rule)) as [->|Hne]; [by left|]. right. cbn. congruence. }
  assert (HK' : Kept (added n')).
  { destruct HK as [K1 K2 K3 K4]. split.
    - apply Forall_forall. intros x Hx. rewrite Forall_forall in K1. destruct (Hback x Hx) as [Hx'| ->]; [auto|done].
    - intros x Hx. destruct (Hback x Hx) as [Hx'| ->]; [auto|]. right. eauto.
    - auto.
    - intros line Hl Hc. apply Hfwd; [by apply K4|]. right. apply Hc. by left. }
  assert (Hrules : Has rules (view n')).
  { split; [done|]. intros x Hx. destruct (HH x Hx). auto. }
  split; [unfold setting in *; cbn in *; by rewrite He', (port_kept _ _ _ _ E)|]. destruct r as [out|m]; [|done]. destruct (exit_code out =? 0) eqn:E0; [|done]. apply Z.eqb_eq in E0.
  split; [done|]. intros x [->|Hx]%elem_of_cons; [|by apply Hrules]. split; [done|]. by eapply allow_adds; [exact Hok|by apply tokens_allow|exact E|].
Qed.

Lemma apply_loop_spec todo e : forall failures rules, (forall rule, rule ∈ todo -> rule ∈ desired) ->
  hoare (Node := Node) (fun v => Has rules v /\ setting v = e) (apply_loop failures todo)
    (fun r v => setting v = e /\ Has rules v /\ match r with Ok failures' => failures' = [] -> failures = [] /\ Has (rules ++ todo) v | Err _ => True end).
Proof.
  induction todo as [|rule todo IH]; intros failures rules Hin; cbn [apply_loop].
  - apply hoare_ret. intros v [HH He]. rewrite app_nil_r. auto.
  - apply (hoare_bind _ _ _ (fun out v => setting v = e /\ if exit_code out =? 0 then Has (rule :: rules) v else Has rules v)).
    + eapply hoare_conseq; [apply (allow_step rule rules e); set_solver|done|]. intros [out|m] v [He Hv]; cbn; auto.
    + intros out. destruct (exit_code out =? 0); cbn beta iota.
      * eapply hoare_conseq; [apply (IH failures (rule :: rules)); set_solver|naive_solver|]. intros r v (He & HH & Hr). split_and!; [done| |].
        -- destruct HH as [HK HH]. split; [done|]. intros x Hx. apply HH. set_solver.
        -- destruct r as [f|]; [|done]. intros Hf. destruct (Hr Hf) as [Hf' [HK HH']]. split; [done|]. split; [done|]. intros x Hx. apply HH'. set_solver.
      * eapply hoare_conseq; [apply (IH (failures ++ [(rule, detail_or out "ufw allow failed")]) rules); set_solver|naive_solver|].
        intros r v (He & HH & Hr). split_and!; [done|done|]. destruct r as [f|]; [|done]. intros Hf. destruct (Hr Hf) as [Hf' _]. by apply app_eq_nil in Hf' as [_ ?].
Qed.

Lemma apply_rules_spec e :
  hoare (Node := Node) (fun v => Has [] v /\ setting v = e) (apply_rules desired)
    (fun r v => setting v = e /\ Has (match r with Ok _ => desired | Err _ => [] end) v).
Proof.
  unfold apply_rules. apply (hoare_bind _ _ _ (fun f v => setting v = e /\ Has (match f with [] => desired | _ => [] end) v)).
  - eapply hoare_conseq; [by apply (apply_loop_spec desired e [] [])|done|]. intros [f|m] v (He & HH & Hr); [|done]. split; [done|]. destruct f; [|done]. by destruct Hr.
  - intros [|f fs]; [by apply hoare_ret|by apply hoare_throw].
Qed.

(** The listing can be read. *)
Definition listing_readable : Prop := forall n out n', execute_command (Node := Node) SHOW_ADDED n = (Ok out, n') -> out.(exit_code) = 0.

(** The desktop's own entries are desired, or still to be removed. *)
Definition OnlyOr (todo : list FirewallRule) (v : View) : Prop :=
  listing_readable -> forall rule, Ours rule ∈ v.(v_added) -> rule ∈ desired \/ rule ∈ todo.

Lemma delete_step rule rules todo e : rule_ok rule -> rule ∉ desired -> Ours rule ∈ start ->
  hoare (Node := Node) (fun v => Has rules v /\ setting v = e /\ OnlyOr (rule :: todo) v) (run_command (revoke_command rule))
    (fun r v => setting v = e /\ Has rules v /\ match r with Ok out => out.(exit_code) = 0 -> OnlyOr todo v | Err _ => True end).
Proof.
  intros Hok Hnd Hstart. apply hoare_run. intros n r n' (([K1 K2 K3 K4] & HH) & He & Hor) E.
  destruct (delete_keeps _ _ _ _ _ Hok (tokens_delete rule Hok) E) as (He' & Hback & Hfwd).
  assert (Hours : forall x, x ∈ desired -> Ours x ∈ added n -> Ours x ∈ added n').
  { intros x Hd Hx. apply Hfwd; [done|]. cbn. congruence. }
  split_and!; [unfold setting in *; cbn in *; by rewrite He', (port_kept _ _ _ _ E)|split; [split|]|].
  - apply Forall_forall. intros x Hx. rewrite Forall_forall in K1. auto.
  - auto.
  - auto.
  - intros line Hl Hc. apply Hfwd; [by apply K4|]. apply Hc. by right.
  - intros x Hx. destruct (HH x Hx). auto.
  - destruct r as [out|]; [|done]. intros Hz Hread x Hx. destruct (Hor Hread x (Hback _ Hx)) as [?|Ht]; [by left|].
    apply elem_of_cons in Ht as [->|]; [|by right]. exfalso. revert Hx. by eapply delete_removes; [exact Hok|by apply tokens_delete|exact E|].
Qed.

Lemma revoke_rules_spec obsolete e rules : Forall (fun rule => rule_ok rule /\ ~ rule ∈ desired /\ Ours rule ∈ start) obsolete ->
  hoare (Node := Node) (fun v => Has rules v /\ setting v = e /\ OnlyOr obsolete v) (revoke_rules obsolete)
    (fun r v => setting v = e /\ Has rules v /\ match r with Ok _ => OnlyOr [] v | Err _ => True end).
Proof.
  induction 1 as [|rule obsolete (Hok & Hnd & Hs) _ IH]; cbn [revoke_rules].
  - apply hoare_ret. naive_solver.
  - apply (hoare_bind _ _ _ (fun out v => setting v = e /\ Has rules v /\ (exit_code out = 0 -> OnlyOr obsolete v))).
    + eapply hoare_conseq; [apply (delete_step rule rules obsolete e Hok Hnd Hs)|done|]. by intros [out|m] v (He & HH & Hr).
    + intros out. destruct (exit_code out =? 0) eqn:E0; cbn [negb].
      * apply Z.eqb_eq in E0. eapply hoare_conseq; [exact IH|naive_solver|done].
      * apply hoare_throw. naive_solver.
Qed.


Lemma owned_spec (P : View -> Prop) : (forall v, P v -> Forall listed_ok v.(v_added)) ->
  hoare (Node := Node) P vibessh_owned_rules
    (fun r v => P v /\ match r with
                      | Ok owned => (forall rule, rule ∈ owned -> Ours rule ∈ v.(v_added)) /\ (listing_readable -> forall rule, Ours rule ∈ v.(v_added) -> rule ∈ owned)
                      | Err _ => True end).
Proof.
  intros HP. apply (hoare_bind _ _ _ (fun out v => P v /\ (out.(stdout) = [] /\ out.(exit_code) <> 0 \/ out.(stdout) = listing v.(v_added))
    /\ (listing_readable -> out.(exit_code) = 0))).
  - apply hoare_run. intros n r n' Hn E. destruct (show_reads _ _ _ E) as (Ha & He & Hr).
    assert (Hv : view n' = view n) by (unfold view; by rewrite Ha, He, (port_kept _ _ _ _ E)). rewrite Hv. destruct r as [out|m]; [|done]. split_and!; [done| |].
    + specialize (Hr out eq_refl). destruct (Z.eqb_spec (exit_code out) 0); auto.
    + intros Hread. by eapply Hread.
  - intros out. apply hoare_ret. intros v (Hv & Hout & Hread). split; [done|]. destruct Hout as [[-> Hne]| ->].
    + split; [cbn; set_solver|]. naive_solver.
    + rewrite read_back by auto. unfold ours. split; [intros rule|intros _ rule].
      * intros (x & Hx & Hr)%list_elem_of_omap. destruct x; simplify_eq; done.
      * intros Hr. apply list_elem_of_omap. eauto.
Qed.

Lemma revoke_obsolete_spec rules e :
  hoare (Node := Node) (fun v => Has rules v /\ setting v = e) (revoke_obsolete_rules desired)
    (fun r v => setting v = e /\ Has rules v /\ match r with Ok _ => OnlyOr [] v | Err _ => True end).
Proof.
  unfold revoke_obsolete_rules. apply (hoare_bind _ _ _ (fun owned v => (Has rules v /\ setting v = e) /\ (forall rule, rule ∈ owned -> Ours rule ∈ v.(v_added))
    /\ (listing_readable -> forall rule, Ours rule ∈ v.(v_added) -> rule ∈ owned))).
  - eapply hoare_conseq; [apply (owned_spec (fun v => Has rules v /\ setting v = e))|done|].
    + intros v [[HK _] _]. apply HK.
    + intros [owned|m] v [[HH He] Hr]; [done|]. done.
  - intros owned. set (obsolete := List.filter _ owned). intros s Hs.
    assert (Hin : forall rule, rule ∈ obsolete <-> rule ∈ owned /\ rule ∉ desired).
    { intros rule. unfold obsolete. rewrite !list_elem_of_In, filter_In, <-!list_elem_of_In, negb_true_iff, bool_decide_eq_false. done. }
    assert (Hobs : Forall (fun rule => rule_ok rule /\ ~ rule ∈ desired /\ Ours rule ∈ start) obsolete).
    { apply Forall_forall. intros rule [Ho Hd]%Hin. destruct Hs as (([HK _] & _) & Ho' & _). specialize (Ho' rule Ho). split_and!; [|done|].
      - pose proof (k_ok _ HK) as Hall. rewrite Forall_forall in Hall. apply (Hall _ Ho').
      - destruct (k_only _ HK _ Ho') as [?|(r & Hr & Heq)]; [done|]. by simplify_eq. }
    assert (Hor : OnlyOr obsolete (view (fw_node s))).
    { intros Hread rule Hr. destruct (decide (rule ∈ desired)); [by left|]. right. apply Hin. split; [|done]. by apply Hs. }
    destruct Hs as ((HH & He) & _). destruct obsolete as [|rule obs]; [done|].
    revert s HH He Hor. cut (hoare (Node := Node) (fun v => Has rules v /\ setting v = e /\ OnlyOr (rule :: obs) v) (revoke_rules (rule :: obs) ;;; ret (Z.of_nat (length (rule :: obs))))
      (fun r v => setting v = e /\ Has rules v /\ match r with Ok _ => OnlyOr [] v | Err _ => True end)); [intros Hh s ???; by apply (Hh s)|].
    apply (hoare_bind _ _ _ (fun _ v => setting v = e /\ Has rules v /\ OnlyOr [] v)).
    + eapply hoare_conseq; [by apply (revoke_rules_spec (rule :: obs) e rules)|done|]. by intros [[]|m] v.
    + intros _. by apply hoare_ret.
Qed.

Lemma active_spec (P : View -> Prop) :
  hoare (Node := Node) P is_active (fun r v => P v /\ match r with Ok active => active = true -> v.(v_enforcing) = true | Err _ => True end).
Proof.
  apply (hoare_bind _ _ _ (fun out v => P v /\ (parse_is_active out.(stdout) = true -> v.(v_enforcing) = true))); [|intros out; by apply hoare_ret].
  apply hoare_run. intros n r n' Hn E. destruct (status_reads _ _ _ E) as (Ha & He & Hr).
  assert (Hv : view n' = view n) by (unfold view; by rewrite Ha, He, (port_kept _ _ _ _ E)). rewrite Hv. destruct r as [out|m]; [|done]. split; [done|].
  specialize (Hr out eq_refl). unfold parse_is_active. rewrite bool_decide_eq_true. destruct (exit_code out =? 0); rewrite Hr; [|done].
  cbn [fmap option_fmap option_map v_enforcing view]. destruct (enforcing n); [done|]. cbn. by intros [=].
Qed.

Lemma live_port_spec (P : View -> Prop) :
  hoare (Node := Node) P live_ssh_port (fun r v => P v /\ match r with Ok port => port = v.(v_port) | Err _ => True end).
Proof.
  apply (hoare_bind _ _ _ (fun out v => P v /\ forall port, parse_live_ssh_port out.(stdout) = Some port -> port = v.(v_port))).
  - apply hoare_run. intros n r n' Hn E. destruct (quiet_keeps _ _ _ _ quiet_connection E) as (Ha & He).
    assert (Hv : view n' = view n) by (unfold view; by rewrite Ha, He, (port_kept _ _ _ _ E)). rewrite Hv. destruct r as [out|m]; [|done]. split; [done|].
    intros port. unfold parse_live_ssh_port. destruct (connection_tells _ _ _ E) as [->|(a & b & c & -> & Hp)]; [done|]. cbn [lookup list_lookup mbind option_bind].
    destruct (port_facts _ Hp) as (-> & _). by intros [= <-].
  - intros out. destruct (parse_live_ssh_port (stdout out)) as [port|] eqn:E; [apply hoare_ret|apply hoare_throw]; naive_solver.
Qed.

(** The end of both operations: the containers, and whether ufw is enabled. *)
Lemma tail_spec (P : View -> Prop) backend rules_removed applied :
  hoare (Node := Node) P
    (container_error <- reconcile_containers HELPER_SCRIPT containers ;;
     active <- is_active ;; ret (mkSync (Some backend) active applied rules_removed (negb active) container_error))
    (fun r v => P v /\ match r with Ok result => result.(sy_backend) = Some backend /\ (result.(sy_unenforced) = false -> v.(v_enforcing) = true) | Err _ => True end).
Proof.
  apply hoare_after; [auto with inert|done|]. intros container_error.
  apply (hoare_bind _ _ _ (fun active v => P v /\ (active = true -> v.(v_enforcing) = true))); [eapply hoare_conseq; [apply (active_spec P)|done|]; by intros [[]|] v|].
  intros active. apply hoare_ret. intros v [Hv Ha]. split; [done|]. split; [done|]. cbn. rewrite negb_false_iff. done.
Qed.

Lemma unenforced_spec (P : View -> Prop) :
  hoare (Node := Node) P (container_error <- reconcile_containers HELPER_SCRIPT containers ;; ret (unenforced container_error))
    (fun r v => P v /\ match r with Ok result => result.(sy_backend) = None /\ result.(sy_unenforced) = true | Err _ => True end).
Proof. apply hoare_after; [auto with inert|done|]. intros e. by apply hoare_ret. Qed.

(** What is told of a sync: [None] when there is no ufw, otherwise the rules are the desired ones; enforcement only where there is any. *)
Definition Told (r : result AppError FirewallSyncResult) (v : View) : Prop :=
  match r with
  | Ok result =>
      (result.(sy_unenforced) = false -> v.(v_enforcing) = true) /\ (result.(sy_backend) = None \/ Has desired v /\ OnlyOr [] v)
  | Err _ => True
  end.

Lemma Has_weaken rules rules' v : (forall rule, rule ∈ rules' -> rule ∈ rules) -> Has rules v -> Has rules' v.
Proof. intros Hsub [HK HH]. split; auto. Qed.

Lemma reconcile_spec e :
  hoare (Node := Node) (fun v => Has [] v /\ setting v = e) (reconcile_attempt HELPER_SCRIPT desired containers)
    (fun r v => setting v = e /\ Has [] v /\ Told r v).
Proof.
  unfold reconcile_attempt. apply hoare_after; [auto with inert|cbn; naive_solver|]. intros provider. destruct provider; cbn [negb].
  - apply (hoare_bind _ _ _ (fun _ v => setting v = e /\ Has desired v)).
    { eapply hoare_conseq; [apply (apply_rules_spec e)|done|]. intros [[]|m] v [He HH]; cbn; auto. }
    intros _. apply (hoare_bind _ _ _ (fun _ v => setting v = e /\ Has desired v /\ OnlyOr [] v)).
    { eapply hoare_conseq; [apply (revoke_obsolete_spec desired e)|naive_solver|]. intros [r|m] v (He & HH & Hr); [done|]. split_and!; [done| |done].
      eapply Has_weaken; [|exact HH]. set_solver. }
    intros removed. eapply hoare_conseq; [apply (tail_spec (fun v => setting v = e /\ Has desired v /\ OnlyOr [] v))|done|].
    intros r v ((He & HH & Ho) & Hr). split_and!; [done|eapply Has_weaken; [|exact HH]; set_solver|]. destruct r as [res|]; [|done]. destruct Hr as [_ Hr]. split; auto.
  - eapply hoare_conseq; [apply (unenforced_spec (fun v => Has [] v /\ setting v = e))|done|]. intros r v [[HH He] Hr]. split_and!; [done|done|].
    destruct r as [res|]; [|done]. destruct Hr as [Hb Hu]. split; [congruence|auto].
Qed.

(** The session's own port is let in whenever ufw is enabled. *)
Definition LetIn (v : View) : Prop := v.(v_enforcing) = true -> mkRule v.(v_port) Tcp None ∈ desired /\ Ours (mkRule v.(v_port) Tcp None) ∈ v.(v_added).

Lemma Has_let_in rules v : mkRule v.(v_port) Tcp None ∈ rules -> Has rules v -> LetIn v.
Proof. intros Hin [_ HH] _. auto. Qed.

Lemma enable_step port :
  hoare (Node := Node) (fun v => Has desired v /\ v.(v_port) = port) (run_command ENABLE) (fun _ v => Has desired v /\ v.(v_port) = port).
Proof.
  apply hoare_run. intros n r n' [[HK HH] Hp] E. pose proof (enable_keeps _ _ _ E) as Ha. unfold view in *. cbn in *. rewrite <-(port_kept _ _ _ _ E) in Hp.
  rewrite <-Ha in HK, HH. split; [split|]; done.
Qed.

Lemma enable_spec :
  hoare (Node := Node) (fun v => Has [] v /\ v.(v_enforcing) = false) (enable desired)
    (fun r v => Has [] v /\ LetIn v /\ match r with Ok _ => Has desired v /\ mkRule v.(v_port) Tcp None ∈ desired | Err _ => True end).
Proof.
  unfold enable. apply (hoare_bind _ _ _ (fun port v => (Has [] v /\ v.(v_enforcing) = false) /\ port = v.(v_port))).
  { eapply hoare_conseq; [apply (live_port_spec (fun v => Has [] v /\ v.(v_enforcing) = false))|done|].
    intros [port|m] v [[HH He] Hp]; [done|]. split_and!; [done| |done]. unfold LetIn. by rewrite He. }
  intros port. destruct (existsb (covers port) desired) eqn:Ec; cbn [negb].
  2:{ apply hoare_throw. intros v [[HH He] _]. split_and!; [done| |done]. unfold LetIn. by rewrite He. }
  apply existsb_elem_of in Ec as (rule & Hin & Hc). unfold covers in Hc. rewrite !andb_true_iff, Z.eqb_eq, !bool_decide_eq_true in Hc.
  destruct rule as [p proto src]; cbn in Hc. destruct Hc as [[-> ->] ->].
  apply (hoare_bind _ _ _ (fun _ v => Has desired v /\ v.(v_port) = port)).
  { eapply hoare_conseq; [apply (apply_rules_spec (false, port))| |].
    - intros v [[HH He] ->]. split; [done|]. unfold setting. by rewrite He.
    - intros [[]|m] v [He HH]; unfold setting in He; injection He as He Hp; [done|]. split_and!; [done| |done]. unfold LetIn. by rewrite He. }
  intros _.
  assert (Hend : forall v, Has desired v /\ v.(v_port) = port -> Has [] v /\ LetIn v /\ Has desired v /\ mkRule v.(v_port) Tcp None ∈ desired).
  { intros v [HH Hp]. rewrite Hp. split_and!; [eapply Has_weaken; [|exact HH]; set_solver| |done|done]. eapply Has_let_in; [|exact HH]. by rewrite Hp. }
  apply (hoare_bind _ _ _ (fun _ v => Has desired v /\ v.(v_port) = port)).
  { eapply hoare_conseq; [apply (enable_step port)|done|]. intros [out|m] v Hv; [done|]. destruct (Hend v Hv) as (? & ? & _). done. }
  intros out. apply hoare_if; [apply hoare_throw|apply hoare_ret]; intros v Hv; destruct (Hend v Hv) as (? & ? & ? & ?); done.
Qed.

Lemma enable_attempt_spec :
  hoare (Node := Node) (fun v => Has [] v /\ v.(v_enforcing) = false) (enable_attempt HELPER_SCRIPT desired containers)
    (fun r v => Has [] v /\ LetIn v /\ Told r v).
Proof.
  unfold enable_attempt. assert (Hoff : forall v, Has [] v /\ v.(v_enforcing) = false -> LetIn v) by (intros v [_ He]; unfold LetIn; by rewrite He).
  apply hoare_after; [auto with inert|naive_solver|]. intros provider. destruct provider; cbn [negb].
  - apply (hoare_bind _ _ _ (fun _ v => Has desired v /\ mkRule v.(v_port) Tcp None ∈ desired)).
    { eapply hoare_conseq; [apply enable_spec|done|]. by intros [[]|m] v (HH & HL & Hr). }
    intros _. set (R := fun v => Has desired v /\ OnlyOr [] v /\ mkRule v.(v_port) Tcp None ∈ desired).
    apply (hoare_bind _ _ _ (fun _ => R)).
    { intros s [HH Hp]. pose proof (revoke_obsolete_spec desired (setting (view (fw_node s))) s (conj HH eq_refl)) as (He & HH' & Hr).
      unfold setting in He. injection He as He Hpv. change (session_port (fw_node s)) with (v_port (view (fw_node s))) in Hpv. rewrite <-Hpv in Hp. destruct (revoke_obsolete_rules desired s).1 as [removed|]; [done|].
      split_and!; [eapply Has_weaken; [|exact HH']; set_solver|by eapply Has_let_in|done]. }
    intros removed. eapply hoare_conseq; [apply (tail_spec R)|done|]. intros r v ((HH & Ho & Hp) & Hr).
    split_and!; [eapply Has_weaken; [|exact HH]; set_solver|by eapply Has_let_in|]. destruct r as [res|]; [|done]. destruct Hr as [_ Hr]. split; auto.
  - eapply hoare_conseq; [apply (unenforced_spec (fun v => Has [] v /\ v.(v_enforcing) = false))|done|]. intros r v [Hv Hr]. split_and!; [apply Hv|auto|].
    destruct r as [res|]; [|done]. destruct Hr as [Hb Hu]. split; [congruence|auto].
Qed.

Lemma Has_start n : added n = start -> Forall listed_ok start -> Has [] (view (Node := Node) n).
Proof. intros Ha Hok. split; [|set_solver]. unfold view. cbn. rewrite Ha. split; auto. Qed.
End sync.

(** ** A host that satisfies the laws *)

Module ToyHost.

Record Host : Type := mkHost { entries : list Listed; on : bool }.

Definition word (t : Token) : list Z := match t with Word w => w | Op _ => [] end.
Definition decode (toks : list Token) : option FirewallRule := parse_added_line (join [32] ([lit "ufw"; lit "allow"] ++ map word toks)).
Definition answer (text : list Z) : result (list Z) CommandOutput := Ok (mkOutput 0 text []).
Definition same (rule : FirewallRule) (x : Listed) : bool := match x with Ours r => bool_decide (r = rule) | Theirs _ => false end.

(** [sudo ufw ...]. *)
Definition ufw (arguments : list Token) (h : Host) : result (list Z) CommandOutput * Host :=
  match arguments with
  | Word verb :: rest =>
      if str_eqb verb (lit "allow") then
        match decode rest with Some rule => (answer [], mkHost (h.(entries) ++ [Ours rule]) h.(on)) | None => (answer [], h) end
      else if str_eqb verb (lit "delete") then
        match decode (tail rest) with Some rule => (answer [], mkHost (List.filter (fun x => negb (same rule x)) h.(entries)) h.(on)) | None => (answer [], h) end
      else if str_eqb verb (lit "show") then (answer (listing h.(entries)), h)
      else if str_eqb verb (lit "status") then (answer (if h.(on) then lit "Status: active" else lit "Status: inactive"), h)
      else if str_eqb verb (lit "--force") then (answer [], mkHost h.(entries) true)
      else (answer [], h)
  | _ => (answer [], h)
  end.

Definition other (command : list Z) (h : Host) : result (list Z) CommandOutput * Host :=
  if str_eqb command SSH_CONNECTION then (answer (lit "203.0.113.5 50000 203.0.113.9 22"), h)
  else if str_eqb command (lit "command -v ufw >/dev/null 2>&1 && echo yes || echo no") then (answer (lit "yes"), h) else (answer [], h).

Definition run (command : list Z) (h : Host) : result (list Z) CommandOutput * Host :=
  match tokens command with
  | Some (Word a :: Word b :: arguments) => if str_eqb a (lit "sudo") && str_eqb b (lit "ufw") then ufw arguments h else other command h
  | _ => other command h
  end.

#[global] Instance host_connection : Connection Host := {
  execute_command := run;
  write_file := fun _ _ h => (Ok tt, h);
  session_id := fun _ => 0%N;
}.

Lemma other_keeps command h : (other command h).2 = h.
Proof. unfold other. by repeat case_match. Qed.

Lemma map_word ws : map word (map Word ws) = ws.
Proof. induction ws; simpl; congruence. Qed.

Lemma decode_words rule suffix : rule_ok rule -> Forall (fun w => solid w = true) suffix -> decode (map Word (option_words rule ++ suffix)) = Some rule.
Proof.
  intros Hok Hs. unfold decode. rewrite map_word. rewrite <-(parse_words rule suffix Hok Hs). f_equal. f_equal. unfold rule_words, option_words.
  by destruct (fr_source_cidr rule).
Qed.

Lemma run_allow rule command h : rule_ok rule -> tokens command = Some (map Word (allow_words rule)) ->
  run command h = (answer [], mkHost (h.(entries) ++ [Ours rule]) h.(on)).
Proof.
  intros Hok Ht. unfold run, allow_words in *. rewrite Ht. cbn [map app str_eqb]. unfold ufw. rewrite (decode_words rule [lit "comment"; lit "vibessh"] Hok); [reflexivity|by repeat constructor].
Qed.

Lemma run_delete rule command h : rule_ok rule -> tokens command = Some (map Word (delete_words rule)) ->
  run command h = (answer [], mkHost (List.filter (fun x => negb (same rule x)) h.(entries)) h.(on)).
Proof.
  intros Hok Ht. unfold run, delete_words in *. rewrite Ht. cbn [map app tail]. unfold ufw. cbn [tail]. rewrite <-(app_nil_r (option_words rule)).
  by rewrite (decode_words rule [] Hok).
Qed.

(** A command that does not start with [sudo ufw]. *)
Lemma run_other a b rest command h : (str_eqb a (lit "sudo") && str_eqb b (lit "ufw")) = false ->
  (tokens command = cons (Word a) <$> (cons (Word b) <$> rest)) -> (run command h).2 = h.
Proof.
  intros Hab Ht. unfold run. rewrite Ht. destruct rest as [rest|]; cbn [fmap option_fmap option_map]; [rewrite Hab|]; apply other_keeps.
Qed.

Lemma quiet_run command h : Quiet command -> (run command h).2 = h.
Proof.
  intros Hq. destruct Hq.
  - apply other_keeps.
  - apply other_keeps.
  - apply (run_other (lit "sudo") HELPER_PATH (lex Bare None (join [32] (map quote arguments)))); [done|]. unfold helper_command, tokens.
    change (lit "sudo " ++ ?x) with (lit "sudo" ++ 32 :: x). rewrite lex_word by done. change (lit " " ++ ?x) with (32 :: x). by rewrite lex_quoted_word.
  - apply (run_other (lit "sudo") HELPER_PATH (lex Bare None (lit "'check' >/dev/null 2>&1 && echo yes || echo no"))); reflexivity.
  - apply (run_other (lit "cat") HELPER_PATH (lex Bare None (lit "2>/dev/null"))); reflexivity.
  - unfold run, tokens. match goal with |- context [lit "sudo install -D -o root -g root -m 0755 " ++ ?x] => change (lit "sudo install -D -o root -g root -m 0755 " ++ x) with (lit "sudo" ++ 32 :: lit "install" ++ 32 :: lit "-D -o root -g root -m 0755 " ++ x) end.
    rewrite !lex_word by done. match goal with |- context [lex Bare None ?x] => destruct (lex Bare None x) end; apply other_keeps.
Qed.

#[global, refine] Instance host_ufw : UfwHost Host := {
  added := entries;
  enforcing := on;
  session_port := fun _ => 22;
}.
Proof.
  - intros rule command n r n' Hok Ht E. change (run command n = (r, n')) in E. rewrite (run_allow rule) in E by done. simplify_eq. cbn [entries on]. set_solver.
  - intros rule command n r n' Hok Ht E _. change (run command n = (Ok r, n')) in E. rewrite (run_allow rule) in E by done. simplify_eq. cbn [entries on]. set_solver.
  - intros rule command n r n' Hok Ht E. change (run command n = (r, n')) in E. rewrite (run_delete rule) in E by done. simplify_eq. cbn [entries on].
    setoid_rewrite list_elem_of_In. setoid_rewrite filter_In. split_and!; [done|naive_solver|]. intros x Hx Hc. split; [done|].
    destruct x as [r0|]; cbn; [|done]. by rewrite bool_decide_false.
  - intros rule command n r n' Hok Ht E _. change (run command n = (Ok r, n')) in E. rewrite (run_delete rule) in E by done. simplify_eq. cbn [entries on].
    rewrite list_elem_of_In, filter_In. intros [_ Hx]. cbn in Hx. by rewrite bool_decide_true in Hx.
  - intros n r n' E. change ((answer (listing (entries n)), n) = (r, n')) in E. unfold answer in E. simplify_eq. split_and!; [done|done|]. by intros out [= <-].
  - intros n r n' E. change ((answer (if on n then lit "Status: active" else lit "Status: inactive"), n) = (r, n')) in E. unfold answer in E. simplify_eq.
    split_and!; [done|done|]. intros out [= <-]. by destruct (on n').
  - intros n r n' E. change ((answer [], mkHost (entries n) true) = (r, n')) in E. unfold answer in E. by simplify_eq.
  - intros command n r n' Hq E. change (run command n = (r, n')) in E. pose proof (quiet_run command n Hq) as Hn. rewrite E in Hn. cbn in Hn. by subst.
  - intros path bytes n r n' [= _ <-]. done.
  - done.
  - intros n out n' E. change ((answer (lit "203.0.113.5 50000 203.0.113.9 22"), n) = (Ok out, n')) in E. unfold answer in E. simplify_eq. right.
    exists (lit "203.0.113.5"), (lit "50000"), (lit "203.0.113.9"). split; [reflexivity|lia].
Defined.

Lemma readable : listing_readable (Node := Host).
Proof. intros n out n' E. change ((answer (listing (entries n)), n) = (Ok out, n')) in E. unfold answer in E. by simplify_eq. Qed.
End ToyHost.

(** ** Theorems *)

Section theorems.
Context {Node : Type} `{UfwHost Node}.
Context (HELPER_SCRIPT : list Z).


Lemma converges desired containers s result :
  Forall rule_ok desired -> Forall listed_ok (added s.(fw_node)) ->
  (reconcile_attempt HELPER_SCRIPT desired containers s).1 = Ok result ->
  let v := final (Node := Node) (reconcile_attempt HELPER_SCRIPT desired containers) s in
  (result.(sy_unenforced) = false -> v.(v_enforcing) = true) /\
  (is_Some result.(sy_backend) ->
     (forall rule, rule ∈ desired -> Ours rule ∈ v.(v_added)) /\
     (listing_readable (Node := Node) -> forall rule, Ours rule ∈ v.(v_added) <-> rule ∈ desired)).
Proof.
  intros Hd Hl Hr. pose proof (Has_start desired Hd (added (fw_node s)) (fw_node s) eq_refl Hl) as HH.
  destruct (reconcile_spec HELPER_SCRIPT desired containers Hd _ (setting (view (fw_node s))) s (conj HH eq_refl)) as (_ & _ & HT).
  rewrite Hr in HT. destruct HT as [Hu Hb]. split; [done|]. intros [b Hs]. destruct Hb as [Hb|[[_ Hall] Hor]]; [congruence|].
  split; [naive_solver|]. intros Hread rule. split; [|naive_solver]. intros Hin. destruct (Hor Hread rule Hin); set_solver.
Qed.

(** A sync that reports success through ufw has brought it in line: when
    the listing could be read, the desktop's own entries are the desired
    rules, no more and no fewer; and it reports enforcement only where ufw is
    enabled. *)
Theorem sync_converges desired containers s result :
  Forall rule_ok desired -> Forall listed_ok (added s.(fw_node)) ->
  (reconcile_attempt HELPER_SCRIPT desired containers s).1 = Ok result ->
  let v := final (Node := Node) (reconcile_attempt HELPER_SCRIPT desired containers) s in
  (result.(sy_unenforced) = false -> v.(v_enforcing) = true) /\
  (is_Some result.(sy_backend) ->
     (forall rule, rule ∈ desired -> Ours rule ∈ v.(v_added)) /\
     (listing_readable (Node := Node) -> forall rule, Ours rule ∈ v.(v_added) <-> rule ∈ desired)).
Proof. apply converges. Qed.

(** C10: Turning the firewall on cannot lock the desktop out: whatever fails or
    is lost on the way, if ufw is enabled afterwards then the port this very
    session arrived on is allowed from anywhere. *)
Theorem enabling_never_locks_out desired containers s :
  Forall rule_ok desired -> Forall listed_ok (added s.(fw_node)) -> enforcing s.(fw_node) = false ->
  let v := final (Node := Node) (enable_attempt HELPER_SCRIPT desired containers) s in
  v.(v_enforcing) = true -> Ours (mkRule v.(v_port) Tcp None) ∈ v.(v_added).
Proof.
  intros Hd Hl He. pose proof (Has_start desired Hd (added (fw_node s)) (fw_node s) eq_refl Hl) as HH.
  destruct (enable_attempt_spec HELPER_SCRIPT desired containers Hd _ s (conj HH He)) as (_ & HL & _). intros v Hon. by apply HL.
Qed.
End theorems.

(** A Node with the old SSH port and a foreign rule. *)
Definition sample_start : FwState ToyHost.Host :=
  mkFw (ToyHost.mkHost [Theirs (lit "ufw allow 80/tcp"); Ours (mkRule 22 Tcp None); Ours (mkRule 9000 Tcp None)] false) ∅ 0.
Definition sample_desired : list FirewallRule := [mkRule 22 Tcp None; mkRule 8080 Udp (Some (network_text 172818432 16))].

Lemma sample_desired_ok : Forall rule_ok sample_desired.
Proof. repeat constructor; simpl; try lia. exists 172818432, 16. split_and!; reflexivity || lia. Qed.

Lemma sample_start_ok : Forall listed_ok (added sample_start.(fw_node)).
Proof. repeat constructor; simpl; lia. Qed.


Lemma sync_converges_witness :
  exists res, fst (reconcile_attempt (Node := ToyHost.Host) [] sample_desired [] sample_start) = Ok res /\
  forall rule, Ours rule ∈ (final (reconcile_attempt [] sample_desired []) sample_start).(v_added) <-> rule ∈ sample_desired.
Proof.
  destruct (fst (reconcile_attempt (Node := ToyHost.Host) [] sample_desired [] sample_start)) as [res|] eqn:E; [|by vm_compute in E]. exists res. split; [done|].
  apply (sync_converges [] sample_desired [] sample_start res sample_desired_ok sample_start_ok E); [|exact ToyHost.readable].
  vm_compute in E. injection E as <-. by eexists.
Defined.

Lemma enabling_never_locks_out_witness :
  Ours (mkRule 22 Tcp None) ∈ (final (enable_attempt [] sample_desired []) sample_start).(v_added).
Proof. apply (enabling_never_locks_out [] sample_desired [] sample_start sample_desired_ok sample_start_ok); vm_compute; reflexivity. Defined.
