(* ===== verification/DesiredRules.v ===== *)
(** * DesiredRules: which rules a Node should have

    [desired_rules] and [desired_container_rules] of
    [services/firewall_service.rs]: the SSH port first, the mesh port of a
    member, the published ports, the custom rules whose source is canonical;
    nothing else, and nothing twice. *)

From S2P Require Import Prelude Text Shell Sandbox Validators Ufw Firewall FirewallSync.

#[local] Open Scope Z_scope.

(** ** Views *)

Lemma push_view_rules views view : forall rule, rule ∈ map fv_rule (push_view views view) <-> rule ∈ map fv_rule views \/ rule = view.(fv_rule).
Proof.
  intros rule. unfold push_view. destruct (existsb _ views) eqn:E.
  - split; [by left|]. intros [?| ->]; [done|]. apply existsb_elem_of in E as (v & Hv & <-%bool_decide_eq_true). by apply list_elem_of_fmap_2.
  - rewrite map_app. set_solver.
Qed.

Lemma push_view_nodup views view : NoDup (map fv_rule views) -> NoDup (map fv_rule (push_view views view)).
Proof.
  intros Hnd. unfold push_view. destruct (existsb _ views) eqn:E; [done|]. rewrite map_app. apply NoDup_app. split_and!; [done| |apply NoDup_singleton].
  intros rule Hr ->%list_elem_of_singleton. apply list_elem_of_fmap in Hr as (v & Heq & Hv). rewrite existsb_false_elem_of in E. specialize (E v Hv).
  by apply bool_decide_eq_false in E.
Qed.

(** The views only grow, and a view that is added has the origin it was added with. *)
Lemma push_view_incl views view v : v ∈ push_view views view -> v ∈ views \/ v = view.
Proof. unfold push_view. destruct (existsb _ views); set_solver. Qed.

Lemma push_view_old views view v : v ∈ views -> v ∈ push_view views view.
Proof. unfold push_view. destruct (existsb _ views); set_solver. Qed.

Definition is_custom (v : FirewallRuleView) : bool := match v.(fv_origin) with FromCustom _ _ => true | _ => false end.

(** A rule whose source, if it has one, is spelled canonically. *)
Definition canonical_rule (rule : FirewallRule) : bool :=
  match rule.(fr_source_cidr) with
  | None => true
  | Some source => match canonical_ipv4_source source (lit "the source") with Ok canonical => str_eqb canonical source | Err _ => false end
  end.

Lemma is_applied_spec v : is_applied v = negb (is_custom v) || canonical_rule v.(fv_rule).
Proof. unfold is_applied, is_custom, canonical_rule. by destruct (fv_origin v), (fr_source_cidr (fv_rule v)). Qed.

Lemma port_rule_canonical port external : canonical_rule (port_rule port external) = true.
Proof. unfold port_rule, canonical_rule. cbn. by destruct (ap_visibility port); vm_compute. Qed.

(** ** The invariant of the list under construction *)

Section views.
Context (ssh : FirewallRule).

(** The SSH rule leads, no rule twice, and only a custom view can have a source that is not canonical. *)
Record ViewsOk (views : list FirewallRuleView) : Prop := {
  vo_head : exists rest, views = mkView ssh Ssh :: rest;
  vo_nodup : NoDup (map fv_rule views);
  vo_canonical : forall v, v ∈ views -> is_custom v = false -> canonical_rule v.(fv_rule) = true;
}.

Lemma push_view_ok views view : ViewsOk views -> (is_custom view = false -> canonical_rule view.(fv_rule) = true) -> ViewsOk (push_view views view).
Proof.
  intros [[rest Hh] Hn Hc] Hv. split.
  - unfold push_view. destruct (existsb _ views); [eauto|]. rewrite Hh. by eexists.
  - by apply push_view_nodup.
  - intros v [Hin| ->]%push_view_incl; auto.
Qed.

Lemma port_views_spec application ports : forall views, ViewsOk views ->
  ViewsOk (port_views application views ports) /\
  forall rule, rule ∈ map fv_rule (port_views application views ports) <->
    rule ∈ map fv_rule views \/ exists port external, port ∈ ports /\ port.(ap_external_port) = Some external /\ rule = port_rule port external.
Proof.
  induction ports as [|port ports IH]; intros views Hok; cbn [port_views]; [set_solver|].
  destruct (ap_external_port port) as [external|] eqn:E.
  - set (view := mkView (port_rule port external) _). destruct (IH _ (push_view_ok views view Hok (fun _ => port_rule_canonical port external))) as [Hok' Hr].
    split; [exact Hok'|]. intros rule. rewrite Hr, push_view_rules.
    cbn [fv_rule view]. split.
    + intros [[?| ->]|(p & x & ? & ? & ?)]; [by left|right; exists port, external|right; exists p, x]; set_solver.
    + intros [?|(p & x & [-> |?]%elem_of_cons & Hx & ->)]; [by left; left| |by right; eauto]. left. right. congruence.
  - destruct (IH views Hok) as [Hok' Hr]. split; [done|]. intros rule. rewrite Hr. split.
    + intros [?|(p & x & ? & ? & ?)]; [by left|]. right. exists p, x. set_solver.
    + intros [?|(p & x & [-> |?]%elem_of_cons & Hx & ->)]; [by left|congruence|right; eauto].
Qed.

(** A rule published by one of the applications. *)
Definition published (repos : Repositories) (applications : list Application) (rule : FirewallRule) : Prop :=
  exists application ports port external, application ∈ applications /\ repos.(list_ports) application.(ap_id) = Ok ports /\
    port ∈ ports /\ port.(ap_external_port) = Some external /\ rule = port_rule port external.

Lemma application_views_spec repos applications : forall views views', ViewsOk views -> application_views repos views applications = Ok views' ->
  ViewsOk views' /\ forall rule, rule ∈ map fv_rule views' <-> rule ∈ map fv_rule views \/ published repos applications rule.
Proof.
  unfold published. induction applications as [|application applications IH]; intros views views' Hok Hv; cbn [application_views] in Hv.
  - injection Hv as ->. set_solver.
  - apply rbind_Ok in Hv as (ports & Hp & Hv). destruct (port_views_spec application ports views Hok) as [Hok1 Hr1]. destruct (IH _ _ Hok1 Hv) as [Hok2 Hr2].
    split; [done|]. intros rule. rewrite Hr2, Hr1. split.
    + intros [[?|(p & x & ? & ? & ?)]|(a & ps & p & x & ? & ? & ? & ? & ?)]; [by left| |]; right; [exists application, ports, p, x|exists a, ps, p, x]; set_solver.
    + intros [?|(a & ps & p & x & [-> |?]%elem_of_cons & Hps & ? & ? & ?)]; [by left; left| |right; naive_solver]. left. right. exists p, x.
      rewrite Hps in Hp. by simplify_eq.
Qed.

Lemma custom_views_spec customs : forall views, ViewsOk views ->
  ViewsOk (custom_views views customs) /\
  (forall v, v ∈ views -> v ∈ custom_views views customs) /\
  (forall v, v ∈ custom_views views customs -> v ∈ views \/ is_custom v = true) /\
  forall rule, rule ∈ map fv_rule (custom_views views customs) <-> rule ∈ map fv_rule views \/ exists custom, custom ∈ customs /\ rule = custom_rule custom.
Proof.
  unfold custom_views. induction customs as [|custom customs IH]; intros views Hok; cbn [foldl]; [set_solver|].
  set (view := mkView (custom_rule custom) _). destruct (IH _ (push_view_ok views view Hok ltac:(done))) as (H1 & H2 & H3 & H4).
  split; [exact H1|]. split_and!.
  - intros v Hv. by apply H2, push_view_old.
  - intros v Hv. destruct (H3 v Hv) as [[?| ->]%push_view_incl|?]; auto.
  - intros rule. rewrite H4, push_view_rules. cbn [fv_rule]. set_solver.
Qed.

(** What the filter keeps of a list that is well formed. *)
Lemma applied_rules views rule : ViewsOk views ->
  rule ∈ map fv_rule (List.filter is_applied views) <-> rule ∈ map fv_rule views /\ canonical_rule rule = true.
Proof.
  intros Hok. rewrite !list_elem_of_fmap. setoid_rewrite list_elem_of_In. setoid_rewrite filter_In. setoid_rewrite is_applied_spec. split.
  - intros (v & -> & Hv & Ha). split; [eauto|]. destruct (is_custom v) eqn:E; [done|]. apply Hok; [by apply list_elem_of_In|done].
  - intros [(v & -> & Hv) Hc]. exists v. rewrite Hc, orb_true_r. auto.
Qed.
End views.

(** ** What is desired *)

Lemma desired_rules_spec repos rules :
  desired_rules repos = Ok rules ->
  exists ssh_port membership applications customs,
    repos.(server_ssh_port) = Ok (Some ssh_port) /\ repos.(network_get) = Ok membership /\ repos.(list_by_server) = Ok applications /\ repos.(custom_list) = Ok customs /\
    head rules = Some (mkRule ssh_port Tcp None) /\ NoDup rules /\
    forall rule, rule ∈ rules <->
      rule = mkRule ssh_port Tcp None \/
      is_Some membership /\ rule = mkRule LISTEN_PORT Udp None \/
      published repos applications rule \/
      exists custom, custom ∈ customs /\ rule = custom_rule custom /\ canonical_rule rule = true.
Proof.
  unfold desired_rules, desired_rules_with_origin. intros (views & Hv & [= <-])%rbind_Ok.
  apply rbind_Ok in Hv as (server & Hs & Hv). apply rbind_Ok in Hv as (ssh_port & Ho & Hv). destruct server as [p|]; [|done]. injection Ho as ->.
  apply rbind_Ok in Hv as (membership & Hm & Hv). apply rbind_Ok in Hv as (applications & Ha & Hv). apply rbind_Ok in Hv as (views1 & Hv1 & Hv).
  apply rbind_Ok in Hv as (customs & Hc & [= <-]). exists ssh_port, membership, applications, customs.
  set (ssh := mkRule ssh_port Tcp None) in *. set (views0 := match membership with Some _ => _ | None => _ end) in *.
  assert (Hok0 : ViewsOk ssh views0 /\ forall rule, rule ∈ map fv_rule views0 <-> rule = ssh \/ is_Some membership /\ rule = mkRule LISTEN_PORT Udp None).
  { unfold views0. destruct membership; cbn; split.
    - split; [by eexists|cbn; repeat constructor; set_solver|]. intros v. rewrite !elem_of_cons, elem_of_nil. by intros [->|[->|[]]] _.
    - intros rule. rewrite !elem_of_cons, elem_of_nil. naive_solver.
    - split; [by eexists|cbn; apply NoDup_singleton|]. intros v. rewrite !elem_of_cons, elem_of_nil. by intros [->|[]] _.
    - intros rule. rewrite elem_of_cons, elem_of_nil. split; [naive_solver|]. intros [?|[[x Hx] _]]; [by left|done]. }
  destruct Hok0 as [Hok0 Hr0]. destruct (application_views_spec ssh repos applications _ _ Hok0 Hv1) as [Hok1 Hr1].
  destruct (custom_views_spec ssh customs _ Hok1) as (Hok2 & Hold & Hnew & Hr2). split_and!; try done.
  - destruct Hok2 as [[rest ->] _ _]. done.
  - destruct Hok2 as [_ Hn _]. revert Hn. generalize (custom_views views1 customs). clear. intros l. induction l as [|v l IH]; cbn; [done|].
    intros [Hv Hl]%NoDup_cons. destruct (is_applied v); [|auto]. cbn. apply NoDup_cons. split; [|auto]. contradict Hv.
    apply list_elem_of_fmap in Hv as (w & Hw & Hin). apply list_elem_of_fmap. exists w. split; [done|]. apply list_elem_of_In, filter_In in Hin as [Hin _].
    by apply list_elem_of_In.
  - intros rule. rewrite (applied_rules ssh), Hr2, Hr1, Hr0 by done. split; [naive_solver|].
    intros [->|[[Hm' ->]|[Hp|Hcu]]]; [by split; [auto|]|by split; [auto|]| |naive_solver]. split; [auto|].
    destruct Hp as (? & ? & port & external & _ & _ & _ & _ & ->). apply port_rule_canonical.
Qed.

(** What the repositories store is in range, and no custom source is 0.0.0.0/0. *)
Record StoredOk (repos : Repositories) : Prop := {
  so_ssh : forall port, repos.(server_ssh_port) = Ok (Some port) -> 0 <= port <= 65535;
  so_ports : forall id ports port external, repos.(list_ports) id = Ok ports -> port ∈ ports -> port.(ap_external_port) = Some external -> 0 <= external <= 65535;
  so_customs : forall customs custom, repos.(custom_list) = Ok customs -> custom ∈ customs -> 0 <= custom.(fc_port) <= 65535 /\ custom.(fc_source_cidr) <> Some (lit "0.0.0.0/0");
}.

Lemma canonical_rule_ok rule : 0 <= rule.(fr_port) <= 65535 -> rule.(fr_source_cidr) <> Some (lit "0.0.0.0/0") -> canonical_rule rule = true -> rule_ok rule.
Proof.
  intros Hp Hz Hc. split; [done|]. unfold canonical_rule in Hc. destruct (fr_source_cidr rule) as [source|]; [|done].
  destruct (canonical_ipv4_source source _) as [s|] eqn:E; [|done]. apply bool_decide_eq_true in Hc as ->.
  destruct (canonical_sound _ _ _ E) as (a & bits & _ & Ha & Hb & Hm & ->). exists a, bits.
  destruct (decide (bits = 0)) as [->|]; [|split_and!; done || lia]. exfalso. apply Hz. rewrite Z.sub_0_r, Z.mod_small in Hm by lia. by rewrite Hm.
Qed.

(** Everything desired is a rule ufw keeps as it is given. *)
Lemma desired_rules_ok repos rules : StoredOk repos -> desired_rules repos = Ok rules -> Forall rule_ok rules.
Proof.
  intros [S1 S2 S3] Hd. destruct (desired_rules_spec _ _ Hd) as (ssh & mem & apps & customs & Hs & _ & _ & Hc & _ & _ & Hr). apply Forall_forall.
  intros rule [->|[[_ ->]|[(a & ps & p & x & _ & Hps & Hp & Hx & ->)|(c & Hin & -> & Hcan)]]]%Hr.
  - split; [by apply S1|done].
  - split; [unfold LISTEN_PORT; cbn; lia|done].
  - apply canonical_rule_ok; [by eapply S2| |apply port_rule_canonical]. unfold port_rule. cbn. by destruct (ap_visibility p).
  - destruct (S3 _ _ Hc Hin). by apply canonical_rule_ok.
Qed.

(** ** Theorems *)

(** The desired rules of a Node are exactly: its SSH port, which comes
    first so that it is the first rule applied; the mesh port if the Node is a
    member; one rule per published port of its applications, open to the mesh
    only where the port is; and the custom rules whose source is an IPv4
    address or network in canonical spelling.  No rule comes twice. *)
Theorem desired_rules_are_exact repos rules :
  desired_rules repos = Ok rules ->
  exists ssh_port membership applications customs,
    repos.(server_ssh_port) = Ok (Some ssh_port) /\ repos.(network_get) = Ok membership /\ repos.(list_by_server) = Ok applications /\ repos.(custom_list) = Ok customs /\
    head rules = Some (mkRule ssh_port Tcp None) /\ NoDup rules /\
    forall rule, rule ∈ rules <->
      rule = mkRule ssh_port Tcp None \/
      is_Some membership /\ rule = mkRule LISTEN_PORT Udp None \/
      published repos applications rule \/
      exists custom, custom ∈ customs /\ rule = custom_rule custom /\ canonical_rule rule = true.
Proof. apply desired_rules_spec. Qed.

(** A member of the mesh with one published port and two custom rules, one of them stored before sources were checked. *)
Definition sample_repositories : Repositories := mkRepositories
  (Ok (Some 2222)) (Ok (Some tt)) (Ok [mkApplication 1 (lit "web")])
  (fun _ => Ok [mkPort (lit "http") Tcp 80 (Some 8080) VibeNetwork; mkPort (lit "admin") Tcp 9000 None Localhost])
  (Ok [mkCustom 7 None Tcp 443 None; mkCustom 8 None Tcp 444 (Some (lit "10.0.0.1/8; reboot"))]).

Example sample_desired_rules : desired_rules sample_repositories =
  Ok [mkRule 2222 Tcp None; mkRule 54221 Udp None; mkRule 8080 Tcp (Some MESH_CIDR); mkRule 443 Tcp None].
Proof. vm_compute. reflexivity. Qed.

Lemma desired_rules_are_exact_witness : exists rules, desired_rules sample_repositories = Ok rules /\ head rules = Some (mkRule 2222 Tcp None) /\ NoDup rules.
Proof.
  eexists. split; [exact sample_desired_rules|].
  destruct (desired_rules_are_exact _ _ sample_desired_rules) as (ssh & _ & _ & _ & Hs & _ & _ & _ & Hh & Hn & _). split; [|exact Hn]. injection Hs as <-. exact Hh.
Defined.

(** The ports the records of a Node call for. *)
Definition called_for repos (ssh_port : Z) (membership : option unit) (applications : list Application) (customs : list FirewallCustomRule) (rule : FirewallRule) : Prop :=
  rule = mkRule ssh_port Tcp None \/
  is_Some membership /\ rule = mkRule LISTEN_PORT Udp None \/
  published repos applications rule \/
  exists custom, custom ∈ customs /\ rule = custom_rule custom /\ canonical_rule rule = true.

(** C16: A sync that reports success through ufw leaves every port open that the
    records of the Node call for - the SSH port, the mesh port of a member, the
    published ports and the valid custom rules - and, when ufw could list what
    was added, no other entry of the desktop's, whatever its entries were before.
    (The exit status of the listing is not looked at: where it fails, what is
    obsolete stays and the sync reports success all the same.)  The ports of the
    records are port numbers, and no custom rule has the source 0.0.0.0/0, which
    ufw does not print back. *)
Theorem synced_node_matches_its_records {Node} `{UfwHost Node} HELPER_SCRIPT repos rules containers s result :
  StoredOk repos -> desired_rules repos = Ok rules -> Forall listed_ok (added s.(fw_node)) ->
  (reconcile_attempt HELPER_SCRIPT rules containers s).1 = Ok result -> is_Some result.(sy_backend) ->
  exists ssh_port membership applications customs,
    repos.(server_ssh_port) = Ok (Some ssh_port) /\ repos.(network_get) = Ok membership /\ repos.(list_by_server) = Ok applications /\ repos.(custom_list) = Ok customs /\
    let entries := (final (Node := Node) (reconcile_attempt HELPER_SCRIPT rules containers) s).(v_added) in
    (forall rule, called_for repos ssh_port membership applications customs rule -> Ours rule ∈ entries) /\
    (listing_readable (Node := Node) -> forall rule, Ours rule ∈ entries -> called_for repos ssh_port membership applications customs rule).
Proof.
  intros Hst Hd Hl Hr Hb. destruct (desired_rules_spec _ _ Hd) as (ssh & mem & apps & customs & Hs & Hm & Ha & Hc & _ & _ & Hiff).
  exists ssh, mem, apps, customs. destruct (converges HELPER_SCRIPT rules containers s result (desired_rules_ok _ _ Hst Hd) Hl Hr) as [_ Hin]. destruct (Hin Hb) as [Hall Honly].
  do 4 (split; [done|]). cbv zeta. unfold called_for. split.
  - intros rule Hrule. by apply Hall, Hiff.
  - intros Hread rule Hrule. by apply Hiff, (Honly Hread).
Qed.

Lemma synced_node_matches_its_records_witness :
  Ours (mkRule 443 Tcp None) ∈ (final (reconcile_attempt [] [mkRule 2222 Tcp None; mkRule 54221 Udp None; mkRule 8080 Tcp (Some MESH_CIDR); mkRule 443 Tcp None] []) sample_start).(v_added).
Proof.
  set (rules := [mkRule 2222 Tcp None; _; _; _]).
  destruct (fst (reconcile_attempt (Node := ToyHost.Host) [] rules [] sample_start)) as [res|] eqn:E; [|by vm_compute in E].
  assert (Hb : is_Some res.(sy_backend)) by (vm_compute in E; injection E as <-; by eexists).
  assert (Hst : StoredOk sample_repositories).
  { split; cbn; [intros ? [= <-]; lia| |].
    - intros _ ports port external [= <-]. rewrite !elem_of_cons, elem_of_nil. intros [->|[->|[]]]; cbn; intros [= <-]; lia.
    - intros customs custom [= <-]. rewrite !elem_of_cons, elem_of_nil. intros [->|[->|[]]]; (split; [cbn; lia|by cbn]). }
  destruct (synced_node_matches_its_records [] sample_repositories rules [] sample_start res Hst sample_desired_rules sample_start_ok E Hb)
    as (ssh & mem & apps & customs & _ & _ & _ & Hc & Hall & _).
  apply Hall. right. right. right. injection Hc as <-. exists (mkCustom 7 None Tcp 443 None). split; [by apply elem_of_cons; left|split; vm_compute; reflexivity].
Defined.
