(* ===== verification/Sudoers.v ===== *)
(** * Sudoers: what a member's account may run as root

    [apps/desktop/src-tauri/src/member_sudoers.rs]: permissions turned into
    sudo rules, for a role ([privilege_for]) and for one shared application
    ([application_rules]); and [username] of [dedicated_user.rs].

    sudo is not part of the repository.  [permits] is its matching as
    sudoers(5) has it for the patterns written here: the command is compared
    by its path, the arguments, joined by single spaces, with the rule's
    arguments, in which [*] stands for any characters, blanks included, and
    [?] for one; a rule without arguments permits any. *)

From S2P Require Import Prelude Text Shell Sandbox Validators Ufw Firewall.

#[local] Open Scope Z_scope.

(** ** Matching *)

(** [p] holds of some suffix. *)
Fixpoint star (p : list Z -> bool) (s : list Z) : bool := p s || match s with [] => false | _ :: s => star p s end.

Fixpoint glob (pattern s : list Z) : bool :=
  match pattern with
  | [] => is_empty s
  | c :: pattern =>
      if c =? 42 then star (glob pattern) s
      else match s with
           | [] => false
           | x :: s => ((c =? 63) || (x =? c)) && glob pattern s
           end
  end.

Example glob_sample : glob (lit "logs * app-1") (lit "logs --tail 200 app-1") = true /\ glob (lit "stop app-*") (lit "start app-1") = false.
Proof. split; reflexivity. Qed.

(** ** Rules *)

Record AllowedCommand : Type := mkCommand { ac_binary : list Z; ac_arguments : list Z }.
#[global] Instance AllowedCommand_eq_dec : EqDecision AllowedCommand.
Proof. solve_decision. Defined.

Definition permits (binary : list Z) (argv : list (list Z)) (rule : AllowedCommand) : bool :=
  str_eqb binary rule.(ac_binary) && (is_empty rule.(ac_arguments) || glob rule.(ac_arguments) (join [32] argv)).

Inductive Privilege : Type :=
| NoPrivilege
| Commands (commands : list AllowedCommand)
| Root (reason : list Z).

Definition ROOT_EQUIVALENT : list (list Z) :=
  [lit "node.terminal"; lit "node.software"; lit "node.services"; lit "node.network"; lit "applications.create";
   lit "applications.delete"; lit "applications.config"; lit "applications.databases"; lit "applications.backups"].

Definition CONSOLE_WRITER_PATH : list Z := lit "/usr/local/lib/vibessh/console-write".
Definition FILE_HELPER_PATH : list Z := lit "/usr/local/lib/vibessh/file-helper.sh".
Definition READ_ONLY_FILE_OPERATIONS : list (list Z) :=
  [lit "realpath"; lit "list"; lit "stat"; lit "read"; lit "readrange"; lit "readsmall"].

Definition command (binary arguments : list Z) : AllowedCommand := mkCommand binary arguments.

(** [Ord] of strings: by their bytes, which is by their characters. *)
Fixpoint str_ltb (a b : list Z) : bool :=
  match a, b with
  | _, [] => false
  | [], _ :: _ => true
  | x :: a, y :: b => (x <? y) || (x =? y) && str_ltb a b
  end.

(** The derived [Ord] of [AllowedCommand]. *)
Definition command_ltb (a b : AllowedCommand) : bool :=
  str_ltb a.(ac_binary) b.(ac_binary) || str_eqb a.(ac_binary) b.(ac_binary) && str_ltb a.(ac_arguments) b.(ac_arguments).

(** [BTreeSet::insert] on the elements in order. *)
Fixpoint btree_insert (c : AllowedCommand) (set : list AllowedCommand) : list AllowedCommand :=
  match set with
  | [] => [c]
  | x :: set => if bool_decide (c = x) then x :: set else if command_ltb c x then c :: x :: set else x :: btree_insert c set
  end.
Definition btree_extend (set commands : list AllowedCommand) : list AllowedCommand := foldl (fun set c => btree_insert c set) set commands.

(** [held.contains(key)]. *)
Definition holds (permissions : list (list Z)) (key : string) : bool := existsb (str_eqb (lit key)) permissions.

Definition view_commands : list AllowedCommand :=
  [command (lit "docker") (lit "ps"); command (lit "docker") (lit "ps *"); command (lit "docker") (lit "inspect vibessh-app-*");
   command (lit "docker") (lit "logs vibessh-app-*"); command (lit "docker") (lit "logs * vibessh-app-*");
   command (lit "systemctl") (lit "status --no-pager vibessh-app-*")].

Definition lifecycle_commands : list AllowedCommand :=
  map (fun verb => command (lit "docker") (verb ++ lit " vibessh-app-*")) [lit "start"; lit "stop"; lit "restart"; lit "kill"] ++
  map (fun verb => command (lit "systemctl") (verb ++ lit " vibessh-app-*")) [lit "start"; lit "stop"; lit "restart"].

Definition firewall_commands : list AllowedCommand :=
  map (command (lit "ufw")) [lit "status"; lit "show added"; lit "--force enable"; lit "allow *"; lit "delete allow *"] ++ [command HELPER_PATH (lit "*")].

(** The set after the four [if]s. *)
Definition narrow_commands (view lifecycle console firewall : bool) : list AllowedCommand :=
  let commands := [] in
  let commands := if view then btree_extend commands view_commands else commands in
  let commands := if lifecycle then btree_extend commands lifecycle_commands else commands in
  let commands := if console then btree_insert (command CONSOLE_WRITER_PATH (lit "*")) commands else commands in
  if firewall then btree_extend commands firewall_commands else commands.

Definition privilege_for (permissions : list (list Z)) : Privilege :=
  match find_first (fun key => existsb (str_eqb key) permissions) ROOT_EQUIVALENT with
  | Some reason => Root reason
  | None =>
      match narrow_commands (holds permissions "applications.view") (holds permissions "applications.lifecycle")
              (holds permissions "applications.console") (holds permissions "node.firewall") with
      | [] => NoPrivilege
      | commands => Commands commands
      end
  end.

(** ** One shared application *)

Inductive GrantRuntime : Type := Docker | Systemd.

Definition from_projection (name : list Z) : option GrantRuntime :=
  if str_eqb name (lit "docker") then Some Docker else if str_eqb name (lit "systemd") then Some Systemd else None.

Record ApplicationGrant : Type := mkGrant { ag_application_id : N; ag_runtime : GrantRuntime; ag_working_directory : list Z; ag_permissions : list (list Z) }.

Record FileRule : Type := mkFileRule { fl_application_id : N; fl_account : list Z; fl_root : list Z; fl_write : bool }.

Inductive SkipReason : Type := FolderUnnameable | NoConsole | NothingToName | NoOwnAccount.
Record SkippedGrant : Type := mkSkipped { sg_application_id : N; sg_reason : SkipReason }.

Record ApplicationRules : Type := mkRules { ar_commands : list AllowedCommand; ar_console : option N; ar_files : option FileRule; ar_skipped : list SkippedGrant }.

(** [FileRule::commands]: the list as written into the file. *)
Definition file_commands (rule : FileRule) : list Z :=
  if rule.(fl_write) then FILE_HELPER_PATH ++ lit " " ++ rule.(fl_root) ++ lit " *"
  else join (lit ", ") (READ_ONLY_FILE_OPERATIONS ≫= fun op =>
    [FILE_HELPER_PATH ++ lit " " ++ rule.(fl_root) ++ lit " " ++ op; FILE_HELPER_PATH ++ lit " " ++ rule.(fl_root) ++ lit " " ++ op ++ lit " *"]).

Definition is_directory_char (c : Z) : bool := is_ascii_alphanumeric c || (c =? 47) || (c =? 46) || (c =? 95) || (c =? 45).

Definition rule_safe_directory (directory : list Z) : option (list Z) :=
  let trimmed := trim_end_matches (Z.eqb 47) directory in
  if starts_with_char 47 trimmed && (1 <? byte_len trimmed) && negb (existsb (fun part => str_eqb part DOTDOT) (split_on (Z.eqb 47) trimmed))
     && forallb is_directory_char trimmed
  then Some trimmed else None.

(** [dedicated_user::username]. *)
Definition username (application_id : N) : list Z := lit "vibessh-app-" ++ take 12 (uuid_simple application_id).

Definition application_rules (grant : ApplicationGrant) : ApplicationRules :=
  let id := grant.(ag_application_id) in
  let held := holds grant.(ag_permissions) in
  let rules :=
    match grant.(ag_runtime) with
    | Docker =>
        let name := lit "vibessh-app-" ++ uuid_text id in
        mkRules
          ([command (lit "docker") (lit "inspect " ++ name); command (lit "docker") (lit "logs " ++ name); command (lit "docker") (lit "logs * " ++ name)]
           ++ (if held "applications.lifecycle" then map (fun verb => command (lit "docker") (verb ++ lit " " ++ name)) [lit "start"; lit "stop"; lit "restart"; lit "kill"] else []))
          (if held "applications.console" then Some id else None) None []
    | Systemd =>
        let unit := lit "vibessh-app-" ++ uuid_text id ++ lit ".service" in
        mkRules
          ([command (lit "systemctl") (lit "status --no-pager " ++ unit)]
           ++ (if held "applications.lifecycle" then map (fun verb => command (lit "systemctl") (verb ++ lit " " ++ unit)) [lit "start"; lit "stop"; lit "restart"] else []))
          None None (if held "applications.console" then [mkSkipped id NoConsole] else [])
    end in
  let write := held "applications.files.write" in
  if write || held "applications.files.read" then
    match rule_safe_directory grant.(ag_working_directory) with
    | Some root => mkRules rules.(ar_commands) rules.(ar_console) (Some (mkFileRule id (username id) root write)) rules.(ar_skipped)
    | None => mkRules rules.(ar_commands) rules.(ar_console) None (rules.(ar_skipped) ++ [mkSkipped id FolderUnnameable])
    end
  else rules.

Definition may_use_the_file_helper (permissions : list (list Z)) : bool :=
  existsb (fun key => str_eqb key (lit "applications.files.read") || str_eqb key (lit "applications.files.write")) permissions.

(** ** Facts about matching *)

(** No character with a meaning of its own in a pattern. *)
Definition literal (s : list Z) : bool := forallb (fun c => negb ((c =? 42) || (c =? 63) || (c =? 91) || (c =? 92))) s.

Lemma glob_literal p q : forall s, literal p = true -> glob (p ++ q) s = true <-> exists rest, s = p ++ rest /\ glob q rest = true.
Proof.
  induction p as [|c p IH]; intros s Hl; cbn [app]; [naive_solver|].
  unfold literal in Hl. cbn [forallb] in Hl. apply andb_true_iff in Hl as [Hc Hl]. rewrite negb_true_iff, !orb_false_iff in Hc. destruct Hc as [[[Hc1 Hc2] _] _].
  cbn [glob]. rewrite Hc1, Hc2. cbn [orb]. destruct s as [|x s].
  - split; [done|]. by intros (rest & ? & _).
  - rewrite andb_true_iff, Z.eqb_eq, IH by done. split.
    + intros (-> & rest & -> & Hq). by exists rest.
    + intros (rest & [= -> ->] & Hq). eauto.
Qed.

Lemma glob_exact p s : literal p = true -> glob p s = true <-> s = p.
Proof.
  intros Hl. rewrite <-(app_nil_r p) at 1. rewrite glob_literal by done. split.
  - intros (rest & -> & Hr). destruct rest; [by rewrite app_nil_r|done].
  - intros ->. exists []. by rewrite app_nil_r.
Qed.

Lemma glob_star q s : glob (42 :: q) s = true <-> exists a b, s = a ++ b /\ glob q b = true.
Proof.
  cbn [glob]. change (42 =? 42) with true. cbv iota. induction s as [|x s IH]; cbn [star].
  - rewrite orb_false_r. split; [by exists [], []|]. intros (a & b & Hab & Hq). by apply symmetry, app_eq_nil in Hab as [-> ->].
  - rewrite orb_true_iff, IH. split.
    + intros [Hq|(a & b & -> & Hq)]; [by exists [], (x :: s)|by exists (x :: a), b].
    + intros ([|y a] & b & Hab & Hq); [left; by cbn in Hab; subst|]. injection Hab as -> ->. right. eauto.
Qed.

(** The text up to the first blank. *)
Definition first_word (s : list Z) : list Z := match split_once 32 s with Some (word, _) => word | None => s end.

Lemma first_word_app word rest : contains_char 32 word = false -> first_word (word ++ 32 :: rest) = word.
Proof. intros Hw. unfold first_word. by rewrite split_once_app. Qed.

Lemma first_word_self word : contains_char 32 word = false -> first_word word = word.
Proof. intros Hw. unfold first_word. by rewrite split_once_none. Qed.

(** A pattern that is one literal word, or starts with one. *)
Definition starts_literal (pattern : list Z) : bool :=
  match split_once 32 pattern with Some (word, _) => literal word | None => literal pattern end.

Lemma glob_first_word pattern s : starts_literal pattern = true -> glob pattern s = true -> first_word s = first_word pattern.
Proof.
  unfold starts_literal. destruct (split_once 32 pattern) as [[word rest]|] eqn:E; intros Hl Hg.
  - pose proof (split_once_spec _ _ _ _ E) as [-> Hw].
    change (word ++ 32 :: rest) with (word ++ [32] ++ rest) in Hg. rewrite app_assoc in Hg. apply glob_literal in Hg as (tl & -> & _).
    + rewrite <-app_assoc. cbn [app]. by rewrite !first_word_app.
    + unfold literal in *. by rewrite forallb_app, Hl.
  - by apply glob_exact in Hg as ->.
Qed.

(** ** What a role permits *)

Definition one_of (words : list (list Z)) (s : list Z) : bool := existsb (str_eqb s) words.

(** What each permission can add, as a test on the rule. *)
Definition rule_shape (view lifecycle console firewall : bool) (rule : AllowedCommand) : bool :=
  let verb := first_word rule.(ac_arguments) in
  negb (is_empty rule.(ac_arguments)) &&
  (str_eqb rule.(ac_binary) (lit "docker") && starts_literal rule.(ac_arguments)
     && (view && one_of [lit "ps"; lit "inspect"; lit "logs"] verb || lifecycle && one_of [lit "start"; lit "stop"; lit "restart"; lit "kill"] verb)
   || str_eqb rule.(ac_binary) (lit "systemctl") && starts_literal rule.(ac_arguments)
     && (view && one_of [lit "status"] verb || lifecycle && one_of [lit "start"; lit "stop"; lit "restart"] verb)
   || str_eqb rule.(ac_binary) CONSOLE_WRITER_PATH && console
   || str_eqb rule.(ac_binary) (lit "ufw") && starts_literal rule.(ac_arguments) && firewall && one_of [lit "status"; lit "show"; lit "--force"; lit "allow"; lit "delete"] verb
   || str_eqb rule.(ac_binary) HELPER_PATH && firewall).

Lemma narrow_commands_shape view lifecycle console firewall :
  forallb (rule_shape view lifecycle console firewall) (narrow_commands view lifecycle console firewall) = true.
Proof. destruct view, lifecycle, console, firewall; vm_compute; reflexivity. Qed.

(** What the command line says to the program it runs, given the permissions held. *)
Definition within_role (view lifecycle console firewall : bool) (binary : list Z) (argv : list (list Z)) : Prop :=
  let verb := first_word (join [32] argv) in
  binary = lit "docker" /\ (view = true /\ one_of [lit "ps"; lit "inspect"; lit "logs"] verb = true \/
                           lifecycle = true /\ one_of [lit "start"; lit "stop"; lit "restart"; lit "kill"] verb = true) \/
  binary = lit "systemctl" /\ (view = true /\ one_of [lit "status"] verb = true \/ lifecycle = true /\ one_of [lit "start"; lit "stop"; lit "restart"] verb = true) \/
  binary = CONSOLE_WRITER_PATH /\ console = true \/
  binary = lit "ufw" /\ firewall = true /\ one_of [lit "status"; lit "show"; lit "--force"; lit "allow"; lit "delete"] verb = true \/
  binary = HELPER_PATH /\ firewall = true.

Lemma shape_within view lifecycle console firewall binary argv rule :
  rule_shape view lifecycle console firewall rule = true -> permits binary argv rule = true -> within_role view lifecycle console firewall binary argv.
Proof.
  unfold rule_shape, permits, within_role. intros [Hne Hs]%andb_true_iff [Hb Hg]%andb_true_iff. apply bool_decide_eq_true in Hb as ->.
  apply negb_true_iff in Hne. rewrite Hne in Hg. cbn [orb] in Hg.
  rewrite !orb_true_iff, !andb_true_iff, !orb_true_iff, !andb_true_iff in Hs. unfold str_eqb in Hs. rewrite !bool_decide_eq_true in Hs.
  assert (Hv : starts_literal (ac_arguments rule) = true -> first_word (join [32] argv) = first_word (ac_arguments rule)) by (intros Hl; by apply glob_first_word).
  destruct Hs as [[[[[[Hb Hl] Hs]|[[Hb Hl] Hs]]|[Hb Hs]]|[[[Hb Hl] Hf] Hs]]|[Hb Hs]]; try rewrite (Hv Hl); tauto.
Qed.

Lemma holds_spec permissions key : holds permissions key = true <-> lit key ∈ permissions.
Proof.
  unfold holds. rewrite existsb_elem_of. split.
  - by intros (x & Hx & ->%bool_decide_eq_true).
  - intros Hk. exists (lit key). split; [done|]. by apply bool_decide_eq_true.
Qed.

(** A role's sudo rules are as narrow as its permissions: everything is
    permitted only to holders of a permission that is as good as root; without
    one, sudo runs docker, systemctl, ufw and the two helpers only, each only
    with the verbs of a permission that is held, none of which makes a container
    or runs a program in one; and a role with none of these permissions gets
    no rule at all. *)
Theorem role_rules_are_narrow permissions :
  match privilege_for permissions with
  | Root reason => reason ∈ ROOT_EQUIVALENT /\ reason ∈ permissions
  | Commands commands =>
      (forall key, key ∈ ROOT_EQUIVALENT -> key ∉ permissions) /\
      forall binary argv, existsb (permits binary argv) commands = true ->
        within_role (holds permissions "applications.view") (holds permissions "applications.lifecycle")
          (holds permissions "applications.console") (holds permissions "node.firewall") binary argv
  | NoPrivilege =>
      (forall key, key ∈ ROOT_EQUIVALENT -> key ∉ permissions) /\
      lit "applications.view" ∉ permissions /\ lit "applications.lifecycle" ∉ permissions /\
      lit "applications.console" ∉ permissions /\ lit "node.firewall" ∉ permissions
  end.
Proof.
  unfold privilege_for. destruct (find_first _ ROOT_EQUIVALENT) as [reason|] eqn:E.
  - apply find_first_Some in E as [Hr Hp]. split; [done|]. by apply existsb_elem_of in Hp as (x & Hx & ->%bool_decide_eq_true).
  - assert (Hno : forall key, key ∈ ROOT_EQUIVALENT -> key ∉ permissions).
    { intros key Hk Hin. pose proof (proj1 (find_first_None _ _) E key Hk) as Hf. cbn beta in Hf. rewrite existsb_false_elem_of in Hf. specialize (Hf key Hin).
      by apply bool_decide_eq_false in Hf. }
    pose proof (narrow_commands_shape (holds permissions "applications.view") (holds permissions "applications.lifecycle")
      (holds permissions "applications.console") (holds permissions "node.firewall")) as Hshape.
    destruct (narrow_commands _ _ _ _) as [|c cs] eqn:En.
    + split; [done|]. rewrite <-!holds_spec, !not_true_iff_false. revert En.
      destruct (holds permissions "applications.view"), (holds permissions "applications.lifecycle"), (holds permissions "applications.console"), (holds permissions "node.firewall");
        intros En; by vm_compute in En.
    + split; [done|]. intros binary argv (rule & Hin & Hp)%existsb_elem_of. eapply shape_within; [|exact Hp]. by apply (proj1 (forallb_elem_of _ _) Hshape).
Qed.

(** The wildcard of a role's rules is not confined to the application's own
    containers and units: a blank is matched too, so a second name can follow
    the first, and a holder of the lifecycle permission may stop any container
    and any unit of the Node. *)
Theorem role_wildcards_reach_other_units other :
  match privilege_for [lit "applications.lifecycle"] with
  | Commands commands =>
      existsb (permits (lit "docker") [lit "stop"; lit "vibessh-app-x"; other]) commands = true /\
      existsb (permits (lit "systemctl") [lit "stop"; lit "vibessh-app-x"; other]) commands = true
  | _ => False
  end.
Proof.
  assert (Hg : glob (lit "stop vibessh-app-*") (join [32] [lit "stop"; lit "vibessh-app-x"; other]) = true).
  { change (lit "stop vibessh-app-*") with (lit "stop vibessh-app-" ++ [42]). apply glob_literal; [done|]. exists (lit "x " ++ other). split; [done|].
    apply glob_star. exists (lit "x " ++ other), []. by rewrite app_nil_r. }
  assert (Hin : forall binary, binary = lit "docker" \/ binary = lit "systemctl" -> command binary (lit "stop vibessh-app-*") ∈ narrow_commands false true false false).
  { intros binary Hb. apply (proj1 (bool_decide_eq_true _)). by destruct Hb as [-> | ->]; vm_compute. }
  change (privilege_for [lit "applications.lifecycle"]) with (Commands (narrow_commands false true false false)). cbv iota.
  split; apply existsb_elem_of; [exists (command (lit "docker") (lit "stop vibessh-app-*"))|exists (command (lit "systemctl") (lit "stop vibessh-app-*"))];
    (split; [apply Hin; auto|]); unfold permits; cbn [ac_binary ac_arguments command]; rewrite Hg, orb_true_r; reflexivity.
Qed.

(** ** What a grant permits *)

Lemma hex_digit_literal n : 0 <= n < 16 -> negb ((hex_digit n =? 42) || (hex_digit n =? 63) || (hex_digit n =? 91) || (hex_digit n =? 92)) = true.
Proof. unfold hex_digit. destruct (n <? 10) eqn:E; lia. Qed.

Lemma hex_fixed_literal width : forall n, literal (hex_fixed width n) = true.
Proof.
  induction width as [|width IH]; intros n; cbn [hex_fixed]; [done|]. unfold literal in *. rewrite forallb_app, IH. cbn [forallb].
  rewrite hex_digit_literal by (apply Z.mod_pos_bound; lia). done.
Qed.

Lemma literal_app a b : literal (a ++ b) = literal a && literal b.
Proof. apply forallb_app. Qed.

Lemma literal_slice s i j : literal s = true -> literal (take i (drop j s)) = true.
Proof. apply forallb_slice. Qed.

Lemma uuid_text_literal id : literal (uuid_text id) = true.
Proof.
  pose proof (hex_fixed_literal 32 (Z.of_N id)) as Hl. unfold uuid_text, uuid_simple. set (s := hex_fixed 32 (Z.of_N id)) in *. cbn [join]. rewrite !literal_app.
  pose proof (literal_slice s) as Hs. rewrite !Hs by done. rewrite <-(drop_0 s) at 1. rewrite Hs by done.
  rewrite <-(firstn_all (drop 20 s)), Hs by done. done.
Qed.

(** The name of a container, and of a unit. *)
Definition container_name (id : N) : list Z := lit "vibessh-app-" ++ uuid_text id.
Definition unit_name (id : N) : list Z := lit "vibessh-app-" ++ uuid_text id ++ lit ".service".

Lemma container_name_literal id : literal (container_name id) = true.
Proof. unfold container_name. by rewrite literal_app, uuid_text_literal. Qed.

Lemma unit_name_literal id : literal (unit_name id) = true.
Proof. unfold unit_name. by rewrite !literal_app, uuid_text_literal. Qed.

(** One exact command. *)
Lemma permits_exact binary argv b arguments : literal arguments = true -> arguments <> [] ->
  permits binary argv (command b arguments) = true <-> binary = b /\ join [32] argv = arguments.
Proof.
  intros Hl Hne. unfold permits. cbn [ac_binary ac_arguments command]. rewrite andb_true_iff, orb_true_iff, glob_exact by done.
  unfold str_eqb. rewrite bool_decide_eq_true. destruct arguments; [done|]. naive_solver.
Qed.

(** Any of a few verbs on one exact name. *)
Lemma permits_verbs binary argv b verbs name : forallb literal verbs = true -> literal name = true ->
  existsb (permits binary argv) (map (fun verb => command b (verb ++ lit " " ++ name)) verbs) = true <->
  binary = b /\ exists verb, verb ∈ verbs /\ join [32] argv = verb ++ lit " " ++ name.
Proof.
  intros Hv Hn. rewrite existsb_elem_of. rewrite forallb_elem_of in Hv.
  assert (Hone : forall verb, verb ∈ verbs -> permits binary argv (command b (verb ++ lit " " ++ name)) = true <-> binary = b /\ join [32] argv = verb ++ lit " " ++ name).
  { intros verb Hin. apply permits_exact; [by rewrite !literal_app, Hv, Hn|]. intros Hx. by apply app_eq_nil in Hx as [_ ?]. }
  split.
  - intros (rule & (verb & -> & Hin)%list_elem_of_fmap & Hp). apply Hone in Hp; naive_solver.
  - intros (-> & verb & Hin & Hj). exists (command b (verb ++ lit " " ++ name)). split; [apply list_elem_of_fmap; eauto|]. by apply Hone.
Qed.

(** What the arguments of a permitted command say, for a grant on the application [id]. *)
Definition names_only (runtime : GrantRuntime) (id : N) (lifecycle : bool) (binary : list Z) (argv : list (list Z)) : Prop :=
  match runtime with
  | Docker =>
      binary = lit "docker" /\
      (join [32] argv = lit "inspect " ++ container_name id \/
       join [32] argv = lit "logs " ++ container_name id \/
       (exists options, join [32] argv = lit "logs " ++ options ++ lit " " ++ container_name id) \/
       lifecycle = true /\ exists verb, verb ∈ [lit "start"; lit "stop"; lit "restart"; lit "kill"] /\ join [32] argv = verb ++ lit " " ++ container_name id)
  | Systemd =>
      binary = lit "systemctl" /\
      (join [32] argv = lit "status --no-pager " ++ unit_name id \/
       lifecycle = true /\ exists verb, verb ∈ [lit "start"; lit "stop"; lit "restart"] /\ join [32] argv = verb ++ lit " " ++ unit_name id)
  end.

Lemma application_commands grant :
  (application_rules grant).(ar_commands) =
  match grant.(ag_runtime) with
  | Docker =>
      [command (lit "docker") (lit "inspect " ++ container_name grant.(ag_application_id)); command (lit "docker") (lit "logs " ++ container_name grant.(ag_application_id));
       command (lit "docker") (lit "logs * " ++ container_name grant.(ag_application_id))]
      ++ (if holds grant.(ag_permissions) "applications.lifecycle"
          then map (fun verb => command (lit "docker") (verb ++ lit " " ++ container_name grant.(ag_application_id))) [lit "start"; lit "stop"; lit "restart"; lit "kill"] else [])
  | Systemd =>
      [command (lit "systemctl") (lit "status --no-pager " ++ unit_name grant.(ag_application_id))]
      ++ (if holds grant.(ag_permissions) "applications.lifecycle"
          then map (fun verb => command (lit "systemctl") (verb ++ lit " " ++ unit_name grant.(ag_application_id))) [lit "start"; lit "stop"; lit "restart"] else [])
  end.
Proof.
  unfold application_rules. destruct (_ || _); [destruct (rule_safe_directory _)|]; by destruct (ag_runtime grant).
Qed.

(** C12: A grant on one application reaches that application and no other:
    every docker or systemctl command it permits carries the exact name of the
    application's own container or unit at its end, with one of the verbs of a
    permission that was granted and nothing after it. *)
Theorem grant_names_one_application grant binary argv :
  existsb (permits binary argv) (application_rules grant).(ar_commands) = true <->
  names_only grant.(ag_runtime) grant.(ag_application_id) (holds grant.(ag_permissions) "applications.lifecycle") binary argv.
Proof.
  rewrite application_commands. unfold names_only. pose proof (container_name_literal grant.(ag_application_id)) as Hc. pose proof (unit_name_literal grant.(ag_application_id)) as Hu.
  destruct (ag_runtime grant).
  - rewrite existsb_app, orb_true_iff. cbn [existsb]. rewrite !orb_true_iff.
    rewrite !permits_exact by (by rewrite ?literal_app, ?Hc). 
    assert (Hlogs : permits binary argv (command (lit "docker") (lit "logs * " ++ container_name grant.(ag_application_id))) = true <->
      binary = lit "docker" /\ exists options, join [32] argv = lit "logs " ++ options ++ lit " " ++ container_name grant.(ag_application_id)).
    { unfold permits. cbn [ac_binary ac_arguments command]. rewrite andb_true_iff. unfold str_eqb. rewrite bool_decide_eq_true. apply and_iff_compat_l.
      change (is_empty (lit "logs * " ++ container_name grant.(ag_application_id))) with false. cbn [orb].
      change (lit "logs * " ++ ?x) with (lit "logs " ++ 42 :: (lit " " ++ x)). rewrite glob_literal by done. setoid_rewrite glob_star. setoid_rewrite glob_exact; [|by rewrite literal_app, Hc].
      split; [intros (rest & -> & a & b & -> & ->); by exists a|]. intros (o & ->). eexists. split; [reflexivity|]. by eexists _, _. }
    rewrite Hlogs. destruct (holds _ _); [rewrite permits_verbs by done|cbn [existsb]]; intuition discriminate.
  - rewrite existsb_app, orb_true_iff. cbn [existsb]. rewrite orb_false_r. rewrite permits_exact by (by rewrite ?literal_app, ?Hu).
    destruct (holds _ _); [rewrite permits_verbs by done|cbn [existsb]]; intuition discriminate.
Qed.

(** ** What a file rule permits *)

(** A command list as sudo reads it: separated by commas, the path up to the first blank. *)
Definition parse_command (piece : list Z) : AllowedCommand :=
  let piece := trim_start_matches (Z.eqb 32) piece in
  match split_once 32 piece with Some (path, arguments) => command path arguments | None => command piece [] end.
Definition parse_commands (text : list Z) : list AllowedCommand := map parse_command (split_on (Z.eqb 44) text).

Lemma parse_helper arguments :
  parse_command (FILE_HELPER_PATH ++ lit " " ++ arguments) = command FILE_HELPER_PATH arguments /\
  parse_command (32 :: FILE_HELPER_PATH ++ lit " " ++ arguments) = command FILE_HELPER_PATH arguments.
Proof.
  unfold parse_command. assert (Ht : forall pre, pre = [] \/ pre = [32] ->
    trim_start_matches (Z.eqb 32) (pre ++ FILE_HELPER_PATH ++ lit " " ++ arguments) = FILE_HELPER_PATH ++ 32 :: arguments) by (by intros pre [-> | ->]).
  pose proof (Ht [] ltac:(auto)) as H0. pose proof (Ht [32] ltac:(auto)) as H1. cbn [app] in H0, H1. rewrite H0, H1. by rewrite split_once_app.
Qed.

Lemma split_comma_join pieces : forall pre piece, existsb (Z.eqb 44) pre = false -> Forall (fun p => existsb (Z.eqb 44) p = false) (piece :: pieces) ->
  split_on (Z.eqb 44) (pre ++ join (lit ", ") (piece :: pieces)) = (pre ++ piece) :: map (cons 32) pieces.
Proof.
  induction pieces as [|q pieces IH]; intros pre piece Hpre Hall.
  - cbn [join map]. apply split_on_none. rewrite existsb_app, Hpre. by apply Forall_cons in Hall as [-> _].
  - apply Forall_cons in Hall as [Hp Hall]. change (join (lit ", ") (piece :: q :: pieces)) with (piece ++ 44 :: [32] ++ join (lit ", ") (q :: pieces)).
    rewrite app_assoc, split_on_app; [|by rewrite existsb_app, Hpre, Hp|done]. by rewrite IH.
Qed.

(** A root that can stand in a rule: no comma, no blank, nothing a pattern gives a meaning to. *)
Lemma directory_chars s : forallb is_directory_char s = true -> existsb (Z.eqb 44) s = false /\ contains_char 32 s = false /\ literal s = true.
Proof.
  intros Hs. rewrite forallb_forall in Hs. split_and!.
  - apply not_true_iff_false. rewrite existsb_exists. intros (c & Hc & <-%Z.eqb_eq). by specialize (Hs _ Hc).
  - unfold contains_char. apply not_true_iff_false. rewrite existsb_exists. intros (c & Hc & <-%Z.eqb_eq). by specialize (Hs _ Hc).
  - unfold literal. apply forallb_forall. intros c Hc. specialize (Hs c Hc). revert Hs.
    unfold is_directory_char, is_ascii_alphanumeric, is_ascii_alphabetic, is_ascii_uppercase, is_ascii_lowercase, is_ascii_digit, in_range. lia.
Qed.

(** The arguments a file rule lists. *)
Definition file_patterns (rule : FileRule) : list (list Z) :=
  if rule.(fl_write) then [rule.(fl_root) ++ lit " *"]
  else READ_ONLY_FILE_OPERATIONS ≫= fun op => [rule.(fl_root) ++ lit " " ++ op; rule.(fl_root) ++ lit " " ++ op ++ lit " *"].

Lemma parse_helper_list pattern patterns : Forall (fun p => existsb (Z.eqb 44) p = false) (pattern :: patterns) ->
  parse_commands (join (lit ", ") (map (fun p => FILE_HELPER_PATH ++ lit " " ++ p) (pattern :: patterns))) = map (command FILE_HELPER_PATH) (pattern :: patterns).
Proof.
  intros Hall. unfold parse_commands. rewrite <-(app_nil_l (join _ _)). cbn [map]. rewrite split_comma_join; [|done|].
  - cbn [map app]. rewrite (proj1 (parse_helper pattern)). f_equal. clear. induction patterns as [|p patterns IH]; [done|].
    cbn [map]. rewrite (proj2 (parse_helper p)). by f_equal.
  - change (?x :: map ?f patterns) with (map f (pattern :: patterns)). apply Forall_map. eapply Forall_impl; [exact Hall|]. intros p Hp. cbn beta. by rewrite !existsb_app, Hp.
Qed.

Lemma file_patterns_no_comma rule : forallb is_directory_char rule.(fl_root) = true -> Forall (fun p => existsb (Z.eqb 44) p = false) (file_patterns rule).
Proof.
  intros Hr. destruct (directory_chars _ Hr) as (Hcomma & _ & _). unfold file_patterns. destruct (fl_write rule).
  - constructor; [|constructor]. by rewrite existsb_app, Hcomma.
  - repeat (constructor; [by rewrite !existsb_app, Hcomma|]). constructor.
Qed.

Lemma parse_file_commands rule : forallb is_directory_char rule.(fl_root) = true ->
  parse_commands (file_commands rule) = map (command FILE_HELPER_PATH) (file_patterns rule).
Proof.
  intros Hr. pose proof (file_patterns_no_comma rule Hr) as Hall. unfold file_commands, file_patterns in *. destruct (fl_write rule).
  - exact (parse_helper_list _ [] Hall).
  - exact (parse_helper_list _ _ Hall).
Qed.

Lemma rule_safe_directory_spec directory root : rule_safe_directory directory = Some root ->
  starts_with_char 47 root = true /\ ~ DOTDOT ∈ split_on (Z.eqb 47) root /\ root = trim_end_matches (Z.eqb 47) directory /\ forallb is_directory_char root = true.
Proof.
  unfold rule_safe_directory. set (trimmed := trim_end_matches _ directory). destruct (_ && _) eqn:E; [|done]. intros [= <-].
  rewrite !andb_true_iff, negb_true_iff in E. destruct E as [[[E1 _] E2] E3]. split_and!; [done| |done|done]. intros Hin.
  rewrite existsb_false_elem_of in E2. specialize (E2 _ Hin). by apply bool_decide_eq_false in E2.
Qed.

Lemma read_operations_ok op : op ∈ READ_ONLY_FILE_OPERATIONS ->
  starts_literal op = true /\ starts_literal (op ++ lit " *") = true /\ first_word op = op /\ first_word (op ++ lit " *") = op.
Proof.
  unfold READ_ONLY_FILE_OPERATIONS. rewrite !elem_of_cons, elem_of_nil. intros [->|[->|[->|[->|[->|[->|[]]]]]]]; split_and!; reflexivity.
Qed.

(** A grant on one application's files fixes the directory: the helper runs
    as the application's own account, its first argument is the application's
    directory, an absolute path without parent components, and without the
    permission to write the operation is one of the reading ones. *)
Theorem file_grant_fixes_the_directory grant rule argv :
  (application_rules grant).(ar_files) = Some rule ->
  existsb (permits FILE_HELPER_PATH argv) (parse_commands (file_commands rule)) = true ->
  rule.(fl_account) = username grant.(ag_application_id) /\
  starts_with_char 47 rule.(fl_root) = true /\ ~ DOTDOT ∈ split_on (Z.eqb 47) rule.(fl_root) /\
  rule.(fl_root) = trim_end_matches (Z.eqb 47) grant.(ag_working_directory) /\
  exists rest, join [32] argv = rule.(fl_root) ++ 32 :: rest /\
    (holds grant.(ag_permissions) "applications.files.write" = true \/
     holds grant.(ag_permissions) "applications.files.read" = true /\ one_of READ_ONLY_FILE_OPERATIONS (first_word rest) = true).
Proof.
  intros Hf Hp. assert (Hrule : rule_safe_directory grant.(ag_working_directory) = Some rule.(fl_root) /\ rule.(fl_account) = username grant.(ag_application_id) /\
    rule.(fl_write) = holds grant.(ag_permissions) "applications.files.write" /\ (rule.(fl_write) || holds grant.(ag_permissions) "applications.files.read") = true).
  { unfold application_rules in Hf. destruct (_ || _) eqn:E.
    - destruct (rule_safe_directory _) as [root|]; [|done]. cbn in Hf. by simplify_eq.
    - by destruct (ag_runtime grant). }
  destruct Hrule as (Hroot & Ha & Hw & Hor). apply rule_safe_directory_spec in Hroot as (Hslash & Hup & Htrim & Hchars). split_and!; [done..|].
  destruct (directory_chars _ Hchars) as (_ & Hblank & Hlit). rewrite parse_file_commands in Hp by done.
  apply existsb_elem_of in Hp as (c & (pattern & -> & Hin)%list_elem_of_fmap & Hp). unfold permits in Hp. cbn [ac_binary ac_arguments command] in Hp.
  apply andb_true_iff in Hp as [_ Hp]. unfold file_patterns in Hin. destruct (fl_write rule) eqn:Ew.
  - apply list_elem_of_singleton in Hin as ->. destruct (is_empty _) eqn:Ee; [by destruct (fl_root rule)|]. cbn [orb] in Hp.
    apply glob_literal in Hp as (rest & Hj & Hg); [|done]. change (lit " *") with ([32] ++ [42]) in Hg. apply glob_literal in Hg as (rest' & -> & _); [|done].
    exists rest'. split; [done|]. left. congruence.
  - apply list_elem_of_bind in Hin as (op & Hin & Hop). destruct (read_operations_ok op Hop) as (Hq1 & Hq2 & Hf1 & Hf2).
    assert (Hq : exists q, pattern = fl_root rule ++ [32] ++ q /\ starts_literal q = true /\ first_word q = op).
    { rewrite !elem_of_cons, elem_of_nil in Hin. destruct Hin as [->|[->|[]]]; [by exists op|by exists (op ++ lit " *")]. }
    destruct Hq as (q & -> & Hq & Hqf). destruct (is_empty _) eqn:Ee; [by destruct (fl_root rule)|]. cbn [orb] in Hp.
    rewrite app_assoc in Hp. apply glob_literal in Hp as (rest & Hj & Hg); [|by rewrite literal_app, Hlit]. rewrite <-app_assoc in Hj.
    exists rest. split; [done|]. right. split; [by rewrite orb_false_l in Hor|]. rewrite (glob_first_word q rest Hq Hg), Hqf.
    apply existsb_elem_of. exists op. split; [done|]. by apply bool_decide_eq_true.
Qed.

Lemma file_grant_fixes_the_directory_witness :
  exists rest, join [32] [lit "/srv/oneblock"; lit "read"; lit "server.log"] = lit "/srv/oneblock" ++ 32 :: rest.
Proof.
  destruct (file_grant_fixes_the_directory (mkGrant 7 Docker (lit "/srv/oneblock/") [lit "applications.files.read"])
    (mkFileRule 7 (username 7) (lit "/srv/oneblock") false) [lit "/srv/oneblock"; lit "read"; lit "server.log"]) as (_ & _ & _ & _ & rest & Hj & _);
    [vm_compute; reflexivity|vm_compute; reflexivity|]. exists rest. exact Hj.
Defined.
