(* ===== verification/MemberAccount.v ===== *)
(** * MemberAccount: the scripts behind a member's account on a Node

    [apps/desktop/src-tauri/src/member_account.rs]: the texts of the scripts
    that create an account, replace its keys, write its sudo rules and take
    its access away, and [run], which sends one. *)

From S2P Require Import Prelude Text Shell Sandbox Validators Ufw Firewall Sudoers.

#[local] Open Scope Z_scope.
#[local] Open Scope fw_scope.
#[local] Open Scope vibe_scope.

(** A text in which a backquote stands for the double quote. *)
Definition qlit (s : string) : list Z := map (fun c => if c =? 96 then 34 else c) (lit s).

Definition GROUP : list Z := lit "vibessh-members".
Definition APPLICATION_GROUP : list Z := lit "vibessh-apps".

Definition sudoers_path (username : list Z) : list Z := lit "/etc/sudoers.d/" ++ username.
Definition home_directory (username : list Z) : list Z := lit "/home/" ++ username.

(** [validate_linux_username(username, ..)?]. *)
Definition check_username (username : list Z) : result AppError unit :=
  match validate_linux_username username (lit "the member's account name") with Ok _ => Ok tt | Err e => Err (InvalidInput e) end.

Definition provision_script (username : list Z) : result AppError (list Z) :=
  let? _ := check_username username in
  let user := quote username in
  let group := quote GROUP in
  Ok (lit "set -e; "
      ++ lit "getent group " ++ group ++ lit " >/dev/null 2>&1 || sudo groupadd " ++ group ++ lit "; "
      ++ lit "id -u " ++ user ++ lit " >/dev/null 2>&1 || sudo useradd --create-home --shell /bin/bash --gid " ++ group ++ lit " " ++ user ++ lit "; "
      ++ lit "sudo passwd --lock " ++ user ++ lit " >/dev/null; "
      ++ lit "sudo usermod --expiredate '' " ++ user).

Definition MEMBER_KEYS_WRITE : list Z :=
  qlit "umask 077 && mkdir -p `$1/.ssh` && chmod 700 `$1/.ssh` && cat > `$1/.ssh/authorized_keys.new` && mv -f `$1/.ssh/authorized_keys.new` `$1/.ssh/authorized_keys`".

(** [printf '%s\n' <line>], for each line. *)
Definition print_lines (lines : list (list Z)) : list Z :=
  let write := join (lit "; ") (map (fun line => lit "printf '%s\n' " ++ quote line) lines) in
  if is_empty write then lit "true" else write.

Definition authorized_keys_script (username : list Z) (keys : list (list Z)) : result AppError (list Z) :=
  let? _ := check_username username in
  if existsb (fun key => contains_char 10 key || contains_char 13 key) keys then Err (InvalidInput (mkInvalid (lit "a public key") HasNewline))
  else
    Ok (lit "set -e; (" ++ print_lines keys ++ lit ") | sudo -n -u " ++ quote username ++ lit " sh -c " ++ quote MEMBER_KEYS_WRITE ++ lit " vibessh-keys "
        ++ quote (home_directory username)).

(** The lines of the file that are known before the Node is asked anything. *)
Definition known_lines (username : list Z) (privilege : Privilege) (helper : bool) (applications : list ApplicationRules) : list (list Z) :=
  match privilege with
  | Root reason => [lit "# " ++ reason ++ lit " cannot be narrowed - see member_sudoers.rs"; username ++ lit " ALL=(ALL) NOPASSWD: ALL"]
  | _ => []
  end
  ++ (if helper then [username ++ lit " ALL=(%" ++ APPLICATION_GROUP ++ lit ") NOPASSWD: " ++ FILE_HELPER_PATH] else [])
  ++ omap (fun application => (fun id => username ++ lit " ALL=(root) NOPASSWD: " ++ CONSOLE_WRITER_PATH ++ lit " " ++ uuid_text id) <$> application.(ar_console)) applications.

Definition resolve_command (username temporary : list Z) (allowed : AllowedCommand) : list Z :=
  let arguments := if is_empty allowed.(ac_arguments) then [] else lit " " ++ allowed.(ac_arguments) in
  lit "p=$(command -v " ++ quote allowed.(ac_binary) ++ lit " 2>/dev/null) && printf '%s ALL=(root) NOPASSWD: %s" ++ arguments ++ lit "\n' " ++ quote username
  ++ qlit " `$p` | sudo tee -a " ++ temporary ++ lit " >/dev/null; ".

Definition resolve_files (username temporary : list Z) (files : FileRule) : list Z :=
  let rule := username ++ lit " ALL=(" ++ files.(fl_account) ++ lit ") NOPASSWD: " ++ file_commands files in
  lit "id -u " ++ quote files.(fl_account) ++ lit " >/dev/null 2>&1 && printf '%s\n' " ++ quote rule ++ lit " | sudo tee -a " ++ temporary ++ lit " >/dev/null; ".

Definition is_root (privilege : Privilege) : bool := match privilege with Root _ => true | _ => false end.
Definition role_commands (privilege : Privilege) : list AllowedCommand := match privilege with Commands commands => commands | _ => [] end.

Definition sudoers_script (username : list Z) (permissions : list (list Z)) (applications : list ApplicationRules) : result AppError (list Z) :=
  let? _ := check_username username in
  let path := quote (sudoers_path username) in
  let temporary := quote (sudoers_path username ++ lit ".new") in
  let privilege := privilege_for permissions in
  let applications := if is_root privilege then [] else applications in
  let lines := known_lines username privilege (may_use_the_file_helper permissions) applications in
  let commands := foldl (fun set application => btree_extend set application.(ar_commands)) (btree_extend [] (role_commands privilege)) applications in
  let resolvers := (commands ≫= resolve_command username temporary) ++ (omap ar_files applications ≫= resolve_files username temporary) in
  if bool_decide (lines = []) && is_empty resolvers then Ok (lit "set -e; sudo rm -f " ++ path ++ lit " " ++ temporary)
  else
    Ok (lit "set -e; (" ++ print_lines lines ++ lit ") | sudo tee " ++ temporary ++ lit " >/dev/null; "
        ++ resolvers
        ++ lit "sudo chmod 440 " ++ temporary ++ lit "; "
        ++ lit "sudo visudo -c -f " ++ temporary ++ lit " >/dev/null || { sudo rm -f " ++ temporary ++ lit "; exit 9; }; "
        ++ lit "sudo mv " ++ temporary ++ lit " " ++ path).

Definition revoke_script (username : list Z) : result AppError (list Z) :=
  let? _ := check_username username in
  let path := quote (sudoers_path username) in
  let user := quote username in
  let? keys := authorized_keys_script username [] in
  Ok (lit "set -e; sudo rm -f " ++ path ++ lit "; "
      ++ lit "id -u " ++ user ++ lit " >/dev/null 2>&1 || exit 0; "
      ++ lit "sudo usermod --expiredate 1 " ++ user ++ lit "; "
      ++ lit "{ " ++ keys ++ lit "; } || echo 'vibessh: the keys file could not be emptied - the account is expired, which is what refuses the login' >&2; "
      ++ lit "sudo pkill -KILL -u " ++ user ++ lit " || true").

Section run.
Context {Node : Type} `{Connection Node}.

Definition run_script (script what : list Z) : F Node unit :=
  output <- run_command script ;;
  if negb (output.(exit_code) =? 0) then
    let detail := trim output.(stderr) in
    throw (ConnectionFailed (lit "couldn't " ++ (if is_empty detail then what else what ++ lit ": " ++ detail)))
  else ret tt.
End run.

(** ** What the scripts say to the shell *)

(** [printf] of one line, as the shell reads it. *)
Definition print_words (line : list Z) : list Token := [Word (lit "printf"); Word (lit "%s\n"); Word line].

Fixpoint separated (lines : list (list Z)) : list Token :=
  match lines with
  | [] => []
  | [line] => print_words line
  | line :: lines => print_words line ++ Op 59 :: separated lines
  end.

Lemma lex_print line rest toks : contains_char 0 line = false -> lex Bare (Some line) rest = Some (Word line :: toks) ->
  lex Bare None ((lit "printf '%s\n' " ++ quote line) ++ rest) = Some (print_words line ++ toks).
Proof.
  intros Hn Hrest. rewrite <-app_assoc. change (lit "printf '%s\n' " ++ ?x) with (lit "printf" ++ 32 :: quote (lit "%s\n") ++ 32 :: x).
  rewrite lex_word by done. rewrite lex_quoted_word by done. rewrite lex_quote by done. cbn [default from_option app]. rewrite Hrest. done.
Qed.

Lemma lex_print_lines lines : Forall (fun line => contains_char 0 line = false) lines -> lines <> [] ->
  lex Bare None (join (lit "; ") (map (fun line => lit "printf '%s\n' " ++ quote line) lines)) = Some (separated lines).
Proof.
  induction 1 as [|line lines Hl Hall IH]; intros Hne; [done|]. destruct lines as [|next lines].
  - cbn [map join separated]. rewrite <-(app_nil_r (_ ++ quote line)), <-(app_nil_r (print_words line)). by apply lex_print.
  - change (join (lit "; ") (map ?f (line :: next :: lines))) with (f line ++ lit "; " ++ join (lit "; ") (map f (next :: lines))).
    change (separated (line :: next :: lines)) with (print_words line ++ Op 59 :: separated (next :: lines)). apply lex_print; [done|].
    change (lit "; " ++ ?x) with (59 :: 32 :: x). rewrite lex_semicolon, lex_blank. cbn [flush app].
    rewrite IH by done. done.
Qed.

(** Whatever a key, its comment or a rule contains, the part of a script
    that prints lines is read by the shell as one [printf] per line with the
    line as its one argument: nothing in a published key becomes a command on
    the Node. *)
Theorem printed_lines_are_verbatim lines : Forall (fun line => contains_char 0 line = false) lines ->
  tokens (print_lines lines) = Some (match lines with [] => [Word (lit "true")] | _ => separated lines end).
Proof.
  intros Hall. unfold tokens, print_lines. destruct lines as [|line lines]; [done|].
  pose proof (lex_print_lines (line :: lines) Hall ltac:(done)) as Hlex.
  destruct (is_empty _) eqn:E; [|done]. exfalso. cbn [map] in E. destruct (map _ lines); by cbn in E.
Qed.

Lemma printed_lines_are_verbatim_witness :
  tokens (print_lines [lit "ssh-ed25519 AAAA $(reboot)"; lit "ssh-rsa BBBB x'; id '"]) =
  Some [Word (lit "printf"); Word (lit "%s\n"); Word (lit "ssh-ed25519 AAAA $(reboot)"); Op 59; Word (lit "printf"); Word (lit "%s\n"); Word (lit "ssh-rsa BBBB x'; id '")].
Proof. rewrite (printed_lines_are_verbatim [lit "ssh-ed25519 AAAA $(reboot)"; lit "ssh-rsa BBBB x'; id '"]); [reflexivity|by repeat constructor]. Defined.

(** On a Node, a role's permission to read files is as good as the one to
    write them: the sudo rules written for the two are the same text. *)
Theorem reading_role_writes_files username applications :
  sudoers_script username [lit "applications.files.read"] applications = sudoers_script username [lit "applications.files.write"] applications.
Proof. reflexivity. Qed.

(** ** The blanket rule *)

Definition blanket (username : list Z) : list Z := username ++ lit " ALL=(ALL) NOPASSWD: ALL".

Lemma known_lines_blanket username privilege helper applications :
  blanket username ∈ known_lines username privilege helper applications <-> is_root privilege = true.
Proof.
  unfold known_lines, blanket. rewrite !elem_of_app. split.
  - intros [Hp|[Hh|Ho]].
    + by destruct privilege as [| |reason]; [apply elem_of_nil in Hp..|].
    + exfalso. destruct helper; [|by apply elem_of_nil in Hh]. apply list_elem_of_singleton, app_inv_head in Hh. by vm_compute in Hh.
    + exfalso. apply list_elem_of_omap in Ho as (application & _ & Ho). destruct (ar_console application) as [id|]; [|done].
      apply (inj Some), app_inv_head in Ho. revert Ho. generalize (CONSOLE_WRITER_PATH ++ lit " " ++ uuid_text id). intros rest Ho. by vm_compute in Ho.
  - destruct privilege as [| |reason]; try done. intros _. left. set_solver.
Qed.
