(* ===== verification/TeamAccess.v ===== *)
(** * TeamAccess: bringing a Node in line with its team

    [apps/desktop/src-tauri/src/services/team_access_service.rs]: one sync of
    one Node, which gives every member of the team an account with the
    member's keys and sudo rules, and carries out the revocations the team is
    owed there.  The calls to the backend and the connection are operations of
    the class [Services]; what the sync does is told by the log of what it
    sent, which the instances for [Traced] keep. *)

From S2P Require Import Prelude Text Shell Sandbox Validators Ufw Firewall Sudoers MemberAccount.

#[local] Open Scope Z_scope.
#[local] Open Scope fw_scope.

(** ** What the backend says *)

Record CloudMemberApplicationAccess : Type := mkCloudApplication {
  cm_local_id : N; cm_team_server_id : option N; cm_runtime_type : list Z; cm_working_directory : list Z; cm_permissions : list (list Z);
}.
Record CloudMemberAccess : Type := mkCloudMember {
  cl_user_id : N; cl_email : list Z; cl_display_name : list Z; cl_node_username : list Z; cl_public_keys : list (list Z); cl_permissions : list (list Z);
  cl_applications : list CloudMemberApplicationAccess;
}.
Record CloudNodeRevocation : Type := mkCloudRevocation {
  cr_id : N; cr_team_server_id : N; cr_server_name : list Z; cr_host : list Z; cr_ssh_port : Z; cr_user_id : N; cr_node_username : list Z; cr_email : list Z;
  cr_requested_at : Z;
}.

(** The backend's client, and a connection to the Node: either cached or newly made. *)
Class Services (Node : Type) : Type := {
  list_team_access : N -> Node -> result AppError (list CloudMemberAccess) * Node;
  list_pending_revocations : N -> Node -> result AppError (list CloudNodeRevocation) * Node;
  complete_revocation : N -> N -> Node -> result AppError unit * Node;
  get_or_connect : N -> Node -> result AppError unit * Node;
}.

(** ** What is reported *)

Record MemberAccessResult : Type := mkMemberResult {
  mr_user_id : N; mr_email : list Z; mr_node_username : list Z; mr_has_key : bool; mr_granted : bool; mr_error : option (list Z); mr_notes : list SkippedGrant;
}.
Record RevocationResult : Type := mkRevocationResult { rr_id : N; rr_email : list Z; rr_node_username : list Z; rr_completed : bool; rr_error : option (list Z) }.
Record NodeAccessSync : Type := mkNodeSync { ns_members : list MemberAccessResult; ns_revocations : list RevocationResult }.

(** ** The operations *)

Definition is_ok_result {E A} (r : result E A) : bool := match r with Ok _ => true | Err _ => false end.
Definition err_of {E A} (r : result E A) : option E := match r with Ok _ => None | Err e => Some e end.

Definition needs_console_writer (member : CloudMemberAccess) (rules : list ApplicationRules) : bool :=
  existsb (fun rules => bool_decide (is_Some rules.(ar_console))) rules || existsb (fun key => str_eqb key (lit "applications.console")) member.(cl_permissions).

Definition needs_firewall_helper (member : CloudMemberAccess) : bool := existsb (fun key => str_eqb key (lit "node.firewall")) member.(cl_permissions).

Definition application_rules_on (member : CloudMemberAccess) (team_server_id : N) : list ApplicationRules :=
  map (fun application =>
    match from_projection application.(cm_runtime_type) with
    | Some runtime => application_rules (mkGrant application.(cm_local_id) runtime application.(cm_working_directory) application.(cm_permissions))
    | None => mkRules [] None None [mkSkipped application.(cm_local_id) NothingToName]
    end)
    (List.filter (fun application => bool_decide (application.(cm_team_server_id) = Some team_server_id)) member.(cl_applications)).

(** The accounts, in order and once each. *)
Fixpoint str_insert (s : list Z) (set : list (list Z)) : list (list Z) :=
  match set with
  | [] => [s]
  | x :: set => if str_eqb s x then x :: set else if str_ltb s x then s :: x :: set else x :: str_insert s set
  end.

Definition file_accounts (rules_by_member : list (list ApplicationRules)) : list (list Z) :=
  foldl (fun set account => str_insert account set) [] (omap (fun rules => fl_account <$> rules.(ar_files)) (concat rules_by_member)).

(** One application's rules, once it is known which accounts exist. *)
Definition drop_file_rule (present : list (list Z)) (rules : ApplicationRules) : ApplicationRules :=
  match rules.(ar_files) with
  | None => rules
  | Some files =>
      if existsb (str_eqb files.(fl_account)) present then rules
      else mkRules rules.(ar_commands) rules.(ar_console) None (rules.(ar_skipped) ++ [mkSkipped files.(fl_application_id) NoOwnAccount])
  end.

Section sync.
Context {Node : Type} `{Connection Node} `{Services Node}.
(** The two helper scripts, which may be any text here, and [AppError::to_string]. *)
Context (HELPER_SCRIPT CONSOLE_WRITER_SCRIPT : list Z) (to_string : AppError -> list Z).

(** A service's operation, on the Node of the state. *)
Definition call {A} (f : Node -> result AppError A * Node) : F Node A := fun s =>
  let '(r, n) := f s.(fw_node) in (r, mkFw n s.(fw_verified) s.(fw_uuid)).

Definition accounts_script (accounts : list (list Z)) : list Z :=
  lit "for account in " ++ join [32] (map quote accounts) ++ qlit "; do id -u `$account` >/dev/null 2>&1 && echo `$account`; done".

Definition drop_file_rules_without_an_account (rules_by_member : list (list ApplicationRules)) : F Node (list (list ApplicationRules)) :=
  match file_accounts rules_by_member with
  | [] => ret rules_by_member
  | accounts =>
      output <- attempt (run_command (accounts_script accounts)) ;;
      match output with
      | Err _ => ret rules_by_member
      | Ok output => ret (map (map (drop_file_rule (map trim (lines output.(stdout))))) rules_by_member)
      end
  end.

Definition ensure_console_writer_installed : F Node unit :=
  let writer := quote CONSOLE_WRITER_PATH in
  deployed <- attempt (run_command (lit "sudo cat " ++ writer ++ lit " 2>/dev/null")) ;;
  if match deployed with Ok output => str_eqb output.(stdout) CONSOLE_WRITER_SCRIPT | Err _ => false end then ret tt
  else
    id <- fresh_uuid ;;
    let staging := lit ".vibessh-console-write-" ++ id in
    put_file staging CONSOLE_WRITER_SCRIPT ;;;
    let staging := quote staging in
    output <- run_command (lit "sudo install -D -o root -g root -m 0755 " ++ staging ++ lit " " ++ writer ++ lit "; rc=$?; rm -f " ++ staging ++ lit "; exit $rc") ;;
    if negb (output.(exit_code) =? 0) then throw (ConnectionFailed (lit "couldn't install the console writer: " ++ trim output.(stderr))) else ret tt.

(** [script?], then [run]. *)
Definition run_checked (script : result AppError (list Z)) (what : list Z) : F Node unit :=
  match script with Ok script => run_script script what | Err e => throw e end.

Definition grant_one (member : CloudMemberAccess) (applications : list ApplicationRules) : F Node unit :=
  let username := member.(cl_node_username) in
  run_checked (provision_script username) (lit "create the member's account") ;;;
  run_checked (authorized_keys_script username member.(cl_public_keys)) (lit "install the member's keys") ;;;
  run_checked (sudoers_script username member.(cl_permissions) applications) (lit "set the member's sudo rules").

(** One turn of the loop over the members. *)
Definition grant_member (console_writer firewall_helper : result AppError unit) (member : CloudMemberAccess) (rules : list ApplicationRules) : F Node MemberAccessResult :=
  let notes := rules ≫= ar_skipped in
  match member.(cl_public_keys) with
  | [] => ret (mkMemberResult member.(cl_user_id) member.(cl_email) member.(cl_node_username) false false None notes)
  | _ =>
      outcome <- attempt
        (match console_writer, firewall_helper with
         | Err err, _ =>
             if needs_console_writer member rules then throw (ConnectionFailed (to_string err))
             else match firewall_helper with
                  | Err err => if needs_firewall_helper member then throw (ConnectionFailed (to_string err)) else grant_one member rules
                  | Ok _ => grant_one member rules
                  end
         | Ok _, Err err => if needs_firewall_helper member then throw (ConnectionFailed (to_string err)) else grant_one member rules
         | Ok _, Ok _ => grant_one member rules
         end) ;;
      ret (mkMemberResult member.(cl_user_id) member.(cl_email) member.(cl_node_username) true (is_ok_result outcome) (to_string <$> err_of outcome) notes)
  end.

Fixpoint grant_members (console_writer firewall_helper : result AppError unit) (members : list (CloudMemberAccess * list ApplicationRules)) : F Node (list MemberAccessResult) :=
  match members with
  | [] => ret []
  | (member, rules) :: members =>
      first <- grant_member console_writer firewall_helper member rules ;;
      others <- grant_members console_writer firewall_helper members ;;
      ret (first :: others)
  end.

Definition revoke_one (team_id : N) (revocation : CloudNodeRevocation) : F Node unit :=
  run_checked (revoke_script revocation.(cr_node_username)) (lit "revoke the member's access") ;;;
  call (complete_revocation team_id revocation.(cr_id)).

Fixpoint revoke_each (team_id : N) (revocations : list CloudNodeRevocation) : F Node (list RevocationResult) :=
  match revocations with
  | [] => ret []
  | revocation :: revocations =>
      outcome <- attempt (revoke_one team_id revocation) ;;
      others <- revoke_each team_id revocations ;;
      ret (mkRevocationResult revocation.(cr_id) revocation.(cr_email) revocation.(cr_node_username) (is_ok_result outcome) (to_string <$> err_of outcome) :: others)
  end.

Definition complete_revocations (team_id team_server_id : N) : F Node (list RevocationResult) :=
  pending <- call (list_pending_revocations team_id) ;;
  revoke_each team_id (List.filter (fun row => bool_decide (row.(cr_team_server_id) = team_server_id)) pending).

Definition sync_team_access (server_id team_id team_server_id : N) : F Node NodeAccessSync :=
  members <- call (list_team_access team_id) ;;
  call (get_or_connect server_id) ;;;
  rules_by_member <- drop_file_rules_without_an_account (map (fun member => application_rules_on member team_server_id) members) ;;
  console_writer <- attempt (if existsb (fun p => needs_console_writer p.1 p.2) (zip members rules_by_member) then ensure_console_writer_installed else ret tt) ;;
  firewall_helper <- attempt (if existsb needs_firewall_helper members then ensure_helper_installed HELPER_SCRIPT else ret tt) ;;
  results <- grant_members console_writer firewall_helper (zip members rules_by_member) ;;
  revocations <- complete_revocations team_id team_server_id ;;
  ret (mkNodeSync results revocations).
End sync.

(** ** The log *)

Inductive Event : Type :=
| Ran (command : list Z) (answer : result (list Z) CommandOutput)
| Wrote (path : list Z)
| ReadAccess (answer : result AppError (list CloudMemberAccess))
| ReadPending (answer : result AppError (list CloudNodeRevocation))
| Connected (answer : result AppError unit)
| Completed (id : N) (answer : result AppError unit).

Record Traced (Node : Type) : Type := mkTraced { tr_node : Node; tr_log : list Event }.
Arguments mkTraced {Node} _ _.
Arguments tr_node {Node} _.
Arguments tr_log {Node} _.

Section traced.
Context {Node : Type} `{Connection Node} `{Services Node}.

Definition traced {A} (event : A -> Event) (f : Node -> A * Node) (t : Traced Node) : A * Traced Node :=
  let '(a, n) := f t.(tr_node) in (a, mkTraced n (t.(tr_log) ++ [event a])).

#[global] Instance traced_connection : Connection (Traced Node) := {
  execute_command command := traced (Ran command) (execute_command command);
  write_file path bytes := traced (fun _ => Wrote path) (write_file path bytes);
  session_id t := session_id t.(tr_node);
}.

#[global] Instance traced_services : Services (Traced Node) := {
  list_team_access team_id := traced ReadAccess (list_team_access team_id);
  list_pending_revocations team_id := traced ReadPending (list_pending_revocations team_id);
  complete_revocation team_id id := traced (Completed id) (complete_revocation team_id id);
  get_or_connect server_id := traced Connected (get_or_connect server_id);
}.

(** A run adds events to the log that, with its result, satisfy [Q]. *)
Definition emits {A} (m : F (Traced Node) A) (Q : result AppError A -> list Event -> Prop) : Prop :=
  forall s, exists l, (m s).2.(fw_node).(tr_log) = s.(fw_node).(tr_log) ++ l /\ Q (m s).1 l.

Lemma emits_conseq {A} (m : F (Traced Node) A) (Q Q' : result AppError A -> list Event -> Prop) :
  emits m Q -> (forall r l, Q r l -> Q' r l) -> emits m Q'.
Proof. intros Hm HQ s. destruct (Hm s) as (l & Hl & Hq). eauto. Qed.

Lemma emits_ret {A} (a : A) (Q : result AppError A -> list Event -> Prop) : Q (Ok a) [] -> emits (ret a) Q.
Proof. intros HQ s. exists []. by rewrite app_nil_r. Qed.

Lemma emits_throw {A} e (Q : result AppError A -> list Event -> Prop) : Q (Err e) [] -> emits (throw e) Q.
Proof. intros HQ s. exists []. by rewrite app_nil_r. Qed.

Lemma emits_bind {A B} (m : F (Traced Node) A) (f : A -> F (Traced Node) B) (R : result AppError A -> list Event -> Prop) (Q : result AppError B -> list Event -> Prop) :
  emits m R -> (forall e l, R (Err e) l -> Q (Err e) l) -> (forall a l, R (Ok a) l -> emits (f a) (fun r l' => Q r (l ++ l'))) -> emits (bind m f) Q.
Proof.
  intros Hm He Hf s. destruct (Hm s) as (l & Hl & HR). unfold bind. destruct (m s) as [[a|e] s'] eqn:E; cbn in *.
  - destruct (Hf a l HR s') as (l' & Hl' & HQ). exists (l ++ l'). split; [by rewrite Hl', Hl, app_assoc|done].
  - eauto.
Qed.

Lemma emits_attempt {A} (m : F (Traced Node) A) (Q : result AppError (result AppError A) -> list Event -> Prop) :
  emits m (fun r l => Q (Ok r) l) -> emits (attempt m) Q.
Proof. intros Hm s. destruct (Hm s) as (l & Hl & HQ). unfold attempt. destruct (m s) as [r s']. eauto. Qed.

Lemma emits_run command (Q : result AppError CommandOutput -> list Event -> Prop) :
  (forall r, Q (match r with Ok out => Ok out | Err m => Err (Transport m) end) [Ran command r]) -> emits (run_command command) Q.
Proof.
  intros HQ s. unfold run_command. cbn [execute_command traced_connection]. unfold traced. destruct (execute_command command (tr_node (fw_node s))) as [r n]. cbn. eauto.
Qed.

Lemma emits_call {A} (event : result AppError A -> Event) (f : Node -> result AppError A * Node) (Q : result AppError A -> list Event -> Prop) :
  (forall r, Q r [event r]) -> emits (call (traced event f)) Q.
Proof. intros HQ s. unfold call, traced. destruct (f (tr_node (fw_node s))) as [r n]. cbn. eauto. Qed.

Lemma emits_put path bytes (Q : result AppError unit -> list Event -> Prop) :
  (forall r, Q r [Wrote path]) -> emits (put_file path bytes) Q.
Proof.
  intros HQ s. unfold put_file. cbn [write_file traced_connection]. unfold traced. destruct (write_file path bytes (tr_node (fw_node s))) as [r n]. cbn. eauto.
Qed.

Lemma emits_fresh (Q : result AppError (list Z) -> list Event -> Prop) : (forall id, Q (Ok id) []) -> emits fresh_uuid Q.
Proof. intros HQ s. exists []. cbn. by rewrite app_nil_r. Qed.

(** ** One script after another *)

Definition succeeded (answer : result (list Z) CommandOutput) : bool := match answer with Ok out => out.(exit_code) =? 0 | Err _ => false end.

(** Scripts sent in order up to the first that cannot be written or fails; the last argument says whether all went through. *)
Inductive RunAll : list (result AppError (list Z)) -> list Event -> bool -> Prop :=
| run_nil : RunAll [] [] true
| run_ok script scripts answer l ok : succeeded answer = true -> RunAll scripts l ok -> RunAll (Ok script :: scripts) (Ran script answer :: l) ok
| run_fail script scripts answer : succeeded answer = false -> RunAll (Ok script :: scripts) [Ran script answer] false
| run_refused e scripts : RunAll (Err e :: scripts) [] false.

Lemma emits_run_checked script what : emits (run_checked script what) (fun r l => RunAll [script] l (is_ok_result r)).
Proof.
  destruct script as [script|e]; [|apply emits_throw; constructor]. unfold run_checked, run_script.
  apply (emits_bind _ _ (fun r l => exists answer, l = [Ran script answer] /\ match r with Ok out => answer = Ok out | Err _ => succeeded answer = false end)).
  - apply emits_run. intros r. exists r. split; [done|]. by destruct r.
  - intros e l (answer & -> & Ha). by constructor.
  - intros out l (answer & -> & ->). destruct (exit_code out =? 0) eqn:E; cbn [negb].
    + apply emits_ret. cbn. apply run_ok; [done|constructor].
    + apply emits_throw. cbn. by apply run_fail.
Qed.

Lemma run_all_app script scripts l1 l2 ok : RunAll [script] l1 true -> RunAll scripts l2 ok -> RunAll (script :: scripts) (l1 ++ l2) ok.
Proof. intros H1 H2. inversion H1 as [|? ? ? ? ? Hs Hr| |]; subst. inversion Hr; subst. cbn. by constructor. Qed.

Lemma run_all_stop script scripts l : RunAll [script] l false -> RunAll (script :: scripts) l false.
Proof. intros H1. inversion H1 as [|? ? ? ? ? ? Hr| |]; subst; [inversion Hr|by constructor|by constructor]. Qed.

Lemma emits_then script what (m : F (Traced Node) unit) scripts :
  emits m (fun r l => RunAll scripts l (is_ok_result r)) -> emits (run_checked script what ;;; m) (fun r l => RunAll (script :: scripts) l (is_ok_result r)).
Proof.
  intros Hm. apply (emits_bind _ _ _ _ (emits_run_checked script what)).
  - intros e l Hl. by apply run_all_stop.
  - intros [] l Hl. eapply emits_conseq; [exact Hm|]. intros r l' Hr. by apply run_all_app.
Qed.

Definition grant_scripts (member : CloudMemberAccess) (rules : list ApplicationRules) : list (result AppError (list Z)) :=
  [provision_script member.(cl_node_username); authorized_keys_script member.(cl_node_username) member.(cl_public_keys);
   sudoers_script member.(cl_node_username) member.(cl_permissions) rules].

Lemma emits_grant_one member rules : emits (grant_one member rules) (fun r l => RunAll (grant_scripts member rules) l (is_ok_result r)).
Proof. unfold grant_one. apply emits_then, emits_then, emits_run_checked. Qed.
End traced.

Section reports.
Context {Node : Type} `{Connection Node} `{Services Node}.
Context (HELPER_SCRIPT CONSOLE_WRITER_SCRIPT : list Z) (to_string : AppError -> list Z).

(** What is reported of a member, against what was sent for the member. *)
Definition grant_reported (p : CloudMemberAccess * list ApplicationRules) (reported : MemberAccessResult) (l : list Event) : Prop :=
  let '(member, rules) := p in
  (reported.(mr_user_id), reported.(mr_email), reported.(mr_node_username)) = (member.(cl_user_id), member.(cl_email), member.(cl_node_username)) /\
  (reported.(mr_granted) = true -> reported.(mr_error) = None) /\
  if reported.(mr_has_key) then
    member.(cl_public_keys) <> [] /\
    (RunAll (grant_scripts member rules) l reported.(mr_granted) \/
     l = [] /\ reported.(mr_granted) = false /\ (needs_console_writer member rules || needs_firewall_helper member) = true)
  else member.(cl_public_keys) = [] /\ reported.(mr_granted) = false /\ l = [].

Lemma emits_grant_member console_writer firewall_helper member rules :
  emits (Node := Node) (grant_member to_string console_writer firewall_helper member rules)
    (fun r l => match r with Ok reported => grant_reported (member, rules) reported l | Err _ => False end).
Proof.
  unfold grant_member. destruct (cl_public_keys member) as [|key keys] eqn:Ek; [by apply emits_ret|].
  set (attempted := match console_writer, firewall_helper with Err _, _ => _ | _, _ => _ end).
  assert (Ha : emits (Node := Node) attempted (fun r l => RunAll (grant_scripts member rules) l (is_ok_result r) \/
    l = [] /\ is_ok_result r = false /\ (needs_console_writer member rules || needs_firewall_helper member) = true)).
  { assert (Hg : emits (Node := Node) (grant_one member rules) (fun r l => RunAll (grant_scripts member rules) l (is_ok_result r) \/
      l = [] /\ is_ok_result r = false /\ (needs_console_writer member rules || needs_firewall_helper member) = true)).
    { eapply emits_conseq; [apply emits_grant_one|]. auto. }
    unfold attempted. destruct console_writer as [?|e1], firewall_helper as [?|e2]; [done| | |];
      repeat case_match; try exact Hg; apply emits_throw; right; split_and!; try done; rewrite ?orb_true_r; done. }
  apply (emits_bind _ _ (fun r l => match r with Ok outcome => RunAll (grant_scripts member rules) l (is_ok_result outcome) \/
    l = [] /\ is_ok_result outcome = false /\ (needs_console_writer member rules || needs_firewall_helper member) = true | Err _ => False end)).
  - apply emits_attempt. eapply emits_conseq; [exact Ha|]. auto.
  - done.
  - intros outcome l Hl. apply emits_ret. rewrite app_nil_r. cbn. split_and!; [done|by destruct outcome|congruence|done].
Qed.

Lemma emits_grant_members console_writer firewall_helper members :
  emits (Node := Node) (grant_members to_string console_writer firewall_helper members)
    (fun r l => exists reports logs, r = Ok reports /\ l = concat logs /\ length reports = length members /\ length logs = length members /\
       Forall (fun x => grant_reported x.1.1 x.1.2 x.2) (zip (zip members reports) logs)).
Proof.
  induction members as [|[member rules] members IH]; cbn [grant_members]; [apply emits_ret; exists [], []; cbn; auto|].
  eapply emits_bind; [apply emits_grant_member|done|]. intros reported l Hr. eapply emits_bind; [exact IH|by intros e l' (? & ? & ? & _)|].
  intros others l' (reports & logs & [= ->] & -> & Hlr & Hll & Hall). apply emits_ret. exists (reported :: reports), (l :: logs).
  cbn. rewrite app_nil_r. split_and!; [done|done|lia|lia|]. by constructor.
Qed.

(** What is reported of a revocation, against what was sent for it. *)
Definition revocation_reported (row : CloudNodeRevocation) (reported : RevocationResult) (l : list Event) : Prop :=
  (reported.(rr_id), reported.(rr_email), reported.(rr_node_username)) = (row.(cr_id), row.(cr_email), row.(cr_node_username)) /\
  (RunAll [revoke_script row.(cr_node_username)] l false /\ reported.(rr_completed) = false \/
   exists l' answer, RunAll [revoke_script row.(cr_node_username)] l' true /\ l = l' ++ [Completed row.(cr_id) answer] /\ reported.(rr_completed) = is_ok_result answer).

Lemma emits_revoke_each team_id rows :
  emits (Node := Node) (revoke_each to_string team_id rows)
    (fun r l => exists reports logs, r = Ok reports /\ l = concat logs /\ length reports = length rows /\ length logs = length rows /\
       Forall (fun x => revocation_reported x.1.1 x.1.2 x.2) (zip (zip rows reports) logs)).
Proof.
  induction rows as [|row rows IH]; cbn [revoke_each]; [apply emits_ret; exists [], []; cbn; auto|].
  apply (emits_bind _ _ (fun r l => match r with
    | Ok outcome => RunAll [revoke_script row.(cr_node_username)] l false /\ is_ok_result outcome = false \/
        exists l' answer, RunAll [revoke_script row.(cr_node_username)] l' true /\ l = l' ++ [Completed row.(cr_id) answer] /\ is_ok_result outcome = is_ok_result answer
    | Err _ => False end)).
  - apply emits_attempt. eapply emits_bind; [apply emits_run_checked| |].
    + intros e l Hl. by left.
    + intros [] l Hl. apply (emits_call (Completed row.(cr_id))). intros r. right. by exists l, r.
  - done.
  - intros outcome l Hl. eapply emits_bind; [exact IH|by intros e l' (? & ? & ? & _)|].
    intros others l' (reports & logs & [= ->] & -> & Hlr & Hll & Hall). apply emits_ret.
    eexists (_ :: reports), (l :: logs). split; [reflexivity|]. cbn. rewrite app_nil_r. split_and!; [done|lia|lia|]. constructor; [|done].
    split; [done|]. exact Hl.
Qed.
End reports.

(** ** Preparations *)

Definition setup (e : Event) : Prop := match e with Ran _ _ | Wrote _ => True | _ => False end.

Section preparations.
Context {Node : Type} `{Connection Node} `{Services Node}.
Context (HELPER_SCRIPT CONSOLE_WRITER_SCRIPT : list Z) (to_string : AppError -> list Z).

Definition prepares {A} (m : F (Traced Node) A) : Prop := emits m (fun _ l => Forall setup l).

Lemma prepares_ret {A} (a : A) : prepares (ret a).
Proof. apply emits_ret. constructor. Qed.
Lemma prepares_throw {A} e : prepares (throw (A := A) e).
Proof. apply emits_throw. constructor. Qed.
Lemma prepares_bind {A B} (m : F (Traced Node) A) (f : A -> F (Traced Node) B) : prepares m -> (forall a, prepares (f a)) -> prepares (bind m f).
Proof.
  intros Hm Hf. eapply emits_bind; [exact Hm|done|]. intros a l Hl. eapply emits_conseq; [apply Hf|]. intros r l' Hl'. by apply Forall_app.
Qed.
Lemma prepares_attempt {A} (m : F (Traced Node) A) : prepares m -> prepares (attempt m).
Proof. intros Hm. by apply emits_attempt. Qed.
Lemma prepares_if {A} (b : bool) (m1 m2 : F (Traced Node) A) : prepares m1 -> prepares m2 -> prepares (if b then m1 else m2).
Proof. by destruct b. Qed.
Lemma prepares_run command : prepares (run_command command).
Proof. apply emits_run. intros r. by repeat constructor. Qed.
Lemma prepares_put path bytes : prepares (put_file path bytes).
Proof. apply emits_put. intros r. by repeat constructor. Qed.
Lemma prepares_fresh : prepares fresh_uuid.
Proof. apply emits_fresh. constructor. Qed.
End preparations.

Create HintDb prepares.
#[export] Hint Resolve prepares_ret prepares_throw prepares_bind prepares_attempt prepares_if prepares_run prepares_put prepares_fresh : prepares.

Section sync_report.
Context {Node : Type} `{Connection Node} `{Services Node}.
Context (HELPER_SCRIPT CONSOLE_WRITER_SCRIPT : list Z) (to_string : AppError -> list Z).

Lemma prepares_console_writer : prepares (Node := Node) (ensure_console_writer_installed CONSOLE_WRITER_SCRIPT).
Proof. unfold ensure_console_writer_installed. apply prepares_bind; [auto with prepares|]. intros deployed. apply prepares_if; [auto with prepares|]. auto 10 with prepares. Qed.

Lemma prepares_helper : prepares (Node := Node) (ensure_helper_installed HELPER_SCRIPT).
Proof.
  intros s. unfold ensure_helper_installed. case_bool_decide; [by apply prepares_ret|].
  match goal with |- exists l, _ = _ /\ _ => idtac end.
  match goal with |- context [(?m s).2] => enough (Hm : prepares (Node := Node) m) by apply (Hm s) end.
  apply prepares_bind; [auto with prepares|]. intros deployed. apply prepares_bind; [auto 10 with prepares|]. intros _ s'. exists []. cbn. by rewrite app_nil_r.
Qed.

(** The rules the grants earn on this Node, all of them or without the file rules of accounts that are missing. *)
Definition rules_for (members : list CloudMemberAccess) (team_server_id : N) (rules : list (list ApplicationRules)) : Prop :=
  let earned := map (fun member => application_rules_on member team_server_id) members in
  rules = earned \/ exists present, rules = map (map (drop_file_rule present)) earned.

Lemma emits_drop_file_rules members team_server_id :
  emits (Node := Node) (drop_file_rules_without_an_account (map (fun member => application_rules_on member team_server_id) members))
    (fun r l => Forall setup l /\ match r with Ok rules => rules_for members team_server_id rules | Err _ => True end).
Proof.
  unfold drop_file_rules_without_an_account. destruct (file_accounts _) as [|account accounts]; [apply emits_ret; split; [constructor|by left]|].
  apply (emits_bind _ _ (fun _ l => Forall setup l)); [apply prepares_attempt, prepares_run|done|].
  intros [output|e] l Hl; apply emits_ret; rewrite app_nil_r; (split; [done|]); [right; eauto|by left].
Qed.

Lemma zip_rules_length members team_server_id rules : rules_for members team_server_id rules -> length (zip members rules) = length members.
Proof.
  intros Hr. rewrite length_zip_with. assert (length rules = length members); [|lia]. destruct Hr as [->|[present ->]]; by rewrite ?length_map.
Qed.

Lemma emits_complete_revocations team_id team_server_id :
  emits (Node := Node) (complete_revocations to_string team_id team_server_id) (fun r l =>
    match r with
    | Ok reports => exists pending rlogs, l = ReadPending (Ok pending) :: concat rlogs /\
        let rows := List.filter (fun row => bool_decide (row.(cr_team_server_id) = team_server_id)) pending in
        length reports = length rows /\ length rlogs = length rows /\ Forall (fun x => revocation_reported x.1.1 x.1.2 x.2) (zip (zip rows reports) rlogs)
    | Err _ => True
    end).
Proof.
  unfold complete_revocations. apply (emits_bind _ _ (fun r l => l = [ReadPending r])); [by apply (emits_call ReadPending)|done|]. intros pending l ->.
  eapply emits_conseq; [apply emits_revoke_each|]. intros r l (reports & rlogs & -> & -> & Hall). by exists pending, rlogs.
Qed.

(** C13: A sync reports exactly what it did.  Each member of the list the backend
    gave is attempted, whatever became of the others; a member is reported as
    granted just when the account, the keys and the sudo rules were all
    written, in this order, each with exit code zero.  A revocation of this
    Node, and of no other, is confirmed to the backend only right after the
    Node carried the revoke script out, and reported as completed only if that
    confirmation arrived. *)
Theorem sync_reports_what_was_done server_id team_id team_server_id s sync :
  (sync_team_access (Node := Traced Node) HELPER_SCRIPT CONSOLE_WRITER_SCRIPT to_string server_id team_id team_server_id s).1 = Ok sync ->
  exists members rules pre logs pending rlogs,
    (sync_team_access (Node := Traced Node) HELPER_SCRIPT CONSOLE_WRITER_SCRIPT to_string server_id team_id team_server_id s).2.(fw_node).(tr_log) =
      s.(fw_node).(tr_log) ++ [ReadAccess (Ok members); Connected (Ok tt)] ++ pre ++ concat logs ++ ReadPending (Ok pending) :: concat rlogs /\
    Forall setup pre /\ rules_for members team_server_id rules /\
    length sync.(ns_members) = length members /\ length logs = length members /\
    Forall (fun x => grant_reported x.1.1 x.1.2 x.2) (zip (zip (zip members rules) sync.(ns_members)) logs) /\
    let rows := List.filter (fun row => bool_decide (row.(cr_team_server_id) = team_server_id)) pending in
    length sync.(ns_revocations) = length rows /\ length rlogs = length rows /\
    Forall (fun x => revocation_reported x.1.1 x.1.2 x.2) (zip (zip rows sync.(ns_revocations)) rlogs).
Proof.
  cut (emits (Node := Node) (sync_team_access HELPER_SCRIPT CONSOLE_WRITER_SCRIPT to_string server_id team_id team_server_id) (fun r l => forall sync, r = Ok sync ->
    exists members rules pre logs pending rlogs,
    l = [ReadAccess (Ok members); Connected (Ok tt)] ++ pre ++ concat logs ++ ReadPending (Ok pending) :: concat rlogs /\
    Forall setup pre /\ rules_for members team_server_id rules /\
    length sync.(ns_members) = length members /\ length logs = length members /\
    Forall (fun x => grant_reported x.1.1 x.1.2 x.2) (zip (zip (zip members rules) sync.(ns_members)) logs) /\
    let rows := List.filter (fun row => bool_decide (row.(cr_team_server_id) = team_server_id)) pending in
    length sync.(ns_revocations) = length rows /\ length rlogs = length rows /\
    Forall (fun x => revocation_reported x.1.1 x.1.2 x.2) (zip (zip rows sync.(ns_revocations)) rlogs))).
  { intros Hm Hs. destruct (Hm s) as (l & Hl & HQ). destruct (HQ sync Hs) as (members & rules & pre & logs & pending & rlogs & -> & Hrest).
    exists members, rules, pre, logs, pending, rlogs. split; [exact Hl|exact Hrest]. }
  unfold sync_team_access. apply (emits_bind _ _ (fun r l => l = [ReadAccess r])); [by apply (emits_call ReadAccess)|done|]. intros members l ->.
  apply (emits_bind _ _ (fun r l => l = [Connected r])); [by apply (emits_call Connected)|done|]. intros [] l ->.
  eapply emits_bind; [apply emits_drop_file_rules|done|]. intros rules pre1 [Hp1 Hrules].
  apply (emits_bind _ _ (fun _ l => Forall setup l)); [apply prepares_attempt, prepares_if; [apply prepares_console_writer|apply prepares_ret]|done|]. intros console_writer pre2 Hp2.
  apply (emits_bind _ _ (fun _ l => Forall setup l)); [apply prepares_attempt, prepares_if; [apply prepares_helper|apply prepares_ret]|done|]. intros firewall_helper pre3 Hp3.
  eapply emits_bind; [apply emits_grant_members|by intros e l' (? & ? & ? & _)|]. intros reports l (reports' & logs & [= <-] & -> & Hlr & Hll & Hall).
  eapply emits_bind; [apply emits_complete_revocations|done|]. intros revocations l (pending & rlogs & -> & Hrev). apply emits_ret. intros sync' [= <-].
  exists members, rules, (pre1 ++ pre2 ++ pre3), logs, pending, rlogs. rewrite (zip_rules_length _ _ _ Hrules) in Hlr, Hll. rewrite app_nil_r. split.
  - rewrite <-!app_assoc. done.
  - split; [by rewrite !Forall_app|]. split_and!; try done. all: apply Hrev.
Qed.
End sync_report.

(** ** A world to run it in *)

(** The backend's answers; every command succeeds and prints nothing. *)
Module SampleWorld.
Record World : Type := mkWorld { w_members : list CloudMemberAccess; w_pending : list CloudNodeRevocation }.

#[global] Instance world_connection : Connection World := {
  execute_command _ w := (Ok (mkOutput 0 [] []), w);
  write_file _ _ w := (Ok tt, w);
  session_id _ := 0%N;
}.
#[global] Instance world_services : Services World := {
  list_team_access _ w := (Ok w.(w_members), w);
  list_pending_revocations _ w := (Ok w.(w_pending), w);
  complete_revocation _ _ w := (Ok tt, w);
  get_or_connect _ w := (Ok tt, w);
}.

Definition ada (keys : list (list Z)) : CloudMemberAccess := mkCloudMember 1 (lit "ada@example.com") (lit "Ada") (lit "vibessh-m-0123456789ab") keys [lit "applications.view"] [].
Definition gone : CloudNodeRevocation := mkCloudRevocation 9 5 (lit "node") (lit "203.0.113.5") 22 2 (lit "vibessh-m-ba9876543210") (lit "gone@example.com") 0.

Definition start (w : World) : FwState (Traced World) := mkFw (mkTraced w []) ∅ 0.
Definition synced (w : World) : result AppError NodeAccessSync * FwState (Traced World) := sync_team_access [] [] (fun _ => []) 3 4 5 (start w).
End SampleWorld.

Lemma sync_reports_what_was_done_witness :
  exists sync, (SampleWorld.synced (SampleWorld.mkWorld [SampleWorld.ada [lit "ssh-ed25519 AAAA"]] [SampleWorld.gone])).1 = Ok sync /\
  map mr_granted sync.(ns_members) = [true] /\ length sync.(ns_revocations) = 1%nat /\
  exists (members : list CloudMemberAccess) pending, length sync.(ns_members) = length members /\
    length sync.(ns_revocations) = length (List.filter (fun row => bool_decide (row.(cr_team_server_id) = 5%N)) pending).
Proof.
  set (w := SampleWorld.mkWorld _ _). destruct (fst (SampleWorld.synced w)) as [sync|] eqn:E; [|by vm_compute in E]. exists sync. split; [done|].
  destruct (sync_reports_what_was_done [] [] (fun _ => []) 3 4 5 (SampleWorld.start w) sync E) as (members & rules & pre & logs & pending & rlogs & _ & _ & _ & Hm & _ & _ & Hr & _).
  split_and!; [vm_compute in E; injection E as <-; reflexivity|vm_compute in E; injection E as <-; reflexivity|]. by exists members, pending.
Defined.

(** A member whose last device was removed has no key left to install, and the
    sync passes over the member: nothing is sent to the Node, so the key that
    was installed before, and the sudo rules, stay in place. *)
Example last_removed_key_stays :
  let '(r, s) := SampleWorld.synced (SampleWorld.mkWorld [SampleWorld.ada []] []) in
  r = Ok (mkNodeSync [mkMemberResult 1 (lit "ada@example.com") (lit "vibessh-m-0123456789ab") false false None []] []) /\
  forall command answer, ~ Ran command answer ∈ s.(fw_node).(tr_log).
Proof.
  vm_compute. split; [reflexivity|]. intros command answer Hin. repeat (apply elem_of_cons in Hin as [Hin|Hin]; [discriminate Hin|]). by apply elem_of_nil in Hin.
Qed.
