(* ===== verification/Mesh.v ===== *)
(** * Mesh: the private network's addresses and its WireGuard configuration

    [apps/desktop/src-tauri/src/storage/node_network_repository.rs] (the
    ledger of members and the allocation of addresses) and
    [network/wireguard.rs] (a Node's configuration as a script, and what
    [wg show] says). *)

From S2P Require Import Prelude Text Shell Sandbox Validators Ufw Firewall Sudoers MemberAccount.

#[local] Open Scope Z_scope.
#[local] Open Scope vibe_scope.

(** ** The ledger *)

Record NodeNetworkMember : Type := mkMember { nm_server_id : N; nm_wireguard_ip : list Z; nm_wireguard_public_key : list Z; nm_joined_at : Z }.

(** The table [node_network_members]: [server_id] is its key, [wireguard_ip] is unique. *)
Definition Ledger : Type := list NodeNetworkMember.

Definition MESH_CIDR_SECOND_OCTET : Z := 77.
Definition LAST_CANDIDATE : Z := 65534.

Definition candidate_ip (candidate : Z) : list Z :=
  lit "10." ++ to_dec MESH_CIDR_SECOND_OCTET ++ lit "." ++ to_dec (Z.land (Z.shiftr candidate 8) 255) ++ lit "." ++ to_dec (Z.land candidate 255).

(** The loop over the candidates, [fuel] of them from [candidate] on. *)
Fixpoint first_free (fuel : nat) (candidate : Z) (taken : list (list Z)) : option (list Z) :=
  match fuel with
  | O => None
  | S fuel =>
      let ip := candidate_ip candidate in
      if negb (existsb (str_eqb ip) taken) then Some ip else first_free fuel (candidate + 1) taken
  end.

Definition exhausted : AppError := InvalidInput (mkInvalid (lit "the Vibe Network address range") (Other (lit "is exhausted"))).

Definition allocate_ip (ledger : Ledger) : result AppError (list Z) :=
  ok_or (first_free (Z.to_nat LAST_CANDIDATE) 1 (map nm_wireguard_ip ledger)) exhausted.

(** [INSERT]: refused when a unique column would repeat. *)
Definition insert_member (ledger : Ledger) (member : NodeNetworkMember) : result AppError Ledger :=
  if existsb (fun row => (row.(nm_server_id) =? member.(nm_server_id))%N || str_eqb row.(nm_wireguard_ip) member.(nm_wireguard_ip)) ledger
  then Err (Storage (lit "failed to record network membership")) else Ok (ledger ++ [member]).

Definition join_ (ledger : Ledger) (server_id : N) (wireguard_public_key : list Z) (now : Z) : result AppError (NodeNetworkMember * Ledger) :=
  let? wireguard_ip := allocate_ip ledger in
  let member := mkMember server_id wireguard_ip wireguard_public_key now in
  let? ledger := insert_member ledger member in
  Ok (member, ledger).

Definition leave (ledger : Ledger) (server_id : N) : result AppError Ledger :=
  if existsb (fun row => (row.(nm_server_id) =? server_id)%N) ledger then Ok (List.filter (fun row => negb (row.(nm_server_id) =? server_id)%N) ledger)
  else Err NotFound.

Definition get_member (ledger : Ledger) (server_id : N) : option NodeNetworkMember := find_first (fun row => (row.(nm_server_id) =? server_id)%N) ledger.

(** [ORDER BY wireguard_ip]: as text. *)
Definition list_members (ledger : Ledger) : list NodeNetworkMember := sort_by (fun a b => str_ltb a.(nm_wireguard_ip) b.(nm_wireguard_ip)) ledger.

(** ** The configuration *)

Definition INTERFACE : list Z := lit "wg-vibessh0".
Definition PRIVATE_KEY_PATH : list Z := lit "/etc/wireguard/vibessh-privatekey".
Definition CONFIG_PATH : list Z := lit "/etc/wireguard/wg-vibessh0.conf".
Definition ADDRESS_CIDR_SUFFIX : list Z := lit "/16".
Definition SERVICE : list Z := lit "wg-quick@" ++ lit "wg-vibessh0".
Definition RUNTIME_DIR : list Z := lit "/run/vibessh".
Definition CONSOLE_DIR : list Z := lit "/run/vibessh/console".

Record Peer : Type := mkPeer { pe_public_key : list Z; pe_allowed_ip : list Z; pe_endpoint : list Z }.

(** A validator's failure as an [AppError]. *)
Definition checked (r : AppResult unit) : result AppError unit := match r with Ok _ => Ok tt | Err e => Err (InvalidInput e) end.

Definition validate_peer (peer : Peer) : result AppError unit :=
  let? _ := checked (validate_wireguard_key peer.(pe_public_key) (lit "a peer's public key")) in
  let? _ := checked (validate_ipv4_cidr peer.(pe_allowed_ip) (lit "a peer's allowed IP")) in
  match rsplit_once 58 peer.(pe_endpoint) with
  | None => Err (InvalidInput (mkInvalid (lit "a peer's endpoint") (Other (lit "must be host:port"))))
  | Some (host, port) =>
      let? _ := checked (validate_host host (lit "a peer's endpoint host")) in
      match parse_u16 port with
      | Some _ => Ok tt
      | None => Err (InvalidInput (mkInvalid (lit "a peer's endpoint port") (Other (lit "isn't a valid port number"))))
      end
  end.

Fixpoint validate_peers (peers : list Peer) : result AppError unit :=
  match peers with
  | [] => Ok tt
  | peer :: peers => let? _ := validate_peer peer in validate_peers peers
  end.

Definition peer_lines (peer : Peer) : list (list Z) :=
  [lit "printf '\n[Peer]\n'";
   lit "printf 'PublicKey = %s\n' " ++ quote peer.(pe_public_key);
   lit "printf 'AllowedIPs = %s\n' " ++ quote peer.(pe_allowed_ip);
   lit "printf 'Endpoint = %s\n' " ++ quote peer.(pe_endpoint);
   lit "printf 'PersistentKeepalive = 25\n'"].

Definition build_config_pipeline (own_ip : list Z) (peers : list Peer) : list Z :=
  join ([10] ++ lit "  ")
    ([lit "printf '[Interface]\n'";
      lit "printf 'Address = %s\n' " ++ quote (own_ip ++ ADDRESS_CIDR_SUFFIX);
      lit "printf 'PrivateKey = '";
      lit "sudo cat " ++ quote PRIVATE_KEY_PATH ++ lit " | tr -d '\n'";
      lit "printf '\n'";
      lit "printf 'ListenPort = %s\n' " ++ quote (to_dec LISTEN_PORT)] ++ (peers ≫= peer_lines)).

Definition ensure_runtime_dirs_command : list Z :=
  lit "sudo install -d -o root -g root -m 755 " ++ RUNTIME_DIR ++ qlit " && sudo install -d -o `$(id -un)` -g `$(id -gn)` -m 700 " ++ CONSOLE_DIR.

Definition build_apply_script (own_ip : list Z) (peers : list Peer) : result AppError (list Z) :=
  let? _ := checked (validate_ipv4 own_ip (lit "the Node's own mesh IP")) in
  let? _ := validate_peers peers in
  let nl := [10] in
  let config_path := quote CONFIG_PATH in
  Ok (lit "set -e" ++ nl
      ++ lit "umask 077" ++ nl
      ++ lit "sudo mkdir -p /etc/wireguard" ++ nl
      ++ ensure_runtime_dirs_command ++ nl
      ++ lit "{" ++ nl ++ lit "  " ++ build_config_pipeline own_ip peers ++ nl ++ lit "} | sudo tee " ++ config_path ++ lit " >/dev/null" ++ nl
      ++ lit "sudo chmod 600 " ++ config_path ++ nl
      ++ lit "if sudo ip link show " ++ INTERFACE ++ lit " >/dev/null 2>&1; then" ++ nl
      ++ lit "  strip_conf=$(sudo mktemp " ++ RUNTIME_DIR ++ lit "/wg-strip.XXXXXX)" ++ nl
      ++ lit "  sudo wg-quick strip " ++ INTERFACE ++ qlit " | sudo tee `$strip_conf` >/dev/null" ++ nl
      ++ lit "  sudo wg syncconf " ++ INTERFACE ++ qlit " `$strip_conf`" ++ nl
      ++ qlit "  sudo rm -f `$strip_conf`" ++ nl
      ++ lit "else" ++ nl
      ++ lit "  sudo wg-quick up " ++ INTERFACE ++ nl
      ++ lit "fi" ++ nl
      ++ lit "sudo systemctl enable " ++ SERVICE ++ qlit " >/dev/null 2>&1 || { echo `couldn't enable " ++ SERVICE
      ++ qlit ", so the tunnel would not come back after a reboot` >&2; exit 1; }" ++ nl).

(** ** What [wg show] says *)

Record PeerStatus : Type := mkPeerStatus { ps_public_key : list Z; ps_latest_handshake_unix : Z; ps_rx_bytes : Z; ps_tx_bytes : Z }.

Definition parse_u64 : list Z -> option Z := parse_unsigned 18446744073709551615.

Definition parse_dump_line (line : list Z) : option PeerStatus :=
  match split_on (Z.eqb 9) line with
  | f0 :: _ :: _ :: _ :: f4 :: f5 :: f6 :: _ => Some (mkPeerStatus f0 (default 0 (parse_u64 f4)) (default 0 (parse_u64 f5)) (default 0 (parse_u64 f6)))
  | _ => None
  end.

Definition parse_wg_dump (output : list Z) : list PeerStatus := omap parse_dump_line (drop 1 (lines output)).

Inductive InterfaceState : Type := Up (peers : list PeerStatus) | Missing | Unreadable (detail : list Z).

(** [format!("wg show exited with {exit_code}")], whose number may be negative. *)
Definition show_int (n : Z) : list Z := if n <? 0 then lit "-" ++ to_dec (- n) else to_dec n.

Definition classify_show_output (exit_code : Z) (stdout stderr : list Z) : InterfaceState :=
  if exit_code =? 0 then Up (parse_wg_dump stdout)
  else
    let detail := trim stderr in
    let lower := map to_ascii_lowercase detail in
    if contains_str (lit "no such device") lower || contains_str (lit "unable to access interface") lower || contains_str (lit "no such file or directory") lower
    then Missing
    else Unreadable (if is_empty detail then lit "wg show exited with " ++ show_int exit_code else detail).

Definition teardown_script : list Z :=
  lit "sudo systemctl stop " ++ SERVICE ++ lit " >/dev/null 2>&1; "
  ++ lit "sudo wg-quick down " ++ INTERFACE ++ lit " >/dev/null 2>&1; "
  ++ lit "sudo systemctl disable " ++ SERVICE ++ lit " >/dev/null 2>&1; "
  ++ lit "sudo rm -f " ++ CONFIG_PATH ++ lit "; "
  ++ lit "if sudo ip link show " ++ INTERFACE ++ lit " >/dev/null 2>&1; then echo up; "
  ++ lit "elif systemctl is-enabled --quiet " ++ SERVICE ++ lit " 2>/dev/null; then echo enabled; "
  ++ lit "else echo down; fi".

(** ** Addresses *)

Lemma candidate_ip_show c : 0 <= c < 65536 -> candidate_ip c = show_ipv4 (of_octets 10 77 (c / 256) (c mod 256)).
Proof.
  intros Hc. rewrite show_ipv4_octets by zdm. unfold candidate_ip, show_octets, MESH_CIDR_SECOND_OCTET.
  rewrite Z.shiftr_div_pow2 by lia. change 255 with (Z.ones 8). rewrite !Z.land_ones by lia. change (2 ^ 8) with 256.
  rewrite (Z.mod_small (c / 256)) by zdm. reflexivity.
Qed.

Lemma candidate_ip_inj c d : 0 <= c < 65536 -> 0 <= d < 65536 -> candidate_ip c = candidate_ip d -> c = d.
Proof.
  intros Hc Hd. rewrite !candidate_ip_show by done. intros Heq. apply (f_equal parse_ipv4) in Heq. change (2 ^ 32) with 4294967296 in *.
  rewrite !parse_show_ipv4 in Heq by (unfold of_octets; change (2 ^ 32) with 4294967296; zdm). injection Heq as Heq. revert Heq. unfold of_octets. zdm.
Qed.

Lemma first_free_spec fuel : forall candidate taken,
  match first_free fuel candidate taken with
  | Some ip => exists k, candidate <= k < candidate + Z.of_nat fuel /\ ip = candidate_ip k /\ ~ candidate_ip k ∈ taken /\ forall j, candidate <= j < k -> candidate_ip j ∈ taken
  | None => forall j, candidate <= j < candidate + Z.of_nat fuel -> candidate_ip j ∈ taken
  end.
Proof.
  induction fuel as [|fuel IH]; intros candidate taken; cbn [first_free]; [lia|].
  destruct (existsb (str_eqb (candidate_ip candidate)) taken) eqn:E; cbn [negb].
  - apply existsb_elem_of in E as (x & Hx & <-%bool_decide_eq_true). specialize (IH (candidate + 1) taken).
    destruct (first_free fuel (candidate + 1) taken).
    + destruct IH as (k & Hk & -> & Hn & Hall). exists k. split_and!; [lia|lia|done|done|]. intros j Hj. destruct (decide (j = candidate)) as [->|]; [done|]. apply Hall. lia.
    + intros j Hj. destruct (decide (j = candidate)) as [->|]; [done|]. apply IH. lia.
  - exists candidate. split_and!; [lia|lia|done| |lia]. intros Hin. rewrite existsb_false_elem_of in E. specialize (E _ Hin). by apply bool_decide_eq_false in E.
Qed.

(** All addresses taken means that many members. *)
Lemma candidates_taken (n : nat) taken : Z.of_nat n < 65536 -> (forall j, 1 <= j < 1 + Z.of_nat n -> candidate_ip j ∈ taken) -> (n <= length taken)%nat.
Proof.
  intros Hn Hall. set (ips := map (fun k => candidate_ip (Z.of_nat k)) (seq 1 n)).
  assert (Hnd : NoDup ips).
  { apply NoDup_fmap_2_strong; [|apply NoDup_seq]. intros a b Ha%elem_of_seq Hb%elem_of_seq Heq. apply candidate_ip_inj in Heq; lia. }
  assert (Hsub : ips ⊆ taken).
  { intros x (k & -> & Hk%elem_of_seq)%list_elem_of_fmap. apply Hall. lia. }
  assert (Hlen : (length ips <= length taken)%nat).
  { apply List.NoDup_incl_length; [by apply NoDup_ListNoDup|]. intros x Hx. apply list_elem_of_In, Hsub, list_elem_of_In. exact Hx. }
  unfold ips in Hlen. rewrite length_map, length_seq in Hlen. exact Hlen.
Qed.

(** ** The ledger over time *)

Record LedgerOk (ledger : Ledger) : Prop := {
  lo_ips : NoDup (map nm_wireguard_ip ledger);
  lo_servers : NoDup (map nm_server_id ledger);
  lo_range : forall row, row ∈ ledger -> exists k, 1 <= k <= LAST_CANDIDATE /\ row.(nm_wireguard_ip) = candidate_ip k;
}.

Lemma LedgerOk_nil : LedgerOk [].
Proof. split; [constructor|constructor|]. intros row Hr. by apply elem_of_nil in Hr. Qed.

Lemma allocate_ip_spec ledger :
  match allocate_ip ledger with
  | Ok ip => exists k, 1 <= k <= LAST_CANDIDATE /\ ip = candidate_ip k /\ ~ ip ∈ map nm_wireguard_ip ledger /\ forall j, 1 <= j < k -> candidate_ip j ∈ map nm_wireguard_ip ledger
  | Err e => e = exhausted /\ LAST_CANDIDATE <= Z.of_nat (length ledger)
  end.
Proof.
  unfold allocate_ip. pose proof (first_free_spec (Z.to_nat LAST_CANDIDATE) 1 (map nm_wireguard_ip ledger)) as Hs.
  assert (Hfuel : Z.of_nat (Z.to_nat LAST_CANDIDATE) = LAST_CANDIDATE) by (apply Z2Nat.id; unfold LAST_CANDIDATE; lia). rewrite Hfuel in Hs.
  destruct (first_free _ _ _) as [ip|]; cbn [ok_or].
  - destruct Hs as (k & Hk & -> & Hn & Hall). exists k. split_and!; [lia|lia|done|done|done].
  - split; [done|]. assert (Hle : (Z.to_nat LAST_CANDIDATE <= length (map nm_wireguard_ip ledger))%nat).
    { apply candidates_taken; rewrite Hfuel; [unfold LAST_CANDIDATE; lia|done]. }
    rewrite length_map in Hle. lia.
Qed.

Lemma insert_member_spec ledger member :
  ~ member.(nm_server_id) ∈ map nm_server_id ledger -> ~ member.(nm_wireguard_ip) ∈ map nm_wireguard_ip ledger -> insert_member ledger member = Ok (ledger ++ [member]).
Proof.
  intros Hid Hip. unfold insert_member. destruct (existsb _ ledger) eqn:E; [|done]. exfalso. apply existsb_elem_of in E as (row & Hr & [Heq|Heq]%orb_true_iff).
  - apply Hid. apply N.eqb_eq in Heq as <-. by apply list_elem_of_fmap_2.
  - apply Hip. apply bool_decide_eq_true in Heq as <-. by apply list_elem_of_fmap_2.
Qed.

Lemma insert_member_ok ledger member ledger' : insert_member ledger member = Ok ledger' ->
  ledger' = ledger ++ [member] /\ ~ member.(nm_server_id) ∈ map nm_server_id ledger.
Proof.
  unfold insert_member. destruct (existsb _ ledger) eqn:E; [done|]. intros [= <-]. split; [done|].
  intros (row & Hid & Hr)%list_elem_of_fmap. rewrite existsb_false_elem_of in E. specialize (E row Hr). apply orb_false_iff in E as [E _]. rewrite Hid, N.eqb_refl in E. done.
Qed.

Lemma join_ok ledger server_id key now member ledger' : LedgerOk ledger -> join_ ledger server_id key now = Ok (member, ledger') -> LedgerOk ledger'.
Proof.
  intros [H1 H2 H3]. unfold join_. intros (ip & Ha & Hb)%rbind_Ok. apply rbind_Ok in Hb as (l & Hi & [= <- <-]).
  pose proof (allocate_ip_spec ledger) as Hs. rewrite Ha in Hs. destruct Hs as (k & Hk & Hip & Hfree & _). apply insert_member_ok in Hi as [-> Hnew]. cbn [nm_server_id] in Hnew.
  split.
  - rewrite map_app. apply NoDup_app. split_and!; [done| |apply NoDup_singleton]. by intros x Hx ->%list_elem_of_singleton.
  - rewrite map_app. apply NoDup_app. split_and!; [done| |apply NoDup_singleton]. by intros x Hx ->%list_elem_of_singleton.
  - intros row [Hr| ->%list_elem_of_singleton]%elem_of_app; [auto|]. by exists k.
Qed.

Lemma NoDup_filter_map {A K} (key : A -> K) p (l : list A) : NoDup (map key l) -> NoDup (map key (List.filter p l)).
Proof.
  induction l as [|x l IH]; cbn; [done|]. intros [Hx Hl]%NoDup_cons. destruct (p x); cbn; [|auto]. apply NoDup_cons. split; [|auto]. contradict Hx.
  apply list_elem_of_fmap in Hx as (y & -> & Hy). apply list_elem_of_In, filter_In in Hy as [Hy _]. apply list_elem_of_fmap_2. by apply list_elem_of_In.
Qed.

Lemma leave_ok ledger server_id ledger' : LedgerOk ledger -> leave ledger server_id = Ok ledger' ->
  LedgerOk ledger' /\ (forall row, row ∈ ledger' <-> row ∈ ledger /\ row.(nm_server_id) <> server_id).
Proof.
  intros [H1 H2 H3]. unfold leave. destruct (existsb _ ledger); [|done]. intros [= <-].
  assert (Hin : forall row, row ∈ List.filter (fun row => negb (nm_server_id row =? server_id)%N) ledger <-> row ∈ ledger /\ row.(nm_server_id) <> server_id).
  { intros row. rewrite !list_elem_of_In, filter_In, negb_true_iff, N.eqb_neq. done. }
  split; [|done]. split; [by apply NoDup_filter_map..|]. intros row [Hr _]%Hin. auto.
Qed.

(** Joins and leaves in any order, the refused ones without effect. *)
Inductive NetworkCall : Type := Join (server_id : N) (key : list Z) (now : Z) | Leave (server_id : N).

Definition apply_call (ledger : Ledger) (c : NetworkCall) : Ledger :=
  match c with
  | Join server_id key now => match join_ ledger server_id key now with Ok (_, ledger) => ledger | Err _ => ledger end
  | Leave server_id => match leave ledger server_id with Ok ledger => ledger | Err _ => ledger end
  end.

Lemma calls_ok calls : forall ledger, LedgerOk ledger -> LedgerOk (foldl apply_call ledger calls).
Proof.
  induction calls as [|c calls IH]; intros ledger Hok; cbn [foldl]; [done|]. apply IH. destruct c as [server_id key now|server_id]; cbn [apply_call].
  - destruct (join_ ledger server_id key now) as [[member ledger']|e] eqn:E; [|done]. by eapply join_ok.
  - destruct (leave ledger server_id) as [ledger'|e] eqn:E; [|done]. by eapply leave_ok.
Qed.

(** C15: Whatever joins and leaves came before, no two members of the private
    network have the same address, every address is one of 10.77.0.1 to
    10.77.255.254, and a Node that is not a member yet can join unless all
    65534 addresses are in use: it gets the lowest free one. *)
Theorem mesh_addresses_stay_unique calls server_id key now :
  let ledger := foldl apply_call [] calls in
  NoDup (map nm_wireguard_ip ledger) /\
  (forall row, row ∈ ledger -> exists k, 1 <= k <= LAST_CANDIDATE /\ row.(nm_wireguard_ip) = candidate_ip k) /\
  (~ server_id ∈ map nm_server_id ledger -> Z.of_nat (length ledger) < LAST_CANDIDATE ->
   exists k, 1 <= k <= LAST_CANDIDATE /\ ~ candidate_ip k ∈ map nm_wireguard_ip ledger /\ (forall j, 1 <= j < k -> candidate_ip j ∈ map nm_wireguard_ip ledger) /\
     let member := mkMember server_id (candidate_ip k) key now in join_ ledger server_id key now = Ok (member, ledger ++ [member])).
Proof.
  intros ledger. destruct (calls_ok calls [] LedgerOk_nil) as [H1 _ H3]. split_and!; [done|done|]. intros Hnew Hlen.
  pose proof (allocate_ip_spec ledger) as Hs. unfold join_. destruct (allocate_ip ledger) as [ip|e]; [|lia]. destruct Hs as (k & Hk & -> & Hfree & Hlow).
  exists k. split_and!; [lia|lia|done|done|]. cbn [rbind]. by rewrite insert_member_spec.
Qed.
