(* ===== verification/Dns.v ===== *)
(** * Dns: private names on the mesh

    [apps/desktop/src-tauri/src/services/dns_service.rs] and
    [storage/dns_repository.rs]: aliases of Nodes and services, the fragment of
    [/etc/hosts] made of them, and the two commands that put it in place of the
    previous one on a Node. *)

From S2P Require Import Prelude Text Shell Sandbox Validators Ufw Firewall Sudoers MemberAccount Mesh.

#[local] Open Scope Z_scope.

(** ** Aliases *)

Definition bad_alias (text : string) : AppError := InvalidInput (mkInvalid (lit "a DNS alias") (Other (lit text))).
Definition bad_suffix (text : string) : AppError := InvalidInput (mkInvalid (lit "the DNS suffix") (Other (lit text))).

Definition suffix_char (c : Z) : bool := is_ascii_lowercase c || is_ascii_digit c || (c =? 46) || (c =? 45).

Definition validate_dns_suffix (suffix : list Z) : result AppError unit :=
  if negb (starts_with_char 46 suffix) || (byte_len suffix <? 2) then Err (bad_suffix "must start with '.' and have at least one character after it")
  else if 32 <? byte_len suffix then Err (bad_suffix "is too long")
  else if negb (forallb suffix_char suffix) then Err (bad_suffix "can only contain lowercase letters, digits, '.', and '-'")
  else Ok tt.

(** [str::strip_suffix]. *)
Definition strip_suffix (p s : list Z) : option (list Z) := reverse <$> strip_prefix (reverse p) (reverse s).

Section aliases.
Context `{UnicodeCase}.

Definition slugify (input : list Z) : list Z := default (lit "node") (dns_label input).

Definition normalize_alias (suffix input : list Z) : list Z :=
  let trimmed := map to_ascii_lowercase (trim input) in
  let base := default trimmed (strip_suffix suffix trimmed) in
  slugify base ++ suffix.

Definition node_alias (suffix server_name : list Z) : list Z := slugify server_name ++ suffix.
End aliases.

(** ** The stored service aliases *)

Record DnsRecord : Type := mkRecord { dr_id : N; dr_application_id : N; dr_hostname : list Z; dr_created_at : Z }.

(** The table [dns_records]: [id], [application_id] and [hostname] are unique. *)
Definition DnsTable : Type := list DnsRecord.

(** [ORDER BY hostname]. *)
Definition list_records (table : DnsTable) : list DnsRecord := sort_by (fun a b => str_ltb a.(dr_hostname) b.(dr_hostname)) table.

(** [excluding] is compared as text, so [None], an empty text, excludes nothing. *)
Definition find_hostname_collision (table : DnsTable) (excluding : option N) (hostname : list Z) : option (list Z) :=
  dr_hostname <$> find_first (fun row => str_eqb row.(dr_hostname) hostname && negb (bool_decide (Some row.(dr_id) = excluding))) table.

(** [is_unique_violation] holds of every violated constraint, the reference to [applications] included. *)
Definition insert_record (applications : list N) (table : DnsTable) (row : DnsRecord) : result AppError DnsTable :=
  if existsb (fun x => (x.(dr_id) =? row.(dr_id))%N || (x.(dr_application_id) =? row.(dr_application_id))%N || str_eqb x.(dr_hostname) row.(dr_hostname)) table
     || negb (bool_decide (row.(dr_application_id) ∈ applications))
  then Err (bad_alias "already has a DNS alias") else Ok (table ++ [row]).

Definition create (applications : list N) (table : DnsTable) (id application_id : N) (hostname : list Z) (now : Z) : result AppError (DnsRecord * DnsTable) :=
  match find_hostname_collision table None hostname with
  | Some _ => Err (bad_alias "is already in use")
  | None =>
      let row := mkRecord id application_id hostname now in
      match insert_record applications table row with Ok table => Ok (row, table) | Err e => Err e end
  end.

Definition with_hostname (hostname : list Z) (row : DnsRecord) : DnsRecord := mkRecord row.(dr_id) row.(dr_application_id) hostname row.(dr_created_at).
Definition with_application (application_id : N) (row : DnsRecord) : DnsRecord := mkRecord row.(dr_id) application_id row.(dr_hostname) row.(dr_created_at).

(** [UPDATE .. WHERE p]. *)
Definition update_where (p : DnsRecord -> bool) (f : DnsRecord -> DnsRecord) (table : DnsTable) : DnsTable := map (fun row => if p row then f row else row) table.

Definition update_hostname (table : DnsTable) (id : N) (hostname : list Z) : result AppError (DnsRecord * DnsTable) :=
  match find_hostname_collision table (Some id) hostname with
  | Some _ => Err (bad_alias "is already in use")
  | None =>
      let table := update_where (fun row => (row.(dr_id) =? id)%N) (with_hostname hostname) table in
      match find_first (fun row => (row.(dr_id) =? id)%N) table with Some row => Ok (row, table) | None => Err NotFound end
  end.

Definition repoint_application (applications : list N) (table : DnsTable) (old_application_id new_application_id : N) : result AppError (option DnsRecord * DnsTable) :=
  if negb (existsb (fun row => (row.(dr_application_id) =? old_application_id)%N) table) then Ok (None, table)
  else if existsb (fun row => (row.(dr_application_id) =? new_application_id)%N && negb (row.(dr_application_id) =? old_application_id)%N) table
          || negb (bool_decide (new_application_id ∈ applications))
  then Err (bad_alias "already has a DNS alias")
  else
    let table := update_where (fun row => (row.(dr_application_id) =? old_application_id)%N) (with_application new_application_id) table in
    Ok (find_first (fun row => (row.(dr_application_id) =? new_application_id)%N) table, table).

Definition delete_record (table : DnsTable) (id : N) : result AppError DnsTable :=
  if existsb (fun row => (row.(dr_id) =? id)%N) table then Ok (List.filter (fun row => negb (row.(dr_id) =? id)%N) table) else Err NotFound.

Section service.
Context `{UnicodeCase}.

Definition create_alias (suffix : list Z) (applications : list N) (table : DnsTable) (id application_id : N) (hostname : list Z) (now : Z) : result AppError (DnsRecord * DnsTable) :=
  create applications table id application_id (normalize_alias suffix hostname) now.

Definition update_alias (suffix : list Z) (table : DnsTable) (id : N) (hostname : list Z) : result AppError (DnsRecord * DnsTable) :=
  update_hostname table id (normalize_alias suffix hostname).

(** ** The view *)

Inductive DnsViewKind : Type := NodeView | ServiceView (application_id : N).
Record DnsView : Type := mkDnsView { dv_hostname : list Z; dv_ip : list Z; dv_kind : DnsViewKind; dv_server_id : N }.

(** What the other repositories answer: a server's name, and the server an application runs on. *)
Record DnsRepositories : Type := mkDnsRepositories {
  server_name : N -> result AppError (option (list Z));
  application_server : N -> result AppError (option (option N));
}.
Context (suffix : list Z) (repos : DnsRepositories).

Fixpoint node_views (members : list NodeNetworkMember) : result AppError (list DnsView) :=
  match members with
  | [] => Ok []
  | member :: members =>
      match repos.(server_name) member.(nm_server_id) with
      | Err e => Err e
      | Ok None => Err NotFound
      | Ok (Some name) =>
          match node_views members with
          | Err e => Err e
          | Ok views => Ok (mkDnsView (node_alias suffix name) member.(nm_wireguard_ip) NodeView member.(nm_server_id) :: views)
          end
      end
  end.

Definition service_view (members : list NodeNetworkMember) (record : DnsRecord) : option DnsView :=
  match repos.(application_server) record.(dr_application_id) with
  | Ok (Some (Some server_id)) =>
      (fun member => mkDnsView record.(dr_hostname) member.(nm_wireguard_ip) (ServiceView record.(dr_application_id)) server_id)
        <$> find_first (fun member => (member.(nm_server_id) =? server_id)%N) members
  | _ => None
  end.

(** The view of the members as listed. *)
Definition members_view (members : list NodeNetworkMember) (table : DnsTable) : result AppError (list DnsView) :=
  match node_views members with
  | Err e => Err e
  | Ok views => Ok (views ++ omap (service_view members) (list_records table))
  end.
Definition resolve_dns_view (ledger : Ledger) (table : DnsTable) : result AppError (list DnsView) := members_view (list_members ledger) table.
End service.

(** ** The fragment *)

Definition BEGIN_MARKER : list Z := lit "# BEGIN VIBESSH-MANAGED-DNS".
Definition END_MARKER : list Z := lit "# END VIBESSH-MANAGED-DNS".
Definition DELIMITER : list Z := lit "VIBESSH_DNS_EOF".

Definition reject_unsafe (value : list Z) : result AppError unit :=
  if contains_str DELIMITER value then Err (bad_alias "contains characters that aren't allowed")
  else
    match checked (reject_newlines value (lit "a DNS alias")) with
    | Err e => Err e
    | Ok _ => checked (reject_shell_metacharacters value (lit "a DNS alias"))
    end.

Fixpoint reject_duplicates (seen : gmap (list Z) (list Z)) (views : list DnsView) : result AppError unit :=
  match views with
  | [] => Ok tt
  | view :: views =>
      match seen !! view.(dv_hostname) with
      | Some existing_ip => if negb (str_eqb existing_ip view.(dv_ip)) then Err (bad_alias "resolves to two different Nodes") else reject_duplicates seen views
      | None => reject_duplicates (<[view.(dv_hostname) := view.(dv_ip)]> seen) views
      end
  end.
Definition reject_duplicate_hostnames (views : list DnsView) : result AppError unit := reject_duplicates ∅ views.

Fixpoint reject_unsafe_views (views : list DnsView) : result AppError unit :=
  match views with
  | [] => Ok tt
  | view :: views =>
      match reject_unsafe view.(dv_hostname) with
      | Err e => Err e
      | Ok _ => match reject_unsafe view.(dv_ip) with Err e => Err e | Ok _ => reject_unsafe_views views end
      end
  end.

Definition hosts_line (view : DnsView) : list Z := view.(dv_ip) ++ lit " " ++ view.(dv_hostname).

Definition render_hosts_fragment (views : list DnsView) : result AppError (list Z) :=
  match reject_duplicate_hostnames views with
  | Err e => Err e
  | Ok _ =>
      match reject_unsafe_views views with
      | Err e => Err e
      | Ok _ => Ok (BEGIN_MARKER ++ [10] ++ (views ≫= fun view => hosts_line view ++ [10]) ++ END_MARKER ++ [10])
      end
  end.

(** ** Putting it in place *)

Definition FRAGMENT_PATH : list Z := RUNTIME_DIR ++ lit "/dns-fragment".
Definition LOCK_PATH : list Z := RUNTIME_DIR ++ lit "/dns.lock".

Definition stage_script (fragment : list Z) : list Z :=
  let nl := [10] in
  lit "set -e" ++ nl ++ ensure_runtime_dirs_command ++ nl ++ lit "sudo tee " ++ quote FRAGMENT_PATH ++ lit " >/dev/null <<'" ++ DELIMITER ++ lit "'" ++ nl
  ++ fragment ++ DELIMITER ++ nl ++ lit "sudo chmod 644 " ++ quote FRAGMENT_PATH ++ nl.

Definition assemble_script : list Z :=
  let nl := [10] in
  lit "sudo sh -c '" ++ nl ++ lit "set -e" ++ nl ++ qlit "exec 9>`" ++ LOCK_PATH ++ qlit "`" ++ nl ++ lit "flock 9" ++ nl
  ++ lit "tmp=$(mktemp /etc/hosts.vibessh.XXXXXX)" ++ nl ++ qlit "sed `/" ++ BEGIN_MARKER ++ lit "/,/" ++ END_MARKER ++ qlit "/d` /etc/hosts > `$tmp`" ++ nl
  ++ qlit "cat `" ++ FRAGMENT_PATH ++ qlit "` >> `$tmp`" ++ nl ++ qlit "chown root:root `$tmp`" ++ nl ++ qlit "chmod 644 `$tmp`" ++ nl
  ++ qlit "mv `$tmp` /etc/hosts" ++ nl ++ lit "'".

Section push.
Context {Node : Type} `{Connection Node}.
#[local] Open Scope fw_scope.

Definition push_fragment (fragment : list Z) : F Node unit :=
  output <- run_command (stage_script fragment) ;;
  (if negb (output.(exit_code) =? 0) then throw (ConnectionFailed (lit "couldn't stage the DNS entries: " ++ detail_or output "writing the fragment failed")) else ret tt) ;;;
  output <- run_command assemble_script ;;
  if negb (output.(exit_code) =? 0) then throw (ConnectionFailed (lit "couldn't update /etc/hosts: " ++ detail_or output "assembling the new file failed")) else ret tt.

Definition clear_hosts_block : F Node unit := push_fragment [].
End push.

(** ** How the pieces are read on the Node *)

(** A line of [/etc/hosts]: up to a comment, an address and its names. *)
Definition host_entry (line : list Z) : list (list Z) := split_whitespace (match split_once 35 line with Some (entry, _) => entry | None => line end).

Definition names_host (name line : list Z) : option (list Z) :=
  match host_entry line with
  | ip :: names => if existsb (str_eqb name) names then Some ip else None
  | [] => None
  end.

(** The first line with the name decides. *)
Definition hosts_lookup (file name : list Z) : option (list Z) := head (omap (names_host name) (split_on (Z.eqb 10) file)).

(** The body of a here-document with a quoted delimiter: the lines up to the delimiter's, as they are. *)
Fixpoint heredoc_lines (delimiter : list Z) (lines : list (list Z)) : option (list (list Z)) :=
  match lines with
  | [] => None
  | line :: lines => if str_eqb line delimiter then Some [] else cons line <$> heredoc_lines delimiter lines
  end.

(** The lines of a file, each with the line feed that ends it; the last may have none. *)
Fixpoint fed_lines (s : list Z) : list (list Z) :=
  match s with
  | [] => []
  | c :: s =>
      if c =? 10 then [10] :: fed_lines s
      else match fed_lines s with [] => [[c]] | line :: lines => (c :: line) :: lines end
  end.

(** [sed "/first/,/last/d"]: a range runs from a line that holds [first] to the
    next one after it that holds [last], or to the end of the file; what is
    kept is written as it was read. *)
Fixpoint sed_delete (first last : list Z) (inside : bool) (lines : list (list Z)) : list (list Z) :=
  match lines with
  | [] => []
  | line :: lines =>
      if inside then sed_delete first last (negb (contains_str last line)) lines
      else if contains_str first line then sed_delete first last true lines
      else line :: sed_delete first last false lines
  end.

(** What [assemble_script] makes of [/etc/hosts] and the staged fragment. *)
Definition assembled (hosts fragment : list Z) : list Z := concat (sed_delete BEGIN_MARKER END_MARKER false (fed_lines hosts)) ++ fragment.

(** ** Names *)

(** A name or an address: not empty, nothing but lower-case letters, digits, dots and dashes. *)
Definition name_text (s : list Z) : bool := negb (is_empty s) && forallb suffix_char s.
Definition view_ok (view : DnsView) : Prop := name_text view.(dv_hostname) = true /\ name_text view.(dv_ip) = true.

Lemma name_text_spec s : name_text s = true <-> s <> [] /\ forall c, c ∈ s -> suffix_char c = true.
Proof. unfold name_text. rewrite andb_true_iff, forallb_elem_of. destruct s; cbn; naive_solver. Qed.

Lemma suffix_char_plain c : suffix_char c = true -> 45 <= c <= 122 /\ is_whitespace c = false /\ is_ascii_uppercase c = false /\ c <> 92 /\ c <> 96.
Proof.
  intros Hc. assert (Hr : 97 <= c <= 122 \/ 48 <= c <= 57 \/ c = 46 \/ c = 45).
  { unfold suffix_char, is_ascii_lowercase, is_ascii_digit, in_range in Hc. lia. }
  split_and!; try lia; [unfold is_whitespace|unfold is_ascii_uppercase, in_range; lia].
  clear Hc. repeat match goal with |- context [?a =? ?b] => destruct (Z.eqb_spec a b); [lia|] end. unfold in_range. lia.
Qed.

Lemma name_text_app a b : name_text a = true -> forallb suffix_char b = true -> name_text (a ++ b) = true.
Proof. unfold name_text. rewrite forallb_app. destruct a; cbn; [done|]. intros -> ->. done. Qed.

Lemma name_text_misses s c : name_text s = true -> suffix_char c = false -> contains_char c s = false.
Proof.
  rewrite name_text_spec. intros [_ Hs] Hc. unfold contains_char. apply existsb_false_elem_of. intros x Hx. apply Z.eqb_neq. intros ->. specialize (Hs x Hx). congruence.
Qed.

Lemma name_text_solid s : name_text s = true -> solid s = true.
Proof.
  rewrite name_text_spec. intros [Hn Hs]. unfold solid. destruct s as [|x s]; [done|]. cbn [is_empty negb andb]. apply negb_true_iff, existsb_false_elem_of.
  intros c Hc. by apply suffix_char_plain, Hs.
Qed.

Lemma contains_str_spec needle s : contains_str needle s = true <-> exists a b, s = a ++ needle ++ b.
Proof.
  split.
  - induction s as [|x s IH]; cbn [contains_str]; rewrite orb_true_iff; intros [Hs|Hs]; try done.
    + apply bool_decide_eq_true in Hs as [r Hr%strip_prefix_spec]. by exists [], r.
    + apply bool_decide_eq_true in Hs as [r Hr%strip_prefix_spec]. by exists [], r.
    + destruct (IH Hs) as (a & b & ->). by exists (x :: a), b.
  - intros (a & b & ->). induction a as [|x a IH]; cbn [app contains_str]; [|by rewrite IH, orb_true_r].
    destruct (needle ++ b) as [|y r] eqn:E; cbn [contains_str]; rewrite <-E, starts_with_app; done.
Qed.

Lemma contains_head c needle s : contains_str (c :: needle) s = true -> c ∈ s.
Proof.
  induction s as [|x s IH]; cbn [contains_str]; rewrite orb_true_iff; intros [Hs|Hs].
  - apply bool_decide_eq_true in Hs as [r Hr]. discriminate Hr.
  - done.
  - apply bool_decide_eq_true in Hs as [r Hr]. cbn in Hr. destruct (Z.eqb_spec c x) as [->|]; [left|done].
  - right. auto.
Qed.

Lemma name_text_safe s : name_text s = true -> reject_unsafe s = Ok tt.
Proof.
  intros Hs. pose proof (name_text_misses s) as Hm. unfold reject_unsafe.
  destruct (contains_str DELIMITER s) eqn:E.
  { apply contains_head in E. specialize (Hm 86 Hs eq_refl). unfold contains_char in Hm. rewrite existsb_false_elem_of in Hm. specialize (Hm 86 E). done. }
  unfold reject_newlines. rewrite !Hm by done. cbn [orb checked]. unfold reject_shell_metacharacters.
  destruct (find_first _ s) as [c|] eqn:Ef; [|done]. apply find_first_Some in Ef as [Hc Hin]. apply bool_decide_eq_true in Hin.
  apply name_text_spec in Hs as [_ Hs]. specialize (Hs c Hc). unfold SHELL_METACHARACTERS in Hin.
  repeat (apply elem_of_cons in Hin as [->|Hin]; [discriminate Hs|]). by apply elem_of_nil in Hin.
Qed.

Lemma slugify_ok `{UnicodeCase} input : name_text (slugify input) = true.
Proof.
  unfold slugify. pose proof (labels_are_valid input) as Hl. destruct (dns_label input) as [label|]; [|done]. cbn [default]. unfold rfc1123_label in Hl.
  repeat (apply andb_true_iff in Hl as [Hl ?]). unfold name_text. apply andb_true_iff. split; [done|]. eapply forallb_forall. intros c Hc.
  match goal with H : forallb label_char label = true |- _ => apply (proj1 (forallb_forall _ _)) with c in H; [|done]; unfold label_char in H; unfold suffix_char end.
  destruct (is_ascii_lowercase c); [done|]. destruct (is_ascii_digit c); [done|]. destruct (c =? 45); [by rewrite !orb_true_r|done].
Qed.

Lemma valid_suffix suffix : validate_dns_suffix suffix = Ok tt -> forallb suffix_char suffix = true /\ starts_with_char 46 suffix = true.
Proof. unfold validate_dns_suffix. destruct (starts_with_char 46 suffix); [|done]. destruct (forallb suffix_char suffix); [done|]. by repeat case_match. Qed.

(** ** The fragment as a table of names *)

Definition fragment_lines (views : list DnsView) : list (list Z) := BEGIN_MARKER :: map hosts_line views ++ [END_MARKER].
Definition fragment_of (views : list DnsView) : list Z := fragment_lines views ≫= fun line => line ++ [10].

Lemma hosts_line_misses view c : view_ok view -> suffix_char c = false -> c <> 32 -> contains_char c (hosts_line view) = false.
Proof.
  intros [Hh Hi] Hc H32. unfold contains_char, hosts_line. rewrite !existsb_app. pose proof (name_text_misses _ c Hh Hc) as Hh'. pose proof (name_text_misses _ c Hi Hc) as Hi'.
  unfold contains_char in Hh', Hi'. rewrite Hh', Hi'. change (existsb (Z.eqb c) (lit " ")) with ((c =? 32) || false). apply Z.eqb_neq in H32. by rewrite H32.
Qed.

Lemma fragment_bind (views : list DnsView) : fragment_of views = BEGIN_MARKER ++ [10] ++ (views ≫= fun view => hosts_line view ++ [10]) ++ END_MARKER ++ [10].
Proof.
  unfold fragment_of, fragment_lines. rewrite bind_cons, bind_app, <-!app_assoc. do 2 f_equal. cbn [mbind list_bind]. rewrite app_nil_r. f_equal.
  induction views as [|view views IH]; [done|]. cbn [map]. rewrite !bind_cons. by f_equal.
Qed.

Lemma safe_views views : Forall view_ok views -> reject_unsafe_views views = Ok tt.
Proof. induction 1 as [|view views [Hh Hi] _ IH]; [done|]. cbn [reject_unsafe_views]. by rewrite !name_text_safe. Qed.

Lemma fragment_split views : Forall view_ok views -> split_on (Z.eqb 10) (fragment_of views) = fragment_lines views ++ [[]].
Proof.
  intros Hv. apply split_lines. unfold fragment_lines. constructor; [done|]. apply Forall_app. split; [|by repeat constructor].
  apply Forall_map. eapply Forall_impl; [exact Hv|]. intros view Hview. by apply hosts_line_misses.
Qed.

Lemma names_host_line name view : view_ok view -> names_host name (hosts_line view) = if str_eqb name view.(dv_hostname) then Some view.(dv_ip) else None.
Proof.
  intros Hv. unfold names_host, host_entry. rewrite split_once_none by (by apply hosts_line_misses). destruct Hv as [Hh Hi].
  change (hosts_line view) with (join [32] [dv_ip view; dv_hostname view]). rewrite split_whitespace_join; [|repeat constructor; by apply name_text_solid|done].
  cbn [existsb]. by rewrite orb_false_r.
Qed.

Lemma fragment_lookup views name : Forall view_ok views ->
  hosts_lookup (fragment_of views) name = dv_ip <$> find_first (fun view => str_eqb name view.(dv_hostname)) views.
Proof.
  intros Hv. unfold hosts_lookup. rewrite fragment_split by done. unfold fragment_lines.
  assert (Hb : names_host name BEGIN_MARKER = None) by reflexivity. assert (He : omap (names_host name) [END_MARKER; []] = []) by reflexivity.
  rewrite <-app_comm_cons, <-app_assoc. cbn [omap list_omap]. rewrite Hb. rewrite omap_app. change (omap (names_host name) ([END_MARKER] ++ [[]])) with (omap (names_host name) [END_MARKER; []]).
  rewrite He, app_nil_r. clear Hb He. induction Hv as [|view views Hview _ IH]; [done|]. cbn [map omap list_omap find_first]. rewrite names_host_line by done.
  destruct (str_eqb name (dv_hostname view)); [done|exact IH].
Qed.

(** Two views of one name with different addresses. *)
Definition conflict (views : list DnsView) : Prop := exists v w, v ∈ views /\ w ∈ views /\ v.(dv_hostname) = w.(dv_hostname) /\ v.(dv_ip) <> w.(dv_ip).

Lemma reject_duplicates_spec views : forall seen,
  match reject_duplicates seen views with
  | Ok _ => (forall v ip, v ∈ views -> seen !! v.(dv_hostname) = Some ip -> ip = v.(dv_ip)) /\ ~ conflict views
  | Err _ => (exists v ip, v ∈ views /\ seen !! v.(dv_hostname) = Some ip /\ ip <> v.(dv_ip)) \/ conflict views
  end.
Proof.
  induction views as [|view views IH]; intros seen; cbn [reject_duplicates].
  { split; [by intros v ip ?%elem_of_nil|]. by intros (v & w & ?%elem_of_nil & _). }
  destruct (seen !! dv_hostname view) as [ip|] eqn:E.
  - unfold str_eqb. case_bool_decide as Hip; cbn [negb].
    + subst ip. specialize (IH seen). destruct (reject_duplicates seen views).
      * destruct IH as [Hs Hc]. split; [intros v ip [->|Hv]%elem_of_cons; naive_solver|].
        intros (v & w & Hv & Hw & Hn & Hd). apply elem_of_cons in Hv as [->|Hv], Hw as [->|Hw]; [done| | |by apply Hc; exists v, w].
        -- apply Hd. apply (Hs w); [done|congruence].
        -- apply Hd. symmetry. apply (Hs v); [done|congruence].
      * destruct IH as [(v & ip & Hv & Hs & Hd)|(v & w & Hv & Hw & Hd)]; [left; exists v, ip|right; exists v, w]; rewrite ?elem_of_cons; auto.
    + left. exists view, ip. rewrite elem_of_cons. auto.
  - specialize (IH (<[dv_hostname view := dv_ip view]> seen)). destruct (reject_duplicates _ views).
    + destruct IH as [Hs Hc].
      assert (Hsame : forall w, w ∈ views -> dv_hostname w = dv_hostname view -> dv_ip view = dv_ip w).
      { intros w Hw Hn. apply (Hs w); [done|]. rewrite Hn. by rewrite lookup_insert_eq. }
      split.
      * intros v ip [->|Hv]%elem_of_cons Hl; [congruence|]. destruct (decide (dv_hostname v = dv_hostname view)) as [Hn|Hn]; [congruence|].
        apply (Hs v); [done|]. by rewrite lookup_insert_ne.
      * intros (v & w & Hv & Hw & Hn & Hd). apply elem_of_cons in Hv as [->|Hv], Hw as [->|Hw]; [done| | |by apply Hc; exists v, w].
        -- by apply Hd, Hsame.
        -- apply Hd. symmetry. by apply Hsame.
    + destruct IH as [(v & ip & Hv & Hs & Hd)|(v & w & Hv & Hw & Hd)]; [|right; exists v, w; rewrite !elem_of_cons; auto].
      destruct (decide (dv_hostname v = dv_hostname view)) as [Hn|Hn].
      * right. exists view, v. rewrite !elem_of_cons. rewrite Hn, lookup_insert_eq in Hs. injection Hs as <-. split_and!; auto.
      * left. exists v, ip. rewrite lookup_insert_ne in Hs by done. rewrite elem_of_cons. auto.
Qed.

Lemma render_spec views : Forall view_ok views ->
  match render_hosts_fragment views with
  | Ok fragment => fragment = fragment_of views /\ ~ conflict views
  | Err _ => conflict views
  end.
Proof.
  intros Hv. unfold render_hosts_fragment, reject_duplicate_hostnames. pose proof (reject_duplicates_spec views ∅) as Hs. destruct (reject_duplicates ∅ views) as [[]|e].
  - rewrite safe_views by done. rewrite fragment_bind. split; [done|]. apply Hs.
  - destruct Hs as [(v & ip & _ & Hn & _)|Hc]; [|done]. by rewrite lookup_empty in Hn.
Qed.

(** ** The table over time *)

Record TableOk (table : DnsTable) : Prop := {
  to_ids : NoDup (map dr_id table);
  to_applications : NoDup (map dr_application_id table);
  to_hostnames : NoDup (map dr_hostname table);
  to_names : Forall (fun row => name_text row.(dr_hostname) = true) table;
}.

Lemma TableOk_nil : TableOk [].
Proof. split; constructor. Qed.

Lemma map_update_same {K} (key : DnsRecord -> K) p f table : (forall row, key (f row) = key row) -> map key (update_where p f table) = map key table.
Proof. intros Hk. unfold update_where. rewrite map_map. apply map_ext. intros row. destruct (p row); auto. Qed.

(** An update of at most one row, to a key no other row has, keeps the key unique. *)
Lemma NoDup_update {K} (key : DnsRecord -> K) p f table :
  NoDup (map key table) ->
  (forall i j x y, table !! i = Some x -> table !! j = Some y -> p x = true -> p y = true -> i = j) ->
  (forall x y, x ∈ table -> y ∈ table -> p x = true -> p y = false -> key (f x) <> key y) -> NoDup (map key (update_where p f table)).
Proof.
  rewrite !NoDup_alt. intros Hk Hp Hf i j k Hi Hj. unfold update_where in Hi, Hj. rewrite !list_lookup_fmap, ?list_lookup_fmap in Hi, Hj.
  apply fmap_Some in Hi as (x' & (x & Hx & ->)%fmap_Some & ->), Hj as (y' & (y & Hy & ->)%fmap_Some & Heq).
  pose proof (list_elem_of_lookup_2 _ _ _ Hx) as Hxin. pose proof (list_elem_of_lookup_2 _ _ _ Hy) as Hyin.
  destruct (p x) eqn:Ex, (p y) eqn:Ey; [by eapply Hp| | |].
  - by destruct (Hf x y).
  - destruct (Hf y x); auto.
  - apply (Hk i j (key x)); rewrite list_lookup_fmap, ?Hx, ?Hy; cbn; congruence.
Qed.

Lemma unique_key {K} (key : DnsRecord -> K) table : NoDup (map key table) -> forall i j x y, table !! i = Some x -> table !! j = Some y -> key x = key y -> i = j.
Proof. rewrite NoDup_alt. intros Hk i j x y Hi Hj He. apply (Hk i j (key x)); rewrite list_lookup_fmap, ?Hi, ?Hj; cbn; congruence. Qed.

Lemma collision_None table excluding hostname : find_hostname_collision table excluding hostname = None ->
  forall row, row ∈ table -> row.(dr_hostname) = hostname -> Some row.(dr_id) = excluding.
Proof.
  unfold find_hostname_collision. intros Hn row Hr Hh. apply fmap_None in Hn. rewrite find_first_None in Hn. specialize (Hn row Hr).
  unfold str_eqb in Hn. rewrite bool_decide_eq_true_2 in Hn by done. by apply negb_false_iff, bool_decide_eq_true in Hn.
Qed.

Lemma create_ok applications table id application_id hostname now row table' :
  TableOk table -> name_text hostname = true -> create applications table id application_id hostname now = Ok (row, table') -> TableOk table'.
Proof.
  intros [H1 H2 H3 H4] Hn. unfold create, insert_record. destruct (find_hostname_collision _ _ _); [done|]. destruct (_ || _) eqn:E; [done|]. intros [= <- <-].
  apply orb_false_iff in E as [E _]. rewrite existsb_false_elem_of in E.
  assert (Hnew : forall x, x ∈ table -> x.(dr_id) <> id /\ x.(dr_application_id) <> application_id /\ x.(dr_hostname) <> hostname).
  { intros x Hx. specialize (E x Hx). apply orb_false_iff in E as [[E1 E2]%orb_false_iff E3]. apply N.eqb_neq in E1, E2. by apply bool_decide_eq_false in E3. }
  split; [| | |apply Forall_app; split; [done|by repeat constructor]]; rewrite map_app; apply NoDup_app; (split_and!; [done| |apply NoDup_singleton]);
    intros k (x & -> & Hx)%list_elem_of_fmap Hk%list_elem_of_singleton; destruct (Hnew x Hx) as (? & ? & ?); cbn in Hk; congruence.
Qed.

Lemma update_hostname_ok table id hostname row table' :
  TableOk table -> name_text hostname = true -> update_hostname table id hostname = Ok (row, table') -> TableOk table'.
Proof.
  intros [H1 H2 H3 H4] Hn. unfold update_hostname. destruct (find_hostname_collision table (Some id) hostname) eqn:E; [done|]. destruct (find_first _ _); [|done].
  intros [= <- <-]. pose proof (collision_None _ _ _ E) as Hc. split; [by rewrite map_update_same|by rewrite map_update_same| |].
  - apply NoDup_update; [done| |].
    + intros i j x y Hi Hj Hx%N.eqb_eq Hy%N.eqb_eq. apply (unique_key dr_id table H1 i j x y); congruence.
    + intros x y Hx Hy _ Hpy. cbn. intros Heq. specialize (Hc y Hy (eq_sym Heq)). injection Hc as Hc. by rewrite Hc, N.eqb_refl in Hpy.
  - unfold update_where. apply Forall_map. eapply Forall_impl; [exact H4|]. intros x Hx. cbn. by destruct (_ =? id)%N.
Qed.

Lemma repoint_ok applications table old new row table' :
  TableOk table -> repoint_application applications table old new = Ok (row, table') -> TableOk table'.
Proof.
  intros Hok. unfold repoint_application. destruct (negb _); [by intros [= <- <-]|]. destruct (_ || _) eqn:E; [done|]. intros [= <- <-]. destruct Hok as [H1 H2 H3 H4].
  apply orb_false_iff in E as [E _]. rewrite existsb_false_elem_of in E. split; [by rewrite map_update_same| |by rewrite map_update_same|].
  - apply NoDup_update; [done| |].
    + intros i j x y Hi Hj Hx%N.eqb_eq Hy%N.eqb_eq. apply (unique_key dr_application_id table H2 i j x y); congruence.
    + intros x y _ Hy _ Hpy. cbn. intros Heq. specialize (E y Hy). rewrite Hpy, <-Heq, N.eqb_refl in E. done.
  - unfold update_where. apply Forall_map. eapply Forall_impl; [exact H4|]. intros x Hx. cbn. by destruct (_ =? old)%N.
Qed.

Lemma delete_ok table id table' : TableOk table -> delete_record table id = Ok table' -> TableOk table'.
Proof.
  intros [H1 H2 H3 H4]. unfold delete_record. destruct (existsb _ table); [|done]. intros [= <-]. split; [by apply NoDup_filter_map..|].
  apply Forall_forall. intros x Hx. apply list_elem_of_In, filter_In in Hx as [Hx _]. rewrite Forall_forall in H4. apply H4. by apply list_elem_of_In.
Qed.

Inductive DnsCall : Type :=
| CreateAlias (suffix : list Z) (applications : list N) (id application_id : N) (hostname : list Z) (now : Z)
| UpdateAlias (suffix : list Z) (id : N) (hostname : list Z)
| Repoint (applications : list N) (old new : N)
| DeleteAlias (id : N).

(** The suffix in force when an alias is written has been validated. *)
Definition call_suffix_ok (c : DnsCall) : Prop :=
  match c with CreateAlias suffix _ _ _ _ _ | UpdateAlias suffix _ _ => validate_dns_suffix suffix = Ok tt | _ => True end.

Section history.
Context `{UnicodeCase}.

(** The table after a call; a refused call leaves it alone. *)
Definition apply_dns (table : DnsTable) (c : DnsCall) : DnsTable :=
  match c with
  | CreateAlias suffix applications id application_id hostname now =>
      match create_alias suffix applications table id application_id hostname now with Ok (_, table) => table | Err _ => table end
  | UpdateAlias suffix id hostname => match update_alias suffix table id hostname with Ok (_, table) => table | Err _ => table end
  | Repoint applications old new => match repoint_application applications table old new with Ok (_, table) => table | Err _ => table end
  | DeleteAlias id => match delete_record table id with Ok table => table | Err _ => table end
  end.

Lemma normalize_alias_ok suffix input : validate_dns_suffix suffix = Ok tt -> name_text (normalize_alias suffix input) = true.
Proof. intros [Hs _]%valid_suffix. apply name_text_app; [apply slugify_ok|done]. Qed.

Lemma dns_calls_ok calls : Forall call_suffix_ok calls -> forall table, TableOk table -> TableOk (foldl apply_dns table calls).
Proof.
  induction 1 as [|c calls Hc _ IH]; intros table Hok; cbn [foldl]; [done|]. apply IH. destruct c as [suffix apps id app host now|suffix id host|apps old new|id]; cbn [apply_dns].
  - destruct (create_alias _ _ _ _ _ _ _) as [[row table']|e] eqn:E; [|done]. eapply create_ok; [done| |exact E]. by apply normalize_alias_ok.
  - destruct (update_alias _ _ _ _) as [[row table']|e] eqn:E; [|done]. eapply update_hostname_ok; [done| |exact E]. by apply normalize_alias_ok.
  - destruct (repoint_application _ _ _ _) as [[row table']|e] eqn:E; [|done]. by eapply repoint_ok.
  - destruct (delete_record _ _) as [table'|e] eqn:E; [|done]. by eapply delete_ok.
Qed.

(** ** The view *)

Lemma candidate_ip_name k : name_text (candidate_ip k) = true.
Proof.
  assert (Hd : forall n, 0 <= n <= 255 -> forallb suffix_char (to_dec n) = true).
  { intros n Hn. destruct (parse_show_octet n Hn) as (_ & _ & Hf). apply forallb_forall. intros c Hc. apply (proj1 (forallb_forall _ _)) with c in Hf; [|done].
    unfold suffix_char. rewrite Hf. by rewrite orb_true_r. }
  assert (Ho : forall x, 0 <= Z.land x 255 <= 255).
  { intros x. change 255 with (Z.ones 8). rewrite Z.land_ones by lia. pose proof (Z.mod_pos_bound x (2 ^ 8)). change (Z.ones 8) with 255. lia. }
  unfold candidate_ip, name_text. rewrite !forallb_app. rewrite !Hd by first [apply Ho|unfold MESH_CIDR_SECOND_OCTET; lia]. reflexivity.
Qed.

Lemma node_views_spec suffix repos members : forall views, node_views suffix repos members = Ok views ->
  Forall2 (fun member view => exists name, repos.(server_name) member.(nm_server_id) = Ok (Some name) /\
    view = mkDnsView (node_alias suffix name) member.(nm_wireguard_ip) NodeView member.(nm_server_id)) members views.
Proof.
  induction members as [|member members IH]; intros views; cbn [node_views]; [by intros [= <-]|].
  destruct (server_name repos _) as [[name|]|e] eqn:En; [|done|done]. destruct (node_views _ _ members) as [rest|e]; [|done]. intros [= <-]. constructor; eauto.
Qed.

Lemma resolved_ok suffix repos ledger table views : validate_dns_suffix suffix = Ok tt -> LedgerOk ledger -> TableOk table ->
  resolve_dns_view suffix repos ledger table = Ok views -> Forall view_ok views.
Proof.
  intros [Hsuf _]%valid_suffix [_ _ Hr] [_ _ _ Hn]. unfold resolve_dns_view, members_view. destruct (node_views _ _ _) as [nodes|e] eqn:En; [|done]. intros [= <-].
  assert (Hip : forall row, row ∈ list_members ledger -> name_text row.(nm_wireguard_ip) = true).
  { intros row Hrow. unfold list_members in Hrow. rewrite sort_by_Permutation in Hrow. destruct (Hr row Hrow) as (k & Hk & ->). by apply candidate_ip_name. }
  apply Forall_app. split.
  - apply node_views_spec in En. apply Forall_forall. intros view Hv. apply list_elem_of_lookup in Hv as [i Hi].
    destruct (Forall2_lookup_r _ _ _ _ _ En Hi) as (member & Hm & name & _ & ->). split; cbn [dv_hostname dv_ip].
    + apply name_text_app; [apply slugify_ok|done].
    + apply Hip. by eapply list_elem_of_lookup_2.
  - apply Forall_forall. intros view (record & Hrec & Hv)%list_elem_of_omap. unfold service_view in Hv. unfold list_records in Hrec. rewrite sort_by_Permutation in Hrec.
    destruct (application_server repos _) as [[[server_id|]|]|]; [|done|done|done]. apply fmap_Some in Hv as (member & [Hm _]%find_first_Some & ->). split; cbn [dv_hostname dv_ip]; [|auto].
    rewrite Forall_forall in Hn. by apply Hn.
Qed.

(** Two service aliases never share a name, so a conflict involves a Node's. *)
Lemma service_views_unique suffix repos ledger table views v w : TableOk table -> resolve_dns_view suffix repos ledger table = Ok views ->
  v ∈ views -> w ∈ views -> v.(dv_hostname) = w.(dv_hostname) -> v.(dv_kind) <> NodeView -> w.(dv_kind) <> NodeView -> v = w.
Proof.
  intros [_ _ Hh _]. unfold resolve_dns_view, members_view. destruct (node_views _ _ _) as [nodes|e] eqn:En; [|done]. intros [= <-] Hv Hw Heq Hkv Hkw.
  assert (Hserv : forall x, x ∈ nodes ++ omap (service_view repos (list_members ledger)) (list_records table) -> x.(dv_kind) <> NodeView ->
    exists row, row ∈ table /\ service_view repos (list_members ledger) row = Some x /\ row.(dr_hostname) = x.(dv_hostname)).
  { intros x [Hx|Hx]%elem_of_app Hk.
    - apply node_views_spec in En. apply list_elem_of_lookup in Hx as [i Hi]. by destruct (Forall2_lookup_r _ _ _ _ _ En Hi) as (member & _ & name & _ & ->).
    - apply list_elem_of_omap in Hx as (row & Hrow & Hs). unfold list_records in Hrow. rewrite sort_by_Permutation in Hrow. exists row. split_and!; [done|done|].
      unfold service_view in Hs. destruct (application_server repos _) as [[[server_id|]|]|]; [|done|done|done]. by apply fmap_Some in Hs as (member & _ & ->). }
  destruct (Hserv v Hv Hkv) as (a & Ha & Hsa & Hna), (Hserv w Hw Hkw) as (b & Hb & Hsb & Hnb). assert (a = b); [|congruence].
  apply list_elem_of_lookup in Ha as [i Hi], Hb as [j Hj]. assert (i = j) as -> by (apply (unique_key dr_hostname table Hh i j a b); congruence). congruence.
Qed.

(** Whatever joins, leaves and alias changes came before, the fragment of
    [/etc/hosts] the desktop renders gives every Node and every service exactly
    its current mesh address - the first line for a name is the right one - and
    says nothing of any other name.  It is refused just when two Nodes, or a
    Node and a service, would share a name with different addresses. *)
Theorem private_names_resolve mesh_calls dns_calls suffix repos views :
  validate_dns_suffix suffix = Ok tt -> Forall call_suffix_ok dns_calls ->
  resolve_dns_view suffix repos (foldl apply_call [] mesh_calls) (foldl apply_dns [] dns_calls) = Ok views ->
  match render_hosts_fragment views with
  | Ok fragment =>
      (forall view, view ∈ views -> hosts_lookup fragment view.(dv_hostname) = Some view.(dv_ip)) /\
      (forall name, (forall view, view ∈ views -> view.(dv_hostname) <> name) -> hosts_lookup fragment name = None)
  | Err _ => exists v w, v ∈ views /\ w ∈ views /\ v.(dv_hostname) = w.(dv_hostname) /\ v.(dv_ip) <> w.(dv_ip) /\ (v.(dv_kind) = NodeView \/ w.(dv_kind) = NodeView)
  end.
Proof.
  intros Hsuf Hcalls Hres. pose proof (dns_calls_ok _ Hcalls _ TableOk_nil) as Ht. pose proof (calls_ok mesh_calls _ LedgerOk_nil) as Hl.
  pose proof (resolved_ok _ _ _ _ _ Hsuf Hl Ht Hres) as Hok. pose proof (render_spec views Hok) as Hr. destruct (render_hosts_fragment views) as [fragment|e].
  - destruct Hr as [-> Hc]. split.
    + intros view Hv. rewrite fragment_lookup by done. destruct (find_first _ views) as [w|] eqn:E.
      * apply find_first_Some in E as [Hw Hn%bool_decide_eq_true]. cbn. f_equal. destruct (decide (dv_ip w = dv_ip view)); [done|]. destruct Hc. exists view, w. auto.
      * rewrite find_first_None in E. specialize (E view Hv). by apply bool_decide_eq_false in E.
    + intros name Hn. rewrite fragment_lookup by done. destruct (find_first _ views) as [w|] eqn:E; [|done]. apply find_first_Some in E as [Hw He%bool_decide_eq_true]. by destruct (Hn w Hw).
  - destruct Hr as (v & w & Hv & Hw & Hn & Hd). exists v, w. split_and!; [done..|]. destruct (dv_kind v) eqn:Ev; [by left|]. destruct (dv_kind w) eqn:Ew; [by right|].
    destruct Hd. f_equal. eapply service_views_unique; [exact Ht|exact Hres|done|done|done|congruence|congruence].
Qed.
End history.

(** ** The block in the file *)

(** The delimiter a line's here-document waits for. *)
Fixpoint opens_heredoc (line : list Z) : option (list Z) :=
  match strip_prefix (lit "<<'") line with
  | Some rest => fst <$> split_once 39 rest
  | None => match line with [] => None | _ :: line => opens_heredoc line end
  end.

(** The text of a script's first here-document. *)
Fixpoint first_heredoc (lines : list (list Z)) : option (list (list Z)) :=
  match lines with
  | [] => None
  | line :: lines => match opens_heredoc line with Some delimiter => heredoc_lines delimiter lines | None => first_heredoc lines end
  end.
Definition delivered (script : list Z) : option (list Z) := (fun lines => lines ≫= fun line => line ++ [10]) <$> first_heredoc (split_on (Z.eqb 10) script).

(** Text whose last line is ended. *)
Definition unlines (lines : list (list Z)) : list Z := lines ≫= fun line => line ++ [10].
Definition one_line (line : list Z) : Prop := existsb (Z.eqb 10) line = false.
Definition fed (line : list Z) : list Z := line ++ [10].

Lemma one_line_cons c line : c <> 10 -> one_line line -> one_line (c :: line).
Proof. unfold one_line. intros Hc Hl. cbn [existsb]. rewrite Hl, orb_false_r. apply Z.eqb_neq. by apply not_eq_sym. Qed.

Lemma fed_lines_fed line s : one_line line -> fed_lines (fed line ++ s) = fed line :: fed_lines s.
Proof.
  unfold one_line, fed. induction line as [|c line IH]; [done|]. cbn [existsb app fed_lines]. rewrite Z.eqb_sym. intros [-> Hl]%orb_false_iff. by rewrite IH.
Qed.

Lemma fed_lines_unlines lines : Forall one_line lines -> fed_lines (unlines lines) = map fed lines.
Proof. induction 1 as [|line lines Hl _ IH]; [done|]. unfold unlines. rewrite bind_cons. fold (unlines lines). fold (fed line). rewrite fed_lines_fed by done. cbn. by rewrite IH. Qed.

Lemma concat_fed lines : concat (map fed lines) = unlines lines.
Proof. induction lines as [|line lines IH]; [done|]. cbn. by rewrite IH. Qed.

Lemma unlines_app a b : unlines (a ++ b) = unlines a ++ unlines b.
Proof. apply bind_app. Qed.

(** A file whose last line is ended is such a text. *)
Lemma ended_unlines s : ends_with_char 10 s = true \/ s = [] -> exists lines, s = unlines lines /\ Forall one_line lines.
Proof.
  intros He. assert (Hs : exists lines rest, s = unlines lines ++ rest /\ Forall one_line lines /\ one_line rest).
  { clear He. induction s as [|c s (lines & rest & -> & Hl & Hr)]; [by exists [], []|]. destruct (Z.eqb_spec c 10) as [->|Hc].
    - exists ([] :: lines), rest. by split_and!; [|constructor|].
    - destruct lines as [|line lines].
      + exists [], (c :: rest). split_and!; [done|done|]. by apply one_line_cons.
      + exists ((c :: line) :: lines), rest. inversion Hl; subst. split_and!; [done| |done]. constructor; [|done]. by apply one_line_cons. }
  destruct Hs as (lines & rest & -> & Hl & Hr). exists lines. destruct rest as [|c rest _] using rev_ind; [by rewrite app_nil_r|]. exfalso.
  unfold one_line in Hr. rewrite existsb_app in Hr. apply orb_false_iff in Hr as [_ Hc]. destruct He as [He|He].
  - rewrite app_assoc, ends_with_snoc in He. cbn [existsb] in Hc. rewrite orb_false_r in Hc. rewrite Z.eqb_sym, He in Hc. done.
  - by apply app_eq_nil in He as [_ []%app_eq_nil].
Qed.

(** What the deletion keeps are whole lines, none of which starts a range. *)
Lemma sed_delete_kept inside lines : Forall one_line lines -> exists kept,
  sed_delete BEGIN_MARKER END_MARKER inside (map fed lines) = map fed kept /\ Forall one_line kept /\ Forall (fun line => contains_str BEGIN_MARKER (fed line) = false) kept.
Proof.
  intros Hl. revert inside. induction Hl as [|line lines Hline _ IH]; intros inside; cbn [map sed_delete]; [by exists []|]. destruct inside; [apply IH|].
  destruct (contains_str BEGIN_MARKER (fed line)) eqn:E; [apply IH|]. destruct (IH false) as (kept & -> & H1 & H2). exists (line :: kept). by split_and!; [|constructor|constructor].
Qed.

Lemma sed_delete_clean kept rest : Forall (fun line => contains_str BEGIN_MARKER (fed line) = false) kept ->
  sed_delete BEGIN_MARKER END_MARKER false (map fed kept ++ rest) = map fed kept ++ sed_delete BEGIN_MARKER END_MARKER false rest.
Proof. induction 1 as [|line kept Hl _ IH]; [done|]. cbn [map app sed_delete]. rewrite Hl. by rewrite IH. Qed.

(** The whole block goes. *)
Lemma sed_delete_block views : Forall view_ok views -> sed_delete BEGIN_MARKER END_MARKER false (map fed (fragment_lines views)) = [].
Proof.
  intros Hv. unfold fragment_lines. cbn [map sed_delete]. replace (contains_str BEGIN_MARKER (fed BEGIN_MARKER)) with true by (symmetry; reflexivity).
  rewrite map_app. induction Hv as [|view views Hview _ IH]; [reflexivity|]. cbn [map app sed_delete].
  destruct (contains_str END_MARKER (fed (hosts_line view))) eqn:E; [|exact IH]. exfalso. apply contains_head in E. unfold fed in E.
  apply elem_of_app in E as [E|E]; [|by apply list_elem_of_singleton in E]. pose proof (hosts_line_misses view 35 Hview eq_refl ltac:(done)) as Hm.
  unfold contains_char in Hm. rewrite existsb_false_elem_of in Hm. specialize (Hm 35 E). done.
Qed.

Lemma fragment_one_line views : Forall view_ok views -> Forall one_line (fragment_lines views).
Proof.
  intros Hv. unfold fragment_lines. constructor; [done|]. apply Forall_app. split; [|by repeat constructor].
  apply Forall_map. eapply Forall_impl; [exact Hv|]. intros view Hview. by apply hosts_line_misses.
Qed.

Lemma assembled_twice hosts views fragment : ends_with_char 10 hosts = true \/ hosts = [] -> Forall view_ok views ->
  assembled (assembled hosts (fragment_of views)) fragment = assembled hosts fragment.
Proof.
  intros (lines & -> & Hl)%ended_unlines Hv. destruct (sed_delete_kept false lines Hl) as (kept & Hk & H1 & H2).
  unfold assembled at 2 3. rewrite fed_lines_unlines, Hk, concat_fed by done. unfold assembled. change (fragment_of views) with (unlines (fragment_lines views)).
  rewrite <-unlines_app, fed_lines_unlines by (apply Forall_app; split; [done|by apply fragment_one_line]). rewrite map_app, sed_delete_clean by done.
  rewrite sed_delete_block by done. by rewrite app_nil_r, concat_fed.
Qed.

Lemma assembled_fresh hosts fragment : ends_with_char 10 hosts = true \/ hosts = [] -> contains_str BEGIN_MARKER hosts = false -> assembled hosts fragment = hosts ++ fragment.
Proof.
  intros (lines & -> & Hl)%ended_unlines Hn. unfold assembled. rewrite fed_lines_unlines by done. f_equal.
  assert (Hc : Forall (fun line => contains_str BEGIN_MARKER (fed line) = false) lines).
  { apply Forall_forall. intros line (a & b & ->)%list_elem_of_split. destruct (contains_str BEGIN_MARKER (fed line)) eqn:E; [|done]. rewrite <-Hn. symmetry.
    apply contains_str_spec in E as (x & y & Hxy). rewrite unlines_app. change (unlines (line :: b)) with (fed line ++ unlines b). rewrite Hxy.
    apply contains_str_spec. exists (unlines a ++ x), (y ++ unlines b). by rewrite <-!app_assoc. }
  rewrite <-(app_nil_r (map fed lines)). rewrite sed_delete_clean by done. cbn [sed_delete]. by rewrite app_nil_r, concat_fed.
Qed.

(** ** Delivery *)

Lemma heredoc_lines_app delimiter lines rest : Forall (fun line => line <> delimiter) lines -> heredoc_lines delimiter (lines ++ delimiter :: rest) = Some lines.
Proof.
  induction 1 as [|line lines Hl _ IH]; cbn [app heredoc_lines].
  - unfold str_eqb. by rewrite bool_decide_eq_true_2.
  - unfold str_eqb. rewrite bool_decide_eq_false_2 by done. by rewrite IH.
Qed.

Lemma staged_is_delivered lines : Forall one_line lines -> Forall (fun line => line <> DELIMITER) lines -> delivered (stage_script (unlines lines)) = Some (unlines lines).
Proof.
  intros H1 H2. unfold delivered.
  set (opening := lit "set -e" ++ [10] ++ ensure_runtime_dirs_command ++ [10] ++ lit "sudo tee " ++ quote FRAGMENT_PATH ++ lit " >/dev/null <<'" ++ DELIMITER ++ lit "'").
  set (closing := lit "sudo chmod 644 " ++ quote FRAGMENT_PATH ++ [10]).
  assert (Hs : stage_script (unlines lines) = opening ++ 10 :: (unlines lines ++ DELIMITER ++ 10 :: closing)).
  { unfold stage_script, opening, closing. by rewrite <-!app_assoc. }
  rewrite Hs, split_on_snoc by done. assert (Hop : exists a b c, split_on (Z.eqb 10) opening = [a; b; c] /\ opens_heredoc a = None /\ opens_heredoc b = None /\ opens_heredoc c = Some DELIMITER).
  { eexists _, _, _. split; [vm_compute; reflexivity|]. split_and!; vm_compute; reflexivity. }
  destruct Hop as (a & b & c & -> & Ha & Hb & Hc). cbn [app first_heredoc]. rewrite Ha, Hb, Hc.
  assert (Hsplit : split_on (Z.eqb 10) (unlines lines ++ DELIMITER ++ 10 :: closing) = lines ++ DELIMITER :: split_on (Z.eqb 10) closing).
  { clear -H1. induction H1 as [|line lines Hl _ IH].
    - change (unlines []) with (@nil Z). cbn [app]. rewrite split_on_app; done.
    - change (unlines (line :: lines)) with (fed line ++ unlines lines). unfold fed. rewrite <-!app_assoc. cbn [app]. rewrite split_on_app by done. by rewrite IH. }
  rewrite Hsplit, heredoc_lines_app by done. done.
Qed.

Lemma fragment_not_delimiter views : Forall view_ok views -> Forall (fun line => line <> DELIMITER) (fragment_lines views).
Proof.
  intros Hv. unfold fragment_lines. constructor; [done|]. apply Forall_app. split; [|by repeat constructor]. apply Forall_map. eapply Forall_impl; [exact Hv|].
  intros view [Hh Hi] Heq. assert (H32 : 32 ∈ DELIMITER) by (rewrite <-Heq; unfold hosts_line; rewrite !elem_of_app; right; left; left).
  apply list_elem_of_In in H32. vm_compute in H32. repeat (destruct H32 as [H32|H32]; [discriminate H32|]). done.
Qed.

(** Pushing a fragment replaces the previous one and nothing else.  The
    here-document delivers exactly the rendered text.  In a file whose last line
    is ended the block of an earlier push is replaced by the new one whatever
    both held, and a Node that leaves gets back the file it had. *)
Theorem hosts_block_is_replaced hosts views views' fragment fragment' :
  Forall view_ok views -> Forall view_ok views' -> render_hosts_fragment views = Ok fragment -> render_hosts_fragment views' = Ok fragment' ->
  ends_with_char 10 hosts = true \/ hosts = [] ->
  delivered (stage_script fragment) = Some fragment /\ delivered (stage_script []) = Some [] /\
  assembled (assembled hosts fragment) fragment' = assembled hosts fragment' /\
  (contains_str BEGIN_MARKER hosts = false -> assembled hosts fragment = hosts ++ fragment /\ assembled (assembled hosts fragment) [] = hosts).
Proof.
  intros Hv Hv' Hf Hf' He. pose proof (render_spec views Hv) as Hr. rewrite Hf in Hr. destruct Hr as [-> _]. split_and!.
  - apply staged_is_delivered; [by apply fragment_one_line|by apply fragment_not_delimiter].
  - by apply (staged_is_delivered []).
  - by apply assembled_twice.
  - intros Hn. split; [by apply assembled_fresh|]. rewrite assembled_twice by done. rewrite assembled_fresh by done. by rewrite app_nil_r.
Qed.

Definition db_view : DnsView := mkDnsView (lit "db01.vibe") (lit "10.77.0.1") (ServiceView 7) 3.
Definition localhost : list Z := lit "127.0.0.1 localhost".

Lemma hosts_block_is_replaced_witness :
  exists fragment, render_hosts_fragment [db_view] = Ok fragment /\ assembled (assembled (localhost ++ [10]) fragment) [] = localhost ++ [10].
Proof.
  eexists. split; [vm_compute; reflexivity|].
  refine (proj2 (proj2 (proj2 (proj2 (hosts_block_is_replaced (localhost ++ [10]) [db_view] [db_view] _ _ _ _ _ _ _))) _)).
  - repeat constructor.
  - repeat constructor.
  - vm_compute. reflexivity.
  - vm_compute. reflexivity.
  - left. reflexivity.
  - vm_compute. reflexivity.
Defined.

(** The line feed at the end of the file matters: without it the first push
    puts the block's first line on the end of the last line, and the next push
    deletes that line with the block. *)
Example unended_line_is_lost :
  exists fragment, render_hosts_fragment [db_view] = Ok fragment /\
  hosts_lookup localhost (lit "localhost") = Some (lit "127.0.0.1") /\
  hosts_lookup (assembled (assembled localhost fragment) fragment) (lit "localhost") = None.
Proof. eexists. split; [vm_compute; reflexivity|]. split; vm_compute; reflexivity. Qed.

Lemma private_names_resolve_witness : exists views fragment,
  resolve_dns_view (lit ".vibe") (mkDnsRepositories (fun _ => Ok (Some (lit "Hetzner 01"))) (fun _ => Ok (Some (Some 3%N))))
    (foldl apply_call [] [Join 3 (lit "key") 0]) (foldl apply_dns [] [CreateAlias (lit ".vibe") [7%N] 1 7 (lit "DB01") 0]) = Ok views /\
  render_hosts_fragment views = Ok fragment /\ hosts_lookup fragment (lit "db01.vibe") = Some (lit "10.77.0.1").
Proof.
  set (repos := mkDnsRepositories _ _). set (views := [mkDnsView (lit "hetzner-01.vibe") (lit "10.77.0.1") NodeView 3; db_view]).
  assert (Hres : resolve_dns_view (lit ".vibe") repos (foldl apply_call [] [Join 3 (lit "key") 0]) (foldl apply_dns [] [CreateAlias (lit ".vibe") [7%N] 1 7 (lit "DB01") 0]) = Ok views)
    by (vm_compute; reflexivity).
  exists views. pose proof (private_names_resolve [Join 3 (lit "key") 0] [CreateAlias (lit ".vibe") [7%N] 1 7 (lit "DB01") 0] (lit ".vibe") repos views eq_refl ltac:(by repeat constructor) Hres) as Hp.
  destruct (render_hosts_fragment views) as [fragment|e] eqn:E; [|by vm_compute in E]. exists fragment. split_and!; [done|done|].
  destruct Hp as [Hp _]. apply (Hp db_view). apply list_elem_of_In. right. by left.
Defined.
