(* ===== verification/Network.v ===== *)
(** * Network: joining, leaving and syncing the private network

    [apps/desktop/src-tauri/src/services/network_service.rs], the operations of
    [network/wireguard.rs] on a Node, [services/dns_service.rs]'s sync, the
    retry of [services/ssh_service.rs] and [firewall_service::reconcile_node]
    around its attempt.

    The desktop talks to many Nodes: the class [Fleet].  The state of an
    operation holds the fleet, the ledger of members and a log of what happened,
    which no operation reads: the theorems speak of it. *)

From S2P Require Import Prelude Text Shell Sandbox Validators Ufw Firewall Sudoers MemberAccount Mesh Dns.

#[local] Open Scope Z_scope.

(** ** The fleet *)

(** The columns of a [Server] these services read. *)
Record Server : Type := mkServer { sv_name : list Z; sv_host : list Z; sv_ssh_port : Z; sv_connection_mode : ConnectionMode }.

(** The SSH sessions by server, and what the other repositories of the desktop hold.
    [disk] says whether the ledger's next statement fails, and how. *)
Class Fleet (World : Type) : Type := {
  connect : N -> World -> result AppError unit * World;
  forget : N -> World -> World;
  exec_on : N -> list Z -> World -> result (list Z) CommandOutput * World;
  write_on : N -> list Z -> list Z -> World -> result (list Z) unit * World;
  session_of : N -> World -> N;
  disk : World -> option (list Z) * World;
  clock : World -> Z * World;
  server_row : N -> World -> result AppError (option Server);
  applications_on : N -> World -> result AppError (list Application);
  ports_of : N -> World -> result AppError (list ApplicationPort);
  custom_rules_of : N -> World -> result AppError (list FirewallCustomRule);
  dns_table : World -> result AppError DnsTable;
  application_row : N -> World -> result AppError (option (option N));
}.

(** What happened on one session. *)
Inductive SessionEvent : Type :=
| Ran (command : list Z) (answer : result (list Z) CommandOutput)
| Wrote (path : list Z) (answer : result (list Z) unit).

Inductive NetEvent : Type :=
| Remote (server_id : N) (events : list SessionEvent)
| Connected (server_id : N) (answer : result AppError unit)
| Forgot (server_id : N)
| DiskFailed (statement : string) (detail : list Z).   (* which statement on the ledger failed, by its message, and how *)

(** One session, as the operations on a Node see it. *)
Record Session (World : Type) : Type := mkSession { se_world : World; se_server : N; se_log : list SessionEvent }.
Arguments mkSession {World} _ _ _.
Arguments se_world {World} _.
Arguments se_server {World} _.
Arguments se_log {World} _.

#[global] Instance session_connection {World : Type} `{Fleet World} : Connection (Session World) := {
  execute_command command n :=
    let '(r, w) := exec_on n.(se_server) command n.(se_world) in (r, mkSession w n.(se_server) (n.(se_log) ++ [Ran command r]));
  write_file path bytes n :=
    let '(r, w) := write_on n.(se_server) path bytes n.(se_world) in (r, mkSession w n.(se_server) (n.(se_log) ++ [Wrote path r]));
  session_id n := session_of n.(se_server) n.(se_world);
}.

Record Net (World : Type) : Type := mkNet { nt_world : World; nt_ledger : Ledger; nt_verified : gset N; nt_uuid : N; nt_log : list NetEvent }.
Arguments mkNet {World} _ _ _ _ _.
Arguments nt_world {World} _.
Arguments nt_ledger {World} _.
Arguments nt_verified {World} _.
Arguments nt_uuid {World} _.
Arguments nt_log {World} _.

Definition G (World A : Type) : Type := Net World -> result AppError A * Net World.

Section fleet.
Context {World : Type} `{Fleet World}.
Implicit Types s : Net World.

Definition gret {A} (a : A) : G World A := fun s => (Ok a, s).
Definition gthrow {A} (e : AppError) : G World A := fun s => (Err e, s).
Definition gbind {A B} (m : G World A) (f : A -> G World B) : G World B := fun s =>
  match m s with (Ok a, s) => f a s | (Err e, s) => (Err e, s) end.
Definition gattempt {A} (m : G World A) : G World (result AppError A) := fun s => let '(r, s) := m s in (Ok r, s).
Definition lift {A} (r : result AppError A) : G World A := fun s => (r, s).

(** A read of the other repositories. *)
Definition read {A} (f : World -> result AppError A) : G World A := fun s => (f s.(nt_world), s).

(** A statement on the ledger: it fails as the disk says, or runs. *)
Definition statement {A} (message : string) (f : Ledger -> World -> result AppError (A * Ledger) * World) : G World A := fun s =>
  match disk s.(nt_world) with
  | (Some detail, w) => (Err (Storage (lit message ++ detail)), mkNet w s.(nt_ledger) s.(nt_verified) s.(nt_uuid) (s.(nt_log) ++ [DiskFailed message detail]))
  | (None, w) =>
      match f s.(nt_ledger) w with
      | (Ok (a, ledger), w) => (Ok a, mkNet w ledger s.(nt_verified) s.(nt_uuid) s.(nt_log))
      | (Err e, w) => (Err e, mkNet w s.(nt_ledger) s.(nt_verified) s.(nt_uuid) s.(nt_log))
      end
  end.

(** [NodeNetworkRepository]. *)
Definition network_list : G World (list NodeNetworkMember) := statement "failed to list network members: " (fun ledger w => (Ok (list_members ledger, ledger), w)).
Definition network_get_member (server_id : N) : G World (option NodeNetworkMember) :=
  statement "failed to read the network member: " (fun ledger w => (Ok (get_member ledger server_id, ledger), w)).
Definition network_join (server_id : N) (public_key : list Z) : G World NodeNetworkMember :=
  statement "failed to record network membership: " (fun ledger w => let '(now, w) := clock w in (join_ ledger server_id public_key now, w)).
Definition network_leave (server_id : N) : G World unit :=
  statement "failed to remove network membership: " (fun ledger w => (match leave ledger server_id with Ok ledger => Ok (tt, ledger) | Err e => Err e end, w)).

Definition get_or_connect (server_id : N) : G World unit := fun s =>
  let '(r, w) := connect server_id s.(nt_world) in
  (r, mkNet w s.(nt_ledger) s.(nt_verified) s.(nt_uuid) (s.(nt_log) ++ [Connected server_id r])).

(** An operation on the session of one Node. *)
Definition on_node {A} (server_id : N) (m : F (Session World) A) : G World A := fun s =>
  let '(r, f) := m (mkFw (mkSession s.(nt_world) server_id []) s.(nt_verified) s.(nt_uuid)) in
  (r, mkNet f.(fw_node).(se_world) s.(nt_ledger) f.(fw_verified) f.(fw_uuid) (s.(nt_log) ++ [Remote server_id f.(fw_node).(se_log)])).

(** [sessions.remove]. *)
Definition remove_session (server_id : N) : G World unit := fun s =>
  (Ok tt, mkNet (forget server_id s.(nt_world)) s.(nt_ledger) s.(nt_verified) s.(nt_uuid) (s.(nt_log) ++ [Forgot server_id])).
End fleet.

Declare Scope net_scope.
Notation "x <- m ;; k" := (gbind m (fun x => k)) (at level 100, m at next level, right associativity) : net_scope.
Notation "m ;;; k" := (gbind m (fun _ => k)) (at level 100, right associativity) : net_scope.

(** [is_transport_failure]: [Internal], and the errors the code raises as [Connection]. *)
Definition is_transport_failure (e : AppError) : bool :=
  match e with
  | NotFound | Storage _ | InvalidInput _ | RefusedLockout _ | NetworkLeaveHasMeshPorts _ | DockerUnavailable | CronMissing _ | DiskLimitExceeded _ _
  | DatabaseServerUnavailable _ | DatabaseBindUnsupported | DatabaseFirewallRuleFailed _ | DatabaseSocketAuthOnly _ => false
  | Internal _ | Transport _ | ConnectionFailed _ | RulesNotApplied _ | RuleNotRemoved _ _ | NotEnabled _ | LivePortUnknown
  | HelperNotInstalled _ | ChainUnreadable | NotRestricted _ _ _ | EstablishedNotAllowed _ => true
  end.

(** ** WireGuard on one Node *)

Section wireguard.
Context {Node : Type} `{Connection Node}.
#[local] Open Scope fw_scope.

Definition answers_yes (output : CommandOutput) : bool := str_eqb (trim output.(stdout)) (lit "yes").

Definition detect_wg : F Node bool :=
  output <- run_command (lit "command -v wg wg-quick >/dev/null 2>&1 && echo yes || echo no") ;;
  ret (answers_yes output).

Definition install_if_missing : F Node unit :=
  present <- detect_wg ;;
  if (present : bool) then ret tt else
  has_apt <- run_command (lit "command -v apt-get >/dev/null 2>&1 && echo yes || echo no") ;;
  if negb (answers_yes has_apt) then throw (InvalidInput (mkInvalid (lit "WireGuard") (Other (lit "isn't installed on this Node")))) else
  output <- run_command (lit "DEBIAN_FRONTEND=noninteractive sudo apt-get update -qq && sudo apt-get install -y -qq wireguard-tools") ;;
  if negb (output.(exit_code) =? 0) then throw (ConnectionFailed (lit "couldn't install wireguard-tools: " ++ detail_or output "apt-get failed")) else ret tt.

Definition ensure_keypair : F Node (list Z) :=
  exists_ <- run_command (lit "test -f " ++ PRIVATE_KEY_PATH ++ lit " && echo yes || echo no") ;;
  (if negb (answers_yes exists_) then
     generate <- run_command (lit "umask 077 && mkdir -p /etc/wireguard && wg genkey | sudo tee " ++ PRIVATE_KEY_PATH ++ lit " >/dev/null && sudo chmod 600 " ++ PRIVATE_KEY_PATH) ;;
     if negb (generate.(exit_code) =? 0) then throw (ConnectionFailed (lit "couldn't generate a WireGuard keypair: " ++ detail_or generate "wg genkey failed")) else ret tt
   else ret tt) ;;;
  pubkey <- run_command (lit "sudo cat " ++ PRIVATE_KEY_PATH ++ lit " | wg pubkey") ;;
  if negb (pubkey.(exit_code) =? 0) || is_empty (trim pubkey.(stdout)) then throw (ConnectionFailed (lit "couldn't derive the WireGuard public key")) else
  ret (trim pubkey.(stdout)).

(** [wireguard::apply]. *)
Definition apply_config (own_ip : list Z) (peers : list Peer) : F Node unit :=
  match build_apply_script own_ip peers with
  | Err e => throw e
  | Ok script =>
      output <- run_command script ;;
      if negb (output.(exit_code) =? 0) then throw (ConnectionFailed (lit "couldn't apply the WireGuard config: " ++ detail_or output "wg-quick/wg syncconf failed")) else ret tt
  end.

Definition show_peers : F Node InterfaceState :=
  output <- run_command (lit "sudo wg show " ++ INTERFACE ++ lit " dump") ;;
  ret (classify_show_output output.(exit_code) output.(stdout) output.(stderr)).

(** The six attempts of [await_handshake]; the sleeps between them are left out. *)
Fixpoint await_handshake (attempts : nat) : F Node bool :=
  match attempts with
  | O => ret false
  | S attempts =>
      state <- show_peers ;;
      match state with
      | Up peers => if existsb (fun peer => 0 <? peer.(ps_latest_handshake_unix)) peers then ret true else await_handshake attempts
      | _ => await_handshake attempts
      end
  end.

Definition teardown : F Node unit :=
  output <- run_command teardown_script ;;
  if str_eqb (trim output.(stdout)) (lit "down") then ret tt
  else if str_eqb (trim output.(stdout)) (lit "enabled") then throw (ConnectionFailed (lit "the " ++ INTERFACE ++ lit " interface is down, but " ++ SERVICE ++ lit " is still enabled"))
  else throw (ConnectionFailed (lit "the " ++ INTERFACE ++ lit " interface is still up on this Node")).
End wireguard.

(** ** The services *)

Record MeshReconcileResult : Type := mkMeshResult { mm_server_id : N; mm_ok : bool; mm_error : option (list Z) }.

Inductive NetworkWarning : Type :=
| PeerNotUpdated (server_id : N) (message : list Z)
| NoHandshake
| FirewallWarning (message : list Z)
| DnsWarning (server_id : option N) (message : list Z)
| BindAddresses (message : list Z).

Record JoinOutcome : Type := mkJoinOutcome { jo_member : NodeNetworkMember; jo_warnings : list NetworkWarning }.

Definition peer_warnings (results : list MeshReconcileResult) (except : N) : list NetworkWarning :=
  map (fun result => PeerNotUpdated result.(mm_server_id) (default [] result.(mm_error)))
    (List.filter (fun result => negb (result.(mm_server_id) =? except)%N && negb result.(mm_ok)) results).

Definition require_ssh_mode (server : Server) : result AppError unit :=
  match server.(sv_connection_mode) with
  | SshMode => Ok tt
  | AgentMode => Err (InvalidInput (mkInvalid (lit "the Vibe Network") (Other (lit "is only supported for SSH-mode Nodes right now"))))
  end.

(** The peers of one member: every other one, at its own address. *)
Definition mesh_peers (members : list NodeNetworkMember) (hosts : gmap N (list Z)) (member : NodeNetworkMember) : list Peer :=
  map (fun other => mkPeer other.(nm_wireguard_public_key) (other.(nm_wireguard_ip) ++ lit "/32") (hosts !!! other.(nm_server_id) ++ lit ":" ++ to_dec LISTEN_PORT))
    (List.filter (fun other => negb (other.(nm_server_id) =? member.(nm_server_id))%N) members).

Section services.
Context {World : Type} `{Fleet World} `{UnicodeCase}.
(** The helper script of the container rules, which may be any text here, and [AppError::to_string]. *)
Context (HELPER_SCRIPT : list Z) (to_string : AppError -> list Z).
#[local] Open Scope net_scope.

Definition firewall_warning (outcome : result AppError FirewallSyncResult) : list NetworkWarning :=
  match outcome with
  | Ok result => match result.(sy_container_error) with Some e => [FirewallWarning (to_string e)] | None => [] end
  | Err err => [FirewallWarning (to_string err)]
  end.

Definition retry_on_connection_failure {A} (server_id : option N) (attempt : G World A) : G World A :=
  first <- gattempt attempt ;;
  match first with
  | Ok value => gret value
  | Err first_err =>
      if negb (is_transport_failure first_err) then gthrow first_err
      else match server_id with
           | None => gthrow first_err
           | Some server_id => remove_session server_id ;;; attempt
           end
  end.

(** [ssh_service::execute_command]. *)
Definition execute_on (server_id : N) (command : list Z) : G World CommandOutput :=
  retry_on_connection_failure (Some server_id) (get_or_connect server_id ;;; on_node server_id (run_command command)).

Fixpoint mesh_hosts (hosts : gmap N (list Z)) (members : list NodeNetworkMember) : G World (gmap N (list Z)) :=
  match members with
  | [] => gret hosts
  | member :: members =>
      server <- read (server_row member.(nm_server_id)) ;;
      match server with
      | None => gthrow NotFound
      | Some server => mesh_hosts (<[member.(nm_server_id) := server.(sv_host)]> hosts) members
      end
  end.

Fixpoint mesh_loop (members : list NodeNetworkMember) (hosts : gmap N (list Z)) (todo : list NodeNetworkMember) : G World (list MeshReconcileResult) :=
  match todo with
  | [] => gret []
  | member :: todo =>
      outcome <- gattempt (retry_on_connection_failure (Some member.(nm_server_id))
        (get_or_connect member.(nm_server_id) ;;; on_node member.(nm_server_id) (apply_config member.(nm_wireguard_ip) (mesh_peers members hosts member)))) ;;
      others <- mesh_loop members hosts todo ;;
      gret (match outcome with Ok _ => mkMeshResult member.(nm_server_id) true None | Err err => mkMeshResult member.(nm_server_id) false (Some (to_string err)) end :: others)
  end.

Definition reconcile_mesh : G World (list MeshReconcileResult) :=
  members <- network_list ;;
  match members with
  | [] => gret []
  | _ => hosts <- mesh_hosts ∅ members ;; mesh_loop members hosts members
  end.

(** What the repositories say of one Node, for the firewall. *)
Definition repositories (server_id : N) (membership : result AppError (option NodeNetworkMember)) (w : World) : Repositories :=
  mkRepositories
    (match server_row server_id w with Ok server => Ok (sv_ssh_port <$> server) | Err e => Err e end)
    (match membership with Ok member => Ok ((fun _ => tt) <$> member) | Err e => Err e end)
    (applications_on server_id w) (fun application_id => ports_of application_id w) (custom_rules_of server_id w).

(** [firewall_service::reconcile_node]. *)
Definition reconcile_firewall (server_id : N) : G World FirewallSyncResult :=
  membership <- gattempt (network_get_member server_id) ;;
  rules <- read (fun w => desired_rules (repositories server_id membership w)) ;;
  membership <- gattempt (network_get_member server_id) ;;
  container_rules <- read (fun w => desired_container_rules (repositories server_id membership w)) ;;
  retry_on_connection_failure (Some server_id) (get_or_connect server_id ;;; on_node server_id (reconcile_attempt HELPER_SCRIPT rules container_rules)).

Definition undo_join (server_id : N) : G World unit :=
  connection <- gattempt (get_or_connect server_id) ;;
  (match connection with Ok _ => gattempt (on_node server_id teardown) ;;; gret tt | Err _ => gret tt end) ;;;
  left <- gattempt (network_leave server_id) ;;
  match left with
  | Err _ => gret tt
  | Ok _ => gattempt reconcile_mesh ;;; gret tt
  end.

(** [join_node] from the recorded membership on. *)
Definition finish_join (server_id : N) (member : NodeNetworkMember) : G World JoinOutcome :=
  results <- gattempt reconcile_mesh ;;
  match results with
  | Err err => undo_join server_id ;;; gthrow err
  | Ok results =>
      match find_first (fun result => (result.(mm_server_id) =? server_id)%N && negb result.(mm_ok)) results with
      | Some own =>
          undo_join server_id ;;;
          gthrow (ConnectionFailed (lit "the tunnel couldn't be brought up on this Node, so it hasn't joined the Vibe Network: " ++ default [] own.(mm_error)))
      | None =>
          firewall <- gattempt (reconcile_firewall server_id) ;;
          let warnings := peer_warnings results server_id ++ firewall_warning firewall in
          if 1 <? Z.of_nat (length results) then
            answered <- gattempt (get_or_connect server_id ;;; on_node server_id (await_handshake 6)) ;;
            gret (mkJoinOutcome member (match answered with Ok true => warnings | _ => warnings ++ [NoHandshake] end))
          else gret (mkJoinOutcome member warnings)
      end
  end.

Definition join_node (server_id : N) : G World JoinOutcome :=
  server <- read (server_row server_id) ;;
  match server with
  | None => gthrow NotFound
  | Some server =>
      lift (require_ssh_mode server) ;;;
      existing <- network_get_member server_id ;;
      match existing with
      | Some existing => gret (mkJoinOutcome existing [])
      | None =>
          get_or_connect server_id ;;;
          on_node server_id install_if_missing ;;;
          public_key <- on_node server_id ensure_keypair ;;
          member <- network_join server_id public_key ;;
          finish_join server_id member
      end
  end.

Fixpoint mesh_ports (applications : list Application) : G World (list (list Z)) :=
  match applications with
  | [] => gret []
  | application :: applications =>
      ports <- read (ports_of application.(ap_id)) ;;
      others <- mesh_ports applications ;;
      gret (map (fun port => application.(ap_application_name) ++ lit " - " ++ port.(ap_name))
              (List.filter (fun port => bool_decide (port.(ap_visibility) = VibeNetwork)) ports) ++ others)
  end.

Definition leave_node (server_id : N) : G World (list NetworkWarning) :=
  applications <- read (applications_on server_id) ;;
  ports <- mesh_ports applications ;;
  match ports with
  | _ :: _ => gthrow (NetworkLeaveHasMeshPorts ports)
  | [] =>
      get_or_connect server_id ;;;
      on_node server_id teardown ;;;
      cleared <- gattempt (on_node server_id clear_hosts_block) ;;
      let warnings := match cleared with Ok _ => [] | Err err => [DnsWarning (Some server_id) (to_string err)] end in
      network_leave server_id ;;;
      results <- reconcile_mesh ;;
      firewall <- gattempt (reconcile_firewall server_id) ;;
      gret (warnings ++ peer_warnings results server_id ++ firewall_warning firewall)
  end.

(** ** Private DNS, and everything at once *)

Fixpoint dns_loop (fragment : list Z) (todo : list NodeNetworkMember) : G World (list MeshReconcileResult) :=
  match todo with
  | [] => gret []
  | member :: todo =>
      outcome <- gattempt (retry_on_connection_failure (Some member.(nm_server_id)) (get_or_connect member.(nm_server_id) ;;; on_node member.(nm_server_id) (push_fragment fragment))) ;;
      others <- dns_loop fragment todo ;;
      gret (match outcome with Ok _ => mkMeshResult member.(nm_server_id) true None | Err err => mkMeshResult member.(nm_server_id) false (Some (to_string err)) end :: others)
  end.

(** [DnsSyncResult] has the fields of [MeshReconcileResult]. *)
Definition sync_dns (suffix : list Z) : G World (list MeshReconcileResult) :=
  members <- network_list ;;
  table <- read dns_table ;;
  views <- read (fun w => members_view suffix
    (mkDnsRepositories (fun id => match server_row id w with Ok server => Ok (sv_name <$> server) | Err e => Err e end) (fun id => application_row id w)) members table) ;;
  fragment <- lift (render_hosts_fragment views) ;;
  members <- network_list ;;
  dns_loop fragment members.

Record VibeNetworkSyncResult : Type := mkVibeSync { vs_server_id : N; vs_ok : bool; vs_mesh_error : option (list Z); vs_firewall_error : option (list Z); vs_dns_error : option (list Z) }.

Definition error_of (results : list MeshReconcileResult) (server_id : N) : option (list Z) :=
  find_first (fun r => (r.(mm_server_id) =? server_id)%N) results ≫= mm_error.

Definition firewall_error (outcome : result AppError FirewallSyncResult) : option (list Z) :=
  match outcome with
  | Ok result => (fun err => lit "container ports are not restricted to the Vibe Network: " ++ to_string err) <$> result.(sy_container_error)
  | Err err => Some (to_string err)
  end.

Fixpoint vibe_loop (mesh_results dns_results : list MeshReconcileResult) (todo : list NodeNetworkMember) : G World (list VibeNetworkSyncResult) :=
  match todo with
  | [] => gret []
  | member :: todo =>
      let mesh_error := error_of mesh_results member.(nm_server_id) in
      let dns_error := error_of dns_results member.(nm_server_id) in
      outcome <- gattempt (reconcile_firewall member.(nm_server_id)) ;;
      let firewall_error := firewall_error outcome in
      others <- vibe_loop mesh_results dns_results todo ;;
      gret (mkVibeSync member.(nm_server_id)
              (negb (bool_decide (is_Some mesh_error)) && negb (bool_decide (is_Some dns_error)) && negb (bool_decide (is_Some firewall_error)))
              mesh_error firewall_error dns_error :: others)
  end.

Definition sync_vibe_network (suffix : list Z) : G World (list VibeNetworkSyncResult) :=
  members <- network_list ;;
  match members with
  | [] => gret []
  | _ =>
      mesh_results <- reconcile_mesh ;;
      dns_results <- sync_dns suffix ;;
      vibe_loop mesh_results dns_results members
  end.

(** ** What the tunnels are doing *)

Record PeerHandshake : Type := mkHandshake { ph_server_id : N; ph_latest_handshake_unix : Z; ph_rx_bytes : Z; ph_tx_bytes : Z }.
Inductive TunnelState : Type := TunnelUp | TunnelDown | TunnelUnknown | TunnelUnreachable.
Record NodeMeshStatus : Type := mkStatus { st_server_id : N; st_reachable : bool; st_tunnel : TunnelState; st_tunnel_error : option (list Z); st_peers : list PeerHandshake; st_unknown_peers : Z }.

(** The map from keys to servers: a later member takes a key's place. *)
Definition by_public_key (members : list NodeNetworkMember) : gmap (list Z) N :=
  foldl (fun keys member => <[member.(nm_wireguard_public_key) := member.(nm_server_id)]> keys) ∅ members.

Definition resolve_peers (keys : gmap (list Z) N) (peers : list PeerStatus) : list PeerHandshake :=
  omap (fun peer => (fun server_id => mkHandshake server_id peer.(ps_latest_handshake_unix) peer.(ps_rx_bytes) peer.(ps_tx_bytes)) <$> keys !! peer.(ps_public_key)) peers.

Definition status_of (keys : gmap (list Z) N) (server_id : N) (connected : result AppError unit) (shown : result AppError InterfaceState) : NodeMeshStatus :=
  match connected with
  | Err err => mkStatus server_id false TunnelUnreachable (Some (to_string err)) [] 0
  | Ok _ =>
      match shown with
      | Ok (Up peers) =>
          let resolved := resolve_peers keys peers in
          mkStatus server_id true TunnelUp None resolved (Z.of_nat (length peers) - Z.of_nat (length resolved))
      | Ok Missing => mkStatus server_id true TunnelDown None [] 0
      | Ok (Unreadable detail) => mkStatus server_id true TunnelUnknown (Some detail) [] 0
      | Err err => mkStatus server_id true TunnelUnknown (Some (to_string err)) [] 0
      end
  end.

Fixpoint status_loop (keys : gmap (list Z) N) (todo : list NodeNetworkMember) : G World (list NodeMeshStatus) :=
  match todo with
  | [] => gret []
  | member :: todo =>
      connected <- gattempt (get_or_connect member.(nm_server_id)) ;;
      shown <- gattempt (match connected with Ok _ => on_node member.(nm_server_id) show_peers | Err err => gthrow err end) ;;
      others <- status_loop keys todo ;;
      gret (status_of keys member.(nm_server_id) connected shown :: others)
  end.

Definition mesh_status : G World (list NodeMeshStatus) :=
  members <- network_list ;;
  status_loop (by_public_key members) members.

Definition verify_alias (hostname expected_ip : list Z) : G World bool :=
  lift (reject_unsafe hostname) ;;;
  members <- network_list ;;
  match members with
  | [] => gthrow (InvalidInput (mkInvalid (lit "the Vibe Network") (Other (lit "has no members to verify DNS from"))))
  | verifier :: _ =>
      output <- execute_on verifier.(nm_server_id) (lit "getent hosts " ++ quote hostname) ;;
      gret ((output.(exit_code) =? 0) && bool_decide (head (split_whitespace output.(stdout)) = Some expected_ip))
  end.
End services.

(** ** Reasoning about a run

    [runs m Q]: a run of [m] adds events to the log, and [Q] holds of the state
    before, the result, the state after and those events. *)

Section logic.
Context {World : Type} `{Fleet World}.
Implicit Types s : Net World.

Definition runs {A} (m : G World A) (Q : Net World -> result AppError A -> Net World -> list NetEvent -> Prop) : Prop :=
  forall s, exists l, (m s).2.(nt_log) = s.(nt_log) ++ l /\ Q s (m s).1 (m s).2 l.

Lemma runs_conseq {A} (m : G World A) (Q Q' : Net World -> result AppError A -> Net World -> list NetEvent -> Prop) :
  runs m Q' -> (forall s r s' l, Q' s r s' l -> Q s r s' l) -> runs m Q.
Proof. intros Hm Hq s. destruct (Hm s) as (l & Hl & HQ). exists l. auto. Qed.

Lemma runs_ret {A} (a : A) (Q : Net World -> result AppError A -> Net World -> list NetEvent -> Prop) : (forall s, Q s (Ok a) s []) -> runs (gret a) Q.
Proof. intros Hq s. exists []. rewrite app_nil_r. auto. Qed.

Lemma runs_throw {A} e (Q : Net World -> result AppError A -> Net World -> list NetEvent -> Prop) : (forall s, Q s (Err e) s []) -> runs (gthrow e) Q.
Proof. intros Hq s. exists []. rewrite app_nil_r. auto. Qed.

Lemma runs_bind {A B} (m : G World A) (f : A -> G World B) (R : Net World -> result AppError A -> Net World -> list NetEvent -> Prop) (Q : Net World -> result AppError B -> Net World -> list NetEvent -> Prop) :
  runs m R -> (forall s e s' l, R s (Err e) s' l -> Q s (Err e) s' l) ->
  (forall a, runs (f a) (fun s1 r s2 l2 => forall s0 l1, R s0 (Ok a) s1 l1 -> Q s0 r s2 (l1 ++ l2))) -> runs (gbind m f) Q.
Proof.
  intros Hm He Hf s. unfold gbind. destruct (Hm s) as (l1 & Hl1 & HR). destruct (m s) as [[a|e] s1]; cbn [fst snd] in *; [|by exists l1; auto].
  destruct (Hf a s1) as (l2 & Hl2 & HQ). exists (l1 ++ l2). split; [by rewrite Hl2, Hl1, app_assoc|]. by apply HQ.
Qed.

Lemma runs_attempt {A} (m : G World A) (Q : Net World -> result AppError (result AppError A) -> Net World -> list NetEvent -> Prop) :
  runs m (fun s r s' l => Q s (Ok r) s' l) -> runs (gattempt m) Q.
Proof. intros Hm s. unfold gattempt. destruct (Hm s) as (l & Hl & HQ). exists l. by destruct (m s). Qed.

Lemma runs_read {A} (f : World -> result AppError A) : runs (read f) (fun s r s' l => s' = s /\ l = [] /\ r = f s.(nt_world)).
Proof. intros s. exists []. rewrite app_nil_r. done. Qed.

Lemma runs_lift {A} (r : result AppError A) : runs (lift r) (fun s r' s' l => s' = s /\ l = [] /\ r' = r).
Proof. intros s. exists []. rewrite app_nil_r. done. Qed.

(** The ledger after a statement: as it was, or as the statement left it. *)
Lemma runs_statement {A} message (f : Ledger -> World -> result AppError (A * Ledger) * World) (Q : Net World -> result AppError A -> Net World -> list NetEvent -> Prop) :
  (forall s s' e detail, s'.(nt_ledger) = s.(nt_ledger) -> Q s (Err e) s' [DiskFailed message detail]) ->
  (forall s s' w r w', f s.(nt_ledger) w = (r, w') ->
     match r with Ok (a, ledger) => s'.(nt_ledger) = ledger -> Q s (Ok a) s' [] | Err e => s'.(nt_ledger) = s.(nt_ledger) -> Q s (Err e) s' [] end) ->
  runs (statement message f) Q.
Proof.
  intros Hd Hf s. unfold statement. destruct (disk (nt_world s)) as [[detail|] w]; [exists [DiskFailed message detail]; split; [done|]; by apply Hd|].
  destruct (f (nt_ledger s) w) as [[[a ledger]|e] w'] eqn:E; exists []; rewrite app_nil_r; (split; [done|]).
  - by apply (Hf _ (mkNet w' ledger (nt_verified s) (nt_uuid s) (nt_log s)) _ _ _ E).
  - by apply (Hf _ (mkNet w' (nt_ledger s) (nt_verified s) (nt_uuid s) (nt_log s)) _ _ _ E).
Qed.

(** Operations that leave the ledger alone. *)
Definition keeps {A} (m : G World A) : Prop := runs m (fun s _ s' _ => s'.(nt_ledger) = s.(nt_ledger)).

Lemma runs_on_node {A} server_id (m : F (Session World) A) (P : result AppError A -> list SessionEvent -> Prop) :
  (forall f, f.(fw_node).(se_log) = [] -> P (m f).1 (m f).2.(fw_node).(se_log)) ->
  runs (on_node server_id m) (fun s r s' l => s'.(nt_ledger) = s.(nt_ledger) /\ exists events, l = [Remote server_id events] /\ P r events).
Proof.
  intros Hm s. unfold on_node. specialize (Hm (mkFw (mkSession (nt_world s) server_id []) (nt_verified s) (nt_uuid s)) eq_refl). destruct (m _) as [r f]. cbn [fst snd] in *.
  eexists. split; [done|]. split; [done|]. eauto.
Qed.

Lemma runs_connect server_id : runs (get_or_connect server_id) (fun s r s' l => s'.(nt_ledger) = s.(nt_ledger) /\ l = [Connected server_id r]).
Proof. intros s. unfold get_or_connect. destruct (connect server_id (nt_world s)) as [r w]. by exists [Connected server_id r]. Qed.

Lemma ledger_bind {A B} (m : G World A) (f : A -> G World B) : keeps m -> (forall a, keeps (f a)) -> keeps (gbind m f).
Proof.
  intros Hm Hf. apply (runs_bind _ _ (fun s _ s' _ => nt_ledger s' = nt_ledger s)); [exact Hm|done|]. intros a. eapply runs_conseq; [apply Hf|]. intros s r s' l Hs s0 l1 H0. congruence.
Qed.

Lemma ledger_ret {A} (a : A) : keeps (gret a).
Proof. by apply runs_ret. Qed.
Lemma ledger_throw {A} e : keeps (A := A) (gthrow e).
Proof. by apply runs_throw. Qed.
Lemma ledger_attempt {A} (m : G World A) : keeps m -> keeps (gattempt m).
Proof. intros Hm. by apply runs_attempt. Qed.
Lemma ledger_read {A} (f : World -> result AppError A) : keeps (read f).
Proof. eapply runs_conseq; [apply runs_read|]. by intros s r s' l (-> & _). Qed.
Lemma ledger_lift {A} (r : result AppError A) : keeps (lift r).
Proof. eapply runs_conseq; [apply runs_lift|]. by intros s r' s' l (-> & _). Qed.
Lemma ledger_on_node {A} server_id (m : F (Session World) A) : keeps (on_node server_id m).
Proof. eapply runs_conseq; [by apply (runs_on_node _ _ (fun _ _ => True))|]. by intros s r s' l [? _]. Qed.
Lemma ledger_connect server_id : keeps (get_or_connect server_id).
Proof. eapply runs_conseq; [apply runs_connect|]. by intros s r s' l [? _]. Qed.
Lemma ledger_remove server_id : keeps (remove_session server_id).
Proof. intros s. by exists [Forgot server_id]. Qed.
Lemma ledger_list : keeps network_list.
Proof. apply runs_statement; [done|]. intros s s' w r w' [= <- <-]. done. Qed.
Lemma ledger_get server_id : keeps (network_get_member server_id).
Proof. apply runs_statement; [done|]. intros s s' w r w' [= <- <-]. done. Qed.
End logic.

Create HintDb keeps.
#[export] Hint Resolve ledger_ret ledger_throw ledger_attempt ledger_read ledger_lift ledger_on_node ledger_connect ledger_remove ledger_list ledger_get : keeps.
(** Every step of an operation leaves the ledger alone. *)
Ltac keeps_steps :=
  repeat match goal with
  | |- keeps (gbind _ _) => apply ledger_bind; [|intros ?]
  | |- keeps (gattempt _) => apply ledger_attempt
  | |- keeps (match _ with _ => _ end) => case_match
  | |- keeps _ => solve [auto with keeps]
  end.
