(* ===== verification/NetworkFlows.v ===== *)
(** * NetworkFlows: what joining, leaving and reconciling the mesh guarantee

    The theorems about the operations of [Network], whatever a Node answers,
    whichever connections break and whichever statements fail. *)

From S2P Require Import Prelude Text Shell Sandbox Validators Ufw Firewall Sudoers MemberAccount Mesh Dns Network.

#[local] Open Scope Z_scope.

(** ** Operations on one session *)

Section sessions.
Context {World : Type} `{Fleet World}.

Lemma session_run command (f : FwState (Session World)) : exists answer,
  (run_command command f).1 = (match answer with Ok out => Ok out | Err m => Err (Transport m) end) /\
  (run_command command f).2.(fw_node).(se_log) = f.(fw_node).(se_log) ++ [Ran command answer].
Proof. unfold run_command. cbn. destruct (exec_on _ _ _) as [r w]. by exists r. Qed.

(** The script of a member was run and ended with exit code zero. *)
Definition applied (own_ip : list Z) (peers : list Peer) (events : list SessionEvent) : Prop :=
  exists script output, build_apply_script own_ip peers = Ok script /\ output.(exit_code) = 0 /\ events = [Ran script (Ok output)].

Lemma apply_config_spec own_ip peers (f : FwState (Session World)) : f.(fw_node).(se_log) = [] ->
  (apply_config own_ip peers f).1 = Ok tt -> applied own_ip peers (apply_config own_ip peers f).2.(fw_node).(se_log).
Proof.
  intros Hf. unfold apply_config. destruct (build_apply_script own_ip peers) as [script|e] eqn:E; [|done]. unfold bind.
  destruct (session_run script f) as (answer & Hr & Hl). destruct (run_command script f) as [[output|e] f']; cbn [fst snd] in *; [|done].
  destruct answer as [out|m]; [injection Hr as ->|done]. destruct (Z.eqb_spec (exit_code out) 0) as [E0|]; cbn [negb]; [|done]. intros _.
  exists script, out. split_and!; [done|done|]. cbn. by rewrite Hl, Hf.
Qed.

(** The Node said that its interface is gone and stays gone. *)
Definition torn_down (events : list SessionEvent) : Prop := exists output, trim output.(stdout) = lit "down" /\ events = [Ran teardown_script (Ok output)].

Lemma teardown_spec (f : FwState (Session World)) : f.(fw_node).(se_log) = [] -> (teardown f).1 = Ok tt -> torn_down (teardown f).2.(fw_node).(se_log).
Proof.
  intros Hf. unfold teardown, bind. destruct (session_run teardown_script f) as (answer & Hr & Hl). destruct (run_command teardown_script f) as [[output|e] f']; cbn [fst snd] in *; [|done].
  destruct answer as [out|m]; [injection Hr as ->|done]. destruct (str_eqb (trim (stdout out)) (lit "down")) eqn:E.
  - intros _. exists out. apply bool_decide_eq_true in E. split; [done|]. cbn. by rewrite Hl, Hf.
  - by destruct (str_eqb (trim (stdout out)) (lit "enabled")).
Qed.
End sessions.

Section operations.
Context {World : Type} `{Fleet World} (to_string : AppError -> list Z).
Implicit Types s : Net World.
#[local] Open Scope net_scope.

Lemma runs_list (Q : Net World -> result AppError (list NodeNetworkMember) -> Net World -> list NetEvent -> Prop) :
  (forall s s' e detail, s'.(nt_ledger) = s.(nt_ledger) -> Q s (Err e) s' [DiskFailed "failed to list network members: " detail]) ->
  (forall s s', s'.(nt_ledger) = s.(nt_ledger) -> s'.(nt_world) = (disk s.(nt_world)).2 -> Q s (Ok (list_members s.(nt_ledger))) s' []) -> runs network_list Q.
Proof.
  intros Hd Hq s. unfold network_list, statement. specialize (Hq s). destruct (disk (nt_world s)) as [[detail|] w]; [exists [DiskFailed "failed to list network members: " detail]; split; [done|]; by apply Hd|].
  exists []. rewrite app_nil_r. split; [done|]. by apply Hq.
Qed.

(** [P] of the events of an attempt that succeeded: the first or, after a lost connection, the second. *)
Lemma runs_retry {A} server_id (m : G World A) (P : A -> list NetEvent -> Prop) :
  (forall a l1 l2, P a l2 -> P a (l1 ++ l2)) ->
  runs m (fun s r s' l => s'.(nt_ledger) = s.(nt_ledger) /\ match r with Ok a => P a l | Err _ => True end) ->
  runs (retry_on_connection_failure server_id m) (fun s r s' l => s'.(nt_ledger) = s.(nt_ledger) /\ match r with Ok a => P a l | Err _ => True end).
Proof.
  intros Hp Hm. unfold retry_on_connection_failure.
  apply (runs_bind _ _ (fun s r s' l => nt_ledger s' = nt_ledger s /\ match r with Ok (Ok a) => P a l | _ => True end)).
  - apply runs_attempt. exact Hm.
  - naive_solver.
  - intros [a|e].
    + apply runs_ret. intros s s0 l1 Hs. by rewrite app_nil_r.
    + assert (Ht : runs (A := A) (gthrow e) (fun s1 r s2 l2 => forall s0 l1, nt_ledger s1 = nt_ledger s0 /\ True ->
        nt_ledger s2 = nt_ledger s0 /\ match r with Ok a => P a (l1 ++ l2) | Err _ => True end)) by (apply runs_throw; by intros s s0 l1 [Hs _]).
      destruct (negb (is_transport_failure e)); [exact Ht|]. destruct server_id as [id|]; [|exact Ht].
      apply (runs_bind _ _ (fun s _ s' _ => nt_ledger s' = nt_ledger s)); [apply ledger_remove|by intros s e' s' l Hs s0 l1 [Hs0 _]; split; [congruence|]|]. intros []. eapply runs_conseq; [exact Hm|].
      intros s r s' l [Hl Hr] s0 l1 Hs s1 l2 [Hs1 _]. split; [congruence|]. destruct r as [a|e']; [|done]. by do 2 apply Hp.
Qed.

(** A member's configuration was applied, somewhere in these events. *)
Definition brought_up (member : NodeNetworkMember) (peers : list Peer) (l : list NetEvent) : Prop :=
  exists events, Remote member.(nm_server_id) events ∈ l /\ applied member.(nm_wireguard_ip) peers events.

Lemma brought_up_app member peers l1 l2 : brought_up member peers l1 \/ brought_up member peers l2 -> brought_up member peers (l1 ++ l2).
Proof. intros [(events & Hin & Ha)|(events & Hin & Ha)]; exists events; rewrite elem_of_app; auto. Qed.

Lemma runs_bring_up member peers :
  runs (retry_on_connection_failure (Some member.(nm_server_id)) (get_or_connect member.(nm_server_id) ;;; on_node member.(nm_server_id) (apply_config member.(nm_wireguard_ip) peers)))
    (fun s r s' l => s'.(nt_ledger) = s.(nt_ledger) /\ match r with Ok _ => brought_up member peers l | Err _ => True end).
Proof.
  apply (runs_retry _ _ (fun _ => brought_up member peers)); [intros [] l1 l2 Hl; apply brought_up_app; auto|].
  apply (runs_bind _ _ (fun s _ s' _ => nt_ledger s' = nt_ledger s)); [apply ledger_connect|done|]. intros [].
  eapply runs_conseq; [apply (runs_on_node _ _ (fun r events => r = Ok tt -> applied member.(nm_wireguard_ip) peers events)); intros f Hf; by apply apply_config_spec|].
  intros s r s' l [Hl (events & -> & Ha)] s0 l1 Hs. split; [congruence|]. destruct r as [[]|e]; [|done]. apply brought_up_app. right. exists events. split; [|auto]. by apply list_elem_of_singleton.
Qed.

Lemma runs_mesh_hosts members : forall hosts,
  runs (mesh_hosts hosts members) (fun s r s' l => s' = s /\ l = [] /\ match r with
    | Ok hosts' => (forall member, member ∈ members -> exists server, server_row member.(nm_server_id) s.(nt_world) = Ok (Some server) /\ hosts' !! member.(nm_server_id) = Some server.(sv_host)) /\
        (forall id, ~ id ∈ map nm_server_id members -> hosts' !! id = hosts !! id)
    | Err _ => True end).
Proof.
  induction members as [|member members IH]; intros hosts; cbn [mesh_hosts].
  - apply runs_ret. intros s. split_and!; [done|done|by intros m ?%elem_of_nil|done].
  - eapply runs_bind; [apply runs_read|by intros s e s' l (-> & -> & _)|]. intros [server|]; [|apply runs_throw; by intros s s0 l1 (-> & -> & _)]. eapply runs_conseq; [apply IH|].
    intros s r s' l (-> & -> & Hr) s0 l1 (-> & -> & Hread). split_and!; [done|done|]. destruct r as [hosts'|e]; [|done]. destruct Hr as [Hm Ho]. split.
    + intros m [->|Hin]%elem_of_cons; [|auto]. destruct (decide (nm_server_id member ∈ map nm_server_id members)) as [Hd|Hd].
      * apply list_elem_of_fmap in Hd as (m' & Heq & Hin). rewrite Heq. auto.
      * exists server. split; [done|]. rewrite Ho by done. by rewrite lookup_insert_eq.
    + intros id Hid. rewrite map_cons, not_elem_of_cons in Hid. destruct Hid as [Hne Hid]. rewrite Ho by done. by rewrite lookup_insert_ne.
Qed.

(** One result per member, in order, and what a good one means. *)
Definition reconciled (members : list NodeNetworkMember) (hosts : gmap N (list Z)) (todo : list NodeNetworkMember) (results : list MeshReconcileResult) (l : list NetEvent) : Prop :=
  Forall2 (fun member result => result.(mm_server_id) = member.(nm_server_id) /\ (result.(mm_ok) = true -> brought_up member (mesh_peers members hosts member) l)) todo results.

Lemma reconciled_app members hosts todo results l1 l2 : reconciled members hosts todo results l2 -> reconciled members hosts todo results (l1 ++ l2).
Proof. intros Hr. eapply Forall2_impl; [exact Hr|]. intros member result [Hid Hok]. split; [done|]. intros Ho. apply brought_up_app. auto. Qed.

Lemma runs_mesh_loop members hosts todo :
  runs (mesh_loop to_string members hosts todo) (fun s r s' l => s'.(nt_ledger) = s.(nt_ledger) /\ match r with Ok results => reconciled members hosts todo results l | Err _ => False end).
Proof.
  induction todo as [|member todo IH]; cbn [mesh_loop]; [apply runs_ret; intros s; split; [done|constructor]|].
  apply (runs_bind _ _ (fun s r s' l => nt_ledger s' = nt_ledger s /\ match r with Ok (Ok _) => brought_up member (mesh_peers members hosts member) l | Ok (Err _) => True | Err _ => False end)).
  { apply runs_attempt, runs_bring_up. }
  { by intros s e s' l [_ []]. }
  intros outcome. eapply runs_bind; [exact IH|by intros s e s' l [? []] s0 l1 Hs|]. intros others. apply runs_ret.
  intros s s0 l1 [Hs0 Hothers] s1 l2 [Hs1 Hout]. split; [congruence|]. rewrite app_nil_r. constructor; [|by apply reconciled_app].
  destruct outcome as [[]|e]; cbn; [|done]. split; [done|]. intros _. apply brought_up_app. auto.
Qed.

(** Where the members can be reached, when their list was read. *)
Definition hosts_known (members : list NodeNetworkMember) (w : World) (hosts : gmap N (list Z)) : Prop :=
  forall member, member ∈ members -> exists server, server_row member.(nm_server_id) w = Ok (Some server) /\ hosts !! member.(nm_server_id) = Some server.(sv_host).

Lemma runs_reconcile_mesh :
  runs (reconcile_mesh to_string) (fun s r s' l => s'.(nt_ledger) = s.(nt_ledger) /\ match r with
    | Ok results => exists hosts, hosts_known (list_members s.(nt_ledger)) (disk s.(nt_world)).2 hosts /\
        reconciled (list_members s.(nt_ledger)) hosts (list_members s.(nt_ledger)) results l
    | Err _ => True end).
Proof.
  unfold reconcile_mesh. apply (runs_bind _ _ (fun s r s' l => nt_ledger s' = nt_ledger s /\ match r with
    | Ok members => members = list_members (nt_ledger s) /\ nt_world s' = (disk (nt_world s)).2 /\ l = [] | Err _ => True end)).
  { by apply runs_list. }
  { by intros s e s' l [Hs _]. }
  intros members. destruct members as [|m0 members0] eqn:Em.
  - apply runs_ret. intros s s0 l1 (Hs & Hm & _ & ->). split; [done|]. exists ∅. rewrite <-Hm. split; [by intros m ?%elem_of_nil|constructor].
  - rewrite <-Em. eapply runs_bind; [apply runs_mesh_hosts|by intros s e s' l (-> & -> & _) s0 l1 (Hs & _)|]. intros hosts.
    eapply runs_conseq; [apply runs_mesh_loop|]. intros s r s' l [Hs Hr] s1 l1 (-> & -> & Hh & _) s0 l0 (Hs0 & -> & Hw & ->). split; [congruence|].
    destruct r as [results|e]; [|done]. exists hosts. split; [|done]. intros member Hin. rewrite <-Hw. by apply Hh.
Qed.

(** ** The ledger's two changes *)

Lemma runs_get server_id (Q : Net World -> result AppError (option NodeNetworkMember) -> Net World -> list NetEvent -> Prop) :
  (forall s s' e detail, s'.(nt_ledger) = s.(nt_ledger) -> Q s (Err e) s' [DiskFailed "failed to read the network member: " detail]) ->
  (forall s s', s'.(nt_ledger) = s.(nt_ledger) -> Q s (Ok (get_member s.(nt_ledger) server_id)) s' []) -> runs (network_get_member server_id) Q.
Proof. intros Hd Hq. apply runs_statement; [done|]. intros s s' w r w' [= <- <-]. auto. Qed.

Lemma runs_join server_id key (Q : Net World -> result AppError NodeNetworkMember -> Net World -> list NetEvent -> Prop) :
  (forall s s' e l, s'.(nt_ledger) = s.(nt_ledger) -> Q s (Err e) s' l) ->
  (forall s s' member ledger now, s'.(nt_ledger) = ledger -> join_ s.(nt_ledger) server_id key now = Ok (member, ledger) -> Q s (Ok member) s' []) -> runs (network_join server_id key) Q.
Proof.
  intros Hd Hq. apply runs_statement; [intros; by apply Hd|]. intros s s' w r w'. destruct (clock w) as [now w1]. intros [= <- <-].
  destruct (join_ (nt_ledger s) server_id key now) as [[member ledger]|e] eqn:E; [|by apply Hd]. intros Hs. by eapply Hq.
Qed.

Lemma runs_leave server_id (Q : Net World -> result AppError unit -> Net World -> list NetEvent -> Prop) :
  (forall s s' e l, s'.(nt_ledger) = s.(nt_ledger) -> l <> [] \/ leave s.(nt_ledger) server_id = Err e -> (forall d, d ∈ l -> exists detail, d = DiskFailed "failed to remove network membership: " detail) -> Q s (Err e) s' l) ->
  (forall s s' ledger, s'.(nt_ledger) = ledger -> leave s.(nt_ledger) server_id = Ok ledger -> Q s (Ok tt) s' []) -> runs (network_leave server_id) Q.
Proof.
  intros Hd Hq. apply runs_statement.
  - intros s s' e detail Hs. apply Hd; [done|by left|]. intros d ->%list_elem_of_singleton. eauto.
  - intros s s' w r w' [= <- <-]. destruct (leave (nt_ledger s) server_id) as [ledger|e] eqn:E; intros Hs; [by eapply Hq|]. apply Hd; [done|by right|]. by intros d ?%elem_of_nil.
Qed.

(** A member that joined last is taken out again without a trace. *)
Lemma leave_undoes_join ledger server_id key now member ledger' : join_ ledger server_id key now = Ok (member, ledger') ->
  ledger' = ledger ++ [member] /\ member.(nm_server_id) = server_id /\ allocate_ip ledger = Ok member.(nm_wireguard_ip) /\ leave ledger' server_id = Ok ledger.
Proof.
  unfold join_. intros (ip & Ha & Hb)%rbind_Ok. apply rbind_Ok in Hb as (l & Hi & [= <- <-]). apply insert_member_ok in Hi as [-> Hnew]. cbn [nm_server_id nm_wireguard_ip] in *.
  split_and!; [done|done|done|]. unfold leave. rewrite existsb_app. cbn [existsb nm_server_id]. rewrite N.eqb_refl, !orb_true_r. f_equal. rewrite List.filter_app. cbn [List.filter nm_server_id].
  rewrite N.eqb_refl. cbn [negb]. rewrite app_nil_r. apply forallb_filter_id, forallb_elem_of. intros row Hr. apply negb_true_iff, N.eqb_neq. intros Heq. apply Hnew. rewrite <-Heq.
  by apply list_elem_of_fmap_2.
Qed.

Lemma ledger_retry {A} server_id (m : G World A) : keeps m -> keeps (retry_on_connection_failure server_id m).
Proof. intros Hm. unfold retry_on_connection_failure. keeps_steps. Qed.

Lemma ledger_firewall `{UnicodeCase} HELPER_SCRIPT server_id : keeps (reconcile_firewall HELPER_SCRIPT server_id).
Proof. unfold reconcile_firewall. keeps_steps. all: apply ledger_retry; keeps_steps. Qed.
End operations.

(** ** Joining and leaving *)

Section flows.
Context {World : Type} `{Fleet World} `{UnicodeCase} (HELPER_SCRIPT : list Z) (to_string : AppError -> list Z).
Implicit Types s : Net World.

(** The statement that takes a member out failed. *)
Definition removal_failed (l : list NetEvent) : Prop := exists detail, DiskFailed "failed to remove network membership: " detail ∈ l.

Lemma removal_failed_app l1 l2 : removal_failed l1 \/ removal_failed l2 -> removal_failed (l1 ++ l2).
Proof. intros [[m Hm]|[m Hm]]; exists m; rewrite elem_of_app; auto. Qed.

Lemma runs_attempted {A} (m : G World A) : keeps m -> runs (gattempt m) (fun s r s' _ => s'.(nt_ledger) = s.(nt_ledger) /\ exists a, r = Ok a).
Proof. intros Hm. apply runs_attempt. eapply runs_conseq; [exact Hm|]. eauto. Qed.

Lemma ledger_reconcile_mesh : keeps (reconcile_mesh to_string).
Proof. eapply runs_conseq; [apply runs_reconcile_mesh|]. by intros s r s' l [Hs _]. Qed.

(** Undoing takes the member out, unless the statement itself fails. *)
Lemma runs_undo_join server_id ledger :
  runs (undo_join to_string server_id) (fun s r s' l => leave s.(nt_ledger) server_id = Ok ledger ->
    r = Ok tt /\ (s'.(nt_ledger) = ledger \/ s'.(nt_ledger) = s.(nt_ledger) /\ removal_failed l)).
Proof.
  unfold undo_join. eapply runs_bind; [apply runs_attempted, ledger_connect|by intros s e s' l [_ [a Ha]]|].
  intros connection. apply (runs_bind _ _ (fun s r s' _ => nt_ledger s' = nt_ledger s /\ r = Ok tt)).
  { destruct connection as [[]|e]; [|by apply runs_ret]. eapply runs_bind; [apply runs_attempted, ledger_on_node|by intros s e s' l [_ [a Ha]]|].
    intros a. apply runs_ret. by intros s s0 l1 [Hs _]. }
  { by intros s e s' l [_ ?]. }
  intros []. apply (runs_bind _ _ (fun s r s' l => (r = Ok (Ok tt) /\ leave s.(nt_ledger) server_id = Ok (nt_ledger s')) \/
    exists e, r = Ok (Err e) /\ nt_ledger s' = nt_ledger s /\ (leave s.(nt_ledger) server_id = Ok ledger -> removal_failed l))).
  { apply runs_attempt. apply runs_leave.
    - intros s s' e l Hs Hl Hd. right. exists e. split_and!; [done|done|]. intros Hok. destruct Hl as [Hl|Hl]; [|congruence]. destruct l as [|d l]; [done|].
      destruct (Hd d) as [m ->]; [left|]. exists m. left.
    - intros s s' ledger' Hs Hl. left. split; [done|]. by rewrite Hs. }
  { by intros s e s' l [[? _]|(? & ? & _)]. }
  intros [[]|e].
  - eapply runs_bind; [apply runs_attempted, ledger_reconcile_mesh|by intros s e s' l [_ [a Ha]]|].
    intros a. apply runs_ret. intros s s1 l1 [Hs1 _] s2 l2 [[_ Hl]|(e & [=] & _)] s3 l3 [Hs3 _] s4 l4 [Hs4 _] Hok. split; [done|]. left. congruence.
  - apply runs_ret. intros s s2 l2 [[[=] _]|(e' & _ & Hs2 & Hd)] s3 l3 [Hs3 _] s4 l4 [Hs4 _] Hok. split; [done|]. right. split; [congruence|].
    apply removal_failed_app. right. apply removal_failed_app. right. apply removal_failed_app. left. apply Hd. congruence.
Qed.

(** The own tunnel is up, with every other member as a peer. *)
Definition tunnel_up (ledger : Ledger) (member : NodeNetworkMember) (l : list NetEvent) : Prop :=
  exists w hosts, hosts_known (list_members ledger) w hosts /\ brought_up member (mesh_peers (list_members ledger) hosts member) l.

Lemma tunnel_up_app ledger member l1 l2 : tunnel_up ledger member l1 \/ tunnel_up ledger member l2 -> tunnel_up ledger member (l1 ++ l2).
Proof. intros [(w & hosts & Hh & Hb)|(w & hosts & Hh & Hb)]; exists w, hosts; (split; [done|]); apply brought_up_app; auto. Qed.

Lemma own_result ledger member hosts results l : member ∈ ledger -> reconciled (list_members ledger) hosts (list_members ledger) results l ->
  find_first (fun result => (result.(mm_server_id) =? member.(nm_server_id))%N && negb result.(mm_ok)) results = None ->
  brought_up member (mesh_peers (list_members ledger) hosts member) l.
Proof.
  intros Hin Hr Hn. unfold list_members in *. assert (Hin' : member ∈ sort_by (fun a b => str_ltb (nm_wireguard_ip a) (nm_wireguard_ip b)) ledger) by (by rewrite sort_by_Permutation).
  apply list_elem_of_lookup in Hin' as [i Hi]. destruct (Forall2_lookup_l _ _ _ _ _ Hr Hi) as (result & Hres & Hid & Hok). apply Hok.
  rewrite find_first_None in Hn. specialize (Hn result (list_elem_of_lookup_2 _ _ _ Hres)). rewrite Hid, N.eqb_refl in Hn. by apply negb_false_iff in Hn.
Qed.

(** What the reconcile of a join reported. *)
Definition mesh_reported (ledger : Ledger) (outcome : result AppError (list MeshReconcileResult)) (l : list NetEvent) : Prop :=
  match outcome with
  | Ok results => exists w hosts, hosts_known (list_members ledger) w hosts /\ reconciled (list_members ledger) hosts (list_members ledger) results l
  | Err _ => True
  end.

(** What finishing a join of [member], the newest of the ledger, comes to. *)
Definition finished (server_id : N) (member : NodeNetworkMember) (ledger : Ledger) (before : Ledger) (r : result AppError JoinOutcome) (after : Ledger) (l : list NetEvent) : Prop :=
  before = ledger ++ [member] -> member.(nm_server_id) = server_id -> leave before server_id = Ok ledger ->
  match r with
  | Ok outcome => outcome.(jo_member) = member /\ after = before /\ tunnel_up before member l
  | Err _ => after = ledger \/ after = before /\ removal_failed l
  end.

Lemma runs_undone server_id member ledger e (P : Net World -> list NetEvent -> Prop) :
  runs (gbind (undo_join to_string server_id) (fun _ => gthrow (A := JoinOutcome) e))
    (fun s1 r s2 l2 => forall s0 l1, s1.(nt_ledger) = s0.(nt_ledger) /\ P s0 l1 -> finished server_id member ledger s0.(nt_ledger) r s2.(nt_ledger) (l1 ++ l2)).
Proof.
  eapply runs_bind; [apply (runs_undo_join server_id ledger)| |].
  - intros s e' s' l Hu s0 l1 [Hs _] HL Hid Hle. destruct Hu as [[=] _]. congruence.
  - intros []. apply runs_throw. intros s s1 l1 Hu s0 l0 [Hs _] HL Hid Hle. rewrite app_nil_r. destruct Hu as [_ [Hu|[Hu Hd]]]; [congruence|by left|]. right. split; [congruence|].
    apply removal_failed_app. by right.
Qed.

Lemma runs_finish_join server_id member ledger :
  runs (finish_join HELPER_SCRIPT to_string server_id member) (fun s r s' l => finished server_id member ledger s.(nt_ledger) r s'.(nt_ledger) l).
Proof.
  unfold finish_join. apply (runs_bind _ _ (fun s r s' l => nt_ledger s' = nt_ledger s /\ exists outcome, r = Ok outcome /\ mesh_reported (nt_ledger s) outcome l)).
  { apply runs_attempt. eapply runs_conseq; [apply runs_reconcile_mesh|]. intros s r s' l [Hs Hr]. split; [done|]. exists r. split; [done|]. destruct r as [results|e]; [|done].
    destruct Hr as (hosts & Hh & Hrec). exists (disk (nt_world s)).2, hosts. done. }
  { by intros s e s' l [_ (? & ? & _)]. }
  intros [results|e]; [|apply runs_undone]. destruct (find_first _ results) as [own|] eqn:Ef; [apply runs_undone|].
  match goal with |- runs ?m _ => cut (runs m (fun s r s' _ => s'.(nt_ledger) = s.(nt_ledger) /\ exists warnings, r = Ok (mkJoinOutcome member warnings))) end.
  { intros Hm. eapply runs_conseq; [exact Hm|]. intros s r s' l [Hs [warnings ->]] s0 l1 [Hs0 (outcome & [= <-] & w & hosts & Hh & Hrec)] HL Hid Hle.
    split_and!; [done|congruence|]. apply tunnel_up_app. left. exists w, hosts. split; [done|]. eapply own_result; [|exact Hrec|by rewrite Hid].
    rewrite HL. apply elem_of_app. right. left. }
  eapply runs_bind; [apply runs_attempted, ledger_firewall|by intros s e s' l [_ [a Ha]]|].
  intros firewall. destruct (1 <? Z.of_nat (length results)).
  - eapply runs_bind; [apply runs_attempted, ledger_bind; [apply ledger_connect|intros ?; apply ledger_on_node]|by intros s e s' l [_ [a Ha]]|].
    intros answered. apply runs_ret. intros s s1 l1 [Hs1 _] s0 l0 [Hs0 _]. split; [congruence|]. eauto.
  - apply runs_ret. intros s s0 l0 [Hs0 _]. eauto.
Qed.

(** A step that leaves the ledger alone, before an outcome that only depends on it. *)
Lemma runs_skip {A B} (m : G World A) (f : A -> G World B) (Q : Ledger -> result AppError B -> Ledger -> list NetEvent -> Prop) :
  keeps m -> (forall ledger e l, Q ledger (Err e) ledger l) -> (forall ledger r ledger' l1 l2, Q ledger r ledger' l2 -> Q ledger r ledger' (l1 ++ l2)) ->
  (forall a, runs (f a) (fun s r s' l => Q s.(nt_ledger) r s'.(nt_ledger) l)) -> runs (gbind m f) (fun s r s' l => Q s.(nt_ledger) r s'.(nt_ledger) l).
Proof.
  intros Hm He Hl Hf. apply (runs_bind _ _ (fun s _ s' _ => nt_ledger s' = nt_ledger s)); [exact Hm|intros s e s' l Hs; rewrite Hs; apply He|]. intros a.
  eapply runs_conseq; [apply Hf|]. intros s r s' l HQ s0 l1 Hs. rewrite <-Hs. by apply Hl.
Qed.

(** What a join comes to. *)
Definition join_result (server_id : N) (before : Ledger) (r : result AppError JoinOutcome) (after : Ledger) (l : list NetEvent) : Prop :=
  match r with
  | Ok outcome =>
      (get_member before server_id = Some outcome.(jo_member) /\ after = before) \/
      (after = before ++ [outcome.(jo_member)] /\ outcome.(jo_member).(nm_server_id) = server_id /\
       allocate_ip before = Ok outcome.(jo_member).(nm_wireguard_ip) /\ tunnel_up after outcome.(jo_member) l)
  | Err _ => after = before \/ (exists member, after = before ++ [member]) /\ removal_failed l
  end.

Lemma join_result_app server_id before r after l1 l2 : join_result server_id before r after l2 -> join_result server_id before r after (l1 ++ l2).
Proof.
  destruct r as [outcome|e]; cbn.
  - intros [?|(? & ? & ? & Ht)]; [by left|right]. split_and!; [done..|]. apply tunnel_up_app. by right.
  - intros [?|[? Hd]]; [by left|right]. split; [done|]. apply removal_failed_app. by right.
Qed.

Lemma runs_join_node server_id : runs (join_node HELPER_SCRIPT to_string server_id) (fun s r s' l => join_result server_id s.(nt_ledger) r s'.(nt_ledger) l).
Proof.
  pose proof (fun ledger r ledger' => join_result_app server_id ledger r ledger') as Happ. assert (Herr : forall ledger e l, join_result server_id ledger (Err e) ledger l) by (by left).
  unfold join_node. apply runs_skip; [apply ledger_read|done|done|]. intros [server|]; [|apply runs_throw; auto]. apply runs_skip; [apply ledger_lift|done|done|]. intros [].
  apply (runs_bind _ _ (fun s r s' l => nt_ledger s' = nt_ledger s /\ match r with Ok existing => existing = get_member (nt_ledger s) server_id | Err _ => True end)).
  { by apply runs_get. }
  { intros s e s' l [Hs _]. rewrite Hs. apply Herr. }
  intros [existing|].
  { apply runs_ret. intros s s0 l1 [Hs Hg]. left. cbn. by rewrite <-Hg, Hs. }
  cut (runs (gbind (get_or_connect server_id) (fun _ => gbind (on_node server_id install_if_missing) (fun _ => gbind (on_node server_id ensure_keypair) (fun public_key =>
    gbind (network_join server_id public_key) (fun member => finish_join HELPER_SCRIPT to_string server_id member))))) (fun s r s' l => join_result server_id s.(nt_ledger) r s'.(nt_ledger) l)).
  { intros Hm. eapply runs_conseq; [exact Hm|]. intros s r s' l Hr s0 l1 [Hs _]. rewrite <-Hs. by apply Happ. }
  apply runs_skip; [apply ledger_connect|done|done|]. intros []. apply runs_skip; [apply ledger_on_node|done|done|]. intros []. apply runs_skip; [apply ledger_on_node|done|done|]. intros key.
  apply (runs_bind _ _ (fun s r s' l => match r with Ok member => l = [] /\ exists now, join_ s.(nt_ledger) server_id key now = Ok (member, nt_ledger s') | Err _ => nt_ledger s' = nt_ledger s end)).
  { apply runs_join; [done|]. intros s s' member ledger now <- Hj. split; [done|]. by exists now. }
  { intros s e s' l Hs. rewrite Hs. apply Herr. }
  intros member s1. destruct (runs_finish_join server_id member (removelast (nt_ledger s1)) s1) as (l & Hl & Hf). exists l. split; [exact Hl|]. intros s0 l1 [-> [now Hj]].
  apply leave_undoes_join in Hj as (HL & Hid & Ha & Hle). cbn [app]. rewrite HL, removelast_last in Hf. rewrite <-HL in Hf. specialize (Hf HL Hid Hle).
  destruct (finish_join _ _ _ _ s1).1 as [outcome|e]; cbn.
  - destruct Hf as (-> & Hafter & Ht). right. rewrite Hafter. by split_and!.
  - destruct Hf as [Hf|[Hf Hd]]; [by left|right]. split; [|done]. exists member. congruence.
Qed.

(** The membership went, after the Node's own word that its tunnel is down. *)
Definition departed (server_id : N) (before after : Ledger) (l : list NetEvent) : Prop :=
  leave before server_id = Ok after /\ exists events, Remote server_id events ∈ l /\ torn_down events.

Definition leave_result (server_id : N) (before : Ledger) (r : result AppError (list NetworkWarning)) (after : Ledger) (l : list NetEvent) : Prop :=
  match r with
  | Ok _ => departed server_id before after l
  | Err _ => after = before \/ departed server_id before after l
  end.

Lemma leave_result_app server_id before r after l1 l2 : leave_result server_id before r after l2 -> leave_result server_id before r after (l1 ++ l2).
Proof.
  assert (Hd : departed server_id before after l2 -> departed server_id before after (l1 ++ l2)).
  { intros [Hl (events & Hin & Ht)]. split; [done|]. exists events. rewrite elem_of_app. auto. }
  destruct r; cbn; [done|]. intros [?|?]; auto.
Qed.

(** The part of [leave_node] that changes something. *)
Definition do_leave (server_id : N) : G World (list NetworkWarning) :=
  gbind (get_or_connect server_id) (fun _ => gbind (on_node server_id teardown) (fun _ => gbind (gattempt (on_node server_id clear_hosts_block)) (fun cleared =>
    let warnings := match cleared with Ok _ => [] | Err err => [DnsWarning (Some server_id) (to_string err)] end in
    gbind (network_leave server_id) (fun _ => gbind (reconcile_mesh to_string) (fun results => gbind (gattempt (reconcile_firewall HELPER_SCRIPT server_id)) (fun firewall =>
      gret (warnings ++ peer_warnings results server_id ++ firewall_warning to_string firewall))))))).

Lemma runs_do_leave server_id : runs (do_leave server_id) (fun s r s' l => leave_result server_id s.(nt_ledger) r s'.(nt_ledger) l).
Proof.
  unfold do_leave. apply runs_skip; [apply ledger_connect|by left|intros; by apply leave_result_app|]. intros [].
  apply (runs_bind _ _ (fun s r s' l => nt_ledger s' = nt_ledger s /\ match r with Ok _ => exists events, l = [Remote server_id events] /\ torn_down events | Err _ => True end)).
  { eapply runs_conseq; [apply (runs_on_node _ _ (fun r events => r = Ok tt -> torn_down events)); intros f Hf; by apply teardown_spec|].
    intros s r s' l [Hs (events & -> & Ht)]. split; [done|]. destruct r as [[]|e]; [|done]. eauto. }
  { intros s e s' l [Hs _]. left. done. }
  intros []. match goal with |- runs ?m _ => cut (runs m (fun s r s' _ => match r with Ok _ => leave (nt_ledger s) server_id = Ok (nt_ledger s') | Err _ => nt_ledger s' = nt_ledger s \/ leave (nt_ledger s) server_id = Ok (nt_ledger s') end)) end.
  { intros Hm. eapply runs_conseq; [exact Hm|]. intros s r s' l Hr s0 l1 [Hs (events & -> & Ht)].
    assert (Hd : leave (nt_ledger s) server_id = Ok (nt_ledger s') -> departed server_id (nt_ledger s0) (nt_ledger s') ([Remote server_id events] ++ l)).
    { intros Hl. split; [congruence|]. exists events. split; [by left|done]. }
    destruct r as [w|e]; cbn; [auto|]. destruct Hr as [Hr|Hr]; [left; congruence|auto]. }
  eapply runs_bind; [apply runs_attempted, ledger_on_node|by intros s e s' l [_ [a Ha]]|]. intros cleared.
  apply (runs_bind _ _ (fun s r s' _ => match r with Ok _ => leave (nt_ledger s) server_id = Ok (nt_ledger s') | Err _ => nt_ledger s' = nt_ledger s end)).
  { apply runs_leave; [done|]. by intros s s' ledger <-. }
  { intros s e s' l Hs s0 l1 [Hs0 _]. left. congruence. }
  intros []. match goal with |- runs ?m _ => assert (Hk : keeps m) end.
  { apply ledger_bind; [apply ledger_reconcile_mesh|]. intros results. apply ledger_bind; [apply ledger_attempt, ledger_firewall|]. intros firewall. apply ledger_ret. }
  eapply runs_conseq; [exact Hk|]. intros s1 r s2 l Hs s0 l1 Hl s l2 [Hs0 _]. destruct r; [|right]; congruence.
Qed.

(** What [mesh_ports] finds of applications whose ports can be read. *)
Lemma mesh_ports_read s applications : (forall application, application ∈ applications -> exists ports, ports_of application.(ap_id) s.(nt_world) = Ok ports) ->
  exists found, mesh_ports applications s = (Ok found, s) /\
    (forall application ports port, application ∈ applications -> ports_of application.(ap_id) s.(nt_world) = Ok ports -> port ∈ ports -> port.(ap_visibility) = VibeNetwork -> found <> []).
Proof.
  induction applications as [|a applications IH]; intros Hall; cbn [mesh_ports]; [exists []; split; [done|]; by intros ? ? ? ?%elem_of_nil|].
  destruct (Hall a) as [ports Hp]; [left|]. destruct IH as (found & Hf & Hne); [intros x Hx; apply Hall; by right|].
  unfold gbind, read. rewrite Hp, Hf. eexists. split; [reflexivity|]. intros x ports' port [->|Hx]%elem_of_cons Hp' Hport Hv.
  - rewrite Hp in Hp'. injection Hp' as <-. intros Hnil. apply app_eq_nil in Hnil as [Hnil _]. apply map_eq_nil in Hnil.
    assert (Hin : port ∈ List.filter (fun port => bool_decide (ap_visibility port = VibeNetwork)) ports) by (apply list_elem_of_In, filter_In; split; [by apply list_elem_of_In|by apply bool_decide_eq_true]).
    rewrite Hnil in Hin. by apply elem_of_nil in Hin.
  - intros Hnil. apply app_eq_nil in Hnil as [_ Hnil]. by apply (Hne x ports' port Hx Hp' Hport Hv).
Qed.

Lemma runs_leave_node server_id : runs (leave_node HELPER_SCRIPT to_string server_id) (fun s r s' l => leave_result server_id s.(nt_ledger) r s'.(nt_ledger) l).
Proof.
  assert (Hp : forall applications, keeps (mesh_ports applications)).
  { induction applications as [|a applications IH]; cbn [mesh_ports]; [apply ledger_ret|]. apply ledger_bind; [apply ledger_read|]. intros ports. apply ledger_bind; [exact IH|]. intros others. apply ledger_ret. }
  unfold leave_node. apply runs_skip; [apply ledger_read|by left|intros; by apply leave_result_app|]. intros applications. apply runs_skip; [apply Hp|by left|intros; by apply leave_result_app|].
  intros [|port ports]; [exact (runs_do_leave server_id)|]. apply runs_throw. by left.
Qed.

(** C14: Joining is all or nothing.  A join that succeeds for a Node that was no
    member adds exactly that Node, at the lowest free address, after its own
    tunnel was brought up with every other member as a peer.  One that fails
    leaves the ledger as it was; only when the very statement that takes the row
    back fails does the row stay. *)
Theorem join_is_all_or_nothing server_id s :
  let '(r, s') := join_node HELPER_SCRIPT to_string server_id s in
  exists l, s'.(nt_log) = s.(nt_log) ++ l /\
  match r with
  | Ok outcome =>
      (get_member s.(nt_ledger) server_id = Some outcome.(jo_member) /\ s'.(nt_ledger) = s.(nt_ledger)) \/
      (s'.(nt_ledger) = s.(nt_ledger) ++ [outcome.(jo_member)] /\ outcome.(jo_member).(nm_server_id) = server_id /\
       allocate_ip s.(nt_ledger) = Ok outcome.(jo_member).(nm_wireguard_ip) /\ tunnel_up s'.(nt_ledger) outcome.(jo_member) l)
  | Err _ => s'.(nt_ledger) = s.(nt_ledger) \/ (exists member, s'.(nt_ledger) = s.(nt_ledger) ++ [member]) /\ removal_failed l
  end.
Proof. pose proof (runs_join_node server_id s) as Hr. by destruct (join_node HELPER_SCRIPT to_string server_id s) as [[outcome|e] s']. Qed.

(** A Node's membership ends only after the Node itself answered that its
    interface is down and will stay down; a leave that reports success has
    ended it.  While an application on the Node still has a port meant for the
    mesh alone the leave is refused before anything is sent. *)
Theorem leaving_takes_the_tunnel_down server_id s :
  let '(r, s') := leave_node HELPER_SCRIPT to_string server_id s in
  (exists l, s'.(nt_log) = s.(nt_log) ++ l /\
   match r with
   | Ok _ => departed server_id s.(nt_ledger) s'.(nt_ledger) l
   | Err _ => s'.(nt_ledger) = s.(nt_ledger) \/ departed server_id s.(nt_ledger) s'.(nt_ledger) l
   end) /\
  (forall applications application ports port, applications_on server_id s.(nt_world) = Ok applications ->
     (forall a, a ∈ applications -> exists ports, ports_of a.(ap_id) s.(nt_world) = Ok ports) ->
     application ∈ applications -> ports_of application.(ap_id) s.(nt_world) = Ok ports -> port ∈ ports -> port.(ap_visibility) = VibeNetwork ->
     s' = s /\ exists found, r = Err (NetworkLeaveHasMeshPorts found)).
Proof.
  pose proof (runs_leave_node server_id s) as Hr. destruct (leave_node HELPER_SCRIPT to_string server_id s) as [r s'] eqn:E. cbn [fst snd] in Hr. split; [by destruct r|].
  intros applications application ports port Happs Hall Hin Hports Hport Hv. destruct (mesh_ports_read s applications Hall) as (found & Hf & Hne).
  specialize (Hne application ports port Hin Hports Hport Hv). revert E. unfold leave_node, gbind at 1. unfold read at 1. rewrite Happs. cbn [fst snd]. unfold gbind at 1. rewrite Hf.
  destruct found as [|x found]; [done|]. intros [= <- <-]. eauto.
Qed.

(** Reconciling the mesh reports one result per member, in order, and a
    member is reported as done only if its Node ran, with exit code zero, the
    script that names it with its own address and exactly every other member as
    a peer: that member's key, its address alone, and its host at the mesh port. *)
Theorem mesh_reports_are_true s :
  let '(r, s') := reconcile_mesh to_string s in
  exists l, s'.(nt_log) = s.(nt_log) ++ l /\ s'.(nt_ledger) = s.(nt_ledger) /\
  match r with
  | Ok results =>
      let members := list_members s.(nt_ledger) in
      Forall2 (fun member result => result.(mm_server_id) = member.(nm_server_id) /\
        (result.(mm_ok) = true -> exists events peers, Remote member.(nm_server_id) events ∈ l /\ applied member.(nm_wireguard_ip) peers events /\
           Forall2 (fun other peer => exists server, server_row other.(nm_server_id) (disk s.(nt_world)).2 = Ok (Some server) /\
             peer = mkPeer other.(nm_wireguard_public_key) (other.(nm_wireguard_ip) ++ lit "/32") (server.(sv_host) ++ lit ":54221"))
             (List.filter (fun other => negb (other.(nm_server_id) =? member.(nm_server_id))%N) members) peers)) members results
  | Err _ => True
  end.
Proof.
  destruct (runs_reconcile_mesh to_string s) as (l & Hl & Hs & Hr). destruct (reconcile_mesh to_string s) as [r s']. cbn [fst snd] in *. exists l. split_and!; [done|done|].
  destruct r as [results|e]; [|done]. destruct Hr as (hosts & Hh & Hrec). eapply Forall2_impl; [exact Hrec|]. intros member result [Hid Hok]. split; [done|]. intros Ho.
  destruct (Hok Ho) as (events & Hin & Ha). exists events, (mesh_peers (list_members (nt_ledger s)) hosts member). split_and!; [done|done|]. unfold mesh_peers. apply Forall2_fmap_r, Forall_Forall2_diag, Forall_forall.
  intros other Hother. apply list_elem_of_In, filter_In in Hother as [Hother _]. destruct (Hh other) as (server & Hrow & Hhost); [by apply list_elem_of_In|]. exists server. split; [done|].
  f_equal. by rewrite (lookup_total_correct _ _ _ Hhost).
Qed.
End flows.

(** ** Two Nodes *)

(** Nodes with WireGuard and ufw on them, on which a command fails just when it holds the text [w_refused]. *)
Module SampleFleet.
Record World : Type := mkWorld { w_ports : list ApplicationPort; w_refused : list Z }.
Definition KEY : list Z := lit "K4hV1cB0mQ2sT7nZ9xY3lJ6pR8dW5gA0fE1uI2oC3vM=".

Definition answer (command : list Z) : list Z :=
  if contains_str (lit "wg pubkey") command then KEY
  else if contains_str (lit "wg-quick down") command then lit "down"
  else if contains_str (lit "echo yes") command then lit "yes" else [].

#[global] Instance world_fleet : Fleet World := {
  connect _ w := (Ok tt, w);
  forget _ w := w;
  exec_on _ command w := (Ok (mkOutput (if contains_str w.(w_refused) command then 1 else 0) (answer command) []), w);
  write_on _ _ _ w := (Ok tt, w);
  session_of id _ := id;
  disk w := (None, w);
  clock w := (0, w);
  server_row id w := Ok (Some (mkServer (lit "Node") (lit "node.example") 22 SshMode));
  applications_on _ w := Ok [mkApplication 9 (lit "Database")];
  ports_of _ w := Ok w.(w_ports);
  custom_rules_of _ w := Ok [];
  dns_table w := Ok [];
  application_row _ w := Ok None;
}.

Definition start (ports : list ApplicationPort) (ledger : Ledger) : Net World := mkNet (mkWorld ports [0]) ledger ∅ 0 [].
Definition refusing (text : string) : Net World := mkNet (mkWorld [] (lit text)) [] ∅ 0 [].
Definition joined (server_id : N) (s : Net World) : Net World := (join_node [] (fun _ => []) server_id s).2.
Definition first (ip : string) (server_id : N) : NodeNetworkMember := mkMember server_id (lit ip) KEY 0.
End SampleFleet.

(** Two Nodes join, one after the other, and the first leaves. *)
Example two_nodes :
  let s := SampleFleet.joined 2 (SampleFleet.joined 1 (SampleFleet.start [] [])) in
  s.(nt_ledger) = [SampleFleet.first "10.77.0.1" 1; SampleFleet.first "10.77.0.2" 2] /\
  (reconcile_mesh (fun _ => []) s).1 = Ok [mkMeshResult 1 true None; mkMeshResult 2 true None] /\
  (leave_node [] (fun _ => []) 1 s).2.(nt_ledger) = [SampleFleet.first "10.77.0.2" 2].
Proof. vm_compute. split_and!; reflexivity. Qed.

(** A Node with a port for the mesh alone stays. *)
Example mesh_port_keeps_the_node :
  let s := SampleFleet.start [mkPort (lit "mysql") Tcp 3306 (Some 3306) VibeNetwork] [SampleFleet.first "10.77.0.1" 1] in
  leave_node [] (fun _ => []) 1 s = (Err (NetworkLeaveHasMeshPorts [lit "Database - mysql"]), s).
Proof. vm_compute. reflexivity. Qed.

(** A rule ufw refuses comes back as the kind of error a lost connection has:
    the session is dropped and the whole sync is run again, to be refused again. *)
Example refused_rule_is_retried :
  let '(r, s) := reconcile_firewall [] 1 (SampleFleet.refusing "ufw allow") in
  (exists failures, r = Err (RulesNotApplied failures)) /\ length (List.filter (fun e => match e with Remote 1 _ => true | _ => false end) s.(nt_log)) = 2%nat /\ Forgot 1 ∈ s.(nt_log).
Proof.
  vm_compute. split_and!; [eexists; reflexivity|reflexivity|]. apply list_elem_of_In. cbn. auto 10.
Qed.
