(* ===== verification/Cron.v ===== *)
(** * Cron: how a Node's cron reads a file of /etc/cron.d

    Cron is not part of the repository.  This file is the reading of
    crontab(5) that the schedules rely on: lines, settings and entries, the five
    fields with their lists, ranges and steps, and the rule for the two fields
    that name a day; and the Gregorian calendar an entry is held against.

    What crontab(5) does not describe is not read: a name instead of a number,
    a step after a single number, a sign, an [@] time, a [%] in a command.  One
    line that cannot be read makes cron leave the whole file aside. *)

From S2P Require Import Prelude Text Shell Sandbox Validators.

#[local] Open Scope Z_scope.

(** ** One field *)

(** The values from [it_from] to [it_to] by steps of [it_step]. *)
Record Item : Type := mkItem { it_from : Z; it_to : Z; it_step : Z }.

Definition item_matches (v : Z) (i : Item) : bool := (i.(it_from) <=? v) && (v <=? i.(it_to)) && ((v - i.(it_from)) mod i.(it_step) =? 0).

Definition read_digits (text : list Z) : option Z := if is_empty text then None else parse_digits 0 text.

Definition read_number (lo hi : Z) (text : list Z) : option Z :=
  match read_digits text with Some v => if (lo <=? v) && (v <=? hi) then Some v else None | None => None end.

Definition STAR : list Z := [42].

(** A star or a range; a single number only where no step follows. *)
Definition read_range (lo hi : Z) (single : bool) (text : list Z) : option (Z * Z) :=
  if str_eqb text STAR then Some (lo, hi)
  else match split_once 45 text with
       | Some (from, to) =>
           match read_number lo hi from, read_number lo hi to with
           | Some from, Some to => if from <=? to then Some (from, to) else None
           | _, _ => None
           end
       | None => if single then (fun v => (v, v)) <$> read_number lo hi text else None
       end.

Definition read_item (lo hi : Z) (text : list Z) : option Item :=
  match split_once 47 text with
  | None => (fun r => mkItem r.1 r.2 1) <$> read_range lo hi true text
  | Some (range, step) =>
      match read_range lo hi false range, read_digits step with
      | Some (from, to), Some step => if 0 <? step then Some (mkItem from to step) else None
      | _, _ => None
      end
  end.

Definition read_field (lo hi : Z) (text : list Z) : option (list Item) := mapM (read_item lo hi) (split_on (Z.eqb 44) text).

Definition field_matches (items : list Item) (v : Z) : bool := existsb (item_matches v) items.

(** ** One line *)

(** [en_day_star] and [en_weekday_star]: the field begins with a star. *)
Record Entry : Type := mkEntry {
  en_minute : list Item; en_hour : list Item; en_day : list Item; en_month : list Item; en_weekday : list Item;
  en_day_star : bool; en_weekday_star : bool; en_user : list Z; en_command : list Z;
}.

Definition next_word (s : list Z) : list Z * list Z :=
  let s := drop_while is_blank s in (take_while (fun c => negb (is_blank c)) s, drop_while (fun c => negb (is_blank c)) s).

(** A setting of the environment: a name, then an equal sign. *)
Definition is_setting (line : list Z) : bool :=
  starts_with_char 61 (drop_while is_blank (drop_while (fun c => negb (is_blank c) && negb (c =? 61)) line)).

Definition read_entry (line : list Z) : option Entry :=
  let '(minute, s) := next_word line in
  let '(hour, s) := next_word s in
  let '(day, s) := next_word s in
  let '(month, s) := next_word s in
  let '(weekday, s) := next_word s in
  let '(user, s) := next_word s in
  let command := drop_while is_blank s in
  if is_empty user || is_empty command || contains_char 37 command then None else
  match read_field 0 59 minute, read_field 0 23 hour, read_field 1 31 day, read_field 1 12 month, read_field 0 7 weekday with
  | Some minutes, Some hours, Some days, Some months, Some weekdays =>
      Some (mkEntry minutes hours days months weekdays (starts_with_char 42 day) (starts_with_char 42 weekday) user command)
  | _, _, _, _, _ => None
  end.

(** ** The file *)

(** What a line holds: nothing to run, or an entry; [None] if it cannot be read. *)
Definition read_line (line : list Z) : option (option Entry) :=
  let line := drop_while is_blank line in
  if is_empty line || starts_with_char 35 line || is_setting line then Some None else Some <$> read_entry line.

(** The lines, all of which have to be ended. *)
Definition crontab_lines (text : list Z) : option (list (list Z)) :=
  match rev (split_on (Z.eqb 10) text) with [] :: r => Some (rev r) | _ => None end.

Definition read_crontab (text : list Z) : option (list Entry) :=
  match crontab_lines text with
  | Some ls => omap id <$> mapM read_line ls
  | None => None
  end.

(** ** The calendar *)

Definition leap (y : Z) : bool := (y mod 4 =? 0) && (negb (y mod 100 =? 0) || (y mod 400 =? 0)).

Definition days_in_month (y m : Z) : Z :=
  if m =? 2 then (if leap y then 29 else 28) else if (m =? 4) || (m =? 6) || (m =? 9) || (m =? 11) then 30 else 31.

Fixpoint days_before (y : Z) (months : nat) : Z :=
  match months with O => 0 | S k => days_before y k + days_in_month y (Z.of_nat (S k)) end.

(** Days since the end of the year 0, and the day of the week, Sunday being 0. *)
Definition day_number (y m d : Z) : Z := 365 * (y - 1) + (y - 1) / 4 - (y - 1) / 100 + (y - 1) / 400 + days_before y (Z.to_nat (m - 1)) + d.
Definition weekday (y m d : Z) : Z := day_number y m d mod 7.

Example weekday_sample : weekday 2024 2 29 = 4 /\ weekday 2000 1 1 = 6 /\ weekday 1970 1 1 = 4.
Proof. done. Qed.

(** A minute of the calendar. *)
Record Minute : Type := mkMinute { mi_year : Z; mi_month : Z; mi_day : Z; mi_hour : Z; mi_minute : Z }.

Definition on_calendar (t : Minute) : bool :=
  (1 <=? t.(mi_month)) && (t.(mi_month) <=? 12) && (1 <=? t.(mi_day)) && (t.(mi_day) <=? days_in_month t.(mi_year) t.(mi_month))
  && (0 <=? t.(mi_hour)) && (t.(mi_hour) <=? 23) && (0 <=? t.(mi_minute)) && (t.(mi_minute) <=? 59).

(** Sunday is 0 and 7. *)
Definition weekday_matches (items : list Item) (w : Z) : bool := field_matches items w || ((w =? 0) && field_matches items 7).

Definition due (e : Entry) (t : Minute) : bool :=
  let day := field_matches e.(en_day) t.(mi_day) in
  let wday := weekday_matches e.(en_weekday) (weekday t.(mi_year) t.(mi_month) t.(mi_day)) in
  field_matches e.(en_minute) t.(mi_minute) && field_matches e.(en_hour) t.(mi_hour) && field_matches e.(en_month) t.(mi_month)
  && (if e.(en_day_star) || e.(en_weekday_star) then day && wday else day || wday).

Example due_sample :
  match read_entry (lit "*/15 4 * 1-3 1,3 root /bin/true") with
  | Some e => (due e (mkMinute 2024 2 28 4 30), due e (mkMinute 2024 2 27 4 30), due e (mkMinute 2024 2 28 4 31)) = (true, false, false)
  | None => False
  end.
Proof. reflexivity. Qed.

(** ** Facts *)

Definition unbroken (w : list Z) : Prop := w <> [] /\ forallb (fun c => negb (is_blank c)) w = true.

Lemma unbroken_drop w rest : unbroken w -> drop_while is_blank (w ++ rest) = w ++ rest.
Proof. intros [Hne Hw]. destruct w as [|c w]; [done|]. simpl in *. apply andb_true_iff in Hw as [Hc _]. apply negb_true_iff in Hc. by rewrite Hc. Qed.

Lemma next_word_unbroken w rest : unbroken w -> next_word (w ++ 32 :: rest) = (w, 32 :: rest).
Proof. intros Hw. unfold next_word. rewrite (unbroken_drop _ _ Hw). destruct Hw as [_ Hw]. by rewrite take_while_app, drop_while_app by done. Qed.

Lemma next_word_blank rest : next_word (32 :: rest) = next_word rest.
Proof. done. Qed.

(** Six words and a command make an entry when the fields can be read. *)
Lemma read_entry_words f1 f2 f3 f4 f5 user command : Forall unbroken [f1; f2; f3; f4; f5; user] -> command <> [] -> drop_while is_blank command = command -> contains_char 37 command = false ->
  read_entry (join [32] [f1; f2; f3; f4; f5] ++ [32] ++ user ++ 32 :: command) =
  match read_field 0 59 f1, read_field 0 23 f2, read_field 1 31 f3, read_field 1 12 f4, read_field 0 7 f5 with
  | Some minutes, Some hours, Some days, Some months, Some weekdays =>
      Some (mkEntry minutes hours days months weekdays (starts_with_char 42 f3) (starts_with_char 42 f5) user command)
  | _, _, _, _, _ => None
  end.
Proof.
  intros Hs Hne Hd Hp. rewrite !Forall_cons in Hs. destruct Hs as (H1 & H2 & H3 & H4 & H5 & H6 & _). cbn [join]. rewrite <-!app_assoc. cbn [app].
  unfold read_entry. rewrite next_word_unbroken by done. repeat (rewrite next_word_blank, next_word_unbroken by done).
  cbn [drop_while]. change (is_blank 32) with true. cbn iota. rewrite Hd. destruct user as [|c user]; [by destruct H6|]. destruct command as [|c' command]; [done|]. by rewrite Hp.
Qed.

Lemma split_ended ls : Forall (fun l => contains_char 10 l = false) ls -> split_on (Z.eqb 10) (ls ≫= fun l => l ++ [10]) = ls ++ [[]].
Proof. induction 1 as [|l ls Hx _ IH]; [done|]. rewrite bind_cons, <-app_assoc. cbn [app]. rewrite split_on_app by done. by rewrite IH. Qed.

Lemma crontab_lines_ended ls : Forall (fun l => contains_char 10 l = false) ls -> crontab_lines (ls ≫= fun l => l ++ [10]) = Some ls.
Proof. intros Hl. unfold crontab_lines. rewrite split_ended by done. rewrite rev_app_distr. cbn [rev app]. by rewrite rev_involutive. Qed.

Lemma lines_ended ls : Forall (fun l => contains_char 10 l = false) ls -> lines (ls ≫= fun l => l ++ [10]) = map strip_cr ls.
Proof. intros Hl. unfold lines. rewrite split_ended by done. rewrite rev_app_distr. cbn [rev app]. by rewrite rev_involutive. Qed.
