(* ===== verification/Docker.v ===== *)
(** * Docker: applications that run as containers

    [apps/desktop/src-tauri/src/runtime/docker.rs], the two runners of
    [runtime/docker_command.rs] and [dedicated_user.rs]: the arguments of every
    [docker] call, the private networks of a container, its environment file,
    and the operations of [DockerRuntime] as sequences of calls.

    The machine the desktop itself runs on is the class [LocalMachine]; a Node
    is a [Connection].  The fields of the records are those the code reads.  A
    log line has no counterpart, nor has the local console (a channel held open
    by this process) beyond the call that forgets it.  Where a text depends on
    the operating system the desktop was built for, it is the one for Linux. *)

From Stdlib Require Import Floats.SpecFloat.
From S2P Require Import Prelude Text Shell Sandbox Validators Ufw Firewall Sudoers MemberAccount Mesh.

#[local] Open Scope Z_scope.
#[local] Open Scope fw_scope.
#[local] Open Scope vibe_scope.

(** ** Data *)

(** How Rust prints a finite positive [f32]: digits and at most a point, never an exponent. *)
Class FloatText : Type := {
  show_f32 : spec_float -> list Z;
  show_f32_digits : forall m e, forallb (fun c => is_ascii_digit c || (c =? 46)) (show_f32 (S754_finite false m e)) = true;
}.

Record DockerConfig : Type := mkDockerConfig {
  dc_image : list Z; dc_command : list (list Z); dc_memory_limit_mb : option Z; dc_cpu_limit_cores : option spec_float;
  dc_restart_policy : option (list Z); dc_run_as_dedicated_user : bool;
}.

Record EnvironmentVariable : Type := mkEnv { ev_key : list Z; ev_value : list Z; ev_is_secret : bool }.

Record ContainerPort : Type := mkContainerPort { cp_protocol : PortProtocol; cp_bind_address : list Z; cp_internal_port : Z; cp_external_port : option Z }.

(** [cx_config] is what [serde_json] makes of [runtime_config]; [cx_remote] says whether there is a connection. *)
Record RuntimeContext : Type := mkContext {
  cx_id : N; cx_name : list Z; cx_working_directory : list Z; cx_config : result (list Z) DockerConfig;
  cx_environment : list EnvironmentVariable; cx_ports : list ContainerPort; cx_links : list N; cx_remote : bool;
}.

Inductive ApplicationStatus : Type := Unknown | Starting | Running | Stopping | Stopped | Failed.

Record PrivateFile : Type := mkPrivateFile { pf_path : list Z; pf_directory : list Z }.

Definition invalid (text : list Z) : Shell.InvalidInput := mkInvalid [] (Other text).

(** ** Checks *)

Definition VALID_RESTART_POLICIES : list (list Z) := [lit "no"; lit "always"; lit "unless-stopped"; lit "on-failure"].

Definition restart_policy_or_default (config : DockerConfig) : AppResult (list Z) :=
  let policy := default (lit "unless-stopped") config.(dc_restart_policy) in
  if negb (existsb (str_eqb policy) VALID_RESTART_POLICIES) then Err (mkInvalid policy (Other (lit "isn't a valid restart policy"))) else Ok policy.

Definition CONTAINER_WORKING_DIRECTORY : list Z := lit "/home/container".
Definition container_working_directory (working_directory : list Z) : list Z :=
  if starts_with_char 47 working_directory then working_directory else CONTAINER_WORKING_DIRECTORY.

Definition STOP_GRACE_SECONDS : list Z := lit "120".

Definition is_valid_env_key (key : list Z) : bool :=
  match key with
  | c :: key => (is_ascii_alphabetic c || (c =? 95)) && forallb (fun c => is_ascii_alphanumeric c || (c =? 95)) key
  | [] => false
  end.

Fixpoint validate_environment (environment : list EnvironmentVariable) : AppResult unit :=
  match environment with
  | [] => Ok tt
  | env :: environment =>
      if negb (is_valid_env_key env.(ev_key)) then Err (mkInvalid env.(ev_key) (Other (lit "isn't a valid environment variable name")))
      else let? _ := reject_newlines env.(ev_value) (lit "the '" ++ env.(ev_key) ++ lit "' environment variable") in validate_environment environment
  end.

Definition validate_resource_limits (memory_limit_mb : option Z) (cpu_limit_cores : option spec_float) : AppResult unit :=
  if (match memory_limit_mb with Some mb => mb =? 0 | None => false end) then Err (invalid (lit "the memory limit must be greater than 0"))
  else match cpu_limit_cores with
       | Some (S754_finite false _ _) | None => Ok tt
       | Some _ => Err (invalid (lit "the CPU limit must be greater than 0"))
       end.

Definition container_char (c : Z) : bool := is_ascii_alphanumeric c || (c =? 95) || (c =? 46) || (c =? 45).

Definition validate_container_ref (name : list Z) : AppResult unit :=
  let starts_ok := match name with c :: _ => is_ascii_alphanumeric c | [] => false end in
  let chars_ok := forallb container_char name in
  if negb starts_ok || negb chars_ok || (128 <? byte_len name) then Err (mkInvalid name (Other (lit "isn't a valid Docker container name or ID"))) else Ok tt.

(** [for value in values { reject_newlines(value, field)?; }]. *)
Fixpoint reject_newlines_in (values : list (list Z)) (field : list Z) : AppResult unit :=
  match values with
  | [] => Ok tt
  | value :: values => let? _ := reject_newlines value field in reject_newlines_in values field
  end.

(** ** Private networks *)

Definition APP_NETWORK_PREFIX : list Z := lit "vibessh-net-".
Definition LINK_NETWORK_PREFIX : list Z := lit "vibessh-link-".
Definition MANAGED_NETWORK_PREFIX : list Z := lit "vibessh-".
Definition LEGACY_SHARED_NETWORK : list Z := lit "vibessh-net".

Definition short_id (id : N) : list Z := take 12 (uuid_simple id).
Definition app_network_name (application_id : N) : list Z := APP_NETWORK_PREFIX ++ short_id application_id.
Definition link_network_name (a b : N) : list Z :=
  let '(lo, hi) := if N.leb a b then (a, b) else (b, a) in LINK_NETWORK_PREFIX ++ short_id lo ++ lit "-" ++ short_id hi.

(** The loop over the links, [networks] being the names so far. *)
Fixpoint link_networks (id : N) (networks : list (list Z)) (links : list N) : list (list Z) :=
  match links with
  | [] => networks
  | peer :: links =>
      if N.eqb peer id then link_networks id networks links
      else let name := link_network_name id peer in
           if existsb (str_eqb name) networks then link_networks id networks links else link_networks id (networks ++ [name]) links
  end.

Definition desired_networks (ctx : RuntimeContext) : list (list Z) := link_networks ctx.(cx_id) [app_network_name ctx.(cx_id)] ctx.(cx_links).

Definition network_alias `{UnicodeCase} (ctx : RuntimeContext) : list Z := default (container_name ctx.(cx_id)) (dns_label ctx.(cx_name)).

(** ** The arguments of docker create *)

Definition protocol_name (p : PortProtocol) : list Z := match p with Tcp => lit "tcp" | Udp => lit "udp" end.

Definition publish_args (port : ContainerPort) : list (list Z) :=
  match port.(cp_external_port) with
  | None => []
  | Some external_port =>
      [lit "-p"; port.(cp_bind_address) ++ lit ":" ++ to_dec external_port ++ lit ":" ++ to_dec port.(cp_internal_port) ++ lit "/" ++ protocol_name port.(cp_protocol)]
  end.

Section create.
Context `{UnicodeCase} `{FloatText}.

Definition create_options (ctx : RuntimeContext) (config : DockerConfig) (name restart_policy : list Z) (user_flag env_file : option (list Z)) : list (list Z) :=
  let working_directory := ctx.(cx_working_directory) in
  let container_directory := container_working_directory working_directory in
  [lit "create"; lit "-i"; lit "--name"; name; lit "--restart"; restart_policy; lit "--stop-timeout"; STOP_GRACE_SECONDS;
   lit "--add-host"; lit "host.docker.internal:host-gateway"; lit "--network"; app_network_name ctx.(cx_id);
   lit "--network-alias"; network_alias ctx; lit "-v"; working_directory ++ lit ":" ++ container_directory; lit "-w"; container_directory]
  ++ match user_flag with
     | Some user =>
         [lit "--user"; user]
         ++ if existsb (fun variable => str_eqb variable.(ev_key) (lit "HOME")) ctx.(cx_environment) then [] else [lit "-e"; lit "HOME=" ++ container_directory]
     | None => []
     end
  ++ match config.(dc_memory_limit_mb) with Some mb => [lit "--memory"; to_dec mb ++ lit "m"] | None => [] end
  ++ match config.(dc_cpu_limit_cores) with Some cores => [lit "--cpus"; show_f32 cores] | None => [] end
  ++ (ctx.(cx_ports) ≫= publish_args)
  ++ match env_file with Some path => [lit "--env-file"; path] | None => [] end.

Definition build_create_args (ctx : RuntimeContext) (config : DockerConfig) (name : list Z) (user_flag env_file : option (list Z)) : AppResult (list (list Z)) :=
  let? _ := validate_container_ref name in
  let? _ := reject_newlines config.(dc_image) (lit "the image") in
  let? _ := reject_newlines_in config.(dc_command) (lit "a command argument") in
  let? _ := validate_environment ctx.(cx_environment) in
  let? _ := validate_resource_limits config.(dc_memory_limit_mb) config.(dc_cpu_limit_cores) in
  let? restart_policy := restart_policy_or_default config in
  let? _ := reject_newlines ctx.(cx_working_directory) (lit "the working directory") in
  let? _ := reject_newlines_in (map cp_bind_address ctx.(cx_ports)) (lit "a port's bind address") in
  Ok (create_options ctx config name restart_policy user_flag env_file ++ [config.(dc_image)] ++ config.(dc_command)).
End create.

(** The lines of the environment file. *)
Definition env_file_contents (environment : list EnvironmentVariable) : list Z :=
  environment ≫= fun env => env.(ev_key) ++ lit "=" ++ env.(ev_value) ++ [10].

Definition exec_command_args (container shell command : list Z) : list (list Z) :=
  [lit "exec"; container; lit "sh"; lit "-c"; shell; lit "vibessh"; command].

(** ** The console *)

Definition fifo_file_name (application_id : N) : list Z := lit ".vibessh-app-" ++ uuid_text application_id ++ lit ".stdin".
Definition console_fifo_path (application_id : N) : list Z := CONSOLE_DIR ++ lit "/" ++ uuid_text application_id ++ lit ".stdin".
Definition remote_path (working_directory file_name : list Z) : list Z := trim_end_matches (Z.eqb 47) working_directory ++ lit "/" ++ file_name.

Definition build_attach_script (ctx : RuntimeContext) (name : list Z) : AppResult (list Z) :=
  let? _ := validate_container_ref name in
  let fifo := quote (console_fifo_path ctx.(cx_id)) in
  let legacy_fifo := quote (remote_path ctx.(cx_working_directory) (fifo_file_name ctx.(cx_id))) in
  Ok (ensure_runtime_dirs_command ++ [10]
      ++ lit "sudo rm -f " ++ legacy_fifo ++ [10]
      ++ lit "if [ -e " ++ fifo ++ lit " ] && [ ! -p " ++ fifo ++ lit " ]; then rm -f " ++ fifo ++ lit "; fi" ++ [10]
      ++ lit "[ -p " ++ fifo ++ lit " ] || mkfifo -m 600 " ++ fifo ++ [10]
      ++ lit "chmod 600 " ++ fifo ++ [10]
      ++ lit "exec 3<>" ++ fifo ++ [10]
      ++ lit "nohup sudo docker attach --sig-proxy=false " ++ name ++ lit " <&3 3<&- >/dev/null 2>&1 &" ++ [10]
      ++ lit "disown" ++ [10]).

Definition CONSOLE_WRITE_TIMEOUT_SECONDS : list Z := lit "5".
Definition TIMED_OUT : Z := 124.

(** The format of [printf] holds a newline character, not a backslash and an n. *)
Definition console_write_command (fifo_path input : list Z) : list Z :=
  let write := lit "printf '%s" ++ [10] ++ lit "' " ++ quote input ++ lit " >> " ++ quote fifo_path in
  lit "timeout " ++ CONSOLE_WRITE_TIMEOUT_SECONDS ++ lit " sh -c " ++ quote write.

(** ** What docker answers *)

Definition is_deliberate_stop (exit_code : list Z) : bool := existsb (str_eqb exit_code) [lit "130"; lit "137"; lit "143"].

Definition map_container_status (status exit_code : list Z) : ApplicationStatus :=
  if str_eqb status (lit "running") then Running
  else if str_eqb status (lit "restarting") then Starting
  else if str_eqb status (lit "removing") || str_eqb status (lit "paused") then Stopping
  else if str_eqb status (lit "dead") then Failed
  else if str_eqb status (lit "exited") && (negb (str_eqb exit_code (lit "0")) && negb (is_deliberate_stop exit_code)) then Failed
  else Stopped.

Definition parse_status_output (output : list Z) : list Z * list Z :=
  match split_once 124 (trim output) with
  | Some (status, exit_code) => (status, trim exit_code)
  | None => (trim output, [])
  end.

Definition show_int (n : Z) : list Z := if n <? 0 then lit "-" ++ to_dec (- n) else to_dec n.

Section answers.
Context `{UnicodeCase}.

(** Callers only ask whether there is advice. *)
Definition daemon_unreachable (stderr : list Z) : option (list Z) :=
  let lowered := to_lowercase stderr in
  let has s := contains_str (lit s) lowered in
  if has "cannot connect to the docker daemon" || has "failed to connect to the docker api" || has "dockerdesktoplinuxengine" || has "docker_engine"
     || (has "docker.sock" && has "connect")
  then Some (lit "Docker isn't running. Start it with `sudo systemctl start docker`, then try again. (docker said: " ++ trim stderr ++ lit ")")
  else None.

Definition is_unreachable (detail : list Z) : bool := match daemon_unreachable detail with Some _ => true | None => false end.

Definition expect_success (output : CommandOutput) (what : string) : result AppError unit :=
  if output.(exit_code) =? 0 then Ok tt
  else
    let detail := trim output.(stderr) in
    let detail := if is_empty detail then trim output.(stdout) else detail in
    let detail := if is_empty detail then lit "docker exited with " ++ show_int output.(exit_code) else detail in
    if is_unreachable detail then Err DockerUnavailable
    else Err (ConnectionFailed (lit "couldn't " ++ lit what ++ lit ": " ++ detail)).
End answers.

Definition docker_missing : AppError :=
  InvalidInput (invalid (lit "docker isn't installed on this machine, or isn't on PATH. Install it with your package manager (`sudo apt install docker.io`, or Docker's own repository), add yourself to the `docker` group, then restart VibeSSH so it picks up the new group membership.")).

(** ** Running docker *)

Inductive Runner : Type := SshSession | LocalDocker.

(** A failed spawn: whether the program was not found, and the error's text. *)
Record SpawnError : Type := mkSpawnError { se_not_found : bool; se_text : list Z }.

(** The machine the desktop runs on.  [forget_attachment] drops the local
    console's entry for an application from this process's map. *)
Class LocalMachine (Node : Type) : Type := {
  spawn_docker : list (list Z) -> Node -> result SpawnError CommandOutput * Node;
  temp_dir : Node -> list Z;
  path_join : list Z -> list Z -> list Z;
  create_dir_all : list Z -> Node -> result (list Z) unit * Node;
  write_owner_only : list Z -> list Z -> Node -> result AppError unit * Node;
  remove_dir_all : list Z -> Node -> result (list Z) unit * Node;
  forget_attachment : N -> Node -> Node;
}.

(** The line an [SshSession] sends for [docker] with these arguments. *)
Definition docker_line (args : list (list Z)) : list Z := lit "sudo docker" ++ (args ≫= fun arg => lit " " ++ quote arg).

Section runners.
Context {Node : Type} `{Connection Node} `{LocalMachine Node}.

Definition from_result {A} (r : AppResult A) : F Node A := match r with Ok a => ret a | Err e => throw (InvalidInput e) end.
Definition from_app {A} (r : result AppError A) : F Node A := match r with Ok a => ret a | Err e => throw e end.

(** A call on this machine whose failure is [message] and the system's text. *)
Definition local {E A} (call : Node -> result E A * Node) (error : E -> AppError) : F Node A := fun s =>
  let '(r, n) := call s.(fw_node) in
  (match r with Ok a => Ok a | Err e => Err (error e) end, mkFw n s.(fw_verified) s.(fw_uuid)).

Definition docker (runner : Runner) (args : list (list Z)) : F Node CommandOutput :=
  match runner with
  | SshSession => run_command (docker_line args)
  | LocalDocker => local (spawn_docker args) (fun e => if e.(se_not_found) then docker_missing else Internal (lit "couldn't run docker: " ++ e.(se_text)))
  end.

Definition supports_dedicated_user (runner : Runner) : bool := match runner with SshSession => true | LocalDocker => false end.

(** [LocalDocker::write_private_file], once the directory has its name. *)
Definition write_local_file (directory contents : list Z) : F Node PrivateFile :=
  local (create_dir_all directory) (fun e => Internal (lit "couldn't create a private directory: " ++ e)) ;;;
  let path := path_join directory (lit "env") in
  local (write_owner_only path (utf8 contents)) (fun e => e) ;;;
  ret (mkPrivateFile path directory).

Definition write_private_file (runner : Runner) (contents : list Z) : F Node PrivateFile :=
  match runner with
  | SshSession =>
      output <- run_command (lit "mktemp -d /tmp/vibessh.XXXXXXXXXX") ;;
      if negb (output.(exit_code) =? 0) then throw (ConnectionFailed (lit "couldn't create a private directory on the Node: " ++ trim output.(stderr))) else
      let directory := trim output.(stdout) in
      if is_empty directory then throw (ConnectionFailed (lit "mktemp returned no path")) else
      let path := directory ++ lit "/env" in
      output <- run_command (lit "install -T -m 600 /dev/null " ++ quote path) ;;
      if negb (output.(exit_code) =? 0) then throw (ConnectionFailed (lit "couldn't create a private file on the Node: " ++ trim output.(stderr))) else
      put_file path (utf8 contents) ;;;
      ret (mkPrivateFile path directory)
  | LocalDocker =>
      id <- fresh_uuid ;;
      fun s => write_local_file (path_join (temp_dir s.(fw_node)) (lit "vibessh-" ++ id)) contents s
  end.

Definition remove_private_directory (runner : Runner) (directory : list Z) : F Node unit :=
  match runner with
  | SshSession =>
      output <- run_command (lit "rm -rf " ++ quote directory) ;;
      if negb (output.(exit_code) =? 0) then throw (ConnectionFailed (lit "couldn't remove " ++ directory ++ lit ": " ++ trim output.(stderr))) else ret tt
  | LocalDocker => local (remove_dir_all directory) (fun e => Internal (lit "couldn't remove " ++ directory ++ lit ": " ++ e))
  end.

(** [runner(ctx)]. *)
Definition runner_of (ctx : RuntimeContext) : Runner := if ctx.(cx_remote) then SshSession else LocalDocker.
End runners.

(** ** The account of an application: [dedicated_user.rs] *)

Section dedicated_user.
Context {Node : Type} `{Connection Node}.

Definition ensure_provisioned (username : list Z) : F Node unit :=
  from_result (validate_linux_username username (lit "the Application's account name")) ;;;
  let user := quote username in
  output <- run_command (lit "getent group " ++ APPLICATION_GROUP ++ lit " >/dev/null 2>&1 || sudo groupadd --system " ++ APPLICATION_GROUP ++ lit "; id -u " ++ user
                         ++ lit " >/dev/null 2>&1 || sudo useradd --system --no-create-home --shell /usr/sbin/nologin --gid " ++ APPLICATION_GROUP ++ lit " " ++ user) ;;
  if negb (output.(exit_code) =? 0) then throw (ConnectionFailed (detail_or output "couldn't provision the Application's dedicated account")) else ret tt.

Definition is_numeric (s : list Z) : bool := negb (is_empty s) && forallb is_ascii_digit s.

Definition user_id (username : list Z) : F Node (list Z) :=
  let u := quote username in
  output <- run_command (lit "id -u " ++ u ++ lit " 2>/dev/null && id -g " ++ u ++ lit " 2>/dev/null") ;;
  let lines := lines output.(stdout) in
  let uid := trim (default [] (lines !! 0%nat)) in
  let gid := trim (default [] (lines !! 1%nat)) in
  if negb (is_numeric uid) || negb (is_numeric gid) then throw (ConnectionFailed (lit "couldn't determine " ++ username ++ lit "'s uid:gid"))
  else ret (uid ++ lit ":" ++ gid).
End dedicated_user.

(** ** The runtime *)

Section runtime.
Context `{UnicodeCase} `{FloatText} {Node : Type} `{Connection Node} `{LocalMachine Node}.
(** The text of the file helper's script ([files::sudo_user::helper_script]). *)
Context (FILE_HELPER_SCRIPT : list Z).

Definition parse_config (ctx : RuntimeContext) : F Node DockerConfig :=
  match ctx.(cx_config) with Ok config => ret config | Err err => throw (InvalidInput (invalid (lit "invalid Docker configuration: " ++ err))) end.

(** The connection an application's own account is set up on, if any. *)
Definition dedicated_user_applies (config : DockerConfig) (runner : Runner) : bool := config.(dc_run_as_dedicated_user) && supports_dedicated_user runner.
Definition dedicated_user_connection (config : DockerConfig) (runner : Runner) (ctx : RuntimeContext) : bool :=
  if negb (dedicated_user_applies config runner) then false else ctx.(cx_remote).

Definition ensure_network (runner : Runner) (name : list Z) (internal : bool) : F Node unit :=
  probe <- docker runner [lit "network"; lit "inspect"; name] ;;
  if probe.(exit_code) =? 0 then ret tt else
  output <- docker runner ([lit "network"; lit "create"] ++ (if internal then [lit "--internal"] else []) ++ [name]) ;;
  if output.(exit_code) =? 0 then ret tt else
  recheck <- docker runner [lit "network"; lit "inspect"; name] ;;
  if recheck.(exit_code) =? 0 then ret tt else
  let detail := trim output.(stderr) in
  if contains_str (lit "non-overlapping IPv4 address pool") detail then
    throw (ConnectionFailed (lit "Docker has no address space left for another private network on this node. Each application gets its own network, and each connection between two applications gets one more, against a default pool of about thirty. Remove unused networks with 'docker network prune', or widen 'default-address-pools' in /etc/docker/daemon.json. Docker said: " ++ detail))
  else if is_unreachable detail then throw DockerUnavailable
  else throw (ConnectionFailed (lit "couldn't create the '" ++ name ++ lit "' network: " ++ (if is_empty detail then lit "docker network create failed" else detail))).

Definition INSPECT_NETWORKS_FORMAT : list Z := lit "{{range $name, $config := .NetworkSettings.Networks}}{{$name}} {{end}}".

Definition current_networks (runner : Runner) (container : list Z) : F Node (list (list Z)) :=
  from_result (validate_container_ref container) ;;;
  output <- docker runner [lit "inspect"; lit "-f"; INSPECT_NETWORKS_FORMAT; container] ;;
  if negb (output.(exit_code) =? 0) then throw (ConnectionFailed (lit "couldn't read the container's networks: " ++ detail_or output "docker inspect failed"))
  else ret (split_whitespace output.(stdout)).

(** The first loop of [reconcile_networks]. *)
Fixpoint connect_missing (runner : Runner) (own alias container : list Z) (current desired : list (list Z)) : F Node unit :=
  match desired with
  | [] => ret tt
  | name :: desired =>
      if existsb (str_eqb name) current then connect_missing runner own alias container current desired else
      ensure_network runner name (negb (str_eqb name own)) ;;;
      output <- docker runner [lit "network"; lit "connect"; lit "--alias"; alias; name; container] ;;
      if negb (output.(exit_code) =? 0) then
        let detail := trim output.(stderr) in
        if is_unreachable detail then throw DockerUnavailable
        else throw (ConnectionFailed (lit "couldn't join the '" ++ name ++ lit "' network: " ++ (if is_empty detail then lit "docker network connect failed" else detail)))
      else connect_missing runner own alias container current desired
  end.

(** The second loop. *)
Fixpoint disconnect_obsolete (runner : Runner) (container : list Z) (desired current : list (list Z)) : F Node unit :=
  match current with
  | [] => ret tt
  | name :: current =>
      if negb (starts_with MANAGED_NETWORK_PREFIX name) || existsb (str_eqb name) desired then disconnect_obsolete runner container desired current else
      output <- docker runner [lit "network"; lit "disconnect"; name; container] ;;
      if negb (output.(exit_code) =? 0) then
        throw (ConnectionFailed (lit "couldn't disconnect this application from the '" ++ name ++ lit "' network, so it can still reach whatever else is on it: "
                                 ++ detail_or output "docker network disconnect failed"))
      else disconnect_obsolete runner container desired current
  end.

Definition reconcile_networks (runner : Runner) (ctx : RuntimeContext) (container : list Z) : F Node unit :=
  let own := app_network_name ctx.(cx_id) in
  let desired := desired_networks ctx in
  let alias := network_alias ctx in
  current <- current_networks runner container ;;
  connect_missing runner own alias container current desired ;;;
  disconnect_obsolete runner container desired current.

(** [remove_networks]; the failure of a call becomes a warning. *)
Fixpoint remove_each (to_string : AppError -> list Z) (runner : Runner) (names : list (list Z)) : F Node (list (list Z)) :=
  match names with
  | [] => ret []
  | name :: names =>
      outcome <- attempt (docker runner [lit "network"; lit "rm"; name]) ;;
      warnings <- remove_each to_string runner names ;;
      ret (match outcome with Err err => [lit "couldn't remove the '" ++ name ++ lit "' network: " ++ to_string err] | Ok _ => [] end ++ warnings)
  end.

Definition remove_networks (to_string : AppError -> list Z) (runner : Runner) (application_id : N) (former_peers : list N) : F Node (list (list Z)) :=
  remove_each to_string runner (app_network_name application_id :: map (link_network_name application_id) former_peers).

Definition container_exists (runner : Runner) (name : list Z) : F Node bool :=
  from_result (validate_container_ref name) ;;;
  output <- docker runner [lit "inspect"; name] ;;
  ret (output.(exit_code) =? 0).

(** The environment file is written before the arguments are built, and a
    refusal of [build_create_args] returns at once. *)
Definition create_container (runner : Runner) (ctx : RuntimeContext) (config : DockerConfig) (name : list Z) : F Node unit :=
  ensure_network runner (app_network_name ctx.(cx_id)) false ;;;
  user_flag <- (if dedicated_user_connection config runner ctx then
                  let username := Sudoers.username ctx.(cx_id) in
                  ensure_provisioned username ;;;
                  user <- user_id username ;;
                  ret (Some user)
                else ret None) ;;
  env_file <- (match ctx.(cx_environment) with
               | [] => ret None
               | environment => file <- write_private_file runner (env_file_contents environment) ;; ret (Some file)
               end) ;;
  args <- from_result (build_create_args ctx config name user_flag (pf_path <$> env_file)) ;;
  outcome <- attempt (docker runner args) ;;
  (match env_file with Some file => attempt (remove_private_directory runner file.(pf_directory)) ;;; ret tt | None => ret tt end) ;;;
  output <- from_app outcome ;;
  from_app (expect_success output "create the container").

Definition attach_console_fifo (ctx : RuntimeContext) (name : list Z) : F Node unit :=
  script <- from_result (build_attach_script ctx name) ;;
  output <- run_command script ;;
  if negb (output.(exit_code) =? 0) then throw (ConnectionFailed (detail_or output "couldn't attach the console")) else ret tt.

Definition ensure_working_directory_owned_by_dedicated_user (ctx : RuntimeContext) : F Node unit :=
  let username := Sudoers.username ctx.(cx_id) in
  provisioned <- attempt (ensure_provisioned username) ;;
  match provisioned with
  | Err _ => ret tt
  | Ok _ => attempt (run_command (lit "sudo chown -R " ++ quote username ++ lit " " ++ quote ctx.(cx_working_directory))) ;;; ret tt
  end.

(** [files::sudo_user::install_script] and [ensure_helper_installed]. *)
Definition FILE_SUDOERS_PATH : list Z := lit "/etc/sudoers.d/vibessh-file-helper".
Definition install_script (staging : list Z) : list Z :=
  let runas_group := quote (lit "%" ++ APPLICATION_GROUP) in
  let staging := quote staging in
  let helper := quote FILE_HELPER_PATH in
  let sudoers := quote FILE_SUDOERS_PATH in
  lit "sudo groupadd --system " ++ APPLICATION_GROUP ++ lit " 2>/dev/null; sudo install -D -o root -g root -m 0755 " ++ staging ++ lit " " ++ helper
  ++ lit "; rc=$?; rm -f " ++ staging ++ lit "; [ $rc -eq 0 ] || exit $rc; printf '%s ALL=(%s) NOPASSWD: %s\n' " ++ qlit "`$(whoami)` " ++ runas_group ++ lit " " ++ helper
  ++ lit " | sudo tee " ++ sudoers ++ lit " >/dev/null && sudo chmod 440 " ++ sudoers ++ lit " && sudo visudo -c -f " ++ sudoers
  ++ lit " >/dev/null || { sudo rm -f " ++ sudoers ++ lit "; exit 9; }".

Definition ensure_file_helper_installed : F Node unit :=
  deployed <- attempt (run_command (lit "sudo cat " ++ quote FILE_HELPER_PATH ++ lit " 2>/dev/null")) ;;
  if (match deployed with Ok output => str_eqb output.(stdout) FILE_HELPER_SCRIPT | Err _ => false end) then ret tt else
  id <- fresh_uuid ;;
  let staging := lit ".vibessh-helper-" ++ id in
  put_file staging (utf8 FILE_HELPER_SCRIPT) ;;;
  output <- run_command (install_script staging) ;;
  if negb (output.(exit_code) =? 0) then throw (ConnectionFailed (detail_or output "couldn't install the file-operation helper")) else ret tt.

(** What [start] and [restart] do for the application's own account, best effort. *)
Definition hand_over (config : DockerConfig) (runner : Runner) (ctx : RuntimeContext) : F Node unit :=
  if dedicated_user_connection config runner ctx then
    ensure_working_directory_owned_by_dedicated_user ctx ;;;
    attempt ensure_file_helper_installed ;;;
    ret tt
  else ret tt.

Definition attach_if_remote (ctx : RuntimeContext) (name : list Z) : F Node unit :=
  if ctx.(cx_remote) then attempt (attach_console_fifo ctx name) ;;; ret tt else ret tt.

Definition validate (ctx : RuntimeContext) : F Node unit :=
  let runner := runner_of ctx in
  config <- parse_config ctx ;;
  if is_empty (trim config.(dc_image)) then throw (InvalidInput (invalid (lit "no image configured for this application"))) else
  from_result (reject_newlines config.(dc_image) (lit "the image")) ;;;
  from_result (reject_newlines_in config.(dc_command) (lit "a command argument")) ;;;
  from_result (validate_environment ctx.(cx_environment)) ;;;
  output <- docker runner [lit "version"; lit "--format"; lit "{{.Server.Version}}"] ;;
  if negb (output.(exit_code) =? 0) then throw DockerUnavailable else ret tt.

Definition start (ctx : RuntimeContext) : F Node unit :=
  let runner := runner_of ctx in
  config <- parse_config ctx ;;
  let name := container_name ctx.(cx_id) in
  exists_ <- container_exists runner name ;;
  (if negb exists_ then create_container runner ctx config name else ret tt) ;;;
  reconcile_networks runner ctx name ;;;
  hand_over config runner ctx ;;;
  output <- docker runner [lit "start"; name] ;;
  from_app (expect_success output "start the container") ;;;
  attach_if_remote ctx name.

Definition not_running : AppError := InvalidInput (invalid (lit "this application isn't running")).

Definition stop (ctx : RuntimeContext) : F Node unit :=
  let runner := runner_of ctx in
  let name := container_name ctx.(cx_id) in
  exists_ <- container_exists runner name ;;
  if negb exists_ then throw not_running else
  output <- docker runner [lit "stop"; lit "--time"; STOP_GRACE_SECONDS; name] ;;
  from_app (expect_success output "stop the container").

Definition sync_connections (ctx : RuntimeContext) : F Node unit :=
  let runner := runner_of ctx in
  let name := container_name ctx.(cx_id) in
  exists_ <- container_exists runner name ;;
  if negb exists_ then ret tt else reconcile_networks runner ctx name.

Definition restart (ctx : RuntimeContext) : F Node unit :=
  let runner := runner_of ctx in
  config <- parse_config ctx ;;
  let name := container_name ctx.(cx_id) in
  exists_ <- container_exists runner name ;;
  if negb exists_ then start ctx else
  reconcile_networks runner ctx name ;;;
  hand_over config runner ctx ;;;
  output <- docker runner [lit "restart"; lit "--time"; STOP_GRACE_SECONDS; name] ;;
  from_app (expect_success output "restart the container") ;;;
  attach_if_remote ctx name.

Definition kill (ctx : RuntimeContext) : F Node unit :=
  let runner := runner_of ctx in
  let name := container_name ctx.(cx_id) in
  exists_ <- container_exists runner name ;;
  if negb exists_ then throw not_running else
  output <- docker runner [lit "kill"; name] ;;
  from_app (expect_success output "kill the container").

Definition status (ctx : RuntimeContext) : F Node ApplicationStatus :=
  let runner := runner_of ctx in
  let name := container_name ctx.(cx_id) in
  from_result (validate_container_ref name) ;;;
  output <- docker runner [lit "inspect"; lit "--format"; lit "{{.State.Status}}|{{.State.ExitCode}}"; name] ;;
  if negb (output.(exit_code) =? 0) then ret Stopped else
  let '(status, exit_code) := parse_status_output output.(stdout) in
  ret (map_container_status status exit_code).

Definition destroy (ctx : RuntimeContext) : F Node unit :=
  (fun s => (Ok tt, mkFw (forget_attachment ctx.(cx_id) s.(fw_node)) s.(fw_verified) s.(fw_uuid))) ;;;
  let runner := runner_of ctx in
  let name := container_name ctx.(cx_id) in
  from_result (validate_container_ref name) ;;;
  exists_ <- container_exists runner name ;;
  if negb exists_ then ret tt else
  docker runner [lit "stop"; lit "--time"; STOP_GRACE_SECONDS; name] ;;;
  output <- docker runner [lit "rm"; lit "-f"; name] ;;
  from_app (expect_success output "remove the container").

(** [DockerLogs::tail]. *)
Definition tail_logs (ctx : RuntimeContext) (max_lines : Z) : F Node (list (list Z)) :=
  let name := container_name ctx.(cx_id) in
  from_result (validate_container_ref name) ;;;
  output <- docker (runner_of ctx) [lit "logs"; lit "--tail"; to_dec max_lines; lit "--timestamps"; name] ;;
  if negb (output.(exit_code) =? 0) then throw (ConnectionFailed (lit "couldn't read the container's logs: " ++ detail_or output "docker logs failed"))
  else ret (lines output.(stdout) ++ lines output.(stderr)).

(** [run_command_in_container]. *)
Definition run_command_in_container (ctx : RuntimeContext) (shell command : list Z) : F Node (list Z) :=
  let name := container_name ctx.(cx_id) in
  from_result (validate_container_ref name) ;;;
  output <- docker (runner_of ctx) (exec_command_args name shell command) ;;
  let answer := trim_end_matches is_whitespace output.(stdout) in
  let stderr := trim_end_matches is_whitespace output.(stderr) in
  ret (if is_empty stderr then answer else (if is_empty answer then [] else answer ++ [10]) ++ stderr).

(** ** [DockerConsole] *)

Record DockerConsole : Type := mkConsole { co_fifo_path : list Z; co_attach_script : list Z }.

(** The remote half of [console]. *)
Definition console (ctx : RuntimeContext) : F Node (option DockerConsole) :=
  status <- status ctx ;;
  match status with
  | Running =>
      attach_script <- from_result (build_attach_script ctx (container_name ctx.(cx_id))) ;;
      ret (Some (mkConsole (console_fifo_path ctx.(cx_id)) attach_script))
  | _ => ret None
  end.

Definition write_once (console : DockerConsole) (input : list Z) : F Node bool :=
  output <- run_command (console_write_command console.(co_fifo_path) input) ;;
  if output.(exit_code) =? 0 then ret true
  else if output.(exit_code) =? TIMED_OUT then ret false
  else throw (ConnectionFailed (detail_or output "couldn't write to the application's console")).

Definition console_write (console : DockerConsole) (input : list Z) : F Node unit :=
  from_result (reject_newlines input (lit "console input")) ;;;
  written <- write_once console input ;;
  if (written : bool) then ret tt else
  output <- run_command console.(co_attach_script) ;;
  if negb (output.(exit_code) =? 0) then throw (ConnectionFailed (detail_or output "couldn't reattach the application's console")) else
  written <- write_once console input ;;
  if (written : bool) then ret tt
  else throw (ConnectionFailed (lit "the application isn't reading its console - it was started without an interactive stdin, which only a Recreate can change")).
End runtime.
