(* ===== verification/DockerHost.v ===== *)
(** * DockerHost: what a Docker host does with the runtime's calls

    The class [DockerHost] states, as Docker's manual has it, what the [docker]
    commands of the file [Docker] do to two things a host keeps: which networks
    each container is attached to, and the history of containers that began to
    run, each with the networks it was on at that moment.  A call may always
    fail, and its answer may be lost after it took effect.

    [parse_create] is how the command line of [docker create] is read. *)

From S2P Require Import Prelude Text Shell Sandbox Validators Ufw Firewall Sudoers MemberAccount Mesh Docker.

#[local] Open Scope Z_scope.
#[local] Open Scope fw_scope.

(** ** The command line of docker create *)

(** The options this program passes that take a value, and the one that takes none. *)
Definition VALUE_OPTIONS : list (list Z) :=
  [lit "--name"; lit "--restart"; lit "--stop-timeout"; lit "--add-host"; lit "--network"; lit "--network-alias"; lit "-v"; lit "-w"; lit "--user"; lit "-e";
   lit "--memory"; lit "--cpus"; lit "-p"; lit "--env-file"].

(** Options come first; the first word that is none is the image, and what
    follows it is the command.  A word that starts with a dash is an option. *)
Fixpoint parse_create (words : list (list Z)) : option (list (list Z * list Z) * list (list Z)) :=
  match words with
  | [] => Some ([], [])
  | word :: rest =>
      if negb (starts_with_char 45 word) then Some ([], word :: rest)
      else if str_eqb word (lit "-i") then (fun '(opts, words) => ((word, []) :: opts, words)) <$> parse_create rest
      else if existsb (str_eqb word) VALUE_OPTIONS then
        match rest with
        | [] => None
        | value :: rest => (fun '(opts, words) => ((word, value) :: opts, words)) <$> parse_create rest
        end
      else None
  end.

(** The values given to one option, in order. *)
Definition values_of (option : list Z) (opts : list (list Z * list Z)) : list (list Z) :=
  map snd (List.filter (fun o => str_eqb o.1 option) opts).

(** ** The host *)

Definition network_char (c : Z) : bool := container_char c.

(** Of a call: its arguments, the Node before, what was answered if anything was, and the Node after. *)
Definition ran {Node} `{Connection Node} `{LocalMachine Node} (runner : Runner) (args : list (list Z)) (n : Node) (answer : option CommandOutput) (n' : Node) : Prop :=
  match runner with
  | SshSession => exists command r, tokens command = Some (map Word (lit "sudo" :: lit "docker" :: args)) /\ execute_command command n = (r, n') /\ answer = match r with Ok out => Some out | Err _ => None end
  | LocalDocker => exists r, spawn_docker args n = (r, n') /\ answer = match r with Ok out => Some out | Err _ => None end
  end.

(** The calls that change neither which networks a container is on nor what runs. *)
Inductive QuietCall (name : list Z) : list (list Z) -> Prop :=
| quiet_network_inspect network : QuietCall name [lit "network"; lit "inspect"; network]
| quiet_network_create options network : QuietCall name ([lit "network"; lit "create"] ++ options ++ [network])
| quiet_inspect : QuietCall name [lit "inspect"; name]
| quiet_stop : QuietCall name [lit "stop"; lit "--time"; STOP_GRACE_SECONDS; name].

(** The commands the runtime sends that are none of Docker's, and the one that
    attaches to a container that already runs. *)
Inductive QuietCommand : list Z -> Prop :=
| quiet_mktemp : QuietCommand (lit "mktemp -d /tmp/vibessh.XXXXXXXXXX")
| quiet_prepare path : QuietCommand (lit "install -T -m 600 /dev/null " ++ quote path)
| quiet_remove directory : QuietCommand (lit "rm -rf " ++ quote directory)
| quiet_provision user : QuietCommand (lit "getent group " ++ APPLICATION_GROUP ++ lit " >/dev/null 2>&1 || sudo groupadd --system " ++ APPLICATION_GROUP ++ lit "; id -u " ++ quote user
    ++ lit " >/dev/null 2>&1 || sudo useradd --system --no-create-home --shell /usr/sbin/nologin --gid " ++ APPLICATION_GROUP ++ lit " " ++ quote user)
| quiet_user_id user : QuietCommand (lit "id -u " ++ quote user ++ lit " 2>/dev/null && id -g " ++ quote user ++ lit " 2>/dev/null")
| quiet_chown user path : QuietCommand (lit "sudo chown -R " ++ quote user ++ lit " " ++ quote path)
| quiet_helper_cat : QuietCommand (lit "sudo cat " ++ quote FILE_HELPER_PATH ++ lit " 2>/dev/null")
| quiet_helper_install staging : QuietCommand (install_script staging)
| quiet_attach ctx name script : build_attach_script ctx name = Ok script -> QuietCommand script.

(** A container that began to run, and the networks it was on. *)
Definition Started : Type := list Z * gset (list Z).

Class DockerHost (Node : Type) `{Connection Node} `{LocalMachine Node} (runner : Runner) : Type := {
  (** The containers there are, each with the networks it is attached to. *)
  containers : Node -> gmap (list Z) (gset (list Z));
  starts : Node -> list Started;

  (** [docker inspect] with the template of [current_networks]: each name and a blank. *)
  inspect_networks : forall c n answer n', ran runner [lit "inspect"; lit "-f"; INSPECT_NETWORKS_FORMAT; c] n answer n' ->
    containers n' = containers n /\ starts n' = starts n /\
    (forall out, answer = Some out -> out.(exit_code) = 0 ->
       exists nets names, containers n !! c = Some nets /\ list_to_set names = nets /\ Forall (fun name => forallb network_char name = true /\ name <> []) names /\
         out.(stdout) = (names ≫= fun name => name ++ [32]) ++ [10]);

  (** [docker network connect]. *)
  connect_attaches : forall alias name c n answer n', ran runner [lit "network"; lit "connect"; lit "--alias"; alias; name; c] n answer n' ->
    starts n' = starts n /\
    (containers n' = containers n \/ exists nets, containers n !! c = Some nets /\ containers n' = <[c := {[name]} ∪ nets]> (containers n)) /\
    (forall out, answer = Some out -> out.(exit_code) = 0 -> exists nets, containers n' !! c = Some nets /\ name ∈ nets);

  (** [docker network disconnect]. *)
  disconnect_detaches : forall name c n answer n', ran runner [lit "network"; lit "disconnect"; name; c] n answer n' ->
    starts n' = starts n /\
    (containers n' = containers n \/ exists nets, containers n !! c = Some nets /\ containers n' = <[c := nets ∖ {[name]}]> (containers n)) /\
    (forall out, answer = Some out -> out.(exit_code) = 0 -> exists nets, containers n' !! c = Some nets /\ name ∉ nets);

  (** [docker create]: at most the named container appears, on the named network. *)
  create_makes : forall args opts words c network n answer n', parse_create args = Some (opts, words) -> values_of (lit "--name") opts = [c] ->
    values_of (lit "--network") opts = [network] -> ran runner (lit "create" :: args) n answer n' ->
    starts n' = starts n /\ (containers n' = containers n \/ containers n !! c = None /\ containers n' = <[c := {[network]}]> (containers n));

  (** [docker start] and [docker restart]. *)
  start_runs : forall c args n answer n', args = [lit "start"; c] \/ args = [lit "restart"; lit "--time"; STOP_GRACE_SECONDS; c] -> ran runner args n answer n' ->
    containers n' = containers n /\ (starts n' = starts n \/ exists nets, containers n !! c = Some nets /\ starts n' = starts n ++ [(c, nets)]);

  (** [docker rm -f]. *)
  rm_removes : forall c n answer n', ran runner [lit "rm"; lit "-f"; c] n answer n' ->
    starts n' = starts n /\ (containers n' = containers n \/ containers n' = delete c (containers n)) /\
    (forall out, answer = Some out -> out.(exit_code) = 0 -> containers n' = delete c (containers n));

  quiet_call : forall name args n answer n', QuietCall name args -> ran runner args n answer n' -> containers n' = containers n /\ starts n' = starts n;
  (** [docker inspect] finds a container only if there is one. *)
  inspect_finds : forall name n out n', ran runner [lit "inspect"; name] n (Some out) n' -> out.(exit_code) = 0 -> is_Some (containers n !! name);

  quiet_command : forall command n r n', QuietCommand command -> execute_command command n = (r, n') -> containers n' = containers n /\ starts n' = starts n;
  quiet_write : forall path bytes n r n', write_file path bytes n = (r, n') -> containers n' = containers n /\ starts n' = starts n;
  quiet_create_dir : forall path n r n', create_dir_all path n = (r, n') -> containers n' = containers n /\ starts n' = starts n;
  quiet_write_local : forall path bytes n r n', write_owner_only path bytes n = (r, n') -> containers n' = containers n /\ starts n' = starts n;
  quiet_remove_dir : forall path n r n', remove_dir_all path n = (r, n') -> containers n' = containers n /\ starts n' = starts n;
  quiet_forget : forall id n, containers (forget_attachment id n) = containers n /\ starts (forget_attachment id n) = starts n;

  (** [mktemp] prints the path it made. *)
  mktemp_prints : forall n out n', execute_command (lit "mktemp -d /tmp/vibessh.XXXXXXXXXX") n = (Ok out, n') -> out.(exit_code) = 0 ->
    contains_char 0 out.(stdout) = false;
}.

(** ** The words of a call *)

Lemma lex_args args : Forall (fun a => contains_char 0 a = false) args -> forall w,
  lex Bare (Some w) (args ≫= fun arg => lit " " ++ quote arg) = Some (Word w :: map Word args).
Proof.
  induction 1 as [|a args Ha _ IH]; intros w; [done|]. rewrite bind_cons. change (lit " ") with [32]. cbn [app]. rewrite lex_blank.
  rewrite lex_quote by done. cbn [default from_option app]. rewrite IH. done.
Qed.

Lemma tokens_docker args : Forall (fun a => contains_char 0 a = false) args -> tokens (docker_line args) = Some (map Word (lit "sudo" :: lit "docker" :: args)).
Proof.
  intros Ha. unfold tokens, docker_line. change (lit "sudo docker") with (lit "sudo" ++ 32 :: lit "docker"). rewrite <-app_assoc, <-app_comm_cons.
  rewrite lex_word by done. rewrite lex_plain by done. cbn [default from_option app]. by rewrite lex_args.
Qed.

(** ** Reasoning about runs *)

Section logic.
Context {Node : Type} `{DockerHost Node runner}.

Definition spec {A} (P : Node -> Prop) (m : F Node A) (Q : result AppError A -> Node -> Prop) : Prop :=
  forall s, P s.(fw_node) -> Q (m s).1 (m s).2.(fw_node).

Lemma spec_conseq {A} (P P' : Node -> Prop) (m : F Node A) (Q Q' : result AppError A -> Node -> Prop) :
  spec P' m Q' -> (forall n, P n -> P' n) -> (forall r n, Q' r n -> Q r n) -> spec P m Q.
Proof. intros Hm HP HQ s Hs. apply HQ, Hm, HP, Hs. Qed.

Lemma spec_ret {A} (P : Node -> Prop) (a : A) (Q : result AppError A -> Node -> Prop) : (forall n, P n -> Q (Ok a) n) -> spec P (ret a) Q.
Proof. intros HQ s Hs. by apply HQ. Qed.

Lemma spec_throw {A} (P : Node -> Prop) e (Q : result AppError A -> Node -> Prop) : (forall n, P n -> Q (Err e) n) -> spec P (throw e) Q.
Proof. intros HQ s Hs. by apply HQ. Qed.

Lemma spec_bind {A B} (P : Node -> Prop) (m : F Node A) (f : A -> F Node B) (R : A -> Node -> Prop) (Q : result AppError B -> Node -> Prop) :
  spec P m (fun r n => match r with Ok a => R a n | Err e => Q (Err e) n end) -> (forall a, spec (R a) (f a) Q) -> spec P (bind m f) Q.
Proof. intros Hm Hf s Hs. specialize (Hm s Hs). unfold bind. destruct (m s) as [[a|e] s'] eqn:E; [|done]. by apply (Hf a s'). Qed.

Lemma spec_pure {A} (P : Node -> Prop) (phi : Prop) (m : F Node A) (Q : result AppError A -> Node -> Prop) :
  (phi -> spec P m Q) -> spec (fun n => P n /\ phi) m Q.
Proof. intros Hm s [Hs Hphi]. by apply Hm. Qed.

(** A step that looks at the state. *)
Lemma spec_state {A B} (P : Node -> Prop) (g : FwState Node -> B) (m : B -> F Node A) (Q : result AppError A -> Node -> Prop) :
  (forall b, spec P (m b) Q) -> spec P (fun s => m (g s) s) Q.
Proof. intros Hm s Hs. by apply Hm. Qed.

Lemma spec_attempt {A} (P : Node -> Prop) (m : F Node A) (Q : result AppError (result AppError A) -> Node -> Prop) :
  spec P m (fun r n => Q (Ok r) n) -> spec P (attempt m) Q.
Proof. intros Hm s Hs. specialize (Hm s Hs). unfold attempt. by destruct (m s). Qed.

Lemma spec_from_result {A} (P : Node -> Prop) (r : AppResult A) (Q : result AppError A -> Node -> Prop) :
  (forall n, P n -> match r with Ok a => Q (Ok a) n | Err e => Q (Err (InvalidInput e)) n end) -> spec P (from_result r) Q.
Proof. intros HQ. destruct r; [by apply spec_ret|by apply spec_throw]. Qed.

Lemma spec_from_app {A} (P : Node -> Prop) (r : result AppError A) (Q : result AppError A -> Node -> Prop) :
  (forall n, P n -> Q r n) -> spec P (from_app r) Q.
Proof. intros HQ. destruct r; [by apply spec_ret|by apply spec_throw]. Qed.

Lemma spec_run (P : Node -> Prop) command (Q : result AppError CommandOutput -> Node -> Prop) :
  (forall n r n', P n -> execute_command command n = (r, n') -> Q (match r with Ok out => Ok out | Err m => Err (Transport m) end) n') -> spec P (run_command command) Q.
Proof. intros HQ s Hs. unfold run_command. destruct (execute_command command s.(fw_node)) as [r n'] eqn:E. cbn. by eapply HQ. Qed.

Lemma spec_local {E A} (P : Node -> Prop) (call : Node -> result E A * Node) error (Q : result AppError A -> Node -> Prop) :
  (forall n r n', P n -> call n = (r, n') -> Q (match r with Ok a => Ok a | Err e => Err (error e) end) n') -> spec P (local call error) Q.
Proof. intros HQ s Hs. unfold local. destruct (call s.(fw_node)) as [r n'] eqn:E1. cbn. by eapply HQ. Qed.

(** A call of docker: its effect is that of [ran], and its answer the same.
    Only the shell between the desktop and a Node cannot carry a NUL. *)
Lemma spec_call (P : Node -> Prop) args (Q : result AppError CommandOutput -> Node -> Prop) :
  (runner = SshSession -> forall n, P n -> Forall (fun a => contains_char 0 a = false) args) ->
  (forall n n' e, P n -> ran runner args n None n' -> Q (Err e) n') ->
  (forall n n' out, P n -> ran runner args n (Some out) n' -> Q (Ok out) n') ->
  spec P (docker runner args) Q.
Proof.
  intros Ha He Ho. unfold docker, ran in *. destruct runner.
  - apply spec_run. intros n r n' Hn E. pose proof (tokens_docker args (Ha eq_refl n Hn)) as Ht.
    destruct r as [out|m]; [apply (Ho n n' out Hn)|apply (He n n' _ Hn)]; eexists _, _; split_and!; done.
  - apply spec_local. intros n r n' Hn E. destruct r as [out|m]; [apply (Ho n n' out Hn)|apply (He n n' _ Hn)]; eexists; split; done.
Qed.

Lemma spec_docker (P : Node -> Prop) args (Q : result AppError CommandOutput -> Node -> Prop) :
  Forall (fun a => contains_char 0 a = false) args ->
  (forall n n' e, P n -> ran runner args n None n' -> Q (Err e) n') ->
  (forall n n' out, P n -> ran runner args n (Some out) n' -> Q (Ok out) n') ->
  spec P (docker runner args) Q.
Proof. intros Ha. apply spec_call. by intros _ _ _. Qed.

(** What the claims speak of. *)
Definition view (n : Node) : gmap (list Z) (gset (list Z)) * list Started := (containers n, starts n).

(** A run that changes nothing of it. *)
Definition calm {A} (m : F Node A) : Prop := forall s, view (m s).2.(fw_node) = view s.(fw_node).

Lemma spec_calm {A} (P : Node -> Prop) (m : F Node A) : calm m -> (forall n n', view n' = view n -> P n -> P n') -> spec P m (fun _ n => P n).
Proof. intros Hm HP s Hs. by apply (HP s.(fw_node)). Qed.

(** The containers and the history, exactly. *)
Definition host (C : gmap (list Z) (gset (list Z))) (T : list Started) (n : Node) : Prop := containers n = C /\ starts n = T.

Lemma host_view C T n n' : view n' = view n -> host C T n -> host C T n'.
Proof. unfold view, host. intros [= -> ->]. done. Qed.

(** A calm step before the rest. *)
Lemma spec_after {A B} C T (m : F Node A) (f : A -> F Node B) (Q : result AppError B -> Node -> Prop) :
  calm m -> (forall e n, host C T n -> Q (Err e) n) -> (forall a, spec (host C T) (f a) Q) -> spec (host C T) (bind m f) Q.
Proof.
  intros Hm He Hf. apply (spec_bind _ _ _ (fun _ => host C T)); [|done]. eapply spec_conseq; [apply (spec_calm (host C T)); [done|intros n n'; apply host_view]|done|].
  intros [a|e] n Hn; auto.
Qed.

Lemma calm_ret {A} (a : A) : calm (ret a).
Proof. done. Qed.

Lemma calm_throw {A} e : calm (throw (A := A) e).
Proof. done. Qed.

Lemma calm_bind {A B} (m : F Node A) (f : A -> F Node B) : calm m -> (forall a, calm (f a)) -> calm (bind m f).
Proof. intros Hm Hf s. specialize (Hm s). unfold bind. destruct (m s) as [[a|e] s']; [|done]. by rewrite Hf. Qed.

Lemma calm_attempt {A} (m : F Node A) : calm m -> calm (attempt m).
Proof. intros Hm s. specialize (Hm s). unfold attempt. by destruct (m s). Qed.

Lemma calm_from_result {A} (r : AppResult A) : calm (from_result r).
Proof. by destruct r. Qed.

Lemma calm_from_app {A} (r : result AppError A) : calm (from_app r).
Proof. by destruct r. Qed.

Lemma calm_checked {A B} (r : AppResult A) (f : A -> F Node B) : (forall a, r = Ok a -> calm (f a)) -> calm (bind (from_result r) f).
Proof. intros Hf s. destruct r as [a|e]; [by apply Hf|done]. Qed.

Lemma calm_run command : QuietCommand command -> calm (run_command command).
Proof.
  intros Hq s. unfold run_command. destruct (execute_command command s.(fw_node)) as [r n'] eqn:E. cbn. destruct (quiet_command _ _ _ _ Hq E) as [Hc Hs].
  unfold view. by rewrite Hc, Hs.
Qed.

Lemma calm_put path bytes : calm (put_file path bytes).
Proof.
  intros s. unfold put_file. destruct (write_file path bytes s.(fw_node)) as [r n'] eqn:E. cbn. destruct (quiet_write _ _ _ _ _ E) as [Hc Hs]. unfold view. by rewrite Hc, Hs.
Qed.

Lemma calm_local {E A} (call : Node -> result E A * Node) error :
  (forall n r n', call n = (r, n') -> containers n' = containers n /\ starts n' = starts n) -> calm (local call error).
Proof. intros Hq s. unfold local. destruct (call s.(fw_node)) as [r n'] eqn:E1. cbn. destruct (Hq _ _ _ E1) as [Hc Hs]. unfold view. by rewrite Hc, Hs. Qed.

Lemma calm_docker name args : QuietCall name args -> Forall (fun a => contains_char 0 a = false) args -> calm (docker runner args).
Proof.
  intros Hq Ha s. assert (Hs : spec (fun n => n = s.(fw_node)) (docker runner args) (fun _ n => view n = view s.(fw_node))).
  { apply spec_docker; [done| |]; intros n n' o -> Hr; destruct (quiet_call name _ _ _ _ Hq Hr) as [Hc Hs]; unfold view; by rewrite Hc, Hs. }
  by apply Hs.
Qed.

Lemma calm_fresh_uuid : calm fresh_uuid.
Proof. done. Qed.

Lemma calm_if {A} (b : bool) (m1 m2 : F Node A) : calm m1 -> calm m2 -> calm (if b then m1 else m2).
Proof. by destruct b. Qed.
End logic.

Create HintDb calm.
#[export] Hint Resolve calm_ret calm_throw calm_attempt calm_from_result calm_from_app calm_run calm_put calm_fresh_uuid : calm.
#[export] Hint Constructors QuietCommand QuietCall : calm.
#[export] Hint Resolve quiet_create_dir quiet_write_local quiet_remove_dir : calm.
