(* ===== verification/SampleDocker.v ===== *)
(** * SampleDocker: a small Docker host

    A concrete [DockerHost] that the theorems are tried on: it reads the words
    of a command the way the shell does and does with a [docker] call what the
    class says, other commands having no effect on it.  The daemon of
    [Sample true] refuses every call. *)

From S2P Require Import Prelude Text Shell Sandbox Validators Ufw Firewall Sudoers MemberAccount Mesh Docker DockerHost.

#[local] Open Scope Z_scope.

Record Sample (down : bool) : Type := mkSample { sh_containers : gmap (list Z) (gset (list Z)); sh_starts : list Started }.
Arguments mkSample {down} _ _.
Arguments sh_containers {down} _.
Arguments sh_starts {down} _.


Definition answer (code : Z) (text : list Z) : CommandOutput := mkOutput code text [].
Definition done_ : CommandOutput := answer 0 [].
Definition refused : CommandOutput := answer 1 [].

Section daemon.
Context {down : bool}.
Implicit Types h : Sample down.

Definition with_containers h (m : gmap (list Z) (gset (list Z))) : Sample down := mkSample m h.(sh_starts).

Definition valid_names (nets : gset (list Z)) : bool := forallb (fun name => forallb network_char name && negb (is_empty name)) (elements nets).

Definition network_call (args : list (list Z)) h : CommandOutput * Sample down :=
  match args with
  | [verb; _; _; name; c] =>
      if str_eqb verb (lit "connect") then
        match h.(sh_containers) !! c with
        | Some nets => (done_, with_containers h (<[c := {[name]} ∪ nets]> h.(sh_containers)))
        | None => (refused, h)
        end
      else (done_, h)
  | [verb; name; c] =>
      if str_eqb verb (lit "disconnect") then
        match h.(sh_containers) !! c with
        | Some nets => (done_, with_containers h (<[c := nets ∖ {[name]}]> h.(sh_containers)))
        | None => (refused, h)
        end
      else (done_, h)
  | _ => (done_, h)
  end.

Definition create_call (args : list (list Z)) h : CommandOutput * Sample down :=
  match parse_create args with
  | Some (opts, _) =>
      match values_of (lit "--name") opts, values_of (lit "--network") opts with
      | [c], [network] => if bool_decide (h.(sh_containers) !! c = None) then (done_, with_containers h (<[c := {[network]}]> h.(sh_containers))) else (refused, h)
      | _, _ => (refused, h)
      end
  | None => (refused, h)
  end.

Definition run_call (c : list Z) h : CommandOutput * Sample down :=
  match h.(sh_containers) !! c with
  | Some nets => (done_, mkSample h.(sh_containers) (h.(sh_starts) ++ [(c, nets)]))
  | None => (refused, h)
  end.

Definition inspect_call (args : list (list Z)) h : CommandOutput * Sample down :=
  match args with
  | [_; _; c] =>
      match h.(sh_containers) !! c with
      | Some nets => if valid_names nets then (answer 0 ((elements nets ≫= fun name => name ++ [32]) ++ [10]), h) else (refused, h)
      | None => (refused, h)
      end
  | [c] => if bool_decide (is_Some (h.(sh_containers) !! c)) then (done_, h) else (refused, h)
  | _ => (refused, h)
  end.

Definition call (args : list (list Z)) h : CommandOutput * Sample down :=
  if down then (mkOutput 1 [] (lit "Cannot connect to the Docker daemon at unix:///var/run/docker.sock. Is the docker daemon running?"), h) else
  match args with
  | verb :: rest =>
      if str_eqb verb (lit "network") then network_call rest h
      else if str_eqb verb (lit "inspect") then inspect_call rest h
      else if str_eqb verb (lit "create") then create_call rest h
      else if str_eqb verb (lit "start") || str_eqb verb (lit "restart") then match last rest with Some c => run_call c h | None => (refused, h) end
      else if str_eqb verb (lit "rm") then match last rest with Some c => (done_, with_containers h (delete c h.(sh_containers))) | None => (refused, h) end
      else (done_, h)
  | [] => (refused, h)
  end.
End daemon.

(** The words of a [docker] call, or nothing. *)
Definition docker_args (command : list Z) : option (list (list Z)) :=
  match tokens command with
  | Some (Word a :: Word b :: rest) =>
      if str_eqb a (lit "sudo") && str_eqb b (lit "docker") then Some (omap (fun t => match t with Word w => Some w | Op _ => None end) rest) else None
  | _ => None
  end.

#[global] Instance sample_connection {down} : Connection (Sample down) := {
  execute_command command h :=
    match docker_args command with
    | Some args => let '(out, h) := call args h in (Ok out, h)
    | None => (Ok (answer 0 (if str_eqb command (lit "mktemp -d /tmp/vibessh.XXXXXXXXXX") then lit "/tmp/vibessh.a1b2c3d4e5" else lit "1001" ++ [10] ++ lit "1001" ++ [10])), h)
    end;
  write_file _ _ h := (Ok tt, h);
  session_id _ := 1%N;
}.

#[global] Instance sample_machine {down} : LocalMachine (Sample down) := {
  spawn_docker args h := let '(out, h) := call args h in (Ok out, h);
  temp_dir _ := lit "/tmp";
  path_join a b := a ++ lit "/" ++ b;
  create_dir_all _ h := (Ok tt, h);
  write_owner_only _ _ h := (Ok tt, h);
  remove_dir_all _ h := (Ok tt, h);
  forget_attachment _ h := h;
}.

Lemma docker_args_words command args : tokens command = Some (map Word (lit "sudo" :: lit "docker" :: args)) -> docker_args command = Some args.
Proof.
  intros Ht. unfold docker_args. rewrite Ht. cbn [map]. change (str_eqb (lit "sudo") (lit "sudo") && str_eqb (lit "docker") (lit "docker")) with true. cbv iota. f_equal. clear Ht.
  induction args as [|a args IH]; [done|]. cbn [map omap list_omap]. by rewrite IH.
Qed.

Lemma ran_call {down} runner args (n : Sample down) o n' : ran runner args n o n' -> exists out, o = Some out /\ call args n = (out, n').
Proof.
  destruct runner; cbn [ran].
  - intros (command & r & Ht & He & ->). cbn [execute_command sample_connection] in He. rewrite (docker_args_words _ _ Ht) in He.
    destruct (call args n) as [out h]. injection He as <- <-. eauto.
  - intros (r & He & ->). cbn [spawn_docker sample_machine] in He. destruct (call args n) as [out h]. injection He as <- <-. eauto.
Qed.

(** A command whose first two words are others is no call of docker. *)
Lemma docker_args_word w rest : forallb plain_char w = true -> w <> [] -> str_eqb w (lit "sudo") = false -> docker_args (w ++ 32 :: rest) = None.
Proof. intros Hp Hne Hs. unfold docker_args, tokens. rewrite lex_word by done. destruct (lex Bare None rest) as [[|[v|v] ts]|]; cbn [fmap option_fmap option_map]; by rewrite ?Hs. Qed.

Lemma docker_args_sudo w rest : forallb plain_char w = true -> w <> [] -> str_eqb w (lit "docker") = false -> docker_args (lit "sudo" ++ 32 :: w ++ 32 :: rest) = None.
Proof.
  intros Hp Hne Hs. unfold docker_args, tokens. rewrite !lex_word by done. destruct (lex Bare None rest) as [ts|]; cbn [fmap option_fmap option_map]; [|done]. by rewrite Hs, andb_false_r.
Qed.

Lemma quiet_sample command : QuietCommand command -> docker_args command = None.
Proof.
  intros [ |path|directory|user|user|user path| |staging|ctx name script Hb].
  - reflexivity.
  - apply (docker_args_word (lit "install")); done.
  - apply (docker_args_word (lit "rm")); done.
  - apply (docker_args_word (lit "getent")); done.
  - apply (docker_args_word (lit "id")); done.
  - apply (docker_args_sudo (lit "chown")); done.
  - apply (docker_args_sudo (lit "cat")); done.
  - apply (docker_args_sudo (lit "groupadd")); done.
  - unfold build_attach_script in Hb. apply rbind_Ok in Hb as (? & _ & Hb). apply Ok_inj in Hb as <-.
    change (ensure_runtime_dirs_command ++ ?rest) with (lit "sudo" ++ 32 :: lit "install" ++ 32 :: drop 13 ensure_runtime_dirs_command ++ rest). by apply docker_args_sudo.
Qed.

(** ** The sample is a Docker host *)

(** What a call did, once its words are known. *)
Ltac called Hr out Hc := apply ran_call in Hr as (out & -> & Hc); unfold call in Hc;
  match type of Hc with (if ?down then _ else _) = _ => destruct down; [injection Hc as <- <-|] end.

(** A word of the sample's own is compared. *)
Ltac verb Hc := repeat match type of Hc with context [str_eqb (lit ?a) (lit ?b)] =>
  let v := eval vm_compute in (str_eqb (lit a) (lit b)) in change (str_eqb (lit a) (lit b)) with v in Hc end; cbv iota in Hc; cbn [orb] in Hc.

Lemma valid_names_spec nets : valid_names nets = true -> Forall (fun name => forallb network_char name = true /\ name <> []) (elements nets).
Proof.
  unfold valid_names. rewrite forallb_elem_of. intros Hv. apply Forall_forall. intros name Hn. specialize (Hv name Hn). apply andb_true_iff in Hv as [Hv Hne].
  split; [done|]. by destruct name.
Qed.

Lemma sample_inspect {down} runner c (n : Sample down) o n' : ran runner [lit "inspect"; lit "-f"; INSPECT_NETWORKS_FORMAT; c] n o n' ->
  sh_containers n' = sh_containers n /\ sh_starts n' = sh_starts n /\
  (forall out, o = Some out -> out.(exit_code) = 0 -> exists nets names, sh_containers n !! c = Some nets /\ list_to_set names = nets /\
     Forall (fun name => forallb network_char name = true /\ name <> []) names /\ out.(stdout) = (names ≫= fun name => name ++ [32]) ++ [10]).
Proof.
  intros Hr. called Hr out Hc; [split_and!; [done..|]; by intros ? [= <-]|]. verb Hc. unfold inspect_call in Hc.
  destruct (sh_containers n !! c) as [nets|] eqn:Hl; [|injection Hc as <- <-; split_and!; [done..|]; by intros ? [= <-]].
  destruct (valid_names nets) eqn:Hv; injection Hc as <- <-; (split_and!; [done..|]); intros ? [= <-]; [|done]. intros _.
  exists nets, (elements nets). split_and!; [done|apply list_to_set_elements_L|by apply valid_names_spec|done].
Qed.

Lemma sample_connect {down} runner alias name c (n : Sample down) o n' : ran runner [lit "network"; lit "connect"; lit "--alias"; alias; name; c] n o n' ->
  sh_starts n' = sh_starts n /\
  (sh_containers n' = sh_containers n \/ exists nets, sh_containers n !! c = Some nets /\ sh_containers n' = <[c := {[name]} ∪ nets]> (sh_containers n)) /\
  (forall out, o = Some out -> out.(exit_code) = 0 -> exists nets, sh_containers n' !! c = Some nets /\ name ∈ nets).
Proof.
  intros Hr. called Hr out Hc; [split_and!; [done|by left|]; by intros ? [= <-]|]. verb Hc. unfold network_call in Hc. verb Hc.
  destruct (sh_containers n !! c) as [nets|] eqn:Hl; injection Hc as <- <-; (split_and!; [done|..]); [right; eauto| |by left|by intros ? [= <-]].
  intros ? [= <-] _. cbn. rewrite lookup_insert_eq. eexists. split; [done|]. set_solver.
Qed.

Lemma sample_disconnect {down} runner name c (n : Sample down) o n' : ran runner [lit "network"; lit "disconnect"; name; c] n o n' ->
  sh_starts n' = sh_starts n /\
  (sh_containers n' = sh_containers n \/ exists nets, sh_containers n !! c = Some nets /\ sh_containers n' = <[c := nets ∖ {[name]}]> (sh_containers n)) /\
  (forall out, o = Some out -> out.(exit_code) = 0 -> exists nets, sh_containers n' !! c = Some nets /\ name ∉ nets).
Proof.
  intros Hr. called Hr out Hc; [split_and!; [done|by left|]; by intros ? [= <-]|]. verb Hc. unfold network_call in Hc. verb Hc.
  destruct (sh_containers n !! c) as [nets|] eqn:Hl; injection Hc as <- <-; (split_and!; [done|..]); [right; eauto| |by left|by intros ? [= <-]].
  intros ? [= <-] _. cbn. rewrite lookup_insert_eq. eexists. split; [done|]. set_solver.
Qed.

Lemma sample_create {down} runner args opts words c network (n : Sample down) o n' : parse_create args = Some (opts, words) -> values_of (lit "--name") opts = [c] ->
  values_of (lit "--network") opts = [network] -> ran runner (lit "create" :: args) n o n' ->
  sh_starts n' = sh_starts n /\ (sh_containers n' = sh_containers n \/ sh_containers n !! c = None /\ sh_containers n' = <[c := {[network]}]> (sh_containers n)).
Proof.
  intros Hp Hn Hw Hr. called Hr out Hc; [by auto|]. verb Hc. unfold create_call in Hc. rewrite Hp, Hn, Hw in Hc.
  destruct (bool_decide _) eqn:E; injection Hc as <- <-; [|by auto]. apply bool_decide_eq_true in E. by auto.
Qed.

Lemma sample_start {down} runner c args (n : Sample down) o n' : args = [lit "start"; c] \/ args = [lit "restart"; lit "--time"; STOP_GRACE_SECONDS; c] -> ran runner args n o n' ->
  sh_containers n' = sh_containers n /\ (sh_starts n' = sh_starts n \/ exists nets, sh_containers n !! c = Some nets /\ sh_starts n' = sh_starts n ++ [(c, nets)]).
Proof.
  intros Ha Hr. called Hr out Hc; [by auto|]. assert (Hrun : run_call c n = (out, n')) by (destruct Ha as [->| ->]; verb Hc; exact Hc).
  unfold run_call in Hrun. destruct (sh_containers n !! c) as [nets|] eqn:Hl; injection Hrun as <- <-; [|by auto]. split; [done|]. right. eauto.
Qed.

Lemma sample_rm {down} runner c (n : Sample down) o n' : ran runner [lit "rm"; lit "-f"; c] n o n' ->
  sh_starts n' = sh_starts n /\ (sh_containers n' = sh_containers n \/ sh_containers n' = delete c (sh_containers n)) /\
  (forall out, o = Some out -> out.(exit_code) = 0 -> sh_containers n' = delete c (sh_containers n)).
Proof. intros Hr. called Hr out Hc; [split_and!; [done|by left|]; by intros ? [= <-]|]. verb Hc. cbn [last] in Hc. injection Hc as <- <-. by auto. Qed.

Lemma sample_quiet {down} runner name args (n : Sample down) o n' : QuietCall name args -> ran runner args n o n' -> sh_containers n' = sh_containers n /\ sh_starts n' = sh_starts n.
Proof.
  intros Hq Hr. called Hr out Hc; [done|]. destruct Hq as [network|options network| |]; verb Hc; [unfold network_call in Hc; verb Hc; by injection Hc as <- <-| | |by injection Hc as <- <-].
  - cbn [app] in Hc. unfold network_call in Hc. repeat (case_match; try (verb Hc); try (by injection Hc as <- <-)).
  - unfold inspect_call in Hc. by destruct (bool_decide _); injection Hc as <- <-.
Qed.

Lemma sample_finds {down} runner name (n : Sample down) out n' : ran runner [lit "inspect"; name] n (Some out) n' -> out.(exit_code) = 0 -> is_Some (sh_containers n !! name).
Proof.
  intros Hr He. apply ran_call in Hr as (out' & [= <-] & Hc). unfold call in Hc. destruct down; [by injection Hc as <- <-|]. verb Hc. unfold inspect_call in Hc.
  destruct (bool_decide _) eqn:E; injection Hc as <- <-; [|done]. by apply bool_decide_eq_true in E.
Qed.

#[global] Instance sample_docker {down} runner : DockerHost (Sample down) runner.
Proof.
  refine {| containers := sh_containers (down := down); starts := sh_starts; inspect_networks := sample_inspect runner; connect_attaches := sample_connect runner;
    disconnect_detaches := sample_disconnect runner; create_makes := sample_create runner; start_runs := sample_start runner; rm_removes := sample_rm runner;
    quiet_call := sample_quiet runner; inspect_finds := sample_finds runner |}.
  - intros command n r n' Hq He. cbn [execute_command sample_connection] in He. rewrite (quiet_sample _ Hq) in He. by injection He as <- <-.
  - by intros path bytes n r n' [= <- <-].
  - by intros path n r n' [= <- <-].
  - by intros path bytes n r n' [= <- <-].
  - by intros path n r n' [= <- <-].
  - done.
  - intros n out n' He _. cbn [execute_command sample_connection] in He. rewrite (quiet_sample _ quiet_mktemp) in He. by injection He as <- <-.
Defined.

#[global] Instance sample_floats : FloatText.
Proof. refine {| show_f32 _ := lit "1.5" |}. done. Defined.

(** Two applications, connected to each other. *)
Definition sample_config : DockerConfig := mkDockerConfig (lit "itzg/minecraft-server:latest") [lit "--nogui"] (Some 2048) None None true.
Definition sample_ctx : RuntimeContext :=
  mkContext 7 (lit "Lobby") (lit "/home/container/lobby") (Ok sample_config) [mkEnv (lit "EULA") (lit "TRUE") false; mkEnv (lit "RCON_PASSWORD") (lit "s3cret") true]
    [mkContainerPort Tcp (lit "0.0.0.0") 25565 (Some 25565); mkContainerPort Tcp (lit "127.0.0.1") 25575 None] [340282366920938463463374607431768211455%N] true.

Definition sample_state {down} : FwState (Sample down) := mkFw (mkSample ∅ []) ∅ 0.
