(* ===== verification/Isolation.v ===== *)
(** * Isolation: which containers can reach which

    [reconcile_networks] of [runtime/docker.rs] and what [start], [restart] and
    [sync_connections] make of it, on a [DockerHost]: whatever fails on the way,
    a container begins to run only on the networks its connections grant, and a
    network the operator attached by hand is left alone.  Two applications
    brought in line with the table of connections share a network exactly when
    they are connected. *)

From S2P Require Import Prelude Text Shell Sandbox Validators Ufw Firewall Sudoers MemberAccount Mesh Docker DockerHost.

#[local] Open Scope Z_scope.
#[local] Open Scope fw_scope.

(** ** Names *)

Lemma container_chars_no_nul s : forallb container_char s = true -> contains_char 0 s = false.
Proof.
  intros Hs. apply existsb_false_elem_of. intros c Hc. rewrite forallb_elem_of in Hs. specialize (Hs c Hc).
  revert Hs. unfold container_char, is_ascii_alphanumeric, is_ascii_alphabetic, is_ascii_uppercase, is_ascii_lowercase, is_ascii_digit, in_range. lia.
Qed.

Lemma hex_fixed_container width : forall n, forallb container_char (hex_fixed width n) = true.
Proof.
  induction width as [|w IH]; intros n; [done|]. cbn [hex_fixed]. rewrite forallb_app, IH. cbn [forallb]. rewrite andb_true_r.
  pose proof (Z.mod_pos_bound n 16 ltac:(lia)) as Hn. unfold hex_digit, container_char, is_ascii_alphanumeric, is_ascii_alphabetic, is_ascii_uppercase, is_ascii_lowercase, is_ascii_digit, in_range.
  destruct (Z.ltb_spec (n mod 16) 10); lia.
Qed.

Lemma hex_fixed_length width : forall n, length (hex_fixed width n) = width.
Proof. induction width as [|w IH]; intros n; [done|]. cbn [hex_fixed]. rewrite length_app, IH. simpl. lia. Qed.

Lemma uuid_simple_chars id : forallb container_char (uuid_simple id) = true /\ length (uuid_simple id) = 32%nat.
Proof. split; [apply hex_fixed_container|apply hex_fixed_length]. Qed.

Lemma short_id_chars id : forallb container_char (short_id id) = true /\ length (short_id id) = 12%nat.
Proof.
  unfold short_id. destruct (uuid_simple_chars id) as [Hc Hl]. revert Hc Hl. generalize (uuid_simple id). intros s Hc Hl.
  split; [|rewrite length_take; lia]. rewrite <-(drop_0 s). by apply forallb_slice.
Qed.

Lemma container_name_chars id : forallb container_char (container_name id) = true.
Proof.
  unfold container_name, uuid_text. destruct (uuid_simple_chars id) as [Hc Hl]. revert Hc Hl. generalize (uuid_simple id). intros s Hc Hl.
  cbn [join]. rewrite !forallb_app, !forallb_slice by done. rewrite <-(drop_0 s) at 1. rewrite forallb_slice by done.
  rewrite <-(firstn_all (drop 20 s)), forallb_slice by done. done.
Qed.

Lemma ascii_byte_len s : forallb container_char s = true -> byte_len s = Z.of_nat (length s).
Proof.
  induction s as [|c s IH]; [done|]. cbn [forallb byte_len length]. intros [Hc Hs]%andb_true_iff. rewrite IH by done. unfold len_utf8.
  assert (c < 128) as Hlt. { revert Hc. unfold container_char, is_ascii_alphanumeric, is_ascii_alphabetic, is_ascii_uppercase, is_ascii_lowercase, is_ascii_digit, in_range. lia. }
  destruct (Z.ltb_spec c 128); lia.
Qed.

Lemma container_name_valid id : validate_container_ref (container_name id) = Ok tt.
Proof.
  pose proof (container_name_chars id) as Hc. unfold validate_container_ref. rewrite Hc, ascii_byte_len by done.
  assert (Hl : length (container_name id) = 48%nat).
  { unfold container_name, uuid_text. destruct (uuid_simple_chars id) as [_ Hl]. revert Hl. generalize (uuid_simple id). intros s Hl.
    cbn [join]. rewrite !length_app, !length_take, !length_drop, Hl. reflexivity. }
  rewrite Hl. reflexivity.
Qed.

Lemma app_network_chars id : forallb container_char (app_network_name id) = true.
Proof. unfold app_network_name. rewrite forallb_app. by rewrite (proj1 (short_id_chars id)). Qed.

Lemma link_network_chars a b : forallb container_char (link_network_name a b) = true.
Proof. unfold link_network_name. destruct (N.leb a b); rewrite !forallb_app, !(proj1 (short_id_chars _)); done. Qed.

Lemma link_network_sym a b : link_network_name a b = link_network_name b a.
Proof.
  unfold link_network_name. destruct (N.leb_spec a b), (N.leb_spec b a); try done; [|lia]. by assert (a = b) as -> by lia.
Qed.

Lemma alias_chars `{UnicodeCase} ctx : forallb container_char (network_alias ctx) = true.
Proof.
  unfold network_alias. destruct (dns_label (cx_name ctx)) as [label|] eqn:E; [|apply container_name_chars].
  assert (Hl : rfc1123_label label = true).
  { unfold dns_label in E. destruct (is_empty _) eqn:Ee; [done|]. injection E as <-. destruct (label_loop_inv _ (lowered_small (cx_name ctx)) [] false) as [d Hi]; [by split|].
    destruct (label_trimmed _ _ Hi) as [Ht|[Ht _]]; [done|]. rewrite Ht in Ee. discriminate Ee. }
  unfold rfc1123_label in Hl. rewrite !andb_true_iff in Hl. destruct Hl as (((((_ & _) & Hl) & _) & _) & _). cbn [default from_option].
  rewrite forallb_elem_of in *. intros c Hc. specialize (Hl c Hc). revert Hl.
  unfold label_char, container_char, is_ascii_alphanumeric, is_ascii_alphabetic, is_ascii_uppercase, is_ascii_lowercase, is_ascii_digit, in_range. lia.
Qed.

Lemma short_app a b x y : short_id a ++ x = short_id b ++ y -> short_id a = short_id b /\ x = y.
Proof. intros Heq. apply app_inj_1 in Heq; [done|]. by rewrite !(proj2 (short_id_chars _)). Qed.

Lemma app_network_inj a b : app_network_name a = app_network_name b <-> short_id a = short_id b.
Proof. unfold app_network_name. split; [by intros ?%app_inv_head|by intros ->]. Qed.

Lemma app_not_link a b c : app_network_name a <> link_network_name b c.
Proof.
  unfold app_network_name, link_network_name, APP_NETWORK_PREFIX, LINK_NETWORK_PREFIX. intros Heq.
  destruct (N.leb b c); apply (f_equal (take 9)) in Heq; cbn in Heq; discriminate Heq.
Qed.

(** With different short names, the name of a link says which two it links. *)
Lemma link_network_inj (S : gset N) a b c d : (forall x y, x ∈ S -> y ∈ S -> short_id x = short_id y -> x = y) -> a ∈ S -> b ∈ S -> c ∈ S -> d ∈ S ->
  link_network_name a b = link_network_name c d -> a = c /\ b = d \/ a = d /\ b = c.
Proof.
  intros Hinj Ha Hb Hc Hd. unfold link_network_name.
  destruct (N.leb a b), (N.leb c d); intros Heq%app_inv_head; apply short_app in Heq as [H1 H2%app_inv_head];
    apply Hinj in H1; try done; apply Hinj in H2; auto.
Qed.

(** ** The networks a container should be on *)

Lemma link_networks_in id links : forall networks name,
  name ∈ link_networks id networks links <-> name ∈ networks \/ exists peer, peer ∈ links /\ peer <> id /\ name = link_network_name id peer.
Proof.
  induction links as [|peer links IH]; intros networks name; cbn [link_networks].
  - split; [auto|]. by intros [?|(? & ?%elem_of_nil & _)].
  - setoid_rewrite elem_of_cons. destruct (N.eqb_spec peer id) as [->|Hne].
    + rewrite IH. naive_solver.
    + destruct (existsb _ networks) eqn:E; rewrite IH.
      * apply existsb_elem_of in E as (x & Hx & Heq%bool_decide_eq_true). subst x. naive_solver.
      * rewrite elem_of_app, list_elem_of_singleton. naive_solver.
Qed.

Lemma desired_networks_in ctx name :
  name ∈ desired_networks ctx <-> name = app_network_name ctx.(cx_id) \/ exists peer, peer ∈ ctx.(cx_links) /\ peer <> ctx.(cx_id) /\ name = link_network_name ctx.(cx_id) peer.
Proof. unfold desired_networks. rewrite link_networks_in, list_elem_of_singleton. done. Qed.

Definition managed (name : list Z) : Prop := starts_with MANAGED_NETWORK_PREFIX name = true.
#[global] Instance managed_dec name : Decision (managed name).
Proof. unfold managed. apply _. Defined.

Lemma desired_managed ctx name : name ∈ desired_networks ctx -> managed name.
Proof.
  assert (Hp : forall s, managed (MANAGED_NETWORK_PREFIX ++ s)) by (intros s; reflexivity).
  rewrite desired_networks_in. intros [->|(peer & _ & _ & ->)].
  - apply (Hp (lit "net-" ++ _)).
  - unfold link_network_name. destruct (N.leb _ _); apply (Hp (lit "link-" ++ _)).
Qed.

Lemma desired_chars ctx name : name ∈ desired_networks ctx -> forallb container_char name = true.
Proof. rewrite desired_networks_in. intros [->|(peer & _ & _ & ->)]; [apply app_network_chars|apply link_network_chars]. Qed.

(** [docker inspect]'s answer is read as the names. *)
Lemma solid_name name : forallb network_char name = true -> name <> [] -> solid name = true.
Proof.
  intros Hc Hne. unfold solid. apply andb_true_iff. split; [by destruct name|]. apply negb_true_iff, existsb_false_elem_of. intros c Hin.
  rewrite forallb_elem_of in Hc. specialize (Hc c Hin). revert Hc.
  unfold network_char, container_char, is_whitespace, is_ascii_alphanumeric, is_ascii_alphabetic, is_ascii_uppercase, is_ascii_lowercase, is_ascii_digit, in_range. lia.
Qed.

Lemma split_on_solid w : forall rest, existsb is_whitespace w = false -> split_on is_whitespace (w ++ 32 :: rest) = w :: split_on is_whitespace rest.
Proof.
  induction w as [|c w IH]; intros rest Hw; [done|]. cbn [existsb] in Hw. apply orb_false_iff in Hw as [Hc Hw].
  cbn [app split_on]. by rewrite Hc, IH.
Qed.

Lemma split_names names : Forall (fun name => forallb network_char name = true /\ name <> []) names ->
  split_whitespace ((names ≫= fun name => name ++ [32]) ++ [10]) = names.
Proof.
  induction 1 as [|name names [Hc Hne] Hall IH]; [reflexivity|]. unfold split_whitespace in *. rewrite bind_cons, <-!app_assoc. cbn [app].
  pose proof (solid_name name Hc Hne) as Hs. unfold solid in Hs. apply andb_true_iff in Hs as [He Hw]. apply negb_true_iff in Hw.
  rewrite split_on_solid by done. cbn [List.filter]. rewrite He, IH. done.
Qed.

(** ** Bringing a container in line *)

Definition wanted (ctx : RuntimeContext) : gset (list Z) := list_to_set (desired_networks ctx).
(** The networks a container on [nets] is to be taken off. *)
Definition obsolete (ctx : RuntimeContext) (nets : gset (list Z)) : gset (list Z) := filter managed (nets ∖ wanted ctx).
(** Where a container on [nets] is after a reconcile that succeeds. *)
Definition settled (ctx : RuntimeContext) (nets : gset (list Z)) : gset (list Z) := (nets ∪ wanted ctx) ∖ obsolete ctx nets.

Lemma settled_managed ctx nets : filter managed (settled ctx nets) = wanted ctx.
Proof.
  apply set_eq. intros name. unfold settled, obsolete. rewrite !elem_of_filter, elem_of_difference, elem_of_union, elem_of_filter, elem_of_difference. split.
  - intros (Hm & [Hn|Hn] & Hno); [|done]. destruct (decide (name ∈ wanted ctx)); [done|]. tauto.
  - intros Hw. split; [|tauto]. unfold wanted in Hw. rewrite elem_of_list_to_set in Hw. by eapply desired_managed.
Qed.

Lemma settled_unmanaged ctx nets name : ~ managed name -> name ∈ settled ctx nets <-> name ∈ nets.
Proof.
  intros Hm. unfold settled, obsolete. rewrite elem_of_difference, elem_of_union, elem_of_filter. split; [|tauto]. intros [[Hn|Hw] _]; [done|].
  unfold wanted in Hw. rewrite elem_of_list_to_set in Hw. by apply desired_managed in Hw.
Qed.

Lemma settled_settled ctx nets : settled ctx (settled ctx nets) = settled ctx nets.
Proof.
  apply set_eq. intros name. destruct (decide (managed name)) as [Hm|Hm]; [|by rewrite settled_unmanaged].
  assert (Hf : forall n, name ∈ settled ctx n <-> name ∈ filter managed (settled ctx n)) by (intros n; rewrite elem_of_filter; tauto).
  by rewrite !Hf, !settled_managed.
Qed.

Section reconcile.
Context `{UnicodeCase} {Node : Type} `{DockerHost Node runner}.
Variable ctx : RuntimeContext.
Let c := container_name ctx.(cx_id).

(** The container is on [nets], and everything else is as in [C] and [T]. *)
Definition on (C : gmap (list Z) (gset (list Z))) (T : list Started) (nets : gset (list Z)) (n : Node) : Prop :=
  containers n = <[c := nets]> C /\ starts n = T.

Lemma on_view C T nets n n' : view n' = view n -> on C T nets n -> on C T nets n'.
Proof. unfold view, on. intros [= -> ->]. done. Qed.

Lemma calm_inspect : calm (docker runner [lit "inspect"; c]).
Proof. apply (calm_docker c); [constructor|]. repeat constructor. apply container_chars_no_nul, container_name_chars. Qed.

Lemma calm_ensure_network name internal : forallb container_char name = true -> calm (ensure_network runner name internal).
Proof.
  intros Hn%container_chars_no_nul. unfold ensure_network.
  assert (Hi : calm (docker runner [lit "network"; lit "inspect"; name])) by (apply (calm_docker c); [constructor|by repeat constructor]).
  apply calm_bind; [done|]. intros probe. apply calm_if; [apply calm_ret|].
  apply calm_bind; [apply (calm_docker c); [constructor|destruct internal; by repeat constructor]|]. intros output. apply calm_if; [apply calm_ret|].
  apply calm_bind; [done|]. intros recheck. repeat (apply calm_if); auto with calm.
Qed.

Lemma current_networks_spec C T nets : C !! c = Some nets ->
  spec (on C T nets) (current_networks runner c)
    (fun r n => on C T nets n /\ match r with Ok current => list_to_set current = nets /\ Forall (fun name => forallb container_char name = true) current | Err _ => True end).
Proof.
  intros Hc. unfold current_networks, c. rewrite container_name_valid. cbn [from_result]. fold c.
  apply (spec_bind _ _ _ (fun _ => on C T nets)); [by apply spec_ret|]. intros _.
  apply (spec_bind _ _ _ (fun out n => on C T nets n /\ (out.(exit_code) = 0 -> list_to_set (split_whitespace out.(stdout)) = nets /\ Forall (fun name => forallb container_char name = true) (split_whitespace out.(stdout))))).
  - apply spec_docker; [repeat constructor; apply container_chars_no_nul, container_name_chars| |]; intros n n' o [Hn Hs] Hr;
      destruct (inspect_networks _ _ _ _ Hr) as (Hcn & Hst & Hout); (split; [unfold on; by rewrite Hcn, Hst|]); [done|].
    intros He. destruct (Hout o eq_refl He) as (nets' & names & Hl & Heq & Hall & ->). rewrite Hn, lookup_insert_eq in Hl. injection Hl as <-.
    rewrite split_names by done. split; [done|]. eapply Forall_impl; [exact Hall|]. by intros name [? _].
  - intros out. destruct (Z.eqb_spec (exit_code out) 0) as [He|He]; cbn [negb].
    + apply spec_ret. intros n [Hn Hout]. auto.
    + apply spec_throw. by intros n [Hn _].
Qed.

Implicit Types (C : gmap (list Z) (gset (list Z))) (T : list Started) (nets sure gone : gset (list Z)).

(** Inside the first loop: what was joined is wanted, and [sure] is there. *)
Definition joining C T nets sure (n : Node) : Prop :=
  exists X : gset (list Z), X ⊆ wanted ctx /\ sure ⊆ nets ∪ X /\ on C T (nets ∪ X) n.

Lemma joining_weaken C T nets sure sure' n : sure' ⊆ sure -> joining C T nets sure n -> joining C T nets sure' n.
Proof. intros Hs (X & HX & Hsure & Hon). exists X. split_and!; [done|set_solver|done]. Qed.

Lemma joining_view C T nets sure n n' : view n' = view n -> joining C T nets sure n -> joining C T nets sure n'.
Proof. intros Hv (X & HX & Hsure & Hon). exists X. split_and!; [done..|by eapply on_view]. Qed.

Lemma joining_connect C T nets sure alias name n answer n' : name ∈ wanted ctx ->
  joining C T nets sure n -> ran runner [lit "network"; lit "connect"; lit "--alias"; alias; name; c] n answer n' ->
  joining C T nets sure n' /\ (forall out, answer = Some out -> out.(exit_code) = 0 -> joining C T nets (sure ∪ {[name]}) n').
Proof.
  intros Hw (X & HX & Hs & Hn & Hst) Hr. destruct (connect_attaches _ _ _ _ _ _ Hr) as (Hst' & Hcn & Hout).
  assert (exists X' : gset (list Z), X' ⊆ wanted ctx /\ nets ∪ X ⊆ nets ∪ X' /\ on C T (nets ∪ X') n') as (X' & HX' & Hsub & Hon').
  { destruct Hcn as [Hcn|(nets' & Hl & Hcn)].
    - exists X. split_and!; [done..|]. split; congruence.
    - rewrite Hn, lookup_insert_eq in Hl. injection Hl as <-. exists ({[name]} ∪ X). split_and!; [set_solver|set_solver|]. split; [|congruence].
      rewrite Hcn, Hn, insert_insert_eq. f_equal. set_solver. }
  split; [exists X'; split_and!; [done|set_solver|done]|]. intros out -> He. destruct (Hout _ eq_refl He) as (nets' & Hl & Hin). pose proof Hon' as [Hn' Hs'].
  rewrite Hn', lookup_insert_eq in Hl. injection Hl as <-. exists X'. split_and!; [done|set_solver|done].
Qed.

Lemma connect_missing_spec C T nets current own alias desired : list_to_set current = nets -> contains_char 0 alias = false -> forall sure,
  Forall (fun name => name ∈ desired_networks ctx) desired ->
  spec (joining C T nets sure) (connect_missing runner own alias c current desired)
    (fun r n => match r with Ok _ => joining C T nets (sure ∪ list_to_set desired) n | Err _ => joining C T nets ∅ n end).
Proof.
  intros Hcur Hal. induction desired as [|name desired IH]; intros sure Hd.
  - apply spec_ret. intros n. apply joining_weaken. set_solver.
  - inversion_clear Hd as [|? ? Hname Hrest]. pose proof (desired_chars _ _ Hname) as Hch. cbn [connect_missing].
    assert (Hw : name ∈ wanted ctx) by (by apply elem_of_list_to_set).
    assert (Hnext : spec (joining C T nets (sure ∪ {[name]})) (connect_missing runner own alias c current desired)
      (fun r n => match r with Ok _ => joining C T nets (sure ∪ list_to_set (name :: desired)) n | Err _ => joining C T nets ∅ n end)).
    { eapply spec_conseq; [apply (IH (sure ∪ {[name]}) Hrest)|done|]. intros [[]|e] n; [|done]. apply joining_weaken. set_solver. }
    destruct (existsb _ current) eqn:E.
    + apply existsb_elem_of in E as (x & Hx & Heq%bool_decide_eq_true). subst x. eapply spec_conseq; [exact Hnext| |done].
      intros n (X & HX & Hs & Hon). exists X. split_and!; [done| |done]. assert (name ∈ nets) by (rewrite <-Hcur; by apply elem_of_list_to_set). set_solver.
    + apply (spec_bind _ _ _ (fun _ => joining C T nets sure)).
      { eapply spec_conseq; [apply (spec_calm (joining C T nets sure)); [by apply calm_ensure_network|intros n n'; apply joining_view]|done|].
        intros [[]|e] n; [done|]. apply joining_weaken. set_solver. }
      intros _. apply (spec_bind _ _ _ (fun out n => joining C T nets sure n /\ (out.(exit_code) = 0 -> joining C T nets (sure ∪ {[name]}) n))).
      * apply spec_docker.
        -- repeat constructor; [done|by apply container_chars_no_nul|apply container_chars_no_nul, container_name_chars].
        -- intros n n' e Hj Hr. destruct (joining_connect _ _ _ _ _ _ _ _ _ Hw Hj Hr) as [Hj' _]. by eapply joining_weaken; [|exact Hj'].
        -- intros n n' out Hj Hr. destruct (joining_connect _ _ _ _ _ _ _ _ _ Hw Hj Hr) as [? Hok]. eauto.
      * intros out. destruct (Z.eqb_spec (exit_code out) 0) as [He|He]; cbn [negb]; [eapply spec_conseq; [exact Hnext|naive_solver|done]|].
        destruct (is_unreachable _); apply spec_throw; intros n [Hj _]; by eapply joining_weaken; [|exact Hj].
Qed.

(** Inside the second loop: only what is obsolete was left, and [gone] is. *)
Definition leaving C T nets gone (n : Node) : Prop :=
  exists Y : gset (list Z), Y ⊆ obsolete ctx nets /\ gone ⊆ Y /\ on C T ((nets ∪ wanted ctx) ∖ Y) n.

Lemma leaving_weaken C T nets gone gone' n : gone' ⊆ gone -> leaving C T nets gone n -> leaving C T nets gone' n.
Proof. intros Hs (Y & HY & Hg & Hon). exists Y. split_and!; [done|set_solver|done]. Qed.

Lemma leaving_disconnect C T nets gone name n answer n' : name ∈ obsolete ctx nets ->
  leaving C T nets gone n -> ran runner [lit "network"; lit "disconnect"; name; c] n answer n' ->
  leaving C T nets gone n' /\ (forall out, answer = Some out -> out.(exit_code) = 0 -> leaving C T nets (gone ∪ {[name]}) n').
Proof.
  intros Hob (Y & HY & Hg & Hn & Hst) Hr. destruct (disconnect_detaches _ _ _ _ _ Hr) as (Hst' & Hcn & Hout).
  assert (exists Y' : gset (list Z), Y' ⊆ obsolete ctx nets /\ Y ⊆ Y' /\ on C T ((nets ∪ wanted ctx) ∖ Y') n') as (Y' & HY' & Hsub & Hon').
  { destruct Hcn as [Hcn|(nets' & Hl & Hcn)].
    - exists Y. split_and!; [done..|]. split; congruence.
    - rewrite Hn, lookup_insert_eq in Hl. injection Hl as <-. exists ({[name]} ∪ Y). split_and!; [set_solver|set_solver|]. split; [|congruence].
      rewrite Hcn, Hn, insert_insert_eq. f_equal. set_solver. }
  split; [exists Y'; split_and!; [done|set_solver|done]|]. intros out -> He. destruct (Hout _ eq_refl He) as (nets' & Hl & Hin). pose proof Hon' as [Hn' Hs'].
  rewrite Hn', lookup_insert_eq in Hl. injection Hl as <-. exists ({[name]} ∪ Y'). split_and!; [set_solver|set_solver|]. split; [|done].
  rewrite Hn'. f_equal. apply set_eq. intros x. destruct (decide (x = name)) as [->|]; set_solver.
Qed.

Lemma disconnect_obsolete_spec C T nets current : list_to_set current ⊆ nets -> Forall (fun name => forallb container_char name = true) current -> forall gone,
  spec (leaving C T nets gone) (disconnect_obsolete runner c (desired_networks ctx) current)
    (fun r n => match r with Ok _ => leaving C T nets (gone ∪ obsolete ctx (list_to_set current)) n | Err _ => leaving C T nets ∅ n end).
Proof.
  intros Hcur Hch. induction current as [|name current IH]; intros gone.
  - apply spec_ret. intros n. apply leaving_weaken. unfold obsolete. set_solver.
  - inversion_clear Hch as [|? ? Hname Hrest]. cbn [list_to_set] in Hcur. specialize (IH ltac:(set_solver) Hrest). cbn [disconnect_obsolete].
    destruct (negb (starts_with MANAGED_NETWORK_PREFIX name) || existsb (str_eqb name) (desired_networks ctx)) eqn:E.
    + eapply spec_conseq; [apply (IH gone)|done|]. intros [[]|e] n; [|done]. apply leaving_weaken. cbn [list_to_set]. unfold obsolete.
      intros x Hx. rewrite elem_of_union, elem_of_filter, elem_of_difference, elem_of_union, elem_of_singleton in Hx. rewrite elem_of_union, elem_of_filter, elem_of_difference.
      destruct Hx as [Hx|(Hm & [->|Hx] & Hw)]; [auto| |auto]. exfalso. apply orb_true_iff in E as [E%negb_true_iff|(y & Hy & Heq%bool_decide_eq_true)%existsb_elem_of]; [congruence|].
      subst y. apply Hw, elem_of_list_to_set, Hy.
    + apply orb_false_iff in E as [Em%negb_false_iff Ew]. assert (Hob : name ∈ obsolete ctx nets).
      { apply elem_of_filter. split; [done|]. apply elem_of_difference. split; [set_solver|]. intros Hw%elem_of_list_to_set.
        rewrite existsb_false_elem_of in Ew. specialize (Ew _ Hw). unfold str_eqb in Ew. by apply bool_decide_eq_false in Ew. }
      apply (spec_bind _ _ _ (fun out n => leaving C T nets gone n /\ (out.(exit_code) = 0 -> leaving C T nets (gone ∪ {[name]}) n))).
      * apply spec_docker.
        -- repeat constructor; [by apply container_chars_no_nul|apply container_chars_no_nul, container_name_chars].
        -- intros n n' e Hj Hr. destruct (leaving_disconnect _ _ _ _ _ _ _ _ Hob Hj Hr) as [Hj' _]. by eapply leaving_weaken; [|exact Hj'].
        -- intros n n' out Hj Hr. destruct (leaving_disconnect _ _ _ _ _ _ _ _ Hob Hj Hr) as [? Hok]. eauto.
      * intros out. destruct (Z.eqb_spec (exit_code out) 0) as [He|He]; cbn [negb].
        -- eapply spec_conseq; [apply (IH (gone ∪ {[name]}))|naive_solver|]. intros [[]|e] n; [|done]. apply leaving_weaken. unfold obsolete. cbn [list_to_set].
           intros x Hx. rewrite !elem_of_union, !elem_of_filter, !elem_of_difference, ?elem_of_union, !elem_of_singleton in *. naive_solver.
        -- apply spec_throw. intros n [Hj _]. by eapply leaving_weaken; [|exact Hj].
Qed.

(** The end of a reconcile, whatever happened. *)
Definition reconciled C T nets (r : result AppError unit) (n : Node) : Prop :=
  exists nets', nets ∖ obsolete ctx nets ⊆ nets' /\ nets' ⊆ nets ∪ wanted ctx /\ (r = Ok tt -> nets' = settled ctx nets) /\ on C T nets' n.

Lemma reconcile_networks_spec C T nets : C !! c = Some nets -> spec (on C T nets) (reconcile_networks runner ctx c) (reconciled C T nets).
Proof.
  intros HC. unfold reconcile_networks. apply (spec_bind _ _ _ (fun current n => on C T nets n /\ list_to_set current = nets /\ Forall (fun name => forallb container_char name = true) current)).
  { eapply spec_conseq; [by apply current_networks_spec|done|]. intros [current|e] n [Hon Hr]; [auto|]. exists nets. split_and!; [set_solver..|done|done]. }
  intros current. apply (spec_bind _ _ _ (fun _ n => leaving C T nets ∅ n /\ list_to_set current = nets /\ Forall (fun name => forallb container_char name = true) current)).
  - intros s (Hon & Hcur & Hall). assert (Hj : joining C T nets ∅ (fw_node s)). { exists ∅. rewrite union_empty_r_L. split_and!; [set_solver..|done]. }
    pose proof (connect_missing_spec C T nets current (app_network_name (cx_id ctx)) (network_alias ctx) (desired_networks ctx) Hcur) as Hspec.
    specialize (Hspec (container_chars_no_nul _ (alias_chars ctx)) ∅ ltac:(by apply Forall_forall) s Hj).
    destruct (connect_missing _ _ _ _ _ _ s) as [[[]|e] s'] eqn:E; cbn [fst snd] in *.
    + destruct Hspec as (X & HX & Hsure & Hon'). split_and!; [|done..]. exists ∅. split_and!; [set_solver..|]. fold (wanted ctx) in Hsure. rewrite difference_empty_L.
      assert (nets ∪ X = nets ∪ wanted ctx) as <- by set_solver. done.
    + destruct Hspec as (X & HX & _ & Hon'). exists (nets ∪ X). split_and!; [set_solver|set_solver|done|done].
  - intros _ s (Hl & Hcur & Hall). assert (Hsub : list_to_set current ⊆ nets) by (by rewrite Hcur). pose proof (disconnect_obsolete_spec C T nets current Hsub Hall ∅ s Hl) as Hspec.
    destruct (disconnect_obsolete _ _ _ _ s) as [[[]|e] s'] eqn:E; cbn [fst snd] in *; destruct Hspec as (Y & HY & Hg & Hon).
    + rewrite Hcur, union_empty_l_L in Hg. assert (Y = obsolete ctx nets) as -> by set_solver.
      exists (settled ctx nets). unfold settled. split_and!; [|set_solver|done|done]. unfold obsolete. set_solver.
    + exists ((nets ∪ wanted ctx) ∖ Y). split_and!; [set_solver|set_solver|done|done].
Qed.
End reconcile.
