(* ===== verification/Containers.v ===== *)
(** * Containers: creating, starting, removing and talking to a container

    Theorems about the operations of [DockerRuntime] in [Docker]: what the
    command line of [docker create] says, what [start] and [restart] do to a
    host whatever fails on the way, that the environment reaches Docker as it
    was given and only through the private file, and that a console line is
    written to the container's pipe as one line. *)

From S2P Require Import Prelude Text Shell Sandbox Validators Ufw Firewall Sudoers MemberAccount Mesh Docker DockerHost SampleDocker Isolation.

#[local] Open Scope Z_scope.
#[local] Open Scope fw_scope.

(** ** The command line of docker create *)

(** Options, each with its value, as words. *)
Definition option_words (opts : list (list Z * list Z)) : list (list Z) := opts ≫= fun o => [o.1; o.2].

Lemma parse_options opts image command :
  Forall (fun o => existsb (str_eqb o.1) VALUE_OPTIONS = true) opts -> starts_with_char 45 image = false ->
  parse_create (option_words opts ++ image :: command) = Some (opts, image :: command).
Proof.
  intros Hall Hi. induction Hall as [|[o v] opts Ho _ IH]; [cbn [option_words mbind list_bind app parse_create]; by rewrite Hi|].
  unfold option_words in *. rewrite bind_cons, <-app_assoc. cbn [fst snd app] in *. cbn [parse_create].
  assert (Hd : starts_with_char 45 o = true /\ str_eqb o (lit "-i") = false).
  { apply existsb_elem_of in Ho as (x & Hx & Heq%bool_decide_eq_true). subst x. unfold VALUE_OPTIONS in Hx.
    repeat (apply elem_of_cons in Hx as [->|Hx]; [by vm_compute|]). by apply elem_of_nil in Hx. }
  destruct Hd as [-> ->]. cbn [negb]. rewrite Ho, IH. done.
Qed.

Section create.
Context `{UnicodeCase} `{FloatText}.

Definition published (port : ContainerPort) : option (list Z) :=
  (fun external_port => port.(cp_bind_address) ++ lit ":" ++ to_dec external_port ++ lit ":" ++ to_dec port.(cp_internal_port) ++ lit "/" ++ protocol_name port.(cp_protocol)) <$> port.(cp_external_port).

(** What a container is created with, option by option. *)
Definition container_options (ctx : RuntimeContext) (config : DockerConfig) (name policy : list Z) (user env_file : option (list Z)) : list (list Z * list Z) :=
  let directory := container_working_directory ctx.(cx_working_directory) in
  [(lit "--name", name); (lit "--restart", policy); (lit "--stop-timeout", lit "120"); (lit "--add-host", lit "host.docker.internal:host-gateway");
   (lit "--network", app_network_name ctx.(cx_id)); (lit "--network-alias", network_alias ctx); (lit "-v", ctx.(cx_working_directory) ++ lit ":" ++ directory); (lit "-w", directory)]
  ++ match user with
     | Some user => (lit "--user", user) :: if existsb (fun variable => str_eqb variable.(ev_key) (lit "HOME")) ctx.(cx_environment) then [] else [(lit "-e", lit "HOME=" ++ directory)]
     | None => []
     end
  ++ match config.(dc_memory_limit_mb) with Some mb => [(lit "--memory", to_dec mb ++ lit "m")] | None => [] end
  ++ match config.(dc_cpu_limit_cores) with Some cores => [(lit "--cpus", show_f32 cores)] | None => [] end
  ++ map (pair (lit "-p")) (omap published ctx.(cx_ports))
  ++ match env_file with Some path => [(lit "--env-file", path)] | None => [] end.

Lemma option_words_app a b : option_words (a ++ b) = option_words a ++ option_words b.
Proof. apply bind_app. Qed.

Lemma publish_words ports : option_words (map (pair (lit "-p")) (omap published ports)) = ports ≫= publish_args.
Proof.
  induction ports as [|port ports IH]; [done|]. cbn [omap list_omap]. rewrite bind_cons, <-IH. unfold published, publish_args.
  by destruct (cp_external_port port).
Qed.

Lemma create_options_words ctx config name policy user env_file :
  create_options ctx config name policy user env_file = lit "create" :: lit "-i" :: option_words (container_options ctx config name policy user env_file).
Proof.
  unfold create_options, container_options, STOP_GRACE_SECONDS. rewrite !option_words_app, publish_words.
  destruct user; [destruct (existsb _ _)|]; destruct (dc_memory_limit_mb config), (dc_cpu_limit_cores config), env_file; reflexivity.
Qed.

Lemma container_options_known ctx config name policy user env_file :
  Forall (fun o => existsb (str_eqb o.1) VALUE_OPTIONS = true) (container_options ctx config name policy user env_file).
Proof.
  unfold container_options. repeat (apply Forall_app; split).
  - by repeat constructor.
  - destruct user; [destruct (existsb _ _)|]; by repeat constructor.
  - destruct (dc_memory_limit_mb config); by repeat constructor.
  - destruct (dc_cpu_limit_cores config); by repeat constructor.
  - apply Forall_forall. intros o Ho. apply list_elem_of_In, in_map_iff in Ho as (v & <- & _). reflexivity.
  - destruct env_file; by repeat constructor.
Qed.

Lemma parse_create_options ctx config name policy user env_file image command : starts_with_char 45 image = false ->
  parse_create (lit "-i" :: option_words (container_options ctx config name policy user env_file) ++ image :: command)
  = Some ((lit "-i", []) :: container_options ctx config name policy user env_file, image :: command).
Proof. intros Hi. cbn [parse_create]. rewrite parse_options; [reflexivity|apply container_options_known|done]. Qed.

Lemma build_create_args_ok ctx config name user env_file args : build_create_args ctx config name user env_file = Ok args ->
  exists policy, restart_policy_or_default config = Ok policy /\ validate_environment ctx.(cx_environment) = Ok tt /\
    args = lit "create" :: lit "-i" :: option_words (container_options ctx config name policy user env_file) ++ config.(dc_image) :: config.(dc_command).
Proof.
  unfold build_create_args. intros Hb.
  apply rbind_Ok in Hb as (? & _ & Hb). apply rbind_Ok in Hb as (? & _ & Hb). apply rbind_Ok in Hb as (? & _ & Hb). apply rbind_Ok in Hb as ([] & He & Hb).
  apply rbind_Ok in Hb as (? & _ & Hb). apply rbind_Ok in Hb as (policy & Hp & Hb). apply rbind_Ok in Hb as (? & _ & Hb). apply rbind_Ok in Hb as (? & _ & Hb).
  exists policy. split_and!; [done..|]. transitivity (create_options ctx config name policy user env_file ++ [dc_image config] ++ dc_command config); [congruence|].
  by rewrite create_options_words.
Qed.
End create.

(** ** What the options say *)

Lemma values_of_app o a b : values_of o (a ++ b) = values_of o a ++ values_of o b.
Proof. unfold values_of. by rewrite List.filter_app, map_app. Qed.

Lemma values_of_pairs o p (values : list (list Z)) : values_of o (map (pair p) values) = if str_eqb p o then values else [].
Proof. unfold values_of. induction values as [|v values IH]; cbn [map List.filter fst]; destruct (str_eqb p o); cbn [map snd]; congruence. Qed.

Lemma values_of_cons o k v l : values_of o ((k, v) :: l) = (if str_eqb k o then [v] else []) ++ values_of o l.
Proof. unfold values_of. cbn [List.filter fst]. by destruct (str_eqb k o). Qed.

Definition is_Some_b {A} (x : option A) : bool := match x with Some _ => true | None => false end.

(** Compares two literal names. *)
Ltac names := repeat match goal with |- context [str_eqb (lit ?a) (lit ?b)] => let v := eval vm_compute in (str_eqb (lit a) (lit b)) in change (str_eqb (lit a) (lit b)) with v end.

Definition with_environment (ctx : RuntimeContext) (environment : list EnvironmentVariable) : RuntimeContext :=
  mkContext ctx.(cx_id) ctx.(cx_name) ctx.(cx_working_directory) ctx.(cx_config) environment ctx.(cx_ports) ctx.(cx_links) ctx.(cx_remote).

Lemma home_by_keys environment environment' : map ev_key environment' = map ev_key environment ->
  existsb (fun variable => str_eqb variable.(ev_key) (lit "HOME")) environment' = existsb (fun variable => str_eqb variable.(ev_key) (lit "HOME")) environment.
Proof.
  revert environment'. induction environment as [|v vs IH]; intros [|w ws] Hk; try done. cbn [map existsb] in *. injection Hk as Hv Hk. by rewrite Hv, IH.
Qed.

Section created.
Context `{UnicodeCase} `{FloatText}.

(** The values of an option, one source of options after another. *)
Lemma values_of_options o ctx config name policy user env_file :
  let given key values := if str_eqb (lit key) o then values else [] in
  let directory := container_working_directory ctx.(cx_working_directory) in
  values_of o (container_options ctx config name policy user env_file) =
    given "--name" [name] ++ given "--restart" [policy] ++ given "--stop-timeout" [lit "120"] ++ given "--add-host" [lit "host.docker.internal:host-gateway"]
    ++ given "--network" [app_network_name ctx.(cx_id)] ++ given "--network-alias" [network_alias ctx] ++ given "-v" [ctx.(cx_working_directory) ++ lit ":" ++ directory]
    ++ given "-w" [directory] ++ given "--user" (option_list user)
    ++ given "-e" (if is_Some_b user && negb (existsb (fun variable => str_eqb variable.(ev_key) (lit "HOME")) ctx.(cx_environment)) then [lit "HOME=" ++ directory] else [])
    ++ given "--memory" (option_list ((fun mb => to_dec mb ++ lit "m") <$> config.(dc_memory_limit_mb))) ++ given "--cpus" (option_list (show_f32 <$> config.(dc_cpu_limit_cores)))
    ++ given "-p" (omap published ctx.(cx_ports)) ++ given "--env-file" (option_list env_file).
Proof.
  cbv zeta. unfold container_options. rewrite !values_of_app, values_of_pairs, !values_of_cons. change (values_of o []) with (@nil (list Z)).
  rewrite !app_nil_r, <-!app_assoc. do 8 f_equal.
  assert (Hm : forall A (x : option A) key f, values_of o (match x with Some a => [(lit key, f a)] | None => [] end) = if str_eqb (lit key) o then option_list (f <$> x) else []).
  { intros A [a|] key f; cbn [fmap option_fmap option_map option_list]; [rewrite values_of_cons, app_nil_r|]; by destruct (str_eqb (lit key) o). }
  rewrite !Hm. rewrite option_fmap_id.
  destruct user; cbn [option_list is_Some_b andb]; [destruct (existsb _ _); cbn [negb]; rewrite ?values_of_cons, <-?app_assoc|]; by destruct (str_eqb (lit "-e") o), (str_eqb (lit "--user") o).
Qed.

Lemma values_name ctx config name policy user env_file : values_of (lit "--name") ((lit "-i", []) :: container_options ctx config name policy user env_file) = [name].
Proof. rewrite values_of_cons, values_of_options. cbv zeta. names. reflexivity. Qed.

Lemma values_network ctx config name policy user env_file :
  values_of (lit "--network") ((lit "-i", []) :: container_options ctx config name policy user env_file) = [app_network_name ctx.(cx_id)].
Proof. rewrite values_of_cons, values_of_options. cbv zeta. names. reflexivity. Qed.

Lemma policy_valid config policy : restart_policy_or_default config = Ok policy -> policy ∈ VALID_RESTART_POLICIES.
Proof.
  unfold restart_policy_or_default. destruct (existsb _ _) eqn:E; cbn [negb]; [|done]. intros [= <-].
  apply existsb_elem_of in E as (x & Hx & Heq%bool_decide_eq_true). by subst x.
Qed.

Lemma build_create_args_environment ctx config name user env_file args environment :
  build_create_args ctx config name user env_file = Ok args -> map ev_key environment = map ev_key ctx.(cx_environment) -> validate_environment environment = Ok tt ->
  build_create_args (with_environment ctx environment) config name user env_file = Ok args.
Proof.
  intros Hb Hk Hok. unfold build_create_args in *.
  apply rbind_Ok in Hb as (? & H1 & Hb). apply rbind_Ok in Hb as (? & H2 & Hb). apply rbind_Ok in Hb as (? & H3 & Hb). apply rbind_Ok in Hb as ([] & _ & Hb).
  apply rbind_Ok in Hb as (? & H5 & Hb). apply rbind_Ok in Hb as (policy & H6 & Hb). apply rbind_Ok in Hb as (? & H7 & Hb). apply rbind_Ok in Hb as (? & H8 & Hb).
  cbn [with_environment cx_environment cx_working_directory cx_ports]. rewrite H1, H2, H3, Hok, H5, H6, H7, H8. cbn [rbind]. rewrite <-Hb. do 2 f_equal.
  unfold create_options, network_alias. cbn [with_environment cx_environment cx_working_directory cx_ports cx_id cx_name]. by rewrite (home_by_keys _ _ Hk).
Qed.

(** Docker reads the arguments the runtime builds as exactly what was
    configured.  The container gets its own name and private network and no
    other, one mount (the application's folder), a restart policy Docker
    knows, a published port for each declared port with an outside number and
    for no other, the image and its command.  The only variable given on the
    command line is HOME; the values of the environment are not in the
    arguments at all: other values under the same names give the same words. *)
Theorem created_as_configured ctx config name user env_file args :
  build_create_args ctx config name user env_file = Ok args -> starts_with_char 45 config.(dc_image) = false ->
  exists policy words opts, args = lit "create" :: words /\ parse_create words = Some (opts, config.(dc_image) :: config.(dc_command)) /\
    values_of (lit "--name") opts = [name] /\ values_of (lit "--network") opts = [app_network_name ctx.(cx_id)] /\
    values_of (lit "-v") opts = [ctx.(cx_working_directory) ++ lit ":" ++ container_working_directory ctx.(cx_working_directory)] /\
    values_of (lit "-p") opts = omap published ctx.(cx_ports) /\
    values_of (lit "--restart") opts = [policy] /\ policy ∈ VALID_RESTART_POLICIES /\
    values_of (lit "--user") opts = option_list user /\ values_of (lit "--env-file") opts = option_list env_file /\
    values_of (lit "-e") opts ⊆ [lit "HOME=" ++ container_working_directory ctx.(cx_working_directory)] /\
    Forall (fun o => o.1 ∈ lit "-i" :: VALUE_OPTIONS) opts /\
    (forall environment, map ev_key environment = map ev_key ctx.(cx_environment) -> validate_environment environment = Ok tt ->
       build_create_args (with_environment ctx environment) config name user env_file = Ok args).
Proof.
  intros Hb Hi. destruct (build_create_args_ok _ _ _ _ _ _ Hb) as (policy & Hp & He & Hargs).
  exists policy, (lit "-i" :: option_words (container_options ctx config name policy user env_file) ++ dc_image config :: dc_command config).
  exists ((lit "-i", []) :: container_options ctx config name policy user env_file).
  assert (Hv : forall o, str_eqb (lit "-i") o = false ->
    values_of o ((lit "-i", []) :: container_options ctx config name policy user env_file) = values_of o (container_options ctx config name policy user env_file)).
  { intros o Ho. unfold values_of. cbn [List.filter fst]. by rewrite Ho. }
  split_and!; [done|by apply parse_create_options|..|by eapply policy_valid| | | | |].
  1-7: rewrite Hv by done; rewrite values_of_options; cbv zeta; names; cbn [app]; by rewrite ?app_nil_r.
  - rewrite Hv by done; rewrite values_of_options; cbv zeta; names; cbn [app]. destruct (_ && _); set_solver.
  - constructor; [set_solver|]. eapply Forall_impl; [apply container_options_known|]. intros o Ho. apply elem_of_cons. right.
    apply existsb_elem_of in Ho as (x & Hx & Heq%bool_decide_eq_true). by rewrite Heq.
  - intros environment Hk Hok. by apply build_create_args_environment.
Qed.
End created.

Lemma created_as_configured_witness :
  exists args words opts, build_create_args sample_ctx sample_config (container_name 7) (Some (lit "1001:1001")) (Some (lit "/tmp/vibessh.x/env")) = Ok args /\
    args = lit "create" :: words /\ parse_create words = Some (opts, [lit "itzg/minecraft-server:latest"; lit "--nogui"]) /\
    values_of (lit "--network") opts = [lit "vibessh-net-000000000000"] /\ values_of (lit "-p") opts = [lit "0.0.0.0:25565:25565/tcp"] /\
    values_of (lit "--env-file") opts = [lit "/tmp/vibessh.x/env"].
Proof.
  destruct (build_create_args sample_ctx sample_config (container_name 7) (Some (lit "1001:1001")) (Some (lit "/tmp/vibessh.x/env"))) as [args|e] eqn:E; [|by vm_compute in E].
  destruct (created_as_configured _ _ _ _ _ _ E eq_refl) as (policy & words & opts & Hargs & Hp & _ & Hnet & _ & Hports & _ & _ & _ & Henv & _).
  exists args, words, opts. split_and!; [done|exact Hargs|exact Hp|exact Hnet|exact Hports|exact Henv].
Defined.

(** ** Creating a container *)

(** What the types of the source say of the numbers: [u32] and [u16]. *)
Definition typed (ctx : RuntimeContext) (config : DockerConfig) : Prop :=
  (forall mb, config.(dc_memory_limit_mb) = Some mb -> 0 <= mb <= 4294967295) /\
  Forall (fun port => 0 <= port.(cp_internal_port) <= 65535 /\ forall external, port.(cp_external_port) = Some external -> 0 <= external <= 65535) ctx.(cx_ports).

Notation no_nul s := (contains_char 0 s = false).

Lemma no_nul_app a b : no_nul (a ++ b) <-> no_nul a /\ no_nul b.
Proof. unfold contains_char. rewrite existsb_app. apply orb_false_iff. Qed.

Lemma no_nul_chars p s : (forall c, p c = true -> c <> 0) -> forallb p s = true -> no_nul s.
Proof. intros Hp Hs. apply existsb_false_elem_of. intros c Hc. rewrite forallb_elem_of in Hs. specialize (Hp c (Hs c Hc)). lia. Qed.

Lemma no_nul_to_dec n : 0 <= n < 10 ^ 20 -> no_nul (to_dec n).
Proof. intros Hn. destruct (to_dec_spec n Hn) as (_ & Hd & _). eapply no_nul_chars; [|exact Hd]. intros c. unfold is_ascii_digit, in_range. lia. Qed.

Lemma reject_newlines_nul value field u : reject_newlines value field = Ok u -> no_nul value.
Proof. unfold reject_newlines. destruct (_ || _) eqn:E; [done|]. apply orb_false_iff in E as [_ E]. done. Qed.

Lemma reject_newlines_in_nul values field u : reject_newlines_in values field = Ok u -> Forall (fun v => no_nul v) values.
Proof.
  induction values as [|v values IH]; [constructor|]. cbn [reject_newlines_in]. intros (u' & Hv & Hr)%rbind_Ok. constructor; [by eapply reject_newlines_nul|auto].
Qed.

Lemma directory_no_nul d : no_nul d -> no_nul (container_working_directory d).
Proof. intros Hd. unfold container_working_directory. by destruct (starts_with_char 47 d). Qed.

Section arguments.
Context `{UnicodeCase} `{FloatText}.

Lemma policy_no_nul config policy : restart_policy_or_default config = Ok policy -> no_nul policy.
Proof.
  intros Hp%policy_valid. unfold VALID_RESTART_POLICIES in Hp. repeat (apply elem_of_cons in Hp as [->|Hp]; [done|]). by apply elem_of_nil in Hp.
Qed.

Lemma cpus_no_nul config mb cores : validate_resource_limits mb config.(dc_cpu_limit_cores) = Ok tt -> config.(dc_cpu_limit_cores) = Some cores -> no_nul (show_f32 cores).
Proof.
  intros Hv Hc. rewrite Hc in Hv. unfold validate_resource_limits in Hv. destruct (match mb with Some _ => _ | None => _ end); [done|]. destruct cores as [| | |[] m e]; try done.
  eapply no_nul_chars; [|apply show_f32_digits]. intros c. unfold is_ascii_digit, in_range. lia.
Qed.

Lemma published_no_nul ports : Forall (fun port => 0 <= port.(cp_internal_port) <= 65535 /\ forall external, port.(cp_external_port) = Some external -> 0 <= external <= 65535) ports ->
  Forall (fun v => no_nul v) (map cp_bind_address ports) -> Forall (fun v => no_nul v) (omap published ports).
Proof.
  induction 1 as [|port ports [Hi He] _ IH]; intros Hb; [constructor|]. inversion_clear Hb as [|? ? Hb1 Hb2]. cbn [omap list_omap]. unfold published at 1.
  destruct (cp_external_port port) as [external|]; cbn [fmap option_fmap option_map]; [|auto]. specialize (He _ eq_refl). constructor; [|auto].
  rewrite !no_nul_app. split_and!; try done; [apply no_nul_to_dec; lia..|]. by destruct (cp_protocol port).
Qed.

Lemma option_words_no_nul opts : Forall (fun o => no_nul o.1 /\ no_nul o.2) opts -> Forall (fun w => no_nul w) (option_words opts).
Proof. induction 1 as [|o opts [Hk Hv] _ IH]; [constructor|]. unfold option_words. rewrite bind_cons. by repeat constructor. Qed.

Lemma create_args_no_nul ctx config id user env_file args : build_create_args ctx config (container_name id) user env_file = Ok args -> typed ctx config ->
  (forall u, user = Some u -> no_nul u) -> (forall path, env_file = Some path -> no_nul path) -> Forall (fun w => no_nul w) args.
Proof.
  intros Hb [Hm Hp] Hu He. destruct (build_create_args_ok _ _ _ _ _ _ Hb) as (policy & Hpol & _ & ->). unfold build_create_args in Hb.
  apply rbind_Ok in Hb as (? & _ & Hb). apply rbind_Ok in Hb as (? & Himg%reject_newlines_nul & Hb). apply rbind_Ok in Hb as (? & Hcmd%reject_newlines_in_nul & Hb). apply rbind_Ok in Hb as (? & _ & Hb).
  apply rbind_Ok in Hb as ([] & Hlim & Hb). apply rbind_Ok in Hb as (? & _ & Hb). apply rbind_Ok in Hb as (? & Hwd%reject_newlines_nul & Hb). apply rbind_Ok in Hb as (? & Hports%reject_newlines_in_nul & _).
  do 2 (apply Forall_cons; split; [done|]). apply Forall_app. split; [|by constructor]. apply option_words_no_nul. unfold container_options. pose proof (directory_no_nul _ Hwd) as Hdir.
  repeat (apply Forall_app; split).
  - repeat (apply Forall_cons; split; [split; [reflexivity|cbn [snd]]|]); [| | | | | | | |constructor].
    + apply container_chars_no_nul, container_name_chars.
    + by eapply policy_no_nul.
    + reflexivity.
    + reflexivity.
    + apply container_chars_no_nul, app_network_chars.
    + apply container_chars_no_nul, alias_chars.
    + rewrite !no_nul_app. split_and!; [exact Hwd|reflexivity|exact Hdir].
    + exact Hdir.
  - destruct user as [u|]; [|constructor]. specialize (Hu u eq_refl). apply Forall_cons. split; [done|]. destruct (existsb _ _); [constructor|].
    apply Forall_singleton. split; [done|]. cbn [snd]. by rewrite no_nul_app.
  - destruct (dc_memory_limit_mb config) as [mb|]; repeat constructor. cbn [snd]. rewrite no_nul_app. split; [|done]. apply no_nul_to_dec. specialize (Hm _ eq_refl). lia.
  - destruct (dc_cpu_limit_cores config) as [cores|] eqn:Ec; repeat constructor. cbn [snd]. eapply cpus_no_nul; [rewrite Ec; exact Hlim|done].
  - apply Forall_map. eapply Forall_impl; [by apply published_no_nul|]. by intros v Hv.
  - destruct env_file as [path|]; repeat constructor. cbn [snd]. auto.
Qed.
End arguments.

Lemma no_nul_trim s : no_nul s -> no_nul (trim s).
Proof.
  unfold trim, trim_end_matches, trim_start_matches. intros Hs. apply existsb_false_elem_of. intros x Hx.
  assert (Hrev : forall l, x ∈ rev l -> x ∈ l) by (intros l; rewrite !list_elem_of_In; apply in_rev). apply Hrev in Hx.
  assert (Hdw : forall p l, x ∈ drop_while p l -> x ∈ l). { intros p l Hl. destruct (drop_while_suffix p l) as [a Ha]. rewrite Ha. set_solver. }
  apply Hdw, Hrev, Hdw in Hx. by apply (proj1 (existsb_false_elem_of _ _) Hs).
Qed.


Lemma write_private_file_spec {Node} `{DockerHost Node runner} C T contents : spec (host C T) (write_private_file (Node := Node) runner contents)
  (fun r n => host C T n /\ match r with Ok file => runner = SshSession -> no_nul file.(pf_path) | Err _ => True end).
Proof.
  unfold write_private_file. destruct runner.
  - apply (spec_bind _ _ _ (fun out n => host C T n /\ (out.(exit_code) = 0 -> no_nul out.(stdout)))).
    { apply spec_run. intros n r n' [Hn Hs] E. destruct (quiet_command _ _ _ _ quiet_mktemp E) as [Hc' Hs']. assert (host C T n') by (split; congruence).
      destruct r as [out|m]; [|done]. split; [done|]. intros He. by eapply mktemp_prints. }
    intros out. destruct (Z.eqb_spec (exit_code out) 0) as [He|He]; cbn [negb]; [|apply spec_throw; naive_solver].
    destruct (is_empty _); [apply spec_throw; naive_solver|]. apply spec_pure. intros Hnul. specialize (Hnul He).
    apply spec_after; [apply calm_run; constructor|done|]. intros out'. destruct (negb _); [by apply spec_throw|].
    apply spec_after; [apply calm_put|done|]. intros _. apply spec_ret. intros n Hn. split; [done|]. intros _. cbn [pf_path]. rewrite no_nul_app. split; [by apply no_nul_trim|done].
  - apply spec_after; [apply calm_fresh_uuid|done|]. intros id. apply (spec_state _ _ (fun dir => write_local_file dir contents)). intros dir.
    apply spec_after; [apply calm_local; intros n r n'; apply quiet_create_dir|done|]. intros _.
    apply spec_after; [apply calm_local; intros n r n'; apply quiet_write_local|done|]. intros _. by apply spec_ret.
Qed.


Lemma calm_remove {Node} `{DockerHost Node runner} directory : calm (remove_private_directory (Node := Node) runner directory).
Proof.
  unfold remove_private_directory. destruct runner; [|apply calm_local; intros n r n'; apply quiet_remove_dir].
  apply calm_bind; [apply calm_run; constructor|]. intros out. apply calm_if; auto with calm.
Qed.


Section operations.
Context `{UnicodeCase} `{FloatText} {Node : Type}.
Context `{Hconn : Connection Node} `{Hlocal : LocalMachine Node} (FILE_HELPER_SCRIPT : list Z) (ctx : RuntimeContext) (runner : Runner).
Context `{Hhost : !DockerHost Node runner}.
Let c := container_name ctx.(cx_id).
Let own := app_network_name ctx.(cx_id).
Implicit Types (C : gmap (list Z) (gset (list Z))) (T : list Started).

Lemma calm_provision user : calm (ensure_provisioned (Node := Node) user).
Proof. unfold ensure_provisioned. apply calm_bind; [apply calm_from_result|]. intros _. apply calm_bind; [apply calm_run; constructor|]. intros out. apply calm_if; auto with calm. Qed.

Lemma digits_no_nul s : is_numeric s = true -> no_nul s.
Proof. unfold is_numeric. rewrite andb_true_iff. intros [_ Hs]. eapply no_nul_chars; [|exact Hs]. intros x. unfold is_ascii_digit, in_range. lia. Qed.

Lemma user_id_spec C T user : spec (host C T) (user_id (Node := Node) user) (fun r n => host C T n /\ match r with Ok u => no_nul u | Err _ => True end).
Proof.
  unfold user_id. apply spec_after; [apply calm_run; constructor|done|]. intros out. set (uid := trim _). set (gid := trim _).
  destruct (negb (is_numeric uid) || negb (is_numeric gid)) eqn:E; [by apply spec_throw|]. apply spec_ret. intros n Hn. split; [done|].
  apply orb_false_iff in E as [Hu%negb_false_iff%digits_no_nul Hg%negb_false_iff%digits_no_nul]. rewrite !no_nul_app. done.
Qed.

(** Nothing started, and at most the container appeared, on its own network. *)
Definition made C T (n : Node) : Prop := starts n = T /\ (containers n = C \/ C !! c = None /\ containers n = <[c := {[own]}]> C).

Lemma made_view C T n n' : view n' = view n -> made C T n -> made C T n'.
Proof. unfold view, made. intros [= -> ->]. done. Qed.

Lemma host_made C T n : host C T n -> made C T n.
Proof. intros [HC HT]. split; [done|by left]. Qed.

Lemma create_container_spec C T config : typed ctx config -> starts_with_char 45 config.(dc_image) = false ->
  spec (host C T) (create_container runner ctx config c) (fun _ n => made C T n).
Proof.
  intros Hty Himg. unfold create_container. apply spec_after; [apply (calm_ensure_network ctx), app_network_chars|by intros; apply host_made|]. intros _.
  apply (spec_bind _ _ _ (fun user n => host C T n /\ forall u, user = Some u -> no_nul u)).
  { destruct (dedicated_user_connection _ _ _); [|by apply spec_ret]. apply spec_after; [apply calm_provision|by intros; apply host_made|]. intros _.
    apply (spec_bind _ _ _ (fun u n => host C T n /\ no_nul u)); [|intros u; apply spec_ret; naive_solver].
    eapply spec_conseq; [apply user_id_spec|done|]. intros [u|e] n [Hn Hu]; [done|by apply host_made]. }
  intros user. apply spec_pure. intros Huser.
  apply (spec_bind _ _ _ (fun file n => host C T n /\ forall path, pf_path <$> file = Some path -> runner = SshSession -> no_nul path)).
  { destruct (cx_environment ctx) as [|v vs]; [by apply spec_ret|]. apply (spec_bind _ _ _ (fun file n => host C T n /\ (runner = SshSession -> no_nul (pf_path file)))).
    - eapply spec_conseq; [apply write_private_file_spec|done|]. intros [file|e] n [Hn Hp]; [done|by apply host_made].
    - intros file. apply spec_ret. intros n [Hn Hp]. split; [done|]. by intros path [= <-]. }
  intros file. apply spec_pure. intros Hfile. destruct (build_create_args ctx config c user (pf_path <$> file)) as [args|e] eqn:Hb; [|by apply spec_throw; intros; apply host_made].
  apply (spec_bind _ _ _ (fun args' n => host C T n /\ args' = args)); [by apply spec_ret|]. intros args'. apply spec_pure. intros ->.
  apply (spec_bind _ _ _ (fun _ => made C T)).
  - apply spec_attempt. assert (Hran : forall n answer n', host C T n -> ran runner args n answer n' -> made C T n').
    { intros n answer n' [HC HT] Hr. destruct (build_create_args_ok _ _ _ _ _ _ Hb) as (policy & _ & _ & Hargs). rewrite Hargs in Hr.
      destruct (create_makes _ _ _ c own n answer n' (parse_create_options _ _ _ _ _ _ _ _ Himg) (values_name _ _ _ _ _ _) (values_network _ _ _ _ _ _) Hr) as [Hs Hc'].
      split; [etrans; [exact Hs|exact HT]|]. rewrite <-HC. exact Hc'. }
    apply spec_call; [|eauto..]. intros Hssh n Hn. eapply create_args_no_nul; [exact Hb|done|done|]. intros path Hp. by apply Hfile.
  - intros outcome. assert (Hcalm : calm (match file with Some file => attempt (remove_private_directory (Node := Node) runner (pf_directory file)) ;;; ret tt | None => ret tt end)).
    { destruct file; [|apply calm_ret]. apply calm_bind; [apply calm_attempt, calm_remove|auto with calm]. }
    eapply spec_conseq; [apply (spec_calm (made C T))|done|]; [|intros n n'; apply made_view|done].
    apply calm_bind; [done|]. intros _. apply calm_bind; auto with calm.
Qed.

(** Every other container is as it was, and so are the networks of this one that are not VibeSSH's. *)
Definition kept C (n : Node) : Prop :=
  delete c (containers n) = delete c C /\
  forall nets, C !! c = Some nets -> exists nets', containers n !! c = Some nets' /\ forall name, ~ managed name -> name ∈ nets' <-> name ∈ nets.

(** The container is on the networks its connections grant, and on no other of VibeSSH's. *)
Definition in_line (n : Node) : Prop := exists nets, containers n !! c = Some nets /\ filter managed nets = wanted ctx.

Lemma kept_refl C n : containers n = C -> kept C n.
Proof. intros HC. unfold kept. rewrite HC. split; [done|]. intros nets Hn. by exists nets. Qed.

Lemma kept_view C n n' : view n' = view n -> kept C n -> kept C n'.
Proof. unfold view, kept. intros [= -> _]. done. Qed.

Lemma in_line_view n n' : view n' = view n -> in_line n -> in_line n'.
Proof. unfold view, in_line. intros [= -> _]. done. Qed.

Lemma reconcile_missing C T : C !! c = None -> spec (host C T) (reconcile_networks runner ctx c) (fun r n => host C T n /\ r <> Ok tt).
Proof.
  intros HC. unfold reconcile_networks. apply (spec_bind _ _ _ (fun _ _ => False)); [|by intros ? ? []].
  unfold current_networks, c. rewrite container_name_valid. cbn [from_result]. fold c. apply (spec_bind _ _ _ (fun _ => host C T)); [by apply spec_ret|]. intros _.
  apply (spec_bind _ _ _ (fun out n => host C T n /\ out.(exit_code) <> 0)).
  - apply spec_docker; [repeat constructor; apply container_chars_no_nul, container_name_chars| |]; intros n n' o [Hn Hs] Hr; destruct (inspect_networks _ _ _ _ Hr) as (Hcn & Hst & Hout).
    + split; [|done]. split; [etrans; [exact Hcn|exact Hn]|etrans; [exact Hst|exact Hs]].
    + split; [split; [etrans; [exact Hcn|exact Hn]|etrans; [exact Hst|exact Hs]]|]. intros He. destruct (Hout _ eq_refl He) as (nets & _ & Hl & _). rewrite Hn in Hl. congruence.
  - intros out. apply spec_pure. intros He. destruct (Z.eqb_spec (exit_code out) 0); [done|]. by apply spec_throw.
Qed.

Lemma reconcile_kept C T : spec (host C T) (reconcile_networks runner ctx c) (fun r n => kept C n /\ starts n = T /\ (r = Ok tt -> in_line n)).
Proof.
  destruct (C !! c) as [nets|] eqn:HC.
  - intros s [Hn Hs]. assert (Hon : on ctx C T nets (fw_node s)) by (split; [rewrite insert_id; done|done]).
    destruct (reconcile_networks_spec ctx C T nets HC s Hon) as (nets' & Hlow & Hhigh & Hok & Hn' & Hs'). fold c in Hn', Hs'. split_and!.
    + split; [etrans; [apply (f_equal (delete c) Hn')|apply delete_insert_eq]|]. intros nets0 Heq. assert (nets0 = nets) as -> by congruence. exists nets'.
      split; [etrans; [apply (f_equal (lookup c) Hn')|apply lookup_insert_eq]|]. intros name Hm. split; intros Hin.
      * apply Hhigh, elem_of_union in Hin as [?|Hw%elem_of_list_to_set%desired_managed]; done.
      * apply Hlow, elem_of_difference. split; [done|]. unfold obsolete. rewrite elem_of_filter. tauto.
    + done.
    + intros Hr. exists nets'. split; [etrans; [apply (f_equal (lookup c) Hn')|apply lookup_insert_eq]|]. rewrite (Hok Hr). apply settled_managed.
  - eapply spec_conseq; [by apply reconcile_missing|done|]. intros r n [[Hn Hs] Hr]. split_and!; [by apply kept_refl|done|done].
Qed.

(** A start of this container, on the networks its connections grant. *)
Definition granted (e : Started) : Prop := e.1 = c /\ filter managed e.2 = wanted ctx.

(** How [start] and [restart] may end. *)
Definition ended C T (r : result AppError unit) (n : Node) : Prop :=
  kept C n /\ (exists new, starts n = T ++ new /\ Forall granted new) /\ (r = Ok tt -> in_line n).

Lemma ended_view C T r n n' : view n' = view n -> ended C T r n -> ended C T r n'.
Proof.
  intros Hv (Hk & (new & Hs & Hg) & Hi). split_and!; [by eapply kept_view| |by intros Hr; eapply in_line_view; [exact Hv|auto]].
  exists new. unfold view in Hv. injection Hv as _ ->. done.
Qed.

Lemma calm_hand_over config : calm (hand_over (Node := Node) FILE_HELPER_SCRIPT config runner ctx).
Proof.
  unfold hand_over. apply calm_if; [|apply calm_ret]. apply calm_bind.
  - unfold ensure_working_directory_owned_by_dedicated_user. apply calm_bind; [apply calm_attempt, calm_provision|]. intros [|]; [|apply calm_ret].
    apply calm_bind; [apply calm_attempt, calm_run; constructor|]. intros _. apply calm_ret.
  - intros _. apply calm_bind; [|intros _; apply calm_ret]. apply calm_attempt. unfold ensure_file_helper_installed.
    apply calm_bind; [apply calm_attempt, calm_run; constructor|]. intros deployed. apply calm_if; [apply calm_ret|].
    apply calm_bind; [apply calm_fresh_uuid|]. intros id. apply calm_bind; [apply calm_put|]. intros _.
    apply calm_bind; [apply calm_run; constructor|]. intros out. apply calm_if; auto with calm.
Qed.

Lemma calm_attach : calm (attach_if_remote (Node := Node) ctx c).
Proof.
  unfold attach_if_remote. apply calm_if; [|apply calm_ret]. apply calm_bind; [|intros _; apply calm_ret]. apply calm_attempt. unfold attach_console_fifo.
  apply calm_checked. intros script Hs. apply calm_bind; [apply calm_run; by econstructor|]. intros out. apply calm_if; auto with calm.
Qed.

(** From the reconcile on: [verb] is what runs the container. *)
Lemma run_reconciled C T config verb what : verb = [lit "start"; c] \/ verb = [lit "restart"; lit "--time"; STOP_GRACE_SECONDS; c] ->
  spec (host C T)
    (reconcile_networks runner ctx c ;;; hand_over FILE_HELPER_SCRIPT config runner ctx ;;; output <- docker runner verb ;; from_app (expect_success output what) ;;; attach_if_remote ctx c)
    (ended C T).
Proof.
  intros Hverb. assert (Hnone : forall e n, kept C n -> starts n = T -> ended C T (Err e) n).
  { intros e n Hk Hs. split_and!; [done| |done]. exists []. by rewrite app_nil_r. }
  apply (spec_bind _ _ _ (fun _ n => kept C n /\ starts n = T /\ in_line n)).
  { eapply spec_conseq; [apply reconcile_kept|done|]. intros [[]|e] n (Hk & Hs & Hi); auto. }
  intros _. apply (spec_bind _ _ _ (fun _ n => kept C n /\ starts n = T /\ in_line n)).
  { eapply spec_conseq; [apply (spec_calm (fun n => kept C n /\ starts n = T /\ in_line n)); [apply calm_hand_over|]|done|].
    - intros n n' Hv (Hk & Hs & Hi). split_and!; [by eapply kept_view| |by eapply in_line_view]. unfold view in Hv. congruence.
    - intros [[]|e] n (Hk & Hs & Hi); auto. }
  intros _. apply (spec_bind _ _ _ (fun _ n => ended C T (Ok tt) n)).
  - assert (Hstep : forall n n' answer, kept C n /\ starts n = T /\ in_line n -> ran runner verb n answer n' -> ended C T (Ok tt) n').
    { intros n n' answer (Hk & Hs & nets & Hl & Hf) Hr. destruct (start_runs _ _ _ _ _ Hverb Hr) as [Hc' Hs']. split_and!.
      - unfold kept in *. by rewrite Hc'.
      - destruct Hs' as [Hs'|(nets' & Hl' & Hs')]; [exists []; rewrite app_nil_r; split; [congruence|constructor]|]. exists [(c, nets')]. split; [congruence|].
        apply Forall_singleton. split; [done|]. cbn [snd]. congruence.
      - intros _. exists nets. by rewrite Hc'. }
    apply spec_docker.
    + destruct Hverb as [->| ->]; repeat constructor; apply container_chars_no_nul, container_name_chars.
    + intros n n' e Hn Hr. destruct (Hstep _ _ _ Hn Hr) as (Hk & Hnew & _). by split_and!.
    + intros n n' out. apply Hstep.
  - intros out. assert (Hweak : forall r n, ended C T (Ok tt) n -> ended C T r n) by (intros r n (Hk & Hnew & Hi); split_and!; auto).
    eapply spec_conseq; [apply (spec_calm (ended C T (Ok tt)))|done|]; [|intros n n'; apply ended_view|auto].
    apply calm_bind; [apply calm_from_app|]. intros _. apply calm_attach.
Qed.
End operations.

(** The daemon answers: [docker inspect] fails only when there is no such container. *)
Definition daemon_answers {Node} (runner : Runner) `{DockerHost Node runner} : Prop :=
  forall name n out n', ran runner [lit "inspect"; name] n (Some out) n' -> out.(exit_code) <> 0 -> containers n !! name = None.

Lemma exists_spec {Node} `{DockerHost Node runner} id C T :
  let c := container_name id in spec (host C T) (container_exists runner c) (fun r n => host C T n /\ match r with Ok false => daemon_answers runner -> C !! c = None | _ => True end).
Proof.
  intros c. unfold container_exists, c. rewrite container_name_valid. fold c. apply (spec_bind _ _ _ (fun _ => host C T)); [by apply spec_ret|]. intros _.
  apply (spec_bind _ _ _ (fun out n => host C T n /\ (out.(exit_code) <> 0 -> daemon_answers runner -> C !! c = None))).
  - apply spec_docker; [repeat constructor; apply container_chars_no_nul, container_name_chars| |]; intros n n' o [HC HT] Hr;
      destruct (quiet_call c _ _ _ _ (quiet_inspect c) Hr) as [HC' HT'].
    + split; [split; congruence|done].
    + split; [split; congruence|]. intros He answers. rewrite <-HC. by eapply answers.
  - intros out. apply spec_ret. intros n [Hn Ho]. split; [done|]. destruct (Z.eqb_spec (exit_code out) 0); auto.
Qed.


Section runtime.
Context `{UnicodeCase} `{FloatText} {Node : Type}.
Context `{Hconn : Connection Node} `{Hlocal : LocalMachine Node} (FILE_HELPER_SCRIPT : list Z) (ctx : RuntimeContext).
Context `{Hhost : !DockerHost Node (runner_of ctx)}.

Lemma calm_exists : calm (container_exists (Node := Node) (runner_of ctx) (container_name ctx.(cx_id))).
Proof.
  unfold container_exists. apply calm_bind; [apply calm_from_result|]. intros _. apply calm_bind; [apply calm_inspect|]. intros out. apply calm_ret.
Qed.

(** [kept] and the rest, over a container that had just been made. *)
Lemma ended_made C T C' r n : ended ctx (runner_of ctx) C' T r n -> C' = C \/ C !! container_name ctx.(cx_id) = None /\ C' = <[container_name ctx.(cx_id) := {[app_network_name ctx.(cx_id)]}]> C ->
  ended ctx (runner_of ctx) C T r n.
Proof.
  intros ((Hd & Hu) & Hnew & Hi) [->|[Hnone ->]]; [by split_and!|]. split_and!; [|done..]. split; [|by rewrite Hnone]. by rewrite Hd, delete_insert_eq.
Qed.

Lemma ended_host C T e n : host C T n -> ended ctx (runner_of ctx) C T (Err e) n.
Proof. intros [HC HT]. split_and!; [by apply kept_refl| |done]. exists []. rewrite app_nil_r. split; [exact HT|constructor]. Qed.

Lemma start_spec C T : (forall config, ctx.(cx_config) = Ok config -> typed ctx config /\ starts_with_char 45 config.(dc_image) = false) ->
  spec (host C T) (start FILE_HELPER_SCRIPT ctx) (ended ctx (runner_of ctx) C T).
Proof.
  intros Hcfg. unfold start, parse_config. destruct (cx_config ctx) as [config|e]; [|apply (spec_bind _ _ _ (fun _ _ => False)); [apply spec_throw; intros n; apply ended_host|by intros ? ? []]].
  destruct (Hcfg config eq_refl) as [Hty Himg]. apply (spec_bind _ _ _ (fun x n => host C T n /\ x = config)); [by apply spec_ret|]. intros x. apply spec_pure. intros ->.
  apply spec_after; [apply calm_exists|intros e n; apply ended_host|]. intros exists_. apply (spec_bind _ _ _ (fun _ n => made ctx (runner_of ctx) C T n)).
  - destruct exists_; cbn [negb]; [apply spec_ret; intros n; apply host_made|]. eapply spec_conseq; [by apply create_container_spec|done|].
    intros [[]|e] n Hm; [done|]. destruct Hm as [Hs Hc]. eapply ended_made; [by apply (ended_host (containers n) T)|]. destruct Hc; auto.
  - intros _ s [Hs Hc]. eapply ended_made; [|exact Hc]. apply (run_reconciled FILE_HELPER_SCRIPT ctx (runner_of ctx) (containers (fw_node s)) T config); [by left|]. by split.
Qed.

Lemma restart_spec C T : (forall config, ctx.(cx_config) = Ok config -> typed ctx config /\ starts_with_char 45 config.(dc_image) = false) ->
  spec (host C T) (restart FILE_HELPER_SCRIPT ctx) (ended ctx (runner_of ctx) C T).
Proof.
  intros Hcfg. unfold restart. apply (spec_after C T); [unfold parse_config; destruct (cx_config ctx); auto with calm|intros e n; apply ended_host|]. intros config.
  apply spec_after; [apply calm_exists|intros e n; apply ended_host|]. intros [|]; cbn [negb]; [|by apply start_spec].
  apply run_reconciled. by right.
Qed.

(** C17: A container begins to run only in line with the connections.  Whatever
    fails on the way - a call, an answer, the daemon - each start that [start]
    or [restart] brought about was of this application's container, on its own
    network, on one more for each application it is connected to, and on no
    other of VibeSSH's.  Every other container keeps its networks, this one
    keeps those the operator attached by hand, and a success leaves it in line.
    The name of the image must not begin with a hyphen, which docker would read
    as an option. *)
Theorem starts_are_in_line s : (forall config, ctx.(cx_config) = Ok config -> typed ctx config /\ starts_with_char 45 config.(dc_image) = false) ->
  forall op, op = start FILE_HELPER_SCRIPT ctx \/ op = restart FILE_HELPER_SCRIPT ctx ->
  let n := s.(fw_node) in let n' := (op s).2.(fw_node) in let c := container_name ctx.(cx_id) in
  (exists new, starts n' = starts n ++ new /\ Forall (fun e => e.1 = c /\ filter managed e.2 = list_to_set (desired_networks ctx)) new) /\
  (forall other, other <> c -> containers n' !! other = containers n !! other) /\
  (forall nets, containers n !! c = Some nets -> exists nets', containers n' !! c = Some nets' /\ forall name, ~ managed name -> name ∈ nets' <-> name ∈ nets) /\
  ((op s).1 = Ok tt -> exists nets, containers n' !! c = Some nets /\ filter managed nets = list_to_set (desired_networks ctx)).
Proof.
  intros Hcfg op Hop. assert (He : ended ctx (runner_of ctx) (containers (fw_node s)) (starts (fw_node s)) (op s).1 (op s).2.(fw_node)).
  { destruct Hop as [->| ->]; [by apply start_spec|by apply restart_spec]. }
  destruct He as ((Hd & Hu) & Hnew & Hi). split_and!; [exact Hnew| |exact Hu|exact Hi].
  intros other Hne. apply (f_equal (lookup other)) in Hd. by rewrite !lookup_delete_ne in Hd by done.
Qed.
End runtime.

Lemma starts_are_in_line_witness :
  let s := (start [] sample_ctx (sample_state (down := false))) in
  s.1 = Ok tt /\ length (sh_starts s.2.(fw_node)) = 1%nat /\
  exists new, sh_starts s.2.(fw_node) = [] ++ new /\ Forall (fun e => e.1 = container_name 7 /\ filter managed e.2 = list_to_set (desired_networks sample_ctx)) new.
Proof.
  cbv zeta. split_and!; [vm_compute; reflexivity|vm_compute; reflexivity|].
  destruct (starts_are_in_line (Node := Sample false) [] sample_ctx sample_state) with (op := start (Node := Sample false) [] sample_ctx) as (Hnew & _); [|by left|exact Hnew].
  intros config [= <-]. split; [|done]. split; [by intros mb [= <-]|]. do 2 (apply Forall_cons; split; [split; [cbn; lia|intros x Hx; cbn in Hx; first [discriminate Hx|injection Hx as <-; lia]]|]). constructor.
Defined.

(** ** Removing a container *)

Section destroy.
Context {Node : Type} `{Hconn : Connection Node} `{Hlocal : LocalMachine Node} `{UnicodeCase} (ctx : RuntimeContext).
Context `{Hhost : !DockerHost Node (runner_of ctx)}.

(** A removal touches no other container and starts none; when it succeeds,
    and the daemon answers, the container is gone. *)
Theorem destroyed_container_is_gone (answers : daemon_answers (runner_of ctx)) s :
  let n := s.(fw_node) in let n' := (destroy ctx s).2.(fw_node) in let c := container_name ctx.(cx_id) in
  starts n' = starts n /\ delete c (containers n') = delete c (containers n) /\ ((destroy ctx s).1 = Ok tt -> containers n' !! c = None).
Proof.
  set (C := containers (fw_node s)). set (T := starts (fw_node s)). set (c := container_name ctx.(cx_id)).
  set (Q := fun (r : result AppError unit) (n' : Node) => starts n' = T /\ delete c (containers n') = delete c C /\ (r = Ok tt -> containers n' !! c = None)).
  cut (spec (host C T) (destroy ctx) Q); [intros Hspec; by apply Hspec|].
  assert (Herr : forall e n, host C T n -> Q (Err e) n) by (intros e n [HC HT]; split_and!; [done|by f_equal|done]).
  unfold destroy. apply spec_after; [|done|].
  { intros s0. cbn. destruct (quiet_forget (cx_id ctx) (fw_node s0)) as [Hc Ht]. unfold view. by rewrite Hc, Ht. }
  intros _. apply spec_after; [apply calm_from_result|done|]. intros _.
  apply (spec_bind _ _ _ (fun b n => host C T n /\ (b = false -> C !! c = None))).
  { eapply spec_conseq; [by apply (exists_spec (cx_id ctx) C T)|done|]. intros [b|e] n [Hn Hb]; [|by apply Herr]. split; [done|]. intros ->. by apply Hb. }
  intros b. apply spec_pure. intros Hb. destruct b; cbn [negb]; [|apply spec_ret; intros n [HC HT]; split_and!; [done|by f_equal|intros _; rewrite HC; auto]].
  pose proof (container_chars_no_nul _ (container_name_chars (cx_id ctx))) as Hnul. fold c in Hnul.
  apply spec_after; [apply (calm_docker c); [constructor|by repeat constructor]|done|]. intros _.
  apply (spec_bind _ _ _ (fun out n => Q (Err NotFound) n /\ (out.(exit_code) = 0 -> containers n !! c = None))).
  - assert (Hstep : forall n n' answer, host C T n -> ran (runner_of ctx) [lit "rm"; lit "-f"; c] n answer n' ->
      Q (Err NotFound) n' /\ (forall out, answer = Some out -> out.(exit_code) = 0 -> containers n' !! c = None)).
    { intros n n' answer [HC HT] Hr. destruct (rm_removes _ _ _ _ Hr) as (Hs & Hc & Hout). rewrite HC in Hc, Hout. split; [split_and!; [congruence| |done]|].
      - destruct Hc as [->| ->]; [done|]. apply delete_delete_eq.
      - intros out Ho He. rewrite (Hout _ Ho He). apply lookup_delete_eq. }
    apply spec_docker; [by repeat constructor| |]; intros n n' o Hn Hr; destruct (Hstep _ _ _ Hn Hr) as [HQ Ho]; [by destruct HQ as (? & ? & _)|eauto].
  - intros out. unfold expect_success. destruct (Z.eqb_spec (exit_code out) 0) as [He|He].
    + apply spec_ret. intros n [(Hs & Hd & _) Ho]. split_and!; auto.
    + destruct (is_unreachable _); apply spec_throw; by intros n [(Hs & Hd & _) _].
Qed.
End destroy.
