(* ===== verification/ContainerText.v ===== *)
(** * ContainerText: the environment file and the console line

    [env_file_contents], [create_container] and [console_write_command] of
    [runtime/docker.rs] against what reads their texts: Docker's reading of an
    environment file ([opts.ParseEnvFile] of its command line) and the two
    shells a console line goes through. *)

From S2P Require Import Prelude Text Shell Sandbox Validators Ufw Firewall Sudoers MemberAccount Mesh Docker DockerHost SampleDocker Isolation Containers.

#[local] Open Scope Z_scope.
#[local] Open Scope fw_scope.

(** ** The environment file *)

(** Docker's reading of one line: blanks at its start are dropped, an empty line
    or one that starts with [#] says nothing, the name ends at the first [=],
    and everything after it is the value.  A name must be there and have no
    blank; a line without [=] would take its value from elsewhere and is left
    out.  A line of 64 KiB or more is refused. *)
Definition read_env_line (line : list Z) : option (option (list Z * list Z)) :=
  if 65535 <=? byte_len line then None else
  let line := trim_start_matches is_whitespace line in
  if is_empty line || starts_with_char 35 line then Some None
  else match split_once 61 line with
       | Some (key, value) => if is_empty key || existsb is_whitespace key then None else Some (Some (key, value))
       | None => None
       end.

Definition read_env_file (text : list Z) : option (list (list Z * list Z)) := omap (fun x => x) <$> mapM read_env_line (lines text).

Definition env_line (env : EnvironmentVariable) : list Z := env.(ev_key) ++ lit "=" ++ env.(ev_value).

Lemma split_on_line a : forall rest, contains_char 10 a = false -> split_on (Z.eqb 10) (a ++ 10 :: rest) = a :: split_on (Z.eqb 10) rest.
Proof.
  induction a as [|c a IH]; intros rest Ha; [done|]. unfold contains_char in Ha. cbn [existsb] in Ha. apply orb_false_iff in Ha as [Hc Ha].
  cbn [app split_on]. rewrite Hc, IH by done. done.
Qed.

Lemma lines_of_env environment : Forall (fun env => contains_char 10 (env_line env) = false /\ contains_char 13 (env_line env) = false) environment ->
  lines (env_file_contents environment) = map env_line environment.
Proof.
  intros Hall. assert (Hs : split_on (Z.eqb 10) (env_file_contents environment) = map env_line environment ++ [[]]).
  { unfold env_file_contents. induction Hall as [|env environment [Hn _] _ IH]; [done|]. rewrite bind_cons. cbn [map]. rewrite <-!app_assoc.
    replace (ev_key env ++ lit "=" ++ ev_value env ++ [10] ++ (environment ≫= fun env => ev_key env ++ lit "=" ++ ev_value env ++ [10]))
      with (env_line env ++ 10 :: (environment ≫= fun env => ev_key env ++ lit "=" ++ ev_value env ++ [10])) by (unfold env_line; by rewrite <-!app_assoc).
    rewrite split_on_line by done. by rewrite IH. }
  unfold lines. rewrite Hs, rev_app_distr. cbn [rev app]. rewrite rev_involutive. clear Hs. induction Hall as [|env environment [_ Hr] _ IH]; [done|]. cbn [map]. rewrite IH. f_equal.
  unfold strip_cr. destruct (rev (env_line env)) as [|c r] eqn:E; [done|]. destruct (Z.eq_dec c 13) as [->|Hne]; [|destruct c as [|c|c]; [done| |done]; do 4 (destruct c as [c|c|]; try done)].
  exfalso. assert (Hin : 13 ∈ env_line env) by (rewrite <-(rev_involutive (env_line env)), E; cbn [rev]; set_solver).
  apply (proj1 (existsb_false_elem_of _ _) Hr) in Hin. done.
Qed.

Lemma env_key_chars key : is_valid_env_key key = true -> exists c rest, key = c :: rest /\ forallb (fun c => is_ascii_alphanumeric c || (c =? 95)) key = true.
Proof.
  destruct key as [|c rest]; [done|]. cbn [is_valid_env_key]. intros [Hc Hr]%andb_true_iff. exists c, rest. split; [done|]. cbn [forallb]. rewrite Hr, andb_true_r.
  unfold is_ascii_alphanumeric. destruct (is_ascii_alphabetic c), (c =? 95), (is_ascii_digit c); done.
Qed.

Lemma key_char_facts c : is_ascii_alphanumeric c || (c =? 95) = true -> is_whitespace c = false /\ c <> 35 /\ c <> 61 /\ c <> 10 /\ c <> 13.
Proof.
  unfold is_whitespace, is_ascii_alphanumeric, is_ascii_alphabetic, is_ascii_uppercase, is_ascii_lowercase, is_ascii_digit, in_range. intros Hc. split_and!; lia.
Qed.

Lemma key_lacks p key : forallb (fun c => is_ascii_alphanumeric c || (c =? 95)) key = true -> (forall c, is_ascii_alphanumeric c || (c =? 95) = true -> p c = false) -> existsb p key = false.
Proof. intros Hk Hp. apply existsb_false_elem_of. intros c Hc. apply Hp. rewrite forallb_elem_of in Hk. auto. Qed.

Lemma read_env_line_ok env : is_valid_env_key env.(ev_key) = true -> byte_len (env_line env) < 65535 -> read_env_line (env_line env) = Some (Some (env.(ev_key), env.(ev_value))).
Proof.
  intros Hk Hlen. unfold read_env_line. destruct (Z.leb_spec 65535 (byte_len (env_line env))); [lia|]. destruct (env_key_chars _ Hk) as (c & rest & Hkey & Hch).
  assert (Hc : is_ascii_alphanumeric c || (c =? 95) = true). { rewrite Hkey in Hch. cbn [forallb] in Hch. by apply andb_true_iff in Hch as [? _]. }
  destruct (key_char_facts c Hc) as (Hw & Hh & _).
  assert (Ht : trim_start_matches is_whitespace (env_line env) = env_line env). { unfold env_line, trim_start_matches. rewrite Hkey. cbn [app drop_while]. by rewrite Hw. }
  rewrite Ht. assert (Hn : is_empty (env_line env) || starts_with_char 35 (env_line env) = false). { unfold env_line. rewrite Hkey. cbn. by apply Z.eqb_neq. }
  rewrite Hn. unfold env_line. change (lit "=") with [61]. cbn [app]. rewrite split_once_app.
  - rewrite Hkey at 1. cbn [is_empty orb]. rewrite key_lacks; [done|done|]. intros x Hx. by apply key_char_facts.
  - apply key_lacks; [done|]. intros x Hx. destruct (key_char_facts x Hx) as (_ & _ & Hne & _). by apply Z.eqb_neq.
Qed.

Lemma validate_environment_all environment : validate_environment environment = Ok tt ->
  Forall (fun env => is_valid_env_key env.(ev_key) = true /\ contains_char 10 env.(ev_value) = false /\ contains_char 13 env.(ev_value) = false) environment.
Proof.
  induction environment as [|env environment IH]; [constructor|]. cbn [validate_environment]. destruct (is_valid_env_key (ev_key env)) eqn:Hk; [|done]. cbn [negb].
  intros (u & Hr & Hv)%rbind_Ok. constructor; [|auto]. unfold reject_newlines in Hr. destruct (_ || _) eqn:E; [done|]. rewrite !orb_false_iff in E. destruct E as [[? ?] ?]. done.
Qed.

(** Docker reads the environment back as it was given: every variable the
    runtime accepts comes out of the file under its own name with its own
    value, byte for byte and in order - quotes, blanks, equal signs and hashes
    included - and nothing else does. *)
Theorem environment_round_trips environment : validate_environment environment = Ok tt -> Forall (fun env => byte_len (env_line env) < 65535) environment ->
  read_env_file (env_file_contents environment) = Some (map (fun env => (env.(ev_key), env.(ev_value))) environment).
Proof.
  intros Hv%validate_environment_all Hlen. unfold read_env_file. rewrite lines_of_env.
  - assert (Hm : mapM read_env_line (map env_line environment) = Some (map (fun env => Some (env.(ev_key), env.(ev_value))) environment)).
    { induction environment as [|env environment IH]; [done|]. inversion_clear Hv as [|? ? [Hk _] Hv']. inversion_clear Hlen as [|? ? Hl Hl']. cbn [map mapM]. rewrite read_env_line_ok by done.
      rewrite IH by done. done. }
    rewrite Hm. cbn [fmap option_fmap option_map]. f_equal. clear. induction environment as [|env environment IH]; [done|]. cbn [map omap list_omap]. by rewrite IH.
  - eapply Forall_impl; [exact Hv|]. intros env (Hk & Hn & Hr). destruct (env_key_chars _ Hk) as (c & rest & _ & Hch). unfold env_line.
    assert (Happ : forall x, x <> 61 -> (forall y, is_ascii_alphanumeric y || (y =? 95) = true -> (x =? y) = false) -> contains_char x (ev_value env) = false ->
      contains_char x (ev_key env ++ lit "=" ++ ev_value env) = false).
    { intros x Hx Hk' Hval. unfold contains_char in *. rewrite !existsb_app, Hval, (key_lacks _ _ Hch Hk'). change (existsb (Z.eqb x) (lit "=")) with ((x =? 61) || false). by rewrite (proj2 (Z.eqb_neq x 61) Hx). }
    split; apply Happ; try done; intros y Hy; destruct (key_char_facts y Hy) as (_ & _ & _ & ? & ?); apply Z.eqb_neq; lia.
Qed.

Lemma environment_round_trips_witness :
  read_env_file (env_file_contents [mkEnv (lit "MOTD") (lit " a = 'b' # c ") false; mkEnv (lit "_X") [] true]) = Some [(lit "MOTD", lit " a = 'b' # c "); (lit "_X", [])].
Proof. apply (environment_round_trips [mkEnv (lit "MOTD") (lit " a = 'b' # c ") false; mkEnv (lit "_X") [] true]); [reflexivity|repeat constructor]. Defined.

(** ** A line typed into a console *)

Lemma no_nul_quote value : contains_char 0 value = false -> contains_char 0 (quote value) = false.
Proof.
  intros Hv. unfold quote. rewrite !no_nul_app. split_and!; try done. induction value as [|c value IH]; [done|]. unfold contains_char in Hv. cbn [existsb] in Hv.
  apply orb_false_iff in Hv as [Hc Hv]. rewrite bind_cons, no_nul_app. split; [|by apply IH]. unfold quote_char. destruct (c =? 39); [done|]. unfold contains_char. cbn [existsb]. by rewrite Hc.
Qed.

Lemma console_fifo_no_nul id : contains_char 0 (console_fifo_path id) = false.
Proof.
  assert (Hn : contains_char 0 (uuid_text id) = false).
  { pose proof (container_chars_no_nul _ (container_name_chars id)) as Hc. unfold container_name in Hc. by apply no_nul_app in Hc as [_ Hc]. }
  unfold console_fifo_path. rewrite !no_nul_app. by split_and!.
Qed.

(** The words of what the inner shell runs, [>>] being two characters. *)
Definition console_words (fifo input : list Z) : list Token := [Word (lit "printf"); Word (lit "%s" ++ [10]); Word input; Op 62; Op 62; Word fifo].

(** Whatever is typed into a console is written to the container's pipe as
    one line and does nothing else.  The Node's shell reads the command as one
    call of [timeout 5 sh -c] with one script, and the inner shell reads that
    script as [printf] with the format and the line as they are, appended to
    the application's pipe: no character of the line is expanded, ends its
    argument or starts a command in either shell. *)
Theorem console_line_stays_one_line id input : reject_newlines input (lit "console input") = Ok tt ->
  exists script, tokens (console_write_command (console_fifo_path id) input) = Some (map Word [lit "timeout"; lit "5"; lit "sh"; lit "-c"; script]) /\
    tokens script = Some (console_words (console_fifo_path id) input) /\ contains_char 10 input = false.
Proof.
  intros Hr. pose proof (reject_newlines_nul _ _ _ Hr) as Hnul. pose proof (console_fifo_no_nul id) as Hfifo. unfold console_write_command, CONSOLE_WRITE_TIMEOUT_SECONDS.
  set (script := lit "printf '%s" ++ [10] ++ lit "' " ++ quote input ++ lit " >> " ++ quote (console_fifo_path id)). exists script.
  assert (Hs : contains_char 0 script = false). { unfold script. rewrite !no_nul_app. split_and!; try done; by apply no_nul_quote. }
  split_and!.
  - unfold tokens. change (lit "timeout " ++ lit "5" ++ lit " sh -c " ++ quote script) with (lit "timeout" ++ 32 :: lit "5" ++ 32 :: lit "sh" ++ 32 :: lit "-c" ++ 32 :: quote script).
    rewrite !lex_word by done. rewrite <-(app_nil_r (quote script)), lex_quote by done. reflexivity.
  - unfold tokens, script. change (lit "printf '%s" ++ [10] ++ lit "' " ++ ?r) with (lit "printf" ++ 32 :: quote (lit "%s" ++ [10]) ++ 32 :: r). rewrite lex_word by done.
    rewrite lex_quoted_word by done. rewrite lex_quote by done. cbn [default from_option app]. change (lit " >> " ++ ?r) with (32 :: 62 :: 62 :: 32 :: r). rewrite lex_blank.
    change (lex Bare None (62 :: 62 :: 32 :: ?r)) with (cons (Op 62) <$> (cons (Op 62) <$> (app [] <$> lex Bare None r))).
    rewrite <-(app_nil_r (quote (console_fifo_path id))), lex_quote by done. reflexivity.
  - unfold reject_newlines in Hr. destruct (contains_char 10 input); [done|done].
Qed.

Lemma console_line_stays_one_line_witness : exists script,
  tokens (console_write_command (console_fifo_path 7) (lit "say it's $(id); stop")) = Some (map Word [lit "timeout"; lit "5"; lit "sh"; lit "-c"; script]) /\
  tokens script = Some (console_words (console_fifo_path 7) (lit "say it's $(id); stop")) /\ contains_char 10 (lit "say it's $(id); stop") = false.
Proof. apply (console_line_stays_one_line 7 (lit "say it's $(id); stop")). reflexivity. Defined.

(** ** A refusal that leaves the secrets behind *)

Lemma bind_ok {Node A B} (m : F Node A) (f : A -> F Node B) s a s' : m s = (Ok a, s') -> bind m f s = f a s'.
Proof. unfold bind. by intros ->. Qed.

(** The file with the environment is removed "whatever the outcome, including
    the failure paths" - but a refusal of [build_create_args] returns before:
    the run ends in the very state in which the file had just been written. *)
Theorem refused_create_leaves_the_file {Node} `{UnicodeCase} `{FloatText} `{Connection Node} `{LocalMachine Node} runner ctx config name s s1 s2 file env environment :
  ctx.(cx_environment) = env :: environment -> config.(dc_run_as_dedicated_user) = false -> config.(dc_restart_policy) = Some (lit "sometimes") ->
  ensure_network runner (app_network_name ctx.(cx_id)) false s = (Ok tt, s1) ->
  write_private_file runner (env_file_contents ctx.(cx_environment)) s1 = (Ok file, s2) ->
  exists e, create_container runner ctx config name s = (Err (InvalidInput e), s2).
Proof.
  intros Henv Hded Hpol Hnet Hfile. unfold create_container. rewrite (bind_ok _ _ _ _ _ Hnet).
  unfold dedicated_user_connection, dedicated_user_applies. rewrite Hded. cbn [andb negb]. rewrite (bind_ok (ret None) _ s1 None s1 eq_refl).
  rewrite Henv in *. erewrite (bind_ok _ _ s1 (Some file) s2) by (by rewrite (bind_ok _ _ _ _ _ Hfile)).
  assert (Hb : exists e, build_create_args ctx config name None (pf_path <$> Some file) = Err e).
  { assert (Hp : restart_policy_or_default config = Err (mkInvalid (lit "sometimes") (Other (lit "isn't a valid restart policy")))) by (unfold restart_policy_or_default; by rewrite Hpol).
    unfold build_create_args. rewrite Hp. repeat match goal with |- exists e, rbind ?r _ = Err e => destruct r; cbn [rbind]; [|by eauto] end. eauto. }
  destruct Hb as [e Hb]. exists e. rewrite Hb. reflexivity.
Qed.
