(* ===== verification/Desktop.v ===== *)
(** * Desktop: operations over a store of rows and the Nodes

    The services of [apps/desktop/src-tauri/src/services] read and write the
    SQLite store and run commands on Nodes.  [D St Node A] is such an operation:
    [St] is the rows it works on, [Node] everything outside of them.  Any
    statement may fail, and so may the keyring and every connection. *)

From S2P Require Import Prelude Text Firewall.

#[local] Open Scope Z_scope.

(** What the outside of the store answers: whether its next statement fails and
    how, the keyring, and the connection to a Node. *)
Class Desk (Node : Type) : Type := {
  store_fault : Node -> option (list Z) * Node;
  load_environment_secret : N -> list Z -> Node -> result AppError (option (list Z)) * Node;
  get_or_connect : N -> Node -> result AppError unit * Node;
}.

Record DeskState (St Node : Type) : Type := mkDesk { ds_store : St; ds_fw : FwState Node }.
Arguments mkDesk {St Node} _ _.
Arguments ds_store {St Node} _.
Arguments ds_fw {St Node} _.

Definition D (St Node A : Type) : Type := DeskState St Node -> result AppError A * DeskState St Node.

Section desk.
Context {St Node : Type} `{Desk Node}.

Definition dret {A} (a : A) : D St Node A := fun s => (Ok a, s).
Definition dthrow {A} (e : AppError) : D St Node A := fun s => (Err e, s).
Definition dbind {A B} (m : D St Node A) (f : A -> D St Node B) : D St Node B := fun s => match m s with (Ok a, s) => f a s | (Err e, s) => (Err e, s) end.

(** An operation on a Node. *)
Definition on_host {A} (m : F Node A) : D St Node A := fun s => let '(r, fw) := m s.(ds_fw) in (r, mkDesk s.(ds_store) fw).

(** A call of the outside. *)
Definition ask {A} (f : Node -> result AppError A * Node) : F Node A := fun s => let '(r, n) := f s.(fw_node) in (r, mkFw n s.(fw_verified) s.(fw_uuid)).

Definition faulty (message : list Z) (n : Node) : result AppError unit * Node :=
  let '(fault, n) := store_fault n in (match fault with Some detail => Err (Storage (message ++ detail)) | None => Ok tt end, n).

Definition statement {A} (message : string) (f : St -> A * St) : D St Node A := fun s =>
  match ask (faulty (lit message)) s.(ds_fw) with
  | (Err e, fw) => (Err e, mkDesk s.(ds_store) fw)
  | (Ok _, fw) => let '(a, store) := f s.(ds_store) in (Ok a, mkDesk store fw)
  end.
End desk.

Declare Scope desk_scope.
Notation "x <- m ;; k" := (dbind m (fun x => k)) (at level 100, m at next level, right associativity) : desk_scope.
Notation "m ;;; k" := (dbind m (fun _ => k)) (at level 100, right associativity) : desk_scope.

(** ** Triples *)

Section triples.
Context {St Node : Type}.
Implicit Types P : St -> Node -> Prop.

Definition dspec {A} P (m : D St Node A) (Q : result AppError A -> St -> Node -> Prop) : Prop :=
  forall s, P s.(ds_store) s.(ds_fw).(fw_node) -> Q (m s).1 (m s).2.(ds_store) (m s).2.(ds_fw).(fw_node).

Lemma dspec_conseq {A} P (P' : St -> Node -> Prop) (m : D St Node A) (Q Q' : result AppError A -> St -> Node -> Prop) :
  dspec P' m Q' -> (forall st n, P st n -> P' st n) -> (forall r st n, Q' r st n -> Q r st n) -> dspec P m Q.
Proof. intros Hm HP HQ s Hs. apply HQ, Hm, HP, Hs. Qed.

Lemma dspec_ret {A} P (a : A) (Q : result AppError A -> St -> Node -> Prop) : (forall st n, P st n -> Q (Ok a) st n) -> dspec P (dret a) Q.
Proof. intros HQ s Hs. by apply HQ. Qed.

Lemma dspec_throw {A} P e (Q : result AppError A -> St -> Node -> Prop) : (forall st n, P st n -> Q (Err e) st n) -> dspec P (dthrow e) Q.
Proof. intros HQ s Hs. by apply HQ. Qed.

Lemma dspec_bind {A B} P (m : D St Node A) (f : A -> D St Node B) (R : A -> St -> Node -> Prop) (Q : result AppError B -> St -> Node -> Prop) :
  dspec P m (fun r st n => match r with Ok a => R a st n | Err e => Q (Err e) st n end) -> (forall a, dspec (R a) (f a) Q) -> dspec P (dbind m f) Q.
Proof. intros Hm Hf s Hs. specialize (Hm s Hs). unfold dbind. destruct (m s) as [[a|e] s'] eqn:E; [|done]. by apply (Hf a s'). Qed.

(** A pure fact of the state before. *)
Lemma dspec_pure {A} (phi : Prop) P (m : D St Node A) (Q : result AppError A -> St -> Node -> Prop) :
  (phi -> dspec P m Q) -> dspec (fun st n => P st n /\ phi) m Q.
Proof. intros Hm s [Hs Hphi]. by apply (Hm Hphi). Qed.
End triples.
