(* ===== verification/AppLinks.v ===== *)
(** * AppLinks: granting and revoking connections between applications

    [services/application_service/links.rs], the table of connections of
    [storage/application_repository.rs], and the part of
    [application_service/mod.rs] and [provisioning.rs] that prepares an
    application's runtime.

    The applications here are those of one host, the one both ends of a
    connection are on.  Any statement of the store, the keyring and the
    connection to the host may fail. *)

From S2P Require Import Prelude Text Shell Sandbox Validators Ufw Firewall Sudoers MemberAccount Mesh Docker DockerHost SampleDocker Isolation Containers Desktop.

#[local] Open Scope Z_scope.

(** ** The store *)

Inductive RuntimeType : Type := RtLocalProcess | RtRemoteProcess | RtSystemd | RtDocker.
#[global] Instance runtime_type_eq : EqDecision RuntimeType.
Proof. solve_decision. Defined.

(** A row of [applications] with what hangs off it. *)
Record StoredApplication : Type := mkStored {
  sa_server_id : option N; sa_name : list Z; sa_runtime_type : RuntimeType; sa_working_directory : list Z;
  sa_config : result (list Z) DockerConfig; sa_environment : list EnvironmentVariable; sa_ports : list ContainerPort; sa_shared : bool;
}.

(** [application_links] holds the lower id first. *)
Record Store : Type := mkStore { st_applications : gmap N StoredApplication; st_links : gset (N * N) }.

Definition ordered_pair (a b : N) : N * N := if N.leb a b then (a, b) else (b, a).

(** Both halves of the UNION. *)
Definition links_of (store : Store) (id : N) : list N :=
  elements (set_map (C := gset (N * N)) (D := gset N) snd (filter (fun p => p.1 = id) store.(st_links))
            ∪ set_map (C := gset (N * N)) (D := gset N) fst (filter (fun p => p.2 = id) store.(st_links))).

#[local] Open Scope desk_scope.

Section links.
Context `{UnicodeCase} {Node : Type} `{Connection Node} `{LocalMachine Node} `{Desk Node}.

Definition self_link : AppError := InvalidInput (invalid (lit "an application can't be connected to itself")).

Definition add_link (a b : N) : D Store Node unit :=
  if N.eqb a b then dthrow self_link
  else statement "failed to store the connection: " (fun store => (tt, mkStore store.(st_applications) ({[ordered_pair a b]} ∪ store.(st_links)))).

Definition remove_link (a b : N) : D Store Node unit :=
  statement "failed to remove the connection: " (fun store => (tt, mkStore store.(st_applications) (store.(st_links) ∖ {[ordered_pair a b]}))).

(** [get_application]: the row and the links, or [NotFound]. *)
Definition get_application (id : N) : D Store Node (StoredApplication * list N) :=
  found <- statement "failed to load application: " (fun store => ((fun app => (app, links_of store id)) <$> store.(st_applications) !! id, store)) ;;
  match found with Some detail => dret detail | None => dthrow NotFound end.

Definition list_application_links (id : N) : D Store Node (list N) := detail <- get_application id ;; dret detail.2.

Fixpoint resolve_environment_secrets (application_id : N) (environment : list EnvironmentVariable) : D Store Node (list EnvironmentVariable) :=
  match environment with
  | [] => dret []
  | env :: environment =>
      env <- (if env.(ev_is_secret) then
                value <- on_host (ask (load_environment_secret application_id env.(ev_key))) ;;
                dret (mkEnv env.(ev_key) (default [] value) true)
              else dret env) ;;
      rest <- resolve_environment_secrets application_id environment ;;
      dret (env :: rest)
  end.

Definition resolve_connection (server_id : option N) : D Store Node bool :=
  match server_id with
  | None => dret false
  | Some server_id => on_host (ask (get_or_connect server_id)) ;;; dret true
  end.

(** [load_runtime] and the context its callers make of it; the runtime of a
    shared application, or of one that is no container, has no networks. *)
Definition load_runtime (id : N) : D Store Node (StoredApplication * RuntimeContext) :=
  detail <- get_application id ;;
  let '(app, links) := detail in
  environment <- resolve_environment_secrets id app.(sa_environment) ;;
  remote <- resolve_connection app.(sa_server_id) ;;
  dret (app, mkContext id app.(sa_name) app.(sa_working_directory) app.(sa_config) environment app.(sa_ports) links remote).

Definition sync_runtime (app : StoredApplication) (ctx : RuntimeContext) : D Store Node unit :=
  if app.(sa_shared) then dret tt
  else match app.(sa_runtime_type) with RtDocker => on_host (sync_connections ctx) | _ => dret tt end.

Fixpoint apply_connections (ids : list N) : D Store Node unit :=
  match ids with
  | [] => dret tt
  | id :: ids =>
      loaded <- load_runtime id ;;
      sync_runtime loaded.1 loaded.2 ;;;
      apply_connections ids
  end.

Definition not_docker (name : list Z) : AppError := InvalidInput (mkInvalid name (Other (lit "isn't a Docker application, so there's no private network to connect it to"))).
Definition not_same_node (first second : list Z) : AppError :=
  InvalidInput (invalid (lit "'" ++ first ++ lit "' and '" ++ second ++ lit "' aren't on the same node - a Docker network doesn't span hosts")).

Definition validate_connectable (a b : N) : D Store Node unit :=
  if N.eqb a b then dthrow self_link else
  first <- get_application a ;;
  second <- get_application b ;;
  if negb (bool_decide (first.1.(sa_runtime_type) = RtDocker)) then dthrow (not_docker first.1.(sa_name)) else
  if negb (bool_decide (second.1.(sa_runtime_type) = RtDocker)) then dthrow (not_docker second.1.(sa_name)) else
  match first.1.(sa_server_id), second.1.(sa_server_id) with
  | Some left_id, Some right_id => if N.eqb left_id right_id then dret tt else dthrow (not_same_node first.1.(sa_name) second.1.(sa_name))
  | None, None => dret tt
  | _, _ => dthrow (not_same_node first.1.(sa_name) second.1.(sa_name))
  end.

Definition connect_applications (a b : N) : D Store Node unit :=
  validate_connectable a b ;;;
  add_link a b ;;;
  apply_connections [a; b].

(** A failed restore is logged, and the first error returned. *)
Definition disconnect_applications (a b : N) : D Store Node unit :=
  remove_link a b ;;;
  fun s =>
    match apply_connections [a; b] s with
    | (Ok _, s) => (Ok tt, s)
    | (Err err, s) => let '(_, s) := add_link a b s in (Err err, s)
    end.
End links.

(** ** Names once more *)

Lemma container_short a b : container_name a = container_name b -> short_id a = short_id b.
Proof.
  assert (Hs : forall id, short_id id = take 8 (drop 12 (container_name id)) ++ take 4 (drop 21 (container_name id))).
  { intros id. unfold short_id, container_name, uuid_text. destruct (uuid_simple_chars id) as [_ Hl]. revert Hl. generalize (uuid_simple id). intros s Hl.
    do 32 (destruct s as [|? s]; [discriminate Hl|]). destruct s; [|discriminate Hl]. reflexivity. }
  intros Heq. by rewrite !Hs, Heq.
Qed.

Lemma links_of_in store id peer : (forall p, p ∈ store.(st_links) -> N.lt p.1 p.2) -> peer ∈ links_of store id <-> peer <> id /\ ordered_pair id peer ∈ store.(st_links).
Proof.
  intros Hord. unfold links_of. rewrite elem_of_elements, elem_of_union, !elem_of_map. setoid_rewrite elem_of_filter. unfold ordered_pair. split.
  - intros [([x y] & -> & Hx & Hin)|([x y] & -> & Hy & Hin)]; cbn in *; subst; specialize (Hord _ Hin) as Hlt; cbn in Hlt;
      (split; [lia|]); [destruct (N.leb_spec id y); [done|lia]|destruct (N.leb_spec id x); [lia|done]].
  - intros [Hne Hin]. destruct (N.leb_spec id peer); [left; exists (id, peer)|right; exists (peer, id)]; auto.
Qed.

(** ** One application is brought in line *)

Section sync.
Context `{UnicodeCase} {Node : Type} `{DockerHost Node runner}.
Context (ctx : RuntimeContext) (Hrunner : runner_of ctx = runner).
Let c := container_name ctx.(cx_id).
Implicit Types (C : gmap (list Z) (gset (list Z))) (T : list Started).

(** What a sync does to the host. *)
Definition synced C T (r : result AppError unit) (n : Node) : Prop :=
  exists C', host C' T n /\ delete c C' = delete c C /\
    match C !! c with
    | None => C' !! c = None
    | Some nets => exists nets', C' !! c = Some nets' /\ nets' ⊆ nets ∪ wanted ctx /\ (r = Ok tt -> daemon_answers runner -> filter managed nets' = wanted ctx)
    end.

Lemma synced_same C T e n : host C T n -> synced C T (Err e) n.
Proof. intros Hh. exists C. split_and!; [done..|]. destruct (C !! c) as [nets|]; [|done]. exists nets. split_and!; [done|set_solver|done]. Qed.

Lemma sync_connections_spec C T : spec (host C T) (sync_connections ctx) (synced C T).
Proof.
  unfold sync_connections. rewrite Hrunner. apply (spec_bind _ _ _ (fun b n => host C T n /\ (b = false -> daemon_answers runner -> C !! c = None))).
  { eapply spec_conseq; [by apply exists_spec|done|]. intros [b|e] n [Hn Hb]; [|by apply synced_same]. split; [done|]. by intros ->. }
  intros b. apply spec_pure. intros Hb. destruct b; cbn [negb].
  - destruct (C !! c) as [nets|] eqn:HC.
    + intros s [Hn Hs]. assert (Hon : on ctx C T nets (fw_node s)) by (split; [rewrite insert_id; done|done]).
      destruct (reconcile_networks_spec ctx C T nets HC s Hon) as (nets' & _ & Hhigh & Hok & Hn' & Hs'). exists (<[c := nets']> C).
      split_and!; [by split|apply delete_insert_eq|]. rewrite HC. exists nets'. split_and!; [apply lookup_insert_eq|done|]. intros Hr _. rewrite (Hok Hr). apply settled_managed.
    + eapply spec_conseq; [by apply (reconcile_missing ctx runner C T HC)|done|]. intros r n [Hn Hr]. exists C. rewrite HC. by split_and!.
  - apply spec_ret. intros n Hn. exists C. split_and!; [done..|]. specialize (Hb eq_refl). destruct (C !! c) as [nets|]; [|done].
    exists nets. split_and!; [done|set_solver|]. intros _ Ha. by specialize (Hb Ha).
Qed.
End sync.

(** ** The two operations *)

(** The store, the keyring and the connection itself leave the containers alone. *)
Class QuietDesk (Node : Type) (runner : Runner) `{DockerHost Node runner} `{Desk Node} : Prop := {
  fault_keeps : forall n : Node, view (store_fault n).2 = view n;
  secret_keeps : forall id key (n : Node), view (load_environment_secret id key n).2 = view n;
  connect_keeps : forall id (n : Node), view (get_or_connect id n).2 = view n;
}.

Section flows.
Context `{UnicodeCase} {Node : Type} `{QuietDesk Node runner}.
Implicit Types (C : gmap (list Z) (gset (list Z))) (T : list Started).

(** Exactly this store and this host. *)
Definition desk (st : Store) C T (st' : Store) (n : Node) : Prop := st' = st /\ host C T n.

Lemma dspec_statement {A} message (f : Store -> A * Store) st C T :
  dspec (desk st C T) (statement message f) (fun r st' n => match r with Ok a => a = (f st).1 /\ desk (f st).2 C T st' n | Err _ => desk st C T st' n end).
Proof.
  intros s [Hst Hh]. unfold statement, ask, faulty. pose proof (fault_keeps (fw_node (ds_fw s))) as Hv.
  destruct (store_fault (fw_node (ds_fw s))) as [[detail|] n] eqn:E; cbn in *; [split; [done|by eapply host_view]|].
  rewrite Hst. destruct (f st) as [a store] eqn:Ef. cbn. split; [done|]. split; [done|by eapply host_view].
Qed.

Lemma dspec_ask {A} (f : Node -> result AppError A * Node) st C T : (forall n, view (f n).2 = view n) ->
  dspec (desk st C T) (on_host (ask f)) (fun _ st' n => desk st C T st' n).
Proof.
  intros Hf s [Hst Hh]. unfold on_host, ask. specialize (Hf (fw_node (ds_fw s))). destruct (f (fw_node (ds_fw s))) as [r n]. cbn in *. split; [done|by eapply host_view].
Qed.

Lemma get_application_spec st C T id : dspec (desk st C T) (get_application id)
  (fun r st' n => desk st C T st' n /\ match r with Ok (app, links) => st.(st_applications) !! id = Some app /\ links = links_of st id | Err _ => True end).
Proof.
  unfold get_application. apply (dspec_bind _ _ _ (fun found st' n => desk st C T st' n /\ found = (fun app => (app, links_of st id)) <$> st.(st_applications) !! id)).
  - eapply dspec_conseq; [apply (dspec_statement _ _ st C T)|done|]. intros [found|e] st' n; cbn; naive_solver.
  - intros found. destruct found as [[app links]|]; [apply dspec_ret|apply dspec_throw]; intros st' n [Hd Hf]; [|done]. split; [done|].
    destruct (st_applications st !! id) as [app'|]; [|discriminate Hf]. by injection Hf as -> ->.
Qed.

Lemma resolve_secrets_spec st C T id environment : dspec (desk st C T) (resolve_environment_secrets id environment) (fun _ st' n => desk st C T st' n).
Proof.
  induction environment as [|env environment IH]; [by apply dspec_ret|]. cbn [resolve_environment_secrets]. apply (dspec_bind _ _ _ (fun _ => desk st C T)).
  - destruct (ev_is_secret env); [|by apply dspec_ret]. apply (dspec_bind _ _ _ (fun _ => desk st C T)); [|intros v; by apply dspec_ret].
    eapply dspec_conseq; [apply (dspec_ask _ st C T); intros n; apply secret_keeps|done|]. by intros [].
  - intros env'. apply (dspec_bind _ _ _ (fun _ => desk st C T)); [|intros rest; by apply dspec_ret]. eapply dspec_conseq; [exact IH|done|]. by intros [].
Qed.

(** What is loaded is the row and its links. *)
Definition loaded (st : Store) (id : N) (app : StoredApplication) (ctx : RuntimeContext) : Prop :=
  st.(st_applications) !! id = Some app /\ ctx.(cx_id) = id /\ ctx.(cx_links) = links_of st id /\ ctx.(cx_remote) = match app.(sa_server_id) with Some _ => true | None => false end.

Lemma load_runtime_spec st C T id : dspec (desk st C T) (load_runtime id)
  (fun r st' n => desk st C T st' n /\ match r with Ok (app, ctx) => loaded st id app ctx | Err _ => True end).
Proof.
  unfold load_runtime. apply (dspec_bind _ _ _ (fun detail st' n => desk st C T st' n /\ st.(st_applications) !! id = Some detail.1 /\ detail.2 = links_of st id)).
  { eapply dspec_conseq; [apply (get_application_spec st C T id)|done|]. intros [[app links]|e] st' n; naive_solver. }
  intros [app links]. cbn [fst snd]. intros s (Hd & Happ & Hlinks). revert s Hd. change (dspec (desk st C T) (environment <- resolve_environment_secrets id (sa_environment app) ;;
    remote <- resolve_connection (sa_server_id app) ;; dret (app, mkContext id (sa_name app) (sa_working_directory app) (sa_config app) environment (sa_ports app) links remote))
    (fun r st' n => desk st C T st' n /\ match r with Ok (app, ctx) => loaded st id app ctx | Err _ => True end)).
  apply (dspec_bind _ _ _ (fun _ => desk st C T)); [eapply dspec_conseq; [apply resolve_secrets_spec|done|]; by intros []|]. intros environment.
  apply (dspec_bind _ _ _ (fun remote st' n => desk st C T st' n /\ remote = match app.(sa_server_id) with Some _ => true | None => false end)).
  - unfold resolve_connection. destruct (sa_server_id app) as [server|]; [|by apply dspec_ret]. apply (dspec_bind _ _ _ (fun _ => desk st C T)); [|intros _; by apply dspec_ret].
    eapply dspec_conseq; [apply (dspec_ask _ st C T); intros n; apply connect_keeps|done|]. by intros [].
  - intros remote. apply dspec_ret. intros st' n [Hd' ->]. done.
Qed.
End flows.

(** ** What a host grants *)

(** Two applications are connected. *)
Definition connected (L : gset (N * N)) (a b : N) : Prop := a <> b /\ ordered_pair a b ∈ L.

(** The networks the table grants an application. *)
Definition grants (L : gset (N * N)) (a : N) (net : list Z) : Prop := net = app_network_name a \/ exists b, connected L a b /\ net = link_network_name a b.

(** Two containers share a network of VibeSSH's. *)
Definition reachable (C : gmap (list Z) (gset (list Z))) (a b : N) : Prop :=
  exists na nb net, C !! container_name a = Some na /\ C !! container_name b = Some nb /\ managed net /\ net ∈ na /\ net ∈ nb.

(** No container is on more of VibeSSH's networks than the table grants. *)
Definition isolated (S : gset N) (L : gset (N * N)) (C : gmap (list Z) (gset (list Z))) : Prop :=
  forall a nets net, a ∈ S -> C !! container_name a = Some nets -> net ∈ nets -> managed net -> grants L a net.

(** The container, if there is one, is on exactly the networks the table grants. *)
Definition aligned (L : gset (N * N)) (C : gmap (list Z) (gset (list Z))) (a : N) : Prop :=
  forall nets net, C !! container_name a = Some nets -> managed net -> net ∈ nets <-> grants L a net.

(** The table holds the lower id first, and applications of this host. *)
Definition table_ok (S : gset N) (L : gset (N * N)) : Prop := forall p, p ∈ L -> N.lt p.1 p.2 /\ p.1 ∈ S /\ p.2 ∈ S.

Definition distinct_names (S : gset N) : Prop := forall a b, a ∈ S -> b ∈ S -> short_id a = short_id b -> a = b.

Lemma ordered_pair_sym a b : ordered_pair a b = ordered_pair b a.
Proof. unfold ordered_pair. destruct (N.leb_spec a b), (N.leb_spec b a); try done; [f_equal; lia|lia]. Qed.

Lemma connected_sym L a b : connected L a b -> connected L b a.
Proof. intros [Hne Hin]. split; [done|]. by rewrite ordered_pair_sym. Qed.

Lemma connected_in S L a b : table_ok S L -> connected L a b -> b ∈ S.
Proof. intros Hok [_ Hin]. apply Hok in Hin as (_ & H1 & H2). unfold ordered_pair in *. by destruct (N.leb a b). Qed.

Lemma wanted_grants st ctx id : (forall p, p ∈ st.(st_links) -> N.lt p.1 p.2) -> ctx.(cx_id) = id -> ctx.(cx_links) = links_of st id ->
  forall net, net ∈ wanted ctx <-> grants st.(st_links) id net.
Proof.
  intros Hord Hid Hl net. unfold wanted, grants. rewrite elem_of_list_to_set, desired_networks_in, Hid, Hl. setoid_rewrite links_of_in; [|done]. unfold connected. naive_solver.
Qed.

Lemma container_distinct S a b : distinct_names S -> a ∈ S -> b ∈ S -> a <> b -> container_name a <> container_name b.
Proof. intros Hd Ha Hb Hne Heq%container_short. by apply Hne, Hd. Qed.

Lemma grants_mono L L' a net : L ⊆ L' -> grants L a net -> grants L' a net.
Proof. intros Hsub [->|(b & [Hne Hin] & ->)]; [by left|]. right. exists b. split; [|done]. split; [done|set_solver]. Qed.

Lemma connected_reachable L C a b : is_Some (C !! container_name a) -> is_Some (C !! container_name b) -> aligned L C a -> aligned L C b -> connected L a b -> reachable C a b.
Proof.
  intros [na Hna] [nb Hnb] Hal Hbl Hc. assert (Hm : managed (link_network_name a b)).
  { unfold link_network_name, managed. destruct (N.leb _ _); reflexivity. }
  exists na, nb, (link_network_name a b). split_and!; [done..| |].
  - apply (Hal _ _ Hna Hm). right. eauto.
  - apply (Hbl _ _ Hnb Hm). right. exists a. split; [by apply connected_sym|]. apply link_network_sym.
Qed.

(** C19: Default deny, exactly.  When both containers are on the networks the
    table of connections grants them, as a successful start or sync leaves
    them, the two applications share a network of VibeSSH's if and only if they
    are connected - in particular two applications connected to the same third
    one stay apart.  The short names of the applications have to differ. *)
Theorem reachable_iff_connected S L C a b :
  distinct_names S -> table_ok S L -> a ∈ S -> b ∈ S -> a <> b ->
  is_Some (C !! container_name a) -> is_Some (C !! container_name b) -> aligned L C a -> aligned L C b ->
  reachable C a b <-> connected L a b.
Proof.
  intros Hd Hok Ha Hb Hne [na Hna] [nb Hnb] Hal Hbl. split.
  - intros (na' & nb' & net & Hla & Hlb & Hm & Hia & Hib). apply (Hal _ _ Hla Hm) in Hia. apply (Hbl _ _ Hlb Hm) in Hib.
    destruct Hia as [->|(x & Hx & ->)], Hib as [Heq|(y & Hy & Heq)].
    + apply app_network_inj in Heq. exfalso. by apply Hne, Hd.
    + by apply app_not_link in Heq.
    + symmetry in Heq. by apply app_not_link in Heq.
    + pose proof (connected_in _ _ _ _ Hok Hx). pose proof (connected_in _ _ _ _ Hok Hy).
      apply (link_network_inj S) in Heq as [[-> _]|[-> ->]]; try done.
  - apply connected_reachable; by eauto.
Qed.

Section operations.
Context `{UnicodeCase} {Node : Type} `{QuietDesk Node runner}.
Context (S : gset N) (names : distinct_names S).
Implicit Types (C : gmap (list Z) (gset (list Z))) (T : list Started).

(** The applications of the store are containers of this install, on this host. *)
Definition one_host (st : Store) : Prop := forall id app, st.(st_applications) !! id = Some app ->
  id ∈ S /\ app.(sa_shared) = false /\ app.(sa_runtime_type) = RtDocker /\ (match app.(sa_server_id) with Some _ => SshSession | None => LocalDocker end) = runner.

(** Between two hosts: what a container gained is granted. *)
Definition grown (L : gset (N * N)) C C' : Prop :=
  forall a nets' net, a ∈ S -> C' !! container_name a = Some nets' -> net ∈ nets' -> managed net ->
    (exists nets, C !! container_name a = Some nets /\ net ∈ nets) \/ grants L a net.

Lemma grown_refl L C : grown L C C.
Proof. intros a nets' net _ Hl Hin _. eauto. Qed.

Lemma grown_trans L C1 C2 C3 : grown L C1 C2 -> grown L C2 C3 -> grown L C1 C3.
Proof. intros H12 H23 a nets net Ha Hl Hin Hm. destruct (H23 a nets net Ha Hl Hin Hm) as [(nets' & Hl' & Hin')|Hg]; [|auto]. by eapply H12. Qed.

Lemma sync_one st C T id app ctx : one_host st -> table_ok S st.(st_links) -> loaded st id app ctx ->
  dspec (desk st C T) (sync_runtime app ctx) (fun r st' n => exists C', desk st C' T st' n /\ grown st.(st_links) C C' /\
    (r = Ok tt -> daemon_answers runner -> aligned st.(st_links) C' id) /\ forall x, x ∈ S -> x <> id -> C' !! container_name x = C !! container_name x).
Proof.
  intros Hone Hok (Happ & Hid & Hlinks & Hrem). destruct (Hone _ _ Happ) as (HS & Hsh & Hrt & Hrun). unfold sync_runtime. rewrite Hsh, Hrt.
  assert (Hr : runner_of ctx = runner). { unfold runner_of. rewrite Hrem. by destruct (sa_server_id app). }
  intros s [Hst Hh]. unfold on_host. pose proof (sync_connections_spec ctx Hr C T (ds_fw s) Hh) as Hspec.
  destruct (sync_connections ctx (ds_fw s)) as [r fw]. cbn in *. destruct Hspec as (C' & Hh' & Hdel & Hc). rewrite Hid in *.
  pose proof (wanted_grants st ctx id ltac:(intros p Hp; by apply Hok) Hid Hlinks) as Hw.
  assert (Hother : forall x, x ∈ S -> x <> id -> C' !! container_name x = C !! container_name x).
  { intros x Hx Hne. pose proof (container_distinct S id x names HS Hx ltac:(done)) as Hcn. apply (f_equal (lookup (container_name x))) in Hdel. by rewrite !lookup_delete_ne in Hdel by done. }
  exists C'. split_and!; [done| | |done].
  - intros a nets' net Ha Hl Hin Hm. destruct (decide (a = id)) as [->|Hne]; [|left; exists nets'; by rewrite <-Hother].
    destruct (C !! container_name id) as [nets|]; [|congruence]. destruct Hc as (nets'' & Hl'' & Hsub & _). assert (nets'' = nets') as -> by congruence.
    apply Hsub, elem_of_union in Hin as [Hin|Hin]; [left; eauto|right; by apply Hw].
  - intros Hr0 Hans nets net Hl Hm. destruct (C !! container_name id) as [nets0|]; [|congruence]. destruct Hc as (nets'' & Hl'' & _ & Hf). assert (nets'' = nets) as -> by congruence.
    specialize (Hf Hr0 Hans). rewrite <-Hw, <-Hf, elem_of_filter. tauto.
Qed.

Lemma apply_connections_spec st T ids : one_host st -> table_ok S st.(st_links) -> forall C (ready : list N),
  (forall id, id ∈ ready -> id ∈ S /\ (daemon_answers runner -> aligned st.(st_links) C id)) ->
  dspec (desk st C T) (apply_connections ids) (fun r st' n => exists C', desk st C' T st' n /\ grown st.(st_links) C C' /\
    (r = Ok tt -> daemon_answers runner -> forall id, id ∈ ready \/ id ∈ ids -> aligned st.(st_links) C' id)).
Proof.
  intros Hone Hok. induction ids as [|id ids IH]; intros C ready Hready.
  - apply dspec_ret. intros st' n Hd. exists C. split_and!; [done|apply grown_refl|]. intros _ Ha id [Hin|Hin%elem_of_nil]; [|done]. by apply Hready.
  - cbn [apply_connections]. apply (dspec_bind _ _ _ (fun l st' n => desk st C T st' n /\ loaded st id l.1 l.2)).
    { eapply dspec_conseq; [apply (load_runtime_spec st C T id)|done|]. intros [[app ctx]|e] st' n [Hd Hl]; [done|]. exists C. by split_and!; [|apply grown_refl|]. }
    intros [app ctx]. cbn [fst snd]. intros s [Hd Hl]. pose proof (sync_one st C T id app ctx Hone Hok Hl s Hd) as (C1 & Hd1 & Hg1 & Hal1 & Hoth).
    unfold dbind. destruct (sync_runtime app ctx s) as [[[]|e] s'] eqn:E; cbn [fst snd] in *; [|exists C1; by split_and!].
    destruct (Hone _ _ (proj1 Hl)) as (HS & _). assert (Hready1 : forall x, x ∈ id :: ready -> x ∈ S /\ (daemon_answers runner -> aligned (st_links st) C1 x)).
    { intros x [->|Hx]%elem_of_cons; [auto|]. destruct (Hready x Hx) as [HxS Hx']. split; [done|]. destruct (decide (x = id)) as [->|Hne]; [auto|].
      unfold aligned. by rewrite Hoth. }
    destruct (IH C1 (id :: ready) Hready1 s' Hd1) as (C2 & Hd2 & Hg2 & Hal2). exists C2. split_and!; [done|by eapply grown_trans|].
    intros Hr Ha x Hx. apply Hal2; [done|done|]. set_solver.
Qed.

(** [isolated] follows what a container gained. *)
Lemma isolated_grown L L' C C' : L ⊆ L' -> isolated S L C -> grown L' C C' -> isolated S L' C'.
Proof.
  intros Hsub Hiso Hg a nets net Ha Hl Hin Hm. destruct (Hg a nets net Ha Hl Hin Hm) as [(nets0 & Hl0 & Hin0)|?]; [|done]. eapply grants_mono; [exact Hsub|]. by eapply Hiso.
Qed.

Definition with_links (st : Store) (L : gset (N * N)) : Store := mkStore st.(st_applications) L.

Lemma add_link_spec st C T a b : dspec (desk st C T) (add_link a b)
  (fun r st' n => match r with Ok _ => a <> b /\ desk (with_links st ({[ordered_pair a b]} ∪ st.(st_links))) C T st' n | Err _ => desk st C T st' n end).
Proof.
  unfold add_link. destruct (N.eqb_spec a b) as [->|Hne]; [by apply dspec_throw|]. eapply dspec_conseq; [apply (dspec_statement _ _ st C T)|done|].
  intros [u|e] st' n; [|done]. by intros [_ Hd].
Qed.

Lemma remove_link_spec st C T a b : dspec (desk st C T) (remove_link a b)
  (fun r st' n => match r with Ok _ => desk (with_links st (st.(st_links) ∖ {[ordered_pair a b]})) C T st' n | Err _ => desk st C T st' n end).
Proof. eapply dspec_conseq; [apply (dspec_statement _ _ st C T)|done|]. intros [u|e] st' n; [|done]. by intros [_ Hd]. Qed.

Lemma validate_connectable_spec st C T a b : dspec (desk st C T) (validate_connectable a b)
  (fun r st' n => desk st C T st' n /\ (r = Ok tt -> a <> b /\ is_Some (st.(st_applications) !! a) /\ is_Some (st.(st_applications) !! b))).
Proof.
  unfold validate_connectable. destruct (N.eqb_spec a b) as [|Hne]; [by apply dspec_throw|].
  apply (dspec_bind _ _ _ (fun first st' n => desk st C T st' n /\ is_Some (st.(st_applications) !! a))).
  { eapply dspec_conseq; [apply (get_application_spec st C T a)|done|]. intros [[app links]|e] st' n [Hd Hr]; [|done]. destruct Hr. eauto. }
  intros first. apply (dspec_bind _ _ _ (fun second st' n => desk st C T st' n /\ is_Some (st.(st_applications) !! a) /\ is_Some (st.(st_applications) !! b))).
  { intros s [Hd Ha]. pose proof (get_application_spec st C T b s Hd) as [Hd' Hr]. destruct (get_application b s) as [[[app links]|e] s']; cbn in *; [|done]. destruct Hr. eauto. }
  intros second. repeat case_match; first [apply dspec_throw|apply dspec_ret]; naive_solver.
Qed.

Lemma table_add L a b : table_ok S L -> a ∈ S -> b ∈ S -> a <> b -> table_ok S ({[ordered_pair a b]} ∪ L).
Proof.
  intros Hok Ha Hb Hne p [->%elem_of_singleton|Hp]%elem_of_union; [|by apply Hok]. unfold ordered_pair. destruct (N.leb_spec a b); cbn; split_and!; try done; lia.
Qed.

Lemma grown_mono L L' C C' : L ⊆ L' -> grown L C C' -> grown L' C C'.
Proof. intros Hsub Hg a nets net Ha Hl Hin Hm. destruct (Hg a nets net Ha Hl Hin Hm); [by left|right; by eapply grants_mono]. Qed.

Lemma connect_spec st C T a b : one_host st -> table_ok S st.(st_links) -> isolated S st.(st_links) C ->
  dspec (desk st C T) (connect_applications a b) (fun r st' n => exists C', host C' T n /\ isolated S st'.(st_links) C' /\
    (r = Ok tt -> connected st'.(st_links) a b /\ (daemon_answers runner -> aligned st'.(st_links) C' a /\ aligned st'.(st_links) C' b))).
Proof.
  intros Hone Hok Hiso. unfold connect_applications. assert (Hsame : forall st' n e, desk st C T st' n -> exists C', host C' T n /\ isolated S st'.(st_links) C' /\
    (@Err AppError unit e = Ok tt -> connected st'.(st_links) a b /\ (daemon_answers runner -> aligned st'.(st_links) C' a /\ aligned st'.(st_links) C' b))).
  { intros st' n e [-> Hh]. by exists C. }
  apply (dspec_bind _ _ _ (fun _ st' n => desk st C T st' n /\ a <> b /\ is_Some (st.(st_applications) !! a) /\ is_Some (st.(st_applications) !! b))).
  { eapply dspec_conseq; [apply (validate_connectable_spec st C T a b)|done|]. intros [[]|e] st' n [Hd Hr]; [naive_solver|by apply Hsame]. }
  intros _ s (Hd & Hne & [appa Ha] & [appb Hb]). unfold dbind. pose proof (add_link_spec st C T a b s Hd) as Hadd.
  destruct (add_link a b s) as [[[]|e] s']; cbn [fst snd] in *; [|by apply Hsame]. destruct Hadd as [_ Hd']. set (st' := with_links st _) in *.
  destruct (Hone _ _ Ha) as [HaS _]. destruct (Hone _ _ Hb) as [HbS _]. pose proof (table_add _ a b Hok HaS HbS Hne) as Hok'.
  destruct (apply_connections_spec st' T [a; b] Hone Hok' C [] ltac:(by intros ? ?%elem_of_nil) s' Hd') as (C' & [Hst' Hh'] & Hg & Hal).
  rewrite Hst'. exists C'. split_and!; [done|eapply isolated_grown; [|exact Hiso|exact Hg]; unfold st'; cbn; set_solver|].
  intros Hr. split; [|intros Hans; split; (apply Hal; [done|done|set_solver])]. split; [done|]. unfold st'. cbn. set_solver.
Qed.

Lemma isolated_removed L C C' a b : isolated S L C -> grown (L ∖ {[ordered_pair a b]}) C C' -> aligned (L ∖ {[ordered_pair a b]}) C' a -> aligned (L ∖ {[ordered_pair a b]}) C' b ->
  isolated S (L ∖ {[ordered_pair a b]}) C'.
Proof.
  intros Hiso Hg Ha Hb x nets net Hx Hl Hin Hm. destruct (decide (x = a)) as [->|Hxa]; [by apply (Ha nets)|]. destruct (decide (x = b)) as [->|Hxb]; [by apply (Hb nets)|].
  destruct (Hg x nets net Hx Hl Hin Hm) as [(nets0 & Hl0 & Hin0)|?]; [|done]. destruct (Hiso _ _ _ Hx Hl0 Hin0 Hm) as [->|(y & [Hne Hp] & ->)]; [by left|].
  right. exists y. split; [|done]. split; [done|]. apply elem_of_difference. split; [done|]. rewrite elem_of_singleton. unfold ordered_pair.
  destruct (N.leb x y), (N.leb a b); intros [= ? ?]; congruence.
Qed.

Lemma disconnect_spec st C T a b : one_host st -> table_ok S st.(st_links) -> isolated S st.(st_links) C ->
  dspec (desk st C T) (disconnect_applications a b) (fun r st' n => exists C', host C' T n /\ match r with
    | Ok _ => ~ connected st'.(st_links) a b /\ (daemon_answers runner -> isolated S st'.(st_links) C' /\ aligned st'.(st_links) C' a /\ aligned st'.(st_links) C' b)
    | Err _ => isolated S st'.(st_links) C' \/ st'.(st_links) = st.(st_links) ∖ {[ordered_pair a b]}
    end).
Proof.
  intros Hone Hok Hiso. unfold disconnect_applications. set (st1 := with_links st (st.(st_links) ∖ {[ordered_pair a b]})). apply (dspec_bind _ _ _ (fun _ => desk st1 C T)).
  { eapply dspec_conseq; [apply (remove_link_spec st C T a b)|done|]. intros [[]|e] st' n Hd; [done|]. destruct Hd as [-> Hh]. exists C. split; [done|by left]. }
  intros _ s Hd. assert (Hok1 : table_ok S st1.(st_links)) by (intros p Hp; apply Hok; unfold st1 in Hp; cbn in Hp; set_solver).
  destruct (apply_connections_spec st1 T [a; b] Hone Hok1 C [] ltac:(by intros ? ?%elem_of_nil) s Hd) as (C' & [Hst' Hh'] & Hg & Hal).
  destruct (apply_connections [a; b] s) as [[[]|e] s']; cbn [fst snd] in *.
  - exists C'. rewrite Hst'. split_and!; [done| |]; [intros [_ Hin]; unfold st1 in Hin; cbn in Hin; set_solver|]. intros Hans.
    assert (Ha : aligned st1.(st_links) C' a) by (apply Hal; [done|done|set_solver]). assert (Hb : aligned st1.(st_links) C' b) by (apply Hal; [done|done|set_solver]).
    split; [by apply (isolated_removed _ C)|done].
  - pose proof (add_link_spec st1 C' T a b s' (conj Hst' Hh')) as Hadd. destruct (add_link a b s') as [[[]|e'] s'']; cbn [fst snd] in *.
    + destruct Hadd as (_ & Hst'' & Hh''). exists C'. rewrite Hst''. split; [done|left]. eapply isolated_grown; [|exact Hiso|eapply grown_mono; [|exact Hg]].
      * unfold st1. cbn. intros p Hp. destruct (decide (p = ordered_pair a b)); set_solver.
      * cbn. set_solver.
    + destruct Hadd as (Hst'' & Hh''). exists C'. rewrite Hst''. split; [done|by right].
Qed.

End operations.

(** ** A small installation *)

#[global] Instance sample_desk {down} : Desk (Sample down) := {
  store_fault n := (None, n);
  load_environment_secret _ _ n := (Ok None, n);
  get_or_connect _ n := (Ok tt, n);
}.

#[global] Instance sample_quiet_desk {down} runner : QuietDesk (Sample down) runner.
Proof. by split. Qed.

Lemma sample_answers runner : daemon_answers (Node := Sample false) runner.
Proof.
  intros name n out n' Hr He. apply ran_call in Hr as (out' & [= <-] & Hc). unfold call in Hc. verb Hc. unfold inspect_call in Hc.
  destruct (bool_decide _) eqn:E; injection Hc as <- <-; [done|]. apply bool_decide_eq_false, eq_None_not_Some in E. exact E.
Qed.

Definition PROXY : N := 7.
Definition LOBBY : N := 340282366920938463463374607431768211455.
Definition sample_ids : gset N := {[PROXY; LOBBY]}.

Definition sample_application (name : string) : StoredApplication := mkStored (Some 1%N) (lit name) RtDocker (lit "/home/container/app") (Ok sample_config) [] [] false.

Definition sample_store (links : gset (N * N)) : Store := mkStore (<[PROXY := sample_application "Proxy"]> {[LOBBY := sample_application "Lobby"]}) links.

Definition sample_containers (shared : gset (list Z)) : gmap (list Z) (gset (list Z)) :=
  <[container_name PROXY := {[app_network_name PROXY; lit "bridge"]} ∪ shared]> {[container_name LOBBY := {[app_network_name LOBBY]} ∪ shared]}.

Definition sample_desk_state (down : bool) (links : gset (N * N)) (shared : gset (list Z)) : DeskState Store (Sample down) :=
  mkDesk (sample_store links) (mkFw (mkSample (sample_containers shared) []) ∅ 0).

Lemma proxy_in : PROXY ∈ sample_ids.
Proof. apply elem_of_union_l, elem_of_singleton. done. Qed.

Lemma lobby_in : LOBBY ∈ sample_ids.
Proof. apply elem_of_union_r, elem_of_singleton. done. Qed.

Lemma sample_names : distinct_names sample_ids.
Proof.
  intros a b Ha Hb Heq. unfold sample_ids in *. rewrite elem_of_union, !elem_of_singleton in Ha, Hb.
  destruct Ha as [->| ->], Hb as [->| ->]; [reflexivity| | |reflexivity]; vm_compute in Heq; discriminate Heq.
Qed.

Lemma sample_one_host links : one_host (runner := SshSession) sample_ids (sample_store links).
Proof.
  intros id app. unfold sample_store. cbn [st_applications]. intros [[<- <-]|[_ [<- <-]%lookup_singleton_Some]]%lookup_insert_Some;
    (split_and!; [apply proxy_in || apply lobby_in|done..]).
Qed.

Lemma sample_isolated links : isolated sample_ids links (sample_containers ∅).
Proof.
  intros a nets net Ha Hl Hin Hm. left. unfold sample_containers in Hl. apply lookup_insert_Some in Hl as [[Heq <-]|[Hne Hl]].
  - assert (a = PROXY) as -> by (apply sample_names; [done|apply proxy_in|by apply container_short]).
    rewrite elem_of_union, elem_of_empty, elem_of_union, !elem_of_singleton in Hin. destruct Hin as [[->| ->]|[]]; [done|by vm_compute in Hm].
  - apply lookup_singleton_Some in Hl as [Heq <-]. assert (a = LOBBY) as -> by (apply sample_names; [done|apply lobby_in|by apply container_short]).
    rewrite elem_of_union, elem_of_singleton, elem_of_empty in Hin. by destruct Hin as [->|[]].
Qed.


Lemma sample_proxy shared : is_Some (sample_containers shared !! container_name PROXY).
Proof. unfold sample_containers. rewrite lookup_insert_eq. by eexists. Qed.

Lemma sample_lobby shared : sample_containers shared !! container_name LOBBY = Some ({[app_network_name LOBBY]} ∪ shared).
Proof.
  unfold sample_containers. rewrite lookup_insert_ne; [apply lookup_singleton_eq|].
  apply (container_distinct sample_ids); [apply sample_names|apply proxy_in|apply lobby_in|done].
Qed.

Lemma sample_aligned : let links := {[ordered_pair PROXY LOBBY]} in let C := sample_containers {[link_network_name PROXY LOBBY]} in aligned links C PROXY /\ aligned links C LOBBY.
Proof.
  assert (Hconn : forall a b, connected {[ordered_pair PROXY LOBBY]} a b <-> a = PROXY /\ b = LOBBY \/ a = LOBBY /\ b = PROXY).
  { intros a b. unfold connected. rewrite elem_of_singleton. change (ordered_pair PROXY LOBBY) with (PROXY, LOBBY). unfold ordered_pair. split.
    - intros [Hne Heq]. destruct (N.leb a b); injection Heq as -> ->; auto.
    - intros [[-> ->]|[-> ->]]; by split. }
  split; intros nets net Hl Hm.
  - unfold sample_containers in Hl. rewrite lookup_insert_eq in Hl. injection Hl as <-. rewrite !elem_of_union, !elem_of_singleton. split.
    + intros [[->| ->]| ->]; [by left|by vm_compute in Hm|right; exists LOBBY; rewrite Hconn; auto].
    + intros [->|(b & Hb & ->)]; [auto|]. apply Hconn in Hb as [[_ ->]|[Hx _]]; [auto|discriminate Hx].
  - rewrite sample_lobby in Hl. injection Hl as <-. rewrite elem_of_union, !elem_of_singleton. split.
    + intros [->| ->]; [by left|right; exists PROXY; rewrite Hconn, link_network_sym; auto].
    + intros [->|(b & Hb & ->)]; [auto|]. apply Hconn in Hb as [[Hx _]|[_ ->]]; [discriminate Hx|rewrite link_network_sym; auto].
Qed.

Lemma reachable_iff_connected_witness :
  reachable (sample_containers {[link_network_name PROXY LOBBY]}) PROXY LOBBY <-> connected {[ordered_pair PROXY LOBBY]} PROXY LOBBY.
Proof.
  destruct sample_aligned as [Hp Hl]. apply (reachable_iff_connected sample_ids); [apply sample_names| |apply proxy_in|apply lobby_in|done| | |exact Hp|exact Hl].
  - intros p ->%elem_of_singleton. change (ordered_pair PROXY LOBBY) with (PROXY, LOBBY). split_and!; [done|apply proxy_in|apply lobby_in].
  - apply sample_proxy.
  - rewrite sample_lobby. by eexists.
Defined.

(** ** Two places where the code does not do what it says *)

(** [container_exists] takes any failure of [docker inspect] for a container
    that is not there.  With the daemon down, a revoke succeeds: the row is
    gone and both containers are still on the network they share. *)
Theorem revoke_without_a_daemon_is_believed :
  let '(r, s') := disconnect_applications PROXY LOBBY (sample_desk_state true {[ordered_pair PROXY LOBBY]} {[link_network_name PROXY LOBBY]}) in
  r = Ok tt /\ s'.(ds_store).(st_links) = ∅ /\ reachable (sh_containers s'.(ds_fw).(fw_node)) PROXY LOBBY.
Proof.
  assert (Hr : (disconnect_applications PROXY LOBBY (sample_desk_state true {[ordered_pair PROXY LOBBY]} {[link_network_name PROXY LOBBY]}))
    = (Ok tt, sample_desk_state true ∅ {[link_network_name PROXY LOBBY]})) by (vm_compute; reflexivity).
  rewrite Hr. split_and!; [done..|]. cbn [ds_fw fw_node sh_containers sample_desk_state]. destruct sample_aligned as [Hp Hl].
  apply (connected_reachable {[ordered_pair PROXY LOBBY]}); [apply sample_proxy|rewrite sample_lobby; by eexists|exact Hp|exact Hl|].
  split; [done|by apply elem_of_singleton].
Qed.

(** Two applications whose ids begin alike share their own network: with no
    connection at all they can reach each other. *)
Theorem like_names_grant_silently C a b : short_id a = short_id b -> is_Some (C !! container_name a) -> is_Some (C !! container_name b) ->
  aligned ∅ C a -> aligned ∅ C b -> reachable C a b.
Proof.
  intros Hs [na Ha] [nb Hb] Hal Hbl. assert (Hm : managed (app_network_name a)) by reflexivity.
  exists na, nb, (app_network_name a). split_and!; [done..| |].
  - apply (Hal _ _ Ha Hm). by left.
  - apply (Hbl _ _ Hb Hm). left. by apply app_network_inj.
Qed.
