(* ===== verification/Sanitizer.v ===== *)
(** * Sanitizer: what is withheld from an AI provider

    [apps/desktop/src-tauri/src/ai/sanitizer.rs]: the redaction of secrets from
    text, JSON and environments before they leave the machine.

    The loops of the source run over what is left of a text; here they have a
    fuel, and [None] when it runs out, which [every_loop_ends] excludes.  What
    Unicode calls a letter, a digit or an upper-case character is the class
    [UnicodeKinds]. *)

From S2P Require Import Prelude Text.

#[local] Open Scope Z_scope.

(** ** Names that mean a secret *)

Class UnicodeKinds : Type := {
  is_alphanumeric : Z -> bool;
  is_uppercase : Z -> bool;
  is_lowercase : Z -> bool;
  is_numeric : Z -> bool;
  ascii_alphanumeric : forall c, is_ascii c = true -> is_alphanumeric c = is_ascii_alphanumeric c;
}.

Definition REDACTED : list Z := lit "***".

Definition SECRET_SUBSTRINGS : list (list Z) :=
  [lit "password"; lit "passwd"; lit "secret"; lit "token"; lit "apikey"; lit "privatekey"; lit "passphrase"; lit "requirepass"; lit "credential"; lit "auth"; lit "pwd"].

Definition SECRET_SEGMENTS : list (list Z) := [lit "key"; lit "pass"; lit "auth"; lit "token"; lit "secret"; lit "pwd"; lit "salt"; lit "cookie"; lit "session"].

(** [str::find] of a string: what stands before its first occurrence, and after it. *)
Fixpoint find_str (needle s : list Z) : option (list Z * list Z) :=
  match strip_prefix needle s with
  | Some rest => Some ([], rest)
  | None => match s with [] => None | c :: s => match find_str needle s with Some (a, b) => Some (c :: a, b) | None => None end end
  end.

Definition found (needle s : list Z) : bool := bool_decide (is_Some (find_str needle s)).

Section sanitizer.
Context `{UnicodeKinds}.

(** The loop of [segments], with its three variables. *)
Fixpoint segments_loop (out : list (list Z)) (current : list Z) (previous_lower : bool) (key : list Z) : list (list Z) :=
  match key with
  | [] => if is_empty current then out else out ++ [current]
  | ch :: key =>
      if negb (is_alphanumeric ch) then
        if is_empty current then segments_loop out current false key else segments_loop (out ++ [current]) [] false key
      else
        let '(out, current) := if is_uppercase ch && previous_lower && negb (is_empty current) then (out ++ [current], []) else (out, current) in
        segments_loop out (current ++ [to_ascii_lowercase ch]) (is_lowercase ch || is_numeric ch) key
  end.
Definition segments (key : list Z) : list (list Z) := segments_loop [] [] false key.

Definition is_secret_key (key : list Z) : bool :=
  let key := trim_start_matches (Z.eqb 45) key in
  let normalised := map to_ascii_lowercase (List.filter is_alphanumeric key) in
  existsb (fun needle => found needle normalised) SECRET_SUBSTRINGS || existsb (fun segment => existsb (str_eqb segment) SECRET_SEGMENTS) (segments key).

Definition is_key_char (ch : Z) : bool := is_alphanumeric ch || (ch =? 95) || (ch =? 45) || (ch =? 46).

(** ** Text *)

Definition PEM_BEGIN : list Z := lit "-----BEGIN".
Definition PEM_END : list Z := lit "-----END".

Fixpoint pem_loop (fuel : nat) (out rest : list Z) : option (list Z) :=
  match find_str PEM_BEGIN rest with
  | None => Some (out ++ rest)
  | Some (before, after) =>
      match fuel with
      | O => None
      | S fuel =>
          let out := out ++ before ++ REDACTED in
          match find_str PEM_END after with
          | None => Some out
          | Some (_, tail) => pem_loop fuel out (match find_str (lit "-----") tail with Some (_, rest) => rest | None => [] end)
          end
      end
  end.
Definition redact_pem_blocks (text : list Z) : list Z := default [] (pem_loop (length text) [] text).

Definition SCHEME_END : list Z := lit "://".
(** What ends an authority: / space double quote, line feed, tab, quote. *)
Definition ends_authority (c : Z) : bool := (c =? 47) || (c =? 32) || (c =? 34) || (c =? 10) || (c =? 9) || (c =? 39).

Fixpoint url_loop (fuel : nat) (out rest : list Z) : option (list Z) :=
  match find_str SCHEME_END rest with
  | None => Some (out ++ rest)
  | Some (before, authority) =>
      match fuel with
      | O => None
      | S fuel =>
          let out := out ++ before ++ SCHEME_END in
          match split_once 64 (take_while (fun c => negb (ends_authority c)) authority) with
          | Some (userinfo, _) =>
              let shown := match split_once 58 userinfo with Some (user, _) => user ++ [58] ++ REDACTED | None => userinfo end in
              url_loop fuel (out ++ shown ++ [64]) (drop (length userinfo + 1) authority)
          | None =>
              url_loop fuel (out ++ take_while (fun c => negb (ends_authority c)) authority) (drop_while (fun c => negb (ends_authority c)) authority)
          end
      end
  end.
Definition redact_url_userinfo (text : list Z) : list Z := default [] (url_loop (length text) [] text).

(** The walk back over what was just emitted. *)
Definition key_before (out : list Z) : list Z :=
  let backwards := rev out in
  let backwards := match backwards with c :: r => if (c =? 34) || (c =? 39) then r else backwards | [] => [] end in
  rev (take_while is_key_char backwards).

Definition is_space_or_tab (c : Z) : bool := (c =? 32) || (c =? 9).
Definition is_quote (c : Z) : bool := (c =? 34) || (c =? 39).

(** The value at the head of [rest], dropped. *)
Definition skip_value (separator : Z) (rest : list Z) : list Z :=
  match rest with
  | [] => []
  | c :: after =>
      if is_quote c then
        let r := drop_while (fun x => negb (x =? c) && negb (x =? 10)) after in
        match r with x :: r' => if x =? c then r' else r | [] => [] end
      else if separator =? 58 then drop_while (fun x => negb (x =? 10) && negb (x =? 13)) rest
      else drop_while (fun x => negb (is_whitespace x)) rest
  end.

(** One turn of the loop, at the character [ch]. *)
Definition kv_turn (out : list Z) (ch : Z) (rest : list Z) : list Z * list Z :=
  if negb (ch =? 61) && negb (ch =? 58) then (out ++ [ch], rest)
  else
    let key := key_before out in
    if is_empty key || negb (is_secret_key key) then (out ++ [ch], rest)
    else
      let out := out ++ [ch] ++ take_while is_space_or_tab rest in
      let rest := drop_while is_space_or_tab rest in
      match rest with
      | [] => (out, rest)
      | c :: _ => if (c =? 10) || (c =? 13) then (out, rest) else (out ++ REDACTED, skip_value ch rest)
      end.

Fixpoint kv_loop (fuel : nat) (out rest : list Z) : option (list Z) :=
  match rest with
  | [] => Some out
  | ch :: rest => match fuel with O => None | S fuel => let '(out, rest) := kv_turn out ch rest in kv_loop fuel out rest end
  end.
Definition redact_key_value_pairs (text : list Z) : list Z := default [] (kv_loop (length text) [] text).

Definition sanitize_text (text : list Z) : list Z := redact_key_value_pairs (redact_url_userinfo (redact_pem_blocks text)).

(** ** JSON and environments *)

Inductive Value : Type :=
| Null
| Boolean (b : bool)
| Num (text : list Z)
| Text_ (text : list Z)
| Array (items : list Value)
| Object (fields : list (list Z * Value)).

(** A bare flag that arms the next element. *)
Definition arms_next (item : Value) : bool :=
  match item with Text_ text => starts_with_char 45 text && negb (contains_char 61 text) && is_secret_key text | _ => false end.

Fixpoint sanitize_json (value : Value) : Value :=
  match value with
  | Object fields =>
      Object ((fix go (fields : list (list Z * Value)) : list (list Z * Value) :=
                 match fields with
                 | [] => []
                 | (key, child) :: fields => (key, if is_secret_key key then Text_ REDACTED else sanitize_json child) :: go fields
                 end) fields)
  | Array items =>
      Array ((fix go (redact_next : bool) (items : list Value) : list Value :=
                match items with
                | [] => []
                | item :: items => if redact_next then Text_ REDACTED :: go false items else sanitize_json item :: go (arms_next item) items
                end) false items)
  | Text_ text => Text_ (sanitize_text text)
  | other => other
  end.

Definition sanitize_environment (vars : list (list Z * list Z * bool)) : list (list Z * list Z) :=
  map (fun '(key, value, is_secret) => if is_secret || is_secret_key key then (key, REDACTED) else (key, sanitize_text value)) vars.
End sanitizer.

(** ** Every loop ends *)

Lemma strip_prefix_app p s rest : strip_prefix p s = Some rest -> s = p ++ rest.
Proof.
  revert s; induction p as [|a p IH]; intros [|b s] E; cbn in E; try (cbn; congruence).
  destruct (Z.eqb_spec a b) as [->|]; [|discriminate]. cbn; by rewrite (IH _ E).
Qed.
Lemma find_str_app n s a b : find_str n s = Some (a, b) -> s = a ++ n ++ b.
Proof.
  revert a b; induction s as [|c s IH]; intros a b; cbn [find_str]; destruct (strip_prefix n _) as [r|] eqn:E; intros E';
    try discriminate; try (injection E' as <- <-; exact (strip_prefix_app _ _ _ E)).
  destruct (find_str n s) as [[a' b']|]; [|discriminate]. injection E' as <- <-. cbn; f_equal; by apply IH.
Qed.
Lemma find_str_shorter n s a b : find_str n s = Some (a, b) -> (length b + length n <= length s)%nat.
Proof. intros E; rewrite (find_str_app _ _ _ _ E), !length_app; lia. Qed.
Lemma drop_while_length p s : (length (drop_while p s) <= length s)%nat.
Proof. induction s as [|c s IH]; cbn; [done|]. destruct (p c); cbn; lia. Qed.

Section loops.
Context `{UnicodeKinds}.

(** A loop that has as much fuel as what is left of the text returns, and more fuel changes nothing. *)
Definition ends (loop : nat -> list Z -> list Z -> option (list Z)) : Prop :=
  forall fuel out rest, (length rest <= fuel)%nat -> is_Some (loop fuel out rest) /\ forall more, (fuel <= more)%nat -> loop more out rest = loop fuel out rest.

Lemma pem_ends : ends pem_loop.
Proof.
  intros fuel; induction fuel as [|fuel IH]; intros out rest Hl.
  - destruct rest; [|cbn in Hl; lia]. split; [by eexists|]. by intros [|more] _.
  - cbn [pem_loop]. destruct (find_str PEM_BEGIN rest) as [[before after]|] eqn:E; cycle 1.
    { split; [by eexists|]. intros [|more] Hm; [lia|]. cbn [pem_loop]. by rewrite E. }
    apply find_str_shorter in E as Hb; change (length PEM_BEGIN) with 10%nat in Hb.
    destruct (find_str PEM_END after) as [[x tail]|] eqn:E2; cycle 1.
    { split; [by eexists|]. intros [|more] Hm; [lia|]. cbn [pem_loop]. by rewrite E, E2. }
    apply find_str_shorter in E2 as Hb2.
    set (r := match find_str (lit "-----") tail with Some (_, rest) => rest | None => [] end).
    assert (Hr : (length r <= fuel)%nat).
    { subst r. destruct (find_str _ tail) as [[y r]|] eqn:E3; [apply find_str_shorter in E3|cbn]; lia. }
    destruct (IH (out ++ before ++ REDACTED) r Hr) as [Hs Hmore].
    split; [done|]. intros [|more] Hm; [lia|]. cbn [pem_loop]. rewrite E, E2. apply Hmore; lia.
Qed.

Lemma url_ends : ends url_loop.
Proof.
  intros fuel; induction fuel as [|fuel IH]; intros out rest Hl.
  - destruct rest; [|cbn in Hl; lia]. split; [by eexists|]. by intros [|more] _.
  - cbn [url_loop]. destruct (find_str SCHEME_END rest) as [[before authority]|] eqn:E; cycle 1.
    { split; [by eexists|]. intros [|more] Hm; [lia|]. cbn [url_loop]. by rewrite E. }
    apply find_str_shorter in E as Hb; change (length SCHEME_END) with 3%nat in Hb.
    destruct (split_once 64 _) as [[userinfo x]|] eqn:E2.
    + match goal with |- is_Some (url_loop _ ?o ?r) /\ _ => destruct (IH o r) as [Hs Hmore] end; [rewrite length_drop; lia|].
      split; [done|]. intros [|more] Hm; [lia|]. cbn [url_loop]. rewrite E, E2. apply Hmore; lia.
    + match goal with |- is_Some (url_loop _ ?o ?r) /\ _ => destruct (IH o r) as [Hs Hmore] end.
      { pose proof (drop_while_length (fun c => negb (ends_authority c)) authority); lia. }
      split; [done|]. intros [|more] Hm; [lia|]. cbn [url_loop]. rewrite E, E2. apply Hmore; lia.
Qed.

Lemma skip_value_length sep rest : (length (skip_value sep rest) <= length rest)%nat.
Proof.
  destruct rest as [|c after]; [done|]. cbn [skip_value]. destruct (is_quote c).
  - pose proof (drop_while_length (fun x => negb (x =? c) && negb (x =? 10)) after) as Hd.
    destruct (drop_while _ after) as [|x r]; cbn in *; [lia|]. destruct (x =? c); cbn; lia.
  - destruct (sep =? 58); apply drop_while_length.
Qed.
Lemma kv_turn_length out ch rest : (length (kv_turn out ch rest).2 <= length rest)%nat.
Proof.
  unfold kv_turn. destruct (negb (ch =? 61) && negb (ch =? 58)); [done|]. destruct (_ || _); [done|].
  pose proof (drop_while_length is_space_or_tab rest) as Hd. destruct (drop_while is_space_or_tab rest) as [|c r] eqn:E; [done|].
  destruct ((c =? 10) || (c =? 13)); cbn [snd]; [done|]. pose proof (skip_value_length ch (c :: r)); lia.
Qed.

Lemma kv_ends : ends kv_loop.
Proof.
  intros fuel; induction fuel as [|fuel IH]; intros out [|ch rest] Hl; cbn in Hl; try lia.
  1,2: split; [by eexists|by intros [|more] _].
  cbn [kv_loop]. pose proof (kv_turn_length out ch rest) as Ht. destruct (kv_turn out ch rest) as [out' rest'] eqn:E; cbn in Ht.
  destruct (IH out' rest') as [Hs Hmore]; [lia|]. split; [done|].
  intros [|more] Hm; [lia|]. cbn [kv_loop]. rewrite E. apply Hmore; lia.
Qed.

Lemma ends_default loop text fuel : ends loop -> (length text <= fuel)%nat -> loop fuel [] text = Some (default [] (loop (length text) [] text)).
Proof. intros He Hl. destruct (He (length text) [] text) as [[r Hr] Hm]; [done|]. by rewrite (Hm fuel Hl), Hr. Qed.

(** C32: the three passes over a text end, on every text: each turn of their loops
    leaves less to read, so as many turns as the text has characters are
    enough, and the result does not depend on how many more are allowed. *)
Theorem every_loop_ends text fuel :
  (length text <= fuel)%nat ->
  pem_loop fuel [] text = Some (redact_pem_blocks text) /\
  url_loop fuel [] text = Some (redact_url_userinfo text) /\
  kv_loop fuel [] text = Some (redact_key_value_pairs text).
Proof. intros Hl. split_and!; apply ends_default; auto using pem_ends, url_ends, kv_ends. Qed.
End loops.

(** The kinds of the ASCII characters. *)
Definition ascii_kinds : UnicodeKinds := {|
  is_alphanumeric := is_ascii_alphanumeric;
  is_uppercase := fun c => (65 <=? c) && (c <=? 90);
  is_lowercase := fun c => (97 <=? c) && (c <=? 122);
  is_numeric := fun c => (48 <=? c) && (c <=? 57);
  ascii_alphanumeric := fun c _ => eq_refl |}.
#[local] Existing Instance ascii_kinds.

Lemma every_loop_ends_witness :
  let text := lit "postgres://u:p@h password=x" in
  (length text <= 40)%nat /\ kv_loop 40 [] text = Some (redact_key_value_pairs text) /\ sanitize_text text = lit "postgres://u:***@h password=***".
Proof.
  split; [cbn; lia|]. split; [|by vm_compute].
  refine (proj2 (proj2 (every_loop_ends (lit "postgres://u:p@h password=x") 40 _))). cbn; lia.
Defined.
