(* ===== verification/Redaction.v ===== *)
(** * Redaction: secrets leave no trace in what is sent

    The theorems on [apps/desktop/src-tauri/src/ai/sanitizer.rs] as
    non-interference: two texts, two JSON values or two environments that
    differ only in their secrets are sanitized to the same thing.  The two
    passes after the first work line by line, which is what lets a secret on one
    line be judged without the others. *)

From S2P Require Import Prelude Text Validators Sanitizer.

#[local] Open Scope Z_scope.

(** ** Searching *)

Lemma strip_prefix_self p s : strip_prefix p (p ++ s) = Some s.
Proof. induction p as [|a p IH]; [by destruct s|]. cbn. by rewrite Z.eqb_refl. Qed.
Lemma strip_prefix_line p l1 l2 :
  contains_char 10 p = false ->
  strip_prefix p (l1 ++ 10 :: l2) = match strip_prefix p l1 with Some r => Some (r ++ 10 :: l2) | None => None end.
Proof.
  revert l1; induction p as [|a p IH]; intros l1; [by destruct l1|]. unfold contains_char; cbn [existsb].
  intros [Ha Hp]%orb_false_iff. destruct l1 as [|b l1]; cbn.
  - by rewrite (Z.eqb_sym a 10), Ha.
  - destruct (a =? b); [by apply IH|done].
Qed.
Lemma strip_prefix_longer p s rest : (length p <= length s)%nat -> strip_prefix p s = None -> strip_prefix p (s ++ rest) = None.
Proof.
  revert s; induction p as [|a p IH]; intros [|b s]; cbn; intros Hl; try done; try lia.
  destruct (a =? b); [apply IH; lia|done].
Qed.

(** A search for what has no line feed in it goes line by line. *)
Lemma find_str_line n l1 l2 :
  n <> [] -> contains_char 10 n = false ->
  find_str n (l1 ++ 10 :: l2) =
    match find_str n l1 with
    | Some (a, b) => Some (a, b ++ 10 :: l2)
    | None => match find_str n l2 with Some (a, b) => Some (l1 ++ 10 :: a, b) | None => None end
    end.
Proof.
  intros Hn Hc. induction l1 as [|c l1 IH].
  - pose proof (strip_prefix_line n [] l2 Hc) as E. cbn [app] in *. cbn [find_str]. rewrite E. by destruct n.
  - pose proof (strip_prefix_line n (c :: l1) l2 Hc) as E. cbn [app] in *. cbn [find_str]. rewrite E.
    destruct (strip_prefix n (c :: l1)) as [r|]; [done|]. rewrite IH.
    destruct (find_str n l1) as [[a b]|]; [done|]. by destruct (find_str n l2) as [[a b]|].
Qed.

(** [before] stands in front of the first [n]. *)
Definition first_of (n before : list Z) : Prop := find_str n (before ++ n) = Some (before, []).
#[export] Instance first_of_decision n before : Decision (first_of n before) := decide (find_str n (before ++ n) = Some (before, [])).

Lemma find_str_first n before rest : first_of n before -> find_str n (before ++ n ++ rest) = Some (before, rest).
Proof.
  unfold first_of. induction before as [|c before IH]; cbn [app]; intros E.
  - destruct (n ++ rest) as [|c s] eqn:En; cbn [find_str]; rewrite <- En, strip_prefix_self; done.
  - cbn [find_str] in *. destruct (strip_prefix n (c :: before ++ n)) as [r|] eqn:Es; [discriminate|].
    pose proof (strip_prefix_longer n (c :: before ++ n) rest) as Hs. rewrite length_cons, length_app in Hs.
    specialize (Hs ltac:(lia) Es). replace (c :: before ++ n ++ rest) with ((c :: before ++ n) ++ rest) by by rewrite <- app_comm_cons, <- app_assoc.
    rewrite Hs. destruct (find_str n (before ++ n)) as [[a b]|]; [|discriminate].
    injection E as -> ->. by rewrite IH.
Qed.

Lemma take_while_line p l1 l2 : p 10 = false -> take_while p (l1 ++ 10 :: l2) = take_while p l1.
Proof. intros Hp. induction l1 as [|c l1 IH]; cbn; [by rewrite Hp|]. by rewrite IH. Qed.
Lemma drop_while_line p l1 l2 : p 10 = false -> drop_while p (l1 ++ 10 :: l2) = drop_while p l1 ++ 10 :: l2.
Proof. intros Hp. induction l1 as [|c l1 IH]; cbn; [by rewrite Hp|]. by destruct (p c). Qed.
Lemma split_once_parts c s a b : split_once c s = Some (a, b) -> s = a ++ c :: b.
Proof.
  revert a b; induction s as [|x s IH]; intros a b; cbn; [done|]. destruct (Z.eqb_spec x c) as [->|].
  - by intros [= <- <-].
  - destruct (split_once c s) as [[a' b']|]; [|done]. intros [= <- <-]. cbn; f_equal; by apply IH.
Qed.
Lemma take_while_length p s : (length (take_while p s) <= length s)%nat.
Proof. induction s as [|c s IH]; cbn; [done|]. destruct (p c); cbn; lia. Qed.

(** ** Private keys *)

Lemma pem_out fuel out rest : pem_loop fuel out rest = option_map (app out) (pem_loop fuel [] rest).
Proof.
  revert out rest; induction fuel as [|fuel IH]; intros out rest; cbn [pem_loop]; destruct (find_str PEM_BEGIN rest) as [[before after]|]; try done.
  destruct (find_str PEM_END after) as [[x tail]|]; [|done].
  rewrite IH, (IH ([] ++ _)). destruct (pem_loop fuel [] _); cbn; [|done]. by rewrite <- !app_assoc.
Qed.

Lemma pem_none text : find_str PEM_BEGIN text = None -> redact_pem_blocks text = text.
Proof. intros E. unfold redact_pem_blocks. destruct text as [|c t]; [done|]. cbn [length pem_loop]. by rewrite E. Qed.
Lemma pem_cut before body :
  first_of PEM_BEGIN before -> find_str PEM_END body = None -> redact_pem_blocks (before ++ PEM_BEGIN ++ body) = before ++ REDACTED.
Proof.
  intros Hb He. unfold redact_pem_blocks. destruct (length (before ++ PEM_BEGIN ++ body)) as [|fuel] eqn:El.
  { rewrite !length_app in El; change (length PEM_BEGIN) with 10%nat in El; lia. }
  cbn [pem_loop]. by rewrite find_str_first, He.
Qed.
Lemma pem_block before body label after :
  first_of PEM_BEGIN before -> first_of PEM_END body -> first_of (lit "-----") label ->
  redact_pem_blocks (before ++ PEM_BEGIN ++ body ++ PEM_END ++ label ++ lit "-----" ++ after) = before ++ REDACTED ++ redact_pem_blocks after.
Proof.
  intros Hb He Hd. unfold redact_pem_blocks at 1. set (text := before ++ _).
  destruct (pem_ends (length text) [] text) as [_ Hm]; [done|]. rewrite <- (Hm (S (length text))) by lia.
  cbn [pem_loop]. subst text. rewrite find_str_first, find_str_first, find_str_first by done.
  rewrite pem_out. rewrite (ends_default pem_loop after); [|apply pem_ends|rewrite !length_app; lia].
  cbn. by rewrite <- !app_assoc.
Qed.

(** ** Addresses *)

Definition in_authority (c : Z) : bool := negb (ends_authority c).
(** What stands for a user info that is shown. *)
Definition shown (userinfo : list Z) : list Z := match split_once 58 userinfo with Some (user, _) => user ++ [58] ++ REDACTED | None => userinfo end.

Lemma url_out fuel out rest : url_loop fuel out rest = option_map (app out) (url_loop fuel [] rest).
Proof.
  revert out rest; induction fuel as [|fuel IH]; intros out rest; cbn [url_loop]; destruct (find_str SCHEME_END rest) as [[before authority]|]; try done.
  destruct (split_once 64 _) as [[userinfo x]|]; rewrite IH, (IH (([] ++ _) ++ _)); destruct (url_loop fuel [] _); cbn [option_map app]; try done.
  all: by rewrite <- !app_assoc.
Qed.

Lemma url_none text : find_str SCHEME_END text = None -> redact_url_userinfo text = text.
Proof. intros E. unfold redact_url_userinfo. destruct text as [|c t]; [done|]. cbn [length url_loop]. by rewrite E. Qed.
Lemma url_more out rest fuel : (length rest <= fuel)%nat -> url_loop fuel out rest = Some (out ++ redact_url_userinfo rest).
Proof. intros Hl. rewrite url_out, (ends_default url_loop rest fuel url_ends Hl). done. Qed.

(** One address, and what follows it. *)
Lemma url_some text before authority :
  find_str SCHEME_END text = Some (before, authority) ->
  redact_url_userinfo text = before ++ SCHEME_END ++
    match split_once 64 (take_while in_authority authority) with
    | Some (userinfo, _) => shown userinfo ++ 64 :: redact_url_userinfo (drop (length userinfo + 1) authority)
    | None => take_while in_authority authority ++ redact_url_userinfo (drop_while in_authority authority)
    end.
Proof.
  intros E. apply find_str_shorter in E as Hb. change (length SCHEME_END) with 3%nat in Hb. unfold redact_url_userinfo at 1.
  destruct (length text) as [|fuel] eqn:El; [lia|]. cbn [url_loop]. rewrite E.
  change (fun c => negb (ends_authority c)) with in_authority.
  destruct (split_once 64 _) as [[userinfo x]|]; rewrite url_more.
  - cbn [default]. unfold shown. rewrite <- !app_assoc. done.
  - rewrite length_drop; lia.
  - cbn [default]. rewrite <- !app_assoc. done.
  - pose proof (drop_while_length in_authority authority); lia.
Qed.

Lemma userinfo_fits authority userinfo x :
  split_once 64 (take_while in_authority authority) = Some (userinfo, x) -> (length userinfo + 1 <= length authority)%nat.
Proof.
  intros E%split_once_parts. pose proof (take_while_length in_authority authority) as Hl.
  rewrite E, length_app in Hl; cbn in Hl; lia.
Qed.

Lemma shorter_ind (P : list Z -> Prop) : (forall s, (forall t, (length t < length s)%nat -> P t) -> P s) -> forall s, P s.
Proof. intros Hs. apply (well_founded_induction (Wf_nat.well_founded_ltof _ (@length Z))). exact Hs. Qed.

Lemma url_line l1 l2 : redact_url_userinfo (l1 ++ 10 :: l2) = redact_url_userinfo l1 ++ 10 :: redact_url_userinfo l2.
Proof.
  induction l1 as [l1 IH] using shorter_ind. pose proof (find_str_line SCHEME_END l1 l2 ltac:(done) eq_refl) as El.
  destruct (find_str SCHEME_END l1) as [[a b]|] eqn:E1; cycle 1.
  { rewrite (url_none l1) by done. destruct (find_str SCHEME_END l2) as [[a b]|] eqn:E2; [|by rewrite !url_none].
    rewrite (url_some _ _ _ El), (url_some _ _ _ E2), <- app_assoc. done. }
  apply find_str_shorter in E1 as Hb; change (length SCHEME_END) with 3%nat in Hb.
  rewrite (url_some _ _ _ El), (url_some _ _ _ E1), take_while_line, drop_while_line by done.
  destruct (split_once 64 _) as [[userinfo x]|] eqn:Es.
  - apply userinfo_fits in Es. rewrite drop_app_le, IH by (rewrite ?length_drop; lia). by rewrite <- !app_assoc.
  - rewrite IH by (pose proof (drop_while_length in_authority b); lia). by rewrite <- !app_assoc.
Qed.

(** The password of an address is not in what is left of it. *)
Lemma url_password before user pw tail :
  first_of SCHEME_END before ->
  forallb in_authority user = true -> contains_char 64 user = false -> contains_char 58 user = false ->
  forallb in_authority pw = true -> contains_char 64 pw = false ->
  redact_url_userinfo (before ++ SCHEME_END ++ user ++ 58 :: pw ++ 64 :: tail) =
  before ++ SCHEME_END ++ user ++ 58 :: REDACTED ++ 64 :: redact_url_userinfo tail.
Proof.
  intros Hb Hu Hu1 Hu2 Hp Hp1. rewrite (url_some _ before (user ++ 58 :: pw ++ 64 :: tail)) by by apply find_str_first.
  set (info := user ++ 58 :: pw).
  assert (Ha : user ++ 58 :: pw ++ 64 :: tail = info ++ 64 :: tail) by (subst info; by rewrite <- app_assoc).
  assert (Hi : forallb in_authority info = true) by (subst info; rewrite forallb_app, Hu; by cbn; rewrite Hp).
  assert (Hat : contains_char 64 info = false) by (subst info; unfold contains_char in *; by rewrite existsb_app, Hu1; cbn; rewrite Hp1).
  rewrite Ha. assert (Ht : take_while in_authority (info ++ 64 :: tail) = info ++ 64 :: take_while in_authority tail).
  { clear Ha Hat. induction info as [|c info IH]; [done|]. cbn in Hi |- *. apply andb_true_iff in Hi as [-> Hi]. by rewrite IH. }
  rewrite Ht, split_once_app by done. replace (length info + 1)%nat with (length (info ++ [64])) by (by rewrite length_app).
  replace (info ++ 64 :: tail) with ((info ++ [64]) ++ tail) by by rewrite <- app_assoc.
  rewrite drop_app_length. unfold shown. subst info. rewrite split_once_app by done. by rewrite <- !app_assoc.
Qed.

(** ** Names and their values *)

Section pairs.
Context `{UnicodeKinds}.

(** The loop from any point of the text on. *)
Definition kv (out rest : list Z) : list Z := default [] (kv_loop (length rest) out rest).

Lemma kv_nil out : kv out [] = out.
Proof. done. Qed.
Lemma kv_cons out ch rest : kv out (ch :: rest) = kv (kv_turn out ch rest).1 (kv_turn out ch rest).2.
Proof.
  unfold kv. cbn [length kv_loop]. pose proof (kv_turn_length out ch rest) as Hl. destruct (kv_turn out ch rest) as [o r]; cbn in *.
  by destruct (kv_ends (length r) o r) as [_ ->].
Qed.

Definition is_separator (c : Z) : bool := (c =? 61) || (c =? 58).
(** A separator with no secret in front of it, or another character. *)
Definition plain_at (out : list Z) (ch : Z) : bool := negb (is_separator ch) || is_empty (key_before out) || negb (is_secret_key (key_before out)).

Lemma kv_turn_plain out ch rest : plain_at out ch = true -> kv_turn out ch rest = (out ++ [ch], rest).
Proof.
  unfold plain_at, is_separator, kv_turn. destruct (ch =? 61), (ch =? 58); cbn [negb orb andb]; try done; by intros ->.
Qed.
Lemma kv_turn_secret out ch rest :
  plain_at out ch = false ->
  kv_turn out ch rest =
    match drop_while is_space_or_tab rest with
    | [] => (out ++ ch :: take_while is_space_or_tab rest, [])
    | c :: r => if (c =? 10) || (c =? 13) then (out ++ ch :: take_while is_space_or_tab rest, c :: r)
                else (out ++ ch :: take_while is_space_or_tab rest ++ REDACTED, skip_value ch (c :: r))
    end.
Proof.
  unfold plain_at, is_separator, kv_turn. intros [[Hs He]%orb_false_iff Hk]%orb_false_iff. rewrite He, Hk.
  destruct (ch =? 61), (ch =? 58); cbn [negb orb andb] in *; try done.
  all: destruct (drop_while _ rest) as [|c r]; [done|]; destruct (_ || _); cbn [app]; by rewrite <- ?app_assoc.
Qed.

Lemma skip_value_line sep c r l2 : skip_value sep (c :: r ++ 10 :: l2) = skip_value sep (c :: r) ++ 10 :: l2.
Proof.
  cbn [skip_value]. destruct (is_quote c) eqn:Eq.
  - rewrite drop_while_line by (by rewrite andb_false_r). destruct (drop_while _ r) as [|x r']; cbn [app]; [|by destruct (x =? c)].
    unfold is_quote in Eq. by destruct (Z.eqb_spec 10 c) as [<-|].
  - change (c :: r ++ 10 :: l2) with ((c :: r) ++ 10 :: l2). destruct (sep =? 58); by rewrite drop_while_line.
Qed.
Lemma kv_turn_line out ch rest l2 :
  kv_turn out ch (rest ++ 10 :: l2) = ((kv_turn out ch rest).1, (kv_turn out ch rest).2 ++ 10 :: l2).
Proof.
  destruct (plain_at out ch) eqn:Ep; [by rewrite !kv_turn_plain|]. rewrite !kv_turn_secret, take_while_line, drop_while_line by done.
  destruct (drop_while is_space_or_tab rest) as [|c r]; [done|]. cbn [app]. destruct (_ || _); cbn [fst snd]; [done|].
  by rewrite skip_value_line.
Qed.

(** No name reaches over a line feed. *)
Lemma newline_is_no_key_char : is_key_char 10 = false.
Proof. unfold is_key_char. by rewrite ascii_alphanumeric. Qed.
Lemma key_before_line o1 o2 : key_before (o1 ++ 10 :: o2) = key_before o2.
Proof.
  unfold key_before. rewrite rev_app_distr; cbn [rev]. rewrite <- app_assoc; cbn [app].
  pose proof newline_is_no_key_char as Hn. destruct (rev o2) as [|c r]; cbn [app].
  - cbn. by rewrite Hn.
  - destruct (_ || _); [|change (c :: r ++ 10 :: rev o1) with ((c :: r) ++ 10 :: rev o1)]; by rewrite take_while_line.
Qed.
Lemma kv_turn_out o1 o2 ch rest : kv_turn (o1 ++ 10 :: o2) ch rest = (o1 ++ 10 :: (kv_turn o2 ch rest).1, (kv_turn o2 ch rest).2).
Proof.
  assert (Hp : plain_at (o1 ++ 10 :: o2) ch = plain_at o2 ch) by (unfold plain_at; by rewrite key_before_line).
  destruct (plain_at o2 ch) eqn:Ep; [by rewrite !kv_turn_plain, <- app_assoc by done|]. rewrite !kv_turn_secret by done.
  destruct (drop_while _ rest) as [|c r]; [|destruct (_ || _)]; cbn [fst snd]; by rewrite <- app_assoc.
Qed.

Lemma kv_out o1 o2 rest : kv (o1 ++ 10 :: o2) rest = o1 ++ 10 :: kv o2 rest.
Proof.
  revert o2; induction rest as [[|ch rest] IH] using shorter_ind; intros o2; [done|].
  rewrite !kv_cons, kv_turn_out; cbn [fst snd]. apply IH. pose proof (kv_turn_length o2 ch rest); cbn; lia.
Qed.
Lemma kv_line out l1 l2 : kv out (l1 ++ 10 :: l2) = kv out l1 ++ 10 :: kv [] l2.
Proof.
  revert out; induction l1 as [[|ch l1] IH] using shorter_ind; intros out; cbn [app].
  - rewrite kv_cons, kv_turn_plain by done. cbn [fst snd]. by rewrite kv_out.
  - rewrite !kv_cons, kv_turn_line; cbn [fst snd]. apply IH. pose proof (kv_turn_length out ch l1); cbn; lia.
Qed.

Lemma sanitize_line l1 l2 :
  find_str PEM_BEGIN l1 = None -> find_str PEM_BEGIN l2 = None ->
  sanitize_text (l1 ++ 10 :: l2) = sanitize_text l1 ++ 10 :: sanitize_text l2.
Proof.
  intros E1 E2. unfold sanitize_text. rewrite !pem_none, url_line by (done || by rewrite find_str_line, E1, E2).
  exact (kv_line [] _ _).
Qed.

(** A text that the loop copies: no separator in it follows the name of a secret. *)
Fixpoint quiet (out prefix : list Z) : bool :=
  match prefix with [] => true | ch :: prefix => plain_at out ch && quiet (out ++ [ch]) prefix end.

Lemma kv_quiet out prefix rest : quiet out prefix = true -> kv out (prefix ++ rest) = kv (out ++ prefix) rest.
Proof.
  revert out; induction prefix as [|ch prefix IH]; intros out; cbn [quiet app]; [by rewrite app_nil_r|].
  intros [Hp Hq]%andb_true_iff. rewrite kv_cons, kv_turn_plain by done. cbn [fst snd]. by rewrite IH, <- app_assoc.
Qed.

(** What the syntax of each separator takes for the value in front of [tail]. *)
Inductive value_before (sep : Z) (tail : list Z) : list Z -> Prop :=
| quoted_value q inner :
    is_quote q = true -> contains_char q inner = false -> contains_char 10 inner = false ->
    value_before sep tail (q :: inner ++ [q])
| rest_of_line c v :
    sep = 58 -> is_quote c = false -> is_space_or_tab c = false ->
    forallb (fun x => negb (x =? 10) && negb (x =? 13)) (c :: v) = true -> (tail = [] \/ exists tail', tail = 13 :: tail') ->
    value_before sep tail (c :: v)
| one_token c v :
    sep = 61 -> is_quote c = false ->
    forallb (fun x => negb (is_whitespace x)) (c :: v) = true -> (tail = [] \/ exists x tail', tail = x :: tail' /\ is_whitespace x = true) ->
    value_before sep tail (c :: v).

Lemma drop_while_all p v tail : forallb p v = true -> (tail = [] \/ exists x t, tail = x :: t /\ p x = false) -> drop_while p (v ++ tail) = tail.
Proof.
  intros Hv Ht. induction v as [|c v IH]; cbn in *.
  - destruct Ht as [->|(x & t & -> & Hx)]; cbn; [done|]. by rewrite Hx.
  - apply andb_true_iff in Hv as [-> Hv]. by apply IH.
Qed.
Lemma is_quote_is q : is_quote q = true -> q = 34 \/ q = 39.
Proof. unfold is_quote. intros [E%Z.eqb_eq|E%Z.eqb_eq]%orb_true_iff; auto. Qed.
Lemma skip_value_before sep tail v :
  value_before sep tail v ->
  exists c r, v ++ tail = c :: r /\ is_space_or_tab c = false /\ (c =? 10) || (c =? 13) = false /\ skip_value sep (c :: r) = tail.
Proof.
  destruct 1 as [q inner Hq Hi Hn|c v -> Hq Hs Hv Ht|c v -> Hq Hv Ht]; eexists _, _; (split; [by rewrite <- app_comm_cons|]).
  - split_and!.
    + by destruct (is_quote_is q Hq) as [-> | ->].
    + by destruct (is_quote_is q Hq) as [-> | ->].
    + cbn [skip_value]. rewrite Hq, <- app_assoc. cbn [app]. rewrite drop_while_app.
      * by rewrite Z.eqb_refl.
      * unfold contains_char in *. apply forallb_forall. intros x Hx. apply andb_true_iff. rewrite !negb_true_iff, (Z.eqb_sym x q), (Z.eqb_sym x 10).
        split; apply not_true_iff_false; intros Hb; (eapply not_true_iff_false; [|apply existsb_exists; eauto]); done.
      * by rewrite Z.eqb_refl.
  - split; [done|]. cbn in Hv. apply andb_true_iff in Hv as Hv'. destruct Hv' as [Hc _]. split.
    { by destruct (c =? 10), (c =? 13). }
    cbn [skip_value]. rewrite Hq. cbn [Z.eqb Pos.eqb]. apply (drop_while_all _ (c :: v)); [done|].
    destruct Ht as [->|[t ->]]; [by left|right; by exists 13, t].
  - cbn in Hv. apply andb_true_iff in Hv as Hv'. destruct Hv' as [Hc _]. split_and!.
    + unfold is_space_or_tab. destruct (Z.eqb_spec c 32) as [->|]; [done|]. by destruct (Z.eqb_spec c 9) as [->|].
    + destruct (Z.eqb_spec c 10) as [->|]; [done|]. by destruct (Z.eqb_spec c 13) as [->|].
    + cbn [skip_value]. rewrite Hq. cbn [Z.eqb Pos.eqb]. apply (drop_while_all _ (c :: v)); [done|].
      destruct Ht as [->|(x & t & -> & Hx)]; [by left|right; exists x, t]. by rewrite Hx.
Qed.

(** The value of a secret name is not in what is left of its line. *)
Lemma kv_value prefix sep gap v tail :
  quiet [] prefix = true -> plain_at prefix sep = false -> forallb is_space_or_tab gap = true -> value_before sep tail v ->
  kv [] (prefix ++ sep :: gap ++ v ++ tail) = kv (prefix ++ sep :: gap ++ REDACTED) tail.
Proof.
  intros Hq Hp Hg (c & r & Er & Hc & Hn & Hs)%skip_value_before. rewrite kv_quiet, kv_cons, kv_turn_secret, Er by done.
  rewrite drop_while_app, take_while_app by done. rewrite Hn. cbn [fst snd app]. by rewrite Hs.
Qed.

(** Two lines that differ in a secret only. *)
Inductive same_line : list Z -> list Z -> Prop :=
| same_all l : same_line l l
| same_pair prefix sep gap v1 v2 tail :
    quiet [] prefix = true -> plain_at prefix sep = false -> forallb is_space_or_tab gap = true ->
    value_before sep tail v1 -> value_before sep tail v2 ->
    find_str SCHEME_END (prefix ++ sep :: gap ++ v1 ++ tail) = None -> find_str SCHEME_END (prefix ++ sep :: gap ++ v2 ++ tail) = None ->
    same_line (prefix ++ sep :: gap ++ v1 ++ tail) (prefix ++ sep :: gap ++ v2 ++ tail)
| same_address before user pw1 pw2 tail :
    first_of SCHEME_END before ->
    forallb in_authority user = true -> contains_char 64 user = false -> contains_char 58 user = false ->
    forallb in_authority pw1 = true -> contains_char 64 pw1 = false -> forallb in_authority pw2 = true -> contains_char 64 pw2 = false ->
    same_line (before ++ SCHEME_END ++ user ++ 58 :: pw1 ++ 64 :: tail) (before ++ SCHEME_END ++ user ++ 58 :: pw2 ++ 64 :: tail).

(** Two texts that differ in their secrets only: line by line, or in a private
    key, whole or cut off. *)
Inductive same_text : list Z -> list Z -> Prop :=
| same_lines ls1 ls2 :
    Forall2 same_line ls1 ls2 -> Forall (fun l => find_str PEM_BEGIN l = None) ls1 -> Forall (fun l => find_str PEM_BEGIN l = None) ls2 ->
    same_text (join [10] ls1) (join [10] ls2)
| same_key before body1 body2 label after :
    first_of PEM_BEGIN before -> first_of PEM_END body1 -> first_of PEM_END body2 -> first_of (lit "-----") label ->
    same_text (before ++ PEM_BEGIN ++ body1 ++ PEM_END ++ label ++ lit "-----" ++ after) (before ++ PEM_BEGIN ++ body2 ++ PEM_END ++ label ++ lit "-----" ++ after)
| same_cut_key before body1 body2 :
    first_of PEM_BEGIN before -> find_str PEM_END body1 = None -> find_str PEM_END body2 = None ->
    same_text (before ++ PEM_BEGIN ++ body1) (before ++ PEM_BEGIN ++ body2).

Lemma same_line_sanitized l1 l2 :
  same_line l1 l2 -> redact_key_value_pairs (redact_url_userinfo l1) = redact_key_value_pairs (redact_url_userinfo l2).
Proof.
  destruct 1 as [l|prefix sep gap v1 v2 tail Hq Hp Hg H1 H2 E1 E2|before user pw1 pw2 tail Hb Hu Hu1 Hu2 H1 H1' H2 H2']; [done| |].
  - rewrite !url_none by done. change redact_key_value_pairs with (kv []). by rewrite !kv_value.
  - by rewrite !url_password.
Qed.

Lemma sanitize_lines ls :
  Forall (fun l => find_str PEM_BEGIN l = None) ls ->
  sanitize_text (join [10] ls) = join [10] (map (fun l => redact_key_value_pairs (redact_url_userinfo l)) ls) /\ find_str PEM_BEGIN (join [10] ls) = None.
Proof.
  induction 1 as [|l ls Hl Hls IH]; [done|]. destruct ls as [|l' ls].
  - cbn [join map]. split; [|done]. unfold sanitize_text. by rewrite pem_none.
  - destruct IH as [IH1 IH2]. change (join [10] (l :: l' :: ls)) with (l ++ 10 :: join [10] (l' :: ls)).
    rewrite sanitize_line, IH1 by done. split.
    + unfold sanitize_text. by rewrite pem_none.
    + by rewrite find_str_line, Hl, IH2.
Qed.

Lemma same_text_sanitized t1 t2 : same_text t1 t2 -> sanitize_text t1 = sanitize_text t2.
Proof.
  destruct 1 as [ls1 ls2 Hs H1 H2|before body1 body2 label after Hb H1 H2 Hl|before body1 body2 Hb H1 H2].
  - rewrite (proj1 (sanitize_lines ls1 H1)), (proj1 (sanitize_lines ls2 H2)). clear H1 H2. f_equal.
    induction Hs as [|l1 l2 ls1 ls2 Hl Hs IH]; [done|]. cbn [map]. f_equal; [by apply same_line_sanitized|done].
  - unfold sanitize_text. by rewrite !pem_block.
  - unfold sanitize_text. by rewrite !pem_cut.
Qed.


(** ** JSON and environments *)

(** Two values that differ in their secrets only: what an object has under a
    secret name, what an array has after a secret flag, and the secrets in the strings. *)
Inductive same_value : Value -> Value -> Prop :=
| same_null : same_value Null Null
| same_boolean b : same_value (Boolean b) (Boolean b)
| same_num n : same_value (Num n) (Num n)
| same_string t1 t2 : same_text t1 t2 -> same_value (Text_ t1) (Text_ t2)
| same_array items1 items2 : same_items false items1 items2 -> same_value (Array items1) (Array items2)
| same_object fields1 fields2 : same_fields fields1 fields2 -> same_value (Object fields1) (Object fields2)
with same_items : bool -> list Value -> list Value -> Prop :=
| same_no_items redact_next : same_items redact_next [] []
| same_redacted item1 item2 items1 items2 : same_items false items1 items2 -> same_items true (item1 :: items1) (item2 :: items2)
| same_item item1 item2 items1 items2 :
    same_value item1 item2 -> arms_next item1 = arms_next item2 -> same_items (arms_next item1) items1 items2 ->
    same_items false (item1 :: items1) (item2 :: items2)
with same_fields : list (list Z * Value) -> list (list Z * Value) -> Prop :=
| same_no_fields : same_fields [] []
| same_secret_field key child1 child2 fields1 fields2 :
    is_secret_key key = true -> same_fields fields1 fields2 -> same_fields ((key, child1) :: fields1) ((key, child2) :: fields2)
| same_field key child1 child2 fields1 fields2 :
    same_value child1 child2 -> same_fields fields1 fields2 -> same_fields ((key, child1) :: fields1) ((key, child2) :: fields2).

Scheme same_value_mut := Minimality for same_value Sort Prop
with same_items_mut := Minimality for same_items Sort Prop
with same_fields_mut := Minimality for same_fields Sort Prop.

(** The two loops of [sanitize_json]. *)
Fixpoint json_items (redact_next : bool) (items : list Value) : list Value :=
  match items with
  | [] => []
  | item :: items => if redact_next then Text_ REDACTED :: json_items false items else sanitize_json item :: json_items (arms_next item) items
  end.
Fixpoint json_fields (fields : list (list Z * Value)) : list (list Z * Value) :=
  match fields with
  | [] => []
  | (key, child) :: fields => (key, if is_secret_key key then Text_ REDACTED else sanitize_json child) :: json_fields fields
  end.
Lemma sanitize_array items : sanitize_json (Array items) = Array (json_items false items).
Proof. reflexivity. Qed.
Lemma sanitize_object fields : sanitize_json (Object fields) = Object (json_fields fields).
Proof. reflexivity. Qed.

Lemma same_value_sanitized v1 v2 : same_value v1 v2 -> sanitize_json v1 = sanitize_json v2.
Proof.
  revert v1 v2. apply (same_value_mut
    (fun v1 v2 => sanitize_json v1 = sanitize_json v2)
    (fun r items1 items2 => json_items r items1 = json_items r items2)
    (fun fields1 fields2 => json_fields fields1 = json_fields fields2)); try done.
  - intros t1 t2 Ht. cbn [sanitize_json]. by rewrite (same_text_sanitized _ _ Ht).
  - intros items1 items2 _ IH. by rewrite !sanitize_array, IH.
  - intros fields1 fields2 _ IH. by rewrite !sanitize_object, IH.
  - intros item1 item2 items1 items2 _ IH. cbn [json_items]. by rewrite IH.
  - intros item1 item2 items1 items2 _ IHv Ha _ IH. cbn [json_items]. by rewrite IHv, <- Ha, IH.
  - intros key child1 child2 fields1 fields2 Hk _ IH. cbn [json_fields]. by rewrite Hk, IH.
  - intros key child1 child2 fields1 fields2 _ IHv _ IH. cbn [json_fields]. by rewrite IHv, IH.
Qed.

Definition same_variable (a b : list Z * list Z * bool) : Prop :=
  a.1.1 = b.1.1 /\ a.2 = b.2 /\ (a.2 || is_secret_key a.1.1 = true \/ same_text a.1.2 b.1.2).

(** no secret leaves through a structure.  Two JSON values that differ only
    under the names that read as secrets, whatever is stored there, in the
    array elements after a secret flag, and in the secrets of their strings,
    are sanitized to the same value; and so are two environments that differ
    only in the variables that are secret by their flag or their name. *)
Theorem secrets_leave_the_json v1 v2 vars1 vars2 :
  same_value v1 v2 -> Forall2 same_variable vars1 vars2 ->
  sanitize_json v1 = sanitize_json v2 /\ sanitize_environment vars1 = sanitize_environment vars2.
Proof.
  intros Hv Hs. split; [by apply same_value_sanitized|]. induction Hs as [|[[k1 t1] f1] [[k2 t2] f2] vars1 vars2 (Hk & Hf & Hd) _ IH]; [done|].
  cbn in Hk, Hf, Hd; subst k2 f2. cbn [sanitize_environment map]. f_equal; [|exact IH].
  destruct Hd as [-> |Ht]; [done|]. by rewrite (same_text_sanitized _ _ Ht).
Qed.
End pairs.

#[local] Existing Instance ascii_kinds.


Lemma secrets_leave_the_json_witness :
  let v1 := Object [(lit "dbPassword", Object [(lit "value", Text_ (lit "a"))]); (lit "args", Array [Text_ (lit "--requirepass"); Text_ (lit "a"); Num (lit "1")])] in
  let v2 := Object [(lit "dbPassword", Null); (lit "args", Array [Text_ (lit "--requirepass"); Text_ (lit "b"); Num (lit "1")])] in
  let vars1 := [(lit "PORT", lit "80", false); (lit "API_KEY", lit "a", false)] in
  let vars2 := [(lit "PORT", lit "80", false); (lit "API_KEY", lit "b", false)] in
  sanitize_json v1 = sanitize_json v2 /\ sanitize_environment vars1 = sanitize_environment vars2.
Proof.
  intros v1 v2 vars1 vars2. refine (secrets_leave_the_json v1 v2 vars1 vars2 _ _).
  - apply same_object, same_secret_field; [by vm_compute|]. apply same_field; [|apply same_no_fields].
    apply same_array, same_item; [|done|].
    + apply same_string. change (same_text (join [10] [lit "--requirepass"]) (join [10] [lit "--requirepass"])). apply same_lines; repeat constructor.
    + change (arms_next _) with true. apply same_redacted, same_item; [apply same_num|done|apply same_no_items].
  - apply Forall2_cons_2; [|apply Forall2_cons_2; [|apply Forall2_nil_2]].
    + split_and!; [reflexivity..|]. right. change (same_text (join [10] [lit "80"]) (join [10] [lit "80"])). apply same_lines; repeat constructor.
    + split_and!; [reflexivity..|]. left. vm_compute. reflexivity.
Defined.

(** A password that has an at sign in it is cut at the first one: its tail stays in what is sent. *)
Example password_with_an_at_sign_leaks :
  sanitize_text (lit "postgres://app:p@ss@db/x") = lit "postgres://app:***@ss@db/x".
Proof. by vm_compute. Qed.
(** A password that has a slash in it is not seen as one. *)
Example password_with_a_slash_leaks :
  sanitize_text (lit "postgres://app:p/ss@db/x") = lit "postgres://app:p/ss@db/x".
Proof. by vm_compute. Qed.
(** An escaped quote ends a quoted value: what follows it stays in what is sent. *)
Example escaped_quote_leaks :
  sanitize_text ([34] ++ lit "password" ++ [34; 58; 34] ++ lit "a\" ++ [34] ++ lit "bcd" ++ [34]) = [34] ++ lit "password" ++ [34; 58] ++ lit "***bcd" ++ [34].
Proof. by vm_compute. Qed.
