(* ===== verification/Schedules.v ===== *)
(** * Schedules: power actions the Node carries out by itself

    [services/schedule_service.rs], its model ([models/application_schedule.rs])
    and its table ([storage/application_schedule_repository.rs]): the check of a
    cron expression, the file written to [/etc/cron.d], the operations that keep
    the table and the file together, the disk limit, and the script cron runs on
    the Node ([RUNNER_SCRIPT]), read as the program it is.

    Parsing a [Uuid] and the range of a timestamp belong to other crates: the
    class [NodeText].  The Nodes are the class [NodeSessions]. *)

From S2P Require Import Prelude Text Shell Sandbox Validators Ufw Firewall Sudoers MemberAccount Mesh Docker Desktop Cron AppLinks.

#[local] Open Scope Z_scope.
#[local] Open Scope desk_scope.
#[local] Open Scope vibe_scope.

(** ** Data *)

Inductive ScheduleAction : Type := Start | Stop | Restart.
#[global] Instance schedule_action_eq : EqDecision ScheduleAction.
Proof. solve_decision. Defined.

Definition action_str (action : ScheduleAction) : list Z := match action with Start => lit "start" | Stop => lit "stop" | Restart => lit "restart" end.

(** [ScheduleAction::parse]; the error names what was stored. *)
Definition parse_action (value : list Z) : result AppError ScheduleAction :=
  if str_eqb value (lit "start") then Ok Start else if str_eqb value (lit "stop") then Ok Stop else if str_eqb value (lit "restart") then Ok Restart
  else Err (Storage (lit "unknown schedule action '" ++ value ++ lit "'")).

Record ApplicationSchedule : Type := mkSchedule {
  as_id : N; as_application_id : N; as_name : list Z; as_cron : list Z; as_action : ScheduleAction; as_enabled : bool; as_created_at : Z;
}.
#[global] Instance application_schedule_eq : EqDecision ApplicationSchedule.
Proof. solve_decision. Defined.

Record ScheduleInput : Type := mkScheduleInput { si_name : list Z; si_cron : list Z; si_action : ScheduleAction; si_enabled : bool }.

Record ScheduleRun : Type := mkScheduleRun { sr_schedule_id : N; sr_ran_at : Z; sr_action : list Z; sr_exit_code : Z; sr_message : list Z }.

Record NodeTimeZone : Type := mkTimeZone { tz_name : option (list Z); tz_offset_minutes : Z }.

Record DiskUsage : Type := mkDiskUsage { du_checked_at : Z; du_used_bytes : Z; du_limit_bytes : Z; du_stopped : bool }.

Record ApplicationSchedules : Type := mkSchedules {
  ss_schedules : list ApplicationSchedule; ss_last_runs : list ScheduleRun; ss_time_zone : option NodeTimeZone; ss_node_error : option AppError;
}.

Record DiskCheck : Type := mkDiskCheck { dk_limit_bytes : Z; dk_directory : list Z }.

(** ** The check of an expression *)

Definition FIELDS : list (list Z * Z * Z) :=
  [(lit "minute", 0, 59); (lit "hour", 0, 23); (lit "day of month", 1, 31); (lit "month", 1, 12); (lit "day of week", 0, 7)].

(** The closure [number]. *)
Definition cron_number (min max : Z) (text : list Z) : option Z :=
  if is_empty text || negb (forallb is_ascii_digit text) then None
  else match parse_u32 text with Some value => if (value <? min) || (max <? value) then None else Some value | None => None end.

(** One turn of the loop; every refusal is the same error. *)
Definition validate_item (min max : Z) (item : list Z) : bool :=
  let '(range, step) := match split_once 47 item with Some (range, step) => (range, Some step) | None => (item, None) end in
  let step_ok := match step with
                 | Some step => match parse_u32 step with Some step => negb ((step =? 0) || (max <? step)) | None => false end
                 | None => true
                 end in
  step_ok &&
  (str_eqb range (lit "*") ||
   match split_once 45 range with
   | Some (from, to) => match cron_number min max from, cron_number min max to with Some from, Some to => negb (to <? from) | _, _ => false end
   | None => bool_decide (is_Some (cron_number min max range))
   end).

Definition validate_field (field what : list Z) (min max : Z) : AppResult unit :=
  if forallb (validate_item min max) (split_on (Z.eqb 44) field) then Ok tt
  else Err (mkInvalid field (Other (lit "isn't a valid " ++ what ++ lit " - use numbers from " ++ to_dec min ++ lit " to " ++ to_dec max
                                    ++ lit ", '*', ranges like 1-5, lists like 1,15 and steps like */2"))).

Fixpoint validate_fields (fields : list (list Z)) (specs : list (list Z * Z * Z)) : AppResult unit :=
  match fields, specs with
  | field :: fields, (what, min, max) :: specs => let? _ := validate_field field what min max in validate_fields fields specs
  | _, _ => Ok tt
  end.

Definition validate_cron (expression : list Z) : AppResult (list Z) :=
  let fields := split_whitespace expression in
  if negb (Nat.eqb (length fields) 5) then
    Err (mkInvalid expression (Other (lit "a schedule needs five fields - minute, hour, day of month, month, day of week - and this has " ++ to_dec (Z.of_nat (length fields)))))
  else let? _ := validate_fields fields FIELDS in Ok (join [32] fields).

Definition validate_input (input : ScheduleInput) : AppResult ScheduleInput :=
  let name := trim input.(si_name) in
  if is_empty name then Err (invalid (lit "give the schedule a name"))
  else if 80 <? chars_count name then Err (invalid (lit "a schedule name can be at most 80 characters"))
  else let? cron := validate_cron input.(si_cron) in Ok (mkScheduleInput name cron input.(si_action) input.(si_enabled)).

(** ** The file *)

Definition RUNNER_PATH : list Z := lit "/usr/local/lib/vibessh/schedule-runner".
Definition cron_file_path (application_id : N) : list Z := lit "/etc/cron.d/vibessh-app-" ++ uuid_text application_id.
Definition state_dir (application_id : N) : list Z := lit "/var/lib/vibessh/schedules/" ++ uuid_text application_id.
Definition DISK_CHECK_EVERY : list Z := lit "*/5 * * * *".

(** The line of one enabled schedule, and of the disk check. *)
Definition schedule_line (application_id : N) (schedule : ApplicationSchedule) : list Z :=
  schedule.(as_cron) ++ lit " root " ++ RUNNER_PATH ++ lit " run " ++ uuid_text application_id ++ lit " " ++ uuid_text schedule.(as_id) ++ lit " "
  ++ action_str schedule.(as_action) ++ [10].
Definition disk_line (application_id : N) (disk : DiskCheck) : list Z :=
  DISK_CHECK_EVERY ++ lit " root " ++ RUNNER_PATH ++ lit " diskcheck " ++ uuid_text application_id ++ lit " " ++ to_dec disk.(dk_limit_bytes) ++ lit " "
  ++ disk.(dk_directory) ++ [10].

Definition build_cron_file (application_id : N) (schedules : list ApplicationSchedule) (disk : option DiskCheck) : list Z :=
  lit "# Managed by VibeSSH for Application " ++ uuid_text application_id ++ lit ". Edits here are overwritten." ++ [10]
  ++ lit "SHELL=/bin/sh" ++ [10]
  ++ lit "PATH=/usr/local/sbin:/usr/local/bin:/usr/sbin:/usr/bin:/sbin:/bin" ++ [10]
  ++ (List.filter as_enabled schedules ≫= schedule_line application_id)
  ++ match disk with Some disk => disk_line application_id disk | None => [] end.

Definition cron_directory_char (c : Z) : bool := is_ascii_alphanumeric c || (c =? 47) || (c =? 46) || (c =? 95) || (c =? 45).

Definition cron_safe_directory (directory : list Z) : AppResult (list Z) :=
  if starts_with_char 47 directory && negb (contains_str (lit "..") directory) && forallb cron_directory_char directory then Ok directory
  else Err (mkInvalid directory (Other (lit "a disk limit needs a working directory made of letters, digits and / . _ - only"))).

(** ** What the Node reports *)

Class NodeText : Type := {
  uuid_parse : list Z -> option N;
  uuid_parse_text : forall id, N.lt id (2 ^ 128)%N -> uuid_parse (uuid_text id) = Some id;
  timestamp_in_range : Z -> bool;
  timestamp_in_range_near : forall t, 0 <= t < 253402300800 -> timestamp_in_range t = true;
}.

(** [splitn]: at most [n] pieces. *)
Fixpoint splitn (n : nat) (c : Z) (s : list Z) : list (list Z) :=
  match n with
  | O => []
  | S O => [s]
  | S n => match split_once c s with Some (a, b) => a :: splitn n c b | None => [s] end
  end.

Section answers.
Context `{NodeText}.

Definition timestamp_opt (seconds : option Z) : option Z := match seconds with Some t => if timestamp_in_range t then Some t else None | None => None end.

Definition parse_status_line (line : list Z) : option ScheduleRun :=
  match splitn 5 9 line with
  | id :: at_ :: action :: code :: rest =>
      match uuid_parse id, timestamp_opt (parse_i64 (trim at_)), parse_i32 (trim code) with
      | Some schedule_id, Some ran_at, Some exit_code => Some (mkScheduleRun schedule_id ran_at action exit_code (trim (match rest with message :: _ => message | [] => [] end)))
      | _, _, _ => None
      end
  | _ => None
  end.

Definition parse_disk_line (line : list Z) : option DiskUsage :=
  match split_on (Z.eqb 9) (trim line) with
  | at_ :: used :: limit :: stopped :: _ =>
      match timestamp_opt (parse_i64 at_), parse_u64 used, parse_u64 limit with
      | Some checked_at, Some used_bytes, Some limit_bytes => Some (mkDiskUsage checked_at used_bytes limit_bytes (str_eqb stopped (lit "1")))
      | _, _, _ => None
      end
  | _ => None
  end.
End answers.

(** The first character is one byte where it is a sign, so the slices are whole. *)
Definition parse_offset (text : list Z) : option Z :=
  let text := trim text in
  let read sign digits :=
    if negb (byte_len digits =? 4) || negb (forallb is_ascii_digit digits) then None
    else match parse_i32 (take 2 digits), parse_i32 (drop 2 digits) with Some hours, Some minutes => Some (sign * (hours * 60 + minutes)) | _, _ => None end in
  match text with
  | 43 :: digits => read 1 digits
  | 45 :: digits => read (-1) digits
  | _ => None
  end.

(** ** The script cron runs on the Node *)

(** The Node as the script sees it.  [node_docker] answers with the exit status,
    the standard output, and both outputs together; [node_du_bytes] is the first
    column of [du -sb] and [node_du_blocks] that of [du -sk], [None] when it is
    no number, which ends the script; [node_saves]: the record can be written. *)
Class RunnerHost (Host : Type) : Type := {
  node_docker : list (list Z) -> Host -> (Z * list Z * list Z) * Host;
  node_docker_status : forall args host, 0 <= (node_docker args host).1.1.1 <= 255;
  node_clock : Host -> Z;
  node_is_dir : list Z -> Host -> bool;
  node_du_bytes : list Z -> Host -> list Z;
  node_du_blocks : list Z -> Host -> option Z;
  node_is_pipe : list Z -> Host -> bool;
  node_attach : list Z -> list Z -> Host -> Host;
  node_saves : Host -> bool;
}.

(** The files under [STATE_ROOT], by application and name. *)
Record RunnerState (Host : Type) : Type := mkRunner { rs_host : Host; rs_files : gmap (list Z * list Z) (list Z) }.
Arguments mkRunner {Host} _ _.
Arguments rs_host {Host} _.
Arguments rs_files {Host} _.

Definition is_id (s : list Z) : bool :=
  negb (is_empty s) && forallb (fun c => is_ascii_digit c || in_range 97 102 c || (c =? 45)) s && (chars_count s =? 36).
Definition is_number (s : list Z) : bool := negb (is_empty s) && forallb is_ascii_digit s.
Definition is_directory (s : list Z) : bool := starts_with_char 47 s && forallb cron_directory_char s && negb (contains_str (lit "..") s).

(** [$(...)] drops the line feeds at the end. *)
Definition substituted (output : list Z) : list Z := trim_end_matches (Z.eqb 10) output.

(** [tr '\n\t' '  ' | cut -c1-300]. *)
Definition run_message (output : list Z) : list Z := substituted (take 300 (map (fun c => if (c =? 10) || (c =? 9) then 32 else c) output)).

(** The shell's [-gt], on numbers below 2^63. *)
Definition greater_than (a b : list Z) : bool :=
  match parse_digits 0 a, parse_digits 0 b with Some a, Some b => (a <? 9223372036854775808) && (b <? 9223372036854775808) && (b <? a) | _, _ => false end.

(** [head -n 1]. *)
Definition head_line (s : list Z) : list Z := match split_once 10 s with Some (line, _) => line ++ [10] | None => s end.

Definition GRACE : list Z := lit "120".
Definition tabbed (parts : list (list Z)) : list Z := join [9] parts ++ [10].

Section runner.
Context {Host : Type} `{RunnerHost Host}.
Implicit Types s : RunnerState Host.

Definition save (app file line : list Z) s : RunnerState Host :=
  mkRunner s.(rs_host) (if node_saves s.(rs_host) then <[(app, file) := line]> s.(rs_files) else s.(rs_files)).

Definition runner_diskcheck (app limit dir : list Z) s : Z * RunnerState Host :=
  if negb (is_id app && is_number limit && is_directory dir) then (64, s)
  else if negb (node_is_dir dir s.(rs_host)) then (0, s)
  else
    let used := node_du_bytes dir s.(rs_host) in
    match (if is_number used then Some used else (fun k => to_dec (k * 1024)) <$> node_du_blocks dir s.(rs_host)) with
    | None => (2, s)
    | Some used =>
        let name := lit "vibessh-app-" ++ app in
        let '(stopped, host) :=
          if greater_than used limit then
            let '((_, out, _), host) := node_docker [lit "inspect"; lit "-f"; lit "{{.State.Running}}"; name] s.(rs_host) in
            if str_eqb (substituted out) (lit "true") then
              let '((code, _, _), host) := node_docker [lit "stop"; lit "-t"; GRACE; name] host in (code =? 0, host)
            else (false, host)
          else (false, s.(rs_host)) in
        (0, save app (lit "disk") (tabbed [to_dec (node_clock host); used; limit; if stopped then lit "1" else lit "0"]) (mkRunner host s.(rs_files)))
    end.

Definition runner_run (app schedule action : list Z) s : Z * RunnerState Host :=
  if negb (is_id app && is_id schedule) then (64, s)
  else
    let name := lit "vibessh-app-" ++ app in
    let started := node_clock s.(rs_host) in
    let args := if str_eqb action (lit "start") then Some [lit "start"; name]
                else if str_eqb action (lit "stop") then Some [lit "stop"; lit "-t"; GRACE; name]
                else if str_eqb action (lit "restart") then Some [lit "restart"; lit "-t"; GRACE; name]
                else None in
    match args with
    | None => (64, s)
    | Some args =>
        let '((code, _, output), host) := node_docker args s.(rs_host) in
        let fifo := CONSOLE_DIR ++ lit "/" ++ app ++ lit ".stdin" in
        let host := if (code =? 0) && negb (str_eqb action (lit "stop")) && node_is_pipe fifo host then node_attach fifo name host else host in
        (code, save app schedule (tabbed [to_dec started; action; show_int code; run_message (substituted output)]) (mkRunner host s.(rs_files)))
    end.

(** The lines of [status]: the files whose names are ids, in the order of the names. *)
Definition runner_status (app : list Z) s : list Z :=
  map_to_list s.(rs_files) ≫= fun '((owner, file), line) => if str_eqb owner app && is_id file then file ++ [9] ++ head_line line else [].

(** The script: exit status, standard output, and what it leaves. *)
Definition schedule_runner (args : list (list Z)) s : Z * list Z * RunnerState Host :=
  let arg k := default [] (args !! k) in
  if str_eqb (arg 0%nat) (lit "diskcheck") then let '(code, s) := runner_diskcheck (arg 1%nat) (arg 2%nat) (arg 3%nat) s in (code, [], s)
  else if str_eqb (arg 0%nat) (lit "disk") then
    if is_id (arg 1%nat) then (0, default [] (head_line <$> s.(rs_files) !! (arg 1%nat, lit "disk")), s) else (64, [], s)
  else if str_eqb (arg 0%nat) (lit "status") then if is_id (arg 1%nat) then (0, runner_status (arg 1%nat) s, s) else (64, [], s)
  else if str_eqb (arg 0%nat) (lit "run") then let '(code, s) := runner_run (arg 1%nat) (arg 2%nat) (arg 3%nat) s in (code, [], s)
  else (64, [], s).
End runner.

(** ** The store *)

(** A value of [runtime_config]: an integer, or anything else. *)
Inductive ConfigValue : Type := Number (n : Z) | OtherValue (id : N).
#[global] Instance config_value_eq : EqDecision ConfigValue.
Proof. solve_decision. Defined.

(** [ar_runtime_config] is [None] when it is no JSON object. *)
Record ApplicationRow : Type := mkApplicationRow {
  ar_runtime_type : RuntimeType; ar_server_id : option N; ar_working_directory : list Z; ar_runtime_config : option (gmap string ConfigValue);
}.

Record Rows : Type := mkRows { rw_schedules : gmap N ApplicationSchedule; rw_applications : gmap N ApplicationRow; rw_servers : gmap N ConnectionMode }.

Definition set_schedules (rows : Rows) (schedules : gmap N ApplicationSchedule) : Rows := mkRows schedules rows.(rw_applications) rows.(rw_servers).
Definition set_applications (rows : Rows) (applications : gmap N ApplicationRow) : Rows := mkRows rows.(rw_schedules) applications rows.(rw_servers).

Definition earlier (a b : ApplicationSchedule) : Prop := a.(as_created_at) <= b.(as_created_at).
#[global] Instance earlier_dec : RelDecision earlier.
Proof. intros a b. unfold Decision, earlier. apply Z_le_dec. Defined.

(** The rows of one application, ORDER BY created_at. *)
Definition schedules_of (rows : Rows) (application_id : N) : list ApplicationSchedule :=
  merge_sort earlier (List.filter (fun schedule => N.eqb schedule.(as_application_id) application_id) (map snd (map_to_list rows.(rw_schedules)))).

(** ** The services *)

(** The sessions of the Nodes, by server, and the clock of this machine. *)
Class NodeSessions (World : Type) : Type := {
  ns_execute : N -> list Z -> World -> result (list Z) CommandOutput * World;
  ns_execute_with_input : N -> list Z -> list Z -> World -> result (list Z) CommandOutput * World;
  ns_write_file : N -> list Z -> list Z -> World -> result (list Z) unit * World;
  ns_now : World -> Z * World;
}.

Section services.
Context {World : Type} `{Desk World} `{NodeSessions World} `{NodeText}.
(** The text of [RUNNER_SCRIPT], of which only equality with the Node's copy matters here. *)
Context (RUNNER_SCRIPT : list Z).
Implicit Types rows : Rows.

Definition transported {A} (f : World -> result (list Z) A * World) : D Rows World A :=
  on_host (ask (fun w => let '(r, w) := f w in (match r with Ok a => Ok a | Err m => Err (Transport m) end, w))).
Definition run_on (server : N) (command : list Z) : D Rows World CommandOutput := transported (ns_execute server command).
Definition run_input_on (server : N) (command input : list Z) : D Rows World CommandOutput := transported (ns_execute_with_input server command input).
Definition put_on (server : N) (path bytes : list Z) : D Rows World unit := transported (ns_write_file server path bytes).
Definition dlift {A} (r : AppResult A) : D Rows World A := match r with Ok a => dret a | Err e => dthrow (InvalidInput e) end.
Definition dattempt {A} (m : D Rows World A) : D Rows World (result AppError A) := fun s => let '(r, s) := m s in (Ok r, s).
Definition new_v4 : D Rows World N := fun s => (Ok s.(ds_fw).(fw_uuid), mkDesk s.(ds_store) (mkFw s.(ds_fw).(fw_node) s.(ds_fw).(fw_verified) (s.(ds_fw).(fw_uuid) + 1))).
Definition now : D Rows World Z := on_host (ask (fun w => let '(t, w) := ns_now w in (Ok t, w))).

(** A statement that the schema may refuse. *)
Definition checked (message : string) (f : Rows -> result AppError Rows) : D Rows World unit :=
  r <- statement message (fun rows => match f rows with Ok rows' => (Ok tt, rows') | Err e => (Err e, rows) end) ;;
  match r with Ok _ => dret tt | Err e => dthrow e end.

(** *** [ApplicationScheduleRepository] *)

Definition schedule_list (application_id : N) : D Rows World (list ApplicationSchedule) :=
  statement "failed to list schedules: " (fun rows => (schedules_of rows application_id, rows)).

Definition schedule_get (id : N) : D Rows World (option ApplicationSchedule) :=
  statement "failed to read the schedule: " (fun rows => (rows.(rw_schedules) !! id, rows)).

(** The primary key and the foreign key. *)
Definition insert_schedule (schedule : ApplicationSchedule) rows : result AppError Rows :=
  if bool_decide (is_Some (rows.(rw_schedules) !! schedule.(as_id))) then Err (Storage (lit "failed to save the schedule: UNIQUE constraint failed: application_schedules.id"))
  else if bool_decide (rows.(rw_applications) !! schedule.(as_application_id) = None) then Err (Storage (lit "failed to save the schedule: FOREIGN KEY constraint failed"))
  else Ok (set_schedules rows (<[schedule.(as_id) := schedule]> rows.(rw_schedules))).

Definition schedule_insert (schedule : ApplicationSchedule) : D Rows World unit := checked "failed to save the schedule: " (insert_schedule schedule).

Definition schedule_create (application_id : N) (input : ScheduleInput) : D Rows World ApplicationSchedule :=
  id <- new_v4 ;;
  created_at <- now ;;
  let schedule := mkSchedule id application_id input.(si_name) input.(si_cron) input.(si_action) input.(si_enabled) created_at in
  schedule_insert schedule ;;;
  dret schedule.

Definition with_input (schedule : ApplicationSchedule) (input : ScheduleInput) : ApplicationSchedule :=
  mkSchedule schedule.(as_id) schedule.(as_application_id) input.(si_name) input.(si_cron) input.(si_action) input.(si_enabled) schedule.(as_created_at).

Definition schedule_update (id : N) (input : ScheduleInput) : D Rows World unit :=
  checked "failed to update the schedule: " (fun rows =>
    match rows.(rw_schedules) !! id with
    | Some schedule => Ok (set_schedules rows (<[id := with_input schedule input]> rows.(rw_schedules)))
    | None => Err NotFound
    end).

Definition schedule_delete (id : N) : D Rows World unit :=
  statement "failed to delete the schedule: " (fun rows => (tt, set_schedules rows (delete id rows.(rw_schedules)))).

Definition reassigned (from to : N) (schedule : ApplicationSchedule) : ApplicationSchedule :=
  if N.eqb schedule.(as_application_id) from
  then mkSchedule schedule.(as_id) to schedule.(as_name) schedule.(as_cron) schedule.(as_action) schedule.(as_enabled) schedule.(as_created_at) else schedule.

Definition schedule_reassign (from to : N) : D Rows World Z :=
  moved <- statement "failed to move the schedules: " (fun rows =>
    let moved := Z.of_nat (length (schedules_of rows from)) in
    if (0 <? moved) && bool_decide (rows.(rw_applications) !! to = None) then (Err (Storage (lit "failed to move the schedules: FOREIGN KEY constraint failed")), rows)
    else (Ok moved, set_schedules rows (reassigned from to <$> rows.(rw_schedules)))) ;;
  match moved with Ok moved => dret moved | Err e => dthrow e end.

(** *** The other repositories *)

Definition application_get (id : N) : D Rows World ApplicationRow :=
  found <- statement "failed to load application: " (fun rows => (rows.(rw_applications) !! id, rows)) ;;
  match found with Some row => dret row | None => dthrow NotFound end.

Definition set_config (row : ApplicationRow) (config : option (gmap string ConfigValue)) : ApplicationRow :=
  mkApplicationRow row.(ar_runtime_type) row.(ar_server_id) row.(ar_working_directory) config.

(** The update, and the row read back. *)
Definition update_runtime_config (id : N) (config : option (gmap string ConfigValue)) : D Rows World ApplicationRow :=
  checked "failed to update runtime config: " (fun rows =>
    match rows.(rw_applications) !! id with
    | Some row => Ok (set_applications rows (<[id := set_config row config]> rows.(rw_applications)))
    | None => Err NotFound
    end) ;;;
  application_get id.

Definition server_get (id : N) : D Rows World (option ConnectionMode) :=
  statement "failed to load server: " (fun rows => (rows.(rw_servers) !! id, rows)).

(** *** The disk limit *)

Definition DISK_LIMIT_KEY : string := "diskLimitMb".

Definition disk_limit_mb (config : option (gmap string ConfigValue)) : option Z :=
  match config ≫= lookup DISK_LIMIT_KEY with
  | Some (Number n) => if (0 <? n) && (n <? 18446744073709551616) then Some n else None
  | _ => None
  end.

(** [limit_mb * 1024 * 1024] on [u64], as a release build computes it. *)
Definition limit_bytes (limit_mb : Z) : Z := (limit_mb * 1024 * 1024) mod 18446744073709551616.

Definition disk_check_for (application_id : N) : D Rows World (option DiskCheck) :=
  detail <- application_get application_id ;;
  match disk_limit_mb detail.(ar_runtime_config) with
  | None => dret None
  | Some limit_mb => directory <- dlift (cron_safe_directory detail.(ar_working_directory)) ;; dret (Some (mkDiskCheck (limit_bytes limit_mb) directory))
  end.

(** *** The Node *)

Definition node_for (application_id : N) : D Rows World N :=
  detail <- application_get application_id ;;
  if negb (bool_decide (detail.(ar_runtime_type) = RtDocker)) then dthrow (InvalidInput (invalid (lit "schedules are only available for Docker applications"))) else
  match detail.(ar_server_id) with
  | None => dthrow (InvalidInput (invalid (lit "schedules run on a Node, and this application runs on this computer")))
  | Some server_id =>
      server <- server_get server_id ;;
      match server with
      | None => dthrow NotFound
      | Some AgentMode => dthrow (InvalidInput (invalid (lit "schedules aren't available on a Node managed by the Vibe Agent yet")))
      | Some SshMode => on_host (ask (get_or_connect server_id)) ;;; dret server_id
      end
  end.

Definition CAT_RUNNER : list Z := lit "sudo cat " ++ quote RUNNER_PATH ++ lit " 2>/dev/null".
Definition install_runner (staging : list Z) : list Z :=
  lit "sudo install -D -o root -g root -m 0755 " ++ quote staging ++ lit " " ++ quote RUNNER_PATH ++ lit "; rc=$?; rm -f " ++ quote staging ++ lit "; exit $rc".

Definition ensure_runner_installed (server : N) : D Rows World unit :=
  deployed <- dattempt (run_on server CAT_RUNNER) ;;
  if (match deployed with Ok output => str_eqb output.(stdout) RUNNER_SCRIPT | Err _ => false end) then dret tt else
  id <- new_v4 ;;
  let staging := lit ".vibessh-schedule-runner-" ++ uuid_text id in
  put_on server staging (utf8 RUNNER_SCRIPT) ;;;
  output <- run_on server (install_runner staging) ;;
  if negb (output.(exit_code) =? 0) then dthrow (ConnectionFailed (lit "couldn't install the schedule runner: " ++ trim output.(stderr))) else dret tt.

Definition CRON_PRESENT : list Z :=
  lit "[ -d /etc/cron.d ] && { command -v cron || command -v crond || [ -x /usr/sbin/cron ] || [ -x /usr/sbin/crond ]; } >/dev/null 2>&1".

Definition ensure_cron_available (server : N) : D Rows World unit :=
  output <- run_on server CRON_PRESENT ;;
  if negb (output.(exit_code) =? 0) then dthrow (CronMissing server) else dret tt.

Definition INSTALL_CRON : list Z :=
  lit "if command -v apt-get >/dev/null 2>&1; then                  sudo apt-get update -qq && sudo DEBIAN_FRONTEND=noninteractive apt-get install -y cron &&                  { sudo systemctl enable --now cron >/dev/null 2>&1 || true; };              elif command -v dnf >/dev/null 2>&1; then                  sudo dnf install -y cronie && { sudo systemctl enable --now crond >/dev/null 2>&1 || true; };              elif command -v yum >/dev/null 2>&1; then                  sudo yum install -y cronie && { sudo systemctl enable --now crond >/dev/null 2>&1 || true; };              else echo 'no supported package manager (apt, dnf or yum) on this Node' >&2; exit 3; fi".

Definition install_cron (server : N) : D Rows World unit :=
  on_host (ask (get_or_connect server)) ;;;
  output <- run_on server INSTALL_CRON ;;
  if negb (output.(exit_code) =? 0) then dthrow (ConnectionFailed (lit "couldn't install cron: " ++ detail_or output "the install failed")) else
  ensure_cron_available server.

Definition remove_file (application_id : N) : list Z := lit "sudo rm -f " ++ quote (cron_file_path application_id).
Definition replace_file (application_id : N) : list Z :=
  let temporary := quote (lit "/etc/cron.d/.vibessh-app-" ++ uuid_text application_id ++ lit ".new") in
  lit "sudo tee " ++ temporary ++ lit " >/dev/null && sudo chmod 0644 " ++ temporary ++ lit " && sudo mv -f " ++ temporary ++ lit " " ++ quote (cron_file_path application_id).

Definition has_file (schedules : list ApplicationSchedule) (disk : option DiskCheck) : bool := existsb as_enabled schedules || bool_decide (is_Some disk).

Definition write_to_node (server application_id : N) (schedules : list ApplicationSchedule) (disk : option DiskCheck) : D Rows World unit :=
  if negb (has_file schedules disk) then
    output <- run_on server (remove_file application_id) ;;
    if negb (output.(exit_code) =? 0) then dthrow (ConnectionFailed (lit "couldn't remove the schedule file: " ++ trim output.(stderr))) else dret tt
  else
    ensure_cron_available server ;;;
    ensure_runner_installed server ;;;
    output <- run_input_on server (replace_file application_id) (utf8 (build_cron_file application_id schedules disk)) ;;
    if negb (output.(exit_code) =? 0) then dthrow (ConnectionFailed (lit "couldn't write the schedule file: " ++ trim output.(stderr))) else dret tt.

Definition sync_node (server application_id : N) : D Rows World unit :=
  schedules <- schedule_list application_id ;;
  disk <- disk_check_for application_id ;;
  write_to_node server application_id schedules disk.

(** *** The operations *)

(** [m], and when it fails [undo], whose own failure is only logged. *)
Definition or_undo {A} (m : D Rows World unit) (undo : D Rows World A) : D Rows World unit := fun s =>
  match m s with
  | (Ok _, s) => (Ok tt, s)
  | (Err err, s) => let '(_, s) := undo s in (Err err, s)
  end.

Definition create_schedule (application_id : N) (input : ScheduleInput) : D Rows World ApplicationSchedule :=
  input <- dlift (validate_input input) ;;
  server <- node_for application_id ;;
  created <- schedule_create application_id input ;;
  or_undo (sync_node server application_id) (schedule_delete created.(as_id)) ;;;
  dret created.

Definition input_of (schedule : ApplicationSchedule) : ScheduleInput := mkScheduleInput schedule.(as_name) schedule.(as_cron) schedule.(as_action) schedule.(as_enabled).

Definition schedule_found (id : N) : D Rows World ApplicationSchedule :=
  found <- schedule_get id ;;
  match found with Some schedule => dret schedule | None => dthrow NotFound end.

Definition update_schedule (schedule_id : N) (input : ScheduleInput) : D Rows World ApplicationSchedule :=
  input <- dlift (validate_input input) ;;
  before <- schedule_found schedule_id ;;
  server <- node_for before.(as_application_id) ;;
  schedule_update schedule_id input ;;;
  or_undo (sync_node server before.(as_application_id)) (schedule_update schedule_id (input_of before)) ;;;
  schedule_found schedule_id.

Definition delete_schedule (schedule_id : N) : D Rows World unit :=
  found <- schedule_get schedule_id ;;
  match found with
  | None => dret tt
  | Some schedule =>
      server <- node_for schedule.(as_application_id) ;;
      schedule_delete schedule_id ;;;
      or_undo (sync_node server schedule.(as_application_id)) (schedule_insert schedule)
  end.

Definition run_command_line (schedule : ApplicationSchedule) : list Z :=
  lit "sudo " ++ quote RUNNER_PATH ++ lit " run " ++ uuid_text schedule.(as_application_id) ++ lit " " ++ uuid_text schedule.(as_id) ++ lit " " ++ action_str schedule.(as_action).

Definition run_schedule_now (schedule_id : N) : D Rows World unit :=
  schedule <- schedule_found schedule_id ;;
  server <- node_for schedule.(as_application_id) ;;
  ensure_runner_installed server ;;;
  output <- run_on server (run_command_line schedule) ;;
  if negb (output.(exit_code) =? 0) then
    let detail := trim output.(stdout) in
    let detail := if is_empty detail then trim output.(stderr) else detail in
    dthrow (ConnectionFailed (lit "the " ++ action_str schedule.(as_action) ++ lit " didn't succeed: " ++ detail))
  else dret tt.

Definition remove_from_node (server application_id : N) : D Rows World unit :=
  output <- run_on server (lit "sudo rm -f " ++ quote (cron_file_path application_id) ++ lit " && sudo rm -rf " ++ quote (state_dir application_id)) ;;
  if negb (output.(exit_code) =? 0) then dthrow (ConnectionFailed (trim output.(stderr))) else dret tt.

Definition move_schedules (from to : N) : D Rows World Z :=
  moved <- schedule_reassign from to ;;
  needed <- (if 0 <? moved then dret true else disk <- disk_check_for to ;; dret (bool_decide (is_Some disk))) ;;
  (if (needed : bool) then server <- node_for to ;; sync_node server to else dret tt) ;;;
  dret moved.

Definition MAX_DISK_LIMIT_MB : Z := 10 * 1024 * 1024.

Definition with_limit (config : gmap string ConfigValue) (limit_mb : option Z) : gmap string ConfigValue :=
  match limit_mb with Some mb => <[DISK_LIMIT_KEY := Number mb]> config | None => delete DISK_LIMIT_KEY config end.

Definition set_disk_limit (application_id : N) (limit_mb : option Z) : D Rows World ApplicationRow :=
  if (match limit_mb with Some mb => negb ((100 <=? mb) && (mb <=? MAX_DISK_LIMIT_MB)) | None => false end)
  then dthrow (InvalidInput (invalid (lit "a disk limit has to be between 100 MB and 10 TB"))) else
  server <- node_for application_id ;;
  detail <- application_get application_id ;;
  (if bool_decide (is_Some limit_mb) then dlift (cron_safe_directory detail.(ar_working_directory)) ;;; dret tt else dret tt) ;;;
  match detail.(ar_runtime_config) with
  | None => dthrow (Internal (lit "runtime_config wasn't a JSON object"))
  | Some previous =>
      update_runtime_config application_id (Some (with_limit previous limit_mb)) ;;;
      or_undo (sync_node server application_id) (update_runtime_config application_id (Some previous)) ;;;
      application_get application_id
  end.

(** *** What the panel reads *)

Definition status_command (verb : string) (application_id : N) : list Z :=
  let runner := quote RUNNER_PATH in lit "[ -x " ++ runner ++ lit " ] || exit 0; sudo " ++ runner ++ lit " " ++ lit verb ++ lit " " ++ uuid_text application_id.

Definition read_last_runs (server application_id : N) : D Rows World (list ScheduleRun) :=
  output <- run_on server (status_command "status" application_id) ;;
  if negb (output.(exit_code) =? 0) then dthrow (ConnectionFailed (lit "couldn't read past schedule runs: " ++ trim output.(stderr)))
  else dret (omap parse_status_line (lines output.(stdout))).

(** The text of the failure, the answer in Rust's debug form, is left out. *)
Definition read_time_zone (server : N) : D Rows World NodeTimeZone :=
  output <- run_on server (lit "date +%z; timedatectl show -p Timezone --value 2>/dev/null || cat /etc/timezone 2>/dev/null || true") ;;
  let ls := lines output.(stdout) in
  match (ls !! 0%nat) ≫= parse_offset with
  | None => dthrow (ConnectionFailed (lit "the Node's clock gave an unexpected answer: "))
  | Some offset_minutes =>
      let name := match trim <$> (ls !! 1%nat) with Some name => if is_empty name then None else Some name | None => None end in
      dret (mkTimeZone name offset_minutes)
  end.

Definition list_schedules (application_id : N) : D Rows World ApplicationSchedules :=
  schedules <- schedule_list application_id ;;
  node <- dattempt (server <- node_for application_id ;;
                    time_zone <- read_time_zone server ;;
                    last_runs <- read_last_runs server application_id ;;
                    dret (time_zone, last_runs)) ;;
  dret match node with
       | Ok (time_zone, last_runs) => mkSchedules schedules last_runs (Some time_zone) None
       | Err err => mkSchedules schedules [] None (Some err)
       end.

Definition disk_usage (application_id : N) : D Rows World (option DiskUsage) :=
  server <- node_for application_id ;;
  output <- run_on server (status_command "disk" application_id) ;;
  if negb (output.(exit_code) =? 0) then dthrow (ConnectionFailed (lit "couldn't read the disk check: " ++ trim output.(stderr)))
  else dret ((lines output.(stdout) !! 0%nat) ≫= parse_disk_line).

Definition ensure_within_disk_limit (server : N) (config : option (gmap string ConfigValue)) (working_directory : list Z) : D Rows World unit :=
  match disk_limit_mb config with
  | None => dret tt
  | Some limit_mb =>
      output <- run_on server (lit "sudo du -sb -- " ++ quote working_directory ++ lit " 2>/dev/null | cut -f1") ;;
      match parse_u64 (trim output.(stdout)) with
      | None => dret tt
      | Some used => if limit_bytes limit_mb <? used then dthrow (DiskLimitExceeded (used / (1024 * 1024)) limit_mb) else dret tt
      end
  end.
End services.
