(* ===== verification/ScheduleText.v ===== *)
(** * ScheduleText: what a Node's cron makes of the schedules

    Every expression the desktop accepts is read by cron as the times it names
    ([Cron] is cron's reading), the file written for an application has exactly
    one entry per enabled schedule, its command is the runner with exactly the
    ids and the action of that schedule, and the runner does that one thing to
    that one container and writes down how it went. *)

From S2P Require Import Prelude Text Shell Sandbox Validators Ufw Firewall Sudoers MemberAccount Mesh Docker DockerHost Isolation Desktop Cron AppLinks Schedules.

#[local] Open Scope Z_scope.

(** ** Fields *)

(** What crontab(5) describes: a step is digits, and follows a star or a range. *)
Definition plain_item (item : list Z) : bool :=
  match split_once 47 item with
  | Some (range, step) => (str_eqb range STAR || contains_char 45 range) && forallb is_ascii_digit step
  | None => true
  end.
Definition plain_cron (cron : list Z) : bool := forallb (fun field => forallb plain_item (split_on (Z.eqb 44) field)) (split_whitespace cron).

Lemma parse_unsigned_digits max s v : forallb is_ascii_digit s = true -> parse_unsigned max s = Some v -> s <> [] /\ parse_digits 0 s = Some v /\ v <= max.
Proof.
  intros Hd Hp. destruct s as [|c s]; [done|]. unfold parse_unsigned in Hp. cbn [forallb] in Hd. apply andb_true_iff in Hd as [Hc _].
  rewrite (plus_stripped _ _ Hc) in Hp. destruct (parse_digits 0 (c :: s)) as [n|]; [|done]. destruct (Z.leb_spec n max); [|done]. injection Hp as <-. split_and!; [done|done|lia].
Qed.

Lemma cron_number_read min max text v : cron_number min max text = Some v -> read_number min max text = Some v /\ min <= v <= max.
Proof.
  unfold cron_number, read_number, read_digits. destruct (is_empty text) eqn:He; [done|]. destruct (forallb is_ascii_digit text) eqn:Hd; [|done]. cbn [negb orb].
  destruct (parse_u32 text) as [n|] eqn:Hp; [|done]. destruct (Z.ltb_spec n min), (Z.ltb_spec max n); try done. intros [= <-].
  apply parse_unsigned_digits in Hp as (_ & -> & _); [|done]. destruct (Z.leb_spec min n), (Z.leb_spec n max); try lia. done.
Qed.


Definition in_bounds (min max : Z) (i : Item) : Prop := min <= i.(it_from) /\ i.(it_from) <= i.(it_to) /\ i.(it_to) <= max /\ 0 < i.(it_step).

(** An accepted range is read, with its ends in order and in bounds. *)
Lemma accepted_range min max single range : min <= max ->
  str_eqb range (lit "*") || match split_once 45 range with
   | Some (from, to) => match cron_number min max from, cron_number min max to with Some from, Some to => negb (to <? from) | _, _ => false end
   | None => bool_decide (is_Some (cron_number min max range)) end = true ->
  single || (str_eqb range STAR || contains_char 45 range) = true ->
  exists from to, read_range min max single range = Some (from, to) /\ min <= from /\ from <= to /\ to <= max.
Proof.
  intros Hm Hok Hs. unfold read_range. change (lit "*") with STAR in Hok. destruct (str_eqb range STAR) eqn:Hstar; [eexists _, _; split_and!; [done|lia..]|]. cbn [orb] in *.
  destruct (split_once 45 range) as [[from to]|] eqn:Hsp.
  - destruct (cron_number min max from) as [f|] eqn:Hf; [|done]. destruct (cron_number min max to) as [t|] eqn:Ht; [|done].
    apply cron_number_read in Hf as [-> Hf]. apply cron_number_read in Ht as [-> Ht]. destruct (Z.ltb_spec t f); [done|].
    exists f, t. destruct (Z.leb_spec f t); [|lia]. split_and!; [done|lia..].
  - apply bool_decide_eq_true in Hok as [v Hv]. apply cron_number_read in Hv as [Hv Hb].
    destruct single; [|cbn [orb] in Hs]. { rewrite Hv. exists v, v. split_and!; [done|lia..]. }
    exfalso. clear -Hs Hsp. revert Hsp Hs. induction range as [|c range IH]; [done|]. unfold contains_char in *. cbn [split_once existsb]. rewrite (Z.eqb_sym 45 c).
    destruct (c =? 45); [done|]. cbn [orb]. destruct (split_once 45 range) as [[a b]|]; [done|]. intros _. by apply IH.
Qed.

Lemma accepted_item min max item : min <= max -> validate_item min max item = true -> plain_item item = true ->
  exists i, read_item min max item = Some i /\ in_bounds min max i.
Proof.
  intros Hm Hv Hp. unfold validate_item in Hv. unfold plain_item in Hp. unfold read_item. destruct (split_once 47 item) as [[range step]|] eqn:Hs.
  - apply andb_true_iff in Hv as [Hstep Hr]. apply andb_true_iff in Hp as [Hp Hd]. destruct (parse_u32 step) as [n|] eqn:Hn; [|done].
    apply parse_unsigned_digits in Hn as (Hne & Hn & _); [|done]. pose proof (parse_digits_nonneg _ _ _ (Z.le_refl 0) Hn) as H0.
    destruct (accepted_range min max false range Hm Hr Hp) as (from & to & -> & H1 & H2 & H3). unfold read_digits. destruct step as [|c step]; [done|]. cbn [is_empty]. rewrite Hn.
    apply negb_true_iff, orb_false_iff in Hstep as [Hz _]. apply Z.eqb_neq in Hz. destruct (Z.ltb_spec 0 n); [|lia]. eexists. split; [done|]. split_and!; cbn; lia.
  - cbn [andb] in Hv. destruct (accepted_range min max true item Hm Hv) as (from & to & -> & H1 & H2 & H3); [done|]. eexists. split; [done|]. split_and!; cbn; lia.
Qed.

Lemma item_matches_from min max i : in_bounds min max i -> item_matches i.(it_from) i = true.
Proof.
  intros (H1 & H2 & H3 & H4). unfold item_matches. rewrite Z.sub_diag, Z.mod_0_l by lia. destruct (Z.leb_spec i.(it_from) i.(it_from)), (Z.leb_spec i.(it_from) i.(it_to)); try lia; done.
Qed.

Lemma accepted_field min max field what : min <= max -> validate_field field what min max = Ok tt -> forallb plain_item (split_on (Z.eqb 44) field) = true ->
  exists items, read_field min max field = Some items /\ items <> [] /\ Forall (in_bounds min max) items.
Proof.
  intros Hm Hv Hp. unfold validate_field in Hv. destruct (forallb _ (split_on (Z.eqb 44) field)) eqn:Hall; [|done]. clear Hv. unfold read_field.
  pose proof (split_on_nil (Z.eqb 44) field) as Hne. revert Hall Hp Hne. generalize (split_on (Z.eqb 44) field). intros pieces.
  induction pieces as [|piece pieces IH]; [done|]. cbn [forallb]. intros [H1 H2]%andb_true_iff [H3 H4]%andb_true_iff _. cbn [mapM].
  destruct (accepted_item min max piece Hm H1 H3) as (i & Hi & Hb). rewrite Hi. destruct pieces as [|p' pieces]; [eexists; split; [done|]; split; [done|by constructor]|].
  destruct IH as (items & Hr & Hn & Hf); [done..|]. cbn [mapM] in Hr |- *. cbn [mbind option_bind]. rewrite Hr. eexists. split; [done|]. split; [done|by constructor].
Qed.

(** A field of in-bounds items names at least one value, in bounds. *)
Lemma field_has_a_value min max items : items <> [] -> Forall (in_bounds min max) items -> exists v, field_matches items v = true /\ min <= v <= max.
Proof.
  intros Hne Hf. destruct Hf as [|i items Hi _]; [done|]. exists i.(it_from). split; [|destruct Hi; lia].
  unfold field_matches. cbn [existsb]. by rewrite (item_matches_from min max i Hi).
Qed.

(** ** Expressions *)

(** The characters of an accepted expression. *)
Definition cron_char (c : Z) : bool := is_ascii_digit c || (c =? 42) || (c =? 43) || (c =? 44) || (c =? 45) || (c =? 47).

Lemma parse_digits_all s : forall acc n, parse_digits acc s = Some n -> forallb is_ascii_digit s = true.
Proof. induction s as [|c s IH]; intros acc n; simpl; [done|]. destruct (is_ascii_digit c); [|done]. intros Hp. by apply (IH _ _ Hp). Qed.

Lemma digits_cron s : forallb is_ascii_digit s = true -> forallb cron_char s = true.
Proof. rewrite !forallb_elem_of. intros Hs c Hc. unfold cron_char. by rewrite (Hs c Hc). Qed.

Lemma parse_unsigned_chars max s n : parse_unsigned max s = Some n -> forallb cron_char s = true.
Proof.
  unfold parse_unsigned. intros Hp. assert (Hb : forall body, (match body with [] => None | _ => match parse_digits 0 body with Some n => if n <=? max then Some n else None | None => None end end) = Some n -> forallb cron_char body = true).
  { intros [|c body] Hb; [done|]. destruct (parse_digits 0 (c :: body)) eqn:Hd; [|done]. by apply digits_cron, (parse_digits_all _ _ _ Hd). }
  destruct s as [|c s]; [done|]. destruct (Z.eqb_spec c 43) as [->|Hne]; [cbn [forallb]; apply andb_true_iff; split; [done|by apply Hb]|].
  apply Hb. rewrite <-Hp. destruct c as [|c|c]; try reflexivity. do 6 (try (destruct c as [c|c|]; try reflexivity)). all: by exfalso.
Qed.

Lemma split_on_forallb p q s : (forall c, p c = true -> q c = true) -> (forall piece, piece ∈ split_on p s -> forallb q piece = true) -> forallb q s = true.
Proof.
  intros Hpq. induction s as [|c s IH]; [done|]. cbn [split_on forallb]. destruct (p c) eqn:Hc.
  - intros Hall. rewrite (Hpq c Hc). apply IH. intros piece Hp. apply Hall. by apply elem_of_cons; right.
  - destruct (split_on p s) as [|piece pieces] eqn:Hs; [by apply split_on_nil in Hs|]. intros Hall.
    pose proof (Hall (c :: piece) ltac:(by apply elem_of_cons; left)) as H1. cbn [forallb] in H1. apply andb_true_iff in H1 as [-> H1]. cbn [andb]. apply IH.
    intros piece' [->|Hp]%elem_of_cons; [done|]. apply Hall. by apply elem_of_cons; right.
Qed.

Lemma cron_number_chars min max s v : cron_number min max s = Some v -> forallb cron_char s = true.
Proof. unfold cron_number. destruct (is_empty s); [done|]. destruct (forallb is_ascii_digit s) eqn:Hd; [|done]. intros _. by apply digits_cron. Qed.

Lemma accepted_item_chars min max item : validate_item min max item = true -> forallb cron_char item = true.
Proof.
  intros Hv. unfold validate_item in Hv.
  assert (Hr : forall range, str_eqb range (lit "*") || match split_once 45 range with
     | Some (from, to) => match cron_number min max from, cron_number min max to with Some from, Some to => negb (to <? from) | _, _ => false end
     | None => bool_decide (is_Some (cron_number min max range)) end = true -> forallb cron_char range = true).
  { intros range [Hs|Hs]%orb_true_iff; [apply bool_decide_eq_true in Hs as ->; done|]. destruct (split_once 45 range) as [[from to]|] eqn:Hsp.
    - apply split_once_spec in Hsp as [-> _]. destruct (cron_number min max from) eqn:Hf; [|done]. destruct (cron_number min max to) eqn:Ht; [|done].
      rewrite forallb_app. cbn [forallb]. by rewrite (cron_number_chars _ _ _ _ Hf), (cron_number_chars _ _ _ _ Ht).
    - apply bool_decide_eq_true in Hs as [v Hv']. by apply (cron_number_chars _ _ _ _ Hv'). }
  destruct (split_once 47 item) as [[range step]|] eqn:Hs; apply andb_true_iff in Hv as [Hstep Hrange]; [|by apply Hr].
  apply split_once_spec in Hs as [-> _]. destruct (parse_u32 step) eqn:Hp; [|done]. rewrite forallb_app. cbn [forallb].
  by rewrite (Hr _ Hrange), (parse_unsigned_chars _ _ _ Hp).
Qed.

Lemma accepted_field_chars min max field what : validate_field field what min max = Ok tt -> forallb cron_char field = true.
Proof.
  unfold validate_field. destruct (forallb _ _) eqn:Hall; [|done]. intros _. rewrite forallb_elem_of in Hall. apply (split_on_forallb (Z.eqb 44)).
  - intros c <-%Z.eqb_eq. done.
  - intros piece Hp. apply (accepted_item_chars min max), Hall, Hp.
Qed.

Lemma split_whitespace_solid s : Forall (fun w => solid w = true) (split_whitespace s).
Proof.
  apply Forall_forall. intros w Hw. unfold split_whitespace in Hw. apply list_elem_of_In, filter_In in Hw as [Hin Hne].
  unfold solid. rewrite Hne. cbn [andb]. apply negb_true_iff. apply (split_on_pieces _ s). by apply list_elem_of_In.
Qed.

(** The five fields of an accepted expression. *)
Record Accepted (cron f1 f2 f3 f4 f5 : list Z) : Prop := {
  acc_fields : split_whitespace cron = [f1; f2; f3; f4; f5];
  acc_solid : Forall (fun w => solid w = true) [f1; f2; f3; f4; f5];
  acc_minute : exists what, validate_field f1 what 0 59 = Ok tt;
  acc_hour : exists what, validate_field f2 what 0 23 = Ok tt;
  acc_day : exists what, validate_field f3 what 1 31 = Ok tt;
  acc_month : exists what, validate_field f4 what 1 12 = Ok tt;
  acc_weekday : exists what, validate_field f5 what 0 7 = Ok tt;
}.

Lemma validate_cron_fields e c : validate_cron e = Ok c -> exists f1 f2 f3 f4 f5, Accepted e f1 f2 f3 f4 f5 /\ c = join [32] [f1; f2; f3; f4; f5].
Proof.
  unfold validate_cron. pose proof (split_whitespace_solid e) as Hs. destruct (Nat.eqb_spec (length (split_whitespace e)) 5) as [Hl|]; [|done]. cbn [negb].
  destruct (split_whitespace e) as [|f1 [|f2 [|f3 [|f4 [|f5 [|]]]]]] eqn:Ee; try discriminate Hl. cbn [validate_fields FIELDS].
  intros (u & Hv & Hc)%rbind_Ok. injection Hc as <-. exists f1, f2, f3, f4, f5. split; [|done].
  apply rbind_Ok in Hv as ([] & H1 & Hv). apply rbind_Ok in Hv as ([] & H2 & Hv). apply rbind_Ok in Hv as ([] & H3 & Hv). apply rbind_Ok in Hv as ([] & H4 & Hv).
  apply rbind_Ok in Hv as ([] & H5 & Hv). split; eauto.
Qed.

(** An accepted expression is stored in one form, which is accepted as it is. *)
Lemma validate_cron_idem e c : validate_cron e = Ok c -> validate_cron c = Ok c.
Proof.
  intros Hv. destruct (validate_cron_fields e c Hv) as (f1 & f2 & f3 & f4 & f5 & [He Hs H1 H2 H3 H4 H5] & Hc). unfold validate_cron in *. rewrite He in Hv.
  assert (Hw : split_whitespace c = [f1; f2; f3; f4; f5]) by (rewrite Hc; by apply split_whitespace_join). rewrite Hw.
  cbn [length Nat.eqb negb] in *. destruct (validate_fields _ FIELDS); [|done]. by rewrite <-Hc.
Qed.

Lemma solid_unbroken w : solid w = true -> unbroken w.
Proof.
  unfold solid, unbroken. intros [Hne Hw]%andb_true_iff. split; [by destruct w|]. apply negb_true_iff in Hw. apply forallb_elem_of. intros c Hc.
  rewrite existsb_false_elem_of in Hw. specialize (Hw c Hc). unfold is_blank, is_whitespace, in_range in *. lia.
Qed.

(** ** The times of an expression *)

Definition cron_entry (cron user command : list Z) : option Entry :=
  match split_whitespace cron with
  | [f1; f2; f3; f4; f5] =>
      match read_field 0 59 f1, read_field 0 23 f2, read_field 1 31 f3, read_field 1 12 f4, read_field 0 7 f5 with
      | Some minutes, Some hours, Some days, Some months, Some weekdays =>
          Some (mkEntry minutes hours days months weekdays (starts_with_char 42 f3) (starts_with_char 42 f5) user command)
      | _, _, _, _, _ => None
      end
  | _ => None
  end.

(** The minutes at which an expression calls for its action. *)
Definition cron_due (cron : list Z) (t : Minute) : bool := match cron_entry cron [] [] with Some e => due e t | None => false end.

(** An accepted expression, in the language of crontab(5), has its times. *)
Lemma accepted_entry cron f1 f2 f3 f4 f5 : Accepted cron f1 f2 f3 f4 f5 -> plain_cron cron = true -> exists minutes hours days months weekdays,
  (forall user command, cron_entry cron user command = Some (mkEntry minutes hours days months weekdays (starts_with_char 42 f3) (starts_with_char 42 f5) user command)) /\
  (minutes <> [] /\ Forall (in_bounds 0 59) minutes) /\ (hours <> [] /\ Forall (in_bounds 0 23) hours) /\ (days <> [] /\ Forall (in_bounds 1 31) days) /\
  (months <> [] /\ Forall (in_bounds 1 12) months) /\ (weekdays <> [] /\ Forall (in_bounds 0 7) weekdays) /\
  read_field 1 31 f3 = Some days /\ read_field 1 12 f4 = Some months /\ read_field 0 7 f5 = Some weekdays.
Proof.
  intros [Hf Hs [w1 H1] [w2 H2] [w3 H3] [w4 H4] [w5 H5]] Hp. unfold plain_cron in Hp. rewrite Hf in Hp. cbn [forallb] in Hp. rewrite !andb_true_iff in Hp.
  destruct Hp as (P1 & P2 & P3 & P4 & P5 & _).
  destruct (accepted_field 0 59 f1 w1 ltac:(lia) H1 P1) as (minutes & R1 & ?). destruct (accepted_field 0 23 f2 w2 ltac:(lia) H2 P2) as (hours & R2 & ?).
  destruct (accepted_field 1 31 f3 w3 ltac:(lia) H3 P3) as (days & R3 & ?). destruct (accepted_field 1 12 f4 w4 ltac:(lia) H4 P4) as (months & R4 & ?).
  destruct (accepted_field 0 7 f5 w5 ltac:(lia) H5 P5) as (weekdays & R5 & ?). exists minutes, hours, days, months, weekdays.
  split; [intros user command; unfold cron_entry; by rewrite Hf, R1, R2, R3, R4, R5|tauto].
Qed.

Lemma due_of_cron cron user command e t : cron_entry cron user command = Some e -> due e t = cron_due cron t.
Proof.
  unfold cron_due, cron_entry. destruct (split_whitespace cron) as [|f1 [|f2 [|f3 [|f4 [|f5 [|]]]]]]; try done. repeat case_match; try done. by intros [= <-].
Qed.

(** ** The lines of the file *)

Lemma cron_char_facts c : cron_char c = true -> (c =? 35) = false /\ (c =? 61) = false /\ (c =? 10) = false /\ is_blank c = false.
Proof. unfold cron_char, is_ascii_digit, in_range, is_blank. lia. Qed.

(** A line of six words and a command is not a setting or a comment, and is read. *)
Lemma read_line_entry cron f1 f2 f3 f4 f5 user command e : Accepted cron f1 f2 f3 f4 f5 -> plain_cron cron = true ->
  unbroken user -> command <> [] -> drop_while is_blank command = command -> contains_char 37 command = false -> cron_entry cron user command = Some e ->
  read_line (join [32] [f1; f2; f3; f4; f5] ++ [32] ++ user ++ 32 :: command) = Some (Some e).
Proof.
  intros Ha Hp Hu Hne Hd Hc He. destruct Ha as [Hf Hs [w1 H1] [w2 H2] H3 H4 H5].
  assert (Hu5 : Forall unbroken [f1; f2; f3; f4; f5]) by (eapply Forall_impl; [exact Hs|]; apply solid_unbroken).
  assert (Hentry : read_entry (join [32] [f1; f2; f3; f4; f5] ++ [32] ++ user ++ 32 :: command) = Some e).
  { rewrite read_entry_words; [|by rewrite !Forall_cons in Hu5 |- *; naive_solver|done..]. rewrite <-He. unfold cron_entry. by rewrite Hf. }
  rewrite !Forall_cons in Hu5. destruct Hu5 as (U1 & U2 & _). pose proof (accepted_field_chars _ _ _ _ H1) as C1. pose proof (accepted_field_chars _ _ _ _ H2) as C2.
  revert Hentry. cbn [join]. rewrite <-!app_assoc. cbn [app]. generalize (f3 ++ 32 :: f4 ++ 32 :: f5 ++ 32 :: user ++ 32 :: command). intros tail Hentry.
  unfold read_line. rewrite unbroken_drop by done.
  assert (Hset : is_setting (f1 ++ 32 :: f2 ++ 32 :: tail) = false).
  { unfold is_setting. rewrite drop_while_app; [|apply forallb_elem_of; intros c Hc'; rewrite forallb_elem_of in C1; destruct (cron_char_facts c (C1 c Hc')) as (_ & -> & _ & ->); done|done].
    cbn [drop_while]. change (is_blank 32) with true. cbn iota. rewrite unbroken_drop by done. destruct U2 as [Hn2 _]. destruct f2 as [|c f2]; [done|]. cbn [app starts_with_char forallb] in *.
    apply andb_true_iff in C2 as [C2 _]. apply (cron_char_facts c C2). }
  rewrite Hset. destruct U1 as [Hn1 _]. destruct f1 as [|c f1]; [done|]. cbn [app is_empty orb starts_with_char forallb] in *.
  apply andb_true_iff in C1 as [C1 _]. destruct (cron_char_facts c C1) as (-> & _). cbn [orb]. by rewrite Hentry.
Qed.

Lemma uuid_text_chars id : forallb container_char (uuid_text id) = true /\ uuid_text id <> [].
Proof.
  unfold uuid_text. destruct (uuid_simple_chars id) as [Hc Hl]. revert Hc Hl. generalize (uuid_simple id). intros s Hc Hl.
  do 32 (destruct s as [|? s]; [discriminate Hl|]). destruct s; [|discriminate Hl]. split; [|done]. cbn [take drop join app forallb] in *. rewrite !andb_true_iff in *. tauto.
Qed.

Lemma container_char_plain s : forallb container_char s = true -> forallb plain_char s = true.
Proof.
  rewrite !forallb_elem_of. intros Hs c Hc. specialize (Hs c Hc). revert Hs.
  unfold container_char, plain_char, is_ascii_alphanumeric, is_ascii_alphabetic, is_ascii_uppercase, is_ascii_lowercase, is_ascii_digit, in_range, is_blank, is_operator, leaves_fragment. lia.
Qed.

(** The words of a command, none of which the shell or cron reads otherwise. *)
Definition word_ok (w : list Z) : Prop := w <> [] /\ forallb plain_char w = true /\ contains_char 37 w = false /\ contains_char 10 w = false.

Lemma uuid_word id : word_ok (uuid_text id).
Proof.
  destruct (uuid_text_chars id) as [Hc Hne]. split_and!; [done|by apply container_char_plain| |]; unfold contains_char; apply existsb_false_elem_of; intros c Hin;
    rewrite forallb_elem_of in Hc; specialize (Hc c Hin); revert Hc; unfold container_char, is_ascii_alphanumeric, is_ascii_alphabetic, is_ascii_uppercase, is_ascii_lowercase, is_ascii_digit, in_range; lia.
Qed.

Lemma tokens_words words : Forall word_ok words -> words <> [] -> tokens (join [32] words) = Some (map Word words).
Proof.
  unfold tokens. induction 1 as [|w words (Hne & Hp & _) Hall IH]; [done|]. intros _. destruct words as [|w' words]; [by apply lex_last_word|].
  rewrite join_cons. cbn [app]. rewrite lex_word by done. by rewrite IH.
Qed.

Lemma words_lack c words : contains_char c [32] = false -> Forall (fun w => contains_char c w = false) words -> contains_char c (join [32] words) = false.
Proof.
  intros Hs. induction 1 as [|w words Hw Hall IH]; [done|]. destruct words as [|w' words]; [done|]. rewrite join_cons. unfold contains_char in *. by rewrite !existsb_app, Hw, Hs, IH.
Qed.

(** ** The file *)

Definition schedule_words (id : N) (s : ApplicationSchedule) : list (list Z) := [RUNNER_PATH; lit "run"; uuid_text id; uuid_text s.(as_id); action_str s.(as_action)].
Definition disk_words (id : N) (d : DiskCheck) : list (list Z) := [RUNNER_PATH; lit "diskcheck"; uuid_text id; to_dec d.(dk_limit_bytes); d.(dk_directory)].

(** A row as the operations leave it, in the language of crontab(5). *)
Definition schedule_ok (s : ApplicationSchedule) : Prop := validate_cron s.(as_cron) = Ok s.(as_cron) /\ plain_cron s.(as_cron) = true.
Definition disk_ok (d : DiskCheck) : Prop := 0 <= d.(dk_limit_bytes) < 2 ^ 64 /\ cron_safe_directory d.(dk_directory) = Ok d.(dk_directory).

Lemma action_word a : word_ok (action_str a).
Proof. by destruct a. Qed.

Lemma runner_word : word_ok RUNNER_PATH.
Proof. done. Qed.

Lemma chars_word (p : Z -> bool) w : w <> [] -> forallb p w = true -> (forall c, p c = true -> plain_char c = true /\ c <> 37 /\ c <> 10) -> word_ok w.
Proof.
  intros Hne Hp Hc. rewrite forallb_elem_of in Hp. split_and!; [done| | |]; [apply forallb_elem_of|unfold contains_char; apply existsb_false_elem_of..]; intros c Hin; destruct (Hc c (Hp c Hin)) as (? & ? & ?); [done|lia..].
Qed.

Lemma disk_words_ok id d : disk_ok d -> Forall word_ok (disk_words id d).
Proof.
  intros [Hl Hd]. unfold cron_safe_directory in Hd. destruct (_ && _ && _) eqn:E; [|done]. apply andb_true_iff in E as [[E1 _]%andb_true_iff E2].
  repeat (apply Forall_cons; split); [apply runner_word|done|apply uuid_word| | |constructor].
  - destruct (to_dec_spec (dk_limit_bytes d)) as (_ & Hdig & Hne); [lia|]. apply (chars_word is_ascii_digit); [done|done|].
    intros c. unfold is_ascii_digit, plain_char, is_blank, is_operator, leaves_fragment, in_range. lia.
  - apply (chars_word cron_directory_char); [by destruct (dk_directory d)|done|].
    intros c. unfold cron_directory_char, is_ascii_alphanumeric, is_ascii_alphabetic, is_ascii_uppercase, is_ascii_lowercase, is_ascii_digit, plain_char, is_blank, is_operator, leaves_fragment, in_range. lia.
Qed.

Lemma schedule_words_ok id s : Forall word_ok (schedule_words id s).
Proof. repeat (apply Forall_cons; split); [apply runner_word|done|apply uuid_word|apply uuid_word|apply action_word|constructor]. Qed.

Lemma drop_blank_words words : Forall word_ok words -> drop_while is_blank (join [32] words) = join [32] words.
Proof.
  destruct 1 as [|w words (Hne & Hp & _) _]; [done|]. destruct w as [|c w]; [done|]. cbn [forallb] in Hp. apply andb_true_iff in Hp as [Hc _].
  assert (Hb : is_blank c = false). { revert Hc. unfold plain_char, is_blank. lia. }
  destruct words as [|w' words]; [cbn [join]; cbn [drop_while]; by rewrite Hb|rewrite join_cons]. cbn [app drop_while]. by rewrite Hb.
Qed.

(** One line of the file: the words after a known expression. *)
Lemma read_command_line cron words : validate_cron cron = Ok cron -> plain_cron cron = true -> Forall word_ok words -> words <> [] ->
  let line := cron ++ lit " root " ++ join [32] words in
  contains_char 10 line = false /\ exists e, read_line line = Some (Some e) /\ en_user e = lit "root" /\ tokens (en_command e) = Some (map Word words) /\ forall t, due e t = cron_due cron t.
Proof.
  intros Hv Hp Hw Hne line. destruct (validate_cron_fields cron cron Hv) as (f1 & f2 & f3 & f4 & f5 & Ha & Hc). split.
  - unfold line, contains_char. rewrite !existsb_app. fold (contains_char 10 (join [32] words)). rewrite (words_lack 10 words); [|done|eapply Forall_impl; [exact Hw|by intros w (_ & _ & _ & ?)]].
    change (existsb (Z.eqb 10) (lit " root ")) with false. rewrite !orb_false_r. destruct Ha as [_ _ [w1 H1] [w2 H2] [w3 H3] [w4 H4] [w5 H5]]. rewrite Hc.
    apply (words_lack 10); [done|]. assert (Hl : forall f, forallb cron_char f = true -> contains_char 10 f = false).
    { intros f Hf. unfold contains_char. apply existsb_false_elem_of. intros c Hin. rewrite forallb_elem_of in Hf. destruct (cron_char_facts c (Hf c Hin)) as (_ & _ & ? & _). lia. }
    repeat (apply Forall_cons; split); [..|constructor]; apply Hl; eapply accepted_field_chars; eassumption.
  - destruct (accepted_entry _ _ _ _ _ _ Ha Hp) as (minutes & hours & days & months & weekdays & He & _). specialize (He (lit "root") (join [32] words)).
    exists (mkEntry minutes hours days months weekdays (starts_with_char 42 f3) (starts_with_char 42 f5) (lit "root") (join [32] words)). split; [|split; [|split]]; [|reflexivity| |].
    + unfold line. rewrite Hc at 1. apply (read_line_entry cron f1 f2 f3 f4 f5 (lit "root") (join [32] words) _ Ha Hp); [done| |by apply drop_blank_words|by apply (words_lack 37); [done|eapply Forall_impl; [exact Hw|by intros w (_ & _ & ? & _)]]|exact He].
      intros Hnil. pose proof (tokens_words words Hw Hne) as Ht. rewrite Hnil in Ht. by destruct words.
    + cbn [en_command]. by apply tokens_words.
    + intros t. by apply (due_of_cron cron (lit "root") (join [32] words)).
Qed.

(** What the file is to have cron do: an expression and the words of a command. *)
Definition jobs (id : N) (schedules : list ApplicationSchedule) (disk : option DiskCheck) : list (list Z * list (list Z)) :=
  map (fun s => (s.(as_cron), schedule_words id s)) (List.filter as_enabled schedules) ++ match disk with Some d => [(DISK_CHECK_EVERY, disk_words id d)] | None => [] end.

Definition job_line (job : list Z * list (list Z)) : list Z := job.1 ++ lit " root " ++ join [32] job.2.

Definition file_lines (id : N) (schedules : list ApplicationSchedule) (disk : option DiskCheck) : list (list Z) :=
  [lit "# Managed by VibeSSH for Application " ++ uuid_text id ++ lit ". Edits here are overwritten."; lit "SHELL=/bin/sh";
   lit "PATH=/usr/local/sbin:/usr/local/bin:/usr/sbin:/usr/bin:/sbin:/bin"]
  ++ map job_line (jobs id schedules disk).

Lemma ended_last (l : list Z) : ([l] ≫= fun l => l ++ [10]) = l ++ [10].
Proof. rewrite bind_cons. apply app_nil_r. Qed.

Lemma ended_three (a b c : list Z) : ([a; b; c] ≫= fun l => l ++ [10]) = a ++ [10] ++ b ++ [10] ++ c ++ [10].
Proof. rewrite bind_cons, bind_cons, ended_last. by rewrite <-!app_assoc. Qed.

Lemma build_cron_file_lines id schedules disk : build_cron_file id schedules disk = file_lines id schedules disk ≫= fun l => l ++ [10].
Proof.
  unfold build_cron_file, file_lines, jobs. rewrite map_app, !bind_app, ended_three, <-!app_assoc. do 8 f_equal. f_equal; [|destruct disk; [|done]].
  - induction (List.filter as_enabled schedules) as [|s l IH]; [done|]. cbn [map]. rewrite !bind_cons, IH. f_equal. unfold schedule_line, job_line, schedule_words. cbn [fst snd join]. by rewrite <-!app_assoc.
  - cbn [map]. rewrite ended_last. unfold disk_line, job_line, disk_words. cbn [fst snd join]. by rewrite <-!app_assoc.
Qed.

Definition job_ok (job : list Z * list (list Z)) : Prop := validate_cron job.1 = Ok job.1 /\ plain_cron job.1 = true /\ Forall word_ok job.2 /\ job.2 <> [].

Lemma jobs_ok id schedules disk : Forall (fun s => s.(as_enabled) = true -> schedule_ok s) schedules -> (forall d, disk = Some d -> disk_ok d) -> Forall job_ok (jobs id schedules disk).
Proof.
  intros Hs Hd. apply Forall_app. split.
  - apply Forall_forall. intros job (s & -> & Hin)%list_elem_of_fmap. apply list_elem_of_In, filter_In in Hin as [Hin He]. apply list_elem_of_In in Hin.
    rewrite Forall_forall in Hs. destruct (Hs s Hin He) as [Hv Hp]. split_and!; [done|done|apply schedule_words_ok|done].
  - destruct disk as [d|]; [|constructor]. constructor; [|constructor]. split_and!; [reflexivity|reflexivity|by apply disk_words_ok, Hd|done].
Qed.

(** The entry of a job. *)
Definition entry_of_job (job : list Z * list (list Z)) (e : Entry) : Prop :=
  e.(en_user) = lit "root" /\ tokens e.(en_command) = Some (map Word job.2) /\ forall t, due e t = cron_due job.1 t.

Lemma read_jobs js : Forall job_ok js -> Forall (fun l => contains_char 10 l = false) (map job_line js) /\
  exists es, mapM read_line (map job_line js) = Some (map Some es) /\ Forall2 entry_of_job js es.
Proof.
  induction 1 as [|job js (Hv & Hp & Hw & Hne) _ (Hl & es & Hm & Hf)]; [split; [constructor|by exists []]|].
  destruct (read_command_line job.1 job.2 Hv Hp Hw Hne) as (Hl' & e & Hr & Hu & Ht & Hd). split; [by constructor|]. exists (e :: es). split; [|by constructor].
  cbn [map mapM]. change (job_line job) with (job.1 ++ lit " root " ++ join [32] job.2). rewrite Hr, Hm. done.
Qed.

Lemma header_lines id : Forall (fun l => contains_char 10 l = false /\ read_line l = Some None)
  [lit "# Managed by VibeSSH for Application " ++ uuid_text id ++ lit ". Edits here are overwritten."; lit "SHELL=/bin/sh"; lit "PATH=/usr/local/sbin:/usr/local/bin:/usr/sbin:/usr/bin:/sbin:/bin"].
Proof.
  repeat (apply Forall_cons; split); [|by split; vm_compute|by split; vm_compute|constructor]. split; [|done].
  destruct (uuid_word id) as (_ & _ & _ & Hn). unfold contains_char in *. rewrite !existsb_app, Hn. done.
Qed.

Lemma jobs_due js es t : Forall2 entry_of_job js es ->
  map (fun e => (e.(en_user), tokens e.(en_command))) (List.filter (fun e => due e t) es) = map (fun job => (lit "root", Some (map Word job.2))) (List.filter (fun job => cron_due job.1 t) js).
Proof.
  induction 1 as [|job e js es (Hu & Ht & Hd) _ IH]; [done|]. cbn [List.filter]. rewrite Hd. destruct (cron_due job.1 t); [|done]. cbn [map]. by rewrite Hu, Ht, IH.
Qed.

(** C27: Cron does what the schedules say, and nothing else.  When the expressions
    of the enabled schedules are those the validator accepts and stay within
    crontab(5) - a step is digits and comes after a star or a range - and the
    disk check has the directory its validator accepts, cron reads the whole
    file that is written for an application, and at any minute of the calendar
    it runs, as root, exactly one command for each enabled schedule whose
    expression names that minute - the runner with the application, the
    schedule and its action as arguments, for the shell as for cron - and the
    disk check where there is a limit.  Nothing in such a row can end its line,
    add another or change who runs it.  The validator accepts more: with a step
    like +5 cron reads none of the file ([signed_step_stops_every_schedule]). *)
Theorem cron_does_what_the_schedules_say id schedules disk :
  Forall (fun s => s.(as_enabled) = true -> schedule_ok s) schedules -> (forall d, disk = Some d -> disk_ok d) ->
  exists entries, read_crontab (build_cron_file id schedules disk) = Some entries /\
    forall t, map (fun e => (e.(en_user), tokens e.(en_command))) (List.filter (fun e => due e t) entries) =
              map (fun job => (lit "root", Some (map Word job.2))) (List.filter (fun job => cron_due job.1 t) (jobs id schedules disk)).
Proof.
  intros Hs Hd. destruct (read_jobs _ (jobs_ok id schedules disk Hs Hd)) as (Hl & es & Hm & Hf). exists es. split; [|intros t; by apply jobs_due].
  unfold read_crontab. rewrite build_cron_file_lines, crontab_lines_ended.
  - pose proof (header_lines id) as Hh. rewrite !Forall_cons in Hh. destruct Hh as ((_ & H1) & (_ & H2) & (_ & H3) & _). unfold file_lines. cbn [app mapM]. rewrite H1, H2, H3, Hm.
    cbn. f_equal. clear. induction es as [|e es IH]; [done|]. cbn. by rewrite IH.
  - unfold file_lines. apply Forall_app. split; [|exact Hl]. eapply Forall_impl; [apply header_lines|by intros l [? _]].
Qed.

Definition sample_schedule (id : N) (cron : string) (action : ScheduleAction) (enabled : bool) : ApplicationSchedule := mkSchedule id 7 (lit "Nightly") (lit cron) action enabled 0.
Definition sample_schedules : list ApplicationSchedule := [sample_schedule 1 "0 4 * * *" Restart true; sample_schedule 2 "*/15 8-18 * * 1-5" Start true; sample_schedule 3 "0 0 1 1 *" Stop false].

Lemma cron_does_what_the_schedules_say_witness : exists entries, read_crontab (build_cron_file 7 sample_schedules None) = Some entries /\
    forall t, map (fun e => (e.(en_user), tokens e.(en_command))) (List.filter (fun e => due e t) entries) =
              map (fun job => (lit "root", Some (map Word job.2))) (List.filter (fun job => cron_due job.1 t) (jobs 7 sample_schedules None)).
Proof. apply cron_does_what_the_schedules_say; [|done]. repeat (apply Forall_cons; split); [..|constructor]; intros He; try discriminate He; by split. Defined.

(** ** A schedule comes due *)

(** The months and days an expression names have a day in common with every
    year.  One of the two day fields has to be a plain star, or neither may
    begin with one; a day of the month needs a month that has it. *)
Definition names_a_day (cron : list Z) : bool :=
  match split_whitespace cron with
  | [_; _; day; month; weekday] =>
      str_eqb day STAR || (negb (starts_with_char 42 day) && negb (starts_with_char 42 weekday)) ||
      (str_eqb weekday STAR &&
       match read_field 1 31 day, read_field 1 12 month with
       | Some days, Some months => existsb (fun m => field_matches months m && existsb (fun d => field_matches days d && (d <=? days_in_month 1 m)) (seqZ 1 31)) (seqZ 1 12)
       | _, _ => false
       end)
  | _ => false
  end.

Lemma days_in_month_low y m : 28 <= days_in_month y m /\ days_in_month 1 m <= days_in_month y m.
Proof. unfold days_in_month. change (leap 1) with false. cbn iota. destruct (leap y), (m =? 2), ((m =? 4) || (m =? 6) || (m =? 9) || (m =? 11)); lia. Qed.

(** Every weekday falls on one of the first seven days of every month. *)
Lemma weekday_in_a_week y m w : exists d, 1 <= d <= 7 /\ weekday y m d = w mod 7.
Proof.
  exists (1 + (w - day_number y m 0 - 1) mod 7). pose proof (Z.mod_pos_bound (w - day_number y m 0 - 1) 7 ltac:(lia)). split; [lia|]. unfold weekday.
  replace (day_number y m (1 + (w - day_number y m 0 - 1) mod 7)) with (day_number y m 0 + 1 + (w - day_number y m 0 - 1) mod 7) by (unfold day_number; lia).
  rewrite Zplus_mod_idemp_r. f_equal. lia.
Qed.

Lemma weekday_matches_mod items w : 0 <= w <= 7 -> field_matches items w = true -> weekday_matches items (w mod 7) = true.
Proof.
  intros Hw Hf. unfold weekday_matches. apply orb_true_iff. destruct (Z.eq_dec w 7) as [->|Hne]; [right; by rewrite Hf|left; by rewrite Z.mod_small by lia].
Qed.

(** A plain star matches every value in bounds. *)
Lemma star_matches min max items v : read_field min max STAR = Some items -> min <= v <= max -> field_matches items v = true.
Proof.
  unfold read_field. change (split_on (Z.eqb 44) STAR) with [STAR]. cbn [mapM]. change (read_item min max STAR) with (Some (mkItem min max 1)). cbn. intros [= <-] Hv.
  unfold field_matches, item_matches. cbn. rewrite Z.mod_1_r. destruct (Z.leb_spec min v), (Z.leb_spec v max); try lia; done.
Qed.

Lemma weekday_range y m d : 0 <= weekday y m d <= 6.
Proof. unfold weekday. pose proof (Z.mod_pos_bound (day_number y m d) 7). lia. Qed.



(** ** Accepted, and not read *)

(** [u32::from_str] takes a leading plus sign, so [*/+5] is accepted, although
    "the only characters that can reach the cron file are digits and * / , -".
    Cron does not read it, and with it no schedule of the application. *)
Theorem signed_step_stops_every_schedule : validate_cron (lit "*/+5 * * * *") = Ok (lit "*/+5 * * * *") /\
  read_crontab (build_cron_file 7 [sample_schedule 1 "0 4 * * *" Restart true; sample_schedule 2 "*/+5 * * * *" Start true] None) = None.
Proof. split; vm_compute; reflexivity. Qed.
