(* ===== verification/ScheduleRuns.v ===== *)
(** * ScheduleRuns: what the runner does, and how it is read back

    One run of the script cron calls ([Schedules.schedule_runner]): a schedule
    becomes one [docker] call on the container of its application, and the line
    the script leaves is the line the desktop reads. *)

From S2P Require Import Prelude Text Shell Sandbox Validators Ufw Firewall Sudoers MemberAccount Mesh Docker DockerHost Isolation Desktop Cron AppLinks Schedules ScheduleText.

#[local] Open Scope Z_scope.

(** ** Ids *)

Definition id_char (c : Z) : bool := is_ascii_digit c || in_range 97 102 c || (c =? 45).

Lemma hex_digit_id n : 0 <= n < 16 -> id_char (hex_digit n) = true.
Proof. intros Hn. unfold hex_digit, id_char, is_ascii_digit, in_range. destruct (Z.ltb_spec n 10); lia. Qed.

Lemma hex_fixed_id width : forall n, forallb id_char (hex_fixed width n) = true.
Proof.
  induction width as [|w IH]; intros n; [done|]. cbn [hex_fixed]. rewrite forallb_app, IH. cbn [forallb]. rewrite hex_digit_id; [done|]. apply Z.mod_pos_bound. lia.
Qed.

Lemma uuid_text_id id : is_id (uuid_text id) = true.
Proof.
  unfold is_id. assert (Hc : forallb id_char (uuid_text id) = true /\ length (uuid_text id) = 36%nat).
  { unfold uuid_text. pose proof (hex_fixed_id 32 (Z.of_N id)) as Hc. destruct (uuid_simple_chars id) as [_ Hl]. fold (uuid_simple id) in Hc. revert Hc Hl. generalize (uuid_simple id). intros s Hc Hl.
    do 32 (destruct s as [|? s]; [discriminate Hl|]). destruct s; [|discriminate Hl]. cbn [take drop join app forallb length] in *. rewrite !andb_true_iff in *. tauto. }
  destruct Hc as [Hc Hl]. fold id_char. unfold chars_count. change (fun c => _) with id_char. rewrite Hc, Hl. destruct (uuid_text id); [discriminate Hl|done].
Qed.

(** ** Text the desktop reads *)

Lemma drop_while_snoc p s c : p c = true -> drop_while p (s ++ [c]) = match drop_while p s with [] => [] | r => r ++ [c] end.
Proof. intros Hc. induction s as [|x s IH]; cbn [app drop_while]; [by rewrite Hc|]. destruct (p x); [exact IH|done]. Qed.

Lemma trim_end_snoc p s c : p c = true -> trim_end_matches p (s ++ [c]) = trim_end_matches p s.
Proof. intros Hc. unfold trim_end_matches. rewrite rev_app_distr. cbn [rev app drop_while]. by rewrite Hc. Qed.

Lemma trim_snoc s c : is_whitespace c = true -> trim (s ++ [c]) = trim s.
Proof.
  intros Hc. unfold trim, trim_start_matches. rewrite drop_while_snoc by done. destruct (drop_while is_whitespace s) as [|x r]; [done|]. by apply trim_end_snoc.
Qed.

(** [lines] drops a carriage return at the end of a line. *)
Lemma strip_cr_cases s : strip_cr s = s \/ exists r, s = r ++ [13] /\ strip_cr s = r.
Proof.
  unfold strip_cr. destruct (rev s) as [|c r] eqn:E; [by left|]. destruct (Z.eq_dec c 13) as [->|Hne].
  - right. exists (rev r). split; [|done]. rewrite <-(rev_involutive s), E. done.
  - left. destruct c as [|c|c]; [done| |done]. do 4 (try (destruct c as [c|c|]; try done)).
Qed.

Lemma splitn_cons n c a rest : contains_char c a = false -> splitn (S (S n)) c (a ++ c :: rest) = a :: splitn (S n) c rest.
Proof. intros Ha. cbn [splitn]. by rewrite split_once_app. Qed.

Lemma digits_untouched s : forallb is_ascii_digit s = true -> trim s = s /\ contains_char 9 s = false /\ contains_char 10 s = false.
Proof.
  intros Hd. rewrite forallb_elem_of in Hd. split_and!; [apply trim_solid, forallb_elem_of; intros c Hc|unfold contains_char; apply existsb_false_elem_of; intros c Hc..]; specialize (Hd c Hc); revert Hd;
    unfold is_ascii_digit, is_whitespace, in_range; lia.
Qed.

Lemma to_dec_text n : 0 <= n < 10 ^ 20 -> trim (to_dec n) = to_dec n /\ contains_char 9 (to_dec n) = false /\ contains_char 10 (to_dec n) = false.
Proof. intros Hn. apply digits_untouched. by apply to_dec_spec. Qed.

Lemma uuid_text_plain id : contains_char 9 (uuid_text id) = false /\ contains_char 10 (uuid_text id) = false.
Proof.
  destruct (uuid_text_chars id) as [Hc _]. rewrite forallb_elem_of in Hc. split; unfold contains_char; apply existsb_false_elem_of; intros c Hin; specialize (Hc c Hin); revert Hc;
    unfold container_char, is_ascii_alphanumeric, is_ascii_alphabetic, is_ascii_uppercase, is_ascii_lowercase, is_ascii_digit, in_range; lia.
Qed.

Lemma run_message_text output : contains_char 10 (run_message output) = false.
Proof.
  unfold run_message, substituted. destruct (trim_end_prefix (Z.eqb 10) (take 300 (map (fun c => if (c =? 10) || (c =? 9) then 32 else c) output))) as [b Hb].
  unfold contains_char. apply existsb_false_elem_of. intros c Hc. assert (Hin : c ∈ map (fun c => if (c =? 10) || (c =? 9) then 32 else c) output).
  { eapply elem_of_submseteq; [|apply sublist_submseteq, sublist_take]. rewrite Hb. apply elem_of_app. by left. }
  apply list_elem_of_fmap in Hin as (x & -> & _). destruct (Z.eqb_spec x 10), (Z.eqb_spec x 9); cbn [orb]; try done. apply Z.eqb_neq. lia.
Qed.

(** ** The record of a run *)

(** Every file of the runner holds one ended line. *)
Definition files_ok (files : gmap (list Z * list Z) (list Z)) : Prop := forall key content, files !! key = Some content -> exists l, content = l ++ [10] /\ contains_char 10 l = false.

Lemma head_line_one l : contains_char 10 l = false -> head_line (l ++ [10]) = l ++ [10].
Proof. intros Hl. unfold head_line. by rewrite split_once_app. Qed.

(** The lines [status] prints. *)
Lemma status_lines (app : list Z) (entries : list ((list Z * list Z) * list Z)) :
  (forall key content, (key, content) ∈ entries -> exists l, content = l ++ [10] /\ contains_char 10 l = false) ->
  exists ls, (entries ≫= fun '((owner, file), line) => if str_eqb owner app && is_id file then file ++ [9] ++ head_line line else []) = (ls ≫= fun l => l ++ [10]) /\
    Forall (fun l => contains_char 10 l = false) ls /\ (forall file l, ((app, file), l ++ [10]) ∈ entries -> is_id file = true -> file ++ 9 :: l ∈ ls).
Proof.
  induction entries as [|[[owner file] content] entries IH]; intros Hok; [exists []; split_and!; [done|constructor|]; intros file l Hin; by apply not_elem_of_nil in Hin|].
  destruct IH as (ls & Heq & Hall & Hin). { intros key c Hc. apply (Hok key). by apply elem_of_cons; right. }
  destruct (Hok (owner, file) content) as (l & -> & Hl); [by apply elem_of_cons; left|]. rewrite bind_cons, Heq, head_line_one by done.
  destruct (str_eqb owner app) eqn:Ho; [destruct (is_id file) eqn:Hf|]; cbn [andb].
  - apply bool_decide_eq_true in Ho as ->. exists ((file ++ 9 :: l) :: ls). split_and!.
    + rewrite bind_cons. by rewrite <-!app_assoc.
    + constructor; [|done]. unfold contains_char in *. rewrite existsb_app. cbn [existsb]. rewrite Hl. change (10 =? 9) with false. rewrite !orb_false_r.
      unfold is_id in Hf. apply andb_true_iff in Hf as [[_ Hf]%andb_true_iff _]. rewrite forallb_elem_of in Hf. apply existsb_false_elem_of. intros c Hc. specialize (Hf c Hc). revert Hf. unfold is_ascii_digit, in_range. lia.
    + intros file' l' [Heq'|Hin']%elem_of_cons Hid; [|apply elem_of_cons; right; by apply Hin]. injection Heq' as -> Heq'. apply app_inj_tail in Heq' as [-> _]. by apply elem_of_cons; left.
  - exists ls. split_and!; [done|done|]. intros file' l' [Heq'|Hin']%elem_of_cons Hid; [|by apply Hin]. injection Heq' as -> -> _. by rewrite Hf in Hid.
  - exists ls. split_and!; [done|done|]. intros file' l' [Heq'|Hin']%elem_of_cons Hid; [|by apply Hin]. injection Heq' as -> _ _. by apply bool_decide_eq_false in Ho.
Qed.

Section runs.
Context {Host : Type} `{RunnerHost Host} `{NodeText}.
Implicit Types s : RunnerState Host.

(** The line of a run, read as the desktop reads it. *)
Lemma run_line_read sid t action code output : N.lt sid (2 ^ 128)%N -> 0 <= t < 253402300800 -> 0 <= code <= 255 ->
  parse_status_line (strip_cr (uuid_text sid ++ 9 :: to_dec t ++ 9 :: action_str action ++ 9 :: to_dec code ++ 9 :: run_message output)) =
  Some (mkScheduleRun sid t (action_str action) code (trim (run_message output))).
Proof.
  intros Hs Ht Hc. destruct (uuid_text_plain sid) as [Hu9 _]. destruct (to_dec_text t) as (Htt & Ht9 & _); [lia|]. destruct (to_dec_text code) as (Hct & Hc9 & _); [lia|].
  assert (Ha9 : contains_char 9 (action_str action) = false) by (by destruct action).
  assert (Hread : forall m, parse_status_line (uuid_text sid ++ 9 :: to_dec t ++ 9 :: action_str action ++ 9 :: to_dec code ++ 9 :: m) = Some (mkScheduleRun sid t (action_str action) code (trim m))).
  { intros m. unfold parse_status_line. rewrite !splitn_cons by done. cbn [splitn]. rewrite Htt, Hct, uuid_parse_text by done. unfold parse_i64, parse_i32.
    rewrite !parse_signed_to_dec by lia. unfold timestamp_opt. by rewrite timestamp_in_range_near. }
  destruct (strip_cr_cases (uuid_text sid ++ 9 :: to_dec t ++ 9 :: action_str action ++ 9 :: to_dec code ++ 9 :: run_message output)) as [->|(r & Hr & ->)]; [apply Hread|].
  destruct (run_message output) as [|x m _] using rev_ind.
  { exfalso. replace (uuid_text sid ++ 9 :: to_dec t ++ 9 :: action_str action ++ 9 :: to_dec code ++ [9]) with ((uuid_text sid ++ 9 :: to_dec t ++ 9 :: action_str action ++ 9 :: to_dec code) ++ [9]) in Hr
      by (rewrite <-!app_assoc; cbn [app]; rewrite <-!app_assoc; cbn [app]; by rewrite <-!app_assoc). by apply app_inj_tail in Hr as [_ ?]. }
  replace (uuid_text sid ++ 9 :: to_dec t ++ 9 :: action_str action ++ 9 :: to_dec code ++ 9 :: m ++ [x]) with ((uuid_text sid ++ 9 :: to_dec t ++ 9 :: action_str action ++ 9 :: to_dec code ++ 9 :: m) ++ [x]) in Hr
    by (rewrite <-!app_assoc; cbn [app]; rewrite <-!app_assoc; cbn [app]; rewrite <-!app_assoc; cbn [app]; by rewrite <-!app_assoc).
  apply app_inj_tail in Hr as [<- ->]. rewrite Hread. by rewrite trim_snoc.
Qed.

(** What [docker] is asked for. *)
Definition power_args (action : ScheduleAction) (name : list Z) : list (list Z) :=
  match action with Start => [lit "start"; name] | Stop => [lit "stop"; lit "-t"; GRACE; name] | Restart => [lit "restart"; lit "-t"; GRACE; name] end.

(** The Node after a power call: an application that is running again, and has a
    console pipe, is attached to it. *)
Definition reattached (action : ScheduleAction) (id : N) (code : Z) (host : Host) : Host :=
  let fifo := CONSOLE_DIR ++ lit "/" ++ uuid_text id ++ lit ".stdin" in
  if (code =? 0) && match action with Stop => false | _ => true end && node_is_pipe fifo host then node_attach fifo (container_name id) host else host.

(** C34: One run is one action, and is read back.  Called as a cron line calls it,
    the runner makes exactly one power call, on the container of that
    application: the state of the Node afterwards, the run files apart, is what
    that one call left, with the console attached again when the call succeeded
    and was no stop, and the exit status is the call's.  It writes no other
    record than that of this schedule; and when a record can be written there,
    the desktop's list of past runs shows when it began, the action, the exit
    status and what docker printed - and still every other record. *)
Theorem a_run_is_read_back id sid action s : N.lt sid (2 ^ 128)%N -> files_ok s.(rs_files) -> 0 <= node_clock s.(rs_host) < 253402300800 ->
  let '((code, _, output), host) := node_docker (power_args action (container_name id)) s.(rs_host) in
  let '(status, _, s') := schedule_runner [lit "run"; uuid_text id; uuid_text sid; action_str action] s in
  status = code /\ s'.(rs_host) = reattached action id code host /\ files_ok s'.(rs_files) /\ (forall key, key <> (uuid_text id, uuid_text sid) -> s'.(rs_files) !! key = s.(rs_files) !! key) /\
  (if node_saves s'.(rs_host) then
   mkScheduleRun sid (node_clock s.(rs_host)) (action_str action) code (trim (run_message (substituted output))) ∈ omap parse_status_line (lines (runner_status (uuid_text id) s'))
   else s'.(rs_files) = s.(rs_files)).
Proof.
  intros Hs Hok Ht. destruct (node_docker (power_args action (container_name id)) (rs_host s)) as [[[code out] output] host] eqn:Hd.
  pose proof (node_docker_status (power_args action (container_name id)) (rs_host s)) as Hc. rewrite Hd in Hc. cbn [fst snd] in Hc.
  assert (Hsi : show_int code = to_dec code) by (unfold show_int; destruct (Z.ltb_spec code 0); [lia|done]).
  set (l := join [9] [to_dec (node_clock (rs_host s)); action_str action; to_dec code; run_message (substituted output)]). set (line := l ++ [10]).
  assert (Hrun : schedule_runner [lit "run"; uuid_text id; uuid_text sid; action_str action] s = (code, [], save (uuid_text id) (uuid_text sid) line (mkRunner (reattached action id code host) (rs_files s)))).
  { change (schedule_runner [lit "run"; uuid_text id; uuid_text sid; action_str action] s)
      with (let '(code, s) := runner_run (uuid_text id) (uuid_text sid) (action_str action) s in (code, @nil Z, s)).
    unfold runner_run. rewrite !uuid_text_id. cbn [andb negb].
    fold (container_name id). replace (if str_eqb (action_str action) (lit "start") then _ else _) with (Some (power_args action (container_name id))) by (by destruct action). rewrite Hd, Hsi. by destruct action. }
  assert (Hl : contains_char 10 l = false).
  { destruct (to_dec_text (node_clock (rs_host s))) as (_ & _ & H1); [lia|]. destruct (to_dec_text code) as (_ & _ & H2); [lia|]. pose proof (run_message_text (substituted output)) as H3.
    assert (H4 : contains_char 10 (action_str action) = false) by (by destruct action). unfold l, contains_char in *. cbn [join]. by rewrite !existsb_app, H1, H2, H3, H4. }
  rewrite Hrun. unfold save. cbn [rs_host rs_files]. split; [done|]. destruct (node_saves (reattached action id code host)); [|split_and!; done]. cbn [rs_host rs_files]. split; [done|].
  assert (Hok' : files_ok (<[(uuid_text id, uuid_text sid) := line]> (rs_files s))).
  { intros key content [[<- <-]|[_ Hk]]%lookup_insert_Some; [by exists l|by apply (Hok key)]. }
  split_and!; [exact Hok'|intros key Hne; by rewrite lookup_insert_ne|]. unfold runner_status. cbn [rs_files].
  destruct (status_lines (uuid_text id) (map_to_list (<[(uuid_text id, uuid_text sid) := line]> (rs_files s)))) as (ls & -> & Hall & Hin).
  { intros key content Hk%elem_of_map_to_list. by apply (Hok' key). }
  rewrite lines_ended by done. apply list_elem_of_omap. exists (strip_cr (uuid_text sid ++ 9 :: l)). split.
  - apply list_elem_of_fmap. exists (uuid_text sid ++ 9 :: l). split; [done|]. apply Hin; [|apply uuid_text_id]. apply elem_of_map_to_list. by rewrite lookup_insert_eq.
  - unfold l. cbn [join app]. by apply run_line_read.
Qed.
End runs.

(** ** A small Node *)

(** The state of a Node is the list of its docker calls; docker is content with each. *)
#[global] Program Instance sample_runner : RunnerHost (list (list (list Z))) := {
  node_docker args calls := ((0, lit "ok", lit "ok"), calls ++ [args]);
  node_clock _ := 1700000000;
  node_is_dir _ _ := true;
  node_du_bytes _ _ := lit "2048";
  node_du_blocks _ _ := Some 2;
  node_is_pipe _ _ := false;
  node_attach _ _ calls := calls;
  node_saves _ := true;
}.
Next Obligation. intros. cbn. lia. Qed.

(** Ids read digit by digit, hyphens aside. *)
Definition hex_value (c : Z) : Z := if c <? 58 then c - 48 else c - 87.
Definition read_hex (s : list Z) : Z := fold_left (fun acc c => acc * 16 + hex_value c) s 0.
Definition read_uuid (s : list Z) : option N := Some (Z.to_N (read_hex (List.filter (fun c => negb (c =? 45)) s))).

Lemma read_hex_fixed width : forall n, 0 <= n -> read_hex (hex_fixed width n) = n mod 16 ^ Z.of_nat width.
Proof.
  induction width as [|w IH]; intros n Hn; [by rewrite Z.mod_1_r|]. cbn [hex_fixed]. unfold read_hex in *. rewrite fold_left_app, IH by (apply Z.div_pos; lia). cbn [fold_left].
  assert (Hv : hex_value (hex_digit (n mod 16)) = n mod 16).
  { pose proof (Z.mod_pos_bound n 16 ltac:(lia)). unfold hex_value, hex_digit. destruct (Z.ltb_spec (n mod 16) 10); [destruct (Z.ltb_spec (48 + n mod 16) 58)|destruct (Z.ltb_spec (87 + n mod 16) 58)]; lia. }
  rewrite Hv, Nat2Z.inj_succ, Z.pow_succ_r, (Z.rem_mul_r n 16) by lia. lia.
Qed.

Lemma filter_all (p : Z -> bool) s : forallb p s = true -> List.filter p s = s.
Proof. induction s as [|c s IH]; [done|]. cbn [forallb List.filter]. intros [-> Hs]%andb_true_iff. by rewrite IH. Qed.

Lemma hex_fixed_no_hyphen width : forall n, forallb (fun c => negb (c =? 45)) (hex_fixed width n) = true.
Proof.
  induction width as [|w IH]; intros n; [done|]. cbn [hex_fixed]. rewrite forallb_app, IH. cbn [forallb andb]. rewrite andb_true_r. apply negb_true_iff.
  pose proof (Z.mod_pos_bound n 16 ltac:(lia)). unfold hex_digit. destruct (Z.ltb_spec (n mod 16) 10); lia.
Qed.

Lemma uuid_text_digits id : List.filter (fun c => negb (c =? 45)) (uuid_text id) = uuid_simple id.
Proof.
  unfold uuid_text. destruct (uuid_simple_chars id) as [_ Hl]. pose proof (hex_fixed_no_hyphen 32 (Z.of_N id)) as Hc. fold (uuid_simple id) in Hc. revert Hc Hl. generalize (uuid_simple id). intros s Hc Hl.
  assert (Hp : forall n m, List.filter (fun c => negb (c =? 45)) (take n (drop m s)) = take n (drop m s)) by (intros n m; by apply filter_all, forallb_slice).
  cbn [join]. rewrite !List.filter_app, !Hp. rewrite (Hp 8%nat 0%nat : List.filter _ (take 8 s) = take 8 s).
  rewrite <-(take_ge (drop 20 s) 12), Hp by (rewrite length_drop; lia).
  clear -Hl. do 32 (destruct s as [|? s]; [discriminate Hl|]). destruct s; [|discriminate Hl]. reflexivity.
Qed.

#[global] Program Instance sample_node_text : NodeText := { uuid_parse := read_uuid; timestamp_in_range _ := true }.
Next Obligation.
  intros id Hid. unfold read_uuid. rewrite uuid_text_digits. unfold uuid_simple. rewrite read_hex_fixed by lia. change (16 ^ Z.of_nat 32) with (2 ^ 128). rewrite Z.mod_small; [by rewrite N2Z.id|].
  split; [lia|]. apply N2Z.inj_lt in Hid. by rewrite N2Z.inj_pow in Hid.
Qed.
Next Obligation. done. Qed.

Lemma a_run_is_read_back_witness :
  let s := mkRunner ([] : list (list (list Z))) ∅ in
  let '(_, _, s') := schedule_runner [lit "run"; uuid_text 7; uuid_text 11; lit "restart"] s in
  mkScheduleRun 11 1700000000 (lit "restart") 0 (lit "ok") ∈ omap parse_status_line (lines (runner_status (uuid_text 7) s')).
Proof.
  pose proof (a_run_is_read_back 7 11 Restart (mkRunner ([] : list (list (list Z))) ∅)) as Hr. destruct Hr as (_ & _ & _ & _ & Hr); [done|by intros key content Hk|done|]. exact Hr.
Defined.
