(* ===== verification/ScheduleSync.v ===== *)
(** * ScheduleSync: the table of schedules and the file on the Node

    Every row of the table stays one that cron can be given, whatever operations
    run and fail; and creating, changing and deleting a schedule keep the table
    and the Node's file together.  [CronHost] is what the commands these
    operations send do to the files of [/etc/cron.d]: the new file is put in
    place by a rename, and an answer may be lost after the command ran. *)

From S2P Require Import Prelude Text Shell Sandbox Validators Ufw Firewall Sudoers MemberAccount Mesh Docker Desktop Cron AppLinks Schedules ScheduleText ScheduleRuns.

#[local] Open Scope Z_scope.

(** ** Rows stay valid *)

Definition valid_schedule (s : ApplicationSchedule) : Prop := validate_input (input_of s) = Ok (input_of s).

Record ValidRows (rows : Rows) : Prop := {
  vr_valid : forall id s, rows.(rw_schedules) !! id = Some s -> s.(as_id) = id /\ valid_schedule s;
  vr_owned : forall id s, rows.(rw_schedules) !! id = Some s -> is_Some (rows.(rw_applications) !! s.(as_application_id));
}.

Lemma validate_input_idem input input' : validate_input input = Ok input' -> validate_input input' = Ok input'.
Proof.
  unfold validate_input. destruct (is_empty (trim (si_name input))) eqn:He; [done|]. destruct (80 <? chars_count (trim (si_name input))) eqn:Hl; [done|].
  intros (cron & Hc & Hi)%rbind_Ok. injection Hi as <-. cbn [si_name si_cron si_action si_enabled]. rewrite trim_twice, He, Hl, (validate_cron_idem _ _ Hc). done.
Qed.

(** What an input makes of a row. *)
Lemma valid_with_input s input input' : validate_input input = Ok input' -> valid_schedule (with_input s input').
Proof. intros Hi%validate_input_idem. unfold valid_schedule, input_of, with_input. cbn. by destruct input'. Qed.

Section rows.
Context {World : Type} `{Desk World} `{NodeSessions World} `{NodeText} (RUNNER_SCRIPT : list Z).

(** Whatever [m] answers, the rows are valid after it if they were before. *)
Definition keeps {A} (m : D Rows World A) : Prop := dspec (fun st _ => ValidRows st) m (fun _ st _ => ValidRows st).

Lemma valid_ret {A} (a : A) : keeps (dret a).
Proof. by intros s. Qed.
Lemma valid_throw {A} e : keeps (dthrow (A := A) e).
Proof. by intros s. Qed.
Lemma valid_bind {A B} (m : D Rows World A) (f : A -> D Rows World B) : keeps m -> (forall a, keeps (f a)) -> keeps (dbind m f).
Proof. intros Hm Hf. apply (dspec_bind _ _ _ (fun _ st _ => ValidRows st)); [|exact Hf]. intros s Hs. specialize (Hm s Hs). by destruct (m s) as [[a|e] s']. Qed.
Lemma keeps_host {A} (m : F World A) : keeps (on_host m).
Proof. intros s Hs. unfold on_host. by destruct (m (ds_fw s)). Qed.
Lemma keeps_attempt {A} (m : D Rows World A) : keeps m -> keeps (dattempt m).
Proof. intros Hm s Hs. unfold dattempt. specialize (Hm s Hs). by destruct (m s). Qed.
Lemma valid_lift {A} (r : AppResult A) : keeps (dlift r).
Proof. by destruct r; intros s. Qed.
Lemma keeps_uuid : keeps new_v4.
Proof. by intros s. Qed.
Lemma keeps_if {A} (b : bool) (m m' : D Rows World A) : keeps m -> keeps m' -> keeps (if b then m else m').
Proof. by destruct b. Qed.
Lemma keeps_statement {A} message (f : Rows -> A * Rows) : (forall rows, ValidRows rows -> ValidRows (f rows).2) -> keeps (statement message f).
Proof.
  intros Hf s Hs. unfold statement, ask, faulty. destruct (store_fault (fw_node (ds_fw s))) as [[detail|] w]; cbn; [done|]. specialize (Hf (ds_store s) Hs). by destruct (f (ds_store s)).
Qed.
Lemma keeps_checked message f : (forall rows rows', ValidRows rows -> f rows = Ok rows' -> ValidRows rows') -> keeps (checked message f).
Proof.
  intros Hf. apply valid_bind; [|intros []; by intros s]. apply keeps_statement. intros rows Hr. destruct (f rows) as [rows'|e] eqn:E; cbn; [by apply (Hf rows)|done].
Qed.
Lemma keeps_or_undo {A} m (undo : D Rows World A) : keeps m -> keeps undo -> keeps (or_undo m undo).
Proof. intros Hm Hu s Hs. unfold or_undo. specialize (Hm s Hs). destruct (m s) as [[a|e] s']; [done|]. specialize (Hu s' Hm). by destruct (undo s'). Qed.
End rows.

Create HintDb keeps.
#[export] Hint Resolve valid_ret valid_throw valid_bind keeps_host keeps_attempt valid_lift keeps_uuid keeps_if keeps_or_undo : keeps.

Section operations.
Context {World : Type} `{Desk World} `{NodeSessions World} `{NodeText} (RUNNER_SCRIPT : list Z).

Lemma keeps_reads {A} message (f : Rows -> A) : keeps (statement (Node := World) message (fun rows => (f rows, rows))).
Proof. by apply keeps_statement. Qed.
#[local] Hint Resolve keeps_reads : keeps.

(** Goes through an operation, statement by statement. *)
Ltac keep := repeat (first [apply valid_bind; [|intros] | apply keeps_or_undo | apply keeps_attempt | apply keeps_if | solve [eauto with keeps] | case_match]).

Lemma keeps_application_get id : keeps (World := World) (application_get id).
Proof. unfold application_get. keep. Qed.
Lemma keeps_schedule_get id : keeps (World := World) (schedule_get id).
Proof. apply keeps_reads. Qed.
Lemma keeps_schedule_found id : keeps (World := World) (schedule_found id).
Proof. unfold schedule_found, schedule_get. keep. Qed.
#[local] Hint Resolve keeps_application_get keeps_schedule_get keeps_schedule_found : keeps.
Lemma keeps_node_for id : keeps (World := World) (node_for id).
Proof. unfold node_for, server_get. keep. Qed.
Lemma keeps_run server command : keeps (World := World) (run_on server command).
Proof. apply keeps_host. Qed.
Lemma keeps_run_input server command input : keeps (World := World) (run_input_on server command input).
Proof. apply keeps_host. Qed.
Lemma keeps_put server path bytes : keeps (World := World) (put_on server path bytes).
Proof. apply keeps_host. Qed.
#[local] Hint Resolve keeps_node_for keeps_run keeps_run_input keeps_put : keeps.
Lemma keeps_runner server : keeps (World := World) (ensure_runner_installed RUNNER_SCRIPT server).
Proof. unfold ensure_runner_installed. keep. Qed.
Lemma keeps_cron server : keeps (World := World) (ensure_cron_available server).
Proof. unfold ensure_cron_available. keep. Qed.
#[local] Hint Resolve keeps_runner keeps_cron : keeps.
Lemma keeps_disk_check id : keeps (World := World) (disk_check_for id).
Proof. unfold disk_check_for. keep. Qed.
#[local] Hint Resolve keeps_disk_check : keeps.
Lemma keeps_sync server id : keeps (World := World) (sync_node RUNNER_SCRIPT server id).
Proof. unfold sync_node, write_to_node, schedule_list. keep. Qed.
#[local] Hint Resolve keeps_sync : keeps.

(** *** The statements that write *)

Lemma insert_schedule_valid s rows rows' : valid_schedule s -> ValidRows rows -> insert_schedule s rows = Ok rows' -> ValidRows rows'.
Proof.
  intros Hs [Hv Ho]. unfold insert_schedule. case_bool_decide; [done|]. case_bool_decide as Happ; [done|]. intros [= <-].
  split; intros id s'; cbn [rw_schedules rw_applications set_schedules]; intros [[<- <-]|[_ Hl]]%lookup_insert_Some; [done|by apply Hv| |by apply (Ho id)].
  by destruct (rw_applications rows !! as_application_id s).
Qed.

Lemma keeps_insert s : valid_schedule s -> keeps (World := World) (schedule_insert s).
Proof. intros Hs. apply keeps_checked. intros rows rows'. by apply insert_schedule_valid. Qed.

Lemma keeps_create id input input' : validate_input input = Ok input' -> keeps (World := World) (schedule_create id input').
Proof.
  intros Hi. unfold schedule_create, now. apply valid_bind; [apply keeps_uuid|intros k]. apply valid_bind; [apply keeps_host|intros t].
  apply valid_bind; [apply keeps_insert|intros; apply valid_ret]. apply (valid_with_input (mkSchedule k id [] [] Start false t) _ _ Hi).
Qed.

Lemma keeps_update id input input' : validate_input input = Ok input' -> keeps (World := World) (schedule_update id input').
Proof.
  intros Hi. apply keeps_checked. intros rows rows' [Hv Ho]. destruct (rw_schedules rows !! id) as [s|] eqn:Hs; [|done]. intros [= <-].
  split; intros k s'; cbn [rw_schedules rw_applications set_schedules]; intros [[<- <-]|[_ Hl]]%lookup_insert_Some.
  - split; [apply (Hv id s Hs)|by eapply valid_with_input].
  - by apply Hv.
  - apply (Ho id s Hs).
  - by apply (Ho k).
Qed.

Lemma keeps_delete id : keeps (World := World) (schedule_delete id).
Proof.
  apply keeps_statement. intros rows [Hv Ho]. split; intros k s; cbn [snd rw_schedules rw_applications set_schedules]; intros [_ Hl]%lookup_delete_Some; [by apply Hv|by apply (Ho k)].
Qed.

Lemma schedules_of_in rows id s : s ∈ schedules_of rows id <-> (exists k, rows.(rw_schedules) !! k = Some s) /\ s.(as_application_id) = id.
Proof.
  unfold schedules_of. rewrite merge_sort_Permutation. rewrite list_elem_of_In, filter_In, <-list_elem_of_In, N.eqb_eq. f_equiv. split.
  - intros ([k s'] & -> & Hk%elem_of_map_to_list)%list_elem_of_fmap. by exists k.
  - intros [k Hk]. apply list_elem_of_fmap. exists (k, s). split; [done|by apply elem_of_map_to_list].
Qed.

Lemma keeps_reassign from to : keeps (World := World) (schedule_reassign from to).
Proof.
  unfold schedule_reassign. apply valid_bind; [|intros []; keep]. apply keeps_statement. intros rows [Hv Ho]. cbn zeta. destruct (_ && _) eqn:E; cbn [snd]; [done|].
  split; intros k s; cbn [rw_schedules rw_applications set_schedules]; rewrite lookup_fmap; intros (s0 & Hl & ->)%fmap_Some; destruct (Hv k s0 Hl) as [Hk Hvalid]; unfold reassigned;
    destruct (N.eqb_spec (as_application_id s0) from) as [Hf|]; [by split|by split| |by apply (Ho k)].
  cbn [as_application_id]. assert (Hin : s0 ∈ schedules_of rows from) by (apply schedules_of_in; eauto).
  assert (Hpos : (0 <? Z.of_nat (length (schedules_of rows from))) = true) by (destruct (schedules_of rows from); [by apply not_elem_of_nil in Hin|reflexivity]).
  rewrite Hpos in E. cbn [andb] in E. apply bool_decide_eq_false in E. by destruct (rw_applications rows !! to).
Qed.

Lemma keeps_config id config : keeps (World := World) (update_runtime_config id config).
Proof.
  unfold update_runtime_config. apply valid_bind; [|intros; apply keeps_application_get]. apply keeps_checked. intros rows rows' [Hv Ho]. destruct (rw_applications rows !! id) as [row|] eqn:Hr; [|done]. intros [= <-].
  split; intros k s; cbn [rw_schedules rw_applications set_applications]; intros Hl; [by apply Hv|]. destruct (decide (as_application_id s = id)) as [->|Hne]; [by rewrite lookup_insert_eq|].
  rewrite lookup_insert_ne by done. by apply (Ho k).
Qed.

(** The operations of the service. *)
Inductive Op : Type :=
| OpCreate (application_id : N) (input : ScheduleInput)
| OpUpdate (schedule_id : N) (input : ScheduleInput)
| OpDelete (schedule_id : N)
| OpRunNow (schedule_id : N)
| OpMove (from to : N)
| OpDiskLimit (application_id : N) (limit_mb : option Z)
| OpInstallCron (server : N)
| OpRemoveFromNode (server application_id : N).

Definition perform (op : Op) : D Rows World unit :=
  match op with
  | OpCreate id input => dbind (create_schedule RUNNER_SCRIPT id input) (fun _ => dret tt)
  | OpUpdate id input => dbind (update_schedule RUNNER_SCRIPT id input) (fun _ => dret tt)
  | OpDelete id => delete_schedule RUNNER_SCRIPT id
  | OpRunNow id => run_schedule_now RUNNER_SCRIPT id
  | OpMove from to => dbind (move_schedules RUNNER_SCRIPT from to) (fun _ => dret tt)
  | OpDiskLimit id limit => dbind (set_disk_limit RUNNER_SCRIPT id limit) (fun _ => dret tt)
  | OpInstallCron server => install_cron server
  | OpRemoveFromNode server id => remove_from_node server id
  end.

(** A history: each operation from where the one before left off, failed or not. *)
Definition history (ops : list Op) (s : DeskState Rows World) : DeskState Rows World := fold_left (fun s op => (perform op s).2) ops s.

Lemma keeps_validated {A} input (f : ScheduleInput -> D Rows World A) : (forall input', validate_input input = Ok input' -> keeps (f input')) -> keeps (dbind (dlift (validate_input input)) f).
Proof. intros Hf s Hs. unfold dlift. destruct (validate_input input) as [input'|e] eqn:E; [|done]. by apply (Hf input' eq_refl s). Qed.

(** What is read from valid rows is valid. *)
Lemma get_valid id : dspec (Node := World) (fun st _ => ValidRows st) (schedule_get id) (fun r st _ => ValidRows st /\ forall s, r = Ok (Some s) -> valid_schedule s).
Proof.
  intros s Hs. unfold schedule_get, statement, ask, faulty. destruct (store_fault (fw_node (ds_fw s))) as [[detail|] w]; cbn; (split; [done|]); [done|].
  intros s' Hl. apply Ok_inj in Hl. by apply (vr_valid _ Hs id).
Qed.

Lemma keeps_found {A} id (f : ApplicationSchedule -> D Rows World A) : (forall s, valid_schedule s -> keeps (f s)) -> keeps (dbind (schedule_found id) f).
Proof.
  intros Hf. apply (dspec_bind _ _ _ (fun s st _ => ValidRows st /\ valid_schedule s)).
  - unfold schedule_found. apply (dspec_bind _ _ _ (fun found st _ => ValidRows st /\ forall s, found = Some s -> valid_schedule s)).
    + eapply dspec_conseq; [apply (get_valid id)|done|]. intros [found|e] st w [Hr Hv]; [|done]. split; [done|]. intros s ->. by apply Hv.
    + intros [s|]; [apply dspec_ret|apply dspec_throw]; intros st w [Hr Hv]; [|done]. split; [done|by apply Hv].
  - intros s. apply dspec_pure. intros Hv. by apply Hf.
Qed.

Lemma keeps_create_op id input : keeps (create_schedule RUNNER_SCRIPT id input).
Proof.
  unfold create_schedule. apply keeps_validated. intros input' Hi. apply valid_bind; [apply keeps_node_for|intros server]. apply valid_bind; [by eapply keeps_create|intros created].
  apply valid_bind; [|intros; apply valid_ret]. apply keeps_or_undo; [apply keeps_sync|apply keeps_delete].
Qed.

Lemma keeps_update_op id input : keeps (update_schedule RUNNER_SCRIPT id input).
Proof.
  unfold update_schedule. apply keeps_validated. intros input' Hi. apply keeps_found. intros before Hb. apply valid_bind; [apply keeps_node_for|intros server].
  apply valid_bind; [by eapply keeps_update|intros _]. apply valid_bind; [|intros; apply keeps_schedule_found]. apply keeps_or_undo; [apply keeps_sync|by eapply keeps_update].
Qed.

Lemma keeps_delete_op id : keeps (delete_schedule RUNNER_SCRIPT id).
Proof.
  unfold delete_schedule. apply (dspec_bind _ _ _ (fun found st _ => ValidRows st /\ forall s, found = Some s -> valid_schedule s)).
  { eapply dspec_conseq; [apply (get_valid id)|done|]. intros [found|e] st w [Hr Hv]; [|done]. split; [done|]. intros s ->. by apply Hv. }
  intros found. apply dspec_pure. intros Hv. destruct found as [s|]; [|apply valid_ret]. apply valid_bind; [apply keeps_node_for|intros server].
  apply valid_bind; [apply keeps_delete|intros _]. apply keeps_or_undo; [apply keeps_sync|by apply keeps_insert, Hv].
Qed.

Lemma keeps_move from to : keeps (move_schedules RUNNER_SCRIPT from to).
Proof. unfold move_schedules. apply valid_bind; [apply keeps_reassign|intros moved]. keep. Qed.

Lemma keeps_limit id limit : keeps (set_disk_limit RUNNER_SCRIPT id limit).
Proof.
  unfold set_disk_limit. apply keeps_if; [apply valid_throw|]. apply valid_bind; [apply keeps_node_for|intros server]. apply valid_bind; [apply keeps_application_get|intros detail].
  apply valid_bind; [keep|intros _]. destruct (ar_runtime_config detail) as [previous|]; [|apply valid_throw]. apply valid_bind; [apply keeps_config|intros _].
  apply valid_bind; [|intros; apply keeps_application_get]. apply keeps_or_undo; [apply keeps_sync|apply keeps_config].
Qed.

Lemma keeps_perform op : keeps (perform op).
Proof.
  destruct op as [id input|id input|id|id|from to|id limit|server|server id]; cbn [perform].
  - apply valid_bind; [apply keeps_create_op|intros; apply valid_ret].
  - apply valid_bind; [apply keeps_update_op|intros; apply valid_ret].
  - apply keeps_delete_op.
  - unfold run_schedule_now. keep.
  - apply valid_bind; [apply keeps_move|intros; apply valid_ret].
  - apply valid_bind; [apply keeps_limit|intros; apply valid_ret].
  - unfold install_cron. keep.
  - unfold remove_from_node. keep.
Qed.

(** C29: The table of schedules stays well typed.  Whatever sequence of operations
    runs, and whatever fails in the store, on the Nodes or on the way to them,
    every row is stored under its own id, belongs to an application, has a name
    of one to eighty characters, and holds an expression that is accepted in
    the very form it is stored in - the rows that were put back after a failure
    included. *)
Theorem schedule_rows_stay_valid ops s : ValidRows s.(ds_store) -> ValidRows (history ops s).(ds_store).
Proof. unfold history. revert s. induction ops as [|op ops IH]; intros s Hs; [done|]. cbn [fold_left]. apply IH. by apply (keeps_perform op s). Qed.
End operations.

(** ** The Node's file *)

(** The commands that are sent on the way and leave the cron files alone. *)
Inductive passing : list Z -> Prop :=
| passing_present : passing CRON_PRESENT
| passing_cat : passing CAT_RUNNER
| passing_install staging : passing (install_runner staging).

(** [cron_files] is what stands in [/etc/cron.d], by server and path.
    A removal or a replacement takes place wholly or not at all, and has taken
    place when it is answered with success; a lost answer says nothing. *)
Class CronHost (World : Type) `{Desk World} `{NodeSessions World} : Type := {
  cron_files : World -> gmap (N * list Z) (list Z);
  fault_keeps_cron : forall w, cron_files (store_fault w).2 = cron_files w;
  connect_keeps_cron : forall server w, cron_files (get_or_connect server w).2 = cron_files w;
  now_keeps_cron : forall w, cron_files (ns_now w).2 = cron_files w;
  staging_keeps_cron : forall server path bytes w, cron_files (ns_write_file server path bytes w).2 = cron_files w;
  passing_keeps_cron : forall server command w, passing command -> cron_files (ns_execute server command w).2 = cron_files w;
  removal : forall server id w, let '(r, w') := ns_execute server (remove_file id) w in
    (cron_files w' = cron_files w \/ cron_files w' = delete (server, cron_file_path id) (cron_files w)) /\
    (forall out, r = Ok out -> out.(exit_code) = 0 -> cron_files w' = delete (server, cron_file_path id) (cron_files w));
  replacement : forall server id bytes w, let '(r, w') := ns_execute_with_input server (replace_file id) bytes w in
    (cron_files w' = cron_files w \/ cron_files w' = <[(server, cron_file_path id) := bytes]> (cron_files w)) /\
    (forall out, r = Ok out -> out.(exit_code) = 0 -> cron_files w' = <[(server, cron_file_path id) := bytes]> (cron_files w));
}.

(** What the rows call for: the disk check, and the file; none where the check cannot be written. *)
Definition disk_of (rows : Rows) (id : N) : option (option DiskCheck) :=
  match rows.(rw_applications) !! id with
  | None => None
  | Some row =>
      match disk_limit_mb row.(ar_runtime_config) with
      | None => Some None
      | Some mb => match cron_safe_directory row.(ar_working_directory) with Ok directory => Some (Some (mkDiskCheck (limit_bytes mb) directory)) | Err _ => None end
      end
  end.

Definition file_for (rows : Rows) (id : N) : option (option (list Z)) :=
  (fun disk => let schedules := schedules_of rows id in if has_file schedules disk then Some (utf8 (build_cron_file id schedules disk)) else None) <$> disk_of rows id.

Definition set_file (files : gmap (N * list Z) (list Z)) (key : N * list Z) (file : option (list Z)) : gmap (N * list Z) (list Z) :=
  match file with Some bytes => <[key := bytes]> files | None => delete key files end.

Section agreement.
Context {World : Type} `{CronHost World} `{NodeText} (RUNNER_SCRIPT : list Z).
Implicit Types (rows : Rows) (files : gmap (N * list Z) (list Z)).

(** Exactly these rows and these files. *)
Definition stands rows files (st : Rows) (w : World) : Prop := st = rows /\ cron_files w = files.

(** Some statement may be refused by the store. *)
Definition store_refuses : Prop := exists w : World, is_Some (store_fault w).1.

(** [m] touches neither, whatever it answers. *)
Definition calm {A} (m : D Rows World A) : Prop := forall rows files, dspec (stands rows files) m (fun _ st w => stands rows files st w).

Lemma still_ret {A} (a : A) : calm (dret a).
Proof. by intros rows files s. Qed.
Lemma still_throw {A} e : calm (dthrow (A := A) e).
Proof. by intros rows files s. Qed.
Lemma still_bind {A B} (m : D Rows World A) (f : A -> D Rows World B) : calm m -> (forall a, calm (f a)) -> calm (dbind m f).
Proof.
  intros Hm Hf rows files. apply (dspec_bind _ _ _ (fun _ => stands rows files)); [|intros a; apply Hf]. intros s Hs. specialize (Hm rows files s Hs). by destruct (m s) as [[a|e] s'].
Qed.
Lemma still_attempt {A} (m : D Rows World A) : calm m -> calm (dattempt m).
Proof. intros Hm rows files s Hs. unfold dattempt. specialize (Hm rows files s Hs). by destruct (m s). Qed.
Lemma calm_ask {A} (f : World -> result AppError A * World) : (forall w, cron_files (f w).2 = cron_files w) -> calm (on_host (ask f)).
Proof. intros Hf rows files s [Hr Hw]. unfold on_host, ask. specialize (Hf (fw_node (ds_fw s))). destruct (f (fw_node (ds_fw s))). cbn in *. split; [done|congruence]. Qed.
Lemma calm_transported {A} (f : World -> result (list Z) A * World) : (forall w, cron_files (f w).2 = cron_files w) -> calm (transported f).
Proof. intros Hf. apply calm_ask. intros w. specialize (Hf w). by destruct (f w). Qed.
Lemma still_if {A} (b : bool) (m m' : D Rows World A) : calm m -> calm m' -> calm (if b then m else m').
Proof. by destruct b. Qed.
Lemma calm_uuid : calm new_v4.
Proof. by intros rows files s. Qed.
Lemma calm_lift {A} (r : AppResult A) : calm (dlift r).
Proof. destruct r; [apply still_ret|apply still_throw]. Qed.

Lemma statement_stands {A} message (f : Rows -> A * Rows) rows files :
  dspec (stands rows files) (statement message f) (fun r st w => match r with Ok a => a = (f rows).1 /\ stands (f rows).2 files st w | Err _ => stands rows files st w /\ store_refuses end).
Proof.
  intros s [Hr Hw]. unfold statement, ask, faulty. pose proof (fault_keeps_cron (fw_node (ds_fw s))) as Hk.
  destruct (store_fault (fw_node (ds_fw s))) as [[detail|] w] eqn:E; cbn in *.
  - split; [split; [done|congruence]|]. exists (fw_node (ds_fw s)). rewrite E. by eexists.
  - rewrite Hr. destruct (f rows) as [a rows'] eqn:Ef. cbn. split; [done|]. split; [done|congruence].
Qed.

Lemma calm_read {A} message (f : Rows -> A) : calm (statement message (fun rows => (f rows, rows))).
Proof. intros rows files. eapply dspec_conseq; [apply (statement_stands message _ rows files)|done|]. intros [a|e] st w; [by intros [_ ?]|by intros [? _]]. Qed.

Lemma calm_application_get id : calm (application_get id).
Proof. apply still_bind; [apply calm_read|]. intros []; [apply still_ret|apply still_throw]. Qed.

Lemma calm_runner server : calm (ensure_runner_installed RUNNER_SCRIPT server).
Proof.
  apply still_bind; [apply still_attempt, calm_transported; intros w; apply passing_keeps_cron; constructor|]. intros deployed. apply still_if; [apply still_ret|].
  apply still_bind; [apply calm_uuid|]. intros k. apply still_bind; [apply calm_transported; intros w; apply staging_keeps_cron|]. intros _.
  apply still_bind; [apply calm_transported; intros w; apply passing_keeps_cron; constructor|]. intros output. apply still_if; [apply still_throw|apply still_ret].
Qed.

Lemma calm_cron server : calm (ensure_cron_available server).
Proof. apply still_bind; [apply calm_transported; intros w; apply passing_keeps_cron; constructor|]. intros output. apply still_if; [apply still_throw|apply still_ret]. Qed.

(** A command that ends in a success only if it did what [after] says. *)
Lemma effect_stands (f : World -> result (list Z) CommandOutput * World) after rows files (k : CommandOutput -> AppError) :
  (forall w, cron_files w = files -> let '(r, w') := f w in (cron_files w' = files \/ cron_files w' = after) /\ (forall out, r = Ok out -> out.(exit_code) = 0 -> cron_files w' = after)) ->
  dspec (stands rows files) (dbind (transported f) (fun output => if negb (output.(exit_code) =? 0) then dthrow (k output) else dret tt))
    (fun r st w => st = rows /\ match r with Ok _ => cron_files w = after | Err _ => cron_files w = files \/ cron_files w = after end).
Proof.
  intros Hf s [Hr Hw]. unfold dbind, transported, on_host, ask. specialize (Hf (fw_node (ds_fw s)) Hw). destruct (f (fw_node (ds_fw s))) as [[out|m] w'] eqn:E; cbn.
  - destruct Hf as [Hor Hok]. destruct (Z.eqb_spec (exit_code out) 0) as [Hz|Hz]; cbn; (split; [done|]); [by apply (Hok out)|done].
  - by destruct Hf.
Qed.

(** [m] touches neither, and [phi] says what it may answer. *)
Definition reads {A} (m : D Rows World A) (phi : Rows -> A -> Prop) : Prop :=
  forall rows files, dspec (stands rows files) m (fun r st w => stands rows files st w /\ forall a, r = Ok a -> phi rows a).

Lemma reads_calm {A} (m : D Rows World A) : calm m -> reads m (fun _ _ => True).
Proof. intros Hm rows files. eapply dspec_conseq; [apply Hm|done|]. by intros r st w Hs. Qed.

Lemma bind_reads {A B} (m : D Rows World A) phi (f : A -> D Rows World B) rows files (Q : result AppError B -> Rows -> World -> Prop) :
  reads m phi -> (forall e st w, stands rows files st w -> Q (Err e) st w) -> (forall a, phi rows a -> dspec (stands rows files) (f a) Q) -> dspec (stands rows files) (dbind m f) Q.
Proof.
  intros Hm He Hf. apply (dspec_bind _ _ _ (fun a st w => stands rows files st w /\ phi rows a)); [|intros a; apply dspec_pure, Hf].
  eapply dspec_conseq; [apply Hm|done|]. intros [a|e] st w [Hs Ha]; [by split; [|apply Ha]|by apply He].
Qed.

Lemma reads_bind {A B} (m : D Rows World A) phi (f : A -> D Rows World B) (psi : Rows -> B -> Prop) :
  reads m phi -> (forall a rows files, phi rows a -> dspec (stands rows files) (f a) (fun r st w => stands rows files st w /\ forall b, r = Ok b -> psi rows b)) -> reads (dbind m f) psi.
Proof. intros Hm Hf rows files. eapply bind_reads; [exact Hm|done|]. intros a Ha. by apply Hf. Qed.

Lemma reads_statement {A} message (f : Rows -> A) : reads (statement message (fun rows => (f rows, rows))) (fun rows a => a = f rows).
Proof.
  intros rows files. eapply dspec_conseq; [apply (statement_stands message _ rows files)|done|]. intros [a|e] st w; cbn; [intros [-> Hs]|intros [Hs _]]; split; try done. by intros a' [= <-].
Qed.

Lemma reads_application id : reads (application_get id) (fun rows row => rows.(rw_applications) !! id = Some row).
Proof.
  eapply reads_bind; [apply reads_statement|]. intros [row|] rows files Hr; [apply dspec_ret|apply dspec_throw]; intros st w Hs; (split; [done|]); intros row' Heq; by simplify_eq.
Qed.

Lemma reads_disk id : reads (disk_check_for id) (fun rows disk => disk_of rows id = Some disk).
Proof.
  eapply reads_bind; [apply reads_application|]. intros row rows files Hr. unfold disk_of. rewrite Hr. destruct (disk_limit_mb (ar_runtime_config row)) as [mb|]; [|apply dspec_ret; intros st w Hs; split; [done|]; intros d Heq; by simplify_eq].
  intros s Hs. unfold dbind, dlift. destruct (cron_safe_directory (ar_working_directory row)) as [d|e]; cbn; (split; [exact Hs|]); intros disk Heq; by simplify_eq.
Qed.

Definition server_of (rows : Rows) (id : N) : option N := rows.(rw_applications) !! id ≫= ar_server_id.

Lemma reads_node id : reads (node_for id) (fun rows server => server_of rows id = Some server).
Proof.
  eapply reads_bind; [apply reads_application|]. intros row rows files Hr. unfold server_of. rewrite Hr. cbn [mbind option_bind].
  destruct (negb _); [apply dspec_throw; by intros st w Hs|]. destruct (ar_server_id row) as [server|]; [|apply dspec_throw; by intros st w Hs].
  eapply bind_reads; [apply reads_statement|by intros e st w Hs|]. intros [[]|] _; [|apply dspec_throw; by intros st w Hs..].
  eapply bind_reads; [apply reads_calm, calm_ask; intros w; apply connect_keeps_cron|by intros e st w Hs|]. intros _ _. apply dspec_ret. intros st w Hs. split; [done|]. intros server' Heq. by simplify_eq.
Qed.

(** The file stands as the rows call for. *)
Definition written rows files (server id : N) (w : World) : Prop := exists file, file_for rows id = Some file /\ cron_files w = set_file files (server, cron_file_path id) file.

Lemma sync_stands rows files server id :
  dspec (stands rows files) (sync_node RUNNER_SCRIPT server id)
    (fun r st w => st = rows /\ match r with Ok _ => written rows files server id w | Err _ => cron_files w = files \/ written rows files server id w end).
Proof.
  assert (He : forall e st w, stands rows files st w -> st = rows /\ match @Err AppError unit e with Ok _ => written rows files server id w | Err _ => cron_files w = files \/ written rows files server id w end)
    by (intros e st w [-> Hw]; split; [done|by left]).
  unfold sync_node, schedule_list. eapply bind_reads; [apply reads_statement|exact He|]. intros schedules Hsch. eapply bind_reads; [apply reads_disk|exact He|]. intros disk Hd. cbn beta in Hsch.
  unfold write_to_node. destruct (has_file schedules disk) eqn:Hf; cbn [negb].
  - eapply bind_reads; [apply reads_calm, calm_cron|exact He|]. intros _ _. eapply bind_reads; [apply reads_calm, calm_runner|exact He|]. intros _ _.
    assert (Hw : file_for rows id = Some (Some (utf8 (build_cron_file id schedules disk)))) by (unfold file_for; rewrite Hd; cbn; by rewrite <-Hsch, Hf).
    eapply dspec_conseq; [apply (effect_stands _ (<[(server, cron_file_path id) := utf8 (build_cron_file id schedules disk)]> files) rows files)|done|].
    + intros w <-. apply replacement.
    + intros [u|e] st w [-> Hc]; (split; [done|]); [by exists (Some (utf8 (build_cron_file id schedules disk)))|]. destruct Hc as [Hc|Hc]; [by left|right; by exists (Some (utf8 (build_cron_file id schedules disk)))].
  - assert (Hw : file_for rows id = Some None) by (unfold file_for; rewrite Hd; cbn; by rewrite <-Hsch, Hf).
    eapply dspec_conseq; [apply (effect_stands _ (delete (server, cron_file_path id) files) rows files)|done|].
    + intros w <-. apply removal.
    + intros [u|e] st w [-> Hc]; (split; [done|]); [by exists None|]. destruct Hc as [Hc|Hc]; [by left|right; by exists None].
Qed.

(** A change was made in the store: the Node follows, or the change is taken back. *)
Lemma undone_stands {A} rows rows1 files server id (undo : D Rows World A) :
  (forall files', dspec (stands rows1 files') undo (fun _ st w => (st = rows \/ store_refuses) /\ cron_files w = files')) ->
  dspec (stands rows1 files) (or_undo (sync_node RUNNER_SCRIPT server id) undo)
    (fun r st w => match r with
                   | Ok _ => st = rows1 /\ written rows1 files server id w
                   | Err _ => (st = rows \/ store_refuses) /\ (cron_files w = files \/ written rows1 files server id w)
                   end).
Proof.
  intros Hu s Hs. unfold or_undo. pose proof (sync_stands rows1 files server id s Hs) as Hsync. destruct (sync_node RUNNER_SCRIPT server id s) as [[u|e] s']; cbn in *; [done|].
  destruct Hsync as [Hst Hw]. destruct (Hu (cron_files (fw_node (ds_fw s'))) s' (conj Hst eq_refl)) as [Hrows Hfiles]. destruct (undo s') as [r s'']. cbn in *. split; [done|].
  destruct Hw as [Hw|(file & Hf & Hw)]; [left; congruence|right]. exists file. split; [done|congruence].
Qed.

Lemma checked_stands message f rows files :
  dspec (stands rows files) (checked message f)
    (fun r st w => match r with
                   | Ok _ => exists rows', f rows = Ok rows' /\ stands rows' files st w
                   | Err e => stands rows files st w /\ (f rows = Err e \/ store_refuses)
                   end).
Proof.
  unfold checked. apply (dspec_bind _ _ _ (fun r st w => match f rows with Ok rows' => r = Ok tt /\ stands rows' files st w | Err e => r = Err e /\ stands rows files st w end)).
  - eapply dspec_conseq; [apply (statement_stands message _ rows files)|done|]. intros [r|e] st w; cbn; [|intros [Hs Hr]; split; [done|by right]]. intros [-> Hs]. by destruct (f rows).
  - intros r s Hs. destruct (f rows) as [rows'|e]; destruct Hs as [-> Hs]; cbn; [by exists rows'|]. split; [done|by left].
Qed.

(** What an operation comes to.  [change] is what it makes of the rows, with the
    application concerned.  A success leaves the rows changed and the Node's file
    as they call for.  A failure leaves the rows as they were, unless the store
    itself refuses; the Node's file is the old one, or that of the change. *)
Definition outcome {A} rows files (change : Rows -> N -> Prop) (r : result AppError A) (st : Rows) (w : World) : Prop :=
  match r with
  | Ok _ => exists id server, change st id /\ server_of rows id = Some server /\ written st files server id w
  | Err _ => (st = rows \/ store_refuses) /\ (cron_files w = files \/ exists rows1 id server, change rows1 id /\ server_of rows id = Some server /\ written rows1 files server id w)
  end.

Lemma outcome_stands {A} rows files change e st w : stands rows files st w -> outcome (A := A) rows files change (Err e) st w.
Proof. intros [-> Hw]. split; by left. Qed.

(** The common end of the three operations. *)
Lemma follow_up {A B} rows rows1 files change server id (undo : D Rows World A) (f : D Rows World B) :
  change rows1 id -> server_of rows id = Some server ->
  (forall files', dspec (stands rows1 files') undo (fun _ st w => (st = rows \/ store_refuses) /\ cron_files w = files')) ->
  (forall files', dspec (stands rows1 files') f (fun r st w => stands rows1 files' st w /\ forall e, r = Err e -> store_refuses)) ->
  dspec (stands rows1 files) (dbind (or_undo (sync_node RUNNER_SCRIPT server id) undo) (fun _ => f)) (outcome rows files change).
Proof.
  intros Hc Hs Hu Hf. apply (dspec_bind _ _ _ (fun _ st w => st = rows1 /\ written rows1 files server id w)).
  - eapply dspec_conseq; [by apply (undone_stands rows rows1 files server id undo)|done|]. intros [u|e] st w Hr; [done|]. destruct Hr as [Hr Hw]. split; [done|]. destruct Hw; [by left|right; by exists rows1, id, server].
  - intros _ s [Hst Hw]. destruct (Hf _ s (conj Hst eq_refl)) as [[Hst' Hw'] He]. destruct (f s) as [[b|e] s']; cbn in *; unfold written in *; rewrite <-Hw' in Hw.
    + exists id, server. split_and!; [by rewrite Hst'|done|by rewrite Hst'].
    + split; [right; by eapply He|right]. by exists rows1, id, server.
Qed.

Lemma set_schedules_same rows : set_schedules rows (rw_schedules rows) = rows.
Proof. by destruct rows. Qed.

Definition created rows (application_id : N) (input : ScheduleInput) (rows1 : Rows) (id : N) : Prop :=
  id = application_id /\ exists sid t input', rows.(rw_schedules) !! sid = None /\ validate_input input = Ok input' /\
    rows1 = set_schedules rows (<[sid := mkSchedule sid id input'.(si_name) input'.(si_cron) input'.(si_action) input'.(si_enabled) t]> rows.(rw_schedules)).
Definition updated rows (sid : N) (input : ScheduleInput) (rows1 : Rows) (id : N) : Prop :=
  exists before input', rows.(rw_schedules) !! sid = Some before /\ id = before.(as_application_id) /\ validate_input input = Ok input' /\
    rows1 = set_schedules rows (<[sid := with_input before input']> rows.(rw_schedules)).
Definition deleted rows (sid : N) (rows1 : Rows) (id : N) : Prop :=
  exists s, rows.(rw_schedules) !! sid = Some s /\ id = s.(as_application_id) /\ rows1 = set_schedules rows (delete sid rows.(rw_schedules)).

Lemma bind_lift {A B} (r : AppResult A) (f : A -> D Rows World B) rows files (Q : result AppError B -> Rows -> World -> Prop) :
  (forall e st w, stands rows files st w -> Q (Err e) st w) -> (forall a, r = Ok a -> dspec (stands rows files) (f a) Q) -> dspec (stands rows files) (dbind (dlift r) f) Q.
Proof. intros He Hf s Hs. destruct r as [a|e]; [by apply (Hf a eq_refl)|by apply He]. Qed.

Lemma delete_restores rows sid s : rows.(rw_schedules) !! sid = None ->
  forall files', dspec (stands (set_schedules rows (<[sid := s]> rows.(rw_schedules))) files') (schedule_delete sid) (fun _ st w => (st = rows \/ store_refuses) /\ cron_files w = files').
Proof.
  intros Hn files'. eapply dspec_conseq; [apply (statement_stands _ _ (set_schedules rows (<[sid := s]> (rw_schedules rows))) files')|done|]. intros [u|e] st w; cbn.
  - intros [_ [-> ->]]. split; [|done]. left. unfold set_schedules. cbn. rewrite delete_insert_id by done. by destruct rows.
  - intros [[_ ->] Hr]. split; [by right|done].
Qed.

Lemma create_outcome rows files id input : dspec (stands rows files) (create_schedule RUNNER_SCRIPT id input) (outcome rows files (created rows id input)).
Proof.
  unfold create_schedule. apply bind_lift; [intros; by apply outcome_stands|]. intros input' Hi. eapply bind_reads; [apply reads_node|intros; by apply outcome_stands|]. intros server Hs.
  apply (dspec_bind _ _ _ (fun s st w => rows.(rw_schedules) !! s.(as_id) = None /\ created rows id input (set_schedules rows (<[s.(as_id) := s]> rows.(rw_schedules))) id /\
    stands (set_schedules rows (<[s.(as_id) := s]> rows.(rw_schedules))) files st w)).
  - unfold schedule_create. eapply bind_reads; [apply reads_calm, calm_uuid|intros; by apply outcome_stands|]. intros sid _.
    eapply bind_reads; [apply reads_calm, calm_ask; intros w; rewrite <-(now_keeps_cron w); by destruct (ns_now w)|intros; by apply outcome_stands|]. intros t _.
    set (s := mkSchedule _ _ _ _ _ _ _). apply (dspec_bind _ _ _ (fun _ st w => exists rows', insert_schedule s rows = Ok rows' /\ stands rows' files st w)).
    + eapply dspec_conseq; [apply (checked_stands _ _ rows files)|done|]. intros [u|e] st w; [done|]. intros [Hst _]. by apply outcome_stands.
    + intros _. apply dspec_ret. intros st w (rows' & Hins & Hst). unfold insert_schedule in Hins. case_bool_decide as Hn; [done|]. case_bool_decide; [done|]. injection Hins as <-.
      assert (Hnone : rw_schedules rows !! as_id s = None) by (by destruct (rw_schedules rows !! as_id s); [exfalso; eauto|]). split_and!; [done| |done]. split; [done|]. by exists sid, t, input'.
  - intros s s0 (Hn & Hc & Hst). revert s0 Hst. apply (follow_up rows _ files (created rows id input) server id); [done|done|by apply delete_restores|].
    intros files'. apply dspec_ret. intros st w Hst. by split.
Qed.

Lemma update_restores rows sid before input' : rows.(rw_schedules) !! sid = Some before ->
  forall files', dspec (stands (set_schedules rows (<[sid := with_input before input']> rows.(rw_schedules))) files') (schedule_update sid (input_of before))
    (fun _ st w => (st = rows \/ store_refuses) /\ cron_files w = files').
Proof.
  intros Hb files'. eapply dspec_conseq; [apply (checked_stands _ _ (set_schedules rows (<[sid := with_input before input']> (rw_schedules rows))) files')|done|]. cbn [set_schedules rw_schedules rw_applications rw_servers]. rewrite lookup_insert_eq. intros [u|e] st w.
  - intros (rows' & Hr & [-> ->]). split; [left|done]. injection Hr as <-. unfold set_schedules. cbn. rewrite insert_insert_eq.
    replace (with_input (with_input before input') (input_of before)) with before by (by destruct before). rewrite insert_id by done. by destruct rows.
  - intros [[_ ->] [Hf|Hr]]; [done|]. split; [by right|done].
Qed.

Lemma reads_found id : reads (schedule_found id) (fun rows s => rows.(rw_schedules) !! id = Some s).
Proof.
  eapply reads_bind; [apply reads_statement|]. intros [s|] rows files Hr; [apply dspec_ret|apply dspec_throw]; intros st w Hs; (split; [done|]); intros s' Heq; by simplify_eq.
Qed.

Lemma found_again rows files id s : rows.(rw_schedules) !! id = Some s -> dspec (stands rows files) (schedule_found id) (fun r st w => stands rows files st w /\ forall e, r = Err e -> store_refuses).
Proof.
  intros Hs. unfold schedule_found, schedule_get. apply (dspec_bind _ _ _ (fun found st w => found = Some s /\ stands rows files st w)).
  - eapply dspec_conseq; [apply (statement_stands _ _ rows files)|done|]. intros [found|e] st w; cbn; [intros [-> Hst]; by rewrite Hs|]. intros [Hst Hr]. by split.
  - intros found. intros s0 [-> Hst]. by split.
Qed.

Lemma update_outcome rows files sid input : dspec (stands rows files) (update_schedule RUNNER_SCRIPT sid input) (outcome rows files (updated rows sid input)).
Proof.
  unfold update_schedule. apply bind_lift; [intros; by apply outcome_stands|]. intros input' Hi. eapply bind_reads; [apply reads_found|intros; by apply outcome_stands|]. intros before Hb.
  eapply bind_reads; [apply reads_node|intros; by apply outcome_stands|]. intros server Hs. set (rows1 := set_schedules rows (<[sid := with_input before input']> rows.(rw_schedules))).
  apply (dspec_bind _ _ _ (fun _ => stands rows1 files)).
  - eapply dspec_conseq; [apply (checked_stands _ _ rows files)|done|]. cbn beta. rewrite Hb. intros [u|e] st w; [by intros (rows' & [= <-] & Hst)|]. intros [Hst _]. by apply outcome_stands.
  - intros _. apply (follow_up rows rows1 files (updated rows sid input) server (as_application_id before)); [by exists before, input'|done|by apply update_restores|].
    intros files'. apply (found_again rows1 files' sid (with_input before input')). cbn. by rewrite lookup_insert_eq.
Qed.

Lemma reinsert_restores rows sid s server : ValidRows rows -> rows.(rw_schedules) !! sid = Some s -> server_of rows s.(as_application_id) = Some server ->
  forall files', dspec (stands (set_schedules rows (delete sid rows.(rw_schedules))) files') (schedule_insert s) (fun _ st w => (st = rows \/ store_refuses) /\ cron_files w = files').
Proof.
  intros Hv Hs Hserver files'. destruct (vr_valid _ Hv sid s Hs) as [Hid _]. eapply dspec_conseq; [apply (checked_stands _ _ (set_schedules rows (delete sid (rw_schedules rows))) files')|done|].
  assert (Hins : insert_schedule s (set_schedules rows (delete sid (rw_schedules rows))) = Ok rows).
  { unfold insert_schedule. cbn [set_schedules rw_schedules rw_applications]. rewrite Hid, lookup_delete_eq. rewrite bool_decide_eq_false_2 by (by intros []).
    destruct (vr_owned _ Hv sid s Hs) as [row Hrow]. rewrite Hrow. rewrite bool_decide_eq_false_2 by done. unfold set_schedules. cbn. rewrite insert_delete_id by done. by destruct rows. }
  rewrite Hins. intros [u|e] st w; [intros (rows' & [= <-] & [-> ->]); split; [by left|done]|]. intros [[_ ->] [Hf|Hr]]; [done|]. split; [by right|done].
Qed.

Lemma delete_outcome rows files sid : ValidRows rows -> dspec (stands rows files) (delete_schedule RUNNER_SCRIPT sid)
  (fun r st w => (rows.(rw_schedules) !! sid = None /\ stands rows files st w) \/ outcome rows files (deleted rows sid) r st w).
Proof.
  intros Hv. assert (He : forall e st w, stands rows files st w -> (rows.(rw_schedules) !! sid = None /\ stands rows files st w) \/ outcome (A := unit) rows files (deleted rows sid) (Err e) st w)
    by (intros; right; by apply outcome_stands).
  unfold delete_schedule. eapply bind_reads; [apply reads_statement|exact He|]. intros found Hf. cbn beta in Hf. destruct found as [s|]; [|apply dspec_ret; intros st w Hst; by left].
  eapply bind_reads; [apply reads_node|exact He|]. intros server Hs. symmetry in Hf. set (rows1 := set_schedules rows (delete sid rows.(rw_schedules))).
  apply (dspec_bind _ _ _ (fun _ => stands rows1 files)).
  - eapply dspec_conseq; [apply (statement_stands _ _ rows files)|done|]. intros [u|e] st w; [by intros [_ Hst]|]. intros [Hst _]. by apply (He e).
  - intros _. eapply dspec_conseq; [apply (undone_stands rows rows1 files server (as_application_id s) (schedule_insert s)), (reinsert_restores rows sid s server); done|done|].
    assert (Hc : deleted rows sid rows1 (as_application_id s)) by (by exists s). intros [u|e] st w Hr; right.
    + destruct Hr as [-> Hw]. by exists (as_application_id s), server.
    + destruct Hr as [Hr Hw]. split; [done|]. destruct Hw; [by left|right; by exists rows1, (as_application_id s), server].
Qed.

(** C28: The table and the Node go together.  From valid rows, creating, changing
    and deleting a schedule each end in one of two ways.  A success: the rows are
    changed as asked, and the file of that application on its own Node is the
    one the changed rows call for - there is none when nothing is left to run.
    A failure: the rows are as they were, unless the store itself refuses a
    statement; the Node has its old file, or that of the change, whose answer
    was lost.  The cron file of no other application is touched, on any Node.
    (The file under a temporary name, which a failed write leaves beside it, is
    not one cron runs and is not part of the model.) *)
Theorem schedules_reach_their_node s : ValidRows s.(ds_store) ->
  let rows := s.(ds_store) in let files := cron_files s.(ds_fw).(fw_node) in
  (forall id input, let '(r, s') := create_schedule RUNNER_SCRIPT id input s in outcome rows files (created rows id input) r s'.(ds_store) s'.(ds_fw).(fw_node)) /\
  (forall sid input, let '(r, s') := update_schedule RUNNER_SCRIPT sid input s in outcome rows files (updated rows sid input) r s'.(ds_store) s'.(ds_fw).(fw_node)) /\
  (forall sid, let '(r, s') := delete_schedule RUNNER_SCRIPT sid s in
     (rows.(rw_schedules) !! sid = None /\ s'.(ds_store) = rows /\ cron_files s'.(ds_fw).(fw_node) = files) \/ outcome rows files (deleted rows sid) r s'.(ds_store) s'.(ds_fw).(fw_node)).
Proof.
  intros Hv rows files. assert (Hs : stands rows files (ds_store s) (fw_node (ds_fw s))) by done. split_and!.
  - intros id input. pose proof (create_outcome rows files id input s Hs) as Ho. by destruct (create_schedule RUNNER_SCRIPT id input s).
  - intros sid input. pose proof (update_outcome rows files sid input s Hs) as Ho. by destruct (update_schedule RUNNER_SCRIPT sid input s).
  - intros sid. pose proof (delete_outcome rows files sid Hv s Hs) as Ho. by destruct (delete_schedule RUNNER_SCRIPT sid s).
Qed.
End agreement.

(** ** A small Node *)

(** Files, and whether the answer to a replacement is lost. *)
Record SampleNode : Type := mkSampleNode { sn_files : gmap (N * list Z) (list Z); sn_lossy : bool }.

(** The last word of a command, without its quotes. *)
Definition last_word (command : list Z) : list Z := match rsplit_once 32 command with Some (_, word) => removelast (tl word) | None => [] end.

#[global] Instance sample_node_desk : Desk SampleNode := {
  store_fault n := (None, n);
  load_environment_secret _ _ n := (Ok None, n);
  get_or_connect _ n := (Ok tt, n);
}.

#[global] Instance sample_node_sessions : NodeSessions SampleNode := {
  ns_execute server command n :=
    (Ok (mkOutput 0 [] []), if starts_with (lit "sudo rm -f ") command then mkSampleNode (delete (server, last_word command) n.(sn_files)) n.(sn_lossy) else n);
  ns_execute_with_input server command input n :=
    (if n.(sn_lossy) then Err (lit "timed out") else Ok (mkOutput 0 [] []), mkSampleNode (<[(server, last_word command) := input]> n.(sn_files)) n.(sn_lossy));
  ns_write_file _ _ _ n := (Ok tt, n);
  ns_now n := (0, n);
}.

Lemma rsplit_last a q : contains_char 32 q = false -> rsplit_once 32 (a ++ 32 :: q) = Some (a, q).
Proof.
  intros Hq. assert (Hn : rsplit_once 32 q = None).
  { induction q as [|c q IH]; [done|]. unfold contains_char in Hq. cbn [existsb] in Hq. apply orb_false_iff in Hq as [Hc Hq]. cbn [rsplit_once]. rewrite IH by done. rewrite Z.eqb_sym in Hc. by rewrite Hc. }
  induction a as [|c a IH]; cbn [app rsplit_once]; [by rewrite Hn|by rewrite IH].
Qed.

Lemma quote_plain s : contains_char 39 s = false -> quote s = [39] ++ s ++ [39].
Proof.
  intros Hs. unfold quote. f_equal. f_equal. induction s as [|c s IH]; [done|]. unfold contains_char in Hs. cbn [existsb] in Hs. apply orb_false_iff in Hs as [Hc Hs].
  rewrite bind_cons, IH by done. unfold quote_char. rewrite Z.eqb_sym in Hc. by rewrite Hc.
Qed.

Lemma cron_path_plain id c : contains_char c (lit "/etc/cron.d/vibessh-app-") = false -> container_char c = false -> contains_char c (cron_file_path id) = false.
Proof.
  intros Hp Hc. unfold cron_file_path, contains_char in *. rewrite existsb_app, Hp. cbn [orb]. apply existsb_false_elem_of. intros x Hx. destruct (uuid_text_chars id) as [Hu _].
  rewrite forallb_elem_of in Hu. specialize (Hu x Hx). apply Z.eqb_neq. intros <-. by rewrite Hc in Hu.
Qed.

Lemma last_word_path prefix id : last_word (prefix ++ 32 :: quote (cron_file_path id)) = cron_file_path id.
Proof.
  unfold last_word. rewrite quote_plain by (by apply cron_path_plain). rewrite rsplit_last.
  - cbn [app tl]. apply removelast_last.
  - unfold contains_char. rewrite !existsb_app. cbn [existsb]. fold (contains_char 32 (cron_file_path id)). by rewrite cron_path_plain.
Qed.

Lemma passing_no_rm command : passing command -> starts_with (lit "sudo rm -f ") command = false.
Proof. by destruct 1. Qed.

#[global] Program Instance sample_cron_host : CronHost SampleNode := { cron_files := sn_files }.
Next Obligation. done. Qed.
Next Obligation. done. Qed.
Next Obligation. done. Qed.
Next Obligation. done. Qed.
Next Obligation. intros server command w Hp. cbn. by rewrite passing_no_rm. Qed.
Next Obligation.
  intros server id w. cbn -[last_word remove_file starts_with]. change (starts_with (lit "sudo rm -f ") (remove_file id)) with true. cbn iota. rewrite (last_word_path (lit "sudo rm -f") id : last_word (remove_file id) = cron_file_path id). split; [by right|done].
Qed.
Next Obligation.
  intros server id bytes w. cbn -[last_word replace_file]. unfold replace_file.
  set (temporary := quote _). replace (lit "sudo tee " ++ temporary ++ lit " >/dev/null && sudo chmod 0644 " ++ temporary ++ lit " && sudo mv -f " ++ temporary ++ lit " " ++ quote (cron_file_path id))
    with ((lit "sudo tee " ++ temporary ++ lit " >/dev/null && sudo chmod 0644 " ++ temporary ++ lit " && sudo mv -f " ++ temporary) ++ 32 :: quote (cron_file_path id)) by (by rewrite <-!app_assoc).
  rewrite last_word_path. split; [by right|]. intros out. by destruct (sn_lossy w).
Qed.

Definition sample_rows : Rows := mkRows ∅ {[7%N := mkApplicationRow RtDocker (Some 1%N) (lit "/srv/app") (Some ∅)]} {[1%N := SshMode]}.
Definition sample_schedules_state (lossy : bool) : DeskState Rows SampleNode := mkDesk sample_rows (mkFw (mkSampleNode ∅ lossy) ∅ 11).
Definition sample_input : ScheduleInput := mkScheduleInput (lit "Nightly") (lit "0 4 * * *") Restart true.

Lemma sample_rows_valid : ValidRows sample_rows.
Proof. by split. Qed.

Lemma schedule_rows_stay_valid_witness : ValidRows (history [] [OpCreate 7 sample_input; OpUpdate 11 sample_input; OpDelete 12] (sample_schedules_state false)).(ds_store).
Proof. apply schedule_rows_stay_valid. apply sample_rows_valid. Defined.

Lemma schedules_reach_their_node_witness :
  let '(r, s') := create_schedule [] 7 sample_input (sample_schedules_state false) in
  outcome (sample_schedules_state false).(ds_store) (cron_files (sample_schedules_state false).(ds_fw).(fw_node))
    (created (sample_schedules_state false).(ds_store) 7 sample_input) r s'.(ds_store) s'.(ds_fw).(fw_node).
Proof.
  generalize sample_input. generalize 7%N.
  exact (proj1 (schedules_reach_their_node [] (sample_schedules_state false) sample_rows_valid)).
Defined.

(** ** A schedule nobody can see *)

(** "The row and the Node have to agree."  When the answer to the last command is
    lost after the file was put in place, the row is taken back and the file is
    not: the schedule goes on firing with no row left to show it. *)
Theorem lost_answer_leaves_a_schedule : let '(r, s') := create_schedule [] 7 sample_input (sample_schedules_state true) in
  is_ok r = false /\ s'.(ds_store) = sample_rows /\
  match s'.(ds_fw).(fw_node).(sn_files) !! (1%N, cron_file_path 7) with
  | Some file => match read_crontab file with Some [e] => due e (mkMinute 2026 1 31 4 0) | _ => false end
  | None => false
  end = true.
Proof. vm_compute. split_and!; reflexivity. Qed.
