(* ===== verification/Archive.v ===== *)
(** * Archive: an application's files into a zip, and back

    [apps/desktop/src-tauri/src/files/archive.rs] over the trait
    [ApplicationFileProvider] of [files/mod.rs].

    The trait is the class [FileProvider]: a provider is the files of one
    application, named by its id, and every call may fail.  The zip crate is the
    class [ZipCrate].  An archive is staged in a scratch file on this machine;
    here it is the bytes that file holds, its creation and its opening may fail,
    and its removal has no counterpart. *)

From S2P Require Import Prelude Text Shell Sandbox Firewall Desktop.

#[local] Open Scope Z_scope.
#[local] Open Scope desk_scope.

(** ** Files *)

(** The fields of an entry that are read here. *)
Record RemoteFileEntry : Type := mkEntry { re_name : list Z; re_is_dir : bool; re_is_symlink : bool; re_size : Z }.

Class FileProvider (World : Type) : Type := {
  fp_list_directory : N -> list Z -> World -> result AppError (list RemoteFileEntry) * World;
  fp_metadata : N -> list Z -> World -> result AppError RemoteFileEntry * World;
  fp_read_file : N -> list Z -> World -> result AppError (list Z) * World;
  fp_write_file : N -> list Z -> list Z -> World -> result AppError unit * World;
  fp_create_directory : N -> list Z -> World -> result AppError unit * World;
  fp_delete : N -> list Z -> World -> result AppError unit * World;
  fp_download_file : N -> list Z -> World -> result AppError (list Z) * World;
  fp_upload_file : N -> list Z -> list Z -> World -> result AppError unit * World;
  fp_scratch : World -> result AppError unit * World;   (* creating or opening a scratch file *)
}.

(** ** The zip crate *)

(** What a [ZipWriter] is given: [add_directory], or [start_file] and its contents. *)
Inductive ZipItem : Type :=
| ZipDir (name : list Z)
| ZipFile (name : list Z) (contents : list Z).

(** What [ZipArchive::by_index] gives: [ze_data] is what a read of at most
    [ze_size] bytes, the declared size, yields. *)
Record ZipEntry : Type := mkZipEntry { ze_name : list Z; ze_is_dir : bool; ze_size : Z; ze_data : option (list Z) }.

Class ZipCrate : Type := {
  zip_add : list ZipItem -> ZipItem -> result (bool * list Z) unit;   (* to what was written so far; [true]: it was started, its contents failed *)
  zip_finish : list ZipItem -> result (list Z) (list Z);
  zip_open : list Z -> option (list (option ZipEntry));   (* ZipArchive::new, and each by_index *)
  enclosed_name : list Z -> option (list Z);
}.

Definition MAX_ENTRY_BYTES : Z := 2 * 1024 * 1024 * 1024.
Definition MAX_TOTAL_BYTES : Z := 8 * 1024 * 1024 * 1024.
Definition MAX_ENTRIES : Z := 20000.
Definition MAX_ARCHIVE_DEPTH : nat := 64.
Definition U64_MAX : Z := 18446744073709551615.

Section archive.
Context {St World : Type} `{FileProvider World} `{ZipCrate}.

Definition provided {A} (f : World -> result AppError A * World) : D St World A := on_host (ask f).
Definition dtry {A} (m : D St World A) : D St World (result AppError A) := fun s => let '(r, s) := m s in (Ok r, s).
Definition refuse {A} (what : list Z) (text : string) : D St World A := dthrow (InvalidInput (mkInvalid what (Other (lit text)))).

(** ** Writing an archive *)

Definition write_item (name : list Z) (item : ZipItem) (writer : list ZipItem) : D St World (list ZipItem) :=
  match zip_add writer item with
  | Ok _ => dret (writer ++ [item])
  | Err (false, detail) => dthrow (Internal (lit "couldn't add '" ++ name ++ lit "' to the archive: " ++ detail))
  | Err (true, detail) => dthrow (Internal (lit "couldn't write '" ++ name ++ lit "' into the archive: " ++ detail))
  end.

Fixpoint each {A B} (f : A -> B -> D St World B) (l : list A) (acc : B) : D St World B :=
  match l with
  | [] => dret acc
  | a :: l => acc <- f a acc ;; each f l acc
  end.

(** [levels] is how many levels are left: the depth of the source is
    [MAX_ARCHIVE_DEPTH + 1 - levels]. *)
Fixpoint write_into_zip (levels : nat) (provider : N) (path name : list Z) (writer : list ZipItem) : D St World (list ZipItem) :=
  match levels with
  | O => refuse name "is nested more than 64 levels deep - archiving stopped in case this is a symlink loop"
  | S levels =>
      stat <- provided (fp_metadata provider path) ;;
      if stat.(re_is_symlink) then dret writer
      else if stat.(re_is_dir) then
        writer <- write_item name (ZipDir (name ++ [47])) writer ;;
        entries <- provided (fp_list_directory provider path) ;;
        each (fun entry writer =>
                if entry.(re_is_symlink) then dret writer
                else write_into_zip levels provider (trim_end_matches (Z.eqb 47) path ++ [47] ++ entry.(re_name)) (name ++ [47] ++ entry.(re_name)) writer)
          entries writer
      else
        contents <- provided (fp_read_file provider path) ;;
        write_item name (ZipFile name contents) writer
  end.

(** The last component of a path, or the path. *)
Definition base_name (path : list Z) : list Z :=
  match rsplit_once 47 path with Some (_, name) => if is_empty name then path else name | None => path end.

Definition create_zip (provider : N) (paths : list (list Z)) (destination_path : list Z) : D St World unit :=
  provided fp_scratch ;;;
  writer <- each (fun path writer => write_into_zip (S MAX_ARCHIVE_DEPTH) provider path (base_name path) writer) paths [] ;;
  match zip_finish writer with
  | Err detail => dthrow (Internal (lit "couldn't finalize the archive: " ++ detail))
  | Ok bytes => provided (fp_upload_file provider bytes destination_path)
  end.

(** ** Reading one *)

(** The loop of [create_directory_all_cached]; what it returns is the cache. *)
Fixpoint make_directories (provider : N) (built : list Z) (segments : list (list Z)) (known : gset (list Z)) : D St World (gset (list Z)) :=
  match segments with
  | [] => dret known
  | segment :: segments =>
      let built := if is_empty built then segment else built ++ [47] ++ segment in
      if bool_decide (built ∈ known) then make_directories provider built segments known
      else
        found <- dtry (provided (fp_metadata provider built)) ;;
        match found with
        | Ok entry => if entry.(re_is_dir) then dret tt else refuse built "already exists and isn't a directory"
        | Err _ => provided (fp_create_directory provider built)
        end ;;;
        make_directories provider built segments (known ∪ {[built]})
  end.

Definition create_directory_all_cached (provider : N) (path : list Z) (known : gset (list Z)) : D St World (gset (list Z)) :=
  make_directories provider [] (List.filter (fun s => negb (is_empty s)) (split_on (Z.eqb 47) path)) known.
Definition create_directory_all (provider : N) (path : list Z) : D St World (gset (list Z)) := create_directory_all_cached provider path ∅.

(** [replace('\\', "/")]. *)
Definition forward_slashes (path : list Z) : list Z := map (fun c => if c =? 92 then 47 else c) path.

Definition target_of (destination relative : list Z) : list Z :=
  if is_empty destination || str_eqb destination DOT then relative else trim_end_matches (Z.eqb 47) destination ++ [47] ++ relative.

(** What the loop carries: [extracted], [total_bytes] and the cache. *)
Record Extraction : Type := mkExtraction { ex_extracted : Z; ex_total_bytes : Z; ex_known : gset (list Z) }.

(** One entry, put where it belongs. *)
Definition place_entry (provider : N) (target : list Z) (is_dir : bool) (contents : list Z) (x : Extraction) : D St World Extraction :=
  if is_dir then
    known <- create_directory_all_cached provider target x.(ex_known) ;;
    dret (mkExtraction x.(ex_extracted) x.(ex_total_bytes) known)
  else
    known <- match rsplit_once 47 target with
             | Some (parent, _) => create_directory_all_cached provider parent x.(ex_known)
             | None => dret x.(ex_known)
             end ;;
    provided (fp_write_file provider target contents) ;;;
    dret (mkExtraction (x.(ex_extracted) + 1) x.(ex_total_bytes) known).

(** One turn of the loop. *)
Definition extract_entry (provider : N) (destination : list Z) (entry : option ZipEntry) (x : Extraction) : D St World Extraction :=
  match entry with
  | None => refuse [] "couldn't read archive entry"
  | Some entry =>
      match enclosed_name entry.(ze_name) with
      | None => dret x
      | Some entry_path =>
          let relative := forward_slashes entry_path in
          let target := target_of destination relative in
          if entry.(ze_is_dir) then place_entry provider target true [] x
          else if MAX_ENTRY_BYTES <? entry.(ze_size) then refuse relative "claims to be larger than the limit for a single file"
          else
            let total := Z.min U64_MAX (x.(ex_total_bytes) + entry.(ze_size)) in
            if MAX_TOTAL_BYTES <? total then refuse [] "this archive expands to more than the total extraction limit"
            else
              match entry.(ze_data) with
              | None => refuse relative "couldn't be read from the archive"
              | Some contents => place_entry provider target false contents (mkExtraction x.(ex_extracted) total x.(ex_known))
              end
      end
  end.

Definition extract_zip_from (provider : N) (source destination : list Z) : D St World Z :=
  match zip_open source with
  | None => refuse [] "not a valid zip archive"
  | Some archive =>
      if MAX_ENTRIES <? Z.of_nat (length archive) then refuse [] "this archive contains more entries than VibeSSH will extract at once"
      else
        x <- each (extract_entry provider destination) archive (mkExtraction 0 0 ∅) ;;
        dret x.(ex_extracted)
  end.

Definition extract_zip (provider : N) (archive_bytes destination : list Z) : D St World Z := extract_zip_from provider archive_bytes destination.
Definition extract_zip_from_file (provider : N) (archive destination : list Z) : D St World Z :=
  provided fp_scratch ;;; extract_zip_from provider archive destination.

(** A path and the directories above it; each turn drops a component. *)
Fixpoint with_parents (fuel : nat) (current : list Z) : list (list Z) :=
  match fuel with
  | O => []
  | S fuel => if is_empty current then [] else current :: with_parents fuel (match rsplit_once 47 current with Some (parent, _) => parent | None => [] end)
  end.

Fixpoint archive_paths (archive : list (option ZipEntry)) (paths : gset (list Z)) : D St World (gset (list Z)) :=
  match archive with
  | [] => dret paths
  | None :: _ => refuse [] "couldn't read archive entry"
  | Some entry :: archive =>
      match enclosed_name entry.(ze_name) with
      | None => archive_paths archive paths
      | Some name =>
          let current := trim_end_matches (Z.eqb 47) (forward_slashes name) in
          archive_paths archive (paths ∪ list_to_set (with_parents (length current) current))
      end
  end.

Definition entry_paths (archive : list Z) : D St World (gset (list Z)) :=
  provided fp_scratch ;;;
  match zip_open archive with
  | None => refuse [] "not a valid zip archive"
  | Some archive => archive_paths archive ∅
  end.
End archive.
