(* ===== verification/Backups.v ===== *)
(** * Backups: copies of an application's directory, and back

    [services/application_backup_service.rs], its model
    ([models/application_backup.rs], [models/backup_destination.rs]) and its
    tables ([storage/application_backup_repository.rs]): making, deleting and
    restoring a backup, the off-site copy, the retention rules and the sweep
    over the schedules.

    The class [BackupHost] is what the service calls besides the files of
    [Archive]: the provider and the status of an application (the services of
    those names), the clock, the keyring and an S3-compatible store.  Times are
    in nanoseconds; a log line has no counterpart. *)

From S2P Require Import Prelude Text Shell Sandbox Firewall Docker Desktop Archive.

#[local] Open Scope Z_scope.
#[local] Open Scope desk_scope.

(** ** Data *)

Inductive BackupKind : Type := Manual | Scheduled.
#[global] Instance backup_kind_eq : EqDecision BackupKind.
Proof. solve_decision. Defined.
Definition kind_str (kind : BackupKind) : list Z := match kind with Manual => lit "manual" | Scheduled => lit "scheduled" end.
Definition parse_kind (value : list Z) : BackupKind := if str_eqb value (lit "scheduled") then Scheduled else Manual.
Lemma kind_read_back kind : parse_kind (kind_str kind) = kind.
Proof. by destruct kind. Qed.

Record ApplicationBackup : Type := mkBackup {
  ab_id : N; ab_application_id : N; ab_file_name : list Z; ab_size_bytes : Z; ab_kind : BackupKind; ab_s3_key : option (list Z); ab_created_at : Z;
}.
Record BackupSchedule : Type := mkBackupSchedule {
  bs_enabled : bool; bs_interval_hours : Z; bs_retention_count : Z; bs_retention_max_age_days : option Z; bs_retention_max_total_bytes : option Z;
}.
Definition default_schedule : BackupSchedule := mkBackupSchedule false 24 5 None None.

Record BackupDestinationConfig : Type := mkDestination {
  bd_enabled : bool; bd_endpoint : list Z; bd_region : list Z; bd_bucket : list Z; bd_access_key_id : list Z; bd_path_prefix : list Z; bd_path_style : bool;
}.
Record SetBackupDestinationInput : Type := mkSetDestination { sd_config : BackupDestinationConfig; sd_secret_access_key : list Z }.

(** A backup, and whether its off-site copy was made. *)
Record BackupCreated : Type := mkBackupCreated { bc_backup : ApplicationBackup; bc_remote_error : option AppError }.
(** What a deletion could not remove. *)
Record BackupDeleted : Type := mkBackupDeleted { bx_file_error : option AppError; bx_remote_error : option AppError }.

(** The two tables, the applications their rows belong to, and
    [BackupDestinationState]. *)
Record BackupRows : Type := mkBackupRows {
  br_backups : gmap N ApplicationBackup; br_schedules : gmap N BackupSchedule; br_applications : gset N; br_destination : BackupDestinationConfig;
}.
Definition set_backups (rows : BackupRows) (backups : gmap N ApplicationBackup) : BackupRows := mkBackupRows backups rows.(br_schedules) rows.(br_applications) rows.(br_destination).
Definition set_backup_schedules (rows : BackupRows) (schedules : gmap N BackupSchedule) : BackupRows := mkBackupRows rows.(br_backups) schedules rows.(br_applications) rows.(br_destination).

Definition newer (a b : ApplicationBackup) : Prop := b.(ab_created_at) <= a.(ab_created_at).
#[global] Instance newer_dec : RelDecision newer.
Proof. intros a b. unfold Decision, newer. apply Z_le_dec. Defined.
(** The rows of one application, ORDER BY created_at DESC. *)
Definition backups_of (rows : BackupRows) (application_id : N) : list ApplicationBackup :=
  merge_sort newer (List.filter (fun b => N.eqb b.(ab_application_id) application_id) (map snd (map_to_list rows.(br_backups)))).

(** ** Retention *)

Definition u64 (n : Z) : Z := n mod 18446744073709551616.
Definition DAY : Z := 86400 * 1000000000.
Definition HOUR : Z := 3600 * 1000000000.

Definition over (limit : option Z) (exceeded : Z -> bool) : bool := match limit with Some limit => exceeded limit | None => false end.

(** The loop of [backups_to_prune], at [index]. *)
Fixpoint prune_loop (schedule : BackupSchedule) (now : Z) (index kept_bytes : Z) (scheduled : list ApplicationBackup) : list ApplicationBackup :=
  match scheduled with
  | [] => []
  | backup :: scheduled =>
      if index =? 0 then prune_loop schedule now (index + 1) (u64 (kept_bytes + backup.(ab_size_bytes))) scheduled
      else
        let over_count := schedule.(bs_retention_count) <=? index mod 4294967296 in
        let over_age := over schedule.(bs_retention_max_age_days) (fun days => days * DAY <? now - backup.(ab_created_at)) in
        let over_size := over schedule.(bs_retention_max_total_bytes) (fun max => max <? u64 (kept_bytes + backup.(ab_size_bytes))) in
        if over_count || over_age || over_size then backup :: prune_loop schedule now (index + 1) kept_bytes scheduled
        else prune_loop schedule now (index + 1) (u64 (kept_bytes + backup.(ab_size_bytes))) scheduled
  end.

Definition is_scheduled (backup : ApplicationBackup) : bool := bool_decide (backup.(ab_kind) = Scheduled).
Definition backups_to_prune (backups : list ApplicationBackup) (schedule : BackupSchedule) (now : Z) : list ApplicationBackup :=
  prune_loop schedule now 0 0 (List.filter is_scheduled backups).

(** ** The services *)

Definition BACKUPS_DIR : list Z := lit ".vibessh-backups".
Definition S3Client : Type := BackupDestinationConfig * list Z.

Class BackupHost (World : Type) : Type := {
  bh_resolve_provider : N -> World -> result AppError unit * World;
  bh_refresh_status : N -> World -> result AppError ApplicationStatus * World;
  bh_now : World -> Z * World;
  bh_format : Z -> list Z;   (* chrono's %Y%m%d-%H%M%S *)
  bh_store_secret : list Z -> World -> result AppError unit * World;
  bh_load_secret : World -> result AppError (option (list Z)) * World;
  bh_save_destination : BackupDestinationConfig -> World -> result AppError unit * World;
  s3_put : S3Client -> list Z -> list Z -> World -> result AppError unit * World;
  s3_get : S3Client -> list Z -> World -> result AppError (list Z) * World;
  s3_delete : S3Client -> list Z -> World -> result AppError unit * World;
}.

Section services.
Context {World : Type} `{Desk World} `{FileProvider World} `{ZipCrate} `{BackupHost World}.
Notation B := (D BackupRows World).

Definition utc_now : B Z := provided (fun w => let '(t, w) := bh_now w in (Ok t, w)).
Definition fresh_id : B N := fun s => (Ok s.(ds_fw).(fw_uuid), mkDesk s.(ds_store) (mkFw s.(ds_fw).(fw_node) s.(ds_fw).(fw_verified) (s.(ds_fw).(fw_uuid) + 1))).
Definition or_throw {A} (m : B (result AppError A)) : B A := r <- m ;; match r with Ok a => dret a | Err e => dthrow e end.

(** *** [ApplicationBackupRepository] *)

Definition backup_list (application_id : N) : B (list ApplicationBackup) := statement "failed to list backups: " (fun rows => (backups_of rows application_id, rows)).
Definition backup_get (id : N) : B (option ApplicationBackup) := statement "failed to read the backup: " (fun rows => (rows.(br_backups) !! id, rows)).

Definition insert_backup (backup : ApplicationBackup) (rows : BackupRows) : result AppError unit * BackupRows :=
  if bool_decide (is_Some (rows.(br_backups) !! backup.(ab_id))) || negb (bool_decide (backup.(ab_application_id) ∈ rows.(br_applications)))
  then (Err (Storage (lit "failed to record the backup: constraint failed")), rows)
  else (Ok tt, set_backups rows (<[backup.(ab_id) := backup]> rows.(br_backups))).
Definition backup_create (application_id : N) (file_name : list Z) (size_bytes : Z) (kind : BackupKind) : B ApplicationBackup :=
  id <- fresh_id ;;
  created_at <- utc_now ;;
  let backup := mkBackup id application_id file_name size_bytes kind None created_at in
  or_throw (statement "failed to record the backup: " (insert_backup backup)) ;;;
  dret backup.

Definition with_key (s3_key : list Z) (b : ApplicationBackup) : ApplicationBackup :=
  mkBackup b.(ab_id) b.(ab_application_id) b.(ab_file_name) b.(ab_size_bytes) b.(ab_kind) (Some s3_key) b.(ab_created_at).
Definition set_s3_key (id : N) (s3_key : list Z) : B unit :=
  statement "failed to record the backup's S3 key: " (fun rows => (tt, set_backups rows (alter (with_key s3_key) id rows.(br_backups)))).

(** Two statements. *)
Definition backup_delete (id : N) : B (option (list Z)) :=
  file_name <- statement "failed to look up the backup before deleting it: " (fun rows => (ab_file_name <$> rows.(br_backups) !! id, rows)) ;;
  match file_name with
  | Some _ => statement "failed to delete the backup record: " (fun rows => (tt, set_backups rows (delete id rows.(br_backups))))
  | None => dret tt
  end ;;;
  dret file_name.

Definition moved_to (from to : N) (b : ApplicationBackup) : ApplicationBackup :=
  if N.eqb b.(ab_application_id) from then mkBackup b.(ab_id) to b.(ab_file_name) b.(ab_size_bytes) b.(ab_kind) b.(ab_s3_key) b.(ab_created_at) else b.
(** One transaction: the keys of the target are checked by both updates. *)
Definition move_to_application (from to : N) : B unit :=
  or_throw (statement "failed to move the backups: " (fun rows =>
    let moves := existsb (fun b => N.eqb b.(ab_application_id) from) (map snd (map_to_list rows.(br_backups))) || bool_decide (is_Some (rows.(br_schedules) !! from)) in
    if (moves && negb (bool_decide (to ∈ rows.(br_applications))))
       || (bool_decide (is_Some (rows.(br_schedules) !! from)) && negb (N.eqb from to) && bool_decide (is_Some (rows.(br_schedules) !! to)))
    then (Err (Storage (lit "failed to move the backups: constraint failed")), rows)
    else
      let schedules := match rows.(br_schedules) !! from with Some schedule => <[to := schedule]> (delete from rows.(br_schedules)) | None => rows.(br_schedules) end in
      (Ok tt, set_backup_schedules (set_backups rows (moved_to from to <$> rows.(br_backups))) schedules))).

Definition get_schedule (application_id : N) : B (option BackupSchedule) := statement "failed to read the backup schedule: " (fun rows => (rows.(br_schedules) !! application_id, rows)).
Definition set_schedule (application_id : N) (input : BackupSchedule) : B unit :=
  or_throw (statement "failed to save the backup schedule: " (fun rows =>
    if bool_decide (application_id ∈ rows.(br_applications)) then (Ok tt, set_backup_schedules rows (<[application_id := input]> rows.(br_schedules)))
    else (Err (Storage (lit "failed to save the backup schedule: FOREIGN KEY constraint failed")), rows))).
Definition list_enabled_schedules : B (list (N * BackupSchedule)) :=
  statement "failed to list enabled backup schedules: " (fun rows => (List.filter (fun '(_, schedule) => schedule.(bs_enabled)) (map_to_list rows.(br_schedules)), rows)).
Definition latest_backup_at (application_id : N) : B (option Z) :=
  statement "failed to read the latest backup timestamp: " (fun rows => (ab_created_at <$> head (backups_of rows application_id), rows)).

(** *** The destination *)

Definition get_backup_destination : B BackupDestinationConfig := fun s => (Ok s.(ds_store).(br_destination), s).
Definition set_state (config : BackupDestinationConfig) : B unit := fun s =>
  (Ok tt, mkDesk (mkBackupRows s.(ds_store).(br_backups) s.(ds_store).(br_schedules) s.(ds_store).(br_applications) config) s.(ds_fw)).

Definition has_scheme (endpoint : list Z) : bool := starts_with (lit "http://") endpoint || starts_with (lit "https://") endpoint.
Definition trimmed_config (c : BackupDestinationConfig) : BackupDestinationConfig :=
  mkDestination c.(bd_enabled) (trim c.(bd_endpoint)) (trim c.(bd_region)) (trim c.(bd_bucket)) (trim c.(bd_access_key_id)) (trim c.(bd_path_prefix)) c.(bd_path_style).

Definition set_backup_destination (input : SetBackupDestinationInput) : B BackupDestinationConfig :=
  let c := input.(sd_config) in
  if c.(bd_enabled) && (is_empty (trim c.(bd_endpoint)) || is_empty (trim c.(bd_bucket)) || is_empty (trim c.(bd_access_key_id)))
  then refuse [] "endpoint, bucket, and access key ID are all required to enable a backup destination"
  else if c.(bd_enabled) && negb (has_scheme (trim c.(bd_endpoint))) then refuse [] "the endpoint must start with http:// or https://"
  else
    (if negb (is_empty input.(sd_secret_access_key)) then provided (bh_store_secret input.(sd_secret_access_key))
     else if c.(bd_enabled) then
       secret <- provided bh_load_secret ;;
       match secret with Some _ => dret tt | None => refuse [] "a secret access key is required to enable a backup destination" end
     else dret tt) ;;;
    provided (bh_save_destination (trimmed_config c)) ;;;
    set_state (trimmed_config c) ;;;
    dret (trimmed_config c).

Definition CONNECTION_TEST : list Z := lit ".vibessh-connection-test".
Definition test_backup_destination : B unit :=
  config <- get_backup_destination ;;
  if negb config.(bd_enabled) then refuse [] "the backup destination isn't enabled"
  else
    secret <- provided bh_load_secret ;;
    match secret with
    | None => refuse [] "no secret access key is stored"
    | Some secret => provided (s3_put (config, secret) CONNECTION_TEST (lit "ok")) ;;; provided (s3_delete (config, secret) CONNECTION_TEST)
    end.

Definition s3_client : B (option S3Client) :=
  config <- get_backup_destination ;;
  if negb config.(bd_enabled) then dret None
  else
    secret <- dtry (provided bh_load_secret) ;;
    dret match secret with Ok (Some secret) => Some (config, secret) | _ => None end.

(** *** Making one *)

Definition backup_file_name (kind : BackupKind) (at_ : Z) : list Z := kind_str kind ++ lit "-" ++ bh_format at_ ++ lit ".zip".
Definition s3_object_key (application_id : N) (file_name : list Z) : list Z := uuid_text application_id ++ lit "/" ++ file_name.
Definition is_own_entry (name : list Z) : bool := starts_with (lit ".vibessh-") name.
Definition backup_path (file_name : list Z) : list Z := BACKUPS_DIR ++ lit "/" ++ file_name.

Definition upload_to_destination (provider : N) (client : S3Client) (remote_path key : list Z) : B unit :=
  bytes <- provided (fp_download_file provider remote_path) ;;
  provided (s3_put client key bytes).

(** The off-site copy: its failure is a value. *)
Definition copy_off_site (application_id : N) (created : ApplicationBackup) : B (option AppError) :=
  client <- s3_client ;;
  match client with
  | None => dret None
  | Some client =>
      let key := s3_object_key application_id created.(ab_file_name) in
      uploaded <- dtry (upload_to_destination application_id client (backup_path created.(ab_file_name)) key) ;;
      match uploaded with
      | Ok _ => dtry (set_s3_key created.(ab_id) key) ;;; dret None
      | Err err => dret (Some err)
      end
  end.

Definition create_backup (application_id : N) (kind : BackupKind) : B BackupCreated :=
  provided (bh_resolve_provider application_id) ;;;
  entries <- provided (fp_list_directory application_id DOT) ;;
  let paths := List.filter (fun name => negb (is_own_entry name)) (map re_name entries) in
  dtry (provided (fp_create_directory application_id BACKUPS_DIR)) ;;;
  now <- utc_now ;;
  let file_name := backup_file_name kind now in
  create_zip application_id paths (backup_path file_name) ;;;
  stat <- provided (fp_metadata application_id (backup_path file_name)) ;;
  created <- backup_create application_id file_name stat.(re_size) kind ;;
  remote_error <- copy_off_site application_id created ;;
  backup <- backup_get created.(ab_id) ;;
  dret (mkBackupCreated (default created backup) remote_error).

(** *** Deleting one *)

Definition delete_file (application_id : N) (file_name : list Z) : B unit :=
  provided (bh_resolve_provider application_id) ;;; provided (fp_delete application_id (backup_path file_name)).
Definition delete_copy (key : list Z) : B unit :=
  client <- s3_client ;;
  match client with
  | Some client => provided (s3_delete client key)
  | None => refuse [] "the backup destination is no longer configured, so its copy could not be removed"
  end.
Definition error_of {A} (r : result AppError A) : option AppError := match r with Ok _ => None | Err e => Some e end.

Definition delete_backup (application_id backup_id : N) : B BackupDeleted :=
  found <- backup_get backup_id ;;
  file_name <- backup_delete backup_id ;;
  match file_name with
  | None => dret (mkBackupDeleted None None)
  | Some file_name =>
      deleted <- dtry (delete_file application_id file_name) ;;
      removed <- match found ≫= ab_s3_key with Some key => dtry (delete_copy key) | None => dret (Ok tt) end ;;
      dret (mkBackupDeleted (error_of deleted) (error_of removed))
  end.

(** *** Restoring one *)

(** [levels] is how many levels are left, as in [write_into_zip]; what it
    returns is [removed]. *)
Fixpoint remove_entries_not_in (levels : nat) (provider : N) (path relative : list Z) (keep : gset (list Z)) (removed : Z) : B Z :=
  match levels with
  | O => dret removed
  | S levels =>
      entries <- provided (fp_list_directory provider path) ;;
      each (fun entry removed =>
              if entry.(re_is_symlink) || (is_empty relative && is_own_entry entry.(re_name)) then dret removed
              else
                let entry_relative := if is_empty relative then entry.(re_name) else relative ++ [47] ++ entry.(re_name) in
                if negb (bool_decide (entry_relative ∈ keep)) then provided (fp_delete provider entry_relative) ;;; dret (removed + 1)
                else if entry.(re_is_dir) then remove_entries_not_in levels provider entry_relative entry_relative keep removed
                else dret removed)
        entries removed
  end.

Definition restore_from (provider : N) (archive : list Z) : B Z :=
  written <- extract_zip_from_file provider archive DOT ;;
  keep <- entry_paths archive ;;
  removed <- dtry (remove_entries_not_in 65 provider DOT [] keep 0) ;;
  match removed with
  | Ok _ => dret written
  | Err _ => dthrow (ConnectionFailed (lit "the backup was written back, but files created after it couldn't all be removed"))
  end.

(** The archive: the copy on the Node, or the one off-site, which then heals the first. *)
Definition fetch_archive (application_id : N) (backup : ApplicationBackup) : B (list Z) :=
  fetched <- dtry (provided (fp_download_file application_id (backup_path backup.(ab_file_name)))) ;;
  match fetched with
  | Ok archive => dret archive
  | Err local_err =>
      client <- s3_client ;;
      match backup.(ab_s3_key), client with
      | Some key, Some client =>
          archive <- provided (s3_get client key) ;;
          dtry (provided (fp_upload_file application_id archive (backup_path backup.(ab_file_name)))) ;;;
          dret archive
      | _, _ => dthrow local_err
      end
  end.

Definition in_use (status : ApplicationStatus) : bool := match status with Running | Starting | Stopping => true | _ => false end.

Definition restore_backup (application_id backup_id : N) : B Z :=
  found <- backup_get backup_id ;;
  match found with
  | None => dthrow NotFound
  | Some backup =>
      if negb (N.eqb backup.(ab_application_id) application_id) then dthrow NotFound
      else
        status <- provided (bh_refresh_status application_id) ;;
        if in_use status then refuse [] "stop the application before restoring a backup"
        else
          provided (bh_resolve_provider application_id) ;;;
          archive <- fetch_archive application_id backup ;;
          restore_from application_id archive
  end.

(** *** Schedules *)

Definition get_backup_schedule (application_id : N) : B BackupSchedule := schedule <- get_schedule application_id ;; dret (default default_schedule schedule).
Definition set_backup_schedule (application_id : N) (input : BackupSchedule) : B BackupSchedule :=
  if input.(bs_interval_hours) =? 0 then refuse [] "the backup interval must be at least 1 hour"
  else if input.(bs_retention_count) =? 0 then refuse [] "keep at least 1 backup"
  else set_schedule application_id input ;;; dret input.

(** The loop of [prune_old_backups]. *)
Fixpoint prune_each (application_id : N) (client : option S3Client) (to_prune : list ApplicationBackup) : B unit :=
  match to_prune with
  | [] => dret tt
  | old :: to_prune =>
      backup_delete old.(ab_id) ;;;
      dtry (provided (fp_delete application_id (backup_path old.(ab_file_name)))) ;;;
      match old.(ab_s3_key), client with
      | Some key, Some client => dtry (provided (s3_delete client key)) ;;; dret tt
      | _, _ => dret tt
      end ;;;
      prune_each application_id client to_prune
  end.

Definition prune_old_backups (application_id : N) (schedule : BackupSchedule) : B unit :=
  backups <- backup_list application_id ;;
  now <- utc_now ;;
  match backups_to_prune backups schedule now with
  | [] => dret tt
  | to_prune =>
      provided (bh_resolve_provider application_id) ;;;
      client <- s3_client ;;
      prune_each application_id client to_prune
  end.

Definition is_due (schedule : BackupSchedule) (latest : option Z) : B bool :=
  match latest with
  | None => dret true
  | Some last => now <- utc_now ;; dret (schedule.(bs_interval_hours) * HOUR <=? now - last)
  end.

Definition run_due (scheduled : N * BackupSchedule) (created : Z) : B Z :=
  let '(application_id, schedule) := scheduled in
  latest <- latest_backup_at application_id ;;
  due <- is_due schedule latest ;;
  if negb due then dret created
  else
    made <- dtry (create_backup application_id Scheduled) ;;
    match made with
    | Err _ => dret created
    | Ok _ => dtry (prune_old_backups application_id schedule) ;;; dret (created + 1)
    end.
Definition run_due_backups : B Z := schedules <- list_enabled_schedules ;; each run_due schedules 0.
End services.
