(* ===== verification/Retention.v ===== *)
(** * Retention: which backups a schedule removes

    [backups_to_prune] of [services/application_backup_service.rs]: what is kept
    obeys all three rules, a manual backup and the newest scheduled one are never
    touched, and nothing goes without a rule that calls for it. *)

From S2P Require Import Prelude Text Firewall Desktop Archive Backups.

#[local] Open Scope Z_scope.

Definition total (backups : list ApplicationBackup) : Z := fold_right (fun b n => b.(ab_size_bytes) + n) 0 backups.
Definition too_old (schedule : BackupSchedule) (now : Z) (b : ApplicationBackup) : bool :=
  over schedule.(bs_retention_max_age_days) (fun days => days * DAY <? now - b.(ab_created_at)).
Definition sized (b : ApplicationBackup) : Prop := 0 <= b.(ab_size_bytes).

Lemma total_cons b l : total (b :: l) = b.(ab_size_bytes) + total l.
Proof. done. Qed.
Lemma total_nonneg l : Forall sized l -> 0 <= total l.
Proof. induction 1 as [|b l Hb _ IH]; [done|]. rewrite total_cons. unfold sized in Hb; lia. Qed.

(** The rest of the list, from the second backup on, when [bytes] are kept already. *)
Lemma prune_rest schedule now l : forall i bytes,
  1 <= i -> i + Z.of_nat (length l) <= 4294967296 -> Forall sized l -> 0 <= bytes -> bytes + total l < 18446744073709551616 ->
  exists kept, kept `sublist_of` l /\ prune_loop schedule now i bytes l `sublist_of` l /\ kept ++ prune_loop schedule now i bytes l ≡ₚ l /\
    (kept = [] \/ i + Z.of_nat (length kept) <= schedule.(bs_retention_count)) /\
    Forall (fun b => too_old schedule now b = false) kept /\
    (forall max, schedule.(bs_retention_max_total_bytes) = Some max -> kept = [] \/ bytes + total kept <= max) /\
    (i + Z.of_nat (length l) <= schedule.(bs_retention_count) -> Forall (fun b => too_old schedule now b = false) l ->
     (forall max, schedule.(bs_retention_max_total_bytes) = Some max -> bytes + total l <= max) -> prune_loop schedule now i bytes l = []).
Proof.
  induction l as [|b l IH]; intros i bytes Hi Hlen Hs Hb Ht.
  { exists []. split_and!; try done; try by left. all: intros; by left. }
  inversion_clear Hs as [|?? Hb0 Hs']. pose proof (total_nonneg l Hs') as Hn. unfold sized in Hb0. cbn [length] in *. rewrite total_cons in *. rewrite Nat2Z.inj_succ in *.
  cbn [prune_loop]. destruct (Z.eqb_spec i 0); [lia|]. rewrite Z.mod_small by lia. fold (too_old schedule now b).
  assert (Hu : u64 (bytes + ab_size_bytes b) = bytes + ab_size_bytes b) by (unfold u64; apply Z.mod_small; lia). rewrite Hu.
  set (oversize := over (bs_retention_max_total_bytes schedule) (fun max => max <? bytes + ab_size_bytes b)).
  assert (Ho : forall max, bs_retention_max_total_bytes schedule = Some max -> bytes + ab_size_bytes b <= max <-> oversize = false).
  { intros max Hm. subst oversize. unfold over. rewrite Hm. destruct (Z.ltb_spec max (bytes + ab_size_bytes b)); split; intros; try done; lia. }
  destruct ((bs_retention_count schedule <=? i) || too_old schedule now b || oversize) eqn:Ed.
  - destruct (IH (i + 1) bytes) as (kept & H1 & H2 & H3 & H4 & H5 & H6 & H7); [lia|lia|done|lia|lia|]. exists kept. split_and!.
    + by apply sublist_cons.
    + by apply sublist_skip.
    + rewrite <- Permutation_middle. by apply perm_skip.
    + destruct H4; [by left|right; lia].
    + done.
    + done.
    + intros Hc Ha Hm. exfalso. inversion_clear Ha as [|?? Ha0 _]. rewrite Ha0, orb_false_r in Ed. apply orb_true_iff in Ed as [Ed|Ed]; [apply Z.leb_le in Ed; lia|].
      subst oversize. unfold over in Ed. destruct (bs_retention_max_total_bytes schedule) as [max|]; [|done]. specialize (Hm max eq_refl). apply Z.ltb_lt in Ed. lia.
  - apply orb_false_iff in Ed as [[Ec Ea]%orb_false_iff Eo]. apply Z.leb_gt in Ec.
    destruct (IH (i + 1) (bytes + ab_size_bytes b)) as (kept & H1 & H2 & H3 & H4 & H5 & H6 & H7); [lia|lia|done|lia|lia|].
    exists (b :: kept). cbn [length]. rewrite total_cons, Nat2Z.inj_succ. split_and!.
    + by apply sublist_skip.
    + by apply sublist_cons.
    + by apply perm_skip.
    + right. destruct H4 as [-> |]; cbn; lia.
    + by constructor.
    + intros max Hm. right. destruct (H6 max Hm) as [-> |]; [cbn|lia]. apply Ho in Hm. apply Hm in Eo. lia.
    + intros Hc Ha Hm. inversion_clear Ha as [|?? _ Ha']. apply H7; [lia|done|]. intros max Hmax. specialize (Hm max Hmax). lia.
Qed.

(** C26: The retention rules keep what they promise.  Of the scheduled backups of
    an application, in the order of the caller's list, which has the newest
    first, the first is always kept; at most [retention_count] are kept; each of
    the others kept is young enough; and together they fit the size limit,
    unless the first alone is kept.  What goes is scheduled, never made by hand,
    and nothing goes when all of them obey the rules. *)
Theorem retention_keeps_its_rules backups schedule now newest older :
  List.filter is_scheduled backups = newest :: older ->
  1 <= schedule.(bs_retention_count) -> Z.of_nat (length backups) < 4294967296 -> Forall sized backups -> total backups < 18446744073709551616 ->
  let pruned := backups_to_prune backups schedule now in
  exists kept, newest :: kept `sublist_of` List.filter is_scheduled backups /\ (newest :: kept) ++ pruned ≡ₚ List.filter is_scheduled backups /\
    Forall (fun b => b ∈ backups /\ b.(ab_kind) = Scheduled) pruned /\
    Z.of_nat (length (newest :: kept)) <= schedule.(bs_retention_count) /\
    Forall (fun b => too_old schedule now b = false) kept /\
    (forall max, schedule.(bs_retention_max_total_bytes) = Some max -> kept = [] \/ total (newest :: kept) <= max) /\
    (Z.of_nat (length (newest :: older)) <= schedule.(bs_retention_count) -> Forall (fun b => too_old schedule now b = false) older ->
     (forall max, schedule.(bs_retention_max_total_bytes) = Some max -> total (newest :: older) <= max) -> pruned = []).
Proof.
  intros Hf Hc Hlen Hs Ht pruned.
  assert (Hsub : Forall sized (newest :: older) /\ total (newest :: older) <= total backups /\ (length (newest :: older) <= length backups)%nat).
  { rewrite <- Hf. clear -Hs. induction Hs as [|b l Hb Hl IH]; [done|]. destruct IH as (H1 & H2 & H3). unfold sized in Hb. cbn [List.filter]. rewrite total_cons. destruct (is_scheduled b); rewrite ?total_cons; cbn [length]; (split; [first [done | by constructor]|lia]). }
  destruct Hsub as (Hs' & Ht' & Hl'). inversion_clear Hs' as [|?? Hn Ho]. unfold sized in Hn. rewrite total_cons in Ht'. cbn [length] in Hl'.
  pose proof (total_nonneg older Ho) as Hto.
  destruct (prune_rest schedule now older 1 (ab_size_bytes newest)) as (kept & H1 & H2 & H3 & H4 & H5 & H6 & H7); [lia|lia|done|lia|lia|].
  assert (Hp : pruned = prune_loop schedule now 1 (ab_size_bytes newest) older).
  { subst pruned. unfold backups_to_prune. rewrite Hf. cbn [prune_loop]. rewrite Z.eqb_refl. unfold u64. by rewrite Z.mod_small by lia. }
  rewrite Hp. exists kept. rewrite Hf. split_and!.
  - by apply sublist_skip.
  - cbn [app]. by apply perm_skip.
  - apply Forall_forall. intros b Hb. assert (Hb' : b ∈ List.filter is_scheduled backups) by (rewrite Hf; right; by eapply elem_of_sublist).
    apply list_elem_of_In, filter_In in Hb' as [Hin Hk]. split; [by apply list_elem_of_In|]. unfold is_scheduled in Hk. by apply bool_decide_eq_true in Hk.
  - cbn [length]. rewrite Nat2Z.inj_succ. destruct H4 as [-> |]; cbn; lia.
  - done.
  - intros max Hm. rewrite total_cons. by apply H6.
  - intros Hcount Hage Hsize. apply H7; [cbn [length] in Hcount; lia|done|]. intros max Hm. specialize (Hsize max Hm). rewrite total_cons in Hsize. lia.
Qed.

Definition sample_backup (id : N) (kind : BackupKind) (size days : Z) : ApplicationBackup := mkBackup id 7 (lit "x.zip") size kind None (days * DAY).
Definition sample_backups : list ApplicationBackup := [sample_backup 1 Manual 9 10; sample_backup 2 Scheduled 50 9; sample_backup 3 Scheduled 30 8; sample_backup 4 Manual 9 2; sample_backup 5 Scheduled 30 1].
Definition sample_retention : BackupSchedule := mkBackupSchedule true 24 2 (Some 30) (Some 100).

Lemma retention_keeps_its_rules_witness :
  let pruned := backups_to_prune sample_backups sample_retention (10 * DAY) in
  map ab_id pruned = [5%N] /\ Forall (fun b => b ∈ sample_backups /\ b.(ab_kind) = Scheduled) pruned.
Proof.
  split; [by vm_compute|].
  destruct (retention_keeps_its_rules sample_backups sample_retention (10 * DAY) (sample_backup 2 Scheduled 50 9) [sample_backup 3 Scheduled 30 8; sample_backup 5 Scheduled 30 1]) as (kept & _ & _ & Hp & _).
  - reflexivity.
  - cbn; lia.
  - cbn; lia.
  - repeat constructor; unfold sized; cbn; lia.
  - cbn; lia.
  - exact Hp.
Defined.
