(* ===== verification/FileTree.v ===== *)
(** * FileTree: what a provider of files promises

    The contract of [ApplicationFileProvider] ([files/mod.rs]) as its clients use
    it: the files of an application are a tree of names, and each operation of
    [Archive.FileProvider] reads or changes it as the class [FileTree] says.
    An operation may always fail; a write that failed may have left anything at
    its own path, a deletion may have gone part of the way, and a directory may
    have been made although the answer was lost.  The laws are those of a tree
    without links, since a link may lead an operation elsewhere. *)

From S2P Require Import Prelude Text Shell Sandbox Firewall Desktop Archive.

#[local] Open Scope Z_scope.

(** ** Paths *)

Abbreviation Path := (list (list Z)).

(** A name that stands for itself in a path. *)
Definition plain (s : list Z) : Prop := entry_name s = true /\ contains_char 92 s = false.
Definition text (ps : Path) : list Z := join [47] ps.

(** What a provider makes of the text of a path. *)
Definition at_path (path : list Z) (ps : Path) : Prop := sanitize_loop [] (split_on is_separator path) = Ok ps.

Lemma at_path_dot : at_path DOT [].
Proof. reflexivity. Qed.
Lemma at_path_text ps : Forall plain ps -> ps <> [] -> at_path (text ps) ps.
Proof.
  intros Hp Hne. unfold at_path, text. rewrite sanitize_loop_spec. fold (pieces_of (join [47] ps)). rewrite pieces_of_entries by done.
  assert (Hf : find_first refused ps = None).
  { apply find_first_None. intros s Hs. rewrite Forall_forall in Hp. destruct (Hp s Hs) as [He _]. unfold entry_name in He. unfold refused.
    rewrite !andb_true_iff, !negb_true_iff, !orb_false_iff in He. destruct He as [[[_ E1] _] E2]. by rewrite E1, E2. }
  by rewrite Hf.
Qed.

Lemma plain_no_slash s : plain s -> existsb (Z.eqb 47) s = false /\ s <> [].
Proof. intros [He _]. by apply entry_no_slash. Qed.
Lemma split_text ps : Forall plain ps -> ps <> [] -> split_on (Z.eqb 47) (text ps) = ps.
Proof. intros Hp Hne. apply split_join; [done| |done]. eapply Forall_impl; [exact Hp|]. intros s Hs. by apply plain_no_slash. Qed.
Lemma text_nonempty ps : Forall plain ps -> ps <> [] -> text ps <> [].
Proof. intros Hp Hne E. apply (split_text ps) in Hp as Hs; [|done]. rewrite E in Hs. cbn in Hs. subst ps. apply Forall_cons in Hp as [[He _] _]. done. Qed.
Lemma is_empty_text ps : Forall plain ps -> ps <> [] -> is_empty (text ps) = false.
Proof. intros Hp Hne. pose proof (text_nonempty ps Hp Hne). by destruct (text ps). Qed.
Lemma text_inj ps qs : Forall plain ps -> Forall plain qs -> text ps = text qs -> ps = qs.
Proof.
  intros Hp Hq E. destruct ps as [|p ps], qs as [|q qs]; [done| | |].
  - symmetry in E. by apply text_nonempty in E.
  - by apply text_nonempty in E.
  - rewrite <- (split_text (p :: ps)), <- (split_text (q :: qs)), E by done. done.
Qed.
Lemma text_snoc ps n : ps <> [] -> text (ps ++ [n]) = text ps ++ [47] ++ n.
Proof.
  induction ps as [|p ps IH]; intros Hne; [done|]. destruct ps as [|q ps]; [done|].
  change (text ((p :: q :: ps) ++ [n])) with (p ++ [47] ++ text ((q :: ps) ++ [n])). rewrite IH by done.
  change (text (p :: q :: ps)) with (p ++ [47] ++ text (q :: ps)). by rewrite <- !app_assoc.
Qed.

Lemma rsplit_once_none c s : existsb (Z.eqb c) s = false -> rsplit_once c s = None.
Proof. induction s as [|x s IH]; cbn [existsb rsplit_once]; [done|]. intros [Hx Hs]%orb_false_iff. by rewrite IH, Z.eqb_sym, Hx. Qed.
Lemma rsplit_once_last c a b : existsb (Z.eqb c) b = false -> rsplit_once c (a ++ c :: b) = Some (a, b).
Proof. intros Hb. induction a as [|x a IH]; cbn; [by rewrite rsplit_once_none, Z.eqb_refl|]. by rewrite IH. Qed.
Lemma rsplit_text ps n : Forall plain (ps ++ [n]) ->
  rsplit_once 47 (text (ps ++ [n])) = match ps with [] => None | _ => Some (text ps, n) end.
Proof.
  intros [_ Hn]%Forall_app. rewrite Forall_singleton in Hn. apply plain_no_slash in Hn as [Hn _]. destruct ps as [|p ps].
  - by apply rsplit_once_none.
  - rewrite text_snoc by done. by apply rsplit_once_last.
Qed.
Lemma last_plain s c : plain s -> last s = Some c -> (47 =? c) = false.
Proof.
  intros [Hs _]%plain_no_slash Hl. apply last_Some in Hl as [s' ->]. rewrite existsb_app in Hs. apply orb_false_iff in Hs as [_ Hs]. cbn in Hs. by rewrite orb_false_r in Hs.
Qed.
Lemma trim_text ps tail : Forall plain ps -> ps <> [] -> tail = [] \/ tail = [47] -> trim_end_matches (Z.eqb 47) (text ps ++ tail) = text ps.
Proof.
  intros Hp Hne Ht. assert (Hz : trim_end_matches (Z.eqb 47) (text ps) = text ps).
  { apply trim_end_none. intros c Hl. destruct ps as [|n ps _] using rev_ind; [done|]. apply Forall_app in Hp as [_ Hn]. rewrite Forall_singleton in Hn.
    apply (last_plain n); [done|]. apply plain_no_slash in Hn as [_ Hn]. destruct ps as [|p ps]; [done|]. rewrite text_snoc in Hl by done.
    destruct n as [|x n _] using rev_ind; [done|]. rewrite !app_assoc, last_snoc in Hl. by rewrite last_snoc. }
  destruct Ht as [-> | ->]; [by rewrite app_nil_r|]. unfold trim_end_matches in *. rewrite rev_app_distr. exact Hz.
Qed.
Lemma forward_slashes_app a b : forward_slashes (a ++ b) = forward_slashes a ++ forward_slashes b.
Proof. apply map_app. Qed.
Lemma forward_slashes_id s : contains_char 92 s = false -> forward_slashes s = s.
Proof.
  unfold contains_char, forward_slashes. induction s as [|c s IH]; cbn [existsb map]; [done|]. intros [Hc Hs]%orb_false_iff.
  rewrite (Z.eqb_sym c 92), Hc. by rewrite IH.
Qed.
Lemma forward_text ps : Forall plain ps -> forward_slashes (text ps) = text ps.
Proof.
  induction 1 as [|p ps [_ Hp] Hps IH]; [done|]. destruct ps as [|q ps].
  - by apply forward_slashes_id.
  - change (text (p :: q :: ps)) with (p ++ [47] ++ text (q :: ps)). rewrite !forward_slashes_app, IH, forward_slashes_id by done. done.
Qed.

(** The paths that lead from [ps] into [rest], without [ps]. *)
Fixpoint extensions (ps rest : Path) : list Path :=
  match rest with [] => [] | s :: rest => (ps ++ [s]) :: extensions (ps ++ [s]) rest end.
Lemma extensions_spec ps rest q : q ∈ extensions ps rest <-> exists x, x <> [] /\ q = ps ++ x /\ x `prefix_of` rest.
Proof.
  revert ps; induction rest as [|s rest IH]; intros ps; cbn [extensions].
  - split; [by intros ?%not_elem_of_nil|]. intros (x & Hx & _ & Hp). by apply prefix_nil_inv in Hp.
  - rewrite elem_of_cons, IH. split.
    + intros [-> |(x & Hx & -> & Hp)]; [exists [s]; split_and!; [done..|by apply prefix_cons, prefix_nil]|].
      exists (s :: x). split_and!; [done|by rewrite <- app_assoc|by apply prefix_cons].
    + intros (x & Hx & -> & Hp). destruct x as [|y x]; [done|]. apply prefix_cons_inv_1 in Hp as Hy; subst y. apply prefix_cons_inv_2 in Hp.
      destruct x as [|z x]; [by left|]. right. exists (z :: x). split_and!; [done|by rewrite <- app_assoc|done].
Qed.
Lemma extensions_snoc ps rest n : extensions ps (rest ++ [n]) = extensions ps rest ++ [ps ++ rest ++ [n]].
Proof. revert ps; induction rest as [|s rest IH]; intros ps; cbn [extensions app]; [done|]. by rewrite IH, <- app_assoc. Qed.

(** ** Trees *)

Inductive FileNode : Type := FFile (contents : list Z) | FDir | FLink.
Abbreviation Tree := (gmap (list (list Z)) FileNode).
Definition is_directory_node (node : FileNode) : bool := match node with FDir => true | _ => false end.
Definition is_link_node (node : FileNode) : bool := match node with FLink => true | _ => false end.

Definition node_at (t : Tree) (ps : Path) : option FileNode := match ps with [] => Some FDir | _ => t !! ps end.
Definition link_free (t : Tree) : Prop := forall p, t !! p <> Some FLink.
Definition plain_tree (t : Tree) : Prop := forall p node, t !! p = Some node -> Forall plain p.
(** The root is not an entry, and what an entry stands in is a directory. *)
Definition wf_tree (t : Tree) : Prop := t !! [] = None /\ forall ps n node, t !! (ps ++ [n]) = Some node -> node_at t ps = Some FDir.

Lemma wf_above t p q node : wf_tree t -> q <> [] -> t !! (p ++ q) = Some node -> node_at t p = Some FDir.
Proof.
  intros [_ Hw]. revert node. induction q as [|n q IH] using rev_ind; intros node Hq Ht; [done|]. rewrite app_assoc in Ht. apply Hw in Ht.
  destruct q as [|m q]; [by rewrite app_nil_r in Ht|]. eapply (IH FDir); [done|]. by destruct p.
Qed.
Lemma node_at_cons t p : p <> [] -> node_at t p = t !! p.
Proof. by destruct p. Qed.
Lemma wf_prefix t p q node : wf_tree t -> p <> [] -> p `prefix_of` q -> t !! q = Some node -> is_Some (t !! p) /\ (p <> q -> t !! p = Some FDir).
Proof.
  intros Hw Hp [x ->] Ht. destruct x as [|s x]; [rewrite app_nil_r in *; split; [by eexists|done]|].
  apply wf_above in Ht; [|done..]. rewrite node_at_cons in Ht by done. split; [by eexists|done].
Qed.

Lemma link_free_subset (t t' : Tree) : t' ⊆ t -> link_free t -> link_free t'.
Proof. intros Hs Hl p Hp. eapply lookup_weaken in Hp; [|done]. by apply Hl in Hp. Qed.
Lemma plain_subset (t t' : Tree) : t' ⊆ t -> plain_tree t -> plain_tree t'.
Proof. intros Hs Hl p node Hp. eapply lookup_weaken in Hp; [|done]. by eapply Hl. Qed.
Lemma lookup_none_subset (t t' : Tree) p : t' ⊆ t -> t !! p = None -> t' !! p = None.
Proof. intros Hs Hn. by eapply lookup_weaken_None. Qed.
Lemma link_free_insert (t : Tree) q node : link_free t -> node <> FLink -> link_free (<[q := node]> t).
Proof. intros Hl Hn p. destruct (decide (q = p)) as [->|Hd]; [rewrite lookup_insert_eq; congruence|rewrite lookup_insert_ne by done; apply Hl]. Qed.
Lemma plain_insert (t : Tree) q node : plain_tree t -> Forall plain q -> plain_tree (<[q := node]> t).
Proof. intros Hl Hq p n. destruct (decide (q = p)) as [->|Hd]; [done|rewrite lookup_insert_ne by done; apply Hl]. Qed.

(** The children of [ps] as a listing shows them. *)
Record listing (t : Tree) (ps : Path) (es : list RemoteFileEntry) : Prop := {
  listing_dir : node_at t ps = Some FDir;
  listing_names : forall n, n ∈ map re_name es <-> is_Some (t !! (ps ++ [n]));
  listing_entry : forall e node, e ∈ es -> t !! (ps ++ [e.(re_name)]) = Some node -> e.(re_is_symlink) = is_link_node node /\ (node <> FLink -> e.(re_is_dir) = is_directory_node node);
}.
Definition described (t : Tree) (ps : Path) (e : RemoteFileEntry) : Prop :=
  exists node, node_at t ps = Some node /\ e.(re_is_symlink) = is_link_node node /\ e.(re_is_dir) = is_directory_node node.

(** What the operations of a provider do to the trees [files]. *)
Record TreeLaws {World : Type} `{FileProvider World} (files : N -> World -> Tree) : Prop := mkTreeLaws {
  tree_wf : forall a w, wf_tree (files a w);
  tree_scratch : forall a w, files a (fp_scratch w).2 = files a w;
  tree_list : forall a path ps w, at_path path ps -> link_free (files a w) ->
    files a (fp_list_directory a path w).2 = files a w /\ forall es, (fp_list_directory a path w).1 = Ok es -> listing (files a w) ps es;
  tree_metadata : forall a path ps w, at_path path ps -> link_free (files a w) ->
    files a (fp_metadata a path w).2 = files a w /\ forall e, (fp_metadata a path w).1 = Ok e -> described (files a w) ps e;
  tree_read : forall a path ps w, at_path path ps -> link_free (files a w) ->
    files a (fp_read_file a path w).2 = files a w /\ forall bytes, (fp_read_file a path w).1 = Ok bytes -> files a w !! ps = Some (FFile bytes);
  tree_download : forall a path ps w, at_path path ps -> link_free (files a w) ->
    files a (fp_download_file a path w).2 = files a w /\ forall bytes, (fp_download_file a path w).1 = Ok bytes -> files a w !! ps = Some (FFile bytes);
  tree_write : forall a path ps bytes w, at_path path ps -> link_free (files a w) ->
    match (fp_write_file a path bytes w).1 with
    | Ok _ => ps <> [] /\ files a w !! ps <> Some FDir /\ files a (fp_write_file a path bytes w).2 = <[ps := FFile bytes]> (files a w)
    | Err _ => files a (fp_write_file a path bytes w).2 = files a w \/ exists part, files a (fp_write_file a path bytes w).2 = <[ps := FFile part]> (files a w)
    end;
  tree_upload : forall a path ps bytes w, at_path path ps -> link_free (files a w) ->
    match (fp_upload_file a bytes path w).1 with
    | Ok _ => ps <> [] /\ files a w !! ps <> Some FDir /\ files a (fp_upload_file a bytes path w).2 = <[ps := FFile bytes]> (files a w)
    | Err _ => files a (fp_upload_file a bytes path w).2 = files a w \/ exists part, files a (fp_upload_file a bytes path w).2 = <[ps := FFile part]> (files a w)
    end;
  tree_mkdir : forall a path ps w, at_path path ps -> link_free (files a w) ->
    let '(r, w') := fp_create_directory a path w in
    (files a w' = files a w /\ is_ok r = false) \/ (ps <> [] /\ files a w !! ps = None /\ files a w' = <[ps := FDir]> (files a w));
  tree_delete : forall a path ps w, at_path path ps -> link_free (files a w) ->
    let '(r, w') := fp_delete a path w in
    files a w' ⊆ files a w /\ (forall q, ~ ps `prefix_of` q -> files a w' !! q = files a w !! q) /\ (is_ok r = true -> forall q, ps `prefix_of` q -> files a w' !! q = None);
}.

Class FileTree (World : Type) `{FileProvider World} : Type := { files : N -> World -> Tree; tree_laws : TreeLaws files }.

Section laws.
Context {World : Type} `{FileTree World}.
Definition files_wf := tree_wf files tree_laws.
Definition ft_scratch := tree_scratch files tree_laws.
Definition ft_list := tree_list files tree_laws.
Definition ft_metadata := tree_metadata files tree_laws.
Definition ft_read := tree_read files tree_laws.
Definition ft_download := tree_download files tree_laws.
Definition ft_write := tree_write files tree_laws.
Definition ft_upload := tree_upload files tree_laws.
Definition ft_mkdir := tree_mkdir files tree_laws.
Definition ft_delete := tree_delete files tree_laws.
End laws.

(** ** Triples over the files of one application *)

Section does.
Context {St World : Type} `{FileTree World} (a : N).
Implicit Types P : Tree -> Prop.

Definition does {A : Type} P (m : D St World A) (Q : result AppError A -> Tree -> Prop) : Prop := dspec (fun _ w => P (files a w)) m (fun r _ w => Q r (files a w)).

Lemma does_conseq {A : Type} P (P' : Tree -> Prop) (m : D St World A) (Q Q' : result AppError A -> Tree -> Prop) :
  does P' m Q' -> (forall t, P t -> P' t) -> (forall r t, wf_tree t -> Q' r t -> Q r t) -> does P m Q.
Proof. intros Hm HP HQ s Hs. apply HQ; [apply files_wf|]. apply Hm, HP, Hs. Qed.
Lemma does_ret {A : Type} P (x : A) (Q : result AppError A -> Tree -> Prop) : (forall t, P t -> Q (Ok x) t) -> does P (dret x) Q.
Proof. intros HQ. apply dspec_ret. intros; by apply HQ. Qed.
Lemma does_throw {A : Type} P (e : AppError) (Q : result AppError A -> Tree -> Prop) : (forall t, P t -> Q (Err e) t) -> does P (dthrow e) Q.
Proof. intros HQ. apply dspec_throw. intros; by apply HQ. Qed.
Lemma does_bind {A B : Type} P (m : D St World A) (f : A -> D St World B) (R : A -> Tree -> Prop) (Q : result AppError B -> Tree -> Prop) :
  does P m (fun r t => match r with Ok x => R x t | Err e => Q (Err e) t end) -> (forall x, does (R x) (f x) Q) -> does P (dbind m f) Q.
Proof.
  intros Hm Hf. apply (dspec_bind _ _ _ (fun x _ w => R x (files a w))); [|exact Hf].
  intros s Hs. specialize (Hm s Hs). by destruct (m s) as [[x|e] s'].
Qed.
Lemma does_try {A : Type} P (m : D St World A) (Q : result AppError (result AppError A) -> Tree -> Prop) :
  does P m (fun r t => Q (Ok r) t) -> does P (dtry m) Q.
Proof. intros Hm s Hs. specialize (Hm s Hs). unfold dtry. by destruct (m s). Qed.
(** A fact of the tree before, which is well formed. *)
Lemma does_pre {A : Type} P (m : D St World A) (Q : result AppError A -> Tree -> Prop) :
  (forall t, wf_tree t -> P t -> does (eq t) m Q) -> does P m Q.
Proof. intros Hm s Hs. by apply (Hm _ (files_wf a _) Hs). Qed.

Lemma does_provided {A : Type} P (f : World -> result AppError A * World) (Q : result AppError A -> Tree -> Prop) :
  (forall w, P (files a w) -> Q (f w).1 (files a (f w).2)) -> does P (provided f) Q.
Proof.
  intros HQ s Hs. specialize (HQ _ Hs). unfold provided, on_host, ask. by destruct (f (fw_node (ds_fw s))).
Qed.

(** What leaves the files alone, with what it yields. *)
Definition reads {A : Type} (t : Tree) (m : D St World A) (Q : A -> Prop) : Prop := does (eq t) m (fun r t' => t' = t /\ forall x, r = Ok x -> Q x).

Lemma reads_ret {A : Type} (t : Tree) (x : A) (Q : A -> Prop) : Q x -> reads t (dret x) Q.
Proof. intros HQ. apply does_ret. intros t' <-. split; [done|]. by intros y [= <-]. Qed.
Lemma reads_throw {A : Type} (t : Tree) (e : AppError) (Q : A -> Prop) : reads t (dthrow e) Q.
Proof. apply does_throw. intros t' <-. done. Qed.
Lemma reads_seq {A B : Type} (t : Tree) (m : D St World A) (f : A -> D St World B) (R : A -> Prop) (Q : B -> Prop) :
  reads t m R -> (forall x, R x -> reads t (f x) Q) -> reads t (dbind m f) Q.
Proof.
  intros Hm Hf. unfold reads in Hm. eapply (does_bind _ _ _ (fun x t' => t' = t /\ R x)).
  - eapply does_conseq; [exact Hm|done|]. intros [x|e] t' _ [-> Hx]; [split; [done|by apply Hx]|done].
  - intros x. apply does_pre. intros t' _ [-> Hx]. by apply Hf.
Qed.
Lemma reads_conseq {A : Type} (t : Tree) (m : D St World A) (Q Q' : A -> Prop) : reads t m Q' -> (forall x, Q' x -> Q x) -> reads t m Q.
Proof. unfold reads. intros Hm HQ. eapply does_conseq; [exact Hm|done|]. intros r t' _ [-> Hx]. split; [done|]. intros x E. by apply HQ, Hx. Qed.
Lemma reads_provided {A : Type} (t : Tree) (f : World -> result AppError A * World) (Q : A -> Prop) :
  (forall w, files a w = t -> files a (f w).2 = t /\ forall x, (f w).1 = Ok x -> Q x) -> reads t (provided f) Q.
Proof. intros HQ. apply does_provided. intros w Hw. by apply HQ. Qed.

Lemma reads_metadata (t : Tree) path ps : at_path path ps -> link_free t -> reads t (provided (fp_metadata a path)) (described t ps).
Proof. intros Hp Hl. apply reads_provided. intros w <-. by apply ft_metadata. Qed.
Lemma reads_list (t : Tree) path ps : at_path path ps -> link_free t -> reads t (provided (fp_list_directory a path)) (listing t ps).
Proof. intros Hp Hl. apply reads_provided. intros w <-. by apply ft_list. Qed.
Lemma reads_file (t : Tree) path ps : at_path path ps -> link_free t -> reads t (provided (fp_read_file a path)) (fun bytes => t !! ps = Some (FFile bytes)).
Proof. intros Hp Hl. apply reads_provided. intros w <-. by apply ft_read. Qed.
Lemma reads_download (t : Tree) path ps : at_path path ps -> link_free t -> reads t (provided (fp_download_file a path)) (fun bytes => t !! ps = Some (FFile bytes)).
Proof. intros Hp Hl. apply reads_provided. intros w <-. by apply ft_download. Qed.
Lemma reads_scratch (t : Tree) : reads t (provided fp_scratch) (fun _ => True).
Proof. apply reads_provided. intros w <-. split; [apply ft_scratch|done]. Qed.
End does.
