(* ===== verification/ArchiveTree.v ===== *)
(** * ArchiveTree: a tree through a zip

    [write_into_zip], [create_zip], [extract_zip_from] and [entry_paths] of
    [files/archive.rs] on a [FileTree]: the archive holds exactly the tree it was
    made from, extracting it puts every entry where it was, and nothing else is
    touched.  [ZipLaws] is what the zip crate documents: what was written is
    read back, and a plain relative name is enclosed. *)

From S2P Require Import Prelude Text Shell Sandbox Firewall Desktop Archive FileTree.

#[local] Open Scope Z_scope.
#[local] Open Scope desk_scope.

(** ** What an archive holds *)

(** A node of a tree as it is written. *)
Definition render (entry : Path * FileNode) : ZipItem :=
  match entry.2 with FFile contents => ZipFile (text entry.1) contents | _ => ZipDir (text entry.1 ++ [47]) end.
(** A name of the archive is made of plain components. *)
Definition plain_item (item : ZipItem) : Prop :=
  exists ps, ps <> [] /\ Forall plain ps /\ match item with ZipDir name => name = text ps ++ [47] | ZipFile name _ => name = text ps end.
Definition read_back (item : ZipItem) : ZipEntry :=
  match item with ZipDir name => mkZipEntry name true 0 (Some []) | ZipFile name contents => mkZipEntry name false (Z.of_nat (length contents)) (Some contents) end.

Class ZipLaws `{ZipCrate} : Prop := {
  zip_reads_back : forall items bytes, zip_finish items = Ok bytes -> Forall plain_item items -> zip_open bytes = Some (map (fun item => Some (read_back item)) items);
  enclosed_file : forall ps, ps <> [] -> Forall plain ps -> enclosed_name (text ps) = Some (text ps);
  enclosed_dir : forall ps, ps <> [] -> Forall plain ps -> exists tail, (tail = [] \/ tail = [47]) /\ enclosed_name (text ps ++ [47]) = Some (text ps ++ tail);
}.

(** The entries [L] are those of [t] that satisfy [which]. *)
Definition holds (t : Tree) (which : Path -> Prop) (L : list (Path * FileNode)) : Prop :=
  forall q node, (q, node) ∈ L <-> which q /\ t !! q = Some node.

Lemma holds_nil t which : (forall q, which q -> t !! q = None) -> holds t which [].
Proof. intros Hw q node. split; [by intros ?%not_elem_of_nil|]. intros [Hq Ht]. by rewrite Hw in Ht. Qed.
Lemma holds_app t w1 w2 L1 L2 : holds t w1 L1 -> holds t w2 L2 -> holds t (fun q => w1 q \/ w2 q) (L1 ++ L2).
Proof. intros H1 H2 q node. rewrite elem_of_app, (H1 q node), (H2 q node). naive_solver. Qed.
Lemma holds_iff t w1 w2 L : holds t w1 L -> (forall q, is_Some (t !! q) -> w1 q <-> w2 q) -> holds t w2 L.
Proof.
  intros H1 Hw q node. rewrite (H1 q node). split; intros [Hq Ht]; split; try done; eapply Hw; try done; by eexists.
Qed.

(** ** Writing *)

Section writing.
Context {St World : Type} `{FileTree World} `{ZipCrate} (a : N) (t : Tree).
Hypothesis t_links : link_free t.
Hypothesis t_plain : plain_tree t.
Hypothesis t_wf : wf_tree t.

(** [writer'] is [writer] and then the entries of [t] that satisfy [which]. *)
Definition appends (which : Path -> Prop) (writer writer' : list ZipItem) : Prop :=
  exists L, writer' = writer ++ map render L /\ holds t which L.

Lemma appends_none which writer : (forall q, which q -> t !! q = None) -> appends which writer writer.
Proof. intros Hw. exists []. split; [by rewrite app_nil_r|by apply holds_nil]. Qed.
Lemma appends_trans w1 w2 writer1 writer2 writer3 :
  appends w1 writer1 writer2 -> appends w2 writer2 writer3 -> appends (fun q => w1 q \/ w2 q) writer1 writer3.
Proof. intros (L1 & -> & HA) (L2 & -> & HB). exists (L1 ++ L2). split; [by rewrite map_app, app_assoc|by apply holds_app]. Qed.
Lemma appends_iff w1 w2 writer1 writer2 : appends w1 writer1 writer2 -> (forall q, is_Some (t !! q) -> w1 q <-> w2 q) -> appends w2 writer1 writer2.
Proof. intros (L & -> & HL) Hw. exists L. split; [done|by eapply holds_iff]. Qed.
Lemma appends_one ps node writer : t !! ps = Some node -> appends (eq ps) writer (writer ++ [render (ps, node)]).
Proof.
  intros Ht. exists [(ps, node)]. split; [done|]. intros q node'. rewrite list_elem_of_singleton. split; [by intros [= -> ->]|].
  intros [<- Hq]. congruence.
Qed.

Lemma reads_write_item name item writer Q : Q (writer ++ [item]) -> reads (St := St) a t (write_item name item writer) Q.
Proof. intros HQ. unfold write_item. destruct (zip_add writer item) as [u|[[] detail]]; [by apply reads_ret|apply reads_throw..]. Qed.

(** A loop that adds, for each element, the entries that satisfy [which]. *)
Lemma reads_each {A : Type} (f : A -> list ZipItem -> D St World (list ZipItem)) (which : A -> Path -> Prop) l writer :
  (forall x writer, x ∈ l -> reads a t (f x writer) (appends (which x) writer)) ->
  reads a t (each f l writer) (appends (fun q => exists x, x ∈ l /\ which x q) writer).
Proof.
  revert writer; induction l as [|x l IH]; intros writer Hf; cbn [each].
  - apply reads_ret, appends_none. intros q (x & Hx & _). by apply not_elem_of_nil in Hx.
  - eapply reads_seq; [apply Hf; by left|]. intros writer1 HA. eapply reads_conseq; [apply IH; intros; apply Hf; by right|].
    intros writer2 HB. eapply appends_iff; [by eapply appends_trans|]. intros q _. setoid_rewrite elem_of_cons. naive_solver.
Qed.

Lemma walk levels : forall ps writer, ps <> [] -> Forall plain ps ->
  reads (St := St) a t (write_into_zip levels a (text ps) (text ps) writer) (appends (fun q => ps `prefix_of` q) writer).
Proof.
  induction levels as [|levels IH]; intros ps writer Hne Hp; cbn [write_into_zip]; [apply reads_throw|].
  pose proof (at_path_text ps Hp Hne) as Hat.
  eapply reads_seq; [by apply reads_metadata|].
  intros stat (node & Hnode & Hlink & Hdir). rewrite node_at_cons in Hnode by done.
  assert (Hnl : node <> FLink) by (intros ->; by apply (t_links ps)). rewrite Hlink. replace (is_link_node node) with false by (by destruct node).
  rewrite Hdir. destruct node as [contents| |]; cbn [is_directory_node]; [| |done].
  - eapply reads_seq; [by apply reads_file|].
    intros bytes Hb. cbn beta in Hb. rewrite Hnode in Hb. injection Hb as <-. apply reads_write_item.
    change (ZipFile (text ps) contents) with (render (ps, FFile contents)). eapply appends_iff; [by apply appends_one|].
    intros q [node Hq]. split; [by intros <-|]. intros Hpre. destruct (decide (ps = q)) as [|Hd]; [done|].
    destruct (wf_prefix t ps q node t_wf Hne Hpre Hq) as [_ Hx]. rewrite Hx in Hnode by done. done.
  - eapply reads_seq; [apply (reads_write_item _ _ _ (appends (eq ps) writer))|].
    { change (ZipDir (text ps ++ [47])) with (render (ps, FDir)). by apply appends_one. }
    intros writer1 Hw1. eapply reads_seq; [by apply reads_list|].
    intros entries Hl. eapply reads_conseq; [apply (reads_each _ (fun e q => (ps ++ [re_name e]) `prefix_of` q))|].
    + intros e writer2 He. cbn beta.
      assert (Hs : is_Some (t !! (ps ++ [re_name e]))) by (apply (listing_names _ _ _ Hl), list_elem_of_fmap; by exists e).
      destruct Hs as [node Hs]. destruct (listing_entry _ _ _ Hl e node He Hs) as [Hsym _]. rewrite Hsym.
      replace (is_link_node node) with false by (destruct node; try done; exfalso; by eapply t_links).
      rewrite <- (app_nil_r (text ps)) at 1. rewrite trim_text by auto. rewrite <- text_snoc by done. apply IH; [by destruct ps|by eapply t_plain].
    + intros writer2 Hw2. eapply appends_iff; [by eapply appends_trans|]. intros q [node Hq]. split.
      * intros [<- |(e & _ & Hpre)]; [done|]. etrans; [|exact Hpre]. by apply prefix_app_r.
      * intros [x ->]. destruct x as [|n x]; [left; by rewrite app_nil_r|right].
        assert (Hn : is_Some (t !! (ps ++ [n]))).
        { eapply (wf_prefix t (ps ++ [n]) (ps ++ n :: x)); [done|by destruct ps|exists x; by rewrite <- app_assoc|done]. }
        apply (listing_names _ _ _ Hl), list_elem_of_fmap in Hn as (e & -> & He). exists e. split; [done|]. exists x. by rewrite <- app_assoc.
Qed.

Lemma base_name_plain n : plain n -> base_name n = n.
Proof. intros [Hn _]%plain_no_slash. unfold base_name. by rewrite rsplit_once_none. Qed.

(** The archive of the entries called [names] at the top. *)
Lemma walk_all names : Forall plain names ->
  reads (St := St) a t (each (fun path writer => write_into_zip (S MAX_ARCHIVE_DEPTH) a path (base_name path) writer) names [])
    (fun items => exists L, items = map render L /\ holds t (fun q => exists n, n ∈ names /\ [n] `prefix_of` q) L).
Proof.
  intros Hn. eapply reads_conseq; [apply (reads_each _ (fun n q => [n] `prefix_of` q))|].
  - intros n writer Hin. rewrite Forall_forall in Hn. rewrite base_name_plain by auto. apply (walk _ [n]); [done|]. apply Forall_singleton. auto.
  - intros items (L & -> & HL). by exists L.
Qed.
End writing.

Lemma rendered_plain t which L : plain_tree t -> wf_tree t -> holds t which L -> Forall plain_item (map render L).
Proof.
  intros Hp [Hr _] HL. apply Forall_forall. intros item (entry & -> & Hin)%list_elem_of_fmap. destruct entry as [q node]. apply HL in Hin as [_ Hq].
  exists q. split_and!; [by intros ->; rewrite Hr in Hq|by eapply Hp|]. by destruct node.
Qed.

(** ** Extracting *)

Section extracting.
Context {St World : Type} `{FileTree World} `{ZipCrate} (a : N).
(** The tree the archive was made from, the one it is extracted over, and
    every path that extracting may touch. *)
Context (t0 t1 : Tree) (scope : list Path).
Hypothesis t0_links : link_free t0.
Hypothesis t0_plain : plain_tree t0.
Hypothesis t0_wf : wf_tree t0.
Hypothesis t1_links : link_free t1.

(** The paths [done] are as they were, the others as they are. *)
Definition laid (done : list Path) (t : Tree) : Prop := forall p, (p ∈ done -> t !! p = t0 !! p) /\ (p ∉ done -> t !! p = t1 !! p).
Definition sourced (done : list Path) : Prop := forall p, p ∈ done -> p ∈ scope /\ is_Some (t0 !! p).
(** After a failure: some paths of the archive are as they were, the others as
    they are, and in at most one file of the archive a write broke off. *)
Definition harmless (t : Tree) : Prop := exists done t', laid done t' /\ sourced done /\
  (t = t' \/ exists p contents part, p ∈ scope /\ t0 !! p = Some (FFile contents) /\ t = <[p := FFile part]> t').
Definition known_in (known : gset (list Z)) (done : list Path) : Prop := forall k, k ∈ known -> exists p, p ∈ done /\ k = text p.

Lemma laid_link_free done t : laid done t -> link_free t.
Proof. intros Hl p. destruct (Hl p) as [HA HB]. destruct (decide (p ∈ done)) as [Hd|Hd]; [rewrite HA by done; apply t0_links|rewrite HB by done; apply t1_links]. Qed.
Lemma laid_harmless done t : laid done t -> sourced done -> harmless t.
Proof. intros Hl Hs. exists done, t. auto. Qed.
Lemma broken_harmless done t p contents part : laid done t -> sourced done -> p ∈ scope -> t0 !! p = Some (FFile contents) -> harmless (<[p := FFile part]> t).
Proof. intros Hl Hs Hp Hc. exists done, t. split_and!; [done|done|]. right. by exists p, contents, part. Qed.
(** The file [p] of the archive in which a write broke off, if any. *)
Definition broke_off (broken : option Path) (t : Tree) (q : Path) : Prop :=
  broken = Some q /\ exists contents part, t0 !! q = Some (FFile contents) /\ t !! q = Some (FFile part).
Lemma harmless_spec t : harmless t ->
  (forall p, p ∉ scope -> t !! p = t1 !! p) /\ exists broken, forall p, t !! p = t1 !! p \/ t !! p = t0 !! p \/ broke_off broken t p.
Proof.
  intros (done & t' & Hl & Hs & Ht).
  assert (Hin : forall p, p ∉ scope -> t' !! p = t1 !! p) by (intros p Hp; apply Hl; intros Hd; by apply Hs in Hd as [? _]).
  assert (Hall : forall p, t' !! p = t1 !! p \/ t' !! p = t0 !! p) by (intros p; destruct (decide (p ∈ done)); [right|left]; by apply Hl).
  destruct Ht as [->|(p & contents & part & Hp & Hc & ->)].
  - split; [done|]. exists None. intros p. destruct (Hall p); auto.
  - split; [intros q Hq; rewrite lookup_insert_ne by (by intros ->); by apply Hin|]. exists (Some p). intros q.
    destruct (decide (p = q)) as [->|Hd]; [|rewrite lookup_insert_ne by done; destruct (Hall q); auto].
    right; right. split; [done|]. exists contents, part. by rewrite lookup_insert_eq.
Qed.
Lemma laid_snoc done t p : laid done t -> t !! p = t0 !! p -> laid (done ++ [p]) t.
Proof.
  intros Hl Hp q. rewrite elem_of_app, list_elem_of_singleton. split.
  - intros [Hq| ->]; [by apply Hl|done].
  - intros Hq. apply Hl. naive_solver.
Qed.
Lemma laid_insert done t p node : laid done t -> t0 !! p = Some node -> laid (done ++ [p]) (<[p := node]> t).
Proof.
  intros Hl Hp q. rewrite elem_of_app, list_elem_of_singleton. destruct (decide (p = q)) as [->|Hd].
  - rewrite lookup_insert_eq. split; [done|]. intros Hq. exfalso; auto.
  - rewrite lookup_insert_ne by done. split; intros Hq; apply Hl; naive_solver.
Qed.
Lemma sourced_app done1 done2 : sourced done1 -> sourced done2 -> sourced (done1 ++ done2).
Proof. intros HA HB p [Hp|Hp]%elem_of_app; auto. Qed.
Lemma known_in_app known done more : known_in known done -> known_in known (done ++ more).
Proof. intros Hk k Hin. destruct (Hk k Hin) as (p & Hp & ->). exists p. split; [|done]. apply elem_of_app; by left. Qed.

Lemma t0_path p node : t0 !! p = Some node -> p <> [] /\ Forall plain p /\ at_path (text p) p.
Proof.
  intros Hp. assert (p <> []) by (intros ->; destruct t0_wf as [Hr _]; by rewrite Hr in Hp). pose proof (t0_plain _ _ Hp).
  split_and!; [done..|]. by apply at_path_text.
Qed.

(** One directory of the way, and what comes after it. *)
Lemma does_directory {A : Type} (done : list Path) (p : Path) (k : D St World A) (Q : result AppError A -> Tree -> Prop) :
  t0 !! p = Some FDir -> p ∈ scope -> sourced done -> (forall e t, harmless t -> Q (Err e) t) -> does a (laid (done ++ [p])) k Q ->
  does a (laid done)
    (found <- dtry (provided (fp_metadata a (text p))) ;;
     match found with
     | Ok entry => if entry.(re_is_dir) then dret tt else refuse (text p) "already exists and isn't a directory"
     | Err _ => provided (fp_create_directory a (text p))
     end ;;; k) Q.
Proof.
  intros Hd Hp Hs HQ Hk. destruct (t0_path _ _ Hd) as (Hne & _ & Hat). apply does_pre. intros t _ Hl. pose proof (laid_link_free _ _ Hl) as Hlf.
  apply (does_bind _ _ _ _ (fun found t' => t' = t /\ forall e, found = Ok e -> described t p e)).
  { apply does_try. eapply does_conseq; [by apply (reads_metadata a t)|done|]. intros r t' _ [-> Hr]. split; [done|]. intros e ->. by apply Hr. }
  intros found. apply (does_bind _ _ _ _ (fun _ => laid (done ++ [p]))); [|done]. destruct found as [e|e]; apply does_pre; intros t' _ [-> He].
  - destruct (He e eq_refl) as (node & Hnode & _ & Hdir). rewrite Hdir. rewrite node_at_cons in Hnode by done. destruct node; cbn [is_directory_node].
    + apply does_throw. intros ? <-. apply HQ. by eapply laid_harmless.
    + apply does_ret. intros ? <-. apply laid_snoc; [done|]. by rewrite Hd.
    + by apply Hlf in Hnode.
  - apply does_provided. intros w Hw. pose proof (ft_mkdir a (text p) p w Hat) as Hm. rewrite <- Hw in Hm. specialize (Hm Hlf).
    destruct (fp_create_directory a (text p) w) as [r w']; cbn [fst snd]. destruct Hm as [[Hf Hr]|(_ & Hn & Hf)].
    + rewrite Hf. destruct r; [done|]. apply HQ. by eapply laid_harmless.
    + rewrite Hf. destruct r; [by apply laid_insert|]. apply HQ, (laid_harmless (done ++ [p])); [by apply laid_insert|].
      apply sourced_app; [done|]. intros q ->%list_elem_of_singleton. by rewrite Hd.
Qed.

Lemma does_directories rest : forall ps done known,
  (forall q, q ∈ extensions ps rest -> q ∈ scope /\ t0 !! q = Some FDir) -> sourced done -> known_in known done ->
  does (St := St) a (laid done) (make_directories a (text ps) rest known)
    (fun r t => match r with Ok known' => laid (done ++ extensions ps rest) t /\ known_in known' (done ++ extensions ps rest) | Err _ => harmless t end).
Proof.
  induction rest as [|s rest IH]; intros ps done known Hx Hs Hk; cbn [make_directories extensions].
  { apply does_ret. intros t Hl. by rewrite app_nil_r. }
  destruct (Hx (ps ++ [s])) as [Hsc Hd]; [by left|]. destruct (t0_path _ _ Hd) as (Hne & Hpl & _).
  assert (Hps : Forall plain ps) by (by apply Forall_app in Hpl as [? _]).
  replace (if is_empty (text ps) then s else text ps ++ [47] ++ s) with (text (ps ++ [s])); cycle 1.
  { destruct ps as [|q ps]; [done|]. rewrite is_empty_text by done. by apply text_snoc. }
  assert (Hx' : forall q, q ∈ extensions (ps ++ [s]) rest -> q ∈ scope /\ t0 !! q = Some FDir) by (intros q Hq; apply Hx; by right).
  assert (Hs' : sourced (done ++ [ps ++ [s]])).
  { apply sourced_app; [done|]. intros q ->%list_elem_of_singleton. rewrite Hd. split; [done|by eexists]. }
  replace (done ++ (ps ++ [s]) :: extensions (ps ++ [s]) rest) with ((done ++ [ps ++ [s]]) ++ extensions (ps ++ [s]) rest) by (by rewrite <- app_assoc).
  destruct (bool_decide (text (ps ++ [s]) ∈ known)) eqn:Ek.
  - apply bool_decide_eq_true, Hk in Ek as (p & Hp & Et). apply Hs in Hp as Hp0. destruct Hp0 as [_ [node Hp0]].
    apply text_inj in Et; [|done|by destruct (t0_path _ _ Hp0) as (_ & ? & _)]. subst p.
    eapply does_conseq; [apply IH; [done|exact Hs'|by apply known_in_app]| |by intros r t _ Hr].
    intros t Hl. apply laid_snoc; [done|]. by apply Hl.
  - apply does_directory; [done..|]. apply IH; [done..|]. intros k [Hin|Hin]%elem_of_union.
    + destruct (Hk k Hin) as (p & Hp & ->). exists p. split; [|done]. apply elem_of_app; by left.
    + apply elem_of_singleton in Hin as ->. exists (ps ++ [s]). split; [|done]. apply elem_of_app; right. by left.
Qed.

Lemma components ps tail : Forall plain ps -> ps <> [] -> tail = [] \/ tail = [47] -> List.filter (fun s => negb (is_empty s)) (split_on (Z.eqb 47) (text ps ++ tail)) = ps.
Proof.
  intros Hp Hne Ht. assert (Hf : List.filter (fun s => negb (is_empty s)) ps = ps).
  { apply forallb_filter_id, forallb_forall. intros s Hs. rewrite Forall_forall in Hp. apply list_elem_of_In, Hp, plain_no_slash in Hs as [_ Hs]. by destruct s. }
  destruct Ht as [-> | ->]; [by rewrite app_nil_r, split_text|]. rewrite split_on_snoc, split_text by done. rewrite List.filter_app, Hf. cbn. by rewrite app_nil_r.
Qed.

(** The directories on the way to an entry, and those of a directory. *)
Lemma way_to q node p : t0 !! q = Some node -> p ∈ extensions [] q -> is_Some (t0 !! p) /\ (p <> q \/ node = FDir -> t0 !! p = Some FDir).
Proof.
  intros Hq (x & Hx & -> & Hp)%extensions_spec. cbn [app]. destruct (wf_prefix t0 x q node t0_wf Hx Hp Hq) as [Hs Hd]. split; [done|].
  intros [Hn| ->]; [by apply Hd|]. destruct (decide (x = q)) as [->|Hn]; [done|by apply Hd].
Qed.

Definition entered (done : list Path) (q : Path) (r : result AppError Extraction) (t : Tree) : Prop :=
  match r with Ok x => laid (done ++ extensions [] q) t /\ known_in x.(ex_known) (done ++ extensions [] q) | Err _ => harmless t end.

Lemma does_place_dir (done : list Path) (q : Path) tail x : t0 !! q = Some FDir -> (forall p, p ∈ extensions [] q -> p ∈ scope) -> sourced done -> known_in x.(ex_known) done ->
  tail = [] \/ tail = [47] -> does (St := St) a (laid done) (place_entry a (text q ++ tail) true [] x) (entered done q).
Proof.
  intros Hq Hsc Hs Hk Ht. destruct (t0_path _ _ Hq) as (Hne & Hpl & _). unfold place_entry, create_directory_all_cached. rewrite components by done.
  eapply does_bind.
  - eapply does_conseq; [apply (does_directories q [] done (ex_known x)); [|done..]|done|].
    + intros p Hp. split; [by apply Hsc|]. eapply way_to; [done|done|by right].
    + intros [known|e] t _ Hr; [exact Hr|done].
  - intros known. by apply does_ret.
Qed.

Lemma does_place_file (done : list Path) (q : Path) contents x : t0 !! q = Some (FFile contents) -> (forall p, p ∈ extensions [] q -> p ∈ scope) -> sourced done -> known_in x.(ex_known) done ->
  does (St := St) a (laid done) (place_entry a (text q) false contents x) (entered done q).
Proof.
  intros Hq Hsc Hs Hk. destruct (t0_path _ _ Hq) as (Hne & Hpl & Hat). unfold place_entry. destruct q as [|n ps _] using rev_ind; [done|].
  assert (Hdirs : forall p, p ∈ extensions [] ps -> p ∈ scope /\ t0 !! p = Some FDir).
  { intros p Hp. rewrite extensions_snoc in Hsc. split; [apply Hsc, elem_of_app; by left|]. eapply way_to; [done|rewrite extensions_snoc; apply elem_of_app; by left|].
    left. intros ->. apply extensions_spec in Hp as (y & _ & Hy & Hp). cbn in Hy; subst y. apply prefix_length in Hp. rewrite length_app in Hp; cbn in Hp; lia. }
  assert (Hlast : ps ++ [n] ∈ scope) by (apply Hsc; rewrite extensions_snoc; apply elem_of_app; right; by left).
  eapply (does_bind _ _ _ _ (fun known t => laid (done ++ extensions [] ps) t /\ known_in known (done ++ extensions [] ps))).
  - rewrite rsplit_text by done. destruct ps as [|p ps]; [apply does_ret; intros t Hl; by rewrite app_nil_r|].
    unfold create_directory_all_cached. rewrite <- (app_nil_r (text (p :: ps))) at 1. apply Forall_app in Hpl as [Hpl _]. rewrite components by auto.
    eapply does_conseq; [by apply (does_directories (p :: ps) [] done (ex_known x))|done|]. intros [known|e] t _ Hr; [exact Hr|done].
  - intros known. apply does_pre. intros t _ [Hl Hkn]. pose proof (laid_link_free _ _ Hl) as Hlf.
    assert (Hs' : sourced (done ++ extensions [] ps)).
    { apply sourced_app; [done|]. intros p Hp. destruct (Hdirs p Hp) as [HA HB]. split; [done|by rewrite HB]. }
    unfold entered. rewrite extensions_snoc, app_assoc. cbn [app].
    eapply (does_bind _ _ _ _ (fun _ t' => laid ((done ++ extensions [] ps) ++ [ps ++ [n]]) t')).
    + apply does_provided. intros w Hw. pose proof (ft_write a _ _ contents w Hat) as Hm. rewrite <- Hw in Hm. specialize (Hm Hlf).
      destruct (fp_write_file a (text (ps ++ [n])) contents w) as [[u|e] w']; cbn [fst snd] in *.
      * destruct Hm as (_ & _ & ->). by apply laid_insert.
      * destruct Hm as [-> |[part ->]]; [by eapply laid_harmless|by eapply broken_harmless].
    + intros _. apply does_ret. intros t' Hl'. split; [done|]. cbn [ex_known]. by apply known_in_app.
Qed.

Context `{!ZipLaws}.

Lemma does_extract_entry (done : list Path) (q : Path) node x : t0 !! q = Some node -> (forall p, p ∈ extensions [] q -> p ∈ scope) -> sourced done -> known_in x.(ex_known) done ->
  does (St := St) a (laid done) (extract_entry a DOT (Some (read_back (render (q, node)))) x) (entered done q).
Proof.
  intros Hq Hsc Hs Hk. destruct (t0_path _ _ Hq) as (Hne & Hpl & _). unfold extract_entry, target_of.
  change (is_empty DOT || str_eqb DOT DOT) with true. destruct node as [contents| |]; cbn [render read_back fst snd ze_name ze_is_dir ze_size ze_data].
  - rewrite enclosed_file, forward_text by done.
    assert (Hbad : forall t, laid done t -> entered done q (Err (InvalidInput (mkInvalid (text q) HasNul))) t) by (intros t Hl; by eapply laid_harmless).
    destruct (_ <? _); [apply does_throw; exact Hbad|]. destruct (_ <? _); [apply does_throw; exact Hbad|]. by apply does_place_file.
  - destruct (enclosed_dir q Hne Hpl) as (tail & Ht & ->). rewrite forward_slashes_app, forward_text by done.
    replace (forward_slashes tail) with tail by (by destruct Ht as [-> | ->]). by apply does_place_dir.
  - by apply t0_links in Hq.
Qed.

Definition touched (L : list (Path * FileNode)) : list Path := L ≫= fun entry => extensions [] entry.1.

Lemma does_extract_loop L : forall done x,
  (forall q node, (q, node) ∈ L -> t0 !! q = Some node) -> (forall p, p ∈ touched L -> p ∈ scope) -> sourced done -> known_in x.(ex_known) done ->
  does (St := St) a (laid done) (each (extract_entry a DOT) (map (fun item => Some (read_back item)) (map render L)) x)
    (fun r t => match r with Ok _ => laid (done ++ touched L) t | Err _ => harmless t end).
Proof.
  induction L as [|[q node] L IH]; intros done x HL Hsc Hs Hk; cbn [map each].
  { apply does_ret. intros t Hl. unfold touched. cbn. by rewrite app_nil_r. }
  assert (Hq : t0 !! q = Some node) by (apply HL; by left). unfold touched in *. cbn [mbind list_bind] in *. setoid_rewrite elem_of_app in Hsc. cbn [fst] in *.
  eapply (does_bind _ _ _ _ (fun x' t => entered done q (Ok x') t)).
  - eapply does_conseq; [apply (does_extract_entry done q node x); auto|done|]. by intros [x'|e] t _ Hr.
  - intros x'. apply does_pre. intros t _ [Hl Hk']. rewrite app_assoc.
    eapply does_conseq; [apply (IH (done ++ extensions [] q) x'); auto| |done]; [| |by intros t' <-].
    + intros q' node' Hin. apply HL. by right.
    + apply sourced_app; [done|]. intros p Hp. split; [auto|]. by eapply way_to.
Qed.
End extracting.

(** ** A whole archive *)

Lemma with_parents_nil fuel : with_parents fuel [] = [].
Proof. by destruct fuel. Qed.
Lemma with_parents_text ps : Forall plain ps -> forall fuel k, (length (text ps) <= fuel)%nat ->
  k ∈ with_parents fuel (text ps) <-> exists p, p ∈ extensions [] ps /\ k = text p.
Proof.
  induction ps as [|n ps IH] using rev_ind; intros Hp fuel k Hf.
  - change (text []) with (@nil Z). rewrite with_parents_nil. split; [by intros ?%not_elem_of_nil|]. by intros (p & ?%not_elem_of_nil & _).
  - assert (Hne : ps ++ [n] <> []) by (by destruct ps). rewrite extensions_snoc. cbn [app].
    pose proof (text_nonempty _ Hp Hne) as Ht. destruct fuel as [|fuel]; [destruct (text (ps ++ [n])); [done|cbn in Hf; lia]|].
    cbn [with_parents]. rewrite is_empty_text, rsplit_text by done. rewrite elem_of_cons.
    assert (Hrest : k ∈ with_parents fuel (match match ps with [] => None | _ => Some (text ps, n) end with Some (parent, _) => parent | None => [] end) <-> exists p, p ∈ extensions [] ps /\ k = text p).
    { destruct ps as [|q ps].
      - rewrite with_parents_nil. split; [by intros ?%not_elem_of_nil|]. by intros (p & ?%not_elem_of_nil & _).
      - apply Forall_app in Hp as [Hp _]. apply IH; [done|]. rewrite text_snoc, !length_app in Hf by done. cbn in Hf |- *; lia. }
    rewrite Hrest. setoid_rewrite elem_of_app. setoid_rewrite list_elem_of_singleton. naive_solver.
Qed.

Section whole.
Context {St World : Type} `{FileTree World} `{ZipLaws} (a : N).
Context (t0 : Tree) (which : Path -> Prop) (L : list (Path * FileNode)) (bytes : list Z).
Hypothesis t0_links : link_free t0.
Hypothesis t0_plain : plain_tree t0.
Hypothesis t0_wf : wf_tree t0.
Hypothesis L_holds : holds t0 which L.
Hypothesis finished : zip_finish (map render L) = Ok bytes.

Lemma opens : zip_open bytes = Some (map (fun item => Some (read_back item)) (map render L)).
Proof. apply zip_reads_back; [done|]. by eapply rendered_plain. Qed.

(** Extracting over [t1] brings every path of the archive back, and nothing else changes. *)
Lemma does_extract (t1 : Tree) : link_free t1 ->
  does (St := St) a (eq t1) (extract_zip_from_file a bytes DOT)
    (fun r t => match r with Ok _ => laid t0 t1 (touched L) t | Err _ => harmless t0 t1 (touched L) t end).
Proof.
  intros Hlf. unfold extract_zip_from_file, extract_zip_from. rewrite opens.
  assert (Hnil : forall t, t1 = t -> laid t0 t1 [] t) by (intros t <- p; split; [by intros ?%not_elem_of_nil|done]).
  assert (Hs : sourced t0 (touched L) []) by (intros p ?%not_elem_of_nil; done).
  assert (Hh : forall t, t1 = t -> harmless t0 t1 (touched L) t) by (intros t Ht; eapply laid_harmless; [by apply Hnil|done]).
  eapply (does_bind _ _ _ _ (fun _ t => t1 = t)).
  { eapply does_conseq; [apply (reads_scratch a t1)|done|]. intros [u|e] t _ [-> _]; [done|by apply Hh]. }
  intros _. destruct (_ <? _); [by apply does_throw|].
  eapply (does_bind _ _ _ _ (fun _ t => laid t0 t1 (touched L) t)).
  - eapply does_conseq; [apply (does_extract_loop a t0 t1 (touched L) t0_links t0_plain t0_wf Hlf L []); try done|exact Hnil|by intros [x|e] t _ Hr].
    intros q node Hq. by apply L_holds in Hq as [_ ?].
  - intros x. by apply does_ret.
Qed.

Lemma reads_archive_paths (t : Tree) l paths : (forall q node, (q, node) ∈ l -> t0 !! q = Some node) ->
  reads (St := St) a t (archive_paths (map (fun item => Some (read_back item)) (map render l)) paths)
    (fun keep => forall k, k ∈ keep <-> k ∈ paths \/ exists p, p ∈ touched l /\ k = text p).
Proof.
  revert paths; induction l as [|[q node] l IH]; intros paths Hl; cbn [map archive_paths].
  { apply reads_ret. intros k. unfold touched. cbn. setoid_rewrite elem_of_nil. naive_solver. }
  assert (Hq : t0 !! q = Some node) by (apply Hl; by left). destruct (t0_path t0 t0_plain t0_wf _ _ Hq) as (Hne & Hpl & _).
  assert (Hname : exists tail, (tail = [] \/ tail = [47]) /\ enclosed_name (ze_name (read_back (render (q, node)))) = Some (text q ++ tail)).
  { destruct node; cbn [render read_back fst snd ze_name]; [exists []; rewrite app_nil_r; split; [by left|by apply enclosed_file]|by apply enclosed_dir..]. }
  destruct Hname as (tail & Ht & ->). rewrite forward_slashes_app, forward_text by done.
  replace (forward_slashes tail) with tail by (by destruct Ht as [-> | ->]). rewrite trim_text by done.
  eapply reads_conseq; [apply IH; intros q' node' Hin; apply Hl; by right|]. cbn beta. intros keep Hk k. rewrite Hk, elem_of_union, elem_of_list_to_set.
  rewrite with_parents_text by done. unfold touched. cbn [mbind list_bind fst]. setoid_rewrite elem_of_app. naive_solver.
Qed.

(** The paths of the archive are those it touches. *)
Lemma reads_entry_paths (t : Tree) : reads (St := St) a t (entry_paths bytes) (fun keep => forall k, k ∈ keep <-> exists p, p ∈ touched L /\ k = text p).
Proof.
  unfold entry_paths. eapply reads_seq; [apply reads_scratch|]. intros _ _. rewrite opens.
  eapply reads_conseq; [apply reads_archive_paths; intros q node Hq; by apply L_holds in Hq as [_ ?]|]. cbn beta. intros keep Hk k. rewrite Hk. set_solver.
Qed.
End whole.
