(* ===== verification/Posix.v ===== *)
(** * Posix: a file system with links

    What the operating system does with a path: the calls that
    [files/local.rs] makes through [std::fs] and [tokio::fs], on a tree of names
    with symbolic links.  A path is its list of components, read from the root
    of the file system, as [std::path::Path] reads it; links are followed as
    path_resolution(7) has it, at most forty of them.  Any call may fail, and a
    write or a recursive removal that fails may have been done in part. *)

From S2P Require Import Prelude Text Shell Sandbox Firewall.

#[local] Open Scope Z_scope.

Inductive PosixNode : Type := PFile (contents : list Z) (mode : Z) | PDir (mode : Z) | PLink (target : list Z).
Abbreviation FsPath := (list (list Z)).
Abbreviation Fs := (gmap (list (list Z)) PosixNode).

Definition fs_node (fs : Fs) (p : FsPath) : option PosixNode := match p with [] => Some (PDir 0) | _ => fs !! p end.
Definition is_dir_node (node : option PosixNode) : bool := match node with Some (PDir _) => true | _ => false end.

(** ** Following a path *)

Definition MAX_LINKS : nat := 40.
Definition absolute (target : list Z) : bool := starts_with [47] target.

(** From the directory [at_]: [missing] allows the last component not to
    exist, [follow] follows it when it is a link. *)
Fixpoint walk (missing follow : bool) (links : nat) (fs : Fs) : FsPath -> list (list Z) -> option FsPath :=
  fix go (at_ : FsPath) (todo : list (list Z)) : option FsPath :=
    match todo with
    | [] => Some at_
    | c :: todo =>
        if is_empty c || str_eqb c DOT then go at_ todo
        else if str_eqb c DOTDOT then go (removelast at_) todo
        else
          match fs !! (at_ ++ [c]), todo with
          | Some (PDir _), _ => go (at_ ++ [c]) todo
          | Some (PFile _ _), [] => Some (at_ ++ [c])
          | Some (PFile _ _), _ => None
          | Some (PLink _), [] =>
              if follow then match links, fs !! (at_ ++ [c]) with S links, Some (PLink target) => walk missing follow links fs (if absolute target then [] else at_) (split_on (Z.eqb 47) target) | _, _ => None end
              else Some (at_ ++ [c])
          | Some (PLink target), _ =>
              match links with S links => walk missing follow links fs (if absolute target then [] else at_) (split_on (Z.eqb 47) target ++ todo) | O => None end
          | None, [] => if missing then Some (at_ ++ [c]) else None
          | None, _ => None
          end
    end.

(** [realpath]; what an open may create; and an entry itself. *)
Definition realpath (fs : Fs) (p : FsPath) : option FsPath := walk false true MAX_LINKS fs [] p.
Definition open_at (fs : Fs) (p : FsPath) : option FsPath := walk true true MAX_LINKS fs [] p.
Definition entry_at (fs : Fs) (p : FsPath) : option FsPath := walk false false MAX_LINKS fs [] p.
Definition new_entry_at (fs : Fs) (p : FsPath) : option FsPath := walk true false MAX_LINKS fs [] p.

(** Every entry stands in a directory, under a name. *)
Definition stands_in (fs : Fs) (p : FsPath) : bool :=
  match last p with Some n => entry_name n && is_dir_node (fs_node fs (removelast p)) | None => false end.
Definition wf_fsb (fs : Fs) : bool := forallb (fun entry => stands_in fs entry.1) (map_to_list fs).

(** ** The calls *)

Definition lstat (fs : Fs) (p : FsPath) : option PosixNode := q ← entry_at fs p; fs_node fs q.
Definition stat (fs : Fs) (p : FsPath) : option PosixNode := q ← realpath fs p; fs_node fs q.

Definition read_at (fs : Fs) (p : FsPath) : option (list Z) :=
  q ← realpath fs p; match fs !! q with Some (PFile contents _) => Some contents | _ => None end.
(** Created or truncated, then written. *)
Definition write_at (fs : Fs) (p : FsPath) (contents : list Z) : option Fs :=
  q ← open_at fs p;
  match q, fs !! q with
  | [], _ | _, Some (PDir _) | _, Some (PLink _) => None
  | _, Some (PFile _ mode) => Some (<[q := PFile contents mode]> fs)
  | _, None => Some (<[q := PFile contents 420]> fs)
  end.
Definition make_dir_at (fs : Fs) (p : FsPath) : option Fs :=
  q ← new_entry_at fs p; match q, fs !! q with [], _ | _, Some _ => None | _, None => Some (<[q := PDir 493]> fs) end.
Definition unlink_at (fs : Fs) (p : FsPath) : option Fs :=
  q ← entry_at fs p; match fs !! q with Some (PFile _ _) | Some (PLink _) => Some (delete q fs) | _ => None end.
Definition chmod_at (fs : Fs) (p : FsPath) (mode : Z) : option Fs :=
  q ← realpath fs p;
  match fs !! q with Some (PFile contents _) => Some (<[q := PFile contents mode]> fs) | Some (PDir _) => Some (<[q := PDir mode]> fs) | _ => None end.

(** The entries at [p] and below, the deepest first. *)
Definition deeper (p q : FsPath) : Prop := (length q <= length p)%nat.
#[global] Instance deeper_dec : RelDecision deeper.
Proof. intros p q. apply Nat.le_dec. Defined.
Definition below (fs : Fs) (p : FsPath) : list FsPath := merge_sort deeper (List.filter (fun q => bool_decide (p `prefix_of` q)) (map fst (map_to_list fs))).
Definition delete_all (fs : Fs) (ps : list FsPath) : Fs := fold_right delete fs ps.
Definition remove_tree_at (fs : Fs) (p : FsPath) (how_many : option nat) : option Fs :=
  q ← entry_at fs p;
  match q, fs !! q with
  | _ :: _, Some (PDir _) => Some (delete_all fs (match how_many with Some n => take n (below fs q) | None => below fs q end))
  | _, _ => None
  end.

(** Moving an entry, over another one that is no directory or an empty one of the same kind. *)
Definition moved (fs : Fs) (from to : FsPath) : Fs :=
  list_to_map (map (fun entry => if bool_decide (from `prefix_of` entry.1) then (to ++ drop (length from) entry.1, entry.2) else entry)
                   (map_to_list (delete_all fs (below fs to)))).
Definition replaceable (fs : Fs) (from to : FsPath) : bool :=
  match fs !! to with
  | None => true
  | Some (PDir _) => is_dir_node (fs !! from) && bool_decide (below fs to = [to])
  | Some _ => negb (is_dir_node (fs !! from))
  end.
Definition rename_at (fs : Fs) (p p' : FsPath) : option Fs :=
  from ← entry_at fs p;
  to ← new_entry_at fs p';
  match from, to, fs !! from with
  | _ :: _, _ :: _, Some _ =>
      if bool_decide (from = to) then Some fs
      else if bool_decide (from `prefix_of` to) || bool_decide (to `prefix_of` from) || negb (replaceable fs from to) then None
      else Some (moved fs from to)
  | _, _, _ => None
  end.

(** The names in a directory, with what each is. *)
Definition child_of (ps p : FsPath) : option (list Z) :=
  if decide (take (length ps) p = ps) then match drop (length ps) p with [n] => Some n | _ => None end else None.
Definition read_dir_at (fs : Fs) (p : FsPath) : option (list (list Z * PosixNode)) :=
  q ← realpath fs p;
  if is_dir_node (fs_node fs q) then Some (omap (fun entry => (fun n => (n, entry.2)) <$> child_of q entry.1) (map_to_list fs)) else None.

(** ** A machine

    Its tree, how many calls were made, and which of them fail: [Some 0] fails
    at once, [Some (S n)] after [n] bytes or entries. *)

Record PosixWorld : Type := mkPosix { pw_fs : Fs; pw_wf : wf_fsb pw_fs = true; pw_calls : nat; pw_fault : nat -> option nat }.

(** The tree stays a tree: a call that would break it does not happen. *)
Definition commit (w : PosixWorld) (fs : Fs) : option PosixWorld :=
  match Bool.bool_dec (wf_fsb fs) true with left H => Some (mkPosix fs H w.(pw_calls) w.(pw_fault)) | right _ => None end.
Definition called (w : PosixWorld) : PosixWorld := mkPosix w.(pw_fs) w.(pw_wf) (S w.(pw_calls)) w.(pw_fault).

Definition IO (A : Type) : Type := PosixWorld -> result AppError A * PosixWorld.
Definition ioret {A : Type} (x : A) : IO A := fun w => (Ok x, w).
Definition iothrow {A : Type} (e : AppError) : IO A := fun w => (Err e, w).
Definition iobind {A B : Type} (m : IO A) (f : A -> IO B) : IO B := fun w => match m w with (Ok x, w) => f x w | (Err e, w) => (Err e, w) end.
Definition iotry {A : Type} (m : IO A) : IO (result AppError A) := fun w => let '(r, w) := m w in (Ok r, w).

(** A call that reads. *)
Definition sys_read {A : Type} (f : Fs -> option A) (e : AppError) : IO A := fun w =>
  match w.(pw_fault) w.(pw_calls) with
  | Some _ => (Err e, called w)
  | None => (match f w.(pw_fs) with Some x => Ok x | None => Err e end, called w)
  end.
(** One that changes the tree: [f None] does all of it, [f (Some n)] a part. *)
Definition sys_write (f : option nat -> Fs -> option Fs) (e : AppError) : IO unit := fun w =>
  match w.(pw_fault) w.(pw_calls) with
  | Some O => (Err e, called w)
  | Some (S n) => (Err e, match f (Some n) w.(pw_fs) ≫= commit (called w) with Some w => w | None => called w end)
  | None => match f None w.(pw_fs) ≫= commit (called w) with Some w => (Ok tt, w) | None => (Err e, called w) end
  end.

Declare Scope posix_scope.
Notation "x <- m ;; k" := (iobind m (fun x => k)) (at level 100, m at next level, right associativity) : posix_scope.
Notation "m ;;; k" := (iobind m (fun _ => k)) (at level 100, right associativity) : posix_scope.

(** ** Trees *)

Definition wf_fs (fs : Fs) : Prop :=
  fs !! [] = None /\ forall (ps : FsPath) (n : list Z) (node : PosixNode), fs !! (ps ++ [n]) = Some node -> entry_name n = true /\ is_dir_node (fs_node fs ps) = true.
Lemma wf_fsb_ok (fs : Fs) : wf_fsb fs = true -> wf_fs fs.
Proof.
  unfold wf_fsb. rewrite forallb_forall. intros Ht.
  assert (Hs : forall p node, fs !! p = Some node -> stands_in fs p = true) by (intros p node Hp; apply (Ht (p, node)), list_elem_of_In; by apply elem_of_map_to_list).
  split.
  - destruct (fs !! []) as [node|] eqn:E; [|done]. by apply Hs in E.
  - intros ps n node Hp. apply Hs in Hp. unfold stands_in in Hp. rewrite last_snoc, removelast_last in Hp. by apply andb_true_iff in Hp.
Qed.
Lemma fs_node_cons (fs : Fs) (p : FsPath) : p <> [] -> fs_node fs p = fs !! p.
Proof. by destruct p. Qed.
Lemma fs_node_snoc (fs : Fs) (p : FsPath) (n : list Z) : fs_node fs (p ++ [n]) = fs !! (p ++ [n]).
Proof. by destruct p. Qed.

Lemma dir_above (fs : Fs) (p : FsPath) (x : FsPath) : wf_fs fs -> is_Some (fs_node fs (p ++ x)) -> x <> [] -> is_dir_node (fs_node fs p) = true.
Proof.
  intros [_ Hw]. induction x as [|n x IH] using rev_ind; intros [node Hx] Hne; [done|]. rewrite app_assoc, fs_node_snoc in Hx. apply Hw in Hx as [_ Hd].
  destruct x as [|m x]; [by rewrite app_nil_r in Hd|]. apply IH; [|done]. destruct (fs_node fs (p ++ m :: x)); [by eexists|done].
Qed.
Lemma names_above (fs : Fs) (p : FsPath) : wf_fs fs -> is_Some (fs_node fs p) -> Forall (fun n => entry_name n = true) p.
Proof.
  intros Hw. induction p as [|n p IH] using rev_ind; intros Hp; [done|]. apply Forall_app. destruct Hw as [Hr Hw]. split.
  - apply IH. pose proof (dir_above fs p [n] (conj Hr Hw) Hp) as Hd. destruct (fs_node fs p); [by eexists|by discriminate Hd].
  - apply Forall_singleton. destruct Hp as [node Hp]. rewrite fs_node_snoc in Hp. by apply Hw in Hp as [? _].
Qed.
Lemma dir_is_some (fs : Fs) (p : FsPath) : is_dir_node (fs_node fs p) = true -> is_Some (fs_node fs p).
Proof. destruct (fs_node fs p); [by eexists|done]. Qed.

(** ** Where a path leads *)

Definition real_name (c : list Z) : bool := negb (is_empty c || str_eqb c DOT || str_eqb c DOTDOT).
Lemma entry_real (c : list Z) : entry_name c = true -> real_name c = true.
Proof. unfold entry_name, real_name. intros [[H _]%andb_true_iff _]%andb_true_iff. exact H. Qed.

(** What a step makes of the last component. *)
Definition step_last (missing follow : bool) (links : nat) (fs : Fs) (at_ : FsPath) (c : list Z) : option FsPath :=
  match fs !! (at_ ++ [c]) with
  | Some (PDir _) | Some (PFile _ _) => Some (at_ ++ [c])
  | Some (PLink target) => if follow then match links with S links => walk missing follow links fs (if absolute target then [] else at_) (split_on (Z.eqb 47) target) | O => None end else Some (at_ ++ [c])
  | None => if missing then Some (at_ ++ [c]) else None
  end.

Lemma walk_nil (m f : bool) (links : nat) (fs : Fs) (at_ : FsPath) : walk m f links fs at_ [] = Some at_.
Proof. by destruct links. Qed.
Lemma walk_cons (m f : bool) (links : nat) (fs : Fs) (at_ : FsPath) (c : list Z) (todo : FsPath) :
  walk m f links fs at_ (c :: todo) =
  if is_empty c || str_eqb c DOT then walk m f links fs at_ todo
  else if str_eqb c DOTDOT then walk m f links fs (removelast at_) todo
  else match todo with
       | [] => step_last m f links fs at_ c
       | _ => match fs !! (at_ ++ [c]) with
              | Some (PDir _) => walk m f links fs (at_ ++ [c]) todo
              | Some (PLink target) => match links with S links => walk m f links fs (if absolute target then [] else at_) (split_on (Z.eqb 47) target ++ todo) | O => None end
              | _ => None
              end
       end.
Proof.
  unfold step_last. destruct links; cbn [walk]; repeat (case_match; try done; subst; try congruence); simplify_eq; try done.
Qed.
#[global] Opaque walk.
Lemma walk_name (m f : bool) (links : nat) (fs : Fs) (at_ : FsPath) (c : list Z) (todo : FsPath) : real_name c = true ->
  walk m f links fs at_ (c :: todo) =
  match todo with
  | [] => step_last m f links fs at_ c
  | _ => match fs !! (at_ ++ [c]) with
         | Some (PDir _) => walk m f links fs (at_ ++ [c]) todo
         | Some (PLink target) => match links with S links => walk m f links fs (if absolute target then [] else at_) (split_on (Z.eqb 47) target ++ todo) | O => None end
         | _ => None
         end
  end.
Proof. unfold real_name. rewrite negb_true_iff. intros [H1 H2]%orb_false_iff. by rewrite walk_cons, H1, H2. Qed.

(** Down through directories nothing happens. *)
Lemma walk_dirs (m f : bool) (links : nat) (fs : Fs) (x : FsPath) : wf_fs fs -> forall (at_ : FsPath) (todo : FsPath), is_dir_node (fs_node fs (at_ ++ x)) = true ->
  walk m f links fs at_ (x ++ todo) = walk m f links fs (at_ ++ x) todo.
Proof.
  intros Hw. induction x as [|c x IH]; intros at_ todo Hd; [by rewrite app_nil_r|]. replace (at_ ++ c :: x) with ((at_ ++ [c]) ++ x) in * by (by rewrite <- app_assoc).
  assert (Hc : is_dir_node (fs_node fs (at_ ++ [c])) = true).
  { destruct x as [|n x]; [by rewrite app_nil_r in Hd|]. eapply dir_above; [done|by apply dir_is_some|done]. }
  rewrite <- IH by done. cbn [app]. pose proof (names_above fs _ Hw (dir_is_some _ _ Hc)) as [_ Hn]%Forall_app. rewrite Forall_singleton in Hn.
  rewrite walk_name by (by apply entry_real). rewrite fs_node_snoc in Hc. unfold step_last. destruct (fs !! (at_ ++ [c])) as [[| |]|]; try done.
  destruct (x ++ todo) eqn:E; [by rewrite walk_nil|done].
Qed.

(** Where a walk ends: in a directory, or at an entry of one. *)
Definition ended (missing follow : bool) (fs : Fs) (q : FsPath) : Prop :=
  is_dir_node (fs_node fs q) = true \/
  exists d n, q = d ++ [n] /\ is_dir_node (fs_node fs d) = true /\ real_name n = true /\
    match fs !! q with Some (PFile _ _) => True | Some (PDir _) => True | Some (PLink _) => follow = false | None => missing = true end.

Lemma removelast_dir (fs : Fs) (p : FsPath) : wf_fs fs -> is_dir_node (fs_node fs p) = true -> is_dir_node (fs_node fs (removelast p)) = true.
Proof. intros Hw Hd. destruct p as [|n p _] using rev_ind; [done|]. rewrite removelast_last. by apply (dir_above fs p [n] Hw (dir_is_some _ _ Hd)). Qed.

Lemma walk_ended (m f : bool) (links : nat) (fs : Fs) : wf_fs fs -> forall (at_ : FsPath) (todo q : FsPath), is_dir_node (fs_node fs at_) = true -> walk m f links fs at_ todo = Some q -> ended m f fs q.
Proof.
  intros Hw. induction links as [|links IHl]; intros at_ todo; revert at_.
  all: induction todo as [|c todo IHt]; intros at_ q Hd Hq; [rewrite walk_nil in Hq; injection Hq as <-; by left|].
  all: rewrite walk_cons in Hq; destruct (is_empty c || str_eqb c DOT) eqn:E1; [by apply (IHt at_)|].
  all: destruct (str_eqb c DOTDOT) eqn:E2; [apply (IHt (removelast at_)); [by apply removelast_dir|done]|].
  all: assert (Hc : real_name c = true) by (unfold real_name; by rewrite E1, E2).
  all: assert (Hgo : forall target : list Z, is_dir_node (fs_node fs (if absolute target then [] else at_)) = true) by (intros target; by destruct (absolute target)).
  all: destruct todo as [|c' todo].
  all: try (unfold step_last in Hq).
  all: destruct (fs !! (at_ ++ [c])) as [[contents mode|mode|target]|] eqn:En; try done.
  all: try (by apply (IHt (at_ ++ [c])); [rewrite fs_node_snoc, En|]).
  all: try (by eapply IHl; [apply Hgo|exact Hq]).
  all: try (destruct f; [try done; by eapply IHl; [apply Hgo|exact Hq]|]).
  all: try (destruct m; [|done]).
  all: injection Hq as <-; right; exists at_, c; rewrite En; done.
Qed.

Lemma walk_after (m f : bool) (links : nat) (fs : Fs) (d todo : FsPath) : wf_fs fs -> is_dir_node (fs_node fs d) = true -> walk m f links fs [] (d ++ todo) = walk m f links fs d todo.
Proof. intros Hw Hd. by apply (walk_dirs m f links fs d Hw []). Qed.

Lemma walk_self (links : nat) (fs : Fs) (p q : FsPath) : wf_fs fs -> walk false true links fs [] p = Some q ->
  (is_dir_node (fs_node fs q) = true \/ exists contents mode, fs !! q = Some (PFile contents mode)) /\ forall links', walk false true links' fs [] q = Some q.
Proof.
  intros Hw Hq. destruct (walk_ended _ _ _ _ Hw [] p q eq_refl Hq) as [Hd|(d & n & -> & Hd & Hn & Hk)].
  - split; [by left|]. intros links'. pose proof (walk_after false true links' fs q [] Hw Hd) as Ha. by rewrite app_nil_r, walk_nil in Ha.
  - destruct (fs !! (d ++ [n])) as [[contents mode|mode|]|] eqn:E; try done.
    + split; [right; by eexists _, _|]. intros links'. rewrite walk_after, walk_name by done. unfold step_last. by rewrite E.
    + split; [left; by rewrite fs_node_snoc, E|]. intros links'. rewrite walk_after, walk_name by done. unfold step_last. by rewrite E.
Qed.
Lemma realpath_self (fs : Fs) (p q : FsPath) : wf_fs fs -> realpath fs p = Some q ->
  (is_dir_node (fs_node fs q) = true \/ exists contents mode, fs !! q = Some (PFile contents mode)) /\ realpath fs q = Some q.
Proof. unfold realpath. intros Hw Hq. destruct (walk_self MAX_LINKS fs p q Hw Hq) as [HA HB]. split; [done|apply HB]. Qed.

(** An entry of a directory, which is no link, is where it says it is. *)
Lemma at_entry (m f : bool) (links : nat) (fs : Fs) (d : FsPath) (n : list Z) : wf_fs fs -> is_dir_node (fs_node fs d) = true -> real_name n = true ->
  match fs !! (d ++ [n]) with Some (PLink _) => f = false | None => m = true | _ => True end -> walk m f links fs [] (d ++ [n]) = Some (d ++ [n]).
Proof. intros Hw Hd Hn Hk. rewrite walk_after, walk_name by done. unfold step_last. destruct (fs !! (d ++ [n])) as [[| |]|]; by try rewrite Hk. Qed.

(** ** Names in a directory *)

Lemma child_of_spec (ps p : FsPath) (n : list Z) : child_of ps p = Some n <-> p = ps ++ [n].
Proof.
  unfold child_of. split.
  - destruct (decide (take (length ps) p = ps)) as [E|]; [|done]. destruct (drop (length ps) p) as [|m [|? ?]] eqn:Ed; try done. intros [= ->].
    by rewrite <- (take_drop (length ps) p), E, Ed.
  - intros ->. rewrite take_app_length, drop_app_length. by destruct (decide (ps = ps)).
Qed.
Lemma in_read_dir (fs : Fs) (q : FsPath) (n : list Z) (node : PosixNode) : (n, node) ∈ omap (fun entry => (fun n => (n, entry.2)) <$> child_of q entry.1) (map_to_list fs) <-> fs !! (q ++ [n]) = Some node.
Proof.
  rewrite list_elem_of_omap. split.
  - intros ([p v] & Hin%elem_of_map_to_list & He). cbn [fst snd] in He. apply fmap_Some in He as (n' & ->%child_of_spec & [= -> ->]). done.
  - intros Hn. exists (q ++ [n], node). split; [by apply elem_of_map_to_list|]. cbn [fst snd]. by rewrite (proj2 (child_of_spec q (q ++ [n]) n) eq_refl).
Qed.

(** ** What the calls touch *)

Lemma lookup_delete_all (fs : Fs) (ps : list FsPath) (q : FsPath) : delete_all fs ps !! q = if bool_decide (q ∈ ps) then None else fs !! q.
Proof.
  induction ps as [|p ps IH]; cbn [delete_all fold_right]; [done|]. destruct (decide (p = q)) as [->|Hne].
  - rewrite lookup_delete_eq, bool_decide_true; [done|by left].
  - rewrite lookup_delete_ne by done. fold (delete_all fs ps). rewrite IH. destruct (decide (q ∈ ps)); [rewrite !bool_decide_true; [done|by right|done]|].
    rewrite !bool_decide_false; [done| |done]. intros [->|]%elem_of_cons; done.
Qed.
Lemma in_below (fs : Fs) (p q : FsPath) : q ∈ below fs p <-> p `prefix_of` q /\ is_Some (fs !! q).
Proof.
  unfold below. rewrite (merge_sort_Permutation deeper), list_elem_of_In, filter_In, <- list_elem_of_In, list_elem_of_fmap, bool_decide_eq_true. split.
  - intros [([q' node] & -> & Hin%elem_of_map_to_list) Hp]. cbn in *. by rewrite Hin.
  - intros [Hp [node Hq]]. split; [|done]. exists (q, node). split; [done|]. by apply elem_of_map_to_list.
Qed.
Lemma lookup_removed (fs : Fs) (p q : FsPath) : delete_all fs (below fs p) !! q = if bool_decide (p `prefix_of` q) then None else fs !! q.
Proof.
  rewrite lookup_delete_all. destruct (decide (p `prefix_of` q)) as [Hp|Hp].
  - rewrite (bool_decide_true (p `prefix_of` q)) by done. destruct (fs !! q) eqn:E; [|by destruct (bool_decide _)]. rewrite bool_decide_true; [done|]. apply in_below. by rewrite E.
  - rewrite (bool_decide_false (p `prefix_of` q)) by done. rewrite bool_decide_false; [done|]. by intros [? _]%in_below.
Qed.
Lemma removed_outside (fs : Fs) (p q : FsPath) (n : nat) : ~ p `prefix_of` q -> delete_all fs (take n (below fs p)) !! q = fs !! q.
Proof. intros Hp. rewrite lookup_delete_all, bool_decide_false; [done|]. intros Hin%elem_of_take. destruct Hin as (i & Hi & _). apply list_elem_of_lookup_2, in_below in Hi as [? _]. done. Qed.
Lemma delete_all_subset (fs : Fs) (ps : list FsPath) : delete_all fs ps ⊆ fs.
Proof. apply map_subseteq_spec. intros q node. rewrite lookup_delete_all. by destruct (bool_decide _). Qed.

Definition move_key (from to q : FsPath) : FsPath := if bool_decide (from `prefix_of` q) then to ++ drop (length from) q else q.
Lemma drop_prefix (p x : FsPath) : drop (length p) (p ++ x) = x.
Proof. apply drop_app_length. Qed.
Lemma prefix_drop (p q : FsPath) : p `prefix_of` q -> q = p ++ drop (length p) q.
Proof. intros [x ->]. by rewrite drop_prefix. Qed.

Lemma lookup_moved (fs : Fs) (from to q : FsPath) : ~ from `prefix_of` to -> ~ to `prefix_of` from ->
  moved fs from to !! q = if bool_decide (to `prefix_of` q) then fs !! (from ++ drop (length to) q) else if bool_decide (from `prefix_of` q) then None else fs !! q.
Proof.
  intros Hft Htf. unfold moved. set (F := delete_all fs (below fs to)).
  assert (Hmap : map (fun entry => if bool_decide (from `prefix_of` entry.1) then (to ++ drop (length from) entry.1, entry.2) else entry) (map_to_list F)
    = map (fun entry => (move_key from to entry.1, entry.2)) (map_to_list F)).
  { apply map_ext. intros [k v]. unfold move_key. cbn. by destruct (bool_decide _). }
  rewrite Hmap. clear Hmap.
  assert (HF : forall k v, F !! k = Some v -> ~ to `prefix_of` k /\ fs !! k = Some v).
  { intros k v. unfold F. rewrite lookup_removed. destruct (decide (to `prefix_of` k)); [by rewrite bool_decide_true|by rewrite bool_decide_false]. }
  assert (Hinj : forall k v k' v', F !! k = Some v -> F !! k' = Some v' -> move_key from to k = move_key from to k' -> k = k').
  { intros k v k' v' [HA _]%HF [HB _]%HF. unfold move_key. destruct (decide (from `prefix_of` k)) as [[x ->]|Hk], (decide (from `prefix_of` k')) as [[x' ->]|Hk'].
    all: rewrite ?(bool_decide_true (_ `prefix_of` (from ++ _))) by (by apply prefix_app_r); rewrite ?bool_decide_false by done; rewrite ?drop_prefix; intros E.
    - by apply app_inv_head in E as ->.
    - exfalso. apply HB. subst k'. by apply prefix_app_r.
    - exfalso. apply HA. subst k. by apply prefix_app_r.
    - done. }
  assert (Hnd : NoDup (map (fun entry : FsPath * PosixNode => (move_key from to entry.1, entry.2)) (map_to_list F)).*1).
  { rewrite <- list_fmap_compose. apply NoDup_fmap_2_strong; [|apply NoDup_map_to_list]. intros [k v] [k' v'] Hk%elem_of_map_to_list Hk'%elem_of_map_to_list. cbn. intros E.
    pose proof (Hinj _ _ _ _ Hk Hk' E) as ->. congruence. }
  assert (Hlook : forall v, list_to_map (M := Fs) (map (fun entry : FsPath * PosixNode => (move_key from to entry.1, entry.2)) (map_to_list F)) !! q = Some v <-> exists k, F !! k = Some v /\ q = move_key from to k).
  { intros v. rewrite <- elem_of_list_to_map by done. rewrite list_elem_of_fmap. split.
    - intros ([k v'] & [= -> ->] & Hk%elem_of_map_to_list). by exists k.
    - intros (k & Hk & ->). exists (k, v). split; [done|]. by apply elem_of_map_to_list. }
  apply option_eq. intros v. rewrite Hlook. clear Hlook Hnd. unfold move_key. split.
  - intros (k & Hk & ->). apply HF in Hk as [Hto Hk]. destruct (decide (from `prefix_of` k)) as [[x ->]|Hf].
    + rewrite (bool_decide_true (from `prefix_of` (from ++ x))) by (by apply prefix_app_r). rewrite drop_prefix, bool_decide_true by (by apply prefix_app_r). by rewrite drop_prefix.
    + rewrite (bool_decide_false (from `prefix_of` k)) in * by done. by rewrite (bool_decide_false (to `prefix_of` k)), (bool_decide_false (from `prefix_of` k)).
  - destruct (decide (to `prefix_of` q)) as [[x ->]|Hto].
    + rewrite bool_decide_true by (by apply prefix_app_r). rewrite drop_prefix. intros Hv. exists (from ++ x). rewrite bool_decide_true by (by apply prefix_app_r). rewrite drop_prefix. split; [|done].
      unfold F. rewrite lookup_removed, bool_decide_false; [done|]. intros Hp. destruct (prefix_weak_total to from (from ++ x)); [done|by apply prefix_app_r|done|done].
    + rewrite bool_decide_false by done. destruct (decide (from `prefix_of` q)); [by rewrite bool_decide_true|]. rewrite bool_decide_false by done. intros Hv.
      exists q. rewrite bool_decide_false by done. split; [|done]. unfold F. by rewrite lookup_removed, bool_decide_false.
Qed.

(** ** What a call leaves *)

Lemma commit_spec (w w' : PosixWorld) (fs : Fs) : commit w fs = Some w' -> pw_fs w' = fs.
Proof. unfold commit. destruct (Bool.bool_dec _ _); [|done]. by intros [= <-]. Qed.
Lemma sys_read_spec {A : Type} (f : Fs -> option A) (e : AppError) (w : PosixWorld) :
  pw_fs (sys_read f e w).2 = pw_fs w /\ forall x, (sys_read f e w).1 = Ok x -> f (pw_fs w) = Some x.
Proof. unfold sys_read. destruct (pw_fault w (pw_calls w)); cbn; [done|]. split; [done|]. intros x. destruct (f (pw_fs w)); [by intros [= ->]|done]. Qed.
Lemma sys_write_spec (f : option nat -> Fs -> option Fs) (e : AppError) (w : PosixWorld) :
  (is_ok (sys_write f e w).1 = false /\ pw_fs (sys_write f e w).2 = pw_fs w) \/
  (exists part, f part (pw_fs w) = Some (pw_fs (sys_write f e w).2) /\ (is_ok (sys_write f e w).1 = true -> part = None)).
Proof.
  unfold sys_write. destruct (pw_fault w (pw_calls w)) as [[|n]|]; [by left| |].
  - destruct (f (Some n) (pw_fs w)) as [fs|] eqn:E; cbn [mbind option_bind]; [|by left]. destruct (commit (called w) fs) as [w'|] eqn:Ec; [|by left].
    right. exists (Some n). apply commit_spec in Ec. cbn. by rewrite E, Ec.
  - destruct (f None (pw_fs w)) as [fs|] eqn:E; cbn [mbind option_bind]; [|by left]. destruct (commit (called w) fs) as [w'|] eqn:Ec; [|by left].
    right. exists None. apply commit_spec in Ec. cbn. by rewrite E, Ec.
Qed.
