(* ===== verification/MemoryFiles.v ===== *)
(** * MemoryFiles: a provider that keeps the files in memory

    A concrete [FileProvider], [ZipCrate] and [BackupHost] that satisfy
    [FileTree], [ZipLaws] and [QuietHost]: the contracts the theorems on backups
    are proved against can be met, and on this one they can be run. *)

From S2P Require Import Prelude Text Shell Sandbox Firewall Docker Desktop Archive Backups FileTree ArchiveTree Posix.

#[local] Open Scope Z_scope.

(** ** Trees that can be checked *)

(** Every entry stands in a directory. *)
Definition stands (t : Tree) (p : Path) : bool :=
  match p with [] => false | _ => match node_at t (removelast p) with Some FDir => true | _ => false end end.
Definition wf_treeb (t : Tree) : bool := forallb (fun entry => stands t entry.1) (map_to_list t).
Lemma wf_treeb_ok (t : Tree) : wf_treeb t = true -> wf_tree t.
Proof.
  unfold wf_treeb. rewrite forallb_forall. intros Ht.
  assert (Hs : forall p node, t !! p = Some node -> stands t p = true) by (intros p node Hp; apply (Ht (p, node)), list_elem_of_In; by apply elem_of_map_to_list).
  split.
  - destruct (t !! []) as [node|] eqn:E; [|done]. by apply Hs in E.
  - intros ps n node Hp. apply Hs in Hp. unfold stands in Hp. rewrite removelast_last in Hp. destruct (ps ++ [n]); [done|]. repeat case_match; congruence.
Qed.
Lemma wf_treeb_empty : wf_treeb ∅ = true.
Proof. reflexivity. Qed.

Definition plainb (s : list Z) : bool := entry_name s && negb (contains_char 92 s).
Definition sound_treeb (t : Tree) : bool := forallb (fun entry => negb (is_link_node entry.2) && forallb plainb entry.1) (map_to_list t).
Lemma sound_treeb_ok (t : Tree) : sound_treeb t = true -> link_free t /\ plain_tree t.
Proof.
  unfold sound_treeb. rewrite forallb_forall. intros Ht.
  assert (Hs : forall p node, t !! p = Some node -> is_link_node node = false /\ Forall plain p).
  { intros p node Hp. apply elem_of_map_to_list, list_elem_of_In, Ht, andb_true_iff in Hp as [HA HB]. cbn [fst snd] in *. split; [by apply negb_true_iff|].
    rewrite forallb_forall in HB. apply Forall_forall. intros s Hin. apply list_elem_of_In, HB, andb_true_iff in Hin as [HC HD]. split; [done|by apply negb_true_iff]. }
  split; [intros p Hp; by apply Hs in Hp as [? _]|intros p node Hp; by apply Hs in Hp as [_ ?]].
Qed.

(** ** The provider *)

Definition disk (w : Tree) : Tree := if wf_treeb w then w else ∅.
Lemma disk_wf (w : Tree) : wf_tree (disk w).
Proof. apply wf_treeb_ok. unfold disk. by destruct (wf_treeb w) eqn:E. Qed.
Lemma disk_id (t : Tree) : wf_treeb t = true -> disk t = t.
Proof. unfold disk. by intros ->. Qed.
Lemma disk_disk (w : Tree) : disk (disk w) = disk w.
Proof. apply disk_id. unfold disk. by destruct (wf_treeb w) eqn:E. Qed.

Definition located {A : Type} (path : list Z) (w : Tree) (f : Path -> option A) : result AppError A * Tree :=
  match sanitize_loop [] (split_on is_separator path) with
  | Ok ps => match f ps with Some x => (Ok x, disk w) | None => (Err NotFound, disk w) end
  | Err _ => (Err NotFound, disk w)
  end.
(** A change is made when what it leads to is a tree. *)
Definition changed (path : list Z) (w : Tree) (f : Path -> option Tree) : result AppError unit * Tree :=
  match sanitize_loop [] (split_on is_separator path) with
  | Ok ps => match f ps with Some t => if wf_treeb t then (Ok tt, t) else (Err NotFound, disk w) | None => (Err NotFound, disk w) end
  | Err _ => (Err NotFound, disk w)
  end.

Definition entry_of (name : list Z) (node : FileNode) : RemoteFileEntry :=
  mkEntry name (is_directory_node node) (is_link_node node) (match node with FFile contents => Z.of_nat (length contents) | _ => 0 end).
Definition children (t : Tree) (ps : Path) : list RemoteFileEntry := omap (fun entry => (fun n => entry_of n entry.2) <$> child_of ps entry.1) (map_to_list t).
Lemma in_children (t : Tree) (ps : Path) (e : RemoteFileEntry) : e ∈ children t ps <-> exists n node, t !! (ps ++ [n]) = Some node /\ e = entry_of n node.
Proof.
  unfold children. rewrite list_elem_of_omap. split.
  - intros ([p node] & Hin%elem_of_map_to_list & He). cbn [fst snd] in He. apply fmap_Some in He as (n & ->%child_of_spec & ->). by exists n, node.
  - intros (n & node & Ht & ->). exists (ps ++ [n], node). split; [by apply elem_of_map_to_list|]. cbn [fst snd]. by rewrite (proj2 (child_of_spec ps (ps ++ [n]) n) eq_refl).
Qed.
Lemma children_listing (t : Tree) (ps : Path) : node_at t ps = Some FDir -> listing t ps (children t ps).
Proof.
  intros Hd. split; [done| |].
  - intros n. rewrite list_elem_of_fmap. setoid_rewrite in_children. split.
    + intros (e & -> & m & node & Ht & ->). cbn. by rewrite Ht.
    + intros [node Ht]. exists (entry_of n node). split; [done|]. by exists n, node.
  - intros e node (n & node' & Ht & ->)%in_children Hn. cbn in Hn. rewrite Ht in Hn. by injection Hn as <-.
Qed.

Definition list_at (t : Tree) (ps : Path) : option (list RemoteFileEntry) := match node_at t ps with Some FDir => Some (children t ps) | _ => None end.
Definition stat_at (t : Tree) (ps : Path) : option RemoteFileEntry := entry_of (default [] (last ps)) <$> node_at t ps.
Definition bytes_at (t : Tree) (ps : Path) : option (list Z) := match t !! ps with Some (FFile contents) => Some contents | _ => None end.
Definition put_at (t : Tree) (bytes : list Z) (ps : Path) : option Tree :=
  match ps, t !! ps with [], _ => None | _, Some FDir => None | _, _ => Some (<[ps := FFile bytes]> t) end.
Definition mkdir_at (t : Tree) (ps : Path) : option Tree :=
  match ps, t !! ps with [], _ => None | _, Some _ => None | _, None => Some (<[ps := FDir]> t) end.
Definition delete_at (t : Tree) (ps : Path) : option Tree := Some (filter (fun entry => ~ ps `prefix_of` entry.1) t).

#[local] Instance memory_provider : FileProvider Tree := {|
  fp_list_directory _ path w := located path w (list_at (disk w));
  fp_metadata _ path w := located path w (stat_at (disk w));
  fp_read_file _ path w := located path w (bytes_at (disk w));
  fp_write_file _ path bytes w := changed path w (put_at (disk w) bytes);
  fp_create_directory _ path w := changed path w (mkdir_at (disk w));
  fp_delete _ path w := changed path w (delete_at (disk w));
  fp_download_file _ path w := located path w (bytes_at (disk w));
  fp_upload_file _ bytes path w := changed path w (put_at (disk w) bytes);
  fp_scratch w := (Ok tt, w);
|}.

Lemma located_spec {A : Type} (path : list Z) (ps : Path) (w : Tree) (f : Path -> option A) (Q : A -> Prop) : at_path path ps -> (forall x, f ps = Some x -> Q x) ->
  disk (located path w f).2 = disk w /\ forall x, (located path w f).1 = Ok x -> Q x.
Proof.
  unfold at_path, located. intros -> HQ. destruct (f ps) as [y|]; cbn; rewrite disk_disk; (split; [done|]); intros x E; [|done]. injection E as <-. by apply HQ.
Qed.
Lemma changed_spec (path : list Z) (ps : Path) (w : Tree) (f : Path -> option Tree) : at_path path ps ->
  (is_ok (changed path w f).1 = false /\ disk (changed path w f).2 = disk w) \/ (exists t, f ps = Some t /\ (changed path w f).1 = Ok tt /\ disk (changed path w f).2 = t).
Proof.
  unfold at_path, changed. intros ->. destruct (f ps) as [t|]; [|left; cbn [fst snd]; by rewrite disk_disk]. destruct (wf_treeb t) eqn:E; [|left; cbn [fst snd]; by rewrite disk_disk].
  right. exists t. cbn [fst snd]. by rewrite disk_id.
Qed.
Lemma put_spec (path : list Z) (ps : Path) (bytes : list Z) (w : Tree) : at_path path ps ->
  match (changed path w (put_at (disk w) bytes)).1 with
  | Ok _ => ps <> [] /\ disk w !! ps <> Some FDir /\ disk (changed path w (put_at (disk w) bytes)).2 = <[ps := FFile bytes]> (disk w)
  | Err _ => disk (changed path w (put_at (disk w) bytes)).2 = disk w \/ exists part, disk (changed path w (put_at (disk w) bytes)).2 = <[ps := FFile part]> (disk w)
  end.
Proof.
  intros Hp. destruct (changed_spec path ps w (put_at (disk w) bytes) Hp) as [[Hr Hd]|(t & Ht & -> & Hd)].
  - destruct (changed _ _ _).1; [done|]. by left.
  - rewrite Hd. unfold put_at in Ht. destruct ps as [|n ps]; [done|]. split; [done|]. destruct (disk w !! (n :: ps)) as [[| |]|]; try done; injection Ht as <-; done.
Qed.

#[local] Instance memory_tree : FileTree Tree.
Proof.
  exists (fun _ w => disk w). refine {| tree_wf _ w := disk_wf w |}; cbn [fp_list_directory fp_metadata fp_read_file fp_write_file fp_create_directory fp_delete fp_download_file fp_upload_file fp_scratch memory_provider].
  - done.
  - intros a path ps w Hp _. apply (located_spec path ps); [done|]. intros es. unfold list_at. intros E. repeat case_match; try done. injection E as <-. by apply children_listing.
  - intros a path ps w Hp _. apply (located_spec path ps); [done|]. intros e. unfold stat_at. intros (node & Hn & ->)%fmap_Some. by exists node.
  - intros a path ps w Hp _. apply (located_spec path ps); [done|]. intros bytes. unfold bytes_at. intros E. repeat case_match; congruence.
  - intros a path ps w Hp _. apply (located_spec path ps); [done|]. intros bytes. unfold bytes_at. intros E. repeat case_match; congruence.
  - intros a path ps bytes w Hp _. by apply put_spec.
  - intros a path ps bytes w Hp _. by apply put_spec.
  - intros a path ps w Hp _. pose proof (changed_spec path ps w (mkdir_at (disk w)) Hp) as Hc. destruct (changed _ _ _) as [r w']; cbn [fst snd] in Hc.
    destruct Hc as [[Hr Hd]|(t & Ht & -> & Hd)]; [by left|right]. unfold mkdir_at in Ht. destruct ps as [|n ps]; [done|]. destruct (disk w !! (n :: ps)); [done|]. split_and!; [done..|]. congruence.
  - intros a path ps w Hp _. pose proof (changed_spec path ps w (delete_at (disk w)) Hp) as Hc. destruct (changed _ _ _) as [r w']; cbn [fst snd] in Hc.
    destruct Hc as [[Hr Hd]|(t & Ht & -> & Hd)]; [rewrite Hd; split_and!; [done..|]; congruence|]. injection Ht as <-. rewrite Hd. split_and!.
    + apply map_filter_subseteq.
    + intros q Hq. destruct (disk w !! q) as [node|] eqn:E; [by apply map_lookup_filter_Some_2|]. apply map_lookup_filter_None. by left.
    + intros _ q Hq. apply map_lookup_filter_None. right. intros node _ Hn. by apply Hn.
Defined.

(** ** The zip crate *)

Definition item_code (item : ZipItem) : list Z + list Z * list Z := match item with ZipDir name => inl name | ZipFile name contents => inr (name, contents) end.
Definition code_item (code : list Z + list Z * list Z) : ZipItem := match code with inl name => ZipDir name | inr (name, contents) => ZipFile name contents end.
#[local] Instance memory_zip : ZipCrate := {|
  zip_add _ _ := Ok tt;
  zip_finish items := Ok [Zpos (encode (map item_code items))];
  zip_open bytes := match bytes with
                    | [Zpos code] => (fun codes => map (fun code => Some (read_back (code_item code))) codes) <$> decode code
                    | _ => None
                    end;
  enclosed_name name := Some name;
|}.
#[local] Instance memory_zip_laws : ZipLaws.
Proof.
  split; cbn [zip_finish zip_open enclosed_name memory_zip].
  - intros items bytes [= <-] _. rewrite decode_encode. cbn [fmap option_fmap option_map]. rewrite map_map. f_equal. apply map_ext. by intros [].
  - done.
  - intros ps _ _. exists [47]. auto.
Defined.

(** ** The rest *)

#[local] Instance memory_desk : Desk Tree := {|
  store_fault w := (None, w); load_environment_secret _ _ w := (Ok None, w); get_or_connect _ w := (Ok tt, w);
|}.
#[local] Instance memory_host : BackupHost Tree := {|
  bh_resolve_provider _ w := (Ok tt, w); bh_refresh_status _ w := (Ok Stopped, w); bh_now w := (0, w); bh_format _ := lit "20260101-000000";
  bh_store_secret _ w := (Ok tt, w); bh_load_secret w := (Ok None, w); bh_save_destination _ w := (Ok tt, w);
  s3_put _ _ _ w := (Ok tt, w); s3_get _ _ w := (Err NotFound, w); s3_delete _ _ w := (Ok tt, w);
|}.
