(* ===== verification/Restore.v ===== *)
(** * Restore: a backup puts the directory back

    [create_backup], [restore_backup] and [remove_entries_not_in] of
    [services/application_backup_service.rs] on a [FileTree]: what a restore
    leaves is what the backup found, name for name and byte for byte, with
    everything that came later gone, and VibeSSH's own entries as they were. *)

From S2P Require Import Prelude Text Shell Sandbox Firewall Docker Desktop Archive Backups FileTree ArchiveTree MemoryFiles.

#[local] Open Scope Z_scope.
#[local] Open Scope desk_scope.

(** ** Removing what is not in the archive *)

(** An entry of VibeSSH's own, or below one. *)
Definition own (p : Path) : bool := match p with n :: _ => is_own_entry n | [] => false end.
Lemma own_below q p : q <> [] -> q `prefix_of` p -> own p = own q.
Proof. intros Hq [x ->]. by destruct q. Qed.

Section removing.
Context {World : Type} `{FileTree World} (a : N).
Context (done : list Path) (keep : gset (list Z)).
Hypothesis done_plain : forall p, p ∈ done -> p <> [] /\ Forall plain p.
Hypothesis done_closed : forall p q, p ∈ done -> q <> [] -> q `prefix_of` p -> q ∈ done.
Hypothesis keep_done : forall k, k ∈ keep <-> exists p, p ∈ done /\ k = text p.

(** What removing below [ps] leaves alone. *)
Definition kept (ps : Path) (t t' : Tree) : Prop := t' ⊆ t /\ forall p, p ∈ done \/ own p = true \/ ~ ps `prefix_of` p -> t' !! p = t !! p.
(** Nothing else is left, [n] levels down. *)
Definition clean (n : nat) (ps : Path) (t : Tree) : Prop :=
  forall x, x <> [] -> (length x <= n)%nat -> ps ++ x ∉ done -> own (ps ++ x) = false -> t !! (ps ++ x) = None.
Definition path_of (ps : Path) : list Z := match ps with [] => DOT | _ => text ps end.

Lemma kept_same ps t : kept ps t t.
Proof. done. Qed.
Lemma kept_trans ps n t1 t2 t3 : kept ps t1 t2 -> kept (ps ++ [n]) t2 t3 -> kept ps t1 t3.
Proof.
  intros [HA HB] [HC HD]. split; [by etrans|]. intros p Hp. rewrite HD; [by apply HB|]. destruct Hp as [Hp|[Hp|Hp]]; auto.
  right; right. intros [x ->]. apply Hp. exists (n :: x). by rewrite <- app_assoc.
Qed.
Lemma in_keep q : Forall plain q -> text q ∈ keep <-> q ∈ done.
Proof.
  intros Hq. rewrite keep_done. split; [|by exists q]. intros (p & Hp & Et). apply text_inj in Et as ->; [done|done|by apply done_plain].
Qed.

(** One entry of the directory. *)
Definition remove_one (levels : nat) (relative : list Z) (entry : RemoteFileEntry) (removed : Z) : D BackupRows World Z :=
  if entry.(re_is_symlink) || (is_empty relative && is_own_entry entry.(re_name)) then dret removed
  else
    let entry_relative := if is_empty relative then entry.(re_name) else relative ++ [47] ++ entry.(re_name) in
    if negb (bool_decide (entry_relative ∈ keep)) then provided (fp_delete a entry_relative) ;;; dret (removed + 1)
    else if entry.(re_is_dir) then remove_entries_not_in levels a entry_relative entry_relative keep removed
    else dret removed.

Definition removes (levels : nat) : Prop := forall (ps : Path) (t : Tree) (removed : Z),
  (ps = [] \/ ps ∈ done /\ own ps = false) -> link_free t -> plain_tree t ->
  does a (eq t) (remove_entries_not_in levels a (path_of ps) (text ps) keep removed)
    (fun r t' => kept ps t t' /\ (is_ok r = true -> clean levels ps t')).

Lemma does_remove_one (levels : nat) (ps : Path) (t t1 : Tree) (es : list RemoteFileEntry) (e : RemoteFileEntry) (removed : Z) : removes levels -> (ps = [] \/ ps ∈ done /\ own ps = false) ->
  link_free t -> plain_tree t -> wf_tree t -> listing t ps es -> e ∈ es -> kept ps t t1 ->
  does a (eq t1) (remove_one levels (text ps) e removed)
    (fun r t2 => kept ps t t2 /\ t2 ⊆ t1 /\ (is_ok r = true -> forall x, (length x <= levels)%nat -> (ps ++ [re_name e]) ++ x ∉ done -> own ((ps ++ [re_name e]) ++ x) = false -> t2 !! ((ps ++ [re_name e]) ++ x) = None)).
Proof.
  intros IH Hps Hlf Hpl Hwf Hl He Hk. set (n := re_name e). set (q := ps ++ [n]).
  assert (Hq : is_Some (t !! q)) by (apply (listing_names _ _ _ Hl), list_elem_of_fmap; by exists e). destruct Hq as [node Hq].
  destruct (listing_entry _ _ _ Hl e node He Hq) as [Hsym Hdir]. assert (Hnode : node <> FLink) by (intros ->; by apply (Hlf q)). specialize (Hdir Hnode).
  assert (Hqp : Forall plain q) by (by eapply Hpl). assert (Hqn : q <> []) by (subst q; by destruct ps).
  assert (Hpp : Forall plain ps) by (by apply Forall_app in Hqp as [? _]).
  assert (Hrel : (if is_empty (text ps) then n else text ps ++ [47] ++ n) = text q).
  { subst q. destruct ps as [|p ps]; [done|]. rewrite is_empty_text by done. symmetry; by apply text_snoc. }
  unfold remove_one. fold n q. rewrite Hsym. replace (is_link_node node) with false by (by destruct node). cbn [orb]. fold q.
  destruct (is_empty (text ps) && is_own_entry n) eqn:Eo.
  { apply does_ret. intros t2 <-. split_and!; [done..|]. intros _ x _ _ Hown. exfalso. apply andb_true_iff in Eo as [Ee Eo].
    rewrite (own_below q) in Hown by (done || by exists x). subst q. destruct ps as [|p ps]; [|by rewrite is_empty_text in Ee].
    cbn in Hown. congruence. }
  assert (Hoq : own q = false).
  { subst q. destruct ps as [|p ps]; [by destruct (is_own_entry n) eqn:E|]. by destruct Hps as [|[_ Hps]]. }
  cbn zeta. rewrite Hrel. destruct (bool_decide (text q ∈ keep)) eqn:Ek; cbn [negb]; cycle 1.
  - apply bool_decide_eq_false in Ek. rewrite in_keep in Ek by done.
    eapply (does_bind _ _ _ _ (fun _ t2 => kept ps t t2 /\ t2 ⊆ t1 /\ forall x, t2 !! (q ++ x) = None)).
    + apply does_provided. intros w Hw. pose proof (ft_delete a (text q) q w (at_path_text q Hqp Hqn)) as Hm. rewrite <- Hw in Hm.
      specialize (Hm (link_free_subset _ _ (proj1 Hk) Hlf)). destruct (fp_delete a (text q) w) as [r w']; cbn [fst snd].
      destruct Hm as (HA & HB & HC). assert (Hk2 : kept ps t (files a w')).
      { destruct Hk as [HD HE]. split; [by etrans|]. intros p Hp. rewrite <- (HE p Hp). apply HB. intros Hpre. destruct Hp as [Hp|[Hp|Hp]].
        - by apply Ek, (done_closed p q).
        - rewrite (own_below q p) in Hp by done. congruence.
        - apply Hp. destruct Hpre as [x ->]. exists (n :: x). subst q. by rewrite <- app_assoc. }
      destruct r as [u|err]; [|by split_and!]. split_and!; [done..|]. intros x. apply HC; [done|by exists x].
    + intros _. apply does_ret. intros t2 (HA & HB & HC). split_and!; [done..|]. intros _ x _ _ _. apply HC.
  - apply bool_decide_eq_true in Ek. rewrite in_keep in Ek by done. destruct (re_is_dir e) eqn:Ed.
    + pose proof (IH q t1 removed) as Hrec. replace (path_of q) with (text q) in Hrec by (by destruct q). eapply does_conseq; [apply Hrec| |].
      * right. done.
      * by eapply link_free_subset; [apply Hk|].
      * by eapply plain_subset; [apply Hk|].
      * by intros t2 <-.
      * intros r t2 _ [HA HB]. split_and!; [by eapply kept_trans|apply HA|]. intros Hr x Hx Hd Ho.
        destruct x as [|m x]; [by rewrite app_nil_r in Hd|]. apply HB; try done.
    + apply does_ret. intros t2 <-. split_and!; [done..|]. intros _ x _ Hd _. destruct x as [|m x]; [by rewrite app_nil_r in Hd|].
      eapply lookup_none_subset; [apply Hk|]. destruct (t !! (q ++ m :: x)) eqn:Et; [|done].
      destruct (wf_prefix t q (q ++ m :: x) f Hwf Hqn) as [_ Hx]; [by apply prefix_app_r|done|]. rewrite Hx in Hq.
      * injection Hq as <-. done.
      * intros E. apply (f_equal length) in E. rewrite length_app in E; cbn in E; lia.
Qed.

Lemma does_remove_each (levels : nat) (ps : Path) (t : Tree) (es : list RemoteFileEntry) : removes levels -> (ps = [] \/ ps ∈ done /\ own ps = false) ->
  link_free t -> plain_tree t -> wf_tree t -> listing t ps es ->
  forall (l : list RemoteFileEntry) (t1 : Tree) (removed : Z), (forall e, e ∈ l -> e ∈ es) -> kept ps t t1 ->
  does a (eq t1) (each (remove_one levels (text ps)) l removed)
    (fun r t2 => kept ps t t2 /\ t2 ⊆ t1 /\ (is_ok r = true -> forall e x, e ∈ l -> (length x <= levels)%nat -> (ps ++ [re_name e]) ++ x ∉ done -> own ((ps ++ [re_name e]) ++ x) = false -> t2 !! ((ps ++ [re_name e]) ++ x) = None)).
Proof.
  intros IH Hps Hlf Hpl Hwf Hl l. induction l as [|e l IHl]; intros t1 removed Hin Hk; cbn [each].
  { apply does_ret. intros t2 <-. split_and!; [done..|]. intros _ e x He. by apply not_elem_of_nil in He. }
  eapply (does_bind _ _ _ _ (fun _ t2 => kept ps t t2 /\ t2 ⊆ t1 /\ forall x, (length x <= levels)%nat -> (ps ++ [re_name e]) ++ x ∉ done -> own ((ps ++ [re_name e]) ++ x) = false -> t2 !! ((ps ++ [re_name e]) ++ x) = None)).
  - eapply does_conseq; [eapply (does_remove_one levels ps t t1 es e removed); try done; apply Hin; by left|done|].
    intros [x|err] t2 _ (HA & HB & HC); split_and!; try done. by apply HC.
  - intros removed'. apply does_pre. intros t2 _ (HA & HB & HC). eapply does_conseq; [apply (IHl t2 removed'); [intros e' He'; apply Hin; by right|done]|done|].
    intros r t3 _ (HD & HE & HF). split_and!; [done|by etrans|]. intros Hr e' x [-> |He']%elem_of_cons Hx Hd Ho; [|by apply HF].
    eapply lookup_none_subset; [exact HE|by apply HC].
Qed.

Lemma remove_spec levels : removes levels.
Proof.
  induction levels as [|levels IH]; intros ps t removed Hps Hlf Hpl; cbn [remove_entries_not_in].
  { apply does_ret. intros t' <-. split; [apply kept_same|]. intros _ x Hx Hlen. destruct x; [done|cbn in Hlen; lia]. }
  apply does_pre. intros t' Hwf <-. assert (Hat : at_path (path_of ps) ps).
  { destruct Hps as [-> |[Hd _]]; [apply at_path_dot|]. destruct (done_plain _ Hd) as [Hne Hp]. destruct ps; [done|]. by apply at_path_text. }
  apply (does_bind _ _ _ _ (fun es t' => t' = t /\ listing t ps es)).
  { eapply does_conseq; [by apply (reads_list a t _ ps)|done|]. intros [es|err] t' _ [-> Hr]; [split; [done|by apply Hr]|]. split; [apply kept_same|done]. }
  intros es. apply does_pre. intros t' _ [-> Hl].
  eapply does_conseq; [apply (does_remove_each levels ps t es IH Hps Hlf Hpl Hwf Hl es t removed); [done|apply kept_same]|done|].
  intros r t' _ (HA & _ & HC). split; [done|]. intros Hr x Hx Hlen Hd Ho. destruct x as [|n x]; [done|]. cbn [length] in Hlen.
  replace (ps ++ n :: x) with ((ps ++ [n]) ++ x) in * by (by rewrite <- app_assoc).
  destruct (decide (n ∈ map re_name es)) as [(e & -> & He)%list_elem_of_fmap|Hn]; [apply HC; try done; lia|].
  eapply lookup_none_subset; [apply HA|]. destruct (t !! ((ps ++ [n]) ++ x)) eqn:Et; [|done]. exfalso. apply Hn, (listing_names _ _ _ Hl).
  eapply (wf_prefix t (ps ++ [n]) ((ps ++ [n]) ++ x)); [done|by destruct ps|by apply prefix_app_r|done].
Qed.
End removing.

(** ** What leaves the files alone *)

(** The rest of what the service calls does not change the files of an application. *)
Class QuietHost (World : Type) `{FileTree World} `{Desk World} `{BackupHost World} : Prop := {
  qh_store : forall a w, files a (store_fault w).2 = files a w;
  qh_resolve : forall a b w, files a (bh_resolve_provider b w).2 = files a w;
  qh_status : forall a b w, files a (bh_refresh_status b w).2 = files a w;
  qh_now : forall a w, files a (bh_now w).2 = files a w;
  qh_secret : forall a w, files a (bh_load_secret w).2 = files a w;
  qh_put : forall a c k b w, files a (s3_put c k b w).2 = files a w;
  qh_get : forall a c k w, files a (s3_get c k w).2 = files a w;
  qh_format : forall t, contains_char 47 (bh_format t) = false /\ contains_char 0 (bh_format t) = false /\ contains_char 92 (bh_format t) = false;
}.

Definition world_of {St World} (s : DeskState St World) : World := s.(ds_fw).(fw_node).

Section backing_up.
Context {World : Type} `{QuietHost World} `{ZipCrate} (a : N).
Notation B := (D BackupRows World).

Lemma contains_app c (s1 s2 : list Z) : contains_char c (s1 ++ s2) = contains_char c s1 || contains_char c s2.
Proof. apply existsb_app. Qed.
Lemma file_name_plain kind t : plain (backup_file_name kind t).
Proof.
  destruct (qh_format t) as (HA & HB & HC). unfold backup_file_name. split.
  - unfold entry_name. rewrite !contains_app, HA, HB. destruct kind; reflexivity.
  - rewrite !contains_app, HC. by destruct kind.
Qed.
Definition place (file_name : list Z) : Path := [BACKUPS_DIR; file_name].
Lemma at_place kind t : at_path (backup_path (backup_file_name kind t)) (place (backup_file_name kind t)).
Proof. apply (at_path_text (place _)); [|done]. constructor; [done|]. apply Forall_singleton, file_name_plain. Qed.

Lemma reads_now (t : Tree) : reads a t utc_now (fun _ => True).
Proof. apply reads_provided. intros w <-. pose proof (qh_now a w) as Hn. by destruct (bh_now w). Qed.
Lemma reads_client (t : Tree) : reads a t s3_client (fun _ => True).
Proof.
  unfold s3_client. apply (reads_seq _ _ _ _ (fun _ => True)); [intros s Hs; by split|]. intros config _. destruct (negb _); [by apply reads_ret|].
  apply (reads_seq _ _ _ _ (fun _ => True)); [|intros; by apply reads_ret]. apply does_try, does_provided. intros w ->. split; [apply qh_secret|done].
Qed.
Lemma reads_resolve (t : Tree) b : reads (St := BackupRows) a t (provided (bh_resolve_provider b)) (fun _ => True).
Proof. apply reads_provided. intros w <-. split; [apply qh_resolve|done]. Qed.

(** A statement, on the rows and the files. *)
Lemma dspec_row {A : Type} (P : BackupRows -> World -> Prop) message (f : BackupRows -> A * BackupRows) (Q : result AppError A -> BackupRows -> World -> Prop) :
  (forall st w e, P st w -> Q (Err e) st (store_fault w).2) -> (forall st w, P st w -> Q (Ok (f st).1) (f st).2 (store_fault w).2) -> dspec P (statement message f) Q.
Proof.
  intros HE HO s Hs. unfold statement, ask, faulty. destruct s as [st [w v u]]; cbn in *. specialize (HE st w). specialize (HO st w Hs).
  destruct (store_fault w) as [[detail|] w']; cbn in *; [by apply HE|]. by destruct (f st).
Qed.
Lemma dspec_provided {A : Type} (P : BackupRows -> World -> Prop) (f : World -> result AppError A * World) (Q : result AppError A -> BackupRows -> World -> Prop) :
  (forall st w, P st w -> Q (f w).1 st (f w).2) -> dspec P (provided f) Q.
Proof. intros HQ s Hs. specialize (HQ _ _ Hs). unfold provided, on_host, ask. by destruct (f (fw_node (ds_fw s))). Qed.
Lemma dspec_try {A : Type} (P : BackupRows -> World -> Prop) (m : B A) (Q : result AppError (result AppError A) -> BackupRows -> World -> Prop) :
  dspec P m (fun r st w => Q (Ok r) st w) -> dspec P (dtry m) Q.
Proof. intros Hm s Hs. specialize (Hm s Hs). unfold dtry. by destruct (m s). Qed.

(** The row [id] is that of the file, and the files are [t]. *)
Definition recorded (t : Tree) (id : N) (file_name : list Z) (st : BackupRows) (w : World) : Prop :=
  files a w = t /\ forall b, st.(br_backups) !! id = Some b -> b.(ab_file_name) = file_name.

Lemma recorded_provided {A : Type} t id file_name (f : World -> result AppError A * World) :
  (forall w, files a w = t -> files a (f w).2 = t) -> dspec (recorded t id file_name) (provided f) (fun _ => recorded t id file_name).
Proof. intros Hf. apply dspec_provided. intros st w [Hw Hr]. split; [by apply Hf|done]. Qed.
Lemma recorded_bind {A C : Type} t id file_name (m : B A) (f : A -> B C) :
  dspec (recorded t id file_name) m (fun _ => recorded t id file_name) -> (forall x, dspec (recorded t id file_name) (f x) (fun _ => recorded t id file_name)) ->
  dspec (recorded t id file_name) (dbind m f) (fun _ => recorded t id file_name).
Proof. intros Hm Hf. apply (dspec_bind _ _ _ (fun _ => recorded t id file_name)); [|done]. eapply dspec_conseq; [exact Hm|done|]. by intros [x|e]. Qed.
Lemma recorded_ret {A : Type} t id file_name (x : A) : dspec (recorded t id file_name) (dret x) (fun _ => recorded t id file_name).
Proof. by apply dspec_ret. Qed.

Lemma recorded_client t id file_name : dspec (recorded t id file_name) s3_client (fun _ => recorded t id file_name).
Proof.
  unfold s3_client. apply recorded_bind; [by intros s Hs|]. intros config. destruct (negb _); [apply recorded_ret|].
  apply recorded_bind; [|intros; apply recorded_ret]. apply dspec_try, recorded_provided. intros w <-. apply qh_secret.
Qed.

Lemma recorded_copy t id created : link_free t -> at_path (backup_path created.(ab_file_name)) (place created.(ab_file_name)) ->
  dspec (recorded t id created.(ab_file_name)) (copy_off_site a created) (fun _ => recorded t id created.(ab_file_name)).
Proof.
  intros Hlf Hat. unfold copy_off_site. apply recorded_bind; [apply recorded_client|]. intros [client|]; [|apply recorded_ret].
  apply recorded_bind.
  - apply dspec_try. unfold upload_to_destination. apply recorded_bind.
    + apply recorded_provided. intros w <-. by eapply ft_download.
    + intros bytes. apply recorded_provided. intros w <-. apply qh_put.
  - intros [u|e]; [|apply recorded_ret]. apply recorded_bind; [|intros; apply recorded_ret]. apply dspec_try. unfold set_s3_key.
    apply dspec_row; [intros st w e [<- Hr]; split; [apply qh_store|done]|]. intros st w [<- Hr]. split; [apply qh_store|]. intros b Hb. cbn in Hb.
    destruct (decide (ab_id created = id)) as [E|Hd].
    + rewrite E, lookup_alter_eq in Hb. destruct (br_backups st !! id) as [b'|] eqn:Eb; [|done]. injection Hb as <-. exact (Hr b' eq_refl).
    + rewrite lookup_alter_ne in Hb by done. by apply Hr.
Qed.

(** The row is made, and read back. *)
Lemma backup_row (t : Tree) kind at_ (stat : RemoteFileEntry) : link_free t ->
  let file_name := backup_file_name kind at_ in
  dspec (fun _ w => files a w = t)
    (created <- backup_create a file_name stat.(re_size) kind ;;
     remote_error <- copy_off_site a created ;;
     backup <- backup_get created.(ab_id) ;;
     dret (mkBackupCreated (default created backup) remote_error))
    (fun r _ w => files a w = t /\ forall c, r = Ok c -> c.(bc_backup).(ab_file_name) = file_name).
Proof.
  intros Hlf file_name. pose proof (at_place kind at_) as Hat. fold file_name in Hat.
  apply (dspec_bind _ _ _ (fun created st w => recorded t created.(ab_id) file_name st w /\ created.(ab_file_name) = file_name)).
  - unfold backup_create. apply (dspec_bind _ _ _ (fun _ _ w => files a w = t)); [by intros s Hs|]. intros id.
    apply (dspec_bind _ _ _ (fun _ _ w => files a w = t)).
    { apply dspec_provided. intros st w <-. pose proof (qh_now a w) as Hn. destruct (bh_now w); cbn in *. done. }
    intros created_at. apply (dspec_bind _ _ _ (fun _ st w => recorded t id file_name st w)); [|intros u; apply dspec_ret; by intros st w Hr].
    unfold or_throw. apply (dspec_bind _ _ _ (fun r st w => files a w = t /\ (is_ok r = true -> recorded t id file_name st w))).
    + apply dspec_row; [intros st w e <-; split; [apply qh_store|done]|]. intros st w <-. unfold insert_backup.
      destruct (_ || _); cbn; split; try apply qh_store; try done. intros _. split; [apply qh_store|]. intros b. cbn. rewrite lookup_insert_eq. by intros [= <-].
    + intros [u|e]; [apply dspec_ret; intros st w [_ Hr]; by apply Hr|apply dspec_throw; intros st w [Hr _]; done].
  - intros created. apply (dspec_bind _ _ _ (fun _ st w => recorded t created.(ab_id) file_name st w /\ created.(ab_file_name) = file_name)).
    + intros s [Hr Hf]. rewrite <- Hf in Hr, Hat. pose proof (recorded_copy t (ab_id created) created Hlf Hat s Hr) as Hc.
      destruct (copy_off_site a created s) as [[x|e] s']; cbn in *; [by rewrite Hf in Hc|]. split; [apply Hc|done].
    + intros remote_error. apply (dspec_bind _ _ _ (fun backup _ w => files a w = t /\ ab_file_name (default created backup) = file_name)).
      * unfold backup_get. apply dspec_row; [intros st w e [[<- _] _]; split; [apply qh_store|done]|].
        intros st w [[<- Hr] Hf]. cbn [fst snd]. split; [apply qh_store|]. destruct (br_backups st !! ab_id created) as [b|] eqn:Eb; cbn [default]; [by apply Hr|done].
      * intros backup. apply dspec_ret. intros st w [Hw Hb]. split; [done|]. by intros c [= <-].
Qed.

(** [t'] is [t], but for VibeSSH's own entries. *)
Definition apart (t t' : Tree) : Prop := forall q, own q = false -> t' !! q = t !! q.
Lemma apart_insert (t t' : Tree) q node : apart t t' -> own q = true -> apart t (<[q := node]> t').
Proof. intros Ha Hq p Hp. rewrite lookup_insert_ne by congruence. by apply Ha. Qed.
(** A tree an archive can be made from. *)
Definition sound_tree (t : Tree) : Prop := link_free t /\ plain_tree t.
Lemma does_mkdir_own (t : Tree) : sound_tree t ->
  does (St := BackupRows) a (eq t) (dtry (provided (fp_create_directory a BACKUPS_DIR))) (fun _ t' => sound_tree t' /\ apart t t').
Proof.
  intros [Hl Hp]. apply does_try, does_provided. intros w Hw. pose proof (ft_mkdir a BACKUPS_DIR [BACKUPS_DIR] w eq_refl) as Hm. rewrite <- Hw in Hm. specialize (Hm Hl).
  destruct (fp_create_directory a BACKUPS_DIR w) as [r w']; cbn [fst snd]. destruct Hm as [[-> _]|(_ & _ & ->)]; [done|].
  split; [split; [by apply link_free_insert|by apply plain_insert; [|by apply Forall_singleton]]|by apply apart_insert].
Qed.

(** The names at the top that are not VibeSSH's own. *)
Definition names_of (es : list RemoteFileEntry) : list (list Z) := List.filter (fun name => negb (is_own_entry name)) (map re_name es).
Lemma in_names (t : Tree) es n : listing t [] es -> n ∈ names_of es <-> is_own_entry n = false /\ is_Some (t !! [n]).
Proof.
  intros Hl. unfold names_of. rewrite list_elem_of_In, filter_In, <- list_elem_of_In, negb_true_iff, (listing_names _ _ _ Hl n). cbn [app]. tauto.
Qed.
Lemma holds_own (t t' : Tree) es L : wf_tree t -> listing t [] es -> apart t t' ->
  holds t' (fun q => exists n, n ∈ names_of es /\ [n] `prefix_of` q) L -> holds t (fun q => own q = false) L.
Proof.
  intros Hw Hl Ha HL q node. rewrite (HL q node). split.
  - intros [(n & Hn & x & ->) Hq]. apply (in_names t) in Hn as [Hn _]; [|done]. rewrite <- Ha by done. done.
  - intros [Ho Hq]. rewrite Ha by done. split; [|done]. destruct q as [|n q]; [destruct Hw as [Hw _]; congruence|].
    exists n. split; [|by exists q]. apply (in_names t); [done|]. split; [done|].
    eapply (wf_prefix t [n] (n :: q)); [done|done|by exists q|done].
Qed.

(** The archive of [t], whose own entries have changed since. *)
Definition archived (t : Tree) (bytes : list Z) : Prop := exists L, zip_finish (map render L) = Ok bytes /\ holds t (fun q => own q = false) L.

Lemma does_create_zip (t t' : Tree) es kind at_ : wf_tree t -> sound_tree t -> listing t [] es -> sound_tree t' -> apart t t' ->
  does (St := BackupRows) a (eq t') (create_zip a (names_of es) (backup_path (backup_file_name kind at_)))
    (fun r t2 => apart t t2 /\ (is_ok r = true -> link_free t2 /\ exists bytes, archived t bytes /\ t2 !! place (backup_file_name kind at_) = Some (FFile bytes))).
Proof.
  intros Hw [Hlf Hpl] Hl [Hlf' Hpl'] Ha. set (fn := backup_file_name kind at_). unfold create_zip.
  assert (Hn : Forall plain (names_of es)).
  { apply Forall_forall. intros n Hn. apply (in_names t) in Hn as [_ [node Hn]]; [|done]. apply Hpl in Hn. by apply Forall_singleton. }
  apply (does_bind _ _ _ _ (fun _ => eq t')).
  { eapply does_conseq; [apply (reads_scratch a t')|done|]. by intros [u|e] t2 _ [-> _]. }
  intros _. apply does_pre. intros t2 Hw' <-.
  apply (does_bind _ _ _ _ (fun items t2 => t' = t2 /\ exists L, items = map render L /\ holds t (fun q => own q = false) L)).
  { eapply does_conseq; [apply (walk_all a t' Hlf' Hpl' Hw' (names_of es) Hn)|done|].
    intros [items|e] t2 _ [-> Hr]; [|done]. split; [done|]. destruct (Hr items eq_refl) as (L & -> & HL). exists L. split; [done|by eapply holds_own]. }
  intros items. apply does_pre. intros t2 _ [<- (L & -> & HL)]. destruct (zip_finish (map render L)) as [bytes|detail] eqn:Ez; [|by apply does_throw; intros ? <-].
  apply does_provided. intros w Hwd. pose proof (ft_upload a _ _ bytes w (at_place kind at_)) as Hm. rewrite <- Hwd in Hm. specialize (Hm Hlf'). fold fn in Hm.
  destruct (fp_upload_file a bytes (backup_path fn) w) as [[u|e] w']; cbn [fst snd] in *.
  - destruct Hm as (_ & _ & ->). split; [by apply apart_insert|]. intros _. split; [by apply link_free_insert|]. exists bytes. split; [by exists L|apply lookup_insert_eq].
  - split; [|done]. destruct Hm as [-> |[part ->]]; [done|by apply apart_insert].
Qed.

Lemma does_create_backup (t : Tree) kind : sound_tree t ->
  does a (eq t) (create_backup a kind)
    (fun r t2 => apart t t2 /\ forall c, r = Ok c -> exists at_ bytes, c.(bc_backup).(ab_file_name) = backup_file_name kind at_ /\ archived t bytes /\ t2 !! place c.(bc_backup).(ab_file_name) = Some (FFile bytes)).
Proof.
  intros Hs. unfold create_backup. apply does_pre. intros t' Hw <-.
  apply (does_bind _ _ _ _ (fun _ => eq t)).
  { eapply does_conseq; [apply (reads_resolve t a)|done|]. by intros [u|e] t2 _ [-> _]. }
  intros _. apply (does_bind _ _ _ _ (fun es t2 => t = t2 /\ listing t [] es)).
  { eapply does_conseq; [apply (reads_list a t _ [] at_path_dot (proj1 Hs))|done|]. intros [es|e] t2 _ [-> Hr]; [split; [done|by apply Hr]|done]. }
  intros es. apply does_pre. intros t2 _ [<- Hl]. fold (names_of es).
  apply (does_bind _ _ _ _ (fun _ t' => sound_tree t' /\ apart t t')).
  { eapply does_conseq; [by apply does_mkdir_own|done|]. by intros [u|e] t2 _ [HA HB]. }
  intros _. apply does_pre. intros t' _ [Hs' Ha]. apply (does_bind _ _ _ _ (fun _ => eq t')).
  { eapply does_conseq; [apply (reads_now t')|done|]. by intros [u|e] t2 _ [-> _]. }
  intros now. cbn zeta. set (fn := backup_file_name kind now).
  apply (does_bind _ _ _ _ (fun _ t2 => apart t t2 /\ link_free t2 /\ exists bytes, archived t bytes /\ t2 !! place fn = Some (FFile bytes))).
  { eapply does_conseq; [by apply (does_create_zip t t' es kind now)|done|]. intros [u|e] t2 _ [HA HB]; [|done]. split; [done|by apply HB]. }
  intros _. apply does_pre. intros t2 _ (HA & Hlf & HB). apply (does_bind _ _ _ _ (fun _ => eq t2)).
  { eapply does_conseq; [apply (reads_metadata a t2 _ _ (at_place kind now) Hlf)|done|]. by intros [stat|e] t3 _ [-> _]. }
  intros stat. eapply dspec_conseq; [by apply (backup_row t2 kind now stat)|by intros st w ->|].
  intros r st w [-> Hc]. split; [done|]. intros c Ec. destruct HB as (bytes & HB & HC). exists now, bytes. by rewrite (Hc c Ec).
Qed.
End backing_up.

(** ** Restoring *)

Section restoring.
Context {World : Type} `{QuietHost World} `{ZipLaws} (a : N).
Context (t0 : Tree) (bytes : list Z).
Hypothesis t0_sound : sound_tree t0.
Hypothesis t0_wf : wf_tree t0.
Hypothesis t0_archived : archived t0 bytes.

(** Over [t]: all of [t0] but VibeSSH's own entries, and nothing besides.
    After a failure those entries are untouched, and every other path is as it
    was before or as it is in [t0], but for at most one file of [t0] in which a
    write broke off. *)
Definition restored {A : Type} (t : Tree) (r : result AppError A) (t' : Tree) : Prop :=
  match r with
  | Ok _ => forall q : Path, q <> [] -> (length q <= 65)%nat -> t' !! q = if own q then t !! q else t0 !! q
  | Err _ => (forall q : Path, own q = true -> t' !! q = t !! q) /\
      exists broken, forall q : Path, own q = false -> t' !! q = t !! q \/ t' !! q = t0 !! q \/ broke_off t0 broken t' q
  end.

Lemma unrestored {A : Type} (t : Tree) (e : AppError) : restored (A := A) t (Err e) t.
Proof. split; [done|]. exists None. auto. Qed.

Lemma in_touched L (p : Path) : holds t0 (fun q => own q = false) L -> p ∈ touched L <-> p <> [] /\ own p = false /\ is_Some (t0 !! p).
Proof.
  intros HL. unfold touched. rewrite list_elem_of_bind. split.
  - intros ([q node] & Hp & Hq). apply HL in Hq as [Ho Hq]. cbn [fst] in Hp. pose proof (way_to t0 t0_wf _ _ _ Hq Hp) as [Hs _].
    apply extensions_spec in Hp as (x & Hx & -> & Hp). cbn [app] in *. split_and!; [done| |done]. by rewrite <- (own_below x q).
  - intros (Hne & Ho & [node Hn]). exists (p, node). split; [|by apply HL]. apply extensions_spec. by exists p.
Qed.

Lemma does_restore_from (t : Tree) : sound_tree t -> does a (eq t) (restore_from a bytes) (restored t).
Proof.
  destruct t0_archived as (L & Hz & HL). destruct t0_sound as [Hlf0 Hpl0]. intros [Hlf Hpl]. unfold restore_from.
  assert (Hown : forall q : Path, own q = true -> q ∉ touched L) by (intros q Ho (_ & Ho' & _)%in_touched; [congruence|done]).
  assert (Hlaid : forall t' : Tree, laid t0 t (touched L) t' -> restored (A := Z) t (Err NotFound) t').
  { intros t' Hl. split; [intros q Ho; by apply Hl, Hown|]. exists None. intros q _. destruct (Hl q) as [HC HD].
    destruct (decide (q ∈ touched L)); auto. }
  apply (does_bind _ _ _ _ (fun _ => laid t0 t (touched L))).
  { eapply does_conseq; [by apply (does_extract a t0 (fun q => own q = false) L bytes)|done|]. intros [n|e] t' _ Hr; [exact Hr|].
    apply harmless_spec in Hr as [HA [broken HB]]. split; [intros q Ho; by apply HA, Hown|]. exists broken. intros q _. apply HB. }
  intros written. apply does_pre. intros t' _ Hl.
  apply (does_bind _ _ _ _ (fun keep t2 => t' = t2 /\ forall k, k ∈ keep <-> exists p, p ∈ touched L /\ k = text p)).
  { eapply does_conseq; [by apply (reads_entry_paths a t0 (fun q => own q = false) L bytes)|done|]. intros [keep|e] t2 _ [-> Hr]; [split; [done|by apply Hr]|by apply Hlaid]. }
  intros keep. apply does_pre. intros t2 _ [<- Hk].
  apply (does_bind _ _ _ _ (fun r t2 => kept (touched L) [] t' t2 /\ (is_ok r = true -> clean (touched L) 65 [] t2))).
  { apply does_try. unshelve epose proof (remove_spec a (touched L) keep _ _ Hk 65 [] t' 0 (or_introl eq_refl) _ _) as Hrem.
    - intros p (Hne & _ & [node Hp])%in_touched; [|done]. split; [done|by eapply Hpl0].
    - intros p q Hp Hne Hpre. apply in_touched in Hp as (_ & Ho & [node Hp]); [|done]. apply in_touched; [done|].
      split_and!; [done|by rewrite <- (own_below q p)|]. by eapply (wf_prefix t0 q p).
    - exact (laid_link_free t0 t Hlf0 Hlf (touched L) t' Hl).
    - intros q node Hq. destruct (Hl q) as [HC HD]. destruct (decide (q ∈ touched L)); [rewrite HC in Hq by done; by eapply Hpl0|rewrite HD in Hq by done; by eapply Hpl].
    - exact Hrem. }
  assert (Hback : forall (t2 : Tree) (q : Path), kept (touched L) [] t' t2 -> own q = true \/ q ∈ touched L -> t2 !! q = t' !! q).
  { intros t2 q [_ HB] Hq. apply HB. tauto. }
  intros [n|e].
  - apply does_ret. intros t2 [HA HB] q Hne Hlen. destruct (own q) eqn:Ho; [rewrite (Hback t2) by auto; by apply Hl, Hown|].
    destruct (decide (q ∈ touched L)) as [Hq|Hq]; [rewrite (Hback t2) by auto; by apply Hl|].
    assert (Hn : t2 !! q = None) by (by apply (HB eq_refl q)). rewrite Hn. destruct (t0 !! q) eqn:E0; [|done]. exfalso. apply Hq, in_touched; [done|]. rewrite E0. by split_and!.
  - apply does_throw. intros t2 [HA _]. split; [intros q Ho; rewrite (Hback t2) by auto; by apply Hl, Hown|]. exists None. intros q Ho.
    destruct (decide (q ∈ touched L)) as [Hq|Hq]; [right; left; rewrite (Hback t2) by auto; by apply Hl|].
    destruct (t2 !! q) as [node|] eqn:E2; [left|right; left].
    + rewrite <- (proj2 (Hl q) Hq). symmetry. by eapply lookup_weaken; [|apply HA].
    + destruct (decide (q = [])) as [->|Hne]; [destruct t0_wf as [Hr _]; by rewrite Hr|].
      destruct (t0 !! q) eqn:E0; [|done]. exfalso. apply Hq, in_touched; [done|]. rewrite E0. by split_and!.
Qed.

(** Making an archive has no limit on the number of entries, reading it has: a
    larger backup is never put back. *)
Lemma too_many_entries (L : list (Path * FileNode)) (t : Tree) : zip_finish (map render L) = Ok bytes -> holds t0 (fun q => own q = false) L -> MAX_ENTRIES < Z.of_nat (length L) ->
  does a (eq t) (restore_from a bytes) (fun r t' => is_ok r = false /\ t' = t).
Proof.
  destruct t0_sound as [_ Hpl0]. intros Hz HL Hmany. unfold restore_from, extract_zip_from_file, extract_zip_from.
  apply (does_bind _ _ _ _ (fun _ _ => False)); [|intros n; apply does_pre; by intros]. apply (does_bind _ _ _ _ (fun _ t' => t' = t)).
  { eapply does_conseq; [apply (reads_scratch a t)|done|]. by intros [u|e] t' _ [-> _]. }
  intros _. rewrite (opens t0 (fun q => own q = false) L bytes) by done. rewrite !length_map.
  replace (MAX_ENTRIES <? Z.of_nat (length L)) with true by (symmetry; by apply Z.ltb_lt). apply does_throw. by intros t' ->.
Qed.

(** The archive's place may be written again, from the copy off-site. *)
Definition healed (file_name : list Z) (t t' : Tree) : Prop := t' = t \/ exists part, t' = <[place file_name := FFile part]> t.
Lemma healed_sound (kind : BackupKind) (at_ : Z) (t t' : Tree) : healed (backup_file_name kind at_) t t' -> sound_tree t -> sound_tree t'.
Proof.
  intros [-> |[part ->]] [Hl Hp]; [done|]. split; [by apply link_free_insert|]. apply plain_insert; [done|]. constructor; [done|]. apply Forall_singleton, file_name_plain.
Qed.

(** What is known of the archive: on the Node or off-site, it is [bytes]. *)
Definition intact (t : Tree) (b : ApplicationBackup) : Prop :=
  (forall node, t !! place b.(ab_file_name) = Some node -> node = FFile bytes) /\
  (forall client key w copy, b.(ab_s3_key) = Some key -> (s3_get client key w).1 = Ok copy -> copy = bytes).

Lemma does_fetch (t : Tree) (b : ApplicationBackup) : sound_tree t -> at_path (backup_path b.(ab_file_name)) (place b.(ab_file_name)) -> intact t b ->
  does a (eq t) (fetch_archive a b) (fun r t' => healed b.(ab_file_name) t t' /\ forall archive, r = Ok archive -> archive = bytes).
Proof.
  intros [Hlf Hpl] Hat [Hn Hc]. unfold fetch_archive. apply (does_bind _ _ _ _ (fun r t' => t = t' /\ forall archive, r = Ok archive -> archive = bytes)).
  { apply does_try. eapply does_conseq; [by apply (reads_download a t _ _ Hat)|done|]. intros r t' _ [-> Hr]. split; [done|]. intros archive E.
    specialize (Hr archive E). cbn beta in Hr. apply Hn in Hr. by injection Hr. }
  intros r. apply does_pre. intros t' _ [<- Hr]. destruct r as [archive|e]; [apply does_ret; intros t' <-; split; [by left|]; intros x [= <-]; by apply Hr|].
  apply (does_bind _ _ _ _ (fun _ => eq t)).
  { eapply does_conseq; [apply (reads_client a t)|done|]. intros [client|err] t' _ [-> _]; [done|by split; [left|]]. }
  intros client. destruct (ab_s3_key b) as [key|] eqn:Ek; [|apply does_throw; intros t' <-; by split; [left|]].
  destruct client as [client|]; [|apply does_throw; intros t' <-; by split; [left|]].
  apply (does_bind _ _ _ _ (fun archive t' => t = t' /\ archive = bytes)).
  { apply does_provided. intros w ->. rewrite (qh_get a client key w). destruct (s3_get client key w).1 as [copy|err] eqn:Eg; [by split; [|eapply Hc]|by split; [left|]]. }
  intros archive. apply does_pre. intros t' _ [<- ->]. apply (does_bind _ _ _ _ (fun _ => healed (ab_file_name b) t)).
  { apply does_try, does_provided. intros w Hw. pose proof (ft_upload a _ _ bytes w Hat) as Hm. rewrite <- Hw in Hm. specialize (Hm Hlf).
    destruct (fp_upload_file a bytes _ w) as [[u|err] w']; cbn [fst snd] in *.
    - destruct Hm as (_ & _ & ->). right. by eexists.
    - destruct Hm as [-> |[part ->]]; [by left|right; by eexists]. }
  intros _. apply does_ret. intros t' Ht. split; [done|]. by intros x [= <-].
Qed.

(** [restore_backup] of the row that names the archive. *)
Lemma restore_spec (t : Tree) (id : N) (kind : BackupKind) (at_ : Z) : let file_name := backup_file_name kind at_ in sound_tree t ->
  dspec (fun st w => files a w = t /\ forall b, st.(br_backups) !! id = Some b -> b.(ab_file_name) = file_name /\ intact t b)
    (restore_backup a id) (fun r _ w => exists t1, healed file_name t t1 /\ restored t1 r (files a w)).
Proof.
  intros file_name Hs. unfold restore_backup.
  assert (Hnone : forall A (e : AppError), exists t1, healed file_name t t1 /\ restored (A := A) t1 (Err e) t) by (intros A e; exists t; split; [by left|apply unrestored]).
  apply (dspec_bind _ _ _ (fun found _ w => files a w = t /\ forall b, found = Some b -> b.(ab_file_name) = file_name /\ intact t b)).
  { unfold backup_get. apply dspec_row; [intros st w e [<- _]; rewrite qh_store; apply (Hnone Z)|]. intros st w [<- Hr]. cbn [fst snd]. split; [apply qh_store|done]. }
  intros [b|]; [|apply dspec_throw; intros st w [-> _]; apply Hnone].
  eapply (dspec_conseq _ (fun st w => files a w = t /\ b.(ab_file_name) = file_name /\ intact t b)); cycle 1; [intros st w [HA HB]; split; [done|by apply HB]|intros r st w Hr; exact Hr|].
  apply dspec_pure. intros [Hf Hi]. destruct (negb _); [apply dspec_throw; intros st w ->; apply Hnone|].
  change (does a (fun t' => t' = t) (status <- provided (bh_refresh_status a) ;; (if in_use status then refuse [] "stop the application before restoring a backup" else
    provided (bh_resolve_provider a) ;;; archive <- fetch_archive a b ;; restore_from a archive)) (fun r t' => exists t1, healed file_name t t1 /\ restored t1 r t')).
  apply (does_bind _ _ _ _ (fun _ t' => t = t')); [apply does_provided; intros w <-; rewrite qh_status; by case_match|].
  intros status. destruct (in_use status); [apply does_throw; intros t' <-; apply Hnone|].
  apply (does_bind _ _ _ _ (fun _ t' => t = t')); [apply does_provided; intros w ->; rewrite qh_resolve; by case_match|]. intros _.
  apply (does_bind _ _ _ _ (fun archive t' => healed file_name t t' /\ archive = bytes)).
  { eapply does_conseq; [apply (does_fetch t b Hs)|done|]; [rewrite Hf; apply at_place|done|]. rewrite Hf.
    intros [archive|e] t' _ [HA HB]; [by split; [|apply HB]|]. exists t'. split; [done|]. apply unrestored. }
  intros archive. apply does_pre. intros t' _ [Hh ->]. eapply does_conseq; [apply (does_restore_from t'); by eapply healed_sound|done|]. intros r t2 _ Hr. by exists t'.
Qed.
End restoring.

(** C20: What a backup took is what a restore puts back.  Between the two the
    directory may have changed in any way that leaves it free of links and of
    names with a backslash (as it has to be when the backup is made),
    VibeSSH's own entries and the archive's own place apart, and the archive
    may be on the Node or only off-site.  After a restore every path is as it
    was when the backup was made, those that came later are gone down to the
    depth an archive can have, and VibeSSH's own entries are as they were
    before the restore.  After a failed one those are untouched too, and every
    other path is exactly as it was before the restore or exactly as it was in
    the backup, but for at most one file of the backup, in which a failed write
    broke off.  Making the backup changes nothing but VibeSSH's own entries. *)
Theorem restore_puts_it_back {World : Type} `{QuietHost World} `{ZipLaws} (a : N) (kind : BackupKind) (c : BackupCreated) (r : result AppError Z) (s1 s2 s3 s4 : DeskState BackupRows World) :
  let tree s : Tree := files a (world_of s) in
  let archive := place c.(bc_backup).(ab_file_name) in
  sound_tree (tree s1) -> create_backup a kind s1 = (Ok c, s2) ->
  sound_tree (tree s3) -> (forall node, tree s3 !! archive = Some node -> tree s2 !! archive = Some node) ->
  (forall b, s3.(ds_store).(br_backups) !! c.(bc_backup).(ab_id) = Some b -> b.(ab_file_name) = c.(bc_backup).(ab_file_name) /\
     forall client key w copy, b.(ab_s3_key) = Some key -> (s3_get client key w).1 = Ok copy -> tree s2 !! archive = Some (FFile copy)) ->
  restore_backup a c.(bc_backup).(ab_id) s3 = (r, s4) ->
  (forall q : Path, own q = false -> tree s2 !! q = tree s1 !! q) /\
  match r with
  | Ok _ => forall q : Path, q <> [] -> (length q <= 65)%nat -> q <> archive -> tree s4 !! q = if own q then tree s3 !! q else tree s1 !! q
  | Err _ => (forall q : Path, own q = true -> q <> archive -> tree s4 !! q = tree s3 !! q) /\
             exists broken, forall q : Path, own q = false ->
               tree s4 !! q = tree s3 !! q \/ tree s4 !! q = tree s1 !! q \/ broke_off (tree s1) broken (tree s4) q
  end.
Proof.
  intros tree archive Hs1 Hc Hs3 Harc Hrow Hr. pose proof (does_create_backup a (tree s1) kind Hs1 s1 eq_refl) as Hmade. rewrite Hc in Hmade.
  destruct Hmade as [Hap Hmade]. destruct (Hmade c eq_refl) as (at_ & bytes & Hfn & Ha & Hb). clear Hmade. split; [exact Hap|].
  pose proof (restore_spec a (tree s1) bytes Hs1 (files_wf a _) Ha (tree s3) c.(bc_backup).(ab_id) kind at_ Hs3 s3) as Hspec. rewrite Hr in Hspec.
  unfold archive in *. rewrite Hfn in *.
  destruct Hspec as (t1 & Hh & Hres).
  { split; [done|]. intros b Hrb. destruct (Hrow b Hrb) as [Hf Hcopy]. split; [done|]. unfold intact. rewrite Hf. split.
    - intros node Hn. apply Harc in Hn. change (tree s2 !! place (backup_file_name kind at_) = Some (FFile bytes)) in Hb. congruence.
    - intros client key w copy Hk Hg. specialize (Hcopy client key w copy Hk Hg). change (tree s2 !! place (backup_file_name kind at_) = Some (FFile bytes)) in Hb. congruence. }
  assert (Hheal : forall q : Path, q <> place (backup_file_name kind at_) -> t1 !! q = tree s3 !! q).
  { intros q Hq. destruct Hh as [-> |[part ->]]; [done|]. by rewrite lookup_insert_ne. }
  destruct r as [n|e].
  - intros q Hne Hlen Hq. rewrite <- (Hheal q Hq). exact (Hres q Hne Hlen).
  - destruct Hres as [HA [broken HB]]. split; [intros q Ho Hq; rewrite <- (Hheal q Hq); by apply HA|]. exists broken. intros q Ho.
    rewrite <- (Hheal q) by (intros ->; by cbv in Ho). by apply HB.
Qed.

(** A small directory, backed up and then changed. *)
Module Sample.
#[local] Existing Instances memory_provider memory_tree memory_zip memory_zip_laws memory_desk memory_host.
#[local] Instance memory_quiet : QuietHost Tree.
Proof. split; done. Defined.

Definition before : Tree := <[[lit "data"] := FDir]> (<[[lit "data"; lit "world"] := FFile [1; 2]]> (<[[lit "config.yml"] := FFile [3]]> ∅)).
Definition changed_files (t : Tree) : Tree :=
  <[[lit "config.yml"] := FFile [9; 9]]> (<[[lit "data"; lit "junk"] := FDir]> (<[[lit "data"; lit "junk"; lit "x"] := FFile []]> (<[[lit ".vibessh-env"] := FFile [7]]> (delete [lit "data"; lit "world"] t)))).
Definition first : DeskState BackupRows Tree := mkDesk (mkBackupRows ∅ ∅ {[1%N]} (mkDestination false [] [] [] [] [] false)) (mkFw before ∅ 5%N).
Definition second : DeskState BackupRows Tree := (create_backup 1 Manual first).2.
Definition made : BackupCreated := mkBackupCreated (mkBackup 5 1 (backup_file_name Manual 0) (Z.of_nat 1) Manual None 0) None.
Definition third : DeskState BackupRows Tree := mkDesk second.(ds_store) (mkFw (changed_files second.(ds_fw).(fw_node)) ∅ 6%N).
Definition fourth : DeskState BackupRows Tree := (restore_backup 1 5 third).2.
Lemma pair_of {A B : Type} (p : A * B) (x : A) : p.1 = x -> p = (x, p.2).
Proof. destruct p; cbn; by intros ->. Qed.
Lemma backed_up : create_backup 1 Manual first = (Ok made, second).
Proof. unfold second. generalize (eq_refl (create_backup 1 Manual first).1). generalize (create_backup 1 Manual first) at 2 3 4. intros p E. apply pair_of. rewrite <- E. vm_compute. reflexivity. Qed.
Lemma put_back : restore_backup 1 5 third = (Ok 2, fourth).
Proof. unfold fourth. generalize (eq_refl (restore_backup 1 5 third).1). generalize (restore_backup 1 5 third) at 2 3 4. intros p E. apply pair_of. rewrite <- E. vm_compute. reflexivity. Qed.
End Sample.

(** The backup is made, the restore succeeds, and the theorem says what it leaves. *)
Lemma restore_puts_it_back_witness :
  let tree s : Tree := @files _ _ memory_tree 1 (world_of s) in
  (@restore_backup _ memory_desk memory_provider memory_zip memory_host 1 5 Sample.third).1 = Ok 2 /\
  tree Sample.fourth !! [lit "config.yml"] = Some (FFile [3]) /\ tree Sample.fourth !! [lit "data"; lit "world"] = Some (FFile [1; 2]) /\
  tree Sample.fourth !! [lit "data"; lit "junk"; lit "x"] = None /\ tree Sample.fourth !! [lit ".vibessh-env"] = Some (FFile [7]).
Proof.
  intros tree. pose proof (@restore_puts_it_back Tree memory_provider memory_tree memory_desk memory_host Sample.memory_quiet memory_zip memory_zip_laws 1 Manual Sample.made (Ok 2) Sample.first Sample.second Sample.third Sample.fourth) as Hthm.
  cbv zeta in Hthm. destruct Hthm as [_ Hthm].
  - apply sound_treeb_ok. vm_compute. reflexivity.
  - exact Sample.backed_up.
  - apply sound_treeb_ok. vm_compute. reflexivity.
  - intros node. vm_compute. exact id.
  - intros b. vm_compute. intros [= <-]. split; [reflexivity|discriminate].
  - exact Sample.put_back.
  - split; [vm_compute; reflexivity|]. split_and!; (unfold tree; rewrite Hthm; [vm_compute; reflexivity|discriminate|vm_compute; lia|discriminate]).
Defined.
