(* ===== verification/LocalFiles.v ===== *)
(** * LocalFiles: the files of an application on this machine

    [apps/desktop/src-tauri/src/files/local.rs] over the file system of
    [Posix].  A [PathBuf] is its components and a working directory is
    absolute; [root] gives it for each application.  The loops that copy a file
    chunk by chunk are one read and one write that may stop part of the way;
    times and the permissions an entry is shown with have no counterpart. *)

From S2P Require Import Prelude Text Shell Sandbox Firewall Desktop Archive Posix.

#[local] Open Scope Z_scope.
#[local] Open Scope posix_scope.

Definition bad_input {A : Type} (text : string) : IO A := iothrow (InvalidInput (mkInvalid [] (Other (lit text)))).
Definition failed (text : string) : AppError := Internal (lit text).

(** [path.to_string_lossy().replace('\\', "/")]. *)
Definition path_key (p : FsPath) : list Z := forward_slashes (canonical p).

Section local.
Context (root : N -> FsPath).

Definition canonicalize (p : FsPath) (e : AppError) : IO FsPath := sys_read (fun fs => realpath fs p) e.
(** [Path::exists]: whether the path resolves; it makes no other mistake here. *)
Definition path_exists (p : FsPath) : IO bool := fun w => (Ok (bool_decide (is_Some (stat w.(pw_fs) p))), w).

Definition canonical_root (a : N) : IO FsPath := canonicalize (root a) (InvalidInput (mkInvalid [] (Other (lit "the application's working directory doesn't exist")))).

(** [Path::join] with what [sanitize_relative_path] returns. *)
Definition join_path (base : FsPath) (relative : list Z) : FsPath := if is_empty relative then base else base ++ split_on (Z.eqb 47) relative.
(** [Path::file_name]. *)
Definition file_name (p : FsPath) : option (list Z) := match last p with Some n => if str_eqb n DOTDOT then None else Some n | None => None end.

(** The parent, and the last component as it is written. *)
Definition canonical_entry (candidate : FsPath) : IO FsPath :=
  match file_name candidate with
  | None => bad_input "invalid path"
  | Some n =>
      canonical_parent <- canonicalize (removelast candidate) (InvalidInput (mkInvalid [] (Other (lit "the containing directory doesn't exist")))) ;;
      ioret (canonical_parent ++ [n])
  end.
Definition canonicalize_existing_or_parent (candidate : FsPath) : IO FsPath :=
  there <- path_exists candidate ;;
  if there then canonicalize candidate (failed "couldn't resolve")
  else canonical_entry candidate.

Definition resolve_path (a : N) (relative : list Z) : IO FsPath :=
  match sanitize_relative_path relative with
  | Err e => iothrow (InvalidInput e)
  | Ok relative =>
      canonical_root <- canonical_root a ;;
      canonical <- canonicalize_existing_or_parent (join_path (root a) relative) ;;
      if negb (is_within_root (path_key canonical) (path_key canonical_root)) then bad_input "path escapes the application directory"
      else ioret canonical
  end.

Definition resolve_entry (a : N) (relative : list Z) : IO FsPath :=
  match sanitize_relative_path relative with
  | Err e => iothrow (InvalidInput e)
  | Ok relative =>
      if is_empty relative then resolve_path a relative
      else
        entry <- canonical_entry (join_path (root a) relative) ;;
        canonical_root <- canonical_root a ;;
        if negb (is_within_root (path_key entry) (path_key canonical_root)) then bad_input "path escapes the application directory"
        else ioret entry
  end.

(** [entry_to_remote_file_entry]: neither [file_type] nor [metadata] of a
    directory entry follows a link. *)
Definition node_size (node : PosixNode) : Z := match node with PFile contents _ => Z.of_nat (length contents) | _ => 0 end.
Definition is_link_at (node : PosixNode) : bool := match node with PLink _ => true | _ => false end.
Definition entry_to_remote_file_entry (entry : list Z * PosixNode) : RemoteFileEntry :=
  mkEntry entry.1 (is_dir_node (Some entry.2)) (is_link_at entry.2) (node_size entry.2).

Definition local_list_directory (a : N) (path : list Z) : IO (list RemoteFileEntry) :=
  dir <- resolve_path a path ;;
  canonical_root a ;;;
  entries <- sys_read (fun fs => read_dir_at fs dir) (failed "couldn't list") ;;
  ioret (map entry_to_remote_file_entry entries).

Definition local_metadata (a : N) (path : list Z) : IO RemoteFileEntry :=
  resolved <- resolve_path a path ;;
  canonical_root a ;;;
  symlink_meta <- sys_read (fun fs => lstat fs resolved) NotFound ;;
  full_meta <- iotry (sys_read (fun fs => stat fs resolved) NotFound) ;;
  let effective := match full_meta with Ok node => node | Err _ => symlink_meta end in
  ioret (mkEntry (default [] (last resolved)) (is_dir_node (Some effective)) (is_link_at symlink_meta) (node_size effective)).

Definition local_read_file (a : N) (path : list Z) : IO (list Z) :=
  resolved <- resolve_path a path ;; sys_read (fun fs => read_at fs resolved) (failed "couldn't read").
Definition local_read_file_range (a : N) (path : list Z) (offset len : nat) : IO (list Z) :=
  resolved <- resolve_path a path ;;
  contents <- sys_read (fun fs => read_at fs resolved) (failed "couldn't read") ;;
  ioret (take len (drop offset contents)).

(** What of [contents] a write that was stopped has written. *)
Definition written (part : option nat) (contents : list Z) : list Z := match part with None => contents | Some n => take n contents end.
Definition write_to (p : FsPath) (contents : list Z) : IO unit := sys_write (fun part fs => write_at fs p (written part contents)) (failed "couldn't write").
Definition local_write_file (a : N) (path contents : list Z) : IO unit := resolved <- resolve_path a path ;; write_to resolved contents.
Definition local_create_directory (a : N) (path : list Z) : IO unit :=
  resolved <- resolve_path a path ;; sys_write (fun _ fs => make_dir_at fs resolved) (failed "couldn't create directory").

Definition local_delete (a : N) (path : list Z) : IO unit :=
  resolved <- resolve_entry a path ;;
  canonical_root <- canonical_root a ;;
  if str_eqb (path_key resolved) (path_key canonical_root) then bad_input "refusing to delete the root itself"
  else
    metadata <- sys_read (fun fs => lstat fs resolved) NotFound ;;
    if is_dir_node (Some metadata) then sys_write (fun part fs => remove_tree_at fs resolved part) (failed "couldn't delete")
    else sys_write (fun _ fs => unlink_at fs resolved) (failed "couldn't delete").

Definition local_rename (a : N) (from to : list Z) : IO unit :=
  from_resolved <- resolve_entry a from ;;
  to_resolved <- resolve_entry a to ;;
  sys_write (fun _ fs => rename_at fs from_resolved to_resolved) (failed "couldn't rename").

(** [create_dir_all]. *)
Fixpoint create_dirs (built rest : FsPath) : IO unit :=
  match rest with
  | [] => ioret tt
  | n :: rest =>
      found <- iotry (sys_read (fun fs => stat fs (built ++ [n])) NotFound) ;;
      (match found with
       | Ok node => if is_dir_node (Some node) then ioret tt else iothrow (failed "couldn't create")
       | Err _ => sys_write (fun _ fs => make_dir_at fs (built ++ [n])) (failed "couldn't create")
       end) ;;;
      create_dirs (built ++ [n]) rest
  end.
(** [tokio::fs::copy]: the destination is created or emptied and given the
    permissions of the source before a byte is read. *)
Definition copy_file (from to : FsPath) : IO unit :=
  node <- sys_read (fun fs => stat fs from) (failed "couldn't copy") ;;
  match node with
  | PFile _ mode =>
      write_to to [] ;;;
      sys_write (fun _ fs => chmod_at fs to mode) (failed "couldn't copy") ;;;
      contents <- sys_read (fun fs => read_at fs from) (failed "couldn't copy") ;;
      write_to to contents
  | _ => iothrow (failed "couldn't copy")
  end.
Fixpoint iofor {A : Type} (f : A -> IO unit) (l : list A) : IO unit := match l with [] => ioret tt | x :: l => f x ;;; iofor f l end.
(** [levels] is how deep a path can get before its name is too long: 4096 bytes,
    and each level has two of them or more. *)
Fixpoint copy_recursive (levels : nat) (from to : FsPath) : IO unit :=
  match levels with
  | O => iothrow (failed "couldn't stat")
  | S levels =>
      metadata <- sys_read (fun fs => lstat fs from) (failed "couldn't stat") ;;
      match metadata with
      | PLink _ => ioret tt
      | PDir _ =>
          create_dirs [] to ;;;
          entries <- sys_read (fun fs => read_dir_at fs from) (failed "couldn't list") ;;
          iofor (fun entry => copy_recursive levels (from ++ [entry.1]) (to ++ [entry.1])) entries
      | PFile _ _ => copy_file from to
      end
  end.
Definition PATH_LEVELS : nat := 2048.
Definition local_copy (a : N) (from to : list Z) : IO unit :=
  from_resolved <- resolve_path a from ;;
  to_resolved <- resolve_path a to ;;
  copy_recursive PATH_LEVELS from_resolved to_resolved.

Definition local_set_permissions (a : N) (path : list Z) (mode : Z) : IO unit :=
  resolved <- resolve_path a path ;; sys_write (fun _ fs => chmod_at fs resolved mode) (failed "couldn't change permissions").
Definition local_download_file (a : N) (path : list Z) : IO (list Z) :=
  resolved <- resolve_path a path ;; sys_read (fun fs => read_at fs resolved) (failed "couldn't open").
Definition local_upload_file (a : N) (bytes path : list Z) : IO unit := resolved <- resolve_path a path ;; write_to resolved bytes.

Definition local_provider : FileProvider PosixWorld := {|
  fp_list_directory := local_list_directory; fp_metadata := local_metadata; fp_read_file := local_read_file; fp_write_file := local_write_file;
  fp_create_directory := local_create_directory; fp_delete := local_delete; fp_download_file := local_download_file; fp_upload_file := local_upload_file;
  fp_scratch := ioret tt;
|}.
End local.
