(* ===== verification/LocalJail.v ===== *)
(** * LocalJail: an application's files and no others

    Whatever path is asked for and wherever links lead, the operations of
    [files/local.rs] change and read nothing outside the application's
    directory, except through a link whose target cannot be resolved. *)

From S2P Require Import Prelude Text Shell Sandbox Firewall Desktop Archive FileTree Posix LocalFiles.

#[local] Open Scope Z_scope.
#[local] Open Scope posix_scope.

(** ** Triples *)

Definition iodoes {A : Type} (P : Fs -> Prop) (m : IO A) (Q : result AppError A -> Fs -> Prop) : Prop := forall w : PosixWorld, P (pw_fs w) -> Q (m w).1 (pw_fs (m w).2).

Lemma iodoes_conseq {A : Type} (P P' : Fs -> Prop) (m : IO A) (Q Q' : result AppError A -> Fs -> Prop) :
  iodoes P' m Q' -> (forall fs, P fs -> P' fs) -> (forall r fs, wf_fs fs -> Q' r fs -> Q r fs) -> iodoes P m Q.
Proof. intros Hm HP HQ w Hw. apply HQ; [apply wf_fsb_ok, pw_wf|]. apply Hm, HP, Hw. Qed.
Lemma iodoes_pre {A : Type} (P : Fs -> Prop) (m : IO A) (Q : result AppError A -> Fs -> Prop) : (forall fs, wf_fs fs -> P fs -> iodoes (eq fs) m Q) -> iodoes P m Q.
Proof. intros Hm w Hw. by apply (Hm (pw_fs w) (wf_fsb_ok _ (pw_wf w)) Hw). Qed.
Lemma iodoes_ret {A : Type} (P : Fs -> Prop) (x : A) (Q : result AppError A -> Fs -> Prop) : (forall fs, P fs -> Q (Ok x) fs) -> iodoes P (ioret x) Q.
Proof. intros HQ w Hw. by apply HQ. Qed.
Lemma iodoes_throw {A : Type} (P : Fs -> Prop) (e : AppError) (Q : result AppError A -> Fs -> Prop) : (forall fs, P fs -> Q (Err e) fs) -> iodoes P (iothrow e) Q.
Proof. intros HQ w Hw. by apply HQ. Qed.
Lemma iodoes_bind {A B : Type} (P : Fs -> Prop) (m : IO A) (f : A -> IO B) (R : A -> Fs -> Prop) (Q : result AppError B -> Fs -> Prop) :
  iodoes P m (fun r fs => match r with Ok x => R x fs | Err e => Q (Err e) fs end) -> (forall x, iodoes (R x) (f x) Q) -> iodoes P (iobind m f) Q.
Proof. intros Hm Hf w Hw. specialize (Hm w Hw). unfold iobind. destruct (m w) as [[x|e] w']; cbn in *; [by apply Hf|done]. Qed.
Lemma iodoes_try {A : Type} (P : Fs -> Prop) (m : IO A) (Q : result AppError (result AppError A) -> Fs -> Prop) : iodoes P m (fun r fs => Q (Ok r) fs) -> iodoes P (iotry m) Q.
Proof. intros Hm w Hw. specialize (Hm w Hw). unfold iotry. by destruct (m w). Qed.
Lemma iodoes_read {A : Type} (fs : Fs) (f : Fs -> option A) (e : AppError) (Q : result AppError A -> Fs -> Prop) :
  (forall x, f fs = Some x -> Q (Ok x) fs) -> Q (Err e) fs -> iodoes (eq fs) (sys_read f e) Q.
Proof.
  intros HO HE w ->. unfold sys_read. destruct (pw_fault w (pw_calls w)); cbn [fst snd called pw_fs]; [done|]. destruct (f (pw_fs w)) eqn:E; [by apply HO|done].
Qed.
Lemma iodoes_write (fs : Fs) (f : option nat -> Fs -> option Fs) (e : AppError) (Q : result AppError unit -> Fs -> Prop) :
  (forall fs', f None fs = Some fs' -> Q (Ok tt) fs') -> (forall n fs', f (Some n) fs = Some fs' -> Q (Err e) fs') -> Q (Err e) fs -> iodoes (eq fs) (sys_write f e) Q.
Proof.
  intros HO HP HE w ->. unfold sys_write. destruct (pw_fault w (pw_calls w)) as [[|n]|]; cbn [fst snd called pw_fs]; [done| |].
  - destruct (f (Some n) (pw_fs w)) as [fs|] eqn:E; cbn [mbind option_bind]; [|done]. destruct (commit (called w) fs) as [w'|] eqn:Ec; [|done].
    apply commit_spec in Ec. rewrite Ec. by eapply HP.
  - destruct (f None (pw_fs w)) as [fs|] eqn:E; cbn [mbind option_bind]; [|done]. destruct (commit (called w) fs) as [w'|] eqn:Ec; [|done].
    apply commit_spec in Ec. cbn [fst snd]. rewrite Ec. by eapply HO.
Qed.

(** What only looks. *)
Definition ioreads {A : Type} (fs : Fs) (m : IO A) (Q : A -> Prop) : Prop := iodoes (eq fs) m (fun r fs' => fs' = fs /\ forall x, r = Ok x -> Q x).
Lemma ioreads_ret {A : Type} (fs : Fs) (x : A) (Q : A -> Prop) : Q x -> ioreads fs (ioret x) Q.
Proof. intros HQ. apply iodoes_ret. intros fs' <-. split; [done|]. by intros y [= <-]. Qed.
Lemma ioreads_throw {A : Type} (fs : Fs) (e : AppError) (Q : A -> Prop) : ioreads fs (iothrow e) Q.
Proof. apply iodoes_throw. intros fs' <-. done. Qed.
Lemma ioreads_sys {A : Type} (fs : Fs) (f : Fs -> option A) (e : AppError) : ioreads fs (sys_read f e) (fun x => f fs = Some x).
Proof. apply iodoes_read; [intros x E; split; [done|]; by intros y [= <-]|done]. Qed.
Lemma ioreads_pure {A : Type} (fs : Fs) (g : Fs -> A) : ioreads fs (fun w => (Ok (g (pw_fs w)), w)) (fun x => x = g fs).
Proof. intros w ->. split; [done|]. by intros x [= <-]. Qed.
Lemma ioreads_bind {A B : Type} (fs : Fs) (m : IO A) (f : A -> IO B) (R : A -> Prop) (Q : B -> Prop) : ioreads fs m R -> (forall x, R x -> ioreads fs (f x) Q) -> ioreads fs (iobind m f) Q.
Proof.
  intros Hm Hf. eapply (iodoes_bind _ _ _ (fun x fs' => fs' = fs /\ R x)).
  - eapply iodoes_conseq; [exact Hm|done|]. intros [x|e] fs' _ [-> Hx]; [split; [done|by apply Hx]|done].
  - intros x. apply iodoes_pre. intros fs' _ [-> Hx]. by apply Hf.
Qed.
Lemma ioreads_then {A B : Type} (fs : Fs) (m : IO A) (f : A -> IO B) (R : A -> Prop) (Q : result AppError B -> Fs -> Prop) :
  ioreads fs m R -> (forall e, Q (Err e) fs) -> (forall x, R x -> iodoes (eq fs) (f x) Q) -> iodoes (eq fs) (iobind m f) Q.
Proof.
  intros Hm HE Hf. eapply (iodoes_bind _ _ _ (fun x fs' => fs' = fs /\ R x)).
  - eapply iodoes_conseq; [exact Hm|done|]. intros [x|e] fs' _ [-> Hx]; [split; [done|by apply Hx]|done].
  - intros x. apply iodoes_pre. intros fs' _ [-> Hx]. by apply Hf.
Qed.

(** ** Where a resolved path is *)

Definition plain_fs (fs : Fs) : Prop := forall p node, fs !! p = Some node -> Forall plain p.
Lemma plain_node (fs : Fs) (p : FsPath) : plain_fs fs -> is_Some (fs_node fs p) -> Forall plain p.
Proof. intros Hp [node Hn]. destruct p; [done|]. by eapply Hp. Qed.
Lemma plain_entries (p : FsPath) : Forall plain p -> Forall (fun s => entry_name s = true) p.
Proof. intros Hp. eapply Forall_impl; [exact Hp|]. by intros s [? _]. Qed.
Lemma path_key_plain (p : FsPath) : Forall plain p -> path_key p = canonical p.
Proof.
  intros Hp. unfold path_key, canonical. destruct p as [|n p]; [done|]. induction Hp as [|s q [_ Hs] Hq IH]; [done|]. rewrite bind_cons, forward_slashes_app, IH.
  f_equal. change (47 :: s) with ([47] ++ s). by rewrite forward_slashes_app, (forward_slashes_id s).
Qed.
Lemma within_key (p R : FsPath) : Forall plain p -> Forall plain R -> is_within_root (path_key p) (path_key R) = true <-> R `prefix_of` p.
Proof. intros Hp HR. rewrite !path_key_plain by done. apply within_root_is_exact; by apply plain_entries. Qed.

(** [p] is an entry, of the directory or file [d] if [p] need not exist. *)
Inductive located_at (fs : Fs) (p : FsPath) : Prop :=
| LocatedSelf : realpath fs p = Some p -> located_at fs p
| LocatedIn (d : FsPath) (n : list Z) : p = d ++ [n] -> realpath fs d = Some d -> plain n -> located_at fs p.

Lemma realpath_some (fs : Fs) (p q : FsPath) : wf_fs fs -> realpath fs p = Some q -> is_Some (fs_node fs q).
Proof. intros Hw Hq. apply realpath_self in Hq as [[Hd|(contents & mode & Hf)] _]; [by apply dir_is_some| |done]. destruct q; [by eexists|]. cbn. by rewrite Hf. Qed.
Lemma located_plain (fs : Fs) (p : FsPath) : wf_fs fs -> plain_fs fs -> located_at fs p -> Forall plain p.
Proof.
  intros Hw Hp [Hr|d n -> Hr Hn]; [by eapply plain_node; [done|eapply realpath_some]|]. apply Forall_app. split; [|by apply Forall_singleton].
  by eapply plain_node; [done|eapply realpath_some].
Qed.

(** A walk to it ends there, unless it is a link that is followed. *)
Lemma walk_file (m f : bool) (links : nat) (fs : Fs) (d : FsPath) (n : list Z) : wf_fs fs -> is_dir_node (fs_node fs d) = false -> realpath fs d = Some d -> walk m f links fs [] (d ++ [n]) = None.
Proof.
  intros Hw Hd Hr. apply realpath_self in Hr as [[Hd'|(contents & mode & Hf)] _]; [congruence| |done].
  destruct d as [|c d _] using rev_ind; [done|]. destruct Hw as [Hroot Hw]. destruct (Hw d c _ Hf) as [Hc Hdir].
  rewrite <- app_assoc, (walk_after m f links fs d) by done. cbn [app]. rewrite walk_name by (by apply entry_real). by rewrite Hf.
Qed.
Lemma located_walk (m f : bool) (links : nat) (fs : Fs) (p q : FsPath) : wf_fs fs -> located_at fs p -> (f = true -> forall target, fs !! p <> Some (PLink target)) ->
  walk m f links fs [] p = Some q -> q = p.
Proof.
  intros Hw Hl Hk Hq.
  assert (Hin : forall d n, p = d ++ [n] -> realpath fs d = Some d -> real_name n = true -> q = p).
  { intros d n -> Hr Hn. destruct (is_dir_node (fs_node fs d)) eqn:Ed; [|by rewrite walk_file in Hq].
    rewrite walk_after, walk_name in Hq by done. unfold step_last in Hq. destruct (fs !! (d ++ [n])) as [[| |target]|] eqn:E.
    - by injection Hq.
    - by injection Hq.
    - destruct f; [by specialize (Hk eq_refl target)|by injection Hq].
    - destruct m; [by injection Hq|done]. }
  destruct Hl as [Hr|d n -> Hr Hn]; [|eapply Hin; [done..|]; apply entry_real, Hn].
  destruct (realpath_self _ _ _ Hw Hr) as [[Hd|(contents & mode & Hf)] _].
  - pose proof (walk_after m f links fs p [] Hw Hd) as Ha. rewrite app_nil_r, walk_nil in Ha. congruence.
  - destruct p as [|n d _] using rev_ind; [by destruct Hw; congruence|]. destruct Hw as [Hroot Hw]. destruct (Hw d n _ Hf) as [Hn Hd].
    eapply Hin; [done| |by apply entry_real]. pose proof (walk_after false true MAX_LINKS fs d [] (conj Hroot Hw) Hd) as Ha. by rewrite app_nil_r, walk_nil in Ha.
Qed.

(** ** Resolving *)

(** The path an operation is asked for, joined onto the directory. *)
Definition candidate (root : N -> FsPath) (a : N) (path : list Z) : option FsPath :=
  match sanitize_relative_path path with Ok relative => Some (join_path (root a) relative) | Err _ => None end.
(** It names a link whose target cannot be resolved. *)
Definition broken_link (fs : Fs) (c : FsPath) : bool :=
  negb (bool_decide (is_Some (stat fs c))) &&
  match realpath fs (removelast c), last c with Some d, Some n => match fs !! (d ++ [n]) with Some (PLink _) => true | _ => false end | _, _ => false end.
Definition names_broken_link (root : N -> FsPath) (a : N) (fs : Fs) (path : list Z) : bool := match candidate root a path with Some c => broken_link fs c | None => false end.

Section resolving.
Context (root : N -> FsPath) (a : N) (fs : Fs).
Hypothesis fs_wf : wf_fs fs.
Hypothesis fs_plain : plain_fs fs.

(** Below the application's directory, which is [R]. *)
Definition jailed (p : FsPath) : Prop := exists R, realpath fs (root a) = Some R /\ R `prefix_of` p /\ located_at fs p.

Lemma sanitized_join path relative : sanitize_relative_path path = Ok relative ->
  relative = [] /\ join_path (root a) relative = root a \/ exists ps n, relative <> [] /\ join_path (root a) relative = root a ++ ps ++ [n] /\ plain n.
Proof.
  intros [-> Hall]%sanitize_spec. unfold join_path. destruct (pieces_of path) as [|x xs _] eqn:E using rev_ind; [by left|].
  assert (Hp : Forall plain (xs ++ [x])).
  { apply Forall_forall. intros s Hs. destruct (pieces_entry path s) as [He Hsep]; [by rewrite E|by rewrite E|]. split; [done|].
    unfold contains_char. rewrite <- not_true_iff_false, existsb_elem_of in *. intros (c & Hc & Heq%Z.eqb_eq). apply Hsep. exists c. split; [done|].
    subst c. reflexivity. }
  right. exists xs, x. assert (Hne : xs ++ [x] <> []) by (by destruct xs). pose proof (text_nonempty _ Hp Hne) as Ht. fold (text (xs ++ [x])). split; [done|].
  rewrite (is_empty_text _ Hp Hne), split_text by done. split; [done|]. apply Forall_app in Hp as [_ Hp]. by rewrite Forall_singleton in Hp.
Qed.

Lemma reads_canonical_root : ioreads fs (canonical_root root a) (fun R => realpath fs (root a) = Some R).
Proof. exact (ioreads_sys fs (fun fs => realpath fs (root a)) _). Qed.
Lemma reads_entry (base : FsPath) n : plain n -> ioreads fs (canonical_entry (base ++ [n])) (fun p => exists d, p = d ++ [n] /\ realpath fs base = Some d /\ located_at fs p).
Proof.
  intros Hn. unfold canonical_entry, file_name. rewrite last_snoc, removelast_last.
  assert (Hd : str_eqb n DOTDOT = false).
  { destruct Hn as [He _]. apply entry_real in He. unfold real_name in He. rewrite negb_true_iff in He. by apply orb_false_iff in He as [_ ?]. }
  rewrite Hd. eapply ioreads_bind; [apply ioreads_sys|]. intros d Hr. cbn beta in Hr. apply ioreads_ret. exists d. split_and!; [done..|].
  apply (LocatedIn _ _ d n); [done|exact (proj2 (realpath_self _ _ _ fs_wf Hr))|done].
Qed.

Lemma jailed_within R p : realpath fs (root a) = Some R -> located_at fs p -> negb (is_within_root (path_key p) (path_key R)) = false -> jailed p.
Proof.
  intros HR Hp Hin. exists R. split_and!; [done| |done]. apply within_key; [by eapply located_plain| |by apply negb_false_iff].
  by eapply plain_node; [done|eapply realpath_some].
Qed.

Lemma reads_resolve_path path : ioreads fs (resolve_path root a path) (fun p => jailed p /\ (names_broken_link root a fs path = false -> forall target, fs !! p <> Some (PLink target))).
Proof.
  unfold resolve_path, names_broken_link, candidate. destruct (sanitize_relative_path path) as [relative|e] eqn:Es; [|apply ioreads_throw].
  eapply ioreads_bind; [apply reads_canonical_root|]. intros R HR. cbn beta in HR. set (c := join_path (root a) relative).
  eapply (ioreads_bind _ _ _ (fun p => located_at fs p /\ (broken_link fs c = false -> forall target, fs !! p <> Some (PLink target)))); cycle 1.
  { intros p [Hl Hb]. destruct (negb _) eqn:Ew; [apply ioreads_throw|]. apply ioreads_ret. split; [by eapply jailed_within|done]. }
  unfold canonicalize_existing_or_parent. eapply (ioreads_bind _ _ _ (fun there => there = bool_decide (is_Some (stat fs c)))).
  { exact (ioreads_pure fs (fun fs => bool_decide (is_Some (stat fs c)))). }
  intros there ->. destruct (bool_decide (is_Some (stat fs c))) eqn:Ee.
  - unfold canonicalize. eapply iodoes_conseq; [apply ioreads_sys|done|]. intros r fs' _ [-> Hr]. split; [done|]. intros p Hp. specialize (Hr p Hp). cbn beta in Hr.
    destruct (realpath_self _ _ _ fs_wf Hr) as [Hk Hself]. split; [by apply LocatedSelf|]. intros _ target Ht. destruct Hk as [Hd|(contents & mode & Hf)]; [|congruence].
    destruct p; [by destruct fs_wf; congruence|]. rewrite fs_node_cons, Ht in Hd by done. done.
  - destruct (sanitized_join path relative Es) as [[-> Hc]|(ps & n & _ & Hc & Hn)]; fold c in Hc.
    + exfalso. apply bool_decide_eq_false in Ee. apply Ee. rewrite Hc. unfold stat. rewrite HR. cbn. by eapply realpath_some.
    + rewrite Hc. rewrite app_assoc in *. eapply iodoes_conseq; [by apply reads_entry|done|]. intros r fs' _ [-> Hr]. split; [done|]. intros p Hp.
      destruct (Hr p Hp) as (d & -> & Hd & Hl). split; [done|]. unfold broken_link. rewrite Hc in Ee. rewrite Ee, removelast_last, last_snoc, Hd. cbn [negb andb].
      intros Hb target Ht. by rewrite Ht in Hb.
Qed.

Lemma reads_resolve_entry path : ioreads fs (resolve_entry root a path) jailed.
Proof.
  unfold resolve_entry. destruct (sanitize_relative_path path) as [relative|e] eqn:Es; [|apply ioreads_throw].
  destruct (sanitized_join path relative Es) as [[-> Hc]|(ps & n & Hne & Hc & Hn)].
  - cbn [is_empty]. eapply iodoes_conseq; [apply reads_resolve_path|done|]. intros r fs' _ [-> Hr]. split; [done|]. intros p Hp. by destruct (Hr p Hp).
  - replace (is_empty relative) with false by (by destruct relative). rewrite Hc, app_assoc. eapply ioreads_bind; [by apply reads_entry|]. intros p (d & -> & Hd & Hl).
    eapply ioreads_bind; [apply reads_canonical_root|]. intros R HR. destruct (negb _) eqn:Ew; [apply ioreads_throw|]. apply ioreads_ret. exact (jailed_within R _ HR Hl Ew).
Qed.
End resolving.

(** ** Staying inside *)

Definition stays (R : FsPath) (fs fs' : Fs) : Prop := (forall q : FsPath, ~ R `prefix_of` q -> fs' !! q = fs !! q) /\ is_dir_node (fs_node fs' R) = true.

Lemma stays_trans (R : FsPath) (fs1 fs2 fs3 : Fs) : stays R fs1 fs2 -> stays R fs2 fs3 -> stays R fs1 fs3.
Proof. intros [HA _] [HC HD]. split; [|done]. intros q Hq. by rewrite HC, HA. Qed.
Lemma stays_change (R p : FsPath) (fs fs' : Fs) : is_dir_node (fs_node fs R) = true -> R `prefix_of` p -> (forall q, ~ p `prefix_of` q -> fs' !! q = fs !! q) -> (R = p -> is_dir_node (fs_node fs' R) = true) -> stays R fs fs'.
Proof.
  intros Hd Hp Hc HR. split; [intros q Hq; apply Hc; intros Hpq; apply Hq; by etrans|]. destruct (decide (R = p)) as [E|Hne]; [by apply HR|].
  destruct R as [|n R]; [done|]. rewrite fs_node_cons in * by done. rewrite Hc; [done|]. intros Hpr. by apply Hne, prefix_length_eq, prefix_length; [done|].
Qed.
Lemma prefix_of_insert (p q : FsPath) (fs : Fs) (node : PosixNode) : ~ p `prefix_of` q -> <[p := node]> fs !! q = fs !! q.
Proof. intros Hp. apply lookup_insert_ne. by intros ->. Qed.
Lemma stays_insert (R p : FsPath) (fs : Fs) (node : PosixNode) : is_dir_node (fs_node fs R) = true -> R `prefix_of` p -> p <> [] -> (R = p -> is_dir_node (Some node) = true) -> stays R fs (<[p := node]> fs).
Proof.
  intros Hd Hp Hne HR. eapply (stays_change R p); [done..|by intros; apply prefix_of_insert|]. intros ->. rewrite fs_node_cons, lookup_insert_eq by done. by apply HR.
Qed.

Section touching.
Context (R : FsPath) (fs : Fs).
Hypothesis fs_wf : wf_fs fs.
Hypothesis R_dir : is_dir_node (fs_node fs R) = true.

(** Where [p] leads is [p]. *)
Definition leads (m f : bool) (p : FsPath) : Prop := forall q, walk m f MAX_LINKS fs [] p = Some q -> q = p.

Lemma stays_refl : stays R fs fs.
Proof. done. Qed.
Lemma R_lookup : R <> [] -> is_dir_node (fs !! R) = true.
Proof. intros Hne. by rewrite <- fs_node_cons. Qed.

Lemma touch_write (p : FsPath) contents fs' : leads true true p -> R `prefix_of` p -> write_at fs p contents = Some fs' -> stays R fs fs' /\ exists mode, fs' = <[p := PFile contents mode]> fs.
Proof.
  intros Hl Hp. unfold write_at, open_at. destruct (walk _ _ _ _ _ _) as [q|] eqn:E; cbn [mbind option_bind]; [|done]. apply Hl in E as ->. destruct p as [|n p]; [done|]. intros Hw.
  assert (Hnd : is_dir_node (fs !! (n :: p)) = false) by (destruct (fs !! (n :: p)) as [[| |]|]; done).
  assert (HR : R = n :: p -> False) by (intros E; pose proof R_lookup as HR; rewrite E in HR; rewrite HR in Hnd; done).
  destruct (fs !! (n :: p)) as [[contents' mode| |]|]; try done; injection Hw as <-; (split; [by apply stays_insert|by eexists]).
Qed.
Lemma touch_mkdir (p : FsPath) fs' : leads true false p -> R `prefix_of` p -> make_dir_at fs p = Some fs' -> stays R fs fs' /\ fs !! p = None /\ p <> [] /\ exists mode, fs' = <[p := PDir mode]> fs.
Proof.
  intros Hl Hp. unfold make_dir_at, new_entry_at. destruct (walk _ _ _ _ _ _) as [q|] eqn:E; cbn [mbind option_bind]; [|done]. apply Hl in E as ->. destruct p as [|n p]; [done|].
  destruct (fs !! (n :: p)) eqn:En; [done|]. intros [= <-]. split; [by apply stays_insert|]. split_and!; [done..|]. by eexists.
Qed.
Lemma touch_unlink (p : FsPath) fs' : leads false false p -> R `prefix_of` p -> unlink_at fs p = Some fs' -> stays R fs fs' /\ fs' = delete p fs /\ is_dir_node (fs !! p) = false.
Proof.
  intros Hl Hp. unfold unlink_at, entry_at. destruct (walk _ _ _ _ _ _) as [q|] eqn:E; cbn [mbind option_bind]; [|done]. apply Hl in E as ->. intros Hu.
  assert (Hk : fs' = delete p fs /\ is_dir_node (fs !! p) = false /\ p <> []).
  { destruct (fs !! p) as [[| |]|] eqn:En; try done; injection Hu as <-; split_and!; try done; intros ->; destruct fs_wf; congruence. }
  destruct Hk as (-> & Hnd & Hne). split; [|done]. apply (stays_change R p); [done..|intros q Hq; apply lookup_delete_ne; by intros ->|].
  intros E'. pose proof R_lookup as HR. rewrite E' in HR. rewrite HR in Hnd; done.
Qed.
Lemma touch_remove (p : FsPath) part fs' : leads false false p -> R `prefix_of` p -> R <> p -> remove_tree_at fs p part = Some fs' ->
  stays R fs fs' /\ fs' ⊆ fs /\ (forall q, ~ p `prefix_of` q -> fs' !! q = fs !! q) /\ (part = None -> forall q, p `prefix_of` q -> fs' !! q = None).
Proof.
  intros Hl Hp Hne. unfold remove_tree_at, entry_at. destruct (walk _ _ _ _ _ _) as [q|] eqn:E; cbn [mbind option_bind]; [|done]. apply Hl in E as ->. destruct p as [|n p]; [done|].
  destruct (fs !! (n :: p)) as [[| |]|] eqn:En; try done. intros [= <-].
  assert (Hout : forall q, ~ (n :: p) `prefix_of` q -> delete_all fs (match part with Some k => take k (below fs (n :: p)) | None => below fs (n :: p) end) !! q = fs !! q).
  { intros q Hq. destruct part; [by apply removed_outside|]. by rewrite lookup_removed, bool_decide_false. }
  split_and!; [by apply (stays_change R (n :: p))|apply delete_all_subset|done|]. intros -> q Hq. by rewrite lookup_removed, bool_decide_true.
Qed.
Lemma touch_chmod (p : FsPath) mode fs' : leads false true p -> R `prefix_of` p -> chmod_at fs p mode = Some fs' -> stays R fs fs'.
Proof.
  intros Hl Hp. unfold chmod_at, realpath. destruct (walk _ _ _ _ _ _) as [q|] eqn:E; cbn [mbind option_bind]; [|done]. apply Hl in E as ->. intros Hw.
  assert (Hne : p <> []) by (intros ->; destruct fs_wf as [Hr _]; by rewrite Hr in Hw).
  destruct (fs !! p) as [[contents m| |]|] eqn:En; try done; injection Hw as <-; apply stays_insert; try done. intros E'. pose proof R_lookup as HR. rewrite E', En in HR. by apply HR.
Qed.
Lemma touch_rename (p p' : FsPath) fs' : leads false false p -> leads true false p' -> R `prefix_of` p -> R `prefix_of` p' -> rename_at fs p p' = Some fs' ->
  stays R fs fs' /\ is_Some (fs !! p) /\ (p = p' /\ fs' = fs \/ ~ p `prefix_of` p' /\ ~ p' `prefix_of` p /\ replaceable fs p p' = true /\ fs' = moved fs p p').
Proof.
  intros Hl Hl' Hp Hp'. unfold rename_at, entry_at, new_entry_at. destruct (walk false _ _ _ _ _) as [q|] eqn:E; cbn [mbind option_bind]; [|done]. apply Hl in E as ->.
  destruct (walk true _ _ _ _ _) as [q|] eqn:E; cbn [mbind option_bind]; [|done]. apply Hl' in E as ->. destruct p as [|n p]; [done|]. destruct p' as [|n' p']; [done|].
  destruct (fs !! (n :: p)) as [node|] eqn:En; [|done]. destruct (bool_decide (n :: p = n' :: p')) eqn:Eq.
  { apply bool_decide_eq_true in Eq. intros [= <-]. split; [apply stays_refl|]. split; [done|by left]. }
  destruct (_ || _) eqn:Eo; [done|]. intros [= <-]. rewrite !orb_false_iff, !bool_decide_eq_false, negb_false_iff in Eo. destruct Eo as [[HA HB] HC].
  split; [|split; [done|by right]]. split.
  - intros q Hq. rewrite lookup_moved by done. rewrite bool_decide_false by (intros Hx; exact (Hq (transitivity Hp' Hx))). by rewrite bool_decide_false by (intros Hx; exact (Hq (transitivity Hp Hx))).
  - destruct R as [|r R']; [done|]. rewrite fs_node_cons, lookup_moved by done.
    rewrite bool_decide_false by (intros Hx; exact (HB (transitivity Hx Hp))). rewrite bool_decide_false by (intros Hx; exact (HA (transitivity Hx Hp'))). exact R_dir.
Qed.
End touching.

(** ** Copying *)

Section copying.
Context (R : FsPath) (fs0 : Fs).

(** So far nothing left, and there is no link below [R]. *)
Definition calm_below (fs : Fs) : Prop := stays R fs0 fs /\ forall q target, R `prefix_of` q -> fs !! q <> Some (PLink target).

Lemma straight (m f : bool) (links : nat) (fs : Fs) (y : FsPath) : wf_fs fs -> (forall q target, R `prefix_of` q -> fs !! q <> Some (PLink target)) -> Forall (fun n => entry_name n = true) y ->
  forall (at_ q : FsPath), R `prefix_of` at_ -> is_dir_node (fs_node fs at_) = true -> walk m f links fs at_ y = Some q -> q = at_ ++ y.
Proof.
  intros Hw Hk Hy. induction Hy as [|c y Hc Hy IH]; intros at_ q HR Hd Hq; [rewrite walk_nil in Hq; injection Hq as <-; by rewrite app_nil_r|].
  assert (HR' : R `prefix_of` (at_ ++ [c])) by (by apply prefix_app_r).
  rewrite walk_name in Hq by (by apply entry_real). destruct y as [|c' y].
  - unfold step_last in Hq. destruct (fs !! (at_ ++ [c])) as [[| |target]|] eqn:E; try (by injection Hq); [by apply Hk in E|]. destruct m; [by injection Hq|done].
  - destruct (fs !! (at_ ++ [c])) as [[| |target]|] eqn:E; try done; [|by apply Hk in E]. apply IH in Hq; [|done|by rewrite fs_node_snoc, E]. by rewrite Hq, <- app_assoc.
Qed.
Lemma calm_leads (m f : bool) (fs : Fs) (p : FsPath) : wf_fs fs -> calm_below fs -> R `prefix_of` p -> Forall (fun n => entry_name n = true) p -> leads fs m f p.
Proof.
  intros Hw [[_ Hd] Hk] [y ->] [_ Hy]%Forall_app q Hq. rewrite walk_after in Hq by done. by eapply straight in Hq.
Qed.
Lemma calm_insert (fs : Fs) (p : FsPath) (node : PosixNode) : calm_below fs -> stays R fs (<[p := node]> fs) -> (forall target, node <> PLink target) -> calm_below (<[p := node]> fs).
Proof.
  intros [HA HB] Hs Hn. split; [by eapply stays_trans|]. intros q target Hq. destruct (decide (p = q)) as [->|Hne]; [rewrite lookup_insert_eq; intros [= E]; by eapply Hn|].
  rewrite lookup_insert_ne by done. by apply HB.
Qed.

Lemma calm_create_dirs (to : FsPath) : R `prefix_of` to -> Forall (fun n => entry_name n = true) to ->
  forall built rest, built ++ rest = to -> iodoes calm_below (create_dirs built rest) (fun _ => calm_below).
Proof.
  intros HR Hn built rest. revert built. induction rest as [|n rest IH]; intros built Hto; cbn [create_dirs]; [by apply iodoes_ret|].
  set (x := built ++ [n]). assert (Hx : x ++ rest = to) by (subst x; by rewrite <- app_assoc).
  assert (Hxn : Forall (fun n => entry_name n = true) x) by (rewrite <- Hx in Hn; by apply Forall_app in Hn as [? _]).
  apply iodoes_pre. intros fs Hw Hc. apply (iodoes_bind _ _ _ (fun _ fs' => fs' = fs)).
  { apply iodoes_try. eapply iodoes_conseq; [apply ioreads_sys|done|]. by intros r fs' _ [-> _]. }
  intros found. apply (iodoes_bind _ _ _ (fun _ => calm_below)); [|intros _; by apply IH]. apply iodoes_pre. intros fs' _ ->. destruct found as [node|e].
  { destruct (is_dir_node _); [apply iodoes_ret|apply iodoes_throw]; by intros fs' <-. }
  assert (Hmk : forall fs', make_dir_at fs x = Some fs' -> calm_below fs').
  { intros fs' Hm. assert (Hpre : R `prefix_of` x).
    { destruct (prefix_weak_total R x to HR) as [?|[y Hy]]; [by exists rest|done|]. exfalso. destruct Hc as [[_ Hd] _]. destruct y as [|c y].
      - rewrite app_nil_r in Hy. subst x. rewrite Hy in Hd. unfold make_dir_at, new_entry_at in Hm. pose proof (walk_after true false MAX_LINKS fs _ [] Hw Hd) as Hwk.
        rewrite app_nil_r, walk_nil in Hwk. rewrite Hwk in Hm. cbn in Hm. rewrite fs_node_snoc in Hd. destruct (built ++ [n]); [done|]. by destruct (fs !! _).
      - assert (Hxd : is_dir_node (fs_node fs x) = true) by (eapply dir_above; [done|rewrite <- Hy; by apply dir_is_some|done]).
        unfold make_dir_at, new_entry_at in Hm. pose proof (walk_after true false MAX_LINKS fs _ [] Hw Hxd) as Hwk. rewrite app_nil_r, walk_nil in Hwk. rewrite Hwk in Hm. cbn in Hm.
        subst x. rewrite fs_node_snoc in Hxd. destruct (built ++ [n]); [done|]. by destruct (fs !! _). }
    destruct (touch_mkdir R fs (proj2 (proj1 Hc)) x fs') as (Hs & _ & _ & mode & ->); [by apply calm_leads|done|done|]. by apply calm_insert. }
  apply iodoes_write; [by intros; apply Hmk|by intros; apply Hmk|done].
Qed.

Lemma calm_write_to (to : FsPath) (contents : list Z) : R `prefix_of` to -> Forall (fun n => entry_name n = true) to -> iodoes calm_below (write_to to contents) (fun _ => calm_below).
Proof.
  intros HR Hn. apply iodoes_pre. intros fs Hw Hc. assert (Hwr : forall part fs', write_at fs to (written part contents) = Some fs' -> calm_below fs').
  { intros part fs' Hm. destruct (touch_write R fs (proj2 (proj1 Hc)) to _ fs' (calm_leads true true fs to Hw Hc HR Hn) HR Hm) as (Hs & m & ->). by apply calm_insert. }
  apply iodoes_write; [by intros; eapply (Hwr None)|by intros; eapply (Hwr (Some n))|done].
Qed.
Lemma calm_chmod (to : FsPath) (mode : Z) (e : AppError) : R `prefix_of` to -> Forall (fun n => entry_name n = true) to -> iodoes calm_below (sys_write (fun _ fs => chmod_at fs to mode) e) (fun _ => calm_below).
Proof.
  intros HR Hn. apply iodoes_pre. intros fs' Hw Hc'. assert (Hch : forall fs'', chmod_at fs' to mode = Some fs'' -> calm_below fs'').
  { intros fs'' Hm. pose proof (touch_chmod R fs' Hw (proj2 (proj1 Hc')) to mode fs'') as Hs. specialize (Hs ltac:(by apply calm_leads) HR Hm).
    unfold chmod_at in Hm. destruct (realpath fs' to) as [q|]; cbn [mbind option_bind] in Hm; [|done]. destruct (fs' !! q) as [[c m|m|]|]; try done; injection Hm as <-; by apply calm_insert. }
  apply iodoes_write; [by intros; apply Hch|by intros; apply Hch|done].
Qed.
Lemma calm_seq {A B : Type} (m : IO A) (f : A -> IO B) : iodoes calm_below m (fun _ => calm_below) -> (forall x, iodoes calm_below (f x) (fun _ => calm_below)) -> iodoes calm_below (iobind m f) (fun _ => calm_below).
Proof. intros Hm Hf. apply (iodoes_bind _ _ _ (fun _ => calm_below)); [|done]. eapply iodoes_conseq; [exact Hm|done|]. by intros [x|e] fs _ Hr. Qed.
Lemma calm_look {A : Type} (f : Fs -> option A) (e : AppError) : iodoes calm_below (sys_read f e) (fun _ => calm_below).
Proof. apply iodoes_pre. intros fs _ Hc. eapply iodoes_conseq; [apply ioreads_sys|done|]. by intros r fs' _ [-> _]. Qed.
Lemma calm_copy_file (from to : FsPath) : R `prefix_of` to -> Forall (fun n => entry_name n = true) to -> iodoes calm_below (copy_file from to) (fun _ => calm_below).
Proof.
  intros HR Hn. unfold copy_file. apply calm_seq; [apply calm_look|]. intros [contents mode| |]; try by apply iodoes_throw.
  repeat (apply calm_seq; [first [by apply calm_write_to|by apply calm_chmod|apply calm_look]|intros ?]). by apply calm_write_to.
Qed.

Lemma calm_for {A : Type} (f : A -> IO unit) (l : list A) : (forall x, x ∈ l -> iodoes calm_below (f x) (fun _ => calm_below)) -> iodoes calm_below (iofor f l) (fun _ => calm_below).
Proof.
  induction l as [|x l IH]; intros Hf; cbn [iofor]; [by apply iodoes_ret|]. apply (iodoes_bind _ _ _ (fun _ => calm_below)).
  - eapply iodoes_conseq; [apply Hf; by left|done|by intros [u|e] fs _ Hr].
  - intros _. apply IH. intros y Hy. apply Hf. by right.
Qed.
Lemma calm_copy (levels : nat) : forall from to : FsPath, R `prefix_of` to -> Forall (fun n => entry_name n = true) to -> iodoes calm_below (copy_recursive levels from to) (fun _ => calm_below).
Proof.
  induction levels as [|levels IH]; intros from to HR Hn; cbn [copy_recursive]; [by apply iodoes_throw|].
  apply iodoes_pre. intros fs _ Hc. eapply ioreads_then; [apply ioreads_sys|done|]. intros node _. destruct node as [contents mode|mode|target].
  - eapply iodoes_conseq; [by apply calm_copy_file|by intros ? <-|done].
  - apply (iodoes_bind _ _ _ (fun _ => calm_below)); [eapply iodoes_conseq; [by apply (calm_create_dirs to HR Hn)|by intros ? <-|]; by intros [u|e] fs' _ Hr|]. intros _.
    apply iodoes_pre. intros fs' Hw Hc'. eapply ioreads_then; [apply ioreads_sys|done|]. intros entries Hent. cbn beta in Hent.
    assert (Hnames : forall entry, entry ∈ entries -> entry_name entry.1 = true).
    { unfold read_dir_at in Hent. destruct (realpath fs' from) as [q|]; cbn [mbind option_bind] in Hent; [|done]. destruct (is_dir_node _); [|done]. injection Hent as <-.
      intros [n node] Hin%in_read_dir. destruct Hw as [_ Hw]. by apply Hw in Hin as [? _]. }
    eapply iodoes_conseq; [apply (calm_for (fun entry => copy_recursive levels (from ++ [entry.1]) (to ++ [entry.1])) entries)|by intros ? <-|done].
    intros entry He. apply IH; [by apply prefix_app_r|]. apply Forall_app. split; [done|]. apply Forall_singleton. by apply Hnames.
  - apply iodoes_ret. by intros ? <-.
Qed.
End copying.

(** ** Every operation *)

Inductive LocalOp : Type :=
| LocalList (path : list Z) | LocalStat (path : list Z) | LocalRead (path : list Z) | LocalReadRange (path : list Z) (offset len : nat) | LocalDownload (path : list Z)
| LocalWrite (path contents : list Z) | LocalUpload (bytes path : list Z) | LocalCreate (path : list Z) | LocalDelete (path : list Z)
| LocalRename (from to : list Z) | LocalCopy (from to : list Z) | LocalChmod (path : list Z) (mode : Z).

Section operations.
Context (root : N -> FsPath) (a : N).

(** An operation, and the bytes it shows of a file. *)
Definition perform (op : LocalOp) : IO (list Z) :=
  match op with
  | LocalList path => local_list_directory root a path ;;; ioret []
  | LocalStat path => local_metadata root a path ;;; ioret []
  | LocalRead path => local_read_file root a path
  | LocalReadRange path offset len => local_read_file_range root a path offset len
  | LocalDownload path => local_download_file root a path
  | LocalWrite path contents => local_write_file root a path contents ;;; ioret []
  | LocalUpload bytes path => local_upload_file root a bytes path ;;; ioret []
  | LocalCreate path => local_create_directory root a path ;;; ioret []
  | LocalDelete path => local_delete root a path ;;; ioret []
  | LocalRename from to => local_rename root a from to ;;; ioret []
  | LocalCopy from to => local_copy root a from to ;;; ioret []
  | LocalChmod path mode => local_set_permissions root a path mode ;;; ioret []
  end.

(** The path that is opened is not a link that cannot be resolved; and a copy
    is made in a directory without links. *)
Definition sturdy (fs : Fs) (op : LocalOp) : Prop :=
  match op with
  | LocalRead path | LocalReadRange path _ _ | LocalDownload path | LocalWrite path _ | LocalUpload _ path | LocalChmod path _ => names_broken_link root a fs path = false
  | LocalCopy _ _ => forall R q target, realpath fs (root a) = Some R -> R `prefix_of` q -> fs !! q <> Some (PLink target)
  | _ => True
  end.

(** Bytes of a file below [R]. *)
Definition from_below (R : FsPath) (fs : Fs) (bytes : list Z) : Prop :=
  bytes = [] \/ exists (q : FsPath) (contents : list Z) (mode : Z), R `prefix_of` q /\ fs !! q = Some (PFile contents mode) /\ exists offset len, bytes = take len (drop offset contents).

Context (fs : Fs) (R : FsPath).
Hypothesis fs_wf : wf_fs fs.
Hypothesis fs_plain : plain_fs fs.
Hypothesis R_is : realpath fs (root a) = Some R.
Hypothesis R_dir : is_dir_node (fs_node fs R) = true.

Definition kept_inside {A : Type} (shows : A -> list Z) (r : result AppError A) (fs' : Fs) : Prop := stays R fs fs' /\ forall x, r = Ok x -> from_below R fs (shows x).

Lemma jailed_R (p : FsPath) : jailed root a fs p -> R `prefix_of` p /\ located_at fs p.
Proof. intros (R' & HR & Hp). rewrite R_is in HR. by injection HR as <-. Qed.
Lemma located_leads (m f : bool) (p : FsPath) : located_at fs p -> (f = true -> forall target, fs !! p <> Some (PLink target)) -> leads fs m f p.
Proof. intros Hl Hk q Hq. by eapply located_walk. Qed.

Lemma kept_nothing {A : Type} (m : IO A) : iodoes (eq fs) m (fun _ fs' => stays R fs fs') -> iodoes (eq fs) (m ;;; ioret []) (kept_inside id).
Proof.
  intros Hm. apply (iodoes_bind _ _ _ (fun _ fs' => stays R fs fs')).
  - eapply iodoes_conseq; [exact Hm|done|]. intros [x|e] fs' _ Hr; [done|by split].
  - intros _. apply iodoes_ret. intros fs' Hr. split; [done|]. intros x [= <-]. by left.
Qed.
Lemma stays_read {A : Type} (m : IO A) (Q : A -> Prop) : ioreads fs m Q -> iodoes (eq fs) m (fun _ fs' => stays R fs fs').
Proof. intros Hm. eapply iodoes_conseq; [exact Hm|done|]. by intros r fs' _ [-> _]. Qed.

(** Resolve, then one call. *)
Lemma stays_resolved (path : list Z) (f : option nat -> FsPath -> Fs -> option Fs) (e : AppError) :
  (forall part p fs', R `prefix_of` p -> located_at fs p -> (names_broken_link root a fs path = false -> forall target, fs !! p <> Some (PLink target)) -> f part p fs = Some fs' -> stays R fs fs') ->
  iodoes (eq fs) (resolved <- resolve_path root a path ;; sys_write (fun part => f part resolved) e) (fun _ fs' => stays R fs fs').
Proof.
  intros Hf. eapply ioreads_then; [by apply reads_resolve_path|done|]. intros p [[Hp Hl]%jailed_R Hb]. apply iodoes_write; [by intros; eapply Hf|by intros; eapply Hf|done].
Qed.
Lemma stays_write (path contents : list Z) : names_broken_link root a fs path = false -> iodoes (eq fs) (resolved <- resolve_path root a path ;; write_to resolved contents) (fun _ fs' => stays R fs fs').
Proof.
  intros Hs. apply (stays_resolved path (fun part p fs => write_at fs p (written part contents))). intros part p fs' Hp Hl Hb Hw.
  destruct (touch_write R fs R_dir p _ fs' (located_leads true true p Hl (fun _ => Hb Hs)) Hp Hw). done.
Qed.

Lemma reads_contents (p : FsPath) (e : AppError) : R `prefix_of` p -> located_at fs p -> (forall target, fs !! p <> Some (PLink target)) ->
  ioreads fs (sys_read (fun fs => read_at fs p) e) (fun contents => exists q mode, R `prefix_of` q /\ fs !! q = Some (PFile contents mode)).
Proof.
  intros Hp Hl Hk. eapply iodoes_conseq; [apply ioreads_sys|done|]. intros r fs' _ [-> Hr]. split; [done|]. intros contents Hc. specialize (Hr contents Hc). cbn beta in Hr.
  unfold read_at, realpath in Hr. destruct (walk _ _ _ _ _ _) as [q|] eqn:E; cbn [mbind option_bind] in Hr; [|done]. apply (located_leads false true p Hl (fun _ => Hk)) in E as ->.
  destruct (fs !! p) as [[c mode| |]|] eqn:En; try done. injection Hr as ->. by exists p, mode.
Qed.
Lemma reads_file_at (path : list Z) (e : AppError) : names_broken_link root a fs path = false ->
  ioreads fs (resolved <- resolve_path root a path ;; sys_read (fun fs => read_at fs resolved) e) (fun contents => exists q mode, R `prefix_of` q /\ fs !! q = Some (PFile contents mode)).
Proof. intros Hs. eapply ioreads_bind; [by apply reads_resolve_path|]. intros p [[Hp Hl]%jailed_R Hb]. apply reads_contents; auto. Qed.
Lemma kept_contents (m : IO (list Z)) : ioreads fs m (fun contents => exists q mode, R `prefix_of` q /\ fs !! q = Some (PFile contents mode)) -> iodoes (eq fs) m (kept_inside id).
Proof.
  intros Hm. eapply iodoes_conseq; [exact Hm|done|]. intros r fs' _ [-> Hr]. split; [done|]. intros bytes Hb. destruct (Hr bytes Hb) as (q & mode & Hq & Hf).
  right. exists q, bytes, mode. split_and!; [done..|]. exists 0%nat, (length bytes). by rewrite drop_0, firstn_all.
Qed.

Lemma stays_delete (path : list Z) : iodoes (eq fs) (local_delete root a path) (fun _ fs' => stays R fs fs').
Proof.
  unfold local_delete. eapply ioreads_then; [by apply reads_resolve_entry|done|]. intros p [Hp Hl]%jailed_R.
  eapply ioreads_then; [apply reads_canonical_root|done|]. intros R' HR'. cbn beta in HR'. rewrite R_is in HR'. injection HR' as <-.
  destruct (str_eqb _ _) eqn:Eq; [apply iodoes_throw; by intros ? <-|].
  assert (Hne : R <> p) by (intros ->; unfold str_eqb in Eq; by apply bool_decide_eq_false in Eq).
  eapply ioreads_then; [apply ioreads_sys|done|]. intros node _. destruct (is_dir_node (Some node)).
  - assert (Hrm : forall part fs', remove_tree_at fs p part = Some fs' -> stays R fs fs').
    { intros part fs' Hm. by destruct (touch_remove R fs R_dir p part fs' (located_leads false false p Hl ltac:(done)) Hp Hne Hm). }
    apply iodoes_write; [by intros; eapply Hrm|by intros; eapply Hrm|done].
  - assert (Hul : forall fs', unlink_at fs p = Some fs' -> stays R fs fs').
    { intros fs' Hm. by destruct (touch_unlink R fs fs_wf R_dir p fs' (located_leads false false p Hl ltac:(done)) Hp Hm). }
    apply iodoes_write; [by intros; apply Hul|by intros; apply Hul|done].
Qed.
Lemma stays_rename (from to : list Z) : iodoes (eq fs) (local_rename root a from to) (fun _ fs' => stays R fs fs').
Proof.
  unfold local_rename. eapply ioreads_then; [by apply reads_resolve_entry|done|]. intros p [Hp Hl]%jailed_R. eapply ioreads_then; [by apply reads_resolve_entry|done|]. intros p' [Hp' Hl']%jailed_R.
  assert (Hmv : forall fs', rename_at fs p p' = Some fs' -> stays R fs fs').
  { intros fs' Hm. by destruct (touch_rename R fs R_dir p p' fs' (located_leads false false p Hl ltac:(done)) (located_leads true false p' Hl' ltac:(done)) Hp Hp' Hm). }
  apply iodoes_write; [by intros; apply Hmv|by intros; apply Hmv|done].
Qed.
Lemma stays_copy (from to : list Z) : (forall q target, R `prefix_of` q -> fs !! q <> Some (PLink target)) -> iodoes (eq fs) (local_copy root a from to) (fun _ fs' => stays R fs fs').
Proof.
  intros Hk. unfold local_copy. eapply ioreads_then; [by apply reads_resolve_path|done|]. intros p _. eapply ioreads_then; [by apply reads_resolve_path|done|]. intros p' [[Hp' Hl']%jailed_R _].
  eapply iodoes_conseq; [apply (calm_copy R fs PATH_LEVELS p p' Hp')|intros fs' <-; by split|by intros r fs' _ [? _]].
  apply plain_entries. by eapply located_plain.
Qed.

Lemma perform_stays (op : LocalOp) : sturdy fs op -> iodoes (eq fs) (perform op) (kept_inside id).
Proof.
  destruct op; cbn [sturdy perform]; intros Hs.
  - apply kept_nothing, (stays_read _ (fun _ => True)). unfold local_list_directory. eapply ioreads_bind; [by apply reads_resolve_path|]. intros p _.
    eapply ioreads_bind; [apply reads_canonical_root|]. intros R' _. eapply ioreads_bind; [apply ioreads_sys|]. intros es _. by apply ioreads_ret.
  - apply kept_nothing, (stays_read _ (fun _ => True)). unfold local_metadata. eapply ioreads_bind; [by apply reads_resolve_path|]. intros p _.
    eapply ioreads_bind; [apply reads_canonical_root|]. intros R' _. eapply ioreads_bind; [apply ioreads_sys|]. intros node _.
    eapply (ioreads_bind _ _ _ (fun _ => True)); [apply iodoes_try; eapply iodoes_conseq; [apply ioreads_sys|done|by intros r fs' _ [-> _]]|]. intros r _. by apply ioreads_ret.
  - by apply kept_contents, reads_file_at.
  - unfold local_read_file_range. eapply (iodoes_conseq (eq fs) (eq fs) _ _ (fun r fs' => fs' = fs /\ forall x, r = Ok x -> from_below R fs x)); [|done|intros r fs' _ [-> Hr]; by split].
    eapply ioreads_bind; [by apply reads_resolve_path|]. intros p [[Hp Hl]%jailed_R Hb]. eapply ioreads_bind; [apply reads_contents; auto|].
    intros contents (q & mode & Hq & Hf). apply ioreads_ret. right. exists q, contents, mode. split_and!; [done..|]. by exists offset, len.
  - by apply kept_contents, reads_file_at.
  - by apply kept_nothing, stays_write.
  - by apply kept_nothing, stays_write.
  - apply kept_nothing, (stays_resolved path (fun _ p fs => make_dir_at fs p)). intros part p fs' Hp Hl _ Hm.
    by destruct (touch_mkdir R fs R_dir p fs' (located_leads true false p Hl ltac:(done)) Hp Hm).
  - apply kept_nothing, stays_delete.
  - apply kept_nothing, stays_rename.
  - apply kept_nothing, stays_copy. intros q target. by apply Hs.
  - apply kept_nothing, (stays_resolved path (fun _ p fs => chmod_at fs p mode)). intros part p fs' Hp Hl Hb Hm.
    exact (touch_chmod R fs fs_wf R_dir p mode fs' (located_leads false true p Hl (fun _ => Hb Hs)) Hp Hm).
Qed.
End operations.


(** ** On a small machine *)

Module LocalSample.
Definition srv_app : FsPath := [lit "srv"; lit "app"].
Definition where_ (a : N) : FsPath := srv_app.
Definition machine : Fs :=
  <[[lit "srv"] := PDir 493]> (<[srv_app := PDir 493]> (<[[lit "etc"] := PDir 493]> (<[[lit "etc"; lit "passwd"] := PFile (lit "root") 420]>
  (<[srv_app ++ [lit "broken"] := PLink (lit "/etc/new")]> (<[srv_app ++ [lit "out"] := PLink (lit "/etc/passwd")]> (<[srv_app ++ [lit "notes"] := PFile (lit "old") 420]>
  (<[srv_app ++ [lit "src"] := PDir 493]> (<[srv_app ++ [lit "src"; lit "f"] := PFile (lit "new") 420]>
  (<[srv_app ++ [lit "dst"] := PDir 493]> (<[srv_app ++ [lit "dst"; lit "f"] := PLink (lit "/etc/passwd")]> ∅)))))))))).
Definition world : PosixWorld := mkPosix machine ltac:(vm_compute; reflexivity) 0 (fun _ => None).

Definition beside : FsPath := [lit "srv"; lit "app\x"].
Definition machine' : Fs :=
  <[[lit "srv"] := PDir 493]> (<[srv_app := PDir 493]> (<[beside := PDir 493]> (<[beside ++ [lit "secret"] := PFile (lit "s") 384]> (<[srv_app ++ [lit "link"] := PLink (lit "../app\x/secret")]> ∅)))).
Definition world' : PosixWorld := mkPosix machine' ltac:(vm_compute; reflexivity) 0 (fun _ => None).
End LocalSample.

(** A link to a file that is not there yet is taken for a new file of the
    directory, and the write goes where it points. *)
Lemma a_broken_link_leads_out : (perform LocalSample.where_ 1 (LocalWrite (lit "broken") (lit "x")) LocalSample.world).1 = Ok [] /\
  pw_fs (perform LocalSample.where_ 1 (LocalWrite (lit "broken") (lit "x")) LocalSample.world).2 !! [lit "etc"; lit "new"] = Some (PFile (lit "x") 420).
Proof. split; vm_compute; reflexivity. Qed.
(** A link that stands where a copied file goes is followed. *)
Lemma a_copy_follows_links : pw_fs (perform LocalSample.where_ 1 (LocalCopy (lit "src") (lit "dst")) LocalSample.world).2 !! [lit "etc"; lit "passwd"] = Some (PFile (lit "new") 420).
Proof. vm_compute. reflexivity. Qed.
(** A file copied onto itself is emptied before it is read. *)
Lemma a_copy_onto_itself_empties : (perform LocalSample.where_ 1 (LocalCopy (lit "notes") (lit "notes")) LocalSample.world).1 = Ok [] /\
  pw_fs (perform LocalSample.where_ 1 (LocalCopy (lit "notes") (lit "notes")) LocalSample.world).2 !! (LocalSample.srv_app ++ [lit "notes"]) = Some (PFile [] 420).
Proof. split; vm_compute; reflexivity. Qed.
(** A sibling whose name has a backslash after the directory's is taken for a part of it. *)
Lemma a_backslash_leads_out : (perform LocalSample.where_ 1 (LocalRead (lit "link")) LocalSample.world').1 = Ok (lit "s").
Proof. vm_compute. reflexivity. Qed.

Definition plain_fsb (fs : Fs) : bool := forallb (fun entry => forallb (fun s => entry_name s && negb (contains_char 92 s)) entry.1) (map_to_list fs).
Lemma plain_fsb_ok (fs : Fs) : plain_fsb fs = true -> plain_fs fs.
Proof.
  unfold plain_fsb. rewrite forallb_forall. intros Ht p node Hp. apply elem_of_map_to_list, list_elem_of_In, Ht in Hp. cbn [fst] in Hp. rewrite forallb_forall in Hp.
  apply Forall_forall. intros s Hs. apply list_elem_of_In, Hp, andb_true_iff in Hs as [HA HB]. split; [done|by apply negb_true_iff].
Qed.

