(* ===== verification/LocalTree.v ===== *)
(** * LocalTree: the files of this machine are a tree

    The provider of [files/local.rs] keeps the contract [TreeLaws] that the
    theorems on archives and backups are proved against: in a directory without
    links its operations do to the tree of names what they promise. *)

From S2P Require Import Prelude Text Shell Sandbox Firewall Desktop Archive FileTree Posix LocalFiles LocalJail.

#[local] Open Scope Z_scope.
#[local] Open Scope posix_scope.

(** ** The tree below a directory *)

Definition node_of (node : PosixNode) : FileNode := match node with PFile contents _ => FFile contents | PDir _ => FDir | PLink _ => FLink end.
Definition part_below (R : FsPath) (entry : FsPath * PosixNode) : option (FsPath * FileNode) :=
  if bool_decide (R `prefix_of` entry.1) && negb (bool_decide (R = entry.1)) then Some (drop (length R) entry.1, node_of entry.2) else None.
Definition subtree (fs : Fs) (R : FsPath) : Tree := list_to_map (omap (part_below R) (map_to_list fs)).

Lemma in_subtree (fs : Fs) (R x : FsPath) (node : FileNode) : (x, node) ∈ omap (part_below R) (map_to_list fs) <-> x <> [] /\ node_of <$> fs !! (R ++ x) = Some node.
Proof.
  rewrite list_elem_of_omap. split.
  - intros ([p v] & Hin%elem_of_map_to_list & Hp). unfold part_below in Hp. cbn [fst snd] in Hp. destruct (decide (R `prefix_of` p)) as [[y ->]|]; [|by rewrite bool_decide_false in Hp].
    rewrite (bool_decide_true (R `prefix_of` _)) in Hp by (by apply prefix_app_r). destruct (decide (R = R ++ y)) as [E|E]; [by rewrite bool_decide_true in Hp|].
    rewrite bool_decide_false in Hp by done. cbn in Hp. rewrite drop_prefix in Hp. injection Hp as <- <-. rewrite Hin. split; [|done]. intros ->. by rewrite app_nil_r in E.
  - intros [Hne (v & Hv & ->)%fmap_Some]. exists (R ++ x, v). split; [by apply elem_of_map_to_list|]. unfold part_below. cbn [fst snd].
    rewrite bool_decide_true by (by apply prefix_app_r). rewrite bool_decide_false; [cbn; by rewrite drop_prefix|]. intros E. rewrite <- (app_nil_r R) in E at 1. by apply app_inv_head in E.
Qed.
Lemma lookup_subtree (fs : Fs) (R x : FsPath) : subtree fs R !! x = if bool_decide (x = []) then None else node_of <$> fs !! (R ++ x).
Proof.
  apply option_eq. intros node. unfold subtree. split.
  - intros [Hne Hx]%elem_of_list_to_map_2%in_subtree. by rewrite bool_decide_false.
  - destruct (decide (x = [])) as [->|Hne]; [by rewrite bool_decide_true|]. rewrite bool_decide_false by done. intros Hx. apply elem_of_list_to_map'.
    + intros node' _ [_ Hx']%in_subtree. rewrite Hx in Hx'. by injection Hx'.
    + by apply in_subtree.
Qed.
Lemma lookup_subtree_ne (fs : Fs) (R x : FsPath) : x <> [] -> subtree fs R !! x = node_of <$> fs !! (R ++ x).
Proof. intros Hne. by rewrite lookup_subtree, bool_decide_false. Qed.
Lemma node_at_subtree (fs : Fs) (R x : FsPath) : is_dir_node (fs_node fs R) = true -> node_at (subtree fs R) x = node_of <$> fs_node fs (R ++ x).
Proof.
  intros Hd. destruct x as [|n x]; cbn [node_at].
  - rewrite app_nil_r. destruct (fs_node fs R) as [[| |]|]; try done.
  - rewrite lookup_subtree_ne, fs_node_cons by (done || by destruct R). done.
Qed.
Lemma subtree_wf (fs : Fs) (R : FsPath) : wf_fs fs -> is_dir_node (fs_node fs R) = true -> wf_tree (subtree fs R).
Proof.
  intros [_ Hw] Hd. split; [by rewrite lookup_subtree|]. intros ps n node Hn. rewrite lookup_subtree_ne in Hn by (by destruct ps). apply fmap_Some in Hn as (v & Hv & _).
  rewrite app_assoc in Hv. apply Hw in Hv as [_ Hv]. rewrite node_at_subtree by done. destruct (fs_node fs (R ++ ps)) as [[| |]|]; try done.
Qed.
Lemma subtree_links (fs : Fs) (R : FsPath) : wf_fs fs -> is_dir_node (fs_node fs R) = true -> link_free (subtree fs R) -> forall q target, R `prefix_of` q -> fs !! q <> Some (PLink target).
Proof.
  intros [Hroot _] Hd Hl q target [x ->] Hq. destruct x as [|n x].
  - rewrite app_nil_r in Hq. destruct R; [congruence|]. rewrite fs_node_cons, Hq in Hd by done. done.
  - apply (Hl (n :: x)). by rewrite lookup_subtree_ne, Hq.
Qed.

Lemma app_ne_self (R x : FsPath) : x <> [] -> R ++ x <> R.
Proof. intros Hne E. rewrite <- (app_nil_r R) in E at 2. by apply app_inv_head in E. Qed.
Lemma app_eq (R x y : FsPath) : R ++ x = R ++ y <-> x = y.
Proof. split; [apply app_inv_head|by intros ->]. Qed.
Lemma subtree_insert (fs : Fs) (R x : FsPath) (node : PosixNode) : x <> [] -> subtree (<[R ++ x := node]> fs) R = <[x := node_of node]> (subtree fs R).
Proof.
  intros Hne. apply map_eq. intros y. rewrite lookup_subtree. destruct (decide (x = y)) as [->|Hd].
  - by rewrite bool_decide_false, !lookup_insert_eq.
  - rewrite !lookup_insert_ne by (try rewrite app_eq; done). by rewrite lookup_subtree.
Qed.

(** ** The operations *)

(** The files of an application; a working directory that is not a directory
    under its own name counts as a link. *)
Definition local_files (root : N -> FsPath) (a : N) (w : PosixWorld) : Tree :=
  if is_dir_node (fs_node (pw_fs w) (root a)) then subtree (pw_fs w) (root a) else {[ [DOT] := FLink ]}.

Section laws.
Context (root : N -> FsPath) (a : N) (fs : Fs).
Notation R := (root a).
Notation t := (subtree fs R).
Hypothesis fs_wf : wf_fs fs.
Hypothesis R_dir : is_dir_node (fs_node fs R) = true.
Hypothesis t_links : link_free t.

Lemma named_leads (m f : bool) (ps : FsPath) : Forall (fun n => entry_name n = true) ps -> leads fs m f (R ++ ps).
Proof.
  intros Hn q Hq. rewrite walk_after in Hq by done. eapply straight in Hq; [exact Hq|done| |done|reflexivity|done]. by apply subtree_links.
Qed.
Lemma root_real : realpath fs R = Some R.
Proof. unfold realpath. pose proof (walk_after false true MAX_LINKS fs R [] fs_wf R_dir) as Ha. by rewrite app_nil_r, walk_nil in Ha. Qed.
Lemma at_path_names (path : list Z) (ps : FsPath) : at_path path ps -> Forall (fun n => entry_name n = true) ps /\ sanitize_relative_path path = Ok (text ps) /\ join_path R (text ps) = R ++ ps.
Proof.
  unfold at_path. intros Hp. assert (Hs : sanitize_relative_path path = Ok (text ps)) by (unfold sanitize_relative_path; by rewrite Hp).
  assert (Hpp : ps = pieces_of path).
  { rewrite sanitize_loop_spec in Hp. fold (pieces_of path) in Hp. destruct (find_first _ _); [done|]. by injection Hp. }
  apply sanitize_spec in Hs as Hall. destruct Hall as [_ Hall].
  assert (Hpl : Forall plain ps).
  { apply Forall_forall. intros s Hin. destruct (pieces_entry path s Hall) as [He Hsep]; [by rewrite <- Hpp|]. split; [done|].
    unfold contains_char. rewrite <- not_true_iff_false, existsb_elem_of in *. intros (c & Hc & Heq%Z.eqb_eq). apply Hsep. exists c. split; [done|]. subst c. reflexivity. }
  split_and!; [by apply plain_entries|done|]. unfold join_path. destruct ps as [|n ps]; [by rewrite app_nil_r|]. by rewrite is_empty_text, split_text by done.
Qed.

Lemma reads_at_root : ioreads fs (canonical_root root a) (fun p => p = R).
Proof. eapply iodoes_conseq; [apply reads_canonical_root|done|]. intros r fs' _ [-> Hr]. split; [done|]. intros p Hp. specialize (Hr p Hp). cbn beta in Hr. rewrite root_real in Hr. by injection Hr. Qed.
Lemma reads_real (ps : FsPath) (e : AppError) : Forall (fun n => entry_name n = true) ps -> ioreads fs (canonicalize (R ++ ps) e) (fun p => p = R ++ ps).
Proof.
  intros Hn. eapply iodoes_conseq; [apply ioreads_sys|done|]. intros r fs' _ [-> Hr]. split; [done|]. intros p Hp. exact (named_leads false true ps Hn p (Hr p Hp)).
Qed.
Lemma reads_entry_free (ps : FsPath) (n : list Z) : Forall (fun n => entry_name n = true) (ps ++ [n]) -> ioreads fs (canonical_entry (R ++ ps ++ [n])) (fun p => p = R ++ ps ++ [n]).
Proof.
  intros [Hps Hn]%Forall_app. rewrite Forall_singleton in Hn. unfold canonical_entry, file_name. rewrite app_assoc, last_snoc, removelast_last.
  assert (Hd : str_eqb n DOTDOT = false) by (apply entry_real in Hn; unfold real_name in Hn; rewrite negb_true_iff in Hn; by apply orb_false_iff in Hn as [_ ?]).
  rewrite Hd. eapply ioreads_bind; [by apply reads_real|]. intros d ->. by apply ioreads_ret.
Qed.
Lemma reads_free (path : list Z) (ps : FsPath) : at_path path ps -> ioreads fs (resolve_path root a path) (fun p => p = R ++ ps).
Proof.
  intros Hp. destruct (at_path_names path ps Hp) as (Hn & Hs & Hj). unfold resolve_path. rewrite Hs, Hj. eapply ioreads_bind; [apply reads_at_root|]. intros R' ->.
  apply (ioreads_bind _ _ _ (fun p => p = R ++ ps)); [|intros p ->; destruct (negb _); [apply ioreads_throw|by apply ioreads_ret]].
  unfold canonicalize_existing_or_parent. eapply ioreads_bind; [exact (ioreads_pure fs (fun fs => bool_decide (is_Some (stat fs (R ++ ps)))))|]. intros there ->.
  destruct (bool_decide _) eqn:Ee; [by apply reads_real|]. destruct ps as [|n ps _] using rev_ind; [|by apply reads_entry_free].
  exfalso. apply bool_decide_eq_false in Ee. apply Ee. rewrite app_nil_r. unfold stat. rewrite root_real. cbn. by apply dir_is_some.
Qed.
Lemma reads_entry_path (path : list Z) (ps : FsPath) : at_path path ps -> ioreads fs (resolve_entry root a path) (fun p => p = R ++ ps).
Proof.
  intros Hp. destruct (at_path_names path ps Hp) as (Hn & Hs & Hj). unfold resolve_entry. rewrite Hs. destruct ps as [|n ps _] using rev_ind.
  - apply (reads_free [] []). reflexivity.
  - destruct (is_empty (text (ps ++ [n]))) eqn:E; [exfalso; destruct (text (ps ++ [n])) eqn:Et; [|done]; unfold join_path in Hj; cbn in Hj; symmetry in Hj; by apply app_ne_self in Hj; [|destruct ps]|].
    rewrite Hj. eapply ioreads_bind; [by apply reads_entry_free|]. intros p ->. eapply ioreads_bind; [apply reads_at_root|]. intros R' ->. destruct (negb _); [apply ioreads_throw|by apply ioreads_ret].
Qed.

(** *** Looking *)

Lemma looks_list (path : list Z) (ps : FsPath) : at_path path ps -> ioreads fs (local_list_directory root a path) (listing t ps).
Proof.
  intros Hp. destruct (at_path_names path ps Hp) as (Hn & _ & _). unfold local_list_directory. eapply ioreads_bind; [by apply reads_free|]. intros p ->.
  eapply ioreads_bind; [apply reads_at_root|]. intros R' ->. eapply ioreads_bind; [apply ioreads_sys|]. intros entries Hent. cbn beta in Hent. apply ioreads_ret.
  unfold read_dir_at, realpath in Hent. destruct (walk _ _ _ _ _ _) as [q|] eqn:E; cbn [mbind option_bind] in Hent; [|done]. apply named_leads in E as ->; [|done].
  destruct (is_dir_node (fs_node fs (R ++ ps))) eqn:Ed; [|done]. injection Hent as <-.
  assert (Hlook : forall n, t !! (ps ++ [n]) = node_of <$> fs !! ((R ++ ps) ++ [n])) by (intros n; rewrite lookup_subtree_ne, app_assoc by (by destruct ps); done). split.
  - rewrite node_at_subtree by done. by destruct (fs_node fs (R ++ ps)) as [[| |]|].
  - intros n. rewrite Hlook, fmap_is_Some, <- list_fmap_compose, list_elem_of_fmap. split.
    + intros ([n' node] & -> & Hin%in_read_dir). cbn. by rewrite Hin.
    + intros [node Hnode]. exists (n, node). split; [done|]. by apply in_read_dir.
  - intros e node ([n node'] & -> & Hin%in_read_dir)%list_elem_of_fmap. cbn. rewrite Hlook, Hin. intros [= <-]. by destruct node'.
Qed.
Lemma looks_metadata (path : list Z) (ps : FsPath) : at_path path ps -> ioreads fs (local_metadata root a path) (described t ps).
Proof.
  intros Hp. destruct (at_path_names path ps Hp) as (Hn & _ & _). unfold local_metadata. eapply ioreads_bind; [by apply reads_free|]. intros p ->.
  eapply ioreads_bind; [apply reads_at_root|]. intros R' ->. eapply ioreads_bind; [apply ioreads_sys|]. intros node Hnode. cbn beta in Hnode.
  assert (Hl : forall f v, (q ← walk false f MAX_LINKS fs [] (R ++ ps); fs_node fs q) = Some v -> fs_node fs (R ++ ps) = Some v).
  { intros f v Hv. destruct (walk _ _ _ _ _ _) as [q|] eqn:E; cbn [mbind option_bind] in Hv; [|done]. by apply named_leads in E as ->. }
  apply Hl in Hnode. eapply (ioreads_bind _ _ _ (fun r => forall v, r = Ok v -> v = node)).
  { apply iodoes_try. eapply iodoes_conseq; [apply ioreads_sys|done|]. intros r fs' _ [-> Hr]. split; [done|]. intros x [= <-] v ->. specialize (Hr v eq_refl). cbn beta in Hr. apply Hl in Hr. congruence. }
  intros r Hr. apply ioreads_ret. replace (match r with Ok v => v | Err _ => node end) with node by (destruct r; [symmetry; by apply Hr|done]).
  exists (node_of node). rewrite node_at_subtree, Hnode by done. cbn. by destruct node.
Qed.
Lemma read_at_tree (ps : FsPath) (bytes : list Z) : Forall (fun n => entry_name n = true) ps -> read_at fs (R ++ ps) = Some bytes -> t !! ps = Some (FFile bytes).
Proof.
  intros Hn Hr. unfold read_at, realpath in Hr.
  destruct (walk _ _ _ _ _ _) as [q|] eqn:E; cbn [mbind option_bind] in Hr; [|done]. apply named_leads in E as ->; [|done]. destruct (fs !! (R ++ ps)) as [[contents mode| |]|] eqn:Ef; try done.
  injection Hr as ->. destruct ps as [|n ps]; [|by rewrite lookup_subtree_ne, Ef]. exfalso. rewrite app_nil_r in Ef. destruct R as [|c R'] eqn:ER; [by destruct fs_wf; congruence|].
  rewrite fs_node_cons, Ef in R_dir by done. done.
Qed.
Lemma looks_read (path : list Z) (ps : FsPath) (e : AppError) : at_path path ps ->
  ioreads fs (resolved <- resolve_path root a path ;; sys_read (fun fs => read_at fs resolved) e) (fun bytes => t !! ps = Some (FFile bytes)).
Proof.
  intros Hp. destruct (at_path_names path ps Hp) as (Hn & _ & _). eapply ioreads_bind; [by apply reads_free|]. intros p ->. eapply iodoes_conseq; [apply ioreads_sys|done|].
  intros r fs' _ [-> Hr]. split; [done|]. intros bytes Hb. specialize (Hr bytes Hb). cbn beta in Hr. by apply read_at_tree.
Qed.

(** *** Changing *)

Definition tree_after (fs' : Fs) : Prop := is_dir_node (fs_node fs' R) = true.

Lemma write_at_tree (ps : FsPath) (contents : list Z) (fs' : Fs) : Forall (fun n => entry_name n = true) ps -> write_at fs (R ++ ps) contents = Some fs' ->
  tree_after fs' /\ ps <> [] /\ t !! ps <> Some FDir /\ subtree fs' R = <[ps := FFile contents]> t.
Proof.
  intros Hn Hm. destruct (touch_write R fs R_dir _ _ _ (named_leads true true ps Hn) ltac:(by apply prefix_app_r) Hm) as ([_ Hd] & mode & ->).
  assert (Hne : ps <> []).
  { intros ->. rewrite app_nil_r in Hd. destruct R; [|by rewrite fs_node_cons, lookup_insert_eq in Hd]. cbn in Hm. unfold write_at, open_at in Hm. by rewrite walk_nil in Hm. }
  split_and!; [done..| |by rewrite subtree_insert]. rewrite lookup_subtree_ne by done. unfold write_at, open_at in Hm.
  destruct (walk _ _ _ _ _ _) as [q|] eqn:E; cbn [mbind option_bind] in Hm; [|done]. apply named_leads in E as ->; [|done]. destruct (R ++ ps); [done|]. by destruct (fs !! _) as [[| |]|].
Qed.
Lemma changes_write (path : list Z) (ps : FsPath) (bytes : list Z) : at_path path ps ->
  iodoes (eq fs) (resolved <- resolve_path root a path ;; write_to resolved bytes)
    (fun r fs' => tree_after fs' /\ match r with
      | Ok _ => ps <> [] /\ t !! ps <> Some FDir /\ subtree fs' R = <[ps := FFile bytes]> t
      | Err _ => subtree fs' R = t \/ exists part, subtree fs' R = <[ps := FFile part]> t
      end).
Proof.
  intros Hp. destruct (at_path_names path ps Hp) as (Hn & _ & _). eapply ioreads_then; [by apply reads_free|intros e; split; [done|by left]|]. intros p ->.
  unfold write_to. apply iodoes_write.
  - intros fs' Hm. apply write_at_tree in Hm as (HA & HB & HC & HD); done.
  - intros n fs' Hm. apply write_at_tree in Hm as (HA & HB & HC & HD); [|done]. split; [done|]. right. by eexists.
  - split; [done|by left].
Qed.
Lemma changes_mkdir (path : list Z) (ps : FsPath) : at_path path ps ->
  iodoes (eq fs) (local_create_directory root a path)
    (fun r fs' => tree_after fs' /\ (subtree fs' R = t /\ is_ok r = false \/ ps <> [] /\ t !! ps = None /\ subtree fs' R = <[ps := FDir]> t)).
Proof.
  intros Hp. destruct (at_path_names path ps Hp) as (Hn & _ & _). eapply ioreads_then; [by apply reads_free|intros e; split; [done|by left]|]. intros p ->.
  assert (Hw : forall fs', make_dir_at fs (R ++ ps) = Some fs' -> tree_after fs' /\ ps <> [] /\ t !! ps = None /\ subtree fs' R = <[ps := FDir]> t).
  { intros fs' Hm. destruct (touch_mkdir R fs R_dir _ _ (named_leads true false ps Hn) ltac:(by apply prefix_app_r) Hm) as ([_ Hd] & Hnone & Hpne & mode & ->).
    assert (Hne : ps <> []) by (intros ->; rewrite app_nil_r in *; rewrite fs_node_cons, Hnone in R_dir; done).
    split_and!; [done..|by rewrite lookup_subtree_ne, Hnone|by rewrite subtree_insert]. }
  apply iodoes_write; [intros fs' Hm|intros n fs' Hm|]; [apply Hw in Hm as (HA & HB & HC & HD); (split; [done|by right])..|split; [done|by left]].
Qed.
Lemma changes_delete (path : list Z) (ps : FsPath) : at_path path ps ->
  iodoes (eq fs) (local_delete root a path)
    (fun r fs' => tree_after fs' /\ subtree fs' R ⊆ t /\ (forall q, ~ ps `prefix_of` q -> subtree fs' R !! q = t !! q) /\ (is_ok r = true -> forall q, ps `prefix_of` q -> subtree fs' R !! q = None)).
Proof.
  intros Hp. destruct (at_path_names path ps Hp) as (Hn & _ & _). unfold local_delete. eapply ioreads_then; [by apply reads_entry_path|done|]. intros p ->.
  eapply ioreads_then; [apply reads_at_root|done|]. intros R' ->. destruct (str_eqb _ _) eqn:Eq; [apply iodoes_throw; by intros ? <-|].
  assert (Hne : ps <> []) by (intros ->; rewrite app_nil_r in Eq; unfold str_eqb in Eq; by apply bool_decide_eq_false in Eq).
  assert (Hgo : forall (ok : bool) fs', is_dir_node (fs_node fs' R) = true -> (forall q, ~ (R ++ ps) `prefix_of` q -> fs' !! q = fs !! q) -> (forall q, fs' !! q = None \/ fs' !! q = fs !! q) ->
    (ok = true -> forall q, (R ++ ps) `prefix_of` q -> fs' !! q = None) ->
    tree_after fs' /\ subtree fs' R ⊆ t /\ (forall q, ~ ps `prefix_of` q -> subtree fs' R !! q = t !! q) /\ (ok = true -> forall q, ps `prefix_of` q -> subtree fs' R !! q = None)).
  { intros ok fs' Hd Hout Hsub Hall. split; [done|]. split_and!.
    - apply map_subseteq_spec. intros q node. rewrite !lookup_subtree. case_bool_decide; [done|]. by destruct (Hsub (R ++ q)) as [-> | ->].
    - intros q Hq. rewrite !lookup_subtree. case_bool_decide; [done|]. rewrite Hout; [done|]. intros [x Hx]. rewrite <- app_assoc in Hx. apply app_inv_head in Hx as ->. apply Hq. by apply prefix_app_r.
    - intros Hok q [x ->]. rewrite lookup_subtree. case_bool_decide; [done|]. rewrite Hall; [done|done|]. exists x. by rewrite app_assoc. }
  eapply ioreads_then; [apply ioreads_sys|done|]. intros node _. destruct (is_dir_node (Some node)).
  - assert (Hrm : forall part fs', remove_tree_at fs (R ++ ps) part = Some fs' -> is_dir_node (fs_node fs' R) = true /\ (forall q, ~ (R ++ ps) `prefix_of` q -> fs' !! q = fs !! q) /\
      (forall q, fs' !! q = None \/ fs' !! q = fs !! q) /\ (part = None -> forall q, (R ++ ps) `prefix_of` q -> fs' !! q = None)).
    { intros part fs' Hm. destruct (touch_remove R fs R_dir _ part fs' (named_leads false false ps Hn) ltac:(by apply prefix_app_r) ltac:(intros E; symmetry in E; by apply app_ne_self in E) Hm) as ([_ Hd] & Hsub & Hout & Hall).
      split_and!; [done..| |done]. intros q. destruct (fs' !! q) as [v|] eqn:E; [|by left]. right. symmetry. by eapply lookup_weaken in E. }
    apply iodoes_write; [intros fs' Hm|intros n fs' Hm|]; [apply Hrm in Hm as (HA & HB & HC & HD); apply (Hgo true); auto|apply Hrm in Hm as (HA & HB & HC & HD); apply (Hgo false); done|done].
  - assert (Hul : forall fs', unlink_at fs (R ++ ps) = Some fs' -> is_dir_node (fs_node fs' R) = true /\ (forall q, ~ (R ++ ps) `prefix_of` q -> fs' !! q = fs !! q) /\
      (forall q, fs' !! q = None \/ fs' !! q = fs !! q) /\ (forall q, (R ++ ps) `prefix_of` q -> fs' !! q = None)).
    { intros fs' Hm. destruct (touch_unlink R fs fs_wf R_dir _ fs' (named_leads false false ps Hn) ltac:(by apply prefix_app_r) Hm) as ([_ Hd] & -> & Hnd). split_and!; [done|..].
      - intros q Hq. apply lookup_delete_ne. intros <-. by apply Hq.
      - intros q. destruct (decide (R ++ ps = q)) as [<-|Hd']; [left; apply lookup_delete_eq|right; by apply lookup_delete_ne].
      - intros q [x ->]. destruct x as [|n x]; [rewrite app_nil_r; apply lookup_delete_eq|]. destruct (delete (R ++ ps) fs !! ((R ++ ps) ++ n :: x)) eqn:E; [|done]. exfalso.
        apply lookup_delete_Some in E as [_ E]. assert (Hdir : is_dir_node (fs_node fs (R ++ ps)) = true).
        { eapply (dir_above fs (R ++ ps) (n :: x)); [done|rewrite fs_node_cons, E by (by destruct R, ps); by eexists|done]. }
        rewrite fs_node_cons in Hdir by (by destruct R, ps). congruence. }
    apply iodoes_write; [intros fs' Hm|intros n fs' Hm|done]; apply Hul in Hm as (HA & HB & HC & HD); [by apply (Hgo true)|by apply (Hgo false)].
Qed.
End laws.

(** ** The contract *)

Lemma link_file_not_free (root : N -> FsPath) (a : N) (w : PosixWorld) : link_free (local_files root a w) ->
  is_dir_node (fs_node (pw_fs w) (root a)) = true /\ local_files root a w = subtree (pw_fs w) (root a) /\ link_free (subtree (pw_fs w) (root a)).
Proof.
  unfold local_files. destruct (is_dir_node _) eqn:Ed; [done|]. intros Hl. exfalso. by apply (Hl [DOT]), lookup_singleton_eq.
Qed.
Lemma files_after (root : N -> FsPath) (a : N) (w : PosixWorld) : is_dir_node (fs_node (pw_fs w) (root a)) = true -> local_files root a w = subtree (pw_fs w) (root a).
Proof. unfold local_files. by intros ->. Qed.
Lemma local_files_wf (root : N -> FsPath) (a : N) (w : PosixWorld) : wf_tree (local_files root a w).
Proof.
  unfold local_files. destruct (is_dir_node _) eqn:Ed; [apply subtree_wf; [apply wf_fsb_ok, pw_wf|done]|]. split; [by apply lookup_singleton_ne|].
  intros ps n node [E _]%lookup_singleton_Some. destruct ps as [|m ps]; [done|]. by destruct ps.
Qed.
(** An operation that looks, on a machine. *)
Lemma looks_on {A : Type} (root : N -> FsPath) (a : N) (w : PosixWorld) (m : IO A) (Q : A -> Prop) : ioreads (pw_fs w) m Q ->
  local_files root a (m w).2 = local_files root a w /\ forall x, (m w).1 = Ok x -> Q x.
Proof. intros Hm. destruct (Hm w eq_refl) as [Hf Hr]. split; [|done]. unfold local_files. by rewrite Hf. Qed.

Lemma local_tree_laws (root : N -> FsPath) : @TreeLaws PosixWorld (local_provider root) (local_files root).
Proof.
  split; cbn [fp_list_directory fp_metadata fp_read_file fp_write_file fp_create_directory fp_delete fp_download_file fp_upload_file fp_scratch local_provider].
  - apply local_files_wf.
  - done.
  - intros a path ps w Hp (Hd & -> & Hl)%link_file_not_free. rewrite <- (files_after root a w Hd) at 1. apply looks_on, looks_list; auto using wf_fsb_ok, pw_wf.
  - intros a path ps w Hp (Hd & -> & Hl)%link_file_not_free. rewrite <- (files_after root a w Hd) at 1. apply looks_on, looks_metadata; auto using wf_fsb_ok, pw_wf.
  - intros a path ps w Hp (Hd & -> & Hl)%link_file_not_free. rewrite <- (files_after root a w Hd) at 1. apply looks_on, looks_read; auto using wf_fsb_ok, pw_wf.
  - intros a path ps w Hp (Hd & -> & Hl)%link_file_not_free. rewrite <- (files_after root a w Hd) at 1. apply looks_on, looks_read; auto using wf_fsb_ok, pw_wf.
  - intros a path ps bytes w Hp (Hd & -> & Hl)%link_file_not_free.
    destruct (changes_write root a (pw_fs w) (wf_fsb_ok _ (pw_wf w)) Hd Hl path ps bytes Hp w eq_refl) as [Hd' Hr]. unfold local_write_file. rewrite (files_after root a _ Hd'). by destruct (_ w).1.
  - intros a path ps bytes w Hp (Hd & -> & Hl)%link_file_not_free.
    destruct (changes_write root a (pw_fs w) (wf_fsb_ok _ (pw_wf w)) Hd Hl path ps bytes Hp w eq_refl) as [Hd' Hr]. unfold local_upload_file. rewrite (files_after root a _ Hd'). by destruct (_ w).1.
  - intros a path ps w Hp (Hd & -> & Hl)%link_file_not_free.
    pose proof (changes_mkdir root a (pw_fs w) (wf_fsb_ok _ (pw_wf w)) Hd Hl path ps Hp w eq_refl) as Hr. destruct (local_create_directory root a path w) as [r w']. destruct Hr as [Hd' Hr]. by rewrite (files_after root a w' Hd').
  - intros a path ps w Hp (Hd & -> & Hl)%link_file_not_free.
    pose proof (changes_delete root a (pw_fs w) (wf_fsb_ok _ (pw_wf w)) Hd Hl path ps Hp w eq_refl) as Hr. destruct (local_delete root a path w) as [r w']. destruct Hr as [Hd' Hr]. by rewrite (files_after root a w' Hd').
Qed.
