(* ===== verification/UrlFetch.v ===== *)
(** * UrlFetch: downloading from a link

    [files/url_fetch.rs]: which links are accepted, the function the Node runs,
    and the name a server suggests for what it sends.  Parsing a URL is the crate
    [url] and the network is [reqwest]: the classes [UrlCrate] and [HttpClient].
    Addresses are parsed as [std::net] does; an IPv4 address is a number of 32
    bits and an IPv6 address its eight segments. *)

From S2P Require Import Prelude Text Shell Sandbox Validators Firewall FileTree.

#[local] Open Scope Z_scope.

(** ** What is not in the repository *)

Record Url : Type := mkUrl { url_scheme : list Z; url_username : list Z; url_password : option (list Z); url_host : option (list Z); url_text : list Z }.
Class UrlCrate : Type := { url_parse : list Z -> option Url }.

(** A response: the status, the header when it is readable text, and the path it came from. *)
Record Response : Type := mkResponse { rs_success : bool; rs_disposition : option (list Z); rs_segments : option (list (list Z)) }.
Class HttpClient (World : Type) : Type := {
  http_client : World -> result AppError unit * World;
  http_head : list Z -> World -> result AppError Response * World;
  http_get : list Z -> World -> result AppError Response * World;
}.

(** ** Addresses *)

Inductive IpAddr : Type := V4 (n : Z) | V6 (segments : list Z).

(** [char::to_digit(16)]. *)
Definition to_digit (c : Z) : option Z :=
  if is_ascii_digit c then Some (c - 48) else if in_range 97 102 c then Some (c - 87) else if in_range 65 70 c then Some (c - 55) else None.
Definition group_value (s : list Z) : Z := fold_left (fun acc c => acc * 16 + default 0 (to_digit c)) s 0.
Fixpoint read_groups (pieces : list (list Z)) : option (list Z) :=
  match pieces with
  | [] => Some []
  | [last_] => if ipv6_group last_ then Some [group_value last_] else n ← parse_ipv4 last_; Some [n / 65536; n mod 65536]
  | g :: pieces => if ipv6_group g then rest ← read_groups pieces; Some (group_value g :: rest) else None
  end.
Definition read_side (s : list Z) : option (list Z) := if is_empty s then Some [] else read_groups (split_on (Z.eqb 58) s).
(** [Ipv6Addr::from_str]. *)
Definition parse_ipv6 (s : list Z) : option (list Z) :=
  match split_double_colon s with
  | None => segments ← read_side s; if (length segments =? 8)%nat then Some segments else None
  | Some (front, back) =>
      if contains_char 46 front then None
      else
        head ← read_side front; tail ← read_side back;
        if (length head + length tail <=? 7)%nat then Some (head ++ repeat 0 (8 - length head - length tail) ++ tail) else None
  end.
(** [IpAddr::from_str]. *)
Definition parse_ip (s : list Z) : option IpAddr := match parse_ipv4 s with Some n => Some (V4 n) | None => V6 <$> parse_ipv6 s end.

Definition octet (i n : Z) : Z := n / 2 ^ (8 * (3 - i)) mod 256.
Definition is_internal_v4 (n : Z) : bool :=
  (octet 0 n =? 127)
  || ((octet 0 n =? 10) || ((octet 0 n =? 172) && (16 <=? octet 1 n) && (octet 1 n <=? 31)) || ((octet 0 n =? 192) && (octet 1 n =? 168)))
  || ((octet 0 n =? 169) && (octet 1 n =? 254))
  || (n =? 0) || (n =? 2 ^ 32 - 1) || (octet 0 n =? 0).
(** [Ipv6Addr::to_ipv4_mapped]. *)
Definition to_ipv4_mapped (segments : list Z) : option Z :=
  match segments with
  | [a; b; c; d; e; f; g; h] => if (a =? 0) && (b =? 0) && (c =? 0) && (d =? 0) && (e =? 0) && (f =? 65535) then Some (g * 65536 + h) else None
  | _ => None
  end.
Definition is_internal (address : IpAddr) : bool :=
  match address with
  | V4 n => is_internal_v4 n
  | V6 segments =>
      let first := hd 0 segments in
      bool_decide (segments = [0; 0; 0; 0; 0; 0; 0; 1])
      || bool_decide (segments = repeat 0 8)
      || (Z.land first 65024 =? 64512)
      || (Z.land first 65472 =? 65152)
      || match to_ipv4_mapped segments with Some n => is_internal_v4 n | None => false end
  end.

(** ** Links *)

Definition ends_with (suffix s : list Z) : bool := starts_with (rev suffix) (rev s).
Definition bad_link (what : list Z) (text : string) : AppError := InvalidInput (mkInvalid what (Other (lit text))).
Definition bare_host (host : list Z) : list Z := trim_end_matches (Z.eqb 93) (trim_start_matches (Z.eqb 91) host).
Definition is_local_name (host : list Z) : bool :=
  let domain := map to_ascii_lowercase (trim_end_matches (Z.eqb 46) host) in
  str_eqb domain (lit "localhost") || ends_with (lit ".localhost") domain.
Definition host_internal (host : list Z) : bool :=
  match parse_ip (bare_host host) with Some address => is_internal address | None => is_local_name host end.
Definition validate_fetch_url `{UrlCrate} (input : list Z) : result AppError (list Z) :=
  let text := trim input in
  if is_empty text then Err (bad_link [] "paste the link to download")
  else if 2048 <? byte_len text then Err (bad_link [] "that link is too long")
  else
    match url_parse text with
    | None => Err (bad_link text "isn't a valid link")
    | Some url =>
        if negb (str_eqb url.(url_scheme) (lit "http") || str_eqb url.(url_scheme) (lit "https")) then Err (bad_link [] "only http and https links can be downloaded")
        else if negb (is_empty url.(url_username)) || bool_decide (is_Some url.(url_password)) then Err (bad_link [] "a link with a login in it can't be used")
        else
          match url.(url_host) with
          | None | Some [] => Err (bad_link [] "the link has no address")
          | Some host => if host_internal host then Err (bad_link [] "links to this Node itself or its private network can't be downloaded") else Ok url.(url_text)
          end
    end.

(** ** On the Node *)

Definition MAX_FETCH_BYTES : Z := 2 * 1024 * 1024 * 1024.
Definition quoted (s : string) : list Z := [34] ++ lit s ++ [34].
Definition fetch_function : list Z :=
  lit "fetch_to() {" ++ [10]
  ++ lit "    if command -v curl >/dev/null 2>&1; then" ++ [10]
  ++ lit "        curl -fsSL --proto =http,https --proto-redir =http,https --max-redirs 5 --max-filesize " ++ to_dec MAX_FETCH_BYTES ++ lit " --max-time 590 -o " ++ quoted "$2" ++ lit " -- " ++ quoted "$1" ++ [10]
  ++ lit "    elif command -v wget >/dev/null 2>&1; then" ++ [10]
  ++ lit "        wget -q --max-redirect=5 -T 60 -O " ++ quoted "$2" ++ lit " -- " ++ quoted "$1" ++ [10]
  ++ lit "    else" ++ [10]
  ++ lit "        echo " ++ quoted "neither curl nor wget is installed on this Node" ++ lit " >&2" ++ [10]
  ++ lit "        return 11" ++ [10]
  ++ lit "    fi" ++ [10]
  ++ lit "}" ++ [10].
(** As the decimal text of a signed number. *)
Definition show_i32 (n : Z) : list Z := if n <? 0 then [45] ++ to_dec (- n) else to_dec n.
Definition describe_failure (exit_code : Z) (stderr : list Z) : list Z :=
  if exit_code =? 11 then lit "neither curl nor wget is installed on this Node - install one (sudo apt install curl) and try again"
  else if exit_code =? 63 then lit "the file is larger than the 2 GB a download from a link may be"
  else if exit_code =? 6 then lit "the address in the link couldn't be found"
  else if exit_code =? 28 then lit "the download took too long and was stopped"
  else if exit_code =? 22 then lit "the server refused the download: " ++ trim stderr
  else if is_empty (trim stderr) then lit "the download failed (exit " ++ show_i32 exit_code ++ lit ")"
  else lit "the download failed: " ++ trim stderr.

(** ** The name of a download *)

(** *** [String::from_utf8_lossy] *)

Definition REPLACEMENT : Z := 65533.
Definition is_continuation (b : Z) : bool := in_range 128 191 b.
(** How many bytes follow this one, and the range of the first of them. *)
Definition lead (b : Z) : option (nat * Z * Z) :=
  if in_range 194 223 b then Some (1%nat, 128, 191)
  else if b =? 224 then Some (2%nat, 160, 191)
  else if b =? 237 then Some (2%nat, 128, 159)
  else if in_range 225 239 b then Some (2%nat, 128, 191)
  else if b =? 240 then Some (3%nat, 144, 191)
  else if in_range 241 243 b then Some (3%nat, 128, 191)
  else if b =? 244 then Some (3%nat, 128, 143)
  else None.
(** The continuation bytes of a sequence: the character and the rest, or where it broke off. *)
Fixpoint continued (n : nat) (lo hi acc : Z) (bytes : list Z) : (Z * list Z) + list Z :=
  match n with
  | O => inl (acc, bytes)
  | S n =>
      match bytes with
      | b :: rest => if in_range lo hi b then continued n 128 191 (acc * 64 + b mod 64) rest else inr bytes
      | [] => inr []
      end
  end.
Fixpoint lossy (fuel : nat) (bytes : list Z) : list Z :=
  match fuel, bytes with
  | _, [] | O, _ => []
  | S fuel, b :: rest =>
      if in_range 0 127 b then b :: lossy fuel rest
      else
        match lead b with
        | None => REPLACEMENT :: lossy fuel rest
        | Some (n, lo, hi) =>
            match continued n lo hi (b mod 2 ^ (6 - Z.of_nat n)) rest with
            | inl (c, rest) => c :: lossy fuel rest
            | inr rest => REPLACEMENT :: lossy fuel rest
            end
        end
  end.
Definition from_utf8_lossy (bytes : list Z) : list Z := lossy (length bytes) bytes.

(** *** The header *)

(** The loop of [percent_decode], over what is left of the bytes. *)
Fixpoint decode_bytes (fuel : nat) (bytes : list Z) : list Z :=
  match fuel, bytes with
  | _, [] | O, _ => []
  | S fuel, b :: rest =>
      match rest with
      | h :: l :: after =>
          match b =? 37, to_digit h, to_digit l with
          | true, Some high, Some low => high * 16 + low :: decode_bytes fuel after
          | _, _, _ => b :: decode_bytes fuel rest
          end
      | _ => b :: decode_bytes fuel rest
      end
  end.
Definition percent_decode (text : list Z) : list Z := let bytes := utf8 text in from_utf8_lossy (decode_bytes (length bytes) bytes).

Definition trim_quotes (s : list Z) : list Z := trim_end_matches (Z.eqb 34) (trim_start_matches (Z.eqb 34) s).
(** What follows the first two single quotes. *)
Fixpoint after_two_quotes (s : list Z) : option (list Z) :=
  match s with
  | a :: (b :: s'') as s' => if (a =? 39) && (b =? 39) then Some s'' else after_two_quotes s'
  | _ => None
  end.
Fixpoint disposition_parts (parts : list (list Z)) (plain_name : option (list Z)) : option (list Z) :=
  match parts with
  | [] => plain_name
  | part :: parts =>
      match split_once 61 (trim part) with
      | None => disposition_parts parts plain_name
      | Some (key, value) =>
          let key := map to_ascii_lowercase (trim key) in
          let value := trim_quotes (trim value) in
          if str_eqb key (lit "filename*") then Some (percent_decode (default value (after_two_quotes value)))
          else if str_eqb key (lit "filename") then disposition_parts parts (Some value)
          else disposition_parts parts plain_name
      end
  end.
Definition file_name_from_disposition (header : list Z) : option (list Z) := disposition_parts (split_on (Z.eqb 59) header) None.

Definition is_control (c : Z) : bool := in_range 0 31 c || in_range 127 159 c.
Definition safe_file_name (name : list Z) : option (list Z) :=
  let cleaned := List.filter (fun c => negb ((c =? 47) || (c =? 92)) && negb (is_control c)) name in
  let cleaned := take 200 (trim_start_matches (Z.eqb 46) (trim cleaned)) in
  if is_empty cleaned then None else Some cleaned.

Definition suggested_name (response : Response) : option (list Z) :=
  let from_header := response.(rs_disposition) ≫= file_name_from_disposition in
  let from_final_url := segments ← response.(rs_segments); segment ← last segments; let decoded := percent_decode segment in if contains_char 46 decoded then Some decoded else None in
  match from_header with Some name => safe_file_name name | None => from_final_url ≫= safe_file_name end.
Definition suggest_file_name `{UrlCrate} {World : Type} `{HttpClient World} (url : list Z) (w : World) : result AppError (option (list Z)) * World :=
  match validate_fetch_url url with
  | Err e => (Err e, w)
  | Ok url =>
      match http_client w with
      | (Err e, w) => (Err e, w)
      | (Ok _, w) =>
          match http_head url w with
          | (Err e, w) => (Err e, w)
          | (Ok response, w) =>
              if response.(rs_success) then (Ok (suggested_name response), w)
              else match http_get url w with (Err e, w) => (Err e, w) | (Ok response, w) => (Ok (suggested_name response), w) end
          end
      end
  end.

(** *** As the tests of the file have it *)

Example percent_decode_reads : percent_decode (lit "a%20b%2Ejar") = lit "a b.jar" /\ percent_decode (lit "100%") = lit "100%".
Proof. split; vm_compute; reflexivity. Qed.
Example names_are_cleaned : safe_file_name (lit "../../etc/passwd") = Some (lit "etcpasswd") /\ safe_file_name (lit "..\x.jar") = Some (lit "x.jar") /\ safe_file_name (lit "   ") = None.
Proof. split_and!; vm_compute; reflexivity. Qed.
Example header_names :
  file_name_from_disposition (lit "attachment; filename=plugin.jar") = Some (lit "plugin.jar") /\
  file_name_from_disposition (lit "attachment; filename=" ++ quoted "fallback.jar" ++ lit "; filename*=UTF-8''M%C3%B3j%20plugin.jar") = Some (lit "M" ++ [243] ++ lit "j plugin.jar") /\
  file_name_from_disposition (lit "inline") = None.
Proof. split_and!; vm_compute; reflexivity. Qed.

(** ** Parsing an IPv6 address *)

Lemma to_digit_range c d : to_digit c = Some d -> 0 <= d < 16.
Proof. unfold to_digit, is_ascii_digit, in_range. repeat case_match; intros [= <-]; lia. Qed.
Lemma group_value_range s : (length s <= 4)%nat -> 0 <= group_value s < 65536.
Proof.
  assert (Hg : forall s acc, 0 <= acc -> 0 <= fold_left (fun acc c => acc * 16 + default 0 (to_digit c)) s acc < (acc + 1) * 16 ^ Z.of_nat (length s)).
  { clear s. induction s as [|c s IH]; intros acc Ha; cbn [fold_left length]; [rewrite Z.pow_0_r; lia|].
    assert (Hd : 0 <= default 0 (to_digit c) < 16) by (destruct (to_digit c) eqn:E; cbn; [by eapply to_digit_range|lia]).
    specialize (IH (acc * 16 + default 0 (to_digit c)) ltac:(lia)). rewrite Nat2Z.inj_succ, Z.pow_succ_r by lia. nia. }
  intros Hl. specialize (Hg s 0 ltac:(lia)). unfold group_value. assert (16 ^ Z.of_nat (length s) <= 16 ^ 4) by (apply Z.pow_le_mono_r; lia). lia.
Qed.
Lemma ipv6_group_length s : ipv6_group s = true -> (length s <= 4)%nat.
Proof. unfold ipv6_group, chars_count. rewrite !andb_true_iff. intros [[_ H] _]. lia. Qed.

(** The segments read are the groups [Validators] counts. *)
Lemma read_groups_spec pieces :
  match read_groups pieces with
  | Some segments => count_groups pieces = Some (Z.of_nat (length segments)) /\ Forall (fun x => 0 <= x < 65536) segments
  | None => count_groups pieces = None
  end.
Proof.
  induction pieces as [|g pieces IH]; [by split|]. destruct pieces as [|g' pieces].
  - cbn [read_groups count_groups]. destruct (ipv6_group g) eqn:E.
    + split; [done|]. apply Forall_singleton, group_value_range. by apply ipv6_group_length.
    + destruct (parse_ipv4 g) as [n|] eqn:En; cbn [mbind option_bind]; [rewrite bool_decide_true by (by eexists)|by rewrite bool_decide_false by (by intros [? ?])]. split; [done|].
      apply parse_ipv4_show in En as [_ Hn]. repeat constructor; zdm.
  - change (read_groups (g :: g' :: pieces)) with (if ipv6_group g then rest ← read_groups (g' :: pieces); Some (group_value g :: rest) else None).
    change (count_groups (g :: g' :: pieces)) with (if ipv6_group g then n ← count_groups (g' :: pieces); Some (n + 1) else None).
    destruct (ipv6_group g) eqn:E; [|done]. destruct (read_groups (g' :: pieces)) as [rest|]; cbn [mbind option_bind]; [|by rewrite IH]. destruct IH as [-> HF]. cbn [mbind option_bind length]. split; [f_equal; lia|].
    constructor; [apply group_value_range; by apply ipv6_group_length|done].
Qed.
Lemma read_side_spec s :
  match read_side s with
  | Some segments => side_groups s = Some (Z.of_nat (length segments)) /\ Forall (fun x => 0 <= x < 65536) segments
  | None => side_groups s = None
  end.
Proof. unfold read_side, side_groups. destruct (is_empty s); [by split|apply read_groups_spec]. Qed.

(** An IPv6 address is read exactly when the validators take the text for one,
    as eight segments of sixteen bits. *)
Lemma parse_ipv6_spec s :
  parses_as_ipv6 s = bool_decide (is_Some (parse_ipv6 s)) /\ forall segments, parse_ipv6 s = Some segments -> length segments = 8%nat /\ Forall (fun x => 0 <= x < 65536) segments.
Proof.
  unfold parses_as_ipv6, parse_ipv6. destruct (split_double_colon s) as [[front back]|].
  - destruct (contains_char 46 front); cbn [negb andb]; [split; [by rewrite bool_decide_false by (by intros [])|done]|].
    pose proof (read_side_spec front) as Hf. pose proof (read_side_spec back) as Hb. destruct (read_side front) as [head|]; cbn [mbind option_bind].
    2: { rewrite Hf. split; [by rewrite bool_decide_false by (by intros [])|done]. }
    destruct (read_side back) as [tail|]; cbn [mbind option_bind].
    2: { destruct Hf as [-> _]. rewrite Hb. split; [by rewrite bool_decide_false by (by intros [])|done]. }
    destruct Hf as [-> Hf], Hb as [-> Hb]. destruct (length head + length tail <=? 7)%nat eqn:E.
    + apply Nat.leb_le in E. split; [rewrite bool_decide_true by (by eexists); apply Z.leb_le; lia|]. intros segments [= <-]. split; [rewrite !length_app, repeat_length; lia|].
      apply Forall_app. split; [done|]. apply Forall_app. split; [|done]. apply Forall_forall. intros x Hx%list_elem_of_In%repeat_spec. lia.
    + apply Nat.leb_gt in E. split; [rewrite bool_decide_false by (by intros []); apply Z.leb_gt; lia|done].
  - pose proof (read_side_spec s) as Hs. destruct (read_side s) as [segments|]; cbn [mbind option_bind].
    + destruct Hs as [-> HF]. destruct (length segments =? 8)%nat eqn:E.
      * apply Nat.eqb_eq in E. split; [rewrite E; transitivity true; [by apply bool_decide_eq_true_2|symmetry; apply bool_decide_eq_true_2; by eexists]|]. by intros ? [= <-].
      * apply Nat.eqb_neq in E. split; [|done]. rewrite !bool_decide_false; [done|by intros []|intros [= ?]; lia].
    + rewrite Hs. split; [by rewrite !bool_decide_false by (done || by intros [])|done].
Qed.

(** ** Internal addresses *)

(** From the first address of a block to its last. *)
Definition within (lo hi x : Z) : Prop := lo <= x <= hi.
Definition dotted (a b c d : Z) : Z := ((a * 256 + b) * 256 + c) * 256 + d.
Definition internal_v4 (n : Z) : Prop :=
  within (dotted 0 0 0 0) (dotted 0 255 255 255) n \/ within (dotted 10 0 0 0) (dotted 10 255 255 255) n \/ within (dotted 127 0 0 0) (dotted 127 255 255 255) n \/
  within (dotted 169 254 0 0) (dotted 169 254 255 255) n \/ within (dotted 172 16 0 0) (dotted 172 31 255 255) n \/ within (dotted 192 168 0 0) (dotted 192 168 255 255) n \/
  n = dotted 255 255 255 255.
(** Loopback, unspecified, unique local, link-local, and an internal IPv4 address in IPv6 form. *)
Definition internal_v6 (segments : list Z) : Prop :=
  segments = [0; 0; 0; 0; 0; 0; 0; 1] \/ segments = repeat 0 8 \/ within 64512 65023 (hd 0 segments) \/ within 65152 65215 (hd 0 segments) \/
  exists g h, segments = [0; 0; 0; 0; 0; 65535; g; h] /\ internal_v4 (g * 65536 + h).

Lemma is_internal_v4_spec n : 0 <= n < 2 ^ 32 -> is_internal_v4 n = true <-> internal_v4 n.
Proof.
  intros Hn. unfold is_internal_v4, internal_v4, within, dotted, octet. change (2 ^ (8 * (3 - 0))) with 16777216. change (2 ^ (8 * (3 - 1))) with 65536.
  assert (E0 : n / 16777216 mod 256 = n / 16777216) by (apply Z.mod_small; zdm). rewrite E0.
  assert (E1 : n / 65536 mod 256 = n / 65536 - 256 * (n / 16777216)) by zdm. rewrite E1.
  rewrite !orb_true_iff, !andb_true_iff, !Z.eqb_eq, !Z.leb_le. split; intros Hc; zdm.
Qed.
Lemma land_high x m k : 0 <= k -> Z.land x (Z.shiftl m k) = Z.shiftl (Z.land (Z.shiftr x k) m) k.
Proof.
  intros Hk. apply Z.bits_inj'. intros i Hi. rewrite Z.land_spec, !Z.shiftl_spec by done. destruct (Z.lt_ge_cases i k).
  - rewrite !(Z.testbit_neg_r _ (i - k)) by lia. by rewrite andb_false_r.
  - rewrite Z.land_spec, Z.shiftr_spec by lia. by replace (i - k + k) with i by lia.
Qed.
Lemma block_of p q m v x : 0 < p -> x = p * q + m -> 0 <= m < p -> q * p = v * p <-> within (v * p) (v * p + (p - 1)) x.
Proof.
  unfold within. intros Hp -> Hm. split; [nia|]. intros Hc. f_equal. destruct (Z.lt_trichotomy q v) as [Hl|[He|Hl]]; [exfalso; nia|done|exfalso; nia].
Qed.
(** A mask of the upper bits names a block. *)
Lemma mask_block x b k v : 0 <= k -> 0 <= b -> 0 <= x < 2 ^ (b + k) -> Z.land x (Z.shiftl (Z.ones b) k) = v * 2 ^ k <-> within (v * 2 ^ k) (v * 2 ^ k + (2 ^ k - 1)) x.
Proof.
  intros Hk Hb Hx. rewrite land_high, Z.land_ones, Z.shiftl_mul_pow2, Z.shiftr_div_pow2 by done. pose proof (Z.pow_pos_nonneg 2 k ltac:(lia) Hk) as Hp.
  rewrite Z.pow_add_r in Hx by done. assert (Hs : 0 <= x / 2 ^ k < 2 ^ b) by (split; [apply Z.div_pos; lia|apply Z.div_lt_upper_bound; lia]).
  rewrite (Z.mod_small _ _ Hs). apply (block_of _ _ (x mod 2 ^ k)); [done|apply Z.div_mod; lia|by apply Z.mod_pos_bound].
Qed.
Lemma is_internal_v6_spec segments : length segments = 8%nat -> Forall (fun x => 0 <= x < 65536) segments -> is_internal (V6 segments) = true <-> internal_v6 segments.
Proof.
  intros Hl HF. unfold is_internal, internal_v6. assert (Hh : 0 <= hd 0 segments < 2 ^ 16) by (destruct HF; cbn; [lia|done]).
  rewrite !orb_true_iff, !bool_decide_eq_true, !Z.eqb_eq.
  change 65024 with (Z.shiftl (Z.ones 7) 9). change 64512 with (126 * 2 ^ 9) at 1. rewrite (mask_block (hd 0 segments) 7 9) by (done || lia).
  change 65472 with (Z.shiftl (Z.ones 10) 6). change 65152 with (1018 * 2 ^ 6) at 1. rewrite (mask_block (hd 0 segments) 10 6) by (done || lia).
  assert (Hm : match to_ipv4_mapped segments with Some n => is_internal_v4 n | None => false end = true <-> exists g h, segments = [0; 0; 0; 0; 0; 65535; g; h] /\ internal_v4 (g * 65536 + h)).
  { do 8 (destruct segments as [|? segments]; [done|]). destruct segments; [|done]. rewrite !Forall_cons in HF. destruct HF as (_ & _ & _ & _ & _ & _ & Hg & Hh' & _). cbn beta in Hg, Hh'. cbn [to_ipv4_mapped]. destruct (_ && _) eqn:E.
    - rewrite !andb_true_iff, !Z.eqb_eq in E. destruct E as [[[[[-> ->] ->] ->] ->] ->]. rewrite is_internal_v4_spec by lia. split; [by eexists _, _|]. by intros (g & h & [= <- <-] & Hi).
    - split; [done|]. intros (g & h & [= -> -> -> -> -> -> -> ->] & _). done. }
  rewrite Hm. change (126 * 2 ^ 9 + (2 ^ 9 - 1)) with 65023. change (126 * 2 ^ 9) with 64512. change (1018 * 2 ^ 6 + (2 ^ 6 - 1)) with 65215. change (1018 * 2 ^ 6) with 65152. tauto.
Qed.

(** ** What is accepted *)

(** C25: A link that is accepted is what the parser made of it: over http or https,
    without a login, to a host that is neither an internal address in any
    spelling the parser reads nor a name of this machine itself. *)
Theorem accepted_links_are_public `{UrlCrate} (input link : list Z) : validate_fetch_url input = Ok link ->
  exists url host, url_parse (trim input) = Some url /\ link = url.(url_text) /\ (url.(url_scheme) = lit "http" \/ url.(url_scheme) = lit "https") /\
    url.(url_username) = [] /\ url.(url_password) = None /\ url.(url_host) = Some host /\ host <> [] /\
    match parse_ip (bare_host host) with
    | Some (V4 n) => 0 <= n < 2 ^ 32 /\ ~ internal_v4 n
    | Some (V6 segments) => length segments = 8%nat /\ ~ internal_v6 segments
    | None => let domain := map to_ascii_lowercase (trim_end_matches (Z.eqb 46) host) in domain <> lit "localhost" /\ forall front, domain <> front ++ lit ".localhost"
    end.
Proof.
  unfold validate_fetch_url. cbn zeta. destruct (is_empty (trim input)); [done|]. destruct (2048 <? _); [done|]. destruct (url_parse (trim input)) as [url|]; [|done].
  destruct (negb (str_eqb _ _ || _)) eqn:Es; [done|]. destruct (negb (is_empty _) || _) eqn:El; [done|]. destruct (url_host url) as [[|c host]|] eqn:Eh; try done. destruct (host_internal (c :: host)) eqn:Ei; [done|]. intros [= <-].
  apply negb_false_iff, orb_true_iff in Es. unfold str_eqb in Es. rewrite !bool_decide_eq_true in Es. apply orb_false_iff in El as [El Ep]. apply negb_false_iff in El. apply bool_decide_eq_false in Ep.
  exists url, (c :: host). split_and!; try done; [revert El; by destruct (url_username url)|revert Ep; destruct (url_password url); [|done]; intros Ep; exfalso; apply Ep; by eexists|].
  unfold host_internal in Ei. unfold parse_ip in *. destruct (parse_ipv4 _) as [n|] eqn:E4.
  { apply parse_ipv4_show in E4 as [_ Hn]. split; [done|]. rewrite <- is_internal_v4_spec by done. cbn [is_internal] in Ei. by rewrite Ei. }
  destruct (parse_ipv6 _) as [segments|] eqn:E6; cbn [fmap option_fmap option_map] in *.
  { apply (proj2 (parse_ipv6_spec _)) in E6 as [Hl HF]. split; [done|]. rewrite <- is_internal_v6_spec by done. by rewrite Ei. }
  cbn zeta. unfold is_local_name in Ei. cbn zeta in Ei. apply orb_false_iff in Ei as [Ed Ee]. apply bool_decide_eq_false in Ed. split; [done|]. intros front Hf. rewrite Hf in Ee.
  unfold ends_with, starts_with in Ee. rewrite rev_app_distr in Ee. apply bool_decide_eq_false in Ee. apply Ee. eexists. by apply strip_prefix_spec.
Qed.

Module LinkSample.
#[local] Instance urls : UrlCrate := {| url_parse s := if str_eqb s (lit "https://1.1.1.1/x") then Some (mkUrl (lit "https") [] None (Some (lit "1.1.1.1")) s) else None |}.
Definition accepted := validate_fetch_url (lit " https://1.1.1.1/x ").
End LinkSample.
Lemma accepted_links_are_public_witness : LinkSample.accepted = Ok (lit "https://1.1.1.1/x") /\
  exists n, parse_ip (lit "1.1.1.1") = Some (V4 n) /\ ~ internal_v4 n.
Proof.
  assert (Ha : LinkSample.accepted = Ok (lit "https://1.1.1.1/x")) by (vm_compute; reflexivity).
  split; [exact Ha|]. exists 16843009. split; [vm_compute; reflexivity|].
  destruct (@accepted_links_are_public LinkSample.urls (lit " https://1.1.1.1/x ") _ Ha) as (url & host & Hurl & _ & _ & _ & _ & Hhost & _ & Hp).
  vm_compute in Hurl. injection Hurl as <-. cbn in Hhost. injection Hhost as <-. vm_compute in Hp. destruct Hp as [_ Hp]. exact Hp.
Defined.

(** The addresses of the file's own test. *)
Example internal_links_are_refused : forallb host_internal
  [lit "127.0.0.1"; lit "localhost"; lit "LOCALHOST."; lit "api.localhost"; lit "10.0.0.5"; lit "192.168.1.1"; lit "172.16.0.1"; lit "169.254.169.254"; lit "0.0.0.0";
   lit "[::1]"; lit "[fe80::1]"; lit "[fd00::1]"; lit "[::ffff:127.0.0.1]"] = true /\
  existsb host_internal [lit "cdn.modrinth.com"; lit "example.com"; lit "1.1.1.1"; lit "[2606:4700::1111]"] = false.
Proof. split; vm_compute; reflexivity. Qed.

(** ** What is suggested *)

Lemma filter_subset_in {A} (p : A -> bool) (s : list A) x : x ∈ List.filter p s -> x ∈ s /\ p x = true.
Proof. rewrite !list_elem_of_In, filter_In. done. Qed.
Lemma safe_file_name_plain name n : safe_file_name name = Some n -> plain n /\ (length n <= 200)%nat /\ forall c, c ∈ n -> is_control c = false.
Proof.
  unfold safe_file_name. cbn zeta. set (kept := List.filter _ name). set (body := trim_start_matches (Z.eqb 46) (trim kept)). destruct (is_empty (take 200 body)) eqn:E; [done|]. intros [= <-].
  assert (Hin : forall c, c ∈ take 200 body -> (c <> 47 /\ c <> 92) /\ is_control c = false).
  { intros c Hc. assert (Hk : c ∈ kept).
    { destruct (drop_while_suffix (Z.eqb 46) (trim kept)) as [a Ha]. destruct (trim_end_prefix is_whitespace (trim_start_matches is_whitespace kept)) as [b Hb]. destruct (drop_while_suffix is_whitespace kept) as [d Hd].
      rewrite Hd. apply elem_of_app; right. fold (trim_start_matches is_whitespace kept). rewrite Hb. apply elem_of_app; left. fold (trim kept). rewrite Ha. apply elem_of_app; right. fold (trim_start_matches (Z.eqb 46) (trim kept)). fold body.
      rewrite <- (take_drop 200 body). apply elem_of_app; by left. }
    apply filter_subset_in in Hk as [_ Hk]. apply andb_true_iff in Hk as [Hk Hctl]. rewrite negb_true_iff, orb_false_iff, !Z.eqb_neq in Hk. rewrite negb_true_iff in Hctl. done. }
  assert (Hno : forall k, (k = 47 \/ k = 92 \/ k = 0) -> contains_char k (take 200 body) = false).
  { intros k Hk. unfold contains_char. apply not_true_iff_false. rewrite existsb_elem_of. intros (c & Hc & <-%Z.eqb_eq). apply Hin in Hc as [[HA HB] HC]. destruct Hk as [-> | [-> | ->]]; done. }
  split_and!; [split| |intros c Hc; by apply Hin].
  - unfold entry_name. rewrite E, !Hno by tauto. cbn [negb orb andb]. rewrite !andb_true_r, negb_true_iff, orb_false_iff. unfold str_eqb. rewrite !bool_decide_eq_false.
    assert (Hh : forall c rest, take 200 body = c :: rest -> c <> 46).
    { intros c rest Hc ->. destruct body as [|c' body'] eqn:Eb; [done|]. injection Hc as -> _. apply drop_while_head in Eb. done. }
    split; intros Hd; by eapply Hh.
  - by apply Hno; tauto.
  - rewrite length_take. lia.
Qed.
(** The name suggested for a download is a name, whatever the server sends. *)
Lemma suggested_names_are_names `{UrlCrate} {World : Type} `{HttpClient World} url w w' n : suggest_file_name url w = (Ok (Some n), w') -> plain n /\ (length n <= 200)%nat.
Proof.
  assert (Hs : forall response, suggested_name response = Some n -> plain n /\ (length n <= 200)%nat).
  { intros response. unfold suggested_name. cbn zeta. destruct (rs_disposition response ≫= _); [|destruct (mbind _ (rs_segments response)); cbn [mbind option_bind]; [|done]]; by intros (? & ? & _)%safe_file_name_plain. }
  unfold suggest_file_name. repeat case_match; try done; intros [= Hn _]; by eapply Hs.
Qed.
