(* ===== verification/SftpFiles.v ===== *)
(** * SftpFiles: the files of an application on a Node

    [files/sftp.rs]: the provider of a remote application, over the requests of
    an SFTP session, the class [SftpSession].  Every path it is given is sanitized,
    joined onto the working directory, resolved by the Node and compared with the
    resolved working directory before anything is asked about it.  The recursion
    of a deletion or a copy is as deep as a path can be. *)

From S2P Require Import Prelude Text Shell Sandbox Firewall Desktop Archive UrlFetch.

#[local] Open Scope Z_scope.

(** ** The session *)

(** An entry as a session gives it: with the path it was read at. *)
Record SessionEntry : Type := mkSessionEntry { sx_path : list Z; sx_entry : RemoteFileEntry }.
Class SftpSession (World : Type) : Type := {
  sx_canonicalize_path : list Z -> World -> result AppError (list Z) * World;
  sx_list_directory : list Z -> World -> result AppError (list SessionEntry) * World;
  sx_symlink_metadata : list Z -> World -> result AppError SessionEntry * World;
  sx_read_file : list Z -> World -> result AppError (list Z) * World;
  sx_read_file_range : list Z -> Z -> Z -> World -> result AppError (list Z) * World;
  sx_write_file : list Z -> list Z -> World -> result AppError unit * World;
  sx_create_directory : list Z -> World -> result AppError unit * World;
  sx_remove_dir : list Z -> World -> result AppError unit * World;
  sx_remove_file : list Z -> World -> result AppError unit * World;
  sx_rename : list Z -> list Z -> World -> result AppError unit * World;
  sx_set_permissions : list Z -> Z -> World -> result AppError unit * World;
  sx_download_file : list Z -> World -> result AppError (list Z) * World;
  sx_upload_file : list Z -> list Z -> World -> result AppError unit * World;
  sx_execute_command : list Z -> World -> result AppError CommandOutput * World;
}.

(** What an operation does on the Node. *)
Definition Remote (World A : Type) : Type := World -> result AppError A * World.
Definition rret {World A : Type} (x : A) : Remote World A := fun w => (Ok x, w).
Definition rthrow {World A : Type} (e : AppError) : Remote World A := fun w => (Err e, w).
Definition rbind {World A B : Type} (m : Remote World A) (f : A -> Remote World B) : Remote World B := fun w => match m w with (Ok x, w) => f x w | (Err e, w) => (Err e, w) end.
Definition rtry {World A : Type} (m : Remote World A) : Remote World (result AppError A) := fun w => let '(r, w) := m w in (Ok r, w).
Definition rmap_err {World A : Type} (e : AppError) (m : Remote World A) : Remote World A := fun w => match m w with (Ok x, w) => (Ok x, w) | (Err _, w) => (Err e, w) end.
Fixpoint rfor {World A : Type} (f : A -> Remote World unit) (l : list A) : Remote World unit := match l with [] => rret tt | x :: l => rbind (f x) (fun _ => rfor f l) end.

Declare Scope remote_scope.
Notation "x <- m ;; k" := (rbind m (fun x => k)) (at level 100, m at next level, right associativity) : remote_scope.
Notation "m ;;; k" := (rbind m (fun _ => k)) (at level 100, right associativity) : remote_scope.
#[local] Open Scope remote_scope.

Definition bad_path (what : string) : AppError := InvalidInput (mkInvalid [] (Other (lit what))).
Definition split_parent (path : list Z) : result AppError (list Z * list Z) :=
  match rsplit_once 47 path with
  | Some (parent, name) => if negb (is_empty name) then Ok (if is_empty parent then [47] else parent, name) else Err (bad_path "invalid path")
  | None => Err (bad_path "invalid path")
  end.
Definition joined (directory name : list Z) : list Z := trim_end_matches (Z.eqb 47) directory ++ [47] ++ name.

Definition build_fetch_script (resolved url : list Z) : list Z :=
  fetch_function ++ lit "target=" ++ quote resolved ++ [10]
  ++ lit "url=" ++ quote url ++ [10]
  ++ lit "if [ -d " ++ quoted "$target" ++ lit " ]; then echo " ++ quoted "'$target' is a directory" ++ lit " >&2; exit 4; fi" ++ [10]
  ++ lit "tmp=$(mktemp -- " ++ [34] ++ lit "$(dirname -- " ++ quoted "$target" ++ lit ")/.vibessh-fetch.XXXXXX" ++ [34] ++ lit ") || exit 1" ++ [10]
  ++ lit "if fetch_to " ++ quoted "$url" ++ [32] ++ quoted "$tmp" ++ lit "; then" ++ [10]
  ++ lit "    chmod 0644 -- " ++ quoted "$tmp" ++ [10]
  ++ lit "    mv -f -- " ++ quoted "$tmp" ++ [32] ++ quoted "$target" ++ lit " || { rm -f -- " ++ quoted "$tmp" ++ lit "; exit 1; }" ++ [10]
  ++ lit "    wc -c < " ++ quoted "$target" ++ [10]
  ++ lit "else" ++ [10]
  ++ lit "    rc=$?" ++ [10]
  ++ lit "    rm -f -- " ++ quoted "$tmp" ++ [10]
  ++ lit "    exit " ++ quoted "$rc" ++ [10]
  ++ lit "fi" ++ [10].

(** ** The operations *)

Section provider.
Context {World : Type} `{SftpSession World} (root : list Z).
Notation R := (Remote World).

Definition sftp_canonical_root : R (list Z) := rmap_err (bad_path "the application's working directory doesn't exist on the remote host") (sx_canonicalize_path root).
Definition canonical_parent (parent : list Z) : R (list Z) := rmap_err (bad_path "the containing directory doesn't exist") (sx_canonicalize_path parent).

Definition sftp_resolve (relative : list Z) : R (list Z) :=
  match sanitize_relative_path relative with
  | Err e => rthrow (InvalidInput e)
  | Ok relative =>
      let candidate := if is_empty relative then root else joined root relative in
      canonical_root <- sftp_canonical_root ;;
      resolved <- rtry (sx_canonicalize_path candidate) ;;
      canonical <- (match resolved with
                    | Ok resolved => rret resolved
                    | Err _ =>
                        match split_parent candidate with
                        | Err e => rthrow e
                        | Ok (parent, name) => canonical_parent <- canonical_parent parent ;; rret (joined canonical_parent name)
                        end
                    end) ;;
      if negb (is_within_root canonical canonical_root) then rthrow (bad_path "path escapes the application directory") else rret canonical
  end.
Definition sftp_resolve_entry (relative : list Z) : R (list Z) :=
  match sanitize_relative_path relative with
  | Err e => rthrow (InvalidInput e)
  | Ok relative =>
      if is_empty relative then sftp_resolve relative
      else
        match split_parent (joined root relative) with
        | Err e => rthrow e
        | Ok (parent, name) =>
            canonical_root <- sftp_canonical_root ;;
            canonical_parent <- canonical_parent parent ;;
            let entry := joined canonical_parent name in
            if negb (is_within_root entry canonical_root) then rthrow (bad_path "path escapes the application directory") else rret entry
        end
  end.

(** A path has at most 4096 bytes, and a level takes two of them or more. *)
Definition REMOTE_LEVELS : nat := 2048.
Fixpoint delete_resolved (levels : nat) (path : list Z) : R unit :=
  match levels with
  | O => rthrow (bad_path "couldn't stat")
  | S levels =>
      stat <- sx_symlink_metadata path ;;
      if stat.(sx_entry).(re_is_dir) && negb stat.(sx_entry).(re_is_symlink) then
        entries <- sx_list_directory path ;;
        rfor (fun entry => delete_resolved levels entry.(sx_path)) entries ;;;
        sx_remove_dir path
      else sx_remove_file path
  end.
Fixpoint copy_resolved (levels : nat) (from to : list Z) : R unit :=
  match levels with
  | O => rthrow (bad_path "couldn't stat")
  | S levels =>
      stat <- sx_symlink_metadata from ;;
      if stat.(sx_entry).(re_is_symlink) then rret tt
      else if stat.(sx_entry).(re_is_dir) then
        sx_create_directory to ;;;
        entries <- sx_list_directory from ;;
        rfor (fun entry => copy_resolved levels entry.(sx_path) (joined to entry.(sx_entry).(re_name))) entries
      else contents <- sx_read_file from ;; sx_write_file to contents
  end.

Definition sftp_list_directory (path : list Z) : R (list SessionEntry) :=
  dir <- sftp_resolve path ;;
  canonical_root <- sftp_canonical_root ;;
  entries <- sx_list_directory dir ;;
  rret (map (fun entry => mkSessionEntry (relativize entry.(sx_path) canonical_root) entry.(sx_entry)) entries).
Definition sftp_metadata (path : list Z) : R SessionEntry :=
  resolved <- sftp_resolve path ;;
  canonical_root <- sftp_canonical_root ;;
  entry <- sx_symlink_metadata resolved ;;
  rret (mkSessionEntry (relativize entry.(sx_path) canonical_root) entry.(sx_entry)).
Definition sftp_read_file (path : list Z) : R (list Z) := resolved <- sftp_resolve path ;; sx_read_file resolved.
Definition sftp_read_file_range (path : list Z) (offset len : Z) : R (list Z) := resolved <- sftp_resolve path ;; sx_read_file_range resolved offset len.
Definition sftp_write_file (path contents : list Z) : R unit := resolved <- sftp_resolve path ;; sx_write_file resolved contents.
Definition sftp_create_directory (path : list Z) : R unit := resolved <- sftp_resolve path ;; sx_create_directory resolved.
Definition sftp_delete (path : list Z) : R unit :=
  resolved <- sftp_resolve_entry path ;;
  canonical_root <- sftp_canonical_root ;;
  if str_eqb (trim_end_matches (Z.eqb 47) resolved) (trim_end_matches (Z.eqb 47) canonical_root) then rthrow (bad_path "refusing to delete the root itself")
  else delete_resolved REMOTE_LEVELS resolved.
Definition sftp_rename (from to : list Z) : R unit :=
  from_resolved <- sftp_resolve_entry from ;;
  to_resolved <- sftp_resolve_entry to ;;
  sx_rename from_resolved to_resolved.
Definition sftp_copy (from to : list Z) : R unit :=
  from_resolved <- sftp_resolve from ;;
  to_resolved <- sftp_resolve to ;;
  copy_resolved REMOTE_LEVELS from_resolved to_resolved.
Definition sftp_fetch_url (path url : list Z) : R Z :=
  resolved <- sftp_resolve path ;;
  output <- sx_execute_command (build_fetch_script resolved url) ;;
  if negb (output.(exit_code) =? 0) then rthrow (ConnectionFailed (describe_failure output.(exit_code) output.(stderr)))
  else rret (default 0 (parse_unsigned (2 ^ 64 - 1) (trim output.(stdout)))).
Definition sftp_set_permissions (path : list Z) (mode : Z) : R unit := resolved <- sftp_resolve path ;; sx_set_permissions resolved mode.
Definition sftp_download_file (path : list Z) : R (list Z) := resolved <- sftp_resolve path ;; sx_download_file resolved.
Definition sftp_upload_file (bytes path : list Z) : R unit := resolved <- sftp_resolve path ;; sx_upload_file bytes resolved.
End provider.

(** The provider of the applications of a Node. *)
Definition sftp_provider {World : Type} `{SftpSession World} (roots : N -> list Z) : FileProvider World := {|
  fp_list_directory := fun a path w => match sftp_list_directory (roots a) path w with (Ok entries, w) => (Ok (map sx_entry entries), w) | (Err e, w) => (Err e, w) end;
  fp_metadata := fun a path w => match sftp_metadata (roots a) path w with (Ok entry, w) => (Ok entry.(sx_entry), w) | (Err e, w) => (Err e, w) end;
  fp_read_file := fun a => sftp_read_file (roots a); fp_write_file := fun a => sftp_write_file (roots a); fp_create_directory := fun a => sftp_create_directory (roots a);
  fp_delete := fun a => sftp_delete (roots a); fp_download_file := fun a => sftp_download_file (roots a); fp_upload_file := fun a => sftp_upload_file (roots a);
  fp_scratch := rret tt;
|}.
