(* ===== verification/SftpJail.v ===== *)
(** * SftpJail: what the SFTP provider asks of a Node

    Every request that an operation of [SftpFiles] makes, but for resolving a
    path, names the working directory or something below it, as the Node resolved
    it.  The record [Obeys] is what the session is: what a request may do is
    whatever [Inv] holds of the world survives, given that its path is [inside]. *)

From S2P Require Import Prelude Text Shell Sandbox Firewall Desktop Archive FileTree UrlFetch SftpFiles.

#[local] Open Scope Z_scope.
#[local] Open Scope remote_scope.

Abbreviation entries segments := (Forall (fun s => entry_name s = true) segments).

(** The directory [R] or below it, as text. *)
Definition inside (R : list (list Z)) (p : list Z) : Prop := exists rest, entries rest /\ p = canonical (R ++ rest).
Definition strictly_inside (R : list (list Z)) (p : list Z) : Prop := exists rest, rest <> [] /\ entries rest /\ p = canonical (R ++ rest).

(** A session on a Node where the working directory [W] resolves to [R]: resolved
    paths are absolute and plain, and the entries of a directory are its children. *)
Record Obeys {World : Type} `{SftpSession World} (W R : list (list Z)) (Inv : World -> Prop) : Prop := {
  ob_canonicalize : forall p w, Inv w -> Inv (sx_canonicalize_path p w).2 /\
    forall r, (sx_canonicalize_path p w).1 = Ok r -> (exists segments, entries segments /\ r = canonical segments) /\ (p = canonical W -> r = canonical R);
  ob_list : forall p w, inside R p -> Inv w -> Inv (sx_list_directory p w).2 /\
    forall es e, (sx_list_directory p w).1 = Ok es -> e ∈ es -> entry_name e.(sx_entry).(re_name) = true /\ e.(sx_path) = joined p e.(sx_entry).(re_name);
  ob_stat : forall p w, inside R p -> Inv w -> Inv (sx_symlink_metadata p w).2;
  ob_read : forall p w, inside R p -> Inv w -> Inv (sx_read_file p w).2;
  ob_range : forall p offset len w, inside R p -> Inv w -> Inv (sx_read_file_range p offset len w).2;
  ob_write : forall p contents w, inside R p -> Inv w -> Inv (sx_write_file p contents w).2;
  ob_mkdir : forall p w, inside R p -> Inv w -> Inv (sx_create_directory p w).2;
  ob_rmdir : forall p w, strictly_inside R p -> Inv w -> Inv (sx_remove_dir p w).2;
  ob_unlink : forall p w, strictly_inside R p -> Inv w -> Inv (sx_remove_file p w).2;
  ob_rename : forall p q w, inside R p -> inside R q -> Inv w -> Inv (sx_rename p q w).2;
  ob_chmod : forall p mode w, inside R p -> Inv w -> Inv (sx_set_permissions p mode w).2;
  ob_download : forall p w, inside R p -> Inv w -> Inv (sx_download_file p w).2;
  ob_upload : forall bytes p w, inside R p -> Inv w -> Inv (sx_upload_file bytes p w).2;
  ob_fetch : forall p url w, inside R p -> Inv w -> Inv (sx_execute_command (build_fetch_script p url) w).2;
}.

(** ** Paths *)

Lemma joined_canonical (segments : list (list Z)) (name : list Z) : entries segments -> joined (canonical segments) name = canonical (segments ++ [name]).
Proof.
  intros Hs. unfold joined. rewrite trim_canonical by done. destruct (canonical_slashed (segments ++ [name])) as [->|[E _]]; [|by apply app_eq_nil in E as [_ ?]].
  rewrite slashed_app. unfold slashed at 3. cbn [mbind list_bind]. by rewrite app_nil_r.
Qed.
Lemma joined_relative (W segments : list (list Z)) : entries W -> segments <> [] -> joined (canonical W) (join [47] segments) = canonical (W ++ segments).
Proof.
  intros HW Hne. revert W HW. induction segments as [|s segments IH] using rev_ind; intros W HW; [done|]. destruct segments as [|s' segments].
  - cbn [app join]. by apply joined_canonical.
  - assert (Hj : join [47] ((s' :: segments) ++ [s]) = join [47] (s' :: segments) ++ [47] ++ s) by (by apply text_snoc).
    rewrite Hj, (app_assoc W). unfold joined at 1. rewrite trim_canonical by done. specialize (IH ltac:(done) W HW). unfold joined in IH. rewrite trim_canonical in IH by done.
    destruct (canonical_slashed (W ++ s' :: segments)) as [E|[E _]]; [|by apply app_eq_nil in E as [_ ?]]. rewrite E in IH.
    destruct (canonical_slashed ((W ++ s' :: segments) ++ [s])) as [->|[E' _]]; [|by apply app_eq_nil in E' as [_ ?]].
    rewrite slashed_app, <- IH. unfold slashed at 3. cbn [mbind list_bind]. by rewrite app_nil_r, <- !app_assoc.
Qed.
(** The name a path is split into is its last component. *)
Lemma split_parent_name (segments : list (list Z)) (parent name : list Z) : entries segments -> split_parent (canonical segments) = Ok (parent, name) -> entry_name name = true.
Proof.
  intros Hs. destruct segments as [|s segments _] using rev_ind; [done|]. apply Forall_app in Hs as [Hs Hn]. rewrite Forall_singleton in Hn.
  destruct (canonical_slashed (segments ++ [s])) as [->|[E _]]; [|by apply app_eq_nil in E as [_ ?]]. rewrite slashed_app. unfold slashed at 2. cbn [mbind list_bind]. rewrite app_nil_r.
  pose proof (entry_no_slash s Hn) as [Hsl _]. unfold split_parent. rewrite rsplit_once_last by done. destruct (negb (is_empty s)); [|done]. by intros [= _ <-].
Qed.
Lemma sanitized_candidate (W : list (list Z)) (path relative : list Z) : entries W -> sanitize_relative_path path = Ok relative ->
  exists segments, entries (W ++ segments) /\ (if is_empty relative then canonical W else joined (canonical W) relative) = canonical (W ++ segments).
Proof.
  intros HW Hs. apply sanitize_spec in Hs as [-> Hall]. destruct (pieces_of path) as [|s segments] eqn:E.
  - exists []. by rewrite app_nil_r.
  - assert (Hp : entries (s :: segments)) by (rewrite <- E in *; apply Forall_forall; intros x Hx; by apply (pieces_entry path)).
    exists (s :: segments). split; [by apply Forall_app|]. rewrite <- joined_relative by done. destruct (join [47] (s :: segments)) eqn:Ej; [|done]. exfalso.
    apply Forall_cons in Hp as [Hp _]. apply entry_no_slash in Hp as [_ Hne]. destruct s as [|c s]; [done|]. by destruct segments.
Qed.
Lemma checked_inside (R segments : list (list Z)) : entries R -> entries segments -> is_within_root (canonical segments) (canonical R) = true -> inside R (canonical segments).
Proof. intros HR Hs Hw. apply within_root_spec in Hw as [rest ->]; [|done..]. exists rest. split; [by apply Forall_app in Hs as [_ ?]|done]. Qed.
Lemma inside_child (R : list (list Z)) (p name : list Z) : entries R -> inside R p -> entry_name name = true -> strictly_inside R (joined p name).
Proof.
  intros HR (rest & Hr & ->) Hn. exists (rest ++ [name]). split_and!; [by destruct rest|apply Forall_app; split; [done|by apply Forall_singleton]|].
  rewrite joined_canonical by (by apply Forall_app). by rewrite app_assoc.
Qed.
Lemma strictly_is_inside (R : list (list Z)) (p : list Z) : strictly_inside R p -> inside R p.
Proof. intros (rest & _ & Hr & ->). by exists rest. Qed.

(** ** The operations *)

Inductive SftpOp : Type :=
| SftpList (path : list Z) | SftpMetadata (path : list Z) | SftpRead (path : list Z) | SftpReadRange (path : list Z) (offset len : Z) | SftpWrite (path contents : list Z)
| SftpMkdir (path : list Z) | SftpDelete (path : list Z) | SftpRename (from to : list Z) | SftpCopy (from to : list Z) | SftpFetch (path url : list Z)
| SftpChmod (path : list Z) (mode : Z) | SftpDownload (path : list Z) | SftpUpload (bytes path : list Z).
Definition sftp_op {World : Type} `{SftpSession World} (root : list Z) (op : SftpOp) : World -> World := fun w =>
  match op with
  | SftpList path => (sftp_list_directory root path w).2
  | SftpMetadata path => (sftp_metadata root path w).2
  | SftpRead path => (sftp_read_file root path w).2
  | SftpReadRange path offset len => (sftp_read_file_range root path offset len w).2
  | SftpWrite path contents => (sftp_write_file root path contents w).2
  | SftpMkdir path => (sftp_create_directory root path w).2
  | SftpDelete path => (sftp_delete root path w).2
  | SftpRename from to => (sftp_rename root from to w).2
  | SftpCopy from to => (sftp_copy root from to w).2
  | SftpFetch path url => (sftp_fetch_url root path url w).2
  | SftpChmod path mode => (sftp_set_permissions root path mode w).2
  | SftpDownload path => (sftp_download_file root path w).2
  | SftpUpload bytes path => (sftp_upload_file root bytes path w).2
  end.

Section jail.
Context {World : Type} `{SftpSession World} (W R : list (list Z)) (Inv : World -> Prop) (obeys : Obeys W R Inv).
Hypothesis W_entries : entries W.
Hypothesis R_entries : entries R.
Notation Rem := (Remote World).

Definition guards {A : Type} (m : Rem A) (Q : A -> Prop) : Prop := forall w, Inv w -> Inv (m w).2 /\ forall x, (m w).1 = Ok x -> Q x.
Lemma remote_ret {A : Type} (x : A) (Q : A -> Prop) : Q x -> guards (rret x) Q.
Proof. intros Hx w Hw. split; [done|]. by intros y [= <-]. Qed.
Lemma remote_throw {A : Type} e (Q : A -> Prop) : guards (rthrow e) Q.
Proof. intros w Hw. by split. Qed.
Lemma remote_bind {A B : Type} (m : Rem A) (f : A -> Rem B) (P : A -> Prop) (Q : B -> Prop) : guards m P -> (forall x, P x -> guards (f x) Q) -> guards (rbind m f) Q.
Proof. intros Hm Hf w Hw. destruct (Hm w Hw) as [HA HB]. unfold rbind. destruct (m w) as [[x|e] w']; cbn [fst snd] in *; [apply Hf; [by apply HB|done]|done]. Qed.
Lemma remote_try {A : Type} (m : Rem A) (Q : A -> Prop) : guards m Q -> guards (rtry m) (fun r => forall x, r = Ok x -> Q x).
Proof. intros Hm w Hw. destruct (Hm w Hw) as [HA HB]. unfold rtry. destruct (m w) as [r w']; cbn [fst snd] in *. split; [done|]. intros x [= <-]. exact HB. Qed.
Lemma remote_map_err {A : Type} e (m : Rem A) (Q : A -> Prop) : guards m Q -> guards (rmap_err e m) Q.
Proof. intros Hm w Hw. destruct (Hm w Hw) as [HA HB]. unfold rmap_err. by destruct (m w) as [[x|e'] w']. Qed.
Lemma remote_for {A : Type} (f : A -> Rem unit) (l : list A) : (forall x, x ∈ l -> guards (f x) (fun _ => True)) -> guards (rfor f l) (fun _ => True).
Proof.
  induction l as [|x l IH]; intros Hf; cbn [rfor]; [by apply remote_ret|]. eapply remote_bind; [apply Hf; by left|]. intros _ _. apply IH. intros y Hy. apply Hf. by right.
Qed.
Lemma remote_request {A : Type} (m : Rem A) : (forall w, Inv w -> Inv (m w).2) -> guards m (fun _ => True).
Proof. intros Hm w Hw. split; [by apply Hm|done]. Qed.

Lemma remote_resolved (p : list Z) : guards (sx_canonicalize_path p) (fun r => (exists segments, entries segments /\ r = canonical segments) /\ (p = canonical W -> r = canonical R)).
Proof. intros w Hw. by apply (ob_canonicalize _ _ _ obeys). Qed.
Lemma remote_root : guards (sftp_canonical_root (canonical W)) (eq (canonical R)).
Proof. apply remote_map_err. intros w Hw. destruct (remote_resolved (canonical W) w Hw) as [HA HB]. split; [done|]. intros x Hx. destruct (HB x Hx) as [_ HC]. by rewrite HC. Qed.

Lemma remote_resolve (path : list Z) : guards (sftp_resolve (canonical W) path) (inside R).
Proof.
  unfold sftp_resolve. destruct (sanitize_relative_path path) as [relative|e] eqn:E; [|apply remote_throw]. destruct (sanitized_candidate W path relative W_entries E) as (segments & Hs & ->). cbv zeta.
  eapply remote_bind; [apply remote_root|]. intros r <-. eapply remote_bind; [apply remote_try, remote_resolved|]. intros resolved Hr.
  apply (remote_bind _ _ (fun p => exists segments, entries segments /\ p = canonical segments)).
  - destruct resolved as [p|e]; [apply remote_ret; by apply (Hr p)|]. destruct (split_parent _) as [[parent name]|e'] eqn:Ep; [|apply remote_throw].
    eapply remote_bind; [apply remote_map_err, remote_resolved|]. intros p [(psegs & Hp & ->) _]. apply remote_ret. exists (psegs ++ [name]). split; [|by apply joined_canonical].
    apply Forall_app. split; [done|]. apply Forall_singleton. exact (split_parent_name _ _ _ Hs Ep).
  - intros p (psegs & Hp & ->). destruct (negb _) eqn:Ew; [apply remote_throw|]. apply remote_ret, checked_inside; [done..|by apply negb_false_iff].
Qed.
Lemma remote_resolve_entry (path : list Z) : guards (sftp_resolve_entry (canonical W) path) (inside R).
Proof.
  unfold sftp_resolve_entry. destruct (sanitize_relative_path path) as [relative|e] eqn:E; [|apply remote_throw]. destruct (sanitized_candidate W path relative W_entries E) as (segments & Hs & Hc).
  destruct (is_empty relative); [apply remote_resolve|]. rewrite Hc. destruct (split_parent _) as [[parent name]|e'] eqn:Ep; [|apply remote_throw].
  eapply remote_bind; [apply remote_root|]. intros r <-. eapply remote_bind; [apply remote_map_err, remote_resolved|]. intros p [(psegs & Hp & ->) _]. cbv zeta. rewrite joined_canonical by done.
  assert (Hn : entries (psegs ++ [name])) by (apply Forall_app; split; [done|]; apply Forall_singleton; exact (split_parent_name _ _ _ Hs Ep)).
  destruct (negb _) eqn:Ew; [apply remote_throw|]. apply remote_ret, checked_inside; [done..|by apply negb_false_iff].
Qed.

Lemma remote_entries (p : list Z) : inside R p -> guards (sx_list_directory p) (fun es => forall e, e ∈ es -> strictly_inside R e.(sx_path) /\ strictly_inside R (joined p e.(sx_entry).(re_name)) /\ entry_name e.(sx_entry).(re_name) = true).
Proof.
  intros Hp w Hw. destruct (ob_list _ _ _ obeys p w Hp Hw) as [HA HB]. split; [done|]. intros es Hes e He. destruct (HB es e Hes He) as [Hn ->].
  split_and!; [by apply inside_child|by apply inside_child|done].
Qed.
Lemma remote_delete (levels : nat) : forall p, strictly_inside R p -> guards (delete_resolved levels p) (fun _ => True).
Proof.
  induction levels as [|levels IH]; intros p Hp; cbn [delete_resolved]; [apply remote_throw|]. pose proof (strictly_is_inside _ _ Hp) as Hin.
  eapply remote_bind; [apply remote_request; intros w; by apply (ob_stat _ _ _ obeys)|]. intros stat _. destruct (_ && _); [|apply remote_request; intros w; by apply (ob_unlink _ _ _ obeys)].
  eapply remote_bind; [by apply remote_entries|]. intros es Hes. eapply remote_bind; [apply remote_for; intros e He; apply IH; by apply Hes|]. intros _ _.
  apply remote_request. intros w. by apply (ob_rmdir _ _ _ obeys).
Qed.
Lemma remote_copy (levels : nat) : forall from to, inside R from -> inside R to -> guards (copy_resolved levels from to) (fun _ => True).
Proof.
  induction levels as [|levels IH]; intros from to Hf Ht; cbn [copy_resolved]; [apply remote_throw|].
  eapply remote_bind; [apply remote_request; intros w; by apply (ob_stat _ _ _ obeys)|]. intros stat _. destruct (re_is_symlink _); [by apply remote_ret|]. destruct (re_is_dir _).
  - eapply remote_bind; [apply remote_request; intros w; by apply (ob_mkdir _ _ _ obeys)|]. intros _ _. eapply remote_bind; [by apply remote_entries|]. intros es Hes.
    apply remote_for. intros e He. destruct (Hes e He) as (HA & _ & HC). apply IH; apply strictly_is_inside; [done|by apply inside_child].
  - eapply remote_bind; [apply remote_request; intros w; by apply (ob_read _ _ _ obeys)|]. intros contents _. apply remote_request. intros w. by apply (ob_write _ _ _ obeys).
Qed.
(** An operation that resolves its path and makes one request. *)
Lemma remote_one {A : Type} (path : list Z) (f : list Z -> Rem A) : (forall p, inside R p -> guards (f p) (fun _ => True)) -> guards (resolved <- sftp_resolve (canonical W) path ;; f resolved) (fun _ => True).
Proof. intros Hf. eapply remote_bind; [apply remote_resolve|exact Hf]. Qed.
Lemma remote_delete_path (path : list Z) : guards (sftp_delete (canonical W) path) (fun _ => True).
Proof.
  unfold sftp_delete. eapply remote_bind; [apply remote_resolve_entry|]. intros p (rest & Hr & ->). eapply remote_bind; [apply remote_root|]. intros r <-.
  destruct (str_eqb _ _) eqn:E; [apply remote_throw|]. apply remote_delete. exists rest. split_and!; [|done..]. intros ->. rewrite app_nil_r in E. by apply bool_decide_eq_false in E.
Qed.

Lemma remote_op (op : SftpOp) : forall w, Inv w -> Inv (sftp_op (canonical W) op w).
Proof.
  assert (Hgo : forall (A : Type) (m : Rem A), guards m (fun _ => True) -> forall w, Inv w -> Inv (m w).2) by (intros A m Hm w Hw; by apply Hm).
  destruct op; cbn [sftp_op]; apply Hgo.
  - apply remote_one. intros p Hp. eapply remote_bind; [apply remote_root|]. intros r <-. eapply remote_bind; [by apply remote_entries|]. intros es _. by apply remote_ret.
  - apply remote_one. intros p Hp. eapply remote_bind; [apply remote_root|]. intros r <-. eapply remote_bind; [apply remote_request; intros w; by apply (ob_stat _ _ _ obeys)|]. intros e _. by apply remote_ret.
  - apply remote_one. intros p Hp. apply remote_request. intros w. by apply (ob_read _ _ _ obeys).
  - apply remote_one. intros p Hp. apply remote_request. intros w. by apply (ob_range _ _ _ obeys).
  - apply remote_one. intros p Hp. apply remote_request. intros w. by apply (ob_write _ _ _ obeys).
  - apply remote_one. intros p Hp. apply remote_request. intros w. by apply (ob_mkdir _ _ _ obeys).
  - apply remote_delete_path.
  - eapply remote_bind; [apply remote_resolve_entry|]. intros p Hp. eapply remote_bind; [apply remote_resolve_entry|]. intros q Hq. apply remote_request. intros w. by apply (ob_rename _ _ _ obeys).
  - eapply remote_bind; [apply remote_resolve|]. intros p Hp. eapply remote_bind; [apply remote_resolve|]. intros q Hq. by apply remote_copy.
  - apply remote_one. intros p Hp. eapply remote_bind; [apply remote_request; intros w; by apply (ob_fetch _ _ _ obeys)|]. intros output _. destruct (negb _); [apply remote_throw|by apply remote_ret].
  - apply remote_one. intros p Hp. apply remote_request. intros w. by apply (ob_chmod _ _ _ obeys).
  - apply remote_one. intros p Hp. apply remote_request. intros w. by apply (ob_download _ _ _ obeys).
  - apply remote_one. intros p Hp. apply remote_request. intros w. by apply (ob_upload _ _ _ obeys).
Qed.
End jail.

(** C24: Whatever sequence of operations is asked for, every request the provider
    makes of the session names the working directory, as it resolves, or something
    below it, and what is removed is never the directory itself: whatever such
    requests preserve is preserved. *)
Theorem requests_stay_inside {World : Type} `{SftpSession World} (W R : list (list Z)) (Inv : World -> Prop) (ops : list SftpOp) (w : World) :
  entries W -> entries R -> Obeys W R Inv -> Inv w -> Inv (fold_left (fun w op => sftp_op (canonical W) op w) ops w).
Proof. intros HW HR Ho. revert w. induction ops as [|op ops IH]; intros w Hw; [done|]. cbn [fold_left]. apply IH. by apply (remote_op W R). Qed.

(** ** On a small Node

    The working directory is a link to where the application's files are, and
    there is a link out of it; the world is the list of paths that were named. *)

Module JailSample.
Definition W : list (list Z) := [lit "srv"; lit "app"].
Definition R : list (list Z) := [lit "data"; lit "app"].
Definition log {A : Type} (p : list Z) (r : result AppError A) (w : list (list Z)) : result AppError A * list (list Z) := (r, w ++ [p]).
Definition resolved (p : list Z) : option (list (list Z)) :=
  if str_eqb p (canonical W) then Some R
  else if str_eqb p (canonical (W ++ [lit "world"])) then Some (R ++ [lit "world"])
  else if str_eqb p (canonical (W ++ [lit "out"])) then Some [lit "etc"] else None.
Definition entry (p name : list Z) (dir : bool) : SessionEntry := mkSessionEntry (joined p name) (mkEntry name dir false 1).
#[local] Instance session : SftpSession (list (list Z)) := {|
  sx_canonicalize_path := fun p w => (match resolved p with Some segments => Ok (canonical segments) | None => Err NotFound end, w);
  sx_list_directory := fun p => log p (Ok [entry p (lit "region") false]);
  sx_symlink_metadata := fun p => log p (Ok (mkSessionEntry p (mkEntry p (str_eqb p (canonical (R ++ [lit "world"]))) false 1)));
  sx_read_file := fun p => log p (Ok []); sx_read_file_range := fun p _ _ => log p (Ok []); sx_write_file := fun p _ => log p (Ok tt);
  sx_create_directory := fun p => log p (Ok tt); sx_remove_dir := fun p => log p (Ok tt); sx_remove_file := fun p => log p (Ok tt);
  sx_rename := fun p q w => (Ok tt, w ++ [p; q]); sx_set_permissions := fun p _ => log p (Ok tt); sx_download_file := fun p => log p (Ok []);
  sx_upload_file := fun _ p => log p (Ok tt); sx_execute_command := fun _ w => (Ok (mkOutput 0 [] []), w);
|}.
Definition named_inside (w : list (list Z)) : Prop := Forall (inside R) w.
Definition asked : list SftpOp := [SftpDelete (lit "world"); SftpWrite (lit "out") []; SftpDelete []; SftpDelete (lit "../x"); SftpRead (lit "out/passwd"); SftpList []].
Definition after : list (list Z) := fold_left (fun w op => sftp_op (canonical W) op w) asked [].
Lemma obeys : Obeys W R named_inside.
Proof.
  assert (Hlog : forall (A : Type) p (r : result AppError A) w, inside R p -> named_inside w -> named_inside (log p r w).2) by (intros A p r w Hp Hw; apply Forall_app; split; [done|by apply Forall_singleton]).
  assert (Hs : forall p, strictly_inside R p -> inside R p) by (intros p; apply strictly_is_inside).
  split; intros; cbn [session sx_canonicalize_path sx_list_directory sx_symlink_metadata sx_read_file sx_read_file_range sx_write_file sx_create_directory sx_remove_dir sx_remove_file sx_rename sx_set_permissions sx_download_file sx_upload_file sx_execute_command]; auto.
  - split; [done|]. cbn [fst snd]. intros r Hr. unfold resolved in Hr. destruct (str_eqb p (canonical W)) eqn:E.
    + injection Hr as <-. split; [exists R; split; [repeat constructor|done]|done].
    + assert (Hne : p <> canonical W) by (unfold str_eqb in E; by apply bool_decide_eq_false in E). destruct (str_eqb p (canonical (W ++ [lit "world"]))); [|destruct (str_eqb p (canonical (W ++ [lit "out"]))); [|done]].
      all: injection Hr as <-; split; [|done].
      * exists (R ++ [lit "world"]). split; [repeat constructor|done].
      * exists [lit "etc"]. split; [repeat constructor|done].
  - split; [by apply Hlog|]. intros es e [= <-] He. apply list_elem_of_singleton in He as ->. split; [vm_compute; reflexivity|done].
  - apply Forall_app. split; [done|]. by repeat constructor.
Qed.
End JailSample.
(** The folder goes with what is in it, the link is not followed, and neither the
    directory itself nor anything above it is touched. *)
Lemma requests_stay_inside_witness :
  Forall (inside JailSample.R) JailSample.after /\
  JailSample.after = map canonical (map (app JailSample.R) [[lit "world"]; [lit "world"]; [lit "world"; lit "region"]; [lit "world"; lit "region"]; [lit "world"]; []]).
Proof.
  split; [|vm_compute; reflexivity].
  apply (@requests_stay_inside _ JailSample.session JailSample.W JailSample.R JailSample.named_inside JailSample.asked []); [repeat constructor|repeat constructor|exact JailSample.obeys|constructor].
Defined.
