(* ===== verification/AppFiles.v ===== *)
(** * AppFiles: the file manager of an application

    [services/application_files_service.rs] and the walk of [files/mod.rs], over
    the provider of [Archive] and the rest of the trait, the class [FileEditor].
    The class [FileSessions] is what reaching the files of a Node takes: the SSH
    sessions, the probe of their SFTP channel, the account and the helper of an
    application.  The sets of sessions that were verified and probed, which the
    program keeps for its own lifetime, are part of the state.

    A local file is its bytes and a folder on this computer a [LocalNode];
    progress is the list of reports. *)

From S2P Require Import Prelude Text Shell Sandbox Firewall Sudoers Docker Desktop AppLinks Archive UrlFetch.

#[local] Open Scope Z_scope.
#[local] Open Scope desk_scope.

(** ** Data *)

(** [read_file_capped] is its default; [save_in_one_call] says by [None] that it cannot. *)
Class FileEditor (World : Type) : Type := {
  fe_read_file_range : N -> list Z -> Z -> Z -> World -> result AppError (list Z) * World;
  fe_rename : N -> list Z -> list Z -> World -> result AppError unit * World;
  fe_copy : N -> list Z -> list Z -> World -> result AppError unit * World;
  fe_set_permissions : N -> list Z -> Z -> World -> result AppError unit * World;
  fe_fetch_url : N -> list Z -> list Z -> World -> result AppError Z * World;
  fe_save_in_one_call : N -> list Z -> list Z -> option (list Z) -> World -> option (result AppError unit) * World;
}.

Class FileSessions (World : Type) : Type := {
  se_connect : N -> World -> result AppError N * World;   (* [get_or_connect]: the session of a server *)
  se_canonicalize_dot : N -> World -> result AppError unit * World;
  se_remove : N -> World -> World;
  se_ensure_provisioned : N -> list Z -> World -> result AppError unit * World;
  se_ensure_helper : N -> World -> result AppError unit * World;
  se_now : World -> Z * World;   (* milliseconds *)
  se_stamp : Z -> list Z;   (* chrono's %Y-%m-%dT%H-%M-%SZ *)
  drag_outs : World -> list (N * option Z);   (* the folders of dragged-out copies, with their age in seconds *)
  drag_remove : N -> World -> World;
  drag_create : World -> result AppError unit * World;
}.

Record FileWindow : Type := mkWindow { fw_bytes : list Z; fw_total_size : Z; fw_next_offset : Z }.
Record FileHistoryVersion : Type := mkVersion { fv_timestamp : list Z; fv_size : Z }.
Record PlannedFile : Type := mkPlanned { pf_contents : list Z; pf_remote : list Z; pf_size : Z }.

(** The applications, and what the program remembers of its sessions. *)
Record FilesRows : Type := mkFiles { fi_applications : gmap N StoredApplication; fi_verified : gset (N * N); fi_probes : gmap N Z }.
Definition with_verified (rows : FilesRows) (verified : gset (N * N)) : FilesRows := mkFiles rows.(fi_applications) verified rows.(fi_probes).
Definition with_probes (rows : FilesRows) (probes : gmap N Z) : FilesRows := mkFiles rows.(fi_applications) rows.(fi_verified) probes.

Definition MAX_EDITABLE_FILE_SIZE : Z := 1024 * 1024.
Definition FILE_ACCESS_VERIFIED_CAP : nat := 512.
Definition SFTP_PROBE_INTERVAL : Z := 30 * 1000.
Definition MAX_DRAG_OUT_BYTES : Z := 25 * 1024 * 1024.
Definition DRAG_OUT_KEEP : Z := 60 * 60.
Definition MAX_UPLOAD_DEPTH : nat := 32.

(** ** What was verified *)

Definition needs_readiness_check (session_id application_id : N) (rows : FilesRows) : bool := negb (bool_decide ((session_id, application_id) ∈ rows.(fi_verified))).
Definition mark_ready (session_id application_id : N) (rows : FilesRows) : FilesRows :=
  with_verified rows ({[ (session_id, application_id) ]} ∪ (if (FILE_ACCESS_VERIFIED_CAP <=? size rows.(fi_verified))%nat then ∅ else rows.(fi_verified))).
Definition probe_is_still_fresh (session_id : N) (now : Z) (rows : FilesRows) : bool :=
  match rows.(fi_probes) !! session_id with Some at_ => now - at_ <? SFTP_PROBE_INTERVAL | None => false end.
Definition record_probe (session_id : N) (now : Z) (rows : FilesRows) : FilesRows :=
  with_probes rows (<[session_id := now]> (if (FILE_ACCESS_VERIFIED_CAP <=? size rows.(fi_probes))%nat then ∅ else rows.(fi_probes))).

(** ** Paths *)

Definition HISTORY : list Z := lit ".vibessh/history/".
Definition history_dir_for (path : list Z) : list Z := HISTORY ++ trim_start_matches (Z.eqb 47) path.
Definition join_remote (parent name : list Z) : list Z :=
  if str_eqb parent DOT || is_empty parent then name else trim_end_matches (Z.eqb 47) parent ++ [47] ++ name.
Definition partial_of (path : list Z) : list Z := path ++ lit ".vibessh-partial".

(** [wants_dedicated_user], of the flag of a configuration that is read. *)
Definition wants_dedicated_user (application : StoredApplication) : bool :=
  bool_decide (application.(sa_runtime_type) = RtDocker) && match application.(sa_config) with Ok config => config.(dc_run_as_dedicated_user) | Err _ => false end.

(** Which provider it is: [N] is all the operations below need of it. *)
Inductive ProviderKind : Type := LocalProvider (root : list Z) | SudoUserProvider (root user : list Z) | SftpProvider (root : list Z).
Definition provider_for (application_id : N) (application : StoredApplication) (connected : bool) : result AppError ProviderKind :=
  match application.(sa_server_id) with
  | None => Ok (LocalProvider application.(sa_working_directory))
  | Some _ =>
      if negb connected then Err (Internal (lit "a remote application's file provider requires a connection"))
      else if wants_dedicated_user application then Ok (SudoUserProvider application.(sa_working_directory) (username application_id))
      else Ok (SftpProvider application.(sa_working_directory))
  end.

(** *** A folder dropped onto the window *)

Inductive LocalNode : Type := LocalFile (contents : list Z) | LocalDir (entries : list (list Z * LocalNode)) | LocalLink | LocalOther.

Definition usable_name (name : list Z) : bool := negb (is_empty name || contains_char 47 name || str_eqb name DOT || str_eqb name DOTDOT).
(** [Path::file_name]. *)
Definition path_file_name (path : list Z) : option (list Z) :=
  match last (List.filter (fun c => negb (is_empty c || str_eqb c DOT)) (split_on (Z.eqb 47) path)) with
  | Some c => if str_eqb c DOTDOT then None else Some c
  | None => None
  end.
(** What a directory adds to the plan: the directories, the files and the queue. *)
Fixpoint plan_entries (remote_dir : list Z) (entries : list (list Z * LocalNode)) (directories : list (list Z)) (files : list PlannedFile) (queue : list (list (list Z * LocalNode) * list Z))
  : list (list Z) * list PlannedFile * list (list (list Z * LocalNode) * list Z) :=
  match entries with
  | [] => (directories, files, queue)
  | (name, node) :: entries =>
      if match node with LocalLink => true | _ => false end || negb (usable_name name) then plan_entries remote_dir entries directories files queue
      else
        let remote := join_remote remote_dir name in
        match node with
        | LocalDir inner => plan_entries remote_dir entries (directories ++ [remote]) files (queue ++ [(inner, remote)])
        | LocalFile contents => plan_entries remote_dir entries directories (files ++ [mkPlanned contents remote (Z.of_nat (length contents))]) queue
        | _ => plan_entries remote_dir entries directories files queue
        end
  end.
(** The queue is worked off level by level; [levels] is how many are left. *)
Fixpoint plan_level (queue : list (list (list Z * LocalNode) * list Z)) (directories : list (list Z)) (files : list PlannedFile) (next : list (list (list Z * LocalNode) * list Z))
  : list (list Z) * list PlannedFile * list (list (list Z * LocalNode) * list Z) :=
  match queue with
  | [] => (directories, files, next)
  | (entries, remote_dir) :: queue =>
      let '(directories, files, next) := plan_entries remote_dir entries directories files next in plan_level queue directories files next
  end.
Fixpoint plan_queue (levels : nat) (queue : list (list (list Z * LocalNode) * list Z)) (directories : list (list Z)) (files : list PlannedFile) : result AppError (list (list Z) * list PlannedFile) :=
  match queue, levels with
  | [], _ => Ok (directories, files)
  | _, O => Err (InvalidInput (mkInvalid [] (Other (lit "nests deeper than 32 levels - upload it in parts"))))
  | _, S levels => let '(directories, files, next) := plan_level queue directories files [] in plan_queue levels next directories files
  end.
Definition plan_directory_upload (root : list (list Z * LocalNode)) (remote_root : list Z) : result AppError (list (list Z) * list PlannedFile) :=
  plan_queue MAX_UPLOAD_DEPTH [(root, remote_root)] [remote_root] [].

(** *** Progress *)

Definition MIN_INTERVAL : Z := 150.
(** [throttled_reporter]: each chunk comes with the time since the start; the first may report at once. *)
Fixpoint reports (total transferred : Z) (last_emit : Z) (chunks : list (Z * Z)) : list (Z * Z) :=
  match chunks with
  | [] => []
  | (delta, now) :: chunks =>
      let transferred := transferred + delta in
      if (total <=? transferred) || (MIN_INTERVAL <=? now - last_emit) then (transferred, total) :: reports total transferred now chunks
      else reports total transferred last_emit chunks
  end.
Definition throttled_reporter (total : Z) (chunks : list (Z * Z)) : list (Z * Z) := reports total 0 (- MIN_INTERVAL) chunks.

(** ** The operations *)

Section services.
Context {World : Type} `{Desk World} `{FileProvider World} `{FileEditor World} `{FileSessions World} `{ZipCrate} `{UnicodeCase} `{UrlCrate}.
Notation FS := (D FilesRows World).

Definition note (f : FilesRows -> FilesRows) : FS unit := fun s => (Ok tt, mkDesk (f s.(ds_store)) s.(ds_fw)).
Definition look {A : Type} (f : FilesRows -> A) : FS A := fun s => (Ok (f s.(ds_store)), s).
Definition clock : FS Z := provided (fun w => let '(t, w) := se_now w in (Ok t, w)).
Definition new_id : FS N := fun s => (Ok s.(ds_fw).(fw_uuid), mkDesk s.(ds_store) (mkFw s.(ds_fw).(fw_node) s.(ds_fw).(fw_verified) (s.(ds_fw).(fw_uuid) + 1))).

Definition connect_with_live_sftp (server_id : N) : FS N :=
  connection <- provided (se_connect server_id) ;;
  now <- clock ;;
  fresh <- look (probe_is_still_fresh connection now) ;;
  if (fresh : bool) then dret connection
  else
    probed <- dtry (provided (se_canonicalize_dot connection)) ;;
    match probed with
    | Ok _ => now <- clock ;; note (record_probe connection now) ;;; dret connection
    | Err _ =>
        provided (fun w => (Ok tt, se_remove server_id w)) ;;;
        reconnected <- provided (se_connect server_id) ;;
        now <- clock ;;
        note (record_probe reconnected now) ;;;
        dret reconnected
    end.

(** The account and the helper, once for each session. *)
Definition ensure_ready (connection application_id : N) : FS unit :=
  account <- dtry (provided (se_ensure_provisioned connection (username application_id))) ;;
  helper <- dtry (provided (se_ensure_helper connection)) ;;
  if is_ok account && is_ok helper then note (mark_ready connection application_id) else dret tt.

Definition resolve_provider (application_id : N) : FS StoredApplication :=
  found <- statement "failed to read the application: " (fun rows => (rows.(fi_applications) !! application_id, rows)) ;;
  match found with
  | None => dthrow NotFound
  | Some detail =>
      connection <- (match detail.(sa_server_id) with
                     | None => dret None
                     | Some server_id => connection <- connect_with_live_sftp server_id ;; dret (Some connection)
                     end) ;;
      (match connection with
       | Some connection =>
           needed <- look (needs_readiness_check connection application_id) ;;
           if negb detail.(sa_shared) && wants_dedicated_user detail && needed then ensure_ready connection application_id else dret tt
       | None => dret tt
       end) ;;;
      match provider_for application_id detail (bool_decide (is_Some connection)) with
      | Ok _ => dret detail
      | Err e => dthrow e
      end
  end.
(** What most operations are: the provider, and one call of it. *)
Definition with_provider {A : Type} (application_id : N) (m : FS A) : FS A := resolve_provider application_id ;;; m.

Definition lower (s : list Z) : list Z := s ≫= char_to_lowercase.
Fixpoint text_le (a b : list Z) : bool := match a, b with [], _ => true | _ :: _, [] => false | x :: a, y :: b => (x <? y) || ((x =? y) && text_le a b) end.
Definition listed_before (a b : RemoteFileEntry) : Prop := if Bool.eqb a.(re_is_dir) b.(re_is_dir) then text_le (lower a.(re_name)) (lower b.(re_name)) = true else a.(re_is_dir) = true.
#[global] Instance listed_before_dec : RelDecision listed_before.
Proof. intros a b. unfold Decision, listed_before. destruct (Bool.eqb _ _); apply Bool.bool_dec. Defined.
Definition list_directory (application_id : N) (path : list Z) : FS (list RemoteFileEntry) :=
  with_provider application_id (entries <- provided (fp_list_directory application_id path) ;; dret (merge_sort listed_before entries)).
Definition get_metadata (application_id : N) (path : list Z) : FS RemoteFileEntry := with_provider application_id (provided (fp_metadata application_id path)).

Definition read_file_window (application_id : N) (path : list Z) (offset len : Z) : FS FileWindow :=
  with_provider application_id (
    meta <- provided (fp_metadata application_id path) ;;
    bytes <- provided (fe_read_file_range application_id path offset len) ;;
    dret (mkWindow bytes meta.(re_size) (offset + Z.of_nat (length bytes)))).
(** The trait's own [read_file_capped]. *)
Definition read_file_capped (application_id : N) (path : list Z) (max_bytes : Z) : FS (list Z) :=
  meta <- provided (fp_metadata application_id path) ;;
  if max_bytes <? meta.(re_size) then refuse path "is too large to edit directly - download it instead"
  else provided (fp_read_file application_id path).
Definition read_file_for_editor (application_id : N) (path : list Z) : FS (list Z) := with_provider application_id (read_file_capped application_id path MAX_EDITABLE_FILE_SIZE).

Definition write_file (application_id : N) (path contents : list Z) : FS unit := with_provider application_id (provided (fp_write_file application_id path contents)).

(** Written beside, then moved over; where that is refused, written directly. *)
Definition atomic_write_via_temp (provider : N) (path contents : list Z) : FS unit :=
  id <- new_id ;;
  let temp_path := path ++ lit ".vibessh-tmp-" ++ uuid_text id in
  provided (fp_write_file provider temp_path contents) ;;;
  moved <- dtry (provided (fe_rename provider temp_path path)) ;;
  match moved with
  | Ok _ => dret tt
  | Err _ =>
      result <- dtry (provided (fp_write_file provider path contents)) ;;
      dtry (provided (fp_delete provider temp_path)) ;;;
      match result with Ok _ => dret tt | Err e => dthrow e end
  end.
Definition save_in_one_call (provider : N) (path contents : list Z) (backup_path : option (list Z)) : FS (option (result AppError unit)) :=
  provided (fun w => let '(r, w) := fe_save_in_one_call provider path contents backup_path w in (Ok r, w)).
Definition atomic_write (provider : N) (path contents : list Z) : FS unit :=
  saved <- save_in_one_call provider path contents None ;;
  match saved with
  | Some (Ok _) => dret tt
  | Some (Err e) => dthrow e
  | None => atomic_write_via_temp provider path contents
  end.

Definition history_entry_path (path : list Z) (timestamp : Z) : list Z := history_dir_for path ++ [47] ++ se_stamp timestamp.
Definition back_up_in_place (provider : N) (path backup_path : list Z) : FS unit :=
  copied <- dtry (provided (fe_copy provider path backup_path)) ;;
  match copied with
  | Ok _ => dret tt
  | Err first =>
      match rsplit_once 47 backup_path with
      | None => dthrow first
      | Some (history_dir, _) => create_directory_all provider history_dir ;;; provided (fe_copy provider path backup_path)
      end
  end.
Definition save_file (application_id : N) (path contents : list Z) (backup : bool) : FS unit :=
  with_provider application_id (
    now <- clock ;;
    let backup_path := if backup then Some (history_entry_path path now) else None in
    saved <- save_in_one_call application_id path contents backup_path ;;
    match saved with
    | Some (Ok _) => dret tt
    | Some (Err e) => dthrow e
    | None =>
        match backup_path with Some backup_path => dtry (back_up_in_place application_id path backup_path) ;;; dret tt | None => dret tt end ;;;
        atomic_write_via_temp application_id path contents
    end).

Definition create_directory (application_id : N) (path : list Z) : FS unit := with_provider application_id (provided (fp_create_directory application_id path)).
Definition delete_path (application_id : N) (path : list Z) : FS unit := with_provider application_id (provided (fp_delete application_id path)).
Definition rename (application_id : N) (from to : list Z) : FS unit := with_provider application_id (provided (fe_rename application_id from to)).
Definition copy (application_id : N) (from to : list Z) : FS unit := with_provider application_id (provided (fe_copy application_id from to)).
Definition fetch_url (application_id : N) (path url : list Z) : FS Z :=
  match validate_fetch_url url with
  | Err e => dthrow e
  | Ok url =>
      if is_empty (trim path) || match last path with Some c => c =? 47 | None => false end then refuse [] "give the downloaded file a name"
      else with_provider application_id (provided (fe_fetch_url application_id path url))
  end.
Definition compress (application_id : N) (paths : list (list Z)) (destination_path : list Z) : FS unit := with_provider application_id (create_zip application_id paths destination_path).
Definition set_permissions (application_id : N) (path : list Z) (mode : Z) : FS unit :=
  if 4095 <? mode then refuse [] "not a valid POSIX permission value" else with_provider application_id (provided (fe_set_permissions application_id path mode)).

Definition download_file (application_id : N) (path : list Z) : FS (list Z) :=
  with_provider application_id (provided (fp_metadata application_id path) ;;; provided (fp_download_file application_id path)).
(** Copies older than an hour go; one that cannot be measured stays. *)
Definition clear_old_drag_outs : FS unit := provided (fun w =>
  (Ok tt, fold_left (fun w folder => match snd folder with Some age => if DRAG_OUT_KEEP <? age then drag_remove folder.1 w else w | None => w end) (drag_outs w) w)).
Definition prepare_drag_out (application_id : N) (path : list Z) : FS (list Z * list Z) :=
  with_provider application_id (
    entry <- provided (fp_metadata application_id path) ;;
    if entry.(re_is_dir) then refuse [] "folders can't be dragged out yet - compress it into an archive and drag that"
    else if MAX_DRAG_OUT_BYTES <? entry.(re_size) then refuse entry.(re_name) "is too large to drag out - use the download button instead"
    else
      clear_old_drag_outs ;;;
      provided drag_create ;;;
      match path_file_name entry.(re_name) with
      | None => refuse [] "that file has no name to drag it by"
      | Some name => bytes <- provided (fp_download_file application_id path) ;; dret (name, bytes)
      end).

(** The loop over the directories of [upload_directory]: one that is there already is no error. *)
Definition make_or_find (provider : N) (directory : list Z) (_ : unit) : FS unit :=
  created <- dtry (provided (fp_create_directory provider directory)) ;;
  match created with
  | Ok _ => dret tt
  | Err e => found <- dtry (provided (fp_metadata provider directory)) ;; match found with Ok _ => dret tt | Err _ => dthrow e end
  end.
Definition upload_directory (application_id : N) (name : option (list Z)) (local_src : list (list Z * LocalNode)) (path : list Z) : FS unit :=
  match name with
  | None => refuse [] "has no name to copy"
  | Some name =>
      match plan_directory_upload local_src (join_remote path name) with
      | Err e => dthrow e
      | Ok (directories, files) =>
          with_provider application_id (
            each (make_or_find application_id) directories tt ;;;
            each (fun file (_ : unit) => provided (fp_upload_file application_id file.(pf_contents) file.(pf_remote))) files tt)
      end
  end.

Definition upload_file (application_id : N) (bytes path : list Z) : FS unit :=
  with_provider application_id (
    let partial := partial_of path in
    uploaded <- dtry (provided (fp_upload_file application_id bytes partial)) ;;
    match uploaded with
    | Ok _ =>
        found <- dtry (provided (fp_metadata application_id path)) ;;
        (if is_ok found then provided (fp_delete application_id path) else dret tt) ;;;
        provided (fe_rename application_id partial path)
    | Err e => dtry (provided (fp_delete application_id partial)) ;;; dthrow e
    end).

Definition extract_archive (application_id : N) (source_path destination : list Z) : FS Z :=
  with_provider application_id (archive_bytes <- provided (fp_read_file application_id source_path) ;; extract_zip application_id archive_bytes destination).

Definition newer_version (a b : FileHistoryVersion) : Prop := text_le b.(fv_timestamp) a.(fv_timestamp) = true.
#[global] Instance newer_version_dec : RelDecision newer_version.
Proof. intros a b. apply Bool.bool_dec. Defined.
Definition list_file_history (application_id : N) (path : list Z) : FS (list FileHistoryVersion) :=
  with_provider application_id (
    entries <- dtry (provided (fp_list_directory application_id (history_dir_for path))) ;;
    match entries with
    | Ok entries => dret (merge_sort newer_version (map (fun e => mkVersion e.(re_name) e.(re_size)) (List.filter (fun e => negb e.(re_is_dir)) entries)))
    | Err _ => dret []
    end).
Definition restore_file_history (application_id : N) (path timestamp : list Z) : FS unit :=
  with_provider application_id (
    contents <- provided (fp_read_file application_id (history_dir_for path ++ [47] ++ timestamp)) ;;
    atomic_write application_id path contents).
Definition clear_file_history (application_id : N) (path : list Z) : FS unit :=
  with_provider application_id (
    found <- dtry (provided (fp_metadata application_id (history_dir_for path))) ;;
    match found with Ok _ => provided (fp_delete application_id (history_dir_for path)) | Err _ => dret tt end).
End services.
