(* ===== verification/FileEdits.v ===== *)
(** * FileEdits: what saving and uploading leave behind

    The operations of [AppFiles] that replace a file, over the contract of
    [FileTree] and its continuation [EditLaws] for moving and copying a file,
    which the provider of this machine keeps.  A call may fail at any point, and
    one that answered with an error may still have had its effect. *)

From S2P Require Import Prelude Text Shell Sandbox Firewall Sudoers Docker Desktop AppLinks Archive FileTree Posix MemoryFiles LocalFiles LocalJail LocalTree AppFiles.

#[local] Open Scope Z_scope.

(** ** The contracts *)

Record EditLaws {World : Type} `{FileEditor World} (files : N -> World -> Tree) : Prop := mkEditLaws {
  edit_rename : forall a from to ps qs bytes w, at_path from ps -> at_path to qs -> link_free (files a w) -> files a w !! ps = Some (FFile bytes) ->
    let '(r, w') := fe_rename a from to w in
    (files a w' = files a w /\ is_ok r = false) \/ (files a w !! qs <> Some FDir /\ files a w' = <[qs := FFile bytes]> (delete ps (files a w)));
  edit_copy : forall a from to ps qs bytes w, at_path from ps -> at_path to qs -> link_free (files a w) -> files a w !! ps = Some (FFile bytes) -> ps <> qs ->
    let '(r, w') := fe_copy a from to w in
    files a w' = files a w /\ is_ok r = false \/ exists part, files a w' = <[qs := FFile part]> (files a w) /\ (is_ok r = true -> part = bytes);
}.

(** Reaching a Node leaves the files of its applications alone. *)
Class QuietSessions (World : Type) `{FileTree World} `{Desk World} `{FileSessions World} : Prop := {
  qs_store : forall a w, files a (store_fault w).2 = files a w;
  qs_connect : forall a server w, files a (se_connect server w).2 = files a w;
  qs_probe : forall a session w, files a (se_canonicalize_dot session w).2 = files a w;
  qs_drop : forall a server w, files a (se_remove server w) = files a w;
  qs_provision : forall a session user w, files a (se_ensure_provisioned session user w).2 = files a w;
  qs_helper : forall a session w, files a (se_ensure_helper session w).2 = files a w;
  qs_clock : forall a w, files a (se_now w).2 = files a w;
}.

(** ** Paths *)

Lemma plain_suffix (n s : list Z) : plain n -> contains_char 47 s = false -> contains_char 0 s = false -> contains_char 92 s = false -> (3 <= length s)%nat -> plain (n ++ s).
Proof.
  unfold plain, entry_name, contains_char. intros [He Hb] HA HB HC Hl. rewrite !andb_true_iff, !negb_true_iff, !orb_false_iff in *. destruct He as [[_ H4] H5].
  assert (Hs : forall u : list Z, (length u < 3)%nat -> str_eqb (n ++ s) u = false).
  { intros u Hu. apply bool_decide_eq_false. intros E. apply (f_equal length) in E. rewrite length_app in E. lia. }
  rewrite !existsb_app, HA, HB, HC, Hb, H5, H4, !Hs by (cbn; lia). split_and!; try done. destruct n; [|done]. destruct s; [cbn in Hl; lia|done].
Qed.
Lemma text_suffix (dir : Path) (n s : list Z) : text (dir ++ [n]) ++ s = text (dir ++ [n ++ s]).
Proof. destruct dir as [|d dir]; [done|]. rewrite !text_snoc by done. by rewrite <- !app_assoc. Qed.

(** ** Reaching the files *)

Section edits.
Context {World : Type} `{FileTree World} `{Desk World} `{FileSessions World} `{!QuietSessions World} `{FileEditor World} (edit_laws : EditLaws files) (a : N).
Notation FS := (D FilesRows World).
#[local] Open Scope desk_scope.

Lemma reads_tried {A : Type} (t : Tree) (m : FS A) (Q : A -> Prop) : reads a t m Q -> reads a t (dtry m) (fun r => forall x, r = Ok x -> Q x).
Proof. unfold reads. intros Hm. apply does_try. eapply does_conseq; [exact Hm|done|]. intros r t' _ [-> Hr]. split; [done|]. by intros x [= <-]. Qed.
Lemma reads_any {A : Type} (t : Tree) (m : FS A) (Q : A -> Prop) : reads a t m Q -> reads a t m (fun _ => True).
Proof. intros Hm. by eapply reads_conseq. Qed.
Lemma reads_row {A : Type} (t : Tree) (message : string) (f : FilesRows -> A * FilesRows) : reads a t (statement message f) (fun _ => True).
Proof.
  intros s Hs. unfold statement, ask, faulty. pose proof (qs_store a (fw_node (ds_fw s))) as Hv. destruct (store_fault (fw_node (ds_fw s))) as [[detail|] w]; cbn in *; [by rewrite Hv|].
  destruct (f (ds_store s)) as [x rows]. cbn. by rewrite Hv.
Qed.
Lemma reads_note (t : Tree) (f : FilesRows -> FilesRows) : reads a t (note f) (fun _ => True).
Proof. intros s Hs. by split. Qed.
Lemma reads_look {A : Type} (t : Tree) (f : FilesRows -> A) : reads a t (look f) (fun _ => True).
Proof. intros s Hs. by split. Qed.
Lemma reads_new_id (t : Tree) : reads a t new_id (fun _ => True).
Proof. intros s Hs. by split. Qed.
Lemma reads_clock (t : Tree) : reads a t clock (fun _ => True).
Proof. apply reads_provided. intros w <-. pose proof (qs_clock a w) as Hc. by destruct (se_now w). Qed.
Lemma reads_quiet {A : Type} (t : Tree) (f : World -> result AppError A * World) : (forall w, files a (f w).2 = files a w) -> reads (St := FilesRows) a t (provided f) (fun _ => True).
Proof. intros Hf. apply reads_provided. by intros w <-. Qed.
Hint Resolve reads_row reads_note reads_look reads_new_id reads_clock : quiet.
Ltac quietly := first [by apply reads_ret|apply reads_throw|by eauto with quiet|apply reads_quiet; intros; cbn; first [apply qs_connect|apply qs_probe|apply qs_drop|apply qs_provision|apply qs_helper]
  |(eapply reads_any, reads_tried; quietly)|(eapply (reads_seq _ _ _ _ (fun _ => True)); [quietly|intros ? _])|case_match].

Lemma reads_connect (t : Tree) (server_id : N) : reads a t (connect_with_live_sftp server_id) (fun _ => True).
Proof. unfold connect_with_live_sftp. repeat quietly. Qed.
Lemma reads_ready (t : Tree) (connection application_id : N) : reads a t (ensure_ready connection application_id) (fun _ => True).
Proof. unfold ensure_ready. repeat quietly. Qed.
Lemma reads_provider (t : Tree) (application_id : N) : reads a t (resolve_provider application_id) (fun _ => True).
Proof. pose proof reads_connect. pose proof reads_ready. unfold resolve_provider. repeat quietly. Qed.
(** What an operation does once the files are reached; reaching them may fail. *)
Lemma does_with_provider {A : Type} (t : Tree) (m : FS A) (Q : result AppError A -> Tree -> Prop) : (forall e, Q (Err e) t) -> does a (eq t) m Q -> does a (eq t) (with_provider a m) Q.
Proof.
  intros HE Hm. unfold with_provider. apply (does_bind _ _ _ _ (fun _ => eq t)); [|done]. eapply does_conseq; [apply (reads_provider t a)|done|]. intros [x|e] t' _ [-> _]; done.
Qed.

(** ** Uploading *)

Lemma does_moved (t : Tree) (from to : list Z) (ps qs : Path) (bytes : list Z) : at_path from ps -> at_path to qs -> link_free t -> t !! ps = Some (FFile bytes) ->
  does (St := FilesRows) a (eq t) (provided (fe_rename a from to)) (fun r t' => (t' = t /\ is_ok r = false) \/ (t !! qs <> Some FDir /\ t' = <[qs := FFile bytes]> (delete ps t))).
Proof.
  intros Hf Ht Hl Hp. apply does_provided. intros w ->. pose proof (edit_rename _ edit_laws a from to ps qs bytes w Hf Ht Hl Hp) as Hr. by destruct (fe_rename a from to w).
Qed.
Lemma does_deleted (t : Tree) (path : list Z) (ps : Path) : at_path path ps -> link_free t ->
  does (St := FilesRows) a (eq t) (provided (fp_delete a path)) (fun r t' => t' ⊆ t /\ (forall q, ~ ps `prefix_of` q -> t' !! q = t !! q) /\ (is_ok r = true -> forall q, ps `prefix_of` q -> t' !! q = None)).
Proof. intros Hp Hl. apply does_provided. intros w ->. pose proof (ft_delete a path ps w Hp Hl) as Hd. by destruct (fp_delete a path w). Qed.
Lemma does_uploaded (t : Tree) (path : list Z) (ps : Path) (bytes : list Z) : at_path path ps -> link_free t ->
  does (St := FilesRows) a (eq t) (provided (fp_upload_file a bytes path)) (fun r t' => match r with Ok _ => t' = <[ps := FFile bytes]> t | Err _ => t' = t \/ exists part, t' = <[ps := FFile part]> t end).
Proof. intros Hp Hl. apply does_provided. intros w ->. pose proof (ft_upload a path ps bytes w Hp Hl) as Hu. destruct (fp_upload_file a bytes path w) as [[u|e] w']; [by destruct Hu as (_ & _ & Hu)|done]. Qed.

(** What an upload to [ps], by way of [part], may leave of the tree [t]. *)
Definition upload_left (t : Tree) (ps part : Path) (bytes : list Z) (r : result AppError unit) (t' : Tree) : Prop :=
  (forall q, ~ ps `prefix_of` q -> ~ part `prefix_of` q -> t' !! q = t !! q) /\
  (t' !! ps = t !! ps \/ t' !! ps = Some (FFile bytes) \/ t' !! ps = None /\ t' !! part = Some (FFile bytes)) /\
  (r = Ok tt -> t' !! ps = Some (FFile bytes) /\ t' !! part = None).

Section uploading.
Context (dir : Path) (n bytes : list Z) (t : Tree).
Let ps : Path := dir ++ [n].
Let part : Path := dir ++ [n ++ lit ".vibessh-partial"].
Hypothesis ps_plain : Forall plain ps.
Hypothesis t_links : link_free t.

Lemma part_plain : Forall plain part.
Proof. apply Forall_app in ps_plain as [Hd Hn]. rewrite Forall_singleton in Hn. apply Forall_app. split; [done|]. apply Forall_singleton, plain_suffix; try done. vm_compute. lia. Qed.
Lemma at_part : at_path (partial_of (text ps)) part.
Proof. unfold partial_of, ps. rewrite text_suffix. apply at_path_text; [apply part_plain|by destruct dir]. Qed.
Lemma at_ps : at_path (text ps) ps.
Proof. apply at_path_text; [done|]. unfold ps. by destruct dir. Qed.
Lemma snoc_prefix (m m' : list Z) : (dir ++ [m]) `prefix_of` (dir ++ [m']) -> m = m'.
Proof. intros Hp%prefix_app_inv. by apply prefix_cons_inv_1 in Hp. Qed.
Lemma part_apart : ~ ps `prefix_of` part /\ ~ part `prefix_of` ps.
Proof. assert (Hne : n <> n ++ lit ".vibessh-partial") by (intros E; apply (f_equal length) in E; rewrite length_app in E; cbn in E; lia). split; intros E%snoc_prefix; congruence. Qed.

(** The transfer failed: what arrived of it is removed. *)
Lemma left_failed (t1 t2 : Tree) (e : AppError) : (t1 = t \/ exists some, t1 = <[part := FFile some]> t) -> (forall q, ~ part `prefix_of` q -> t2 !! q = t1 !! q) -> upload_left t ps part bytes (Err e) t2.
Proof.
  intros Hone Htwo. destruct part_apart as [HA HB]. assert (Hq : forall q, ~ part `prefix_of` q -> t2 !! q = t !! q).
  { intros q Hq. rewrite Htwo by done. destruct Hone as [-> |[some ->]]; [done|]. apply lookup_insert_ne. intros ->. by apply Hq. }
  split_and!; [intros q _ Hp; by apply Hq|left; by apply Hq|done].
Qed.
(** The destination may have been removed, and the file is still beside it. *)
Lemma left_waiting (t2 : Tree) (e : AppError) : t2 ⊆ <[part := FFile bytes]> t -> (forall q, ~ ps `prefix_of` q -> t2 !! q = (<[part := FFile bytes]> t : Tree) !! q) -> upload_left t ps part bytes (Err e) t2.
Proof.
  intros Hs Hq. destruct part_apart as [HA HB]. split_and!.
  - intros q Hp Hpp. rewrite Hq by done. apply lookup_insert_ne. intros ->. by apply Hpp.
  - destruct (t2 !! ps) as [node|] eqn:E.
    + left. eapply lookup_weaken in E; [|exact Hs]. rewrite lookup_insert_ne in E by (intros E'; by apply HB; rewrite E'). done.
    + right; right. split; [done|]. rewrite Hq by done. apply lookup_insert_eq.
  - done.
Qed.
Lemma left_moved (t2 : Tree) (r : result AppError unit) : (forall q, ~ ps `prefix_of` q -> t2 !! q = (<[part := FFile bytes]> t : Tree) !! q) -> upload_left t ps part bytes r (<[ps := FFile bytes]> (delete part t2)).
Proof.
  intros Hq. destruct part_apart as [HA HB]. assert (Hne : ps <> part) by (intros E; apply HA; by rewrite E). split_and!.
  - intros q Hp Hpp. rewrite lookup_insert_ne by (intros ->; by apply Hp). rewrite lookup_delete_ne by (intros ->; by apply Hpp). rewrite Hq by done.
    apply lookup_insert_ne. intros ->. by apply Hpp.
  - right; left. apply lookup_insert_eq.
  - intros _. split; [apply lookup_insert_eq|]. by rewrite lookup_insert_ne, lookup_delete_eq.
Qed.

Lemma does_upload : does a (eq t) (upload_file a bytes (text ps)) (upload_left t ps part bytes).
Proof.
  unfold upload_file. apply does_with_provider; [intros e; split_and!; [done|by left|done]|]. cbn zeta.
  apply (does_bind _ _ _ _ (fun r t1 => match r with Ok _ => t1 = <[part := FFile bytes]> t | Err _ => t1 = t \/ exists some, t1 = <[part := FFile some]> t end)).
  { apply does_try. apply (does_uploaded t _ part bytes at_part t_links). }
  intros [u|e]; apply does_pre; intros t1 _ Hone.
  - subst t1. set (t1 := <[part := FFile bytes]> t : Tree). assert (Hl1 : link_free t1) by (by apply link_free_insert).
    apply (does_bind _ _ _ _ (fun _ => eq t1)).
    { eapply does_conseq; [eapply reads_tried, (reads_metadata a t1 _ ps at_ps Hl1)|done|]. intros [x|e] t2 _ [-> _]; [done|]. apply left_waiting; done. }
    intros found. apply (does_bind _ _ _ _ (fun _ t2 => t2 ⊆ t1 /\ forall q, ~ ps `prefix_of` q -> t2 !! q = t1 !! q)).
    { destruct (is_ok found); [|apply does_ret; by intros ? <-]. eapply does_conseq; [apply (does_deleted t1 _ ps at_ps Hl1)|done|].
      intros [x|e] t2 _ (HA & HB & _); [done|]. by apply left_waiting. }
    intros _. apply does_pre. intros t2 _ [HA HB].
    assert (Hb : t2 !! part = Some (FFile bytes)) by (rewrite HB by apply part_apart; apply lookup_insert_eq).
    eapply does_conseq; [apply (does_moved t2 _ _ part ps bytes at_part at_ps (link_free_subset _ _ HA Hl1) Hb)|done|].
    intros [[]|e] t3 _ [[-> Hr]|[_ ->]]; try done; try (by apply left_moved). by apply left_waiting.
  - assert (Hl1 : link_free t1) by (destruct Hone as [-> |[some ->]]; [done|by apply link_free_insert]).
    apply (does_bind _ _ _ _ (fun _ t2 => forall q, ~ part `prefix_of` q -> t2 !! q = t1 !! q)).
    { apply does_try. eapply does_conseq; [apply (does_deleted t1 _ part at_part Hl1)|done|]. by intros r t2 _ (_ & HB & _). }
    intros _. apply does_throw. intros t2 Hq. by eapply left_failed.
Qed.
End uploading.
End edits.

(** ** The files of this machine *)

(** [files/local.rs]; downloading a link is the network's. *)
Definition local_editor (root : N -> FsPath) (fetch_url : N -> list Z -> list Z -> PosixWorld -> result AppError Z * PosixWorld) : FileEditor PosixWorld := {|
  fe_read_file_range := fun a path offset len => local_read_file_range root a path (Z.to_nat offset) (Z.to_nat len); fe_rename := local_rename root; fe_copy := local_copy root; fe_set_permissions := local_set_permissions root;
  fe_fetch_url := fetch_url; fe_save_in_one_call := fun _ _ _ _ w => (None, w);
|}.

Lemma below_nothing (fs : Fs) (p x : FsPath) : wf_fs fs -> is_dir_node (fs_node fs p) = false -> x <> [] -> fs !! (p ++ x) = None.
Proof.
  intros Hw Hd Hx. destruct (fs !! (p ++ x)) eqn:E; [|done]. exfalso. assert (Hs : is_Some (fs_node fs (p ++ x))) by (rewrite fs_node_cons, E by (by destruct p, x); by eexists).
  apply dir_above in Hs; [congruence|done..].
Qed.

Section local.
#[local] Open Scope posix_scope.
Context (root : N -> FsPath) (a : N) (fs : Fs).
Notation R := (root a).
Notation t := (subtree fs R).
Hypothesis fs_wf : wf_fs fs.
Hypothesis R_dir : is_dir_node (fs_node fs R) = true.
Hypothesis t_links : link_free t.

Lemma moved_file (ps qs : Path) (bytes : list Z) : t !! ps = Some (FFile bytes) -> ~ (R ++ ps) `prefix_of` (R ++ qs) -> ~ (R ++ qs) `prefix_of` (R ++ ps) -> replaceable fs (R ++ ps) (R ++ qs) = true ->
  t !! qs <> Some FDir /\ subtree (moved fs (R ++ ps) (R ++ qs)) R = <[qs := FFile bytes]> (delete ps t).
Proof.
  intros Hp HA HB Hr. assert (Hne : ps <> []) by (intros ->; by rewrite lookup_subtree in Hp). assert (Hqne : qs <> []) by (intros ->; apply HB; rewrite app_nil_r; by apply prefix_app_r).
  rewrite lookup_subtree_ne in Hp by done. apply fmap_Some in Hp as (v & Hv & Hn). destruct v as [contents mode| |]; try done. injection Hn as <-.
  unfold replaceable in Hr. rewrite Hv in Hr. assert (Hto : is_dir_node (fs_node fs (R ++ qs)) = false) by (rewrite fs_node_cons by (by destruct R, qs); by destruct (fs !! (R ++ qs)) as [[| |]|]).
  assert (Hfrom : is_dir_node (fs_node fs (R ++ ps)) = false) by (rewrite fs_node_cons, Hv by (by destruct R, ps); done).
  split; [rewrite lookup_subtree_ne by done; rewrite fs_node_cons in Hto by (by destruct R, qs); by destruct (fs !! (R ++ qs)) as [[| |]|]|].
  apply map_eq. intros y. destruct (decide (y = [])) as [->|Hy]; [by rewrite lookup_insert_ne, lookup_delete_ne, !lookup_subtree by done|].
  rewrite lookup_subtree_ne, lookup_moved by done. destruct (decide ((R ++ qs) `prefix_of` (R ++ y))) as [[z Hz]|Hq].
  - rewrite bool_decide_true by (by exists z). rewrite Hz, drop_prefix. rewrite <- app_assoc in Hz. apply app_inv_head in Hz as ->. destruct z as [|c z].
    + by rewrite !app_nil_r, lookup_insert_eq, Hv.
    + rewrite (below_nothing fs (R ++ ps)) by done. rewrite lookup_insert_ne by (intros E; symmetry in E; rewrite <- (app_nil_r qs) in E at 2; by apply app_inv_head in E).
      rewrite lookup_delete_ne by (intros ->; apply HB; rewrite app_assoc; by apply prefix_app_r). rewrite lookup_subtree_ne by done. by rewrite app_assoc, (below_nothing fs (R ++ qs)).
  - rewrite bool_decide_false by done. rewrite lookup_insert_ne by (intros ->; by apply Hq). destruct (decide ((R ++ ps) `prefix_of` (R ++ y))) as [[z Hz]|Hf].
    + rewrite bool_decide_true by (by exists z). rewrite <- app_assoc in Hz. apply app_inv_head in Hz as ->. destruct z as [|c z]; [by rewrite app_nil_r, lookup_delete_eq|].
      rewrite lookup_delete_ne by (intros E; rewrite <- (app_nil_r ps) in E at 1; by apply app_inv_head in E). rewrite lookup_subtree_ne by done. by rewrite app_assoc, (below_nothing fs (R ++ ps)).
    + rewrite bool_decide_false by done. rewrite lookup_delete_ne by (intros ->; by apply Hf). by rewrite lookup_subtree_ne.
Qed.

Lemma changes_rename (from to : list Z) (ps qs : Path) (bytes : list Z) : at_path from ps -> at_path to qs -> t !! ps = Some (FFile bytes) ->
  iodoes (eq fs) (local_rename root a from to)
    (fun r fs' => is_dir_node (fs_node fs' R) = true /\ (subtree fs' R = t /\ is_ok r = false \/ t !! qs <> Some FDir /\ subtree fs' R = <[qs := FFile bytes]> (delete ps t))).
Proof.
  intros Hf Ht Hp. destruct (at_path_names root a from ps Hf) as (Hn & _ & _). destruct (at_path_names root a to qs Ht) as (Hn' & _ & _). unfold local_rename.
  eapply ioreads_then; [by apply reads_entry_path|intros e; split; [done|by left]|]. intros p ->. eapply ioreads_then; [by apply reads_entry_path|intros e; split; [done|by left]|]. intros p ->.
  assert (Hw : forall fs', rename_at fs (R ++ ps) (R ++ qs) = Some fs' -> is_dir_node (fs_node fs' R) = true /\ t !! qs <> Some FDir /\ subtree fs' R = <[qs := FFile bytes]> (delete ps t)).
  { intros fs' Hm. destruct (touch_rename R fs R_dir (R ++ ps) (R ++ qs) fs') as ([_ Hd] & _ & Hcase); [by apply named_leads..|by apply prefix_app_r|by apply prefix_app_r|done|]. split; [done|].
    destruct Hcase as [[E ->]|(HA & HB & HC & ->)]; [|by apply moved_file]. apply app_inv_head in E as <-. split; [congruence|]. by rewrite insert_delete_eq, insert_id. }
  apply iodoes_write; [intros fs' Hm|intros n fs' Hm|split; [done|by left]]; apply Hw in Hm as [HA HB]; (split; [done|by right]).
Qed.

(** *** A copy of a file *)

(** The tree, but for what was copied so far. *)
Definition copied (qs : Path) (part : list Z) (fs' : Fs) : Prop := is_dir_node (fs_node fs' R) = true /\ subtree fs' R = <[qs := FFile part]> t.
Lemma copied_links (qs : Path) (part : list Z) (fs' : Fs) : copied qs part fs' -> link_free (subtree fs' R).
Proof. intros [_ ->]. by apply link_free_insert. Qed.
Lemma copied_write (qs : Path) (part contents : list Z) : Forall (fun n => entry_name n = true) qs ->
  iodoes (copied qs part) (write_to (R ++ qs) contents) (fun r fs' => match r with Ok _ => copied qs contents fs' | Err _ => exists part, copied qs part fs' end).
Proof.
  intros Hn. apply iodoes_pre. intros fs' Hw Hc. assert (Hgo : forall c fs'', write_at fs' (R ++ qs) c = Some fs'' -> copied qs c fs'').
  { intros c fs'' Hm. apply (write_at_tree root a fs' Hw (proj1 Hc) (copied_links _ _ _ Hc)) in Hm as (HA & _ & _ & HD); [|done]. split; [done|]. destruct Hc as [_ Hc]. by rewrite HD, Hc, insert_insert_eq. }
  apply iodoes_write; [intros fs'' Hm; by apply (Hgo _ _ Hm)|intros n fs'' Hm; eexists; by apply (Hgo _ _ Hm)|by exists part].
Qed.
Lemma copied_chmod (qs : Path) (part : list Z) (mode : Z) (e : AppError) : Forall (fun n => entry_name n = true) qs -> qs <> [] -> iodoes (copied qs part) (sys_write (fun _ fs => chmod_at fs (R ++ qs) mode) e) (fun _ => copied qs part).
Proof.
  intros Hn Hne. apply iodoes_pre. intros fs' Hw Hc. assert (Hgo : forall fs'', chmod_at fs' (R ++ qs) mode = Some fs'' -> copied qs part fs'').
  { intros fs'' Hm. pose proof (named_leads root a fs' Hw (proj1 Hc) (copied_links _ _ _ Hc) false true qs Hn) as Hl.
    destruct (touch_chmod R fs' Hw (proj1 Hc) _ _ _ Hl ltac:(by apply prefix_app_r) Hm) as [_ Hd]. split; [done|].
    unfold chmod_at, realpath in Hm. destruct (walk _ _ _ _ _ _) as [q|] eqn:E; cbn [mbind option_bind] in Hm; [|done]. apply Hl in E as ->.
    destruct Hc as [_ Hc]. assert (Hq : subtree fs' R !! qs = Some (FFile part)) by (rewrite Hc; apply lookup_insert_eq). rewrite lookup_subtree_ne in Hq by done.
    destruct (fs' !! (R ++ qs)) as [[contents m| |]|]; try done. injection Hq as ->. injection Hm as <-. by rewrite subtree_insert, Hc, insert_insert_eq by done. }
  apply iodoes_write; [by intros; apply Hgo|by intros; apply Hgo|done].
Qed.

Lemma changes_copy_file (ps qs : Path) (bytes : list Z) : Forall (fun n => entry_name n = true) ps -> Forall (fun n => entry_name n = true) qs -> t !! ps = Some (FFile bytes) -> ps <> qs ->
  iodoes (eq fs) (copy_file (R ++ ps) (R ++ qs)) (fun r fs' => fs' = fs /\ is_ok r = false \/ exists part, copied qs part fs' /\ (is_ok r = true -> part = bytes)).
Proof.
  intros Hn Hn' Hp Hne. unfold copy_file. eapply ioreads_then; [apply ioreads_sys|intros e; by left|]. intros node _. destruct node as [c mode| |]; try (apply iodoes_throw; intros ? <-; by left).
  apply (iodoes_bind _ _ _ (fun _ fs' => qs <> [] /\ copied qs [] fs')).
  { assert (Hgo : forall c fs', write_at fs (R ++ qs) c = Some fs' -> qs <> [] /\ copied qs c fs') by (intros c' fs' Hm; apply write_at_tree in Hm as (HA & HB & _ & HD); done).
    apply iodoes_write; [intros fs' Hm; by apply (Hgo _ _ Hm)|intros n fs' Hm; right; exists (written (Some n) []); split; [by apply (Hgo _ _ Hm)|done]|by left]. }
  intros _. apply iodoes_pre. intros fs1 _ [Hq Hc]. apply (iodoes_bind _ _ _ (fun _ => copied qs [])).
  { eapply iodoes_conseq; [apply (copied_chmod qs [] mode _ Hn' Hq)|by intros ? <-|]. intros [u|e] fs' _ Hc'; [done|]. right. by exists []. }
  intros _. apply iodoes_pre. intros fs2 Hw2 Hc2. eapply ioreads_then; [apply ioreads_sys|intros e; right; by exists []|]. intros contents Hr. cbn beta in Hr.
  apply (read_at_tree root a fs2 Hw2 (proj1 Hc2) (copied_links _ _ _ Hc2)) in Hr; [|done]. destruct Hc2 as [Hd2 Ht2]. rewrite Ht2, lookup_insert_ne in Hr by done.
  assert (contents = bytes) as -> by congruence. eapply iodoes_conseq; [apply (copied_write qs [] bytes Hn')|by intros ? <-|]. intros [u|e] fs' _ Hr'; right; [by exists bytes|]. destruct Hr' as [part Hr']. by exists part.
Qed.
Lemma changes_copy (from to : list Z) (ps qs : Path) (bytes : list Z) : at_path from ps -> at_path to qs -> t !! ps = Some (FFile bytes) -> ps <> qs ->
  iodoes (eq fs) (local_copy root a from to) (fun r fs' => fs' = fs /\ is_ok r = false \/ exists part, copied qs part fs' /\ (is_ok r = true -> part = bytes)).
Proof.
  intros Hf Ht Hp Hne. destruct (at_path_names root a from ps Hf) as (Hn & _ & _). destruct (at_path_names root a to qs Ht) as (Hn' & _ & _). unfold local_copy.
  eapply ioreads_then; [by apply reads_free|intros e; by left|]. intros p ->. eapply ioreads_then; [by apply reads_free|intros e; by left|]. intros p ->.
  assert (Hlv : exists levels, PATH_LEVELS = S levels) by (by eexists). destruct Hlv as [levels ->]. cbn [copy_recursive].
  eapply ioreads_then; [apply ioreads_sys|intros e; by left|]. intros node Hnode. cbn beta in Hnode.
  assert (Hfile : exists mode, node = PFile bytes mode).
  { unfold lstat, entry_at in Hnode. destruct (walk _ _ _ _ _ _) as [q|] eqn:E; cbn [mbind option_bind] in Hnode; [|done]. apply named_leads in E as ->; [|done..].
    assert (Hps : ps <> []) by (intros ->; by rewrite lookup_subtree in Hp). rewrite lookup_subtree_ne in Hp by done. rewrite fs_node_cons in Hnode by (by destruct R, ps). rewrite Hnode in Hp. destruct node as [c m| |]; try done. injection Hp as ->. by eexists. }
  destruct Hfile as [mode ->]. by apply changes_copy_file.
Qed.
End local.

(** Moving and copying a file on this machine is as [EditLaws] says. *)
Lemma local_edits (root : N -> FsPath) fetch_url : @EditLaws PosixWorld (local_editor root fetch_url) (local_files root).
Proof.
  split; cbn [fe_rename fe_copy local_editor].
  - intros a from to ps qs bytes w Hf Ht (Hd & -> & Hl)%link_file_not_free Hp.
    pose proof (changes_rename root a (pw_fs w) (wf_fsb_ok _ (pw_wf w)) Hd Hl from to ps qs bytes Hf Ht Hp w eq_refl) as Hr. destruct (local_rename root a from to w) as [r w']. destruct Hr as [Hd' Hr]. by rewrite (files_after root a w' Hd').
  - intros a from to ps qs bytes w Hf Ht (Hd & -> & Hl)%link_file_not_free Hp Hne.
    pose proof (changes_copy root a (pw_fs w) (wf_fsb_ok _ (pw_wf w)) Hd Hl from to ps qs bytes Hf Ht Hp Hne w eq_refl) as Hr. destruct (local_copy root a from to w) as [r w']. cbn [fst snd] in Hr.
    destruct Hr as [[Hfs Hr]|(part & [Hd' Hc] & Hr)]; [left|right; exists part].
    + split; [|done]. unfold local_files. by rewrite Hfs, Hd.
    + by rewrite (files_after root a w' Hd').
Qed.

(** C22: The provider of this machine keeps the contract of a file provider: whatever
    fails on the way, listing, reading, writing, creating, deleting, moving and
    copying do to the tree of names below the working directory exactly what
    [TreeLaws] and [EditLaws] promise.  Both promise it of a directory that holds
    no links, and of moving and copying they speak of files alone.  What is
    proved of backups, archives and uploads against the contract therefore holds
    of these files. *)
Theorem local_provider_keeps_the_contract (root : N -> FsPath) fetch_url :
  @TreeLaws PosixWorld (local_provider root) (local_files root) /\ @EditLaws PosixWorld (local_editor root fetch_url) (local_files root).
Proof. split; [apply local_tree_laws|apply local_edits]. Qed.

(** C23: An upload never leaves a cut-off file under its name.  In a directory
    without links, over a provider that keeps the contract of [TreeLaws] and
    [EditLaws], wherever the upload stops: at its path is what was there, or the
    new file whole, or nothing, and then the new file waits whole beside it; and
    every path that is neither at or below that one nor at or below the name of
    the waiting file is as it was.  Success means the new file, and nothing
    waiting.  (What was at the path may have been a directory, and then it is
    gone with everything below it: of the paths below the theorem says nothing.) *)
Theorem uploads_never_truncate {World : Type} `{FileTree World} `{Desk World} `{FileSessions World} `{!QuietSessions World} `{FileEditor World} (edit_laws : EditLaws files)
    (a : N) (dir : Path) (n bytes : list Z) (r : result AppError unit) (s s' : DeskState FilesRows World) :
  let t := files a s.(ds_fw).(fw_node) in let t' := files a s'.(ds_fw).(fw_node) in
  let ps := dir ++ [n] in let part := dir ++ [n ++ lit ".vibessh-partial"] in
  Forall plain ps -> link_free t -> upload_file a bytes (text ps) s = (r, s') ->
  (forall q, ~ ps `prefix_of` q -> ~ part `prefix_of` q -> t' !! q = t !! q) /\
  (t' !! ps = t !! ps \/ t' !! ps = Some (FFile bytes) \/ t' !! ps = None /\ t' !! part = Some (FFile bytes)) /\
  (r = Ok tt -> t' !! ps = Some (FFile bytes) /\ t' !! part = None).
Proof.
  cbn zeta. intros Hp Hl Hu. pose proof (does_upload edit_laws a dir n bytes _ Hp Hl s eq_refl) as Hd. rewrite Hu in Hd. exact Hd.
Qed.

Module UploadSample.
Definition where_ (a : N) : FsPath := [lit "srv"; lit "app"].
Definition machine : Fs := <[[lit "srv"] := PDir 493]> (<[where_ 1 := PDir 493]> (<[where_ 1 ++ [lit "server.jar"] := PFile (lit "old") 420]> ∅)).
#[local] Instance provider : FileProvider PosixWorld := local_provider where_.
#[local] Instance editor : FileEditor PosixWorld := local_editor where_ (fun _ _ _ w => (Err NotFound, w)).
#[local] Instance tree : FileTree PosixWorld := {| files := local_files where_; tree_laws := local_tree_laws where_ |}.
#[local] Instance desk : Desk PosixWorld := {| store_fault := fun w => (None, w); load_environment_secret := fun _ _ w => (Ok None, w); get_or_connect := fun _ w => (Ok tt, w) |}.
#[local] Instance sessions : FileSessions PosixWorld := {|
  se_connect := fun server w => (Ok server, w); se_canonicalize_dot := fun _ w => (Ok tt, w); se_remove := fun _ w => w; se_ensure_provisioned := fun _ _ w => (Ok tt, w);
  se_ensure_helper := fun _ w => (Ok tt, w); se_now := fun w => (0, w); se_stamp := fun _ => lit "t"; drag_outs := fun _ => []; drag_remove := fun _ w => w; drag_create := fun w => (Ok tt, w);
|}.
#[local] Instance quiet : QuietSessions PosixWorld.
Proof. split; done. Defined.
Definition app : StoredApplication := mkStored None (lit "app") RtLocalProcess [] (Err []) [] [] false.
(** The machine's call number [k] fails. *)
Definition start (k : nat) : DeskState FilesRows PosixWorld :=
  mkDesk (mkFiles {[1%N := app]} ∅ ∅) (mkFw (mkPosix machine ltac:(vm_compute; reflexivity) 0 (fun n => if (n =? k)%nat then Some O else None)) ∅ 5%N).
Definition finished (k : nat) : result AppError unit * DeskState FilesRows PosixWorld := upload_file 1 (lit "new jar") (lit "server.jar") (start k).
Definition tree_of (s : DeskState FilesRows PosixWorld) : Tree := local_files where_ 1 s.(ds_fw).(fw_node).
Lemma both {A B : Type} (p : A * B) : p = (p.1, p.2).
Proof. by destruct p. Qed.
Lemma start_links (k : nat) : link_free (tree_of (start k)).
Proof. apply sound_treeb_ok. vm_compute. reflexivity. Qed.
End UploadSample.

(** The move into place fails, as the eighteenth call on the machine, or nothing does. *)
Lemma uploads_never_truncate_witness :
  let t' k := UploadSample.tree_of (UploadSample.finished k).2 in
  (t' 17%nat !! [lit "server.jar"] = None /\ (t' 17%nat !! [lit "server.jar"] = Some (FFile (lit "old")) \/ t' 17%nat !! [lit "server.jar"] = Some (FFile (lit "new jar")) \/
    t' 17%nat !! [lit "server.jar"] = None /\ t' 17%nat !! [lit "server.jar.vibessh-partial"] = Some (FFile (lit "new jar")))) /\
  t' 30%nat !! [lit "server.jar"] = Some (FFile (lit "new jar")).
Proof.
  intros t'.
  assert (Hthm : forall k, _) by (intros k; exact (@uploads_never_truncate PosixWorld UploadSample.provider UploadSample.tree UploadSample.desk UploadSample.sessions UploadSample.quiet UploadSample.editor (local_edits _ _) 1 []
    (lit "server.jar") (lit "new jar") (UploadSample.finished k).1 (UploadSample.start k) (UploadSample.finished k).2 ltac:(repeat constructor) (UploadSample.start_links k) (UploadSample.both _))).
  split; [split|].
  - vm_compute. reflexivity.
  - destruct (Hthm 17%nat) as (_ & HB & _). exact HB.
  - destruct (Hthm 30%nat) as (_ & _ & HC). apply HC. vm_compute. reflexivity.
Defined.
