(* ===== verification/Mysql.v ===== *)
(** * Mysql: what a MySQL server and its clients read

    The part of MySQL and MariaDB that [services/database_service.rs] drives: how
    the client splits a text into statements, how the server reads a string, a
    quoted name and an account (in its default mode, where a backslash escapes),
    how an option file is read, and what the statements do to the databases, the
    accounts and the privileges of a server. *)

From S2P Require Import Prelude Text.

#[local] Open Scope Z_scope.

(** ** Tokens *)

Inductive Token : Type :=
| TWord (word : list Z)
| TString (value : list Z)
| TName (name : list Z)   (* between backticks *)
| TMark (c : Z).

(** Where the reader is: what it has read of a token, backwards. *)
Inductive LexState : Type :=
| Between
| InWord (acc : list Z)
| InString (acc : list Z)
| Escaped (acc : list Z)      (* after a backslash in a string *)
| AfterQuote (acc : list Z)   (* after a quote in a string: its end, or half of a doubled one *)
| InName (acc : list Z)
| AfterTick (acc : list Z).

Definition word_char (c : Z) : bool := is_ascii_alphanumeric c || (c =? 95) || (c =? 36).
Definition unescaped (c : Z) (acc : list Z) : list Z :=
  if c =? 48 then 0 :: acc else if c =? 110 then 10 :: acc else if c =? 116 then 9 :: acc else if c =? 114 then 13 :: acc else if c =? 98 then 8 :: acc
  else if c =? 90 then 26 :: acc else if (c =? 37) || (c =? 95) then c :: 92 :: acc else c :: acc.
(** A character that begins a token, or is one. *)
Definition begin (c : Z) : LexState * list Token :=
  if is_whitespace c then (Between, [])
  else if c =? 39 then (InString [], [])
  else if c =? 96 then (InName [], [])
  else if word_char c then (InWord [c], [])
  else (Between, [TMark c]).
(** One character: where the reader is after it, and the tokens it ended. *)
Definition step (st : LexState) (c : Z) : LexState * list Token :=
  match st with
  | Between => begin c
  | InWord acc => if word_char c then (InWord (c :: acc), []) else ((begin c).1, TWord (rev acc) :: (begin c).2)
  | InString acc => if c =? 39 then (AfterQuote acc, []) else if c =? 92 then (Escaped acc, []) else (InString (c :: acc), [])
  | Escaped acc => (InString (unescaped c acc), [])
  | AfterQuote acc => if c =? 39 then (InString (39 :: acc), []) else ((begin c).1, TString (rev acc) :: (begin c).2)
  | InName acc => if c =? 96 then (AfterTick acc, []) else (InName (c :: acc), [])
  | AfterTick acc => if c =? 96 then (InName (96 :: acc), []) else ((begin c).1, TName (rev acc) :: (begin c).2)
  end.
Fixpoint run (st : LexState) (text : list Z) : LexState * list Token :=
  match text with
  | [] => (st, [])
  | c :: text => let '(st, ts) := step st c in let '(st, ts') := run st text in (st, ts ++ ts')
  end.
(** The end of the text ends a token too, but not a string or a name that was opened. *)
Definition finish (st : LexState) : option (list Token) :=
  match st with
  | Between => Some []
  | InWord acc => Some [TWord (rev acc)]
  | AfterQuote acc => Some [TString (rev acc)]
  | AfterTick acc => Some [TName (rev acc)]
  | _ => None
  end.
Definition lex (text : list Z) : option (list Token) := let '(st, ts) := run Between text in app ts <$> finish st.

(** ** Statements *)

Abbreviation Account := (list Z * list Z)%type.   (* the user and the host pattern *)
Inductive SqlStatement : Type :=
| CreateDatabase (name : list Z)                            (* IF NOT EXISTS *)
| DropDatabase (name : list Z)                              (* IF EXISTS *)
| CreateUser (account : Account) (password : list Z)        (* IF NOT EXISTS *)
| AlterUser (if_exists : bool) (account : Account) (password : list Z)
| DropUser (account : Account)                              (* IF EXISTS *)
| GrantAll (database : option (list Z)) (account : Account) (with_grant : bool)
| FlushPrivileges.

#[global] Instance token_eq : EqDecision Token.
Proof. solve_decision. Defined.
Fixpoint strip_tokens (p ts : list Token) : option (list Token) :=
  match p, ts with
  | [], _ => Some ts
  | a :: p, b :: ts => if bool_decide (a = b) then strip_tokens p ts else None
  | _ :: _, [] => None
  end.
Definition words (s : string) : list Token := map TWord (split_whitespace (lit s)).
(** [user@host], both quoted. *)
Definition account (ts : list Token) : option (Account * list Token) :=
  match ts with TString user :: TMark 64 :: TString host :: ts => Some ((user, host), ts) | _ => None end.
Definition identified (ts : list Token) : option (list Z) := match strip_tokens (words "IDENTIFIED BY") ts with Some [TString password] => Some password | _ => None end.
(** [privileges] are followed by a scope, an account and perhaps the right to pass them on. *)
Definition read_grant (ts : list Token) : option SqlStatement :=
  scope ← match ts with
          | TMark 42 :: TMark 46 :: TMark 42 :: ts => Some (None, ts)
          | TName name :: TMark 46 :: TMark 42 :: ts => Some (Some name, ts)
          | _ => None
          end;
  ts ← strip_tokens (words "TO") scope.2;
  who ← account ts;
  match who.2 with
  | [] => Some (GrantAll scope.1 who.1 false)
  | ts => if bool_decide (ts = words "WITH GRANT OPTION") then Some (GrantAll scope.1 who.1 true) else None
  end.
Definition read_statement (ts : list Token) : option SqlStatement :=
  match strip_tokens (words "CREATE DATABASE IF NOT EXISTS") ts with Some [TName name] => Some (CreateDatabase name) | Some _ => None | None =>
  match strip_tokens (words "DROP DATABASE IF EXISTS") ts with Some [TName name] => Some (DropDatabase name) | Some _ => None | None =>
  match strip_tokens (words "CREATE USER IF NOT EXISTS") ts with Some ts => who ← account ts; CreateUser who.1 <$> identified who.2 | None =>
  match strip_tokens (words "ALTER USER IF EXISTS") ts with Some ts => who ← account ts; AlterUser true who.1 <$> identified who.2 | None =>
  match strip_tokens (words "ALTER USER") ts with Some ts => who ← account ts; AlterUser false who.1 <$> identified who.2 | None =>
  match strip_tokens (words "DROP USER IF EXISTS") ts with Some ts => who ← account ts; (match who.2 with [] => Some (DropUser who.1) | _ => None end) | None =>
  match strip_tokens (words "GRANT ALL PRIVILEGES ON") ts with Some ts => read_grant ts | None =>
  if bool_decide (ts = words "FLUSH PRIVILEGES") then Some FlushPrivileges else None
  end end end end end end end.
(** The tokens up to each semicolon; an empty statement is passed over. *)
Fixpoint split_statements (acc : list Token) (ts : list Token) : list (list Token) :=
  match ts with
  | [] => match acc with [] => [] | _ => [rev acc] end
  | TMark 59 :: ts => match acc with [] => split_statements [] ts | _ => rev acc :: split_statements [] ts end
  | t :: ts => split_statements (t :: acc) ts
  end.
Definition read_sql (text : list Z) : option (list SqlStatement) := ts ← lex text; mapM read_statement (split_statements [] ts).

(** ** A server *)

Record MysqlState : Type := mkMysql { my_databases : gset (list Z); my_users : gmap (list Z * list Z) (list Z); my_grants : gset (option (list Z) * (list Z * list Z)) }.
(** What a statement does when the server accepts it. *)
Definition execute (m : MysqlState) (s : SqlStatement) : option MysqlState :=
  match s with
  | CreateDatabase name => Some (mkMysql ({[name]} ∪ m.(my_databases)) m.(my_users) m.(my_grants))
  | DropDatabase name => Some (mkMysql (m.(my_databases) ∖ {[name]}) m.(my_users) m.(my_grants))
  | CreateUser who password =>
      Some (match m.(my_users) !! who with Some _ => m | None => mkMysql m.(my_databases) (<[who := password]> m.(my_users)) m.(my_grants) end)
  | AlterUser if_exists who password =>
      match m.(my_users) !! who with
      | Some _ => Some (mkMysql m.(my_databases) (<[who := password]> m.(my_users)) m.(my_grants))
      | None => if (if_exists : bool) then Some m else None
      end
  | DropUser who => Some (mkMysql m.(my_databases) (delete who m.(my_users)) (filter (fun grant => grant.2 <> who) m.(my_grants)))
  | GrantAll database who _ =>
      match m.(my_users) !! who with Some _ => Some (mkMysql m.(my_databases) m.(my_users) ({[(database, who)]} ∪ m.(my_grants))) | None => None end
  | FlushPrivileges => Some m
  end.
Definition execute_all (m : MysqlState) (l : list SqlStatement) : option MysqlState := foldl (fun m s => m ≫= fun m => execute m s) (Some m) l.
(** A client stops at the first statement that fails, and any may. *)
Definition got_to (m : MysqlState) (l : list SqlStatement) (k : nat) (m' : MysqlState) : Prop := execute_all m (take k l) = Some m'.

(** The database name of a grant is a pattern: an underscore stands for any one
    character and a percent sign for any number of them (without escapes). *)
Fixpoint pattern_covers (pattern name : list Z) : bool :=
  match pattern with
  | [] => is_empty name
  | c :: pattern =>
      if c =? 95 then match name with _ :: name => pattern_covers pattern name | [] => false end
      else if c =? 37 then (fix any (name : list Z) : bool := pattern_covers pattern name || match name with _ :: name => any name | [] => false end) name
      else match name with x :: name => (x =? c) && pattern_covers pattern name | [] => false end
  end.

(** ** Option files

    [my_search_option_file]: a line of an option file is cut at a hash outside
    quotes, trimmed, freed of its quotes and unescaped. *)

Fixpoint cut_comment (quote : option Z) (escape : bool) (s : list Z) : list Z :=
  match s with
  | [] => []
  | c :: s =>
      let quote' := if ((c =? 39) || (c =? 34)) && negb escape then match quote with None => Some c | Some q => if q =? c then None else quote end else quote in
      if bool_decide (quote' = None) && (c =? 35) then []
      else c :: cut_comment quote' (bool_decide (is_Some quote') && (c =? 92) && negb escape) s
  end.
Definition option_space (c : Z) : bool := (c =? 32) || ((9 <=? c) && (c <=? 13)).
Definition unquote (s : list Z) : list Z :=
  match s with
  | q :: rest => if ((q =? 39) || (q =? 34)) && (1 <? Z.of_nat (length s)) && bool_decide (last s = Some q) then removelast rest else s
  | [] => []
  end.
Fixpoint option_unescape (s : list Z) : list Z :=
  match s with
  | 92 :: ((c :: s') as rest) =>
      (if c =? 110 then [10] else if c =? 116 then [9] else if c =? 114 then [13] else if c =? 98 then [8] else if c =? 115 then [32]
       else if (c =? 34) || (c =? 39) || (c =? 92) then [c] else [92; c]) ++ option_unescape s'
  | c :: s => c :: option_unescape s
  | [] => []
  end.
Definition option_value (s : list Z) : list Z := option_unescape (unquote (trim_start_matches option_space (trim_end_matches option_space s))).
(** The value of [key] in [group]; the last one counts. *)
Fixpoint option_lines (key : list Z) (in_group : bool) (group : list Z) (found : option (list Z)) (l : list (list Z)) : option (list Z) :=
  match l with
  | [] => found
  | line :: l =>
      match trim_start_matches option_space line with
      | [] => option_lines key in_group group found l
      | c :: rest =>
          if (c =? 35) || (c =? 59) then option_lines key in_group group found l
          else if c =? 91 then option_lines key (str_eqb (take_while (fun c => negb (c =? 93)) rest) group) group found l
          else
            match split_once 61 (cut_comment None false (c :: rest)) with
            | Some (name, value) => option_lines key in_group group (if in_group && str_eqb (trim_end_matches option_space name) key then Some (option_value value) else found) l
            | None => option_lines key in_group group found l
            end
      end
  end.
Definition read_option (group key file : list Z) : option (list Z) := option_lines key false group None (lines file).
