(* ===== verification/Databases.v ===== *)
(** * Databases: the databases of applications

    [services/database_service.rs], its models and [storage/database_repository.rs]:
    the hosts databases are made on, the databases and accounts made for an
    application, and the [mysql] client that is run on a Node for it.  The class
    [DatabaseNodes] is the Nodes and the random numbers, [Keyring] the credential
    store of the operating system.  Timestamps are left out. *)

From S2P Require Import Prelude Text Shell Validators Firewall Network Docker Desktop AppLinks Archive.

#[local] Open Scope Z_scope.
#[local] Open Scope desk_scope.

(** ** Data *)

Inductive DatabaseEngine : Type := Mysql | Mariadb.
Record DatabaseHost : Type := mkDatabaseHost {
  dh_id : N; dh_server_id : option N; dh_name : list Z; dh_engine : DatabaseEngine; dh_host : list Z; dh_port : Z; dh_admin_username : list Z; dh_phpmyadmin : option N;
}.
Record CreateDatabaseHostInput : Type := mkHostInput {
  hi_server_id : option N; hi_name : list Z; hi_engine : DatabaseEngine; hi_host : list Z; hi_port : Z; hi_admin_username : list Z; hi_admin_password : list Z;
}.
Record UpdateDatabaseHostInput : Type := mkHostUpdate { hu_name : list Z; hu_host : list Z; hu_port : Z; hu_admin_username : list Z; hu_admin_password : list Z }.
Record ApplicationDatabase : Type := mkDatabase {
  ad_id : N; ad_application_id : N; ad_database_host_id : N; ad_database_name : list Z; ad_username : list Z; ad_connections_from : list Z;
}.
Record CreateApplicationDatabaseInput : Type := mkDatabaseInput {
  di_application_id : N; di_database_host_id : N; di_database_name : list Z; di_username : list Z; di_connections_from : list Z;
}.
Record DatabaseCreated : Type := mkDatabaseCreated { dc_database : ApplicationDatabase; dc_container_access_error : option AppError }.

(** The tables; of a server only the address counts here. *)
Record DatabaseRows : Type := mkDatabaseRows {
  dr_hosts : gmap N DatabaseHost; dr_databases : gmap N ApplicationDatabase; dr_applications : gmap N StoredApplication; dr_servers : gmap N (list Z);
}.
Definition with_hosts (rows : DatabaseRows) (hosts : gmap N DatabaseHost) : DatabaseRows := mkDatabaseRows hosts rows.(dr_databases) rows.(dr_applications) rows.(dr_servers).
Definition with_databases (rows : DatabaseRows) (databases : gmap N ApplicationDatabase) : DatabaseRows := mkDatabaseRows rows.(dr_hosts) databases rows.(dr_applications) rows.(dr_servers).

Inductive SecretKind : Type := DatabaseHostAdmin | ApplicationDatabaseUser.
Class Keyring (World : Type) : Type := {
  store_secret : N -> SecretKind -> list Z -> World -> result AppError unit * World;
  load_secret : N -> SecretKind -> World -> result AppError (option (list Z)) * World;
  forget_secret : N -> SecretKind -> World -> World;
}.
Class DatabaseNodes (World : Type) : Type := {
  dn_connect : N -> World -> result AppError unit * World;
  dn_remove_session : N -> World -> World;
  dn_execute : N -> list Z -> World -> result AppError CommandOutput * World;
  dn_write_file : N -> list Z -> list Z -> World -> result AppError unit * World;
  dn_random : World -> Z * World;
}.

(** ** Texts *)

Definition MAX_DATABASE_NAME_LEN : Z := 64.
Definition MAX_USERNAME_LEN : Z := 32.
Definition RANDOM_SUFFIX_LEN : nat := 6.
Definition GENERATED_PASSWORD_LEN : nat := 24.
Definition CONNECTIONS_FROM : list Z := lit "172.%".
Definition grant_hosts : list (list Z) := [CONNECTIONS_FROM; lit "localhost"].

(** [str::replace]; an empty pattern is found between all characters. *)
Fixpoint replace_from (p by_ : list Z) (skip : nat) (s : list Z) : list Z :=
  match s with
  | [] => []
  | c :: s' =>
      match skip with
      | S skip => replace_from p by_ skip s'
      | O => if starts_with p s then by_ ++ replace_from p by_ (length p - 1) s' else c :: replace_from p by_ 0 s'
      end
  end.
Definition replace_str (p by_ s : list Z) : list Z := if is_empty p then by_ ++ (s ≫= fun c => c :: by_) else replace_from p by_ 0 s.
(** What stands before and after the first [p]. *)
Fixpoint split_at_str (p s : list Z) : option (list Z * list Z) :=
  match strip_prefix p s with
  | Some rest => Some ([], rest)
  | None => match s with [] => None | c :: s => parts ← split_at_str p s; Some (c :: parts.1, parts.2) end
  end.
Definition has_str (p s : list Z) : bool := bool_decide (is_Some (split_at_str p s)).

Definition unreserved_byte (c : Z) : bool := is_ascii_alphanumeric c || (c =? 45) || (c =? 95) || (c =? 46) || (c =? 126).
Definition hex_upper_digit (n : Z) : Z := if n <? 10 then 48 + n else 55 + n.
Definition percent_encode_query_value (value : list Z) : list Z :=
  utf8 value ≫= fun byte => if unreserved_byte byte then [byte] else [37; hex_upper_digit (byte / 16); hex_upper_digit (byte mod 16)].

Definition is_loopback_host (host : list Z) : bool := str_eqb host (lit "127.0.0.1") || str_eqb host (lit "localhost") || str_eqb host (lit "::1").

(** Backslashes doubled, then quotes. *)
Definition sql_char (c : Z) : list Z := if c =? 92 then [92; 92] else if c =? 39 then [39; 39] else [c].
Definition sql_quote (value : list Z) : list Z := [39] ++ (value ≫= sql_char) ++ [39].
Definition option_char (c : Z) : list Z := if c =? 92 then [92; 92] else if c =? 34 then [92; 34] else [c].
Definition option_file_value (value : list Z) : list Z := [34] ++ (value ≫= option_char) ++ [34].
Definition defaults_file_contents (admin_password : list Z) : list Z := lit "[client]" ++ [10] ++ lit "password=" ++ option_file_value admin_password ++ [10].

Definition build_mysql_command (defaults_file : list Z) (host : DatabaseHost) (sql : list Z) : list Z :=
  lit "mysql --defaults-extra-file=" ++ quote defaults_file ++ lit " --protocol=TCP -h " ++ quote host.(dh_host) ++ lit " -P " ++ to_dec host.(dh_port)
  ++ lit " -u " ++ quote host.(dh_admin_username) ++ lit " -e " ++ quote sql.
Definition build_mysql_restore_command (defaults_file : list Z) (host : DatabaseHost) (database_name dump_path : list Z) : list Z :=
  lit "mysql --defaults-extra-file=" ++ quote defaults_file ++ lit " --protocol=TCP -h " ++ quote host.(dh_host) ++ lit " -P " ++ to_dec host.(dh_port)
  ++ lit " -u " ++ quote host.(dh_admin_username) ++ lit " " ++ quote database_name ++ lit " < " ++ quote dump_path.
Definition build_mysqldump_command (defaults_file : list Z) (host : DatabaseHost) (database_name dump_path : list Z) : list Z :=
  lit "install -m 600 /dev/null " ++ quote dump_path ++ lit " && mysqldump --defaults-extra-file=" ++ quote defaults_file ++ lit " --protocol=TCP -h " ++ quote host.(dh_host)
  ++ lit " -P " ++ to_dec host.(dh_port) ++ lit " -u " ++ quote host.(dh_admin_username)
  ++ lit " --single-transaction --routines --triggers --no-tablespaces --no-create-db " ++ quote database_name ++ lit " > " ++ quote dump_path.
Definition is_safe_identifier (value : list Z) : bool := negb (is_empty value) && (byte_len value <=? 64) && forallb (fun c => is_ascii_alphanumeric c || (c =? 95)) value.

(** "Access denied for user ..." *)
Definition socket_auth_refusal (detail : list Z) : option (list Z) :=
  if negb (has_str (lit "1698") detail) then None
  else
    let around := fun c => (c =? 39) || (c =? 34) || (c =? 46) in
    let user := parts ← split_at_str (lit "for user ") detail;
                let rest := match split_at_str (lit "for user ") parts.2 with Some parts => parts.1 | None => parts.2 end in
                let user := trim_end_matches around (trim_start_matches around (trim rest)) in
                if is_empty user then None else Some user in
    Some (default (lit "that account") user).

Definition slugify (input : list Z) : list Z := map to_ascii_lowercase (List.filter is_ascii_alphanumeric input).

(** *** What the statements are *)

Definition create_user_sql (database_name username password host : list Z) : list Z :=
  lit "CREATE USER IF NOT EXISTS '" ++ username ++ lit "'@'" ++ host ++ lit "' IDENTIFIED BY '" ++ password ++ lit "'; GRANT ALL PRIVILEGES ON `" ++ database_name ++ lit "`.* TO '"
  ++ username ++ lit "'@'" ++ host ++ lit "'; ".
Definition create_sql (database_name username password : list Z) : list Z :=
  lit "CREATE DATABASE IF NOT EXISTS `" ++ database_name ++ lit "`; " ++ (grant_hosts ≫= create_user_sql database_name username password) ++ lit "FLUSH PRIVILEGES;".
Definition drop_user_sql (username host : list Z) : list Z := lit "DROP USER IF EXISTS '" ++ username ++ lit "'@'" ++ host ++ lit "'; ".
Definition drop_sql (database_name username : list Z) (hosts : list (list Z)) : list Z := (hosts ≫= drop_user_sql username) ++ lit "DROP DATABASE IF EXISTS `" ++ database_name ++ lit "`;".
Definition alter_user_sql (username password host : list Z) : list Z := lit "ALTER USER IF EXISTS '" ++ username ++ lit "'@'" ++ host ++ lit "' IDENTIFIED BY '" ++ password ++ lit "'; ".
Definition reset_sql (username password : list Z) (hosts : list (list Z)) : list Z := (hosts ≫= alter_user_sql username password) ++ lit "FLUSH PRIVILEGES;".
Definition grant_sql (host : DatabaseHost) (admin_password : list Z) : list Z :=
  let user := sql_quote host.(dh_admin_username) in
  let addr := sql_quote host.(dh_host) in
  let local_ := sql_quote (lit "localhost") in
  let pass := sql_quote admin_password in
  lit "CREATE USER IF NOT EXISTS " ++ user ++ lit "@" ++ addr ++ lit " IDENTIFIED BY " ++ pass ++ lit "; "
  ++ lit "CREATE USER IF NOT EXISTS " ++ user ++ lit "@" ++ local_ ++ lit " IDENTIFIED BY " ++ pass ++ lit "; "
  ++ lit "ALTER USER " ++ user ++ lit "@" ++ addr ++ lit " IDENTIFIED BY " ++ pass ++ lit "; "
  ++ lit "ALTER USER " ++ user ++ lit "@" ++ local_ ++ lit " IDENTIFIED BY " ++ pass ++ lit "; "
  ++ lit "GRANT ALL PRIVILEGES ON *.* TO " ++ user ++ lit "@" ++ addr ++ lit " WITH GRANT OPTION; "
  ++ lit "GRANT ALL PRIVILEGES ON *.* TO " ++ user ++ lit "@" ++ local_ ++ lit " WITH GRANT OPTION; "
  ++ lit "FLUSH PRIVILEGES;".

(** *** The script that lets containers through *)

Definition REACHABILITY_BIND_UNSUPPORTED : Z := 10.
Definition REACHABILITY_FIREWALL_FAILED : Z := 13.
(** A line of the script, with its double quotes written as tildes. *)
Definition script (s : string) : list Z := map (fun c => if c =? 126 then 34 else c) (lit s).
Definition reachability_script (port : Z) : list Z :=
  script "set -e" ++ [10] ++
  script "# A non-root admin's SSH exec PATH on Debian has no sbin directories, so" ++ [10] ++
  script "# `ip` and `ufw` looked absent and the firewall half was skipped as if the" ++ [10] ++
  script "# Node had no firewall." ++ [10] ++
  script "PATH=~$PATH:/usr/local/sbin:/usr/sbin:/sbin~" ++ [10] ++
  [10] ++
  script "bridge=$(ip -4 -o addr show docker0 2>/dev/null | awk '{print $4}' | cut -d/ -f1)" ++ [10] ++
  script "if [ -z ~$bridge~ ]; then" ++ [10] ++
  script "    # No Docker bridge on this Node yet - nothing to widen the bind for," ++ [10] ++
  script "    # and widening it ~just in case~ is exactly the mistake this replaced." ++ [10] ++
  script "    exit 0" ++ [10] ++
  script "fi" ++ [10] ++
  [10] ++
  script "# MariaDB reads mariadb.conf.d and MySQL mysql.conf.d; each includes its" ++ [10] ++
  script "# own directory after the file that sets the package's loopback bind, so a" ++ [10] ++
  script "# 99- drop-in there wins. This used to write to the MariaDB one on every" ++ [10] ++
  script "# Node, which does not exist on a MySQL one." ++ [10] ++
  script "if [ -d /etc/mysql/mariadb.conf.d ]; then" ++ [10] ++
  script "    dir=/etc/mysql/mariadb.conf.d" ++ [10] ++
  script "elif [ -d /etc/mysql/mysql.conf.d ]; then" ++ [10] ++
  script "    dir=/etc/mysql/mysql.conf.d" ++ [10] ++
  script "else" ++ [10] ++
  script "    echo ~no MariaDB or MySQL configuration directory under /etc/mysql - this is not a Debian or Ubuntu database server package~ >&2" ++ [10] ++
  script "    exit 11" ++ [10] ++
  script "fi" ++ [10] ++
  script "path=~$dir/99-vibessh-bind.cnf~" ++ [10] ++
  script "if systemctl is-active --quiet mariadb 2>/dev/null; then" ++ [10] ++
  script "    service=mariadb" ++ [10] ++
  script "else" ++ [10] ++
  script "    service=mysql" ++ [10] ++
  script "fi" ++ [10] ++
  [10] ++
  script "desired=$(printf '[mysqld]" ++ [10] ++
  script "bind-address = 127.0.0.1,%s" ++ [10] ++
  script "' ~$bridge~)" ++ [10] ++
  script "current=$(sudo cat ~$path~ 2>/dev/null || true)" ++ [10] ++
  script "if [ ~$current~ != ~$desired~ ]; then" ++ [10] ++
  script "    printf '%s' ~$desired~ | sudo tee ~$path~ >/dev/null" ++ [10] ++
  script "    if ! sudo systemctl restart ~$service~; then" ++ [10] ++
  script "        # This server cannot parse a multi-address bind. Roll back rather" ++ [10] ++
  script "        # than fall back to 0.0.0.0 - a database that is unreachable from" ++ [10] ++
  script "        # containers is a fixable inconvenience; one that is reachable from" ++ [10] ++
  script "        # the internet is not." ++ [10] ++
  script "        sudo rm -f ~$path~" ++ [10] ++
  script "        if ! sudo systemctl restart ~$service~; then" ++ [10] ++
  script "            echo ~the database server does not start even without VibeSSH's bind setting~ >&2" ++ [10] ++
  script "            exit 12" ++ [10] ++
  script "        fi" ++ [10] ++
  script "        exit " ++ to_dec REACHABILITY_BIND_UNSUPPORTED ++ [10] ++
  script "    fi" ++ [10] ++
  script "fi" ++ [10] ++
  [10] ++
  script "# The second half. Only when ufw is both installed and enforcing: on a Node" ++ [10] ++
  script "# with no firewall there is nothing in the way and nothing to add, and" ++ [10] ++
  script "# switching one on here is not this step's decision to make. The status line" ++ [10] ++
  script "# is matched whole: ~Status: inactive~ contains ~active~ too." ++ [10] ++
  script "if command -v ufw >/dev/null 2>&1 && sudo ufw status 2>/dev/null | head -n1 | grep -qi '^status: active'; then" ++ [10] ++
  script "    # `ufw allow` is idempotent - a rule that is already there is skipped" ++ [10] ++
  script "    # rather than duplicated. The second form is for an old ufw with no" ++ [10] ++
  script "    # `comment` support." ++ [10] ++
  script "    if ! sudo ufw allow in proto tcp from 172.16.0.0/12 to ~$bridge~ port " ++ to_dec port ++ script " comment 'vibessh: containers reach the database' >/dev/null 2>&1; then" ++ [10] ++
  script "        sudo ufw allow in proto tcp from 172.16.0.0/12 to ~$bridge~ port " ++ to_dec port ++ script " >/dev/null 2>&1 || exit " ++ to_dec REACHABILITY_FIREWALL_FAILED ++ [10] ++
  script "    fi" ++ [10] ++
  script "fi" ++ [10].

(** ** The tables *)

Section services.
Context {World : Type} `{Desk World} `{DatabaseNodes World} `{Keyring World}.
Notation DB := (D DatabaseRows World).

Definition db_id : DB N := fun s => (Ok s.(ds_fw).(fw_uuid), mkDesk s.(ds_store) (mkFw s.(ds_fw).(fw_node) s.(ds_fw).(fw_verified) (s.(ds_fw).(fw_uuid) + 1))).
Definition at_nodes {A : Type} (f : World -> result AppError A * World) : DB A := on_host (ask f).

Definition get_host (id : N) : DB (option DatabaseHost) := statement "failed to load the database host: " (fun rows => (rows.(dr_hosts) !! id, rows)).
Definition get_database (id : N) : DB (option ApplicationDatabase) := statement "failed to load the database: " (fun rows => (rows.(dr_databases) !! id, rows)).
(** A host belongs to a server that exists, or to none. *)
Definition create_host (input : CreateDatabaseHostInput) : DB DatabaseHost :=
  id <- db_id ;;
  inserted <- statement "failed to create the database host: " (fun rows =>
    match input.(hi_server_id) with
    | Some server_id => match rows.(dr_servers) !! server_id with
                        | None => (false, rows)
                        | Some _ => (true, with_hosts rows (<[id := mkDatabaseHost id (Some server_id) input.(hi_name) input.(hi_engine) input.(hi_host) input.(hi_port) input.(hi_admin_username) None]> rows.(dr_hosts)))
                        end
    | None => (true, with_hosts rows (<[id := mkDatabaseHost id None input.(hi_name) input.(hi_engine) input.(hi_host) input.(hi_port) input.(hi_admin_username) None]> rows.(dr_hosts)))
    end) ;;
  if negb inserted then dthrow (Storage (lit "failed to create the database host: FOREIGN KEY constraint failed"))
  else found <- get_host id ;; match found with Some host => dret host | None => dthrow (Internal (lit "vanished immediately after being created")) end.
Definition updated_host (input : UpdateDatabaseHostInput) (host : DatabaseHost) : DatabaseHost :=
  mkDatabaseHost host.(dh_id) host.(dh_server_id) input.(hu_name) host.(dh_engine) input.(hu_host) input.(hu_port) input.(hu_admin_username) host.(dh_phpmyadmin).
Definition update_host (id : N) (input : UpdateDatabaseHostInput) : DB DatabaseHost :=
  changed <- statement "failed to update the database host: " (fun rows =>
    match rows.(dr_hosts) !! id with Some host => (true, with_hosts rows (<[id := updated_host input host]> rows.(dr_hosts))) | None => (false, rows) end) ;;
  if negb changed then dthrow NotFound
  else found <- get_host id ;; match found with Some host => dret host | None => dthrow (Internal (lit "vanished immediately after being updated")) end.
Definition name_before (a b : list Z) : Prop :=
  (fix le (a b : list Z) : bool := match a, b with [], _ => true | _ :: _, [] => false | x :: a, y :: b => (x <? y) || ((x =? y) && le a b) end) (map to_ascii_lowercase a) (map to_ascii_lowercase b) = true.
Definition host_before (a b : DatabaseHost) : Prop := name_before a.(dh_name) b.(dh_name).
Definition database_before (a b : ApplicationDatabase) : Prop := name_before a.(ad_database_name) b.(ad_database_name).
#[global] Instance host_before_dec : RelDecision host_before.
Proof. intros a b. apply Bool.bool_dec. Defined.
#[global] Instance database_before_dec : RelDecision database_before.
Proof. intros a b. apply Bool.bool_dec. Defined.
Definition list_hosts : DB (list DatabaseHost) := statement "failed to list database hosts: " (fun rows => (merge_sort host_before (map snd (map_to_list rows.(dr_hosts))), rows)).
(** [ON DELETE RESTRICT] of the databases on it. *)
Definition delete_host (id : N) : DB unit :=
  affected <- statement "failed to delete the database host: " (fun rows =>
    if bool_decide (map_Forall (fun _ database => database.(ad_database_host_id) <> id) rows.(dr_databases)) then (Ok (bool_decide (is_Some (rows.(dr_hosts) !! id))), with_hosts rows (delete id rows.(dr_hosts)))
    else (Err tt, rows)) ;;
  match affected with
  | Err _ => refuse [] "still has databases provisioned on it - remove them first"
  | Ok true => dret tt
  | Ok false => dthrow NotFound
  end.
Definition update_phpmyadmin_application (id : N) (application_id : option N) : DB DatabaseHost :=
  affected <- statement "failed to update the database host: " (fun rows =>
    match rows.(dr_hosts) !! id with
    | None => (Ok false, rows)
    | Some host =>
        if match application_id with Some application_id => bool_decide (is_Some (rows.(dr_applications) !! application_id)) | None => true end
        then (Ok true, with_hosts rows (<[id := mkDatabaseHost host.(dh_id) host.(dh_server_id) host.(dh_name) host.(dh_engine) host.(dh_host) host.(dh_port) host.(dh_admin_username) application_id]> rows.(dr_hosts)))
        else (Err tt, rows)
    end) ;;
  match affected with
  | Err _ => dthrow (Storage (lit "failed to update the database host: FOREIGN KEY constraint failed"))
  | Ok false => dthrow NotFound
  | Ok true => found <- get_host id ;; match found with Some host => dret host | None => dthrow NotFound end
  end.
(** [UNIQUE(database_host_id, database_name)], and the two foreign keys. *)
Definition name_taken (rows : DatabaseRows) (input : CreateApplicationDatabaseInput) : bool :=
  negb (bool_decide (map_Forall (fun _ database => ~ (database.(ad_database_host_id) = input.(di_database_host_id) /\ database.(ad_database_name) = input.(di_database_name))) rows.(dr_databases))).
Definition create_database (input : CreateApplicationDatabaseInput) : DB ApplicationDatabase :=
  id <- db_id ;;
  inserted <- statement "failed to create the database: " (fun rows =>
    if name_taken rows input then (Err true, rows)
    else if bool_decide (is_Some (rows.(dr_applications) !! input.(di_application_id))) && bool_decide (is_Some (rows.(dr_hosts) !! input.(di_database_host_id)))
    then (Ok tt, with_databases rows (<[id := mkDatabase id input.(di_application_id) input.(di_database_host_id) input.(di_database_name) input.(di_username) input.(di_connections_from)]> rows.(dr_databases)))
    else (Err false, rows)) ;;
  match inserted with
  | Err true => refuse input.(di_database_name) "already exists on this database host"
  | Err false => dthrow (Storage (lit "failed to create the database: FOREIGN KEY constraint failed"))
  | Ok _ => found <- get_database id ;; match found with Some database => dret database | None => dthrow (Internal (lit "vanished immediately after being created")) end
  end.
Definition list_databases (application_id : N) : DB (list ApplicationDatabase) :=
  statement "failed to list databases: " (fun rows => (merge_sort database_before (List.filter (fun database => N.eqb database.(ad_application_id) application_id) (map snd (map_to_list rows.(dr_databases)))), rows)).
Definition delete_database (id : N) : DB unit :=
  affected <- statement "failed to delete the database: " (fun rows => (bool_decide (is_Some (rows.(dr_databases) !! id)), with_databases rows (delete id rows.(dr_databases)))) ;;
  if (affected : bool) then dret tt else dthrow NotFound.

(** ** Running the client *)

Definition node_command (server_id : N) (command : list Z) : DB CommandOutput := at_nodes (dn_execute server_id command).
(** [ssh::write_private_file]. *)
Definition node_private_file (server_id : N) (path contents : list Z) : DB unit :=
  output <- node_command server_id (lit "install -m 600 /dev/null " ++ quote path) ;;
  if negb (output.(exit_code) =? 0) then
    let detail := trim output.(stderr) in dthrow (ConnectionFailed (if is_empty detail then lit "couldn't create a private file" else detail))
  else at_nodes (dn_write_file server_id path contents).
(** [retry_on_connection_failure]. *)
Definition retry_database {A : Type} (server_id : option N) (attempt : DB A) : DB A :=
  first <- dtry attempt ;;
  match first with
  | Ok value => dret value
  | Err first_err =>
      if negb (is_transport_failure first_err) then dthrow first_err
      else match server_id with
           | None => dthrow first_err
           | Some server_id => at_nodes (fun w => (Ok tt, dn_remove_session server_id w)) ;;; attempt
           end
  end.
(** The connection is the server's. *)
Definition connect_to_host (host : DatabaseHost) : DB N :=
  match host.(dh_server_id) with
  | None => refuse [] "this database host has no linked Server - VibeSSH can't run commands on it"
  | Some server_id => at_nodes (dn_connect server_id) ;;; dret server_id
  end.

Definition CLIENT_PROBE : list Z := lit "command -v mysql >/dev/null 2>&1 && echo yes || echo no".
Definition CLIENT_INSTALL : list Z :=
  lit "sudo apt-get update -qq && (sudo DEBIAN_FRONTEND=noninteractive apt-get install -y default-mysql-client || sudo DEBIAN_FRONTEND=noninteractive apt-get install -y mysql-client)".
Definition ensure_mysql_client_installed (server_id : N) : DB unit :=
  probe <- dtry (node_command server_id CLIENT_PROBE) ;;
  if match probe with Ok output => str_eqb (trim output.(stdout)) (lit "yes") | Err _ => false end then dret tt
  else dtry (node_command server_id CLIENT_INSTALL) ;;; dret tt.
Definition SERVER_ACTIVE : list Z := lit "systemctl is-active --quiet mariadb || systemctl is-active --quiet mysql".
Definition database_server_running (server_id : N) : DB bool := active <- node_command server_id SERVER_ACTIVE ;; dret (active.(exit_code) =? 0).
Definition require_database_server (server_id : N) (host : DatabaseHost) : DB unit :=
  if negb (is_loopback_host host.(dh_host)) then dret tt
  else running <- database_server_running server_id ;; if (running : bool) then dret tt else dthrow (DatabaseServerUnavailable host.(dh_name)).

Definition REDACTED_TEXT : list Z := lit "[redacted]".
Definition redacted (secrets : list (list Z)) (detail : list Z) : list Z := fold_left (fun detail secret => replace_str secret REDACTED_TEXT detail) secrets detail.
(** What a failed client is reported as. *)
Definition client_failure (what : list Z) (otherwise : string) (secrets : list (list Z)) (output : CommandOutput) : AppError :=
  let detail := trim output.(stderr) in
  let detail := redacted secrets (if is_empty detail then lit otherwise else detail) in
  match socket_auth_refusal detail with
  | Some user => DatabaseSocketAuthOnly user
  | None => ConnectionFailed (what ++ lit " failed: " ++ detail)
  end.
(** A client with the password in a file of its own, which is removed whatever comes of it. *)
Definition with_defaults_file (server_id : N) (admin_password : list Z) (command : list Z -> list Z) (failure : CommandOutput -> AppError) : DB unit :=
  id <- db_id ;;
  let defaults_file := lit ".vibessh-my-" ++ uuid_text id ++ lit ".cnf" in
  node_private_file server_id defaults_file (utf8 (defaults_file_contents admin_password)) ;;;
  attempt <- dtry (node_command server_id (command defaults_file)) ;;
  dtry (node_command server_id (lit "rm -f " ++ quote defaults_file)) ;;;
  match attempt with
  | Err e => dthrow e
  | Ok output => if negb (output.(exit_code) =? 0) then dthrow (failure output) else dret tt
  end.
Definition run_mysql (server_id : N) (host : DatabaseHost) (admin_password sql : list Z) (redact : list (list Z)) : DB unit :=
  with_defaults_file server_id admin_password (fun defaults_file => build_mysql_command defaults_file host sql)
    (client_failure (lit "database provisioning") "mysql command failed" (redact ++ [admin_password])).
Definition run_mysql_with_retry (host : DatabaseHost) (admin_password sql : list Z) (redact : list (list Z)) : DB unit :=
  retry_database host.(dh_server_id) (
    connection <- connect_to_host host ;;
    ensure_mysql_client_installed connection ;;;
    require_database_server connection host ;;;
    run_mysql connection host admin_password sql redact).

Definition ensure_mysql_reachable_from_containers (server_id : N) (port : Z) : DB unit :=
  output <- node_command server_id (reachability_script port) ;;
  let detail := trim output.(stderr) in
  if output.(exit_code) =? 0 then dret tt
  else if output.(exit_code) =? REACHABILITY_BIND_UNSUPPORTED then dthrow DatabaseBindUnsupported
  else if output.(exit_code) =? REACHABILITY_FIREWALL_FAILED then dthrow (DatabaseFirewallRuleFailed port)
  else dthrow (ConnectionFailed (lit "couldn't make the database server reachable from containers: " ++ (if is_empty detail then lit "the configuration step failed" else detail))).

(** ** Database hosts *)

Definition load_host (id : N) : DB DatabaseHost := found <- get_host id ;; match found with Some host => dret host | None => dthrow NotFound end.
Definition load_database (id : N) : DB ApplicationDatabase := found <- get_database id ;; match found with Some database => dret database | None => dthrow NotFound end.
Definition load_host_admin_password (host : DatabaseHost) : DB (list Z) :=
  secret <- at_nodes (load_secret host.(dh_id) DatabaseHostAdmin) ;;
  match secret with Some password => dret password | None => dthrow (Internal (lit "has no stored admin password")) end.

Definition list_database_hosts : DB (list DatabaseHost) := list_hosts.
Definition create_database_host (input : CreateDatabaseHostInput) : DB DatabaseHost :=
  let name := trim input.(hi_name) in
  let host := trim input.(hi_host) in
  let admin_username := trim input.(hi_admin_username) in
  if is_empty name then refuse [] "a name is required"
  else if is_empty host then refuse [] "a host is required"
  else if is_empty admin_username then refuse [] "an admin username is required"
  else if is_empty input.(hi_admin_password) then refuse [] "an admin password is required"
  else
    created <- create_host (mkHostInput input.(hi_server_id) name input.(hi_engine) host input.(hi_port) admin_username input.(hi_admin_password)) ;;
    stored <- dtry (at_nodes (store_secret created.(dh_id) DatabaseHostAdmin input.(hi_admin_password))) ;;
    match stored with
    | Err err => dtry (delete_host created.(dh_id)) ;;; dthrow err
    | Ok _ => dret created
    end.
Definition update_database_host (id : N) (input : UpdateDatabaseHostInput) : DB DatabaseHost :=
  let name := trim input.(hu_name) in
  let host := trim input.(hu_host) in
  let admin_username := trim input.(hu_admin_username) in
  if is_empty name then refuse [] "a name is required"
  else if is_empty host then refuse [] "a host is required"
  else if is_empty admin_username then refuse [] "an admin username is required"
  else
    updated <- update_host id (mkHostUpdate name host input.(hu_port) admin_username []) ;;
    (if negb (is_empty input.(hu_admin_password)) then at_nodes (store_secret id DatabaseHostAdmin input.(hu_admin_password)) else dret tt) ;;;
    dret updated.
Definition delete_database_host (id : N) : DB unit := delete_host id ;;; at_nodes (fun w => (Ok tt, forget_secret id DatabaseHostAdmin w)).
Definition set_database_host_phpmyadmin (id : N) (application_id : option N) : DB DatabaseHost := update_phpmyadmin_application id application_id.

(** [sudo mysql < file; rm -f file]: the status that comes back is the second command's. *)
Definition grant_command (sql_file : list Z) : list Z := lit "sudo mysql < " ++ quote sql_file ++ lit "; rm -f " ++ quote sql_file.
Definition grant_admin_user (server_id : N) (host : DatabaseHost) (admin_password : list Z) : DB unit :=
  id <- db_id ;;
  let sql_file := lit ".vibessh-grant-" ++ uuid_text id ++ lit ".sql" in
  node_private_file server_id sql_file (utf8 (grant_sql host admin_password)) ;;;
  applied <- node_command server_id (grant_command sql_file) ;;
  if negb (applied.(exit_code) =? 0) then
    let detail := replace_str admin_password REDACTED_TEXT (trim applied.(stderr)) in
    dthrow (ConnectionFailed (lit "the database server was installed but its admin user couldn't be created: " ++ (if is_empty detail then lit "the grant statement failed" else detail)))
  else dret tt.
Definition SERVER_INSTALL : list Z :=
  lit "sudo apt-get update -qq && sudo DEBIAN_FRONTEND=noninteractive apt-get install -y mariadb-server && sudo systemctl enable --now mariadb".
Definition install_database_server (host_id : N) : DB unit :=
  host <- load_host host_id ;;
  if negb (is_loopback_host host.(dh_host)) then refuse host.(dh_name) "VibeSSH only installs a database server on a node it manages"
  else
    admin_password <- load_host_admin_password host ;;
    connection <- connect_to_host host ;;
    running <- database_server_running connection ;;
    (if (running : bool) then dret tt
     else
       install <- node_command connection SERVER_INSTALL ;;
       if negb (install.(exit_code) =? 0) then
         let detail := trim install.(stderr) in
         dthrow (ConnectionFailed (lit "couldn't install a database server on this node: " ++ (if is_empty detail then lit "the install command failed" else detail)))
       else dret tt) ;;;
    grant_admin_user connection host admin_password ;;;
    ensure_mysql_reachable_from_containers connection host.(dh_port).
Definition repair_database_reachability (host_id : N) : DB unit :=
  host <- load_host host_id ;;
  if negb (is_loopback_host host.(dh_host)) then refuse host.(dh_name) "VibeSSH can only configure a database server running on a node it manages"
  else connection <- connect_to_host host ;; ensure_mysql_reachable_from_containers connection host.(dh_port).

(** ** Application databases *)

(** [len] characters of [chars], each [gen_range]. *)
Fixpoint random_chars (chars : list Z) (len : nat) : DB (list Z) :=
  match len with
  | O => dret []
  | S len =>
      n <- at_nodes (fun w => let '(n, w) := dn_random w in (Ok n, w)) ;;
      rest <- random_chars chars len ;;
      dret (default 97 (chars !! Z.to_nat (n mod Z.of_nat (length chars))) :: rest)
  end.
Definition IDENTIFIER_CHARS : list Z := lit "abcdefghijklmnopqrstuvwxyz0123456789".
Definition PASSWORD_CHARS : list Z := lit "ABCDEFGHJKLMNPQRSTUVWXYZabcdefghijkmnopqrstuvwxyz23456789".
Definition random_alnum (len : nat) : DB (list Z) := random_chars IDENTIFIER_CHARS len.
Definition generated_identifier (seed suffix : list Z) (max_len : Z) : list Z :=
  let fixed := byte_len (lit "vibessh__") + byte_len suffix in
  let slug_budget := Z.max (Z.max (max_len - fixed) 0) 1 in
  lit "vibessh_" ++ take (Z.to_nat slug_budget) (slugify seed) ++ lit "_" ++ suffix.
Definition generate_identifier (seed : list Z) (max_len : Z) : DB (list Z) := suffix <- random_alnum RANDOM_SUFFIX_LEN ;; dret (generated_identifier seed suffix max_len).
Definition generate_password : DB (list Z) := random_chars PASSWORD_CHARS GENERATED_PASSWORD_LEN.

Definition list_application_databases (application_id : N) : DB (list ApplicationDatabase) := list_databases application_id.
Definition seed_of (purpose : option (list Z)) (application : StoredApplication) : list Z :=
  match purpose with Some purpose => if is_empty (trim purpose) then application.(sa_name) else trim purpose | None => application.(sa_name) end.
(** The database and its account are made on the server, then recorded, then the password is stored. *)
Definition record_database (host : DatabaseHost) (admin_password database_name username : list Z) (application_id database_host_id : N) : DB ApplicationDatabase :=
  record <- dtry (create_database (mkDatabaseInput application_id database_host_id database_name username CONNECTIONS_FROM)) ;;
  match record with
  | Ok record => dret record
  | Err err =>
      cleanup <- dtry (run_mysql_with_retry host admin_password (drop_sql database_name username grant_hosts) []) ;;
      match cleanup with
      | Ok _ => dthrow err
      | Err _ => dthrow (Internal (lit "A '" ++ database_name ++ lit "' database and its user were also left behind on '" ++ host.(dh_host) ++ lit "'"))
      end
  end.
Definition check_container_access (host : DatabaseHost) : DB (option AppError) :=
  if is_loopback_host host.(dh_host) && bool_decide (is_Some host.(dh_server_id)) then
    connected <- dtry (connect_to_host host) ;;
    match connected with
    | Ok connection => reached <- dtry (ensure_mysql_reachable_from_containers connection host.(dh_port)) ;; dret (match reached with Ok _ => None | Err e => Some e end)
    | Err err => dret (Some err)
    end
  else dret None.
Definition create_application_database (application_id database_host_id : N) (purpose : option (list Z)) : DB DatabaseCreated :=
  host <- load_host database_host_id ;;
  found <- statement "failed to read the application: " (fun rows => (rows.(dr_applications) !! application_id, rows)) ;;
  match found with
  | None => dthrow NotFound
  | Some application =>
      admin_password <- load_host_admin_password host ;;
      let seed := seed_of purpose application in
      database_name <- generate_identifier seed MAX_DATABASE_NAME_LEN ;;
      username <- generate_identifier seed MAX_USERNAME_LEN ;;
      password <- generate_password ;;
      run_mysql_with_retry host admin_password (create_sql database_name username password) [password] ;;;
      container_access_error <- check_container_access host ;;
      record <- record_database host admin_password database_name username application_id database_host_id ;;
      at_nodes (store_secret record.(ad_id) ApplicationDatabaseUser password) ;;;
      dret (mkDatabaseCreated record container_access_error)
  end.
Definition delete_application_database (id : N) : DB unit :=
  database <- load_database id ;;
  host <- load_host database.(ad_database_host_id) ;;
  admin_password <- load_host_admin_password host ;;
  run_mysql_with_retry host admin_password (drop_sql database.(ad_database_name) database.(ad_username) (grant_hosts ++ [database.(ad_connections_from)])) [] ;;;
  delete_database id ;;;
  at_nodes (fun w => (Ok tt, forget_secret id ApplicationDatabaseUser w)).
Definition reveal_application_database_password (id : N) : DB (list Z) :=
  load_database id ;;;
  secret <- at_nodes (load_secret id ApplicationDatabaseUser) ;;
  match secret with Some password => dret password | None => dthrow (Internal (lit "has no stored password")) end.
Definition reset_application_database_password (id : N) : DB (list Z) :=
  database <- load_database id ;;
  host <- load_host database.(ad_database_host_id) ;;
  admin_password <- load_host_admin_password host ;;
  new_password <- generate_password ;;
  run_mysql_with_retry host admin_password (reset_sql database.(ad_username) new_password (grant_hosts ++ [database.(ad_connections_from)])) [new_password] ;;;
  at_nodes (store_secret id ApplicationDatabaseUser new_password) ;;;
  dret new_password.

Definition phpmyadmin_url (database_host_id : N) (database_name : option (list Z)) : DB (list Z) :=
  host <- load_host database_host_id ;;
  match host.(dh_phpmyadmin) with
  | None => refuse [] "no phpMyAdmin application is linked to this database host"
  | Some application_id =>
      found <- statement "failed to read the application: " (fun rows => (rows.(dr_applications) !! application_id, rows)) ;;
      match found with
      | None => dthrow NotFound
      | Some application =>
          match head (omap cp_external_port application.(sa_ports)) with
          | None => refuse [] "the linked phpMyAdmin application has no published port - add one on its Ports tab"
          | Some port =>
              address <- (match application.(sa_server_id) with
                          | None => dret (lit "127.0.0.1")
                          | Some server_id =>
                              server <- statement "failed to load the server: " (fun rows => (rows.(dr_servers) !! server_id, rows)) ;;
                              match server with Some host => dret host | None => dthrow NotFound end
                          end) ;;
              dret (lit "http://" ++ address ++ lit ":" ++ to_dec port ++ lit "/" ++ match database_name with Some name => lit "?db=" ++ percent_encode_query_value name | None => [] end)
          end
      end
  end.

(** ** Dumps *)

Definition dump_database_to_file (database_host_id : N) (database_name dump_path : list Z) : DB unit :=
  if negb (is_safe_identifier database_name) then refuse database_name "is not a database name this can dump"
  else
    host <- load_host database_host_id ;;
    admin_password <- load_host_admin_password host ;;
    connection <- connect_to_host host ;;
    with_defaults_file connection admin_password (fun defaults_file => build_mysqldump_command defaults_file host database_name dump_path)
      (client_failure (lit "dumping " ++ database_name) "the dump failed" [admin_password]).
Definition restore_dump_into_database (database_host_id : N) (database_name dump_path : list Z) : DB unit :=
  if negb (is_safe_identifier database_name) then refuse database_name "is not a database name this can restore into"
  else
    host <- load_host database_host_id ;;
    admin_password <- load_host_admin_password host ;;
    connection <- connect_to_host host ;;
    with_defaults_file connection admin_password (fun defaults_file => build_mysql_restore_command defaults_file host database_name dump_path)
      (client_failure (lit "restoring " ++ database_name) "the restore failed" [admin_password]).
End services.
