(* ===== verification/DatabaseSql.v ===== *)
(** * DatabaseSql: what the server and its client make of the texts

    The statements and the option file of [Databases], read back by the readers
    of [Mysql]: whatever the host, the user and the passwords are, the server
    sees the statements that were meant and the client the password that was
    stored. *)

From S2P Require Import Prelude Text Shell Validators Cron ScheduleRuns Mysql Databases.

#[local] Open Scope Z_scope.

(** ** Tokens *)

Lemma run_app (st : LexState) (a b : list Z) : run st (a ++ b) = ((run (run st a).1 b).1, (run st a).2 ++ (run (run st a).1 b).2).
Proof.
  revert st. induction a as [|c a IH]; intros st; [cbn; by destruct (run st b)|]. cbn [app run]. destruct (step st c) as [st' ts]. rewrite IH. destruct (run st' a) as [st'' ts']. cbn.
  by rewrite <- app_assoc.
Qed.
Lemma run_string (value acc : list Z) : run (InString acc) (value ≫= sql_char) = (InString (rev value ++ acc), []).
Proof.
  revert acc. induction value as [|c value IH]; intros acc; [done|]. rewrite bind_cons, run_app.
  assert (Hc : run (InString acc) (sql_char c) = (InString (c :: acc), [])).
  { unfold sql_char. destruct (Z.eqb_spec c 92) as [->|]; [done|]. destruct (Z.eqb_spec c 39) as [->|]; [done|]. cbn.
    rewrite (proj2 (Z.eqb_neq c 39)), (proj2 (Z.eqb_neq c 92)) by done. done. }
  rewrite Hc. cbn [fst snd app]. rewrite IH. cbn [rev fst snd]. by rewrite <- app_assoc.
Qed.
(** A quoted value is one string, whatever is in it. *)
Lemma run_quote (value : list Z) : run Between (sql_quote value) = (AfterQuote (rev value), []).
Proof. unfold sql_quote. rewrite run_app. change (run Between [39]) with (InString [], @nil Token). cbn [fst snd]. rewrite run_app, run_string. cbn. by rewrite app_nil_r. Qed.

(** A text that ends between tokens, whose first character is not a quote. *)
Definition piece (p : list Z) (ts : list Token) : Prop := run Between p = (Between, ts) /\ match p with [] => False | c :: _ => c <> 39 end.
Lemma run_after_quote (acc p : list Z) (ts : list Token) : piece p ts -> run (AfterQuote acc) p = (Between, TString (rev acc) :: ts).
Proof.
  intros [Hr Hp]. destruct p as [|c p]; [done|]. cbn [run step] in *. rewrite (proj2 (Z.eqb_neq c 39)) by done. destruct (begin c) as [st ts']. cbn.
  destruct (run st p) as [st'' ts'']. by injection Hr as -> ->.
Qed.
Lemma run_then (p text : list Z) (ts0 ts : list Token) : run Between p = (Between, ts0) -> run Between text = (Between, ts) -> run Between (p ++ text) = (Between, ts0 ++ ts).
Proof. intros Hp Ht. rewrite run_app, Hp. cbn [fst snd]. by rewrite Ht. Qed.
Lemma run_quoted (value p text : list Z) (ts0 ts : list Token) :
  piece p ts0 -> run Between text = (Between, ts) -> run Between (sql_quote value ++ p ++ text) = (Between, TString value :: ts0 ++ ts).
Proof. intros Hp Ht. rewrite run_app, run_quote. cbn [fst snd app]. rewrite run_app, (run_after_quote _ _ _ Hp), rev_involutive. cbn [fst snd app]. by rewrite Ht. Qed.
Lemma lex_run (text : list Z) (ts : list Token) : run Between text = (Between, ts) -> lex text = Some ts.
Proof. unfold lex. intros ->. cbn. by rewrite app_nil_r. Qed.

Ltac by_reading := first [by (split; [vm_compute; reflexivity|]) | (vm_compute; reflexivity)].
Ltac sql_tokens := repeat first [eapply run_quoted; [by_reading|] | eapply run_then; [by_reading|]]; by_reading.

(** C37: Installing a database server grants its administrator exactly what was
    configured: whatever characters the account, the host and the password hold -
    quotes, backslashes, semicolons - the server reads two accounts with that
    name, at that host and at localhost, both with that password and with every
    privilege, and not one statement more. *)
Theorem grants_are_read_as_meant (host : DatabaseHost) (admin_password : list Z) :
  let there := (host.(dh_admin_username), host.(dh_host)) in
  let here := (host.(dh_admin_username), lit "localhost") in
  read_sql (grant_sql host admin_password) =
    Some [CreateUser there admin_password; CreateUser here admin_password; AlterUser false there admin_password; AlterUser false here admin_password;
          GrantAll None there true; GrantAll None here true; FlushPrivileges].
Proof.
  unfold read_sql. erewrite lex_run; [|unfold grant_sql; sql_tokens]. cbn [mbind option_bind]. reflexivity.
Qed.

(** ** The option file *)

Lemma cut_comment_quoted (p rest : list Z) : cut_comment (Some 34) false ((p ≫= option_char) ++ rest) = (p ≫= option_char) ++ cut_comment (Some 34) false rest.
Proof.
  induction p as [|c p IH]; [done|]. rewrite bind_cons, <- !app_assoc. rewrite <- IH. unfold option_char at 1 3.
  destruct (Z.eqb_spec c 92) as [->|H92]; [done|]. destruct (Z.eqb_spec c 34) as [->|H34]; [done|]. cbn [app cut_comment].
  rewrite (proj2 (Z.eqb_neq c 34)), (proj2 (Z.eqb_neq c 92)) by done. rewrite orb_false_r. rewrite (proj2 (Z.eqb_neq 34 c)) by congruence. by destruct (c =? 39).
Qed.
Lemma option_unescape_value (p : list Z) : option_unescape (p ≫= option_char) = p.
Proof.
  induction p as [|c p IH]; [done|]. rewrite bind_cons. unfold option_char at 1. destruct (Z.eqb_spec c 92) as [->|H92]; [cbn; by rewrite IH|].
  destruct (Z.eqb_spec c 34) as [->|H34]; [cbn; by rewrite IH|]. cbn [app].
  assert (Hc : option_unescape (c :: (p ≫= option_char)) = c :: option_unescape (p ≫= option_char)).
  { destruct c as [|c|c]; [done| |done]. cbn [option_unescape]. do 7 (destruct c as [c|c|]; try done). }
  by rewrite Hc, IH.
Qed.
Lemma option_value_quoted (p : list Z) : option_value (option_file_value p) = p.
Proof.
  unfold option_value, option_file_value. unfold trim_end_matches. rewrite !rev_app_distr. cbn [rev app drop_while]. change (option_space 34) with false. cbn iota.
  cbn [rev]. rewrite rev_app_distr, rev_involutive. cbn [rev app trim_start_matches drop_while]. change (option_space 34) with false. cbn iota. unfold unquote.
  change (34 =? 34) with true. rewrite orb_true_r. cbn [andb]. rewrite bool_decide_eq_true_2 by (change (34 :: ?x ++ [34]) with ((34 :: x) ++ [34]); by rewrite last_snoc).
  rewrite length_cons, length_app. cbn [length]. rewrite (proj2 (Z.ltb_lt 1 _)) by lia. cbn [andb]. rewrite removelast_last. apply option_unescape_value.
Qed.

Lemma strip_cr_ended (s : list Z) (c : Z) : c <> 13 -> strip_cr (s ++ [c]) = s ++ [c].
Proof. intros Hc. destruct (strip_cr_cases (s ++ [c])) as [->|(r & Hr & _)]; [done|]. apply app_inj_tail in Hr as [_ ->]. done. Qed.
Lemma option_file_line (p : list Z) : contains_char 10 p = false -> contains_char 10 (option_file_value p) = false.
Proof.
  intros Hp. unfold option_file_value, contains_char in *. rewrite !existsb_app. cbn. rewrite orb_false_r. induction p as [|c p IH]; [done|]. rewrite bind_cons, existsb_app.
  cbn [existsb] in Hp. apply orb_false_iff in Hp as [Hc Hp]. rewrite (IH Hp), orb_false_r. unfold option_char. destruct (c =? 92); [done|]. destruct (c =? 34); [done|]. cbn [existsb]. by rewrite Hc.
Qed.
Lemma cut_comment_value (p : list Z) : cut_comment None false (lit "password=" ++ option_file_value p) = lit "password=" ++ option_file_value p.
Proof. unfold option_file_value. change (cut_comment None false (lit "password=" ++ [34] ++ ?x)) with (lit "password=" ++ [34] ++ cut_comment (Some 34) false x). by rewrite cut_comment_quoted. Qed.

(** The two lines, as the reader of options takes them. *)
Lemma section_line (key group : list Z) (found : option (list Z)) (l : list (list Z)) (b : bool) :
  option_lines key b group found (lit "[client]" :: l) = option_lines key (str_eqb (lit "client") group) group found l.
Proof. reflexivity. Qed.
Lemma password_line (found : option (list Z)) (p : list Z) :
  option_lines (lit "password") true (lit "client") found [lit "password=" ++ option_file_value p] = Some p.
Proof.
  transitivity (option_lines (lit "password") true (lit "client") (Some (option_value (option_file_value p))) []); [|by rewrite option_value_quoted].
  pose proof (cut_comment_value p) as Hc. unfold option_lines. change (trim_start_matches option_space (lit "password=" ++ ?x)) with (lit "password=" ++ x).
  change (lit "password=" ++ option_file_value p) with (112 :: lit "assword=" ++ option_file_value p) in *. cbn iota. change ((112 =? 35) || (112 =? 59)) with false. change (112 =? 91) with false. cbn iota.
  rewrite Hc. reflexivity.
Qed.

(** The client logs in with the stored password: the [client] section of the
    option file written for it reads back as that very password, whatever it
    holds - hashes, quotes, backslashes, leading and trailing blanks - as long as
    it is one line. *)
Theorem admin_password_reads_back (admin_password : list Z) :
  contains_char 10 admin_password = false -> read_option (lit "client") (lit "password") (defaults_file_contents admin_password) = Some admin_password.
Proof.
  intros Hp. unfold read_option. set (line := lit "password=" ++ option_file_value admin_password).
  assert (Hf : defaults_file_contents admin_password = ([lit "[client]"; line] ≫= fun l => l ++ [10])).
  { unfold defaults_file_contents, line. cbn [mbind list_bind]. by rewrite app_nil_r, <- !app_assoc. }
  rewrite Hf, lines_ended by (repeat constructor; unfold line; by apply option_file_line). cbn [map].
  assert (Hl : strip_cr line = line). { unfold line, option_file_value. rewrite !app_assoc. by apply strip_cr_ended. }
  rewrite Hl, section_line. apply password_line.
Qed.
Lemma admin_password_reads_back_witness :
  contains_char 10 (lit " #;\'x'" ++ [34; 92; 32]) = false /\ read_option (lit "client") (lit "password") (defaults_file_contents (lit " #;\'x'" ++ [34; 92; 32])) = Some (lit " #;\'x'" ++ [34; 92; 32]).
Proof. split; [reflexivity|]. by apply (admin_password_reads_back (lit " #;\'x'" ++ [34; 92; 32])). Defined.

(** ** Statements *)

(** A text that is the statements [l], whatever follows. *)
Definition says (text : list Z) (l : list SqlStatement) : Prop :=
  exists ts, run Between text = (Between, ts) /\
    forall rest, mapM read_statement (split_statements [] (ts ++ rest)) = app l <$> mapM read_statement (split_statements [] rest).
Lemma says_app (a b : list Z) (l l' : list SqlStatement) : says a l -> says b l' -> says (a ++ b) (l ++ l').
Proof.
  intros (ts & Ha & Hl) (ts' & Hb & Hl'). exists (ts ++ ts'). split; [by apply run_then|]. intros rest. rewrite <- app_assoc, Hl, Hl'. destruct (mapM _ _); [|done]. cbn. by rewrite <- app_assoc.
Qed.
Lemma says_nil : says [] [].
Proof. exists []. split; [done|]. intros rest. cbn. by destruct (mapM _ _). Qed.
Lemma says_bind {A : Type} (f : A -> list Z) (g : A -> list SqlStatement) (l : list A) : (forall x, x ∈ l -> says (f x) (g x)) -> says (l ≫= f) (l ≫= g).
Proof.
  induction l as [|x l IH]; intros Hf; [apply says_nil|]. rewrite !bind_cons. apply says_app; [apply Hf, list_elem_of_here|]. apply IH. intros y Hy. by apply Hf, list_elem_of_further.
Qed.
Lemma says_read (text : list Z) (l : list SqlStatement) : says text l -> read_sql text = Some l.
Proof.
  intros (ts & Ht & Hl). unfold read_sql. rewrite (lex_run _ _ Ht). cbn [mbind option_bind]. specialize (Hl []). rewrite app_nil_r in Hl. rewrite Hl. cbn. by rewrite app_nil_r.
Qed.

(** A text in which nothing means anything to the readers of strings and names. *)
Definition sql_plain (s : list Z) : bool := forallb (fun c => negb ((c =? 39) || (c =? 92) || (c =? 96))) s.
Lemma plain_quote (s : list Z) : sql_plain s = true -> sql_quote s = [39] ++ s ++ [39].
Proof.
  unfold sql_quote. intros Hs. do 2 f_equal. induction s as [|c s IH]; [done|]. cbn [sql_plain forallb] in Hs. apply andb_true_iff in Hs as [Hc Hs]. rewrite bind_cons, (IH Hs).
  rewrite negb_true_iff, !orb_false_iff in Hc. destruct Hc as [[H39 H92] _]. unfold sql_char. by rewrite H39, H92.
Qed.
Definition name_quote (s : list Z) : list Z := [96] ++ s ++ [96].
Lemma run_name_chars (s acc : list Z) : sql_plain s = true -> run (InName acc) s = (InName (rev s ++ acc), []).
Proof.
  revert acc. induction s as [|c s IH]; intros acc Hs; [done|]. cbn [sql_plain forallb] in Hs. apply andb_true_iff in Hs as [Hc Hs]. rewrite negb_true_iff, !orb_false_iff in Hc.
  cbn [run step]. rewrite (proj2 Hc), (IH _ Hs). cbn. by rewrite <- app_assoc.
Qed.
Lemma run_name (s p text : list Z) (ts0 ts : list Token) : sql_plain s = true -> run Between p = (Between, ts0) -> match p with c :: _ => c <> 96 | [] => False end ->
  run Between text = (Between, ts) -> run Between (name_quote s ++ p ++ text) = (Between, TName s :: ts0 ++ ts).
Proof.
  intros Hs Hp Hc Ht. unfold name_quote. rewrite <- !app_assoc, run_app. change (run Between [96]) with (InName [], @nil Token). cbn [fst snd app]. rewrite run_app, (run_name_chars _ _ Hs).
  cbn [fst snd]. rewrite app_nil_r. cbn [run step]. change (96 =? 96) with true. cbn iota. rewrite run_app. destruct p as [|c p]; [done|]. cbn [run step] in *. rewrite (proj2 (Z.eqb_neq c 96)) by done.
  destruct (begin c) as [st ts']. cbn. destruct (run st p) as [st'' ts'']. injection Hp as -> <-. cbn. by rewrite Ht, rev_involutive.
Qed.
Ltac name_tokens := repeat first [eapply run_quoted; [by_reading|] | eapply run_name; [done|by_reading|done|] | eapply run_then; [by_reading|]]; by_reading.
Ltac one_statement := eexists; split; [name_tokens|intros rest; cbn; by destruct (mapM _ _)].

(** *** The three texts *)

Definition create_statements (database_name username password : list Z) : list SqlStatement :=
  [CreateDatabase database_name] ++ (grant_hosts ≫= fun host => [CreateUser (username, host) password; GrantAll (Some database_name) (username, host) false]) ++ [FlushPrivileges].
Definition drop_statements (database_name username : list Z) (hosts : list (list Z)) : list SqlStatement :=
  (hosts ≫= fun host => [DropUser (username, host)]) ++ [DropDatabase database_name].
Definition reset_statements (username password : list Z) (hosts : list (list Z)) : list SqlStatement :=
  (hosts ≫= fun host => [AlterUser true (username, host) password]) ++ [FlushPrivileges].

Lemma create_user_says (database_name username password host : list Z) :
  sql_plain database_name = true -> sql_plain username = true -> sql_plain password = true -> sql_plain host = true ->
  says (create_user_sql database_name username password host) [CreateUser (username, host) password; GrantAll (Some database_name) (username, host) false].
Proof.
  intros Hd Hu Hp Hh.
  assert (Ht : create_user_sql database_name username password host =
    lit "CREATE USER IF NOT EXISTS " ++ sql_quote username ++ lit "@" ++ sql_quote host ++ lit " IDENTIFIED BY " ++ sql_quote password ++ lit "; GRANT ALL PRIVILEGES ON "
    ++ name_quote database_name ++ lit ".* TO " ++ sql_quote username ++ lit "@" ++ sql_quote host ++ lit "; " ++ []).
  { rewrite !plain_quote by done. unfold name_quote, create_user_sql. rewrite <- !app_assoc. reflexivity. }
  rewrite Ht. one_statement.
Qed.
Lemma grant_hosts_plain (host : list Z) : host ∈ grant_hosts -> sql_plain host = true.
Proof. unfold grant_hosts. intros [-> |[-> |Hn]%elem_of_cons]%elem_of_cons; [done|done|by apply not_elem_of_nil in Hn]. Qed.
Lemma create_sql_says (database_name username password : list Z) : sql_plain database_name = true -> sql_plain username = true -> sql_plain password = true ->
  says (create_sql database_name username password) (create_statements database_name username password).
Proof.
  intros Hd Hu Hp. unfold create_sql, create_statements.
  assert (Ht : lit "CREATE DATABASE IF NOT EXISTS `" ++ database_name ++ lit "`; " = lit "CREATE DATABASE IF NOT EXISTS " ++ name_quote database_name ++ lit "; " ++ []).
  { unfold name_quote. rewrite app_nil_r, <- !app_assoc. reflexivity. }
  rewrite !app_assoc, <- (app_assoc (lit _) database_name), Ht. apply says_app; [apply says_app|].
  - one_statement.
  - apply says_bind. intros host Hh. apply create_user_says; try done. by apply grant_hosts_plain.
  - one_statement.
Qed.
Lemma drop_user_says (username host : list Z) : sql_plain username = true -> sql_plain host = true -> says (drop_user_sql username host) [DropUser (username, host)].
Proof.
  intros Hu Hh. assert (Ht : drop_user_sql username host = lit "DROP USER IF EXISTS " ++ sql_quote username ++ lit "@" ++ sql_quote host ++ lit "; " ++ []).
  { rewrite !plain_quote by done. unfold drop_user_sql. rewrite <- !app_assoc. reflexivity. }
  rewrite Ht. one_statement.
Qed.
Lemma drop_sql_says (database_name username : list Z) (hosts : list (list Z)) : sql_plain database_name = true -> sql_plain username = true -> (forall h, h ∈ hosts -> sql_plain h = true) ->
  says (drop_sql database_name username hosts) (drop_statements database_name username hosts).
Proof.
  intros Hd Hu Hh. unfold drop_sql, drop_statements. apply says_app; [apply says_bind; intros host Hin; apply drop_user_says; auto|].
  assert (Ht : lit "DROP DATABASE IF EXISTS `" ++ database_name ++ lit "`;" = lit "DROP DATABASE IF EXISTS " ++ name_quote database_name ++ lit ";" ++ []).
  { unfold name_quote. rewrite app_nil_r, <- !app_assoc. reflexivity. }
  rewrite Ht. one_statement.
Qed.
Lemma alter_user_says (username password host : list Z) : sql_plain username = true -> sql_plain password = true -> sql_plain host = true ->
  says (alter_user_sql username password host) [AlterUser true (username, host) password].
Proof.
  intros Hu Hp Hh. assert (Ht : alter_user_sql username password host =
    lit "ALTER USER IF EXISTS " ++ sql_quote username ++ lit "@" ++ sql_quote host ++ lit " IDENTIFIED BY " ++ sql_quote password ++ lit "; " ++ []).
  { rewrite !plain_quote by done. unfold alter_user_sql. rewrite <- !app_assoc. reflexivity. }
  rewrite Ht. one_statement.
Qed.
Lemma reset_sql_says (username password : list Z) (hosts : list (list Z)) : sql_plain username = true -> sql_plain password = true -> (forall h, h ∈ hosts -> sql_plain h = true) ->
  says (reset_sql username password hosts) (reset_statements username password hosts).
Proof.
  intros Hu Hp Hh. unfold reset_sql, reset_statements. apply says_app; [apply says_bind; intros host Hin; apply alter_user_says; auto|one_statement].
Qed.
