(* ===== verification/DatabaseServer.v ===== *)
(** * DatabaseServer: what the operations on databases do to a server

    The operations of [Databases], down to the words the shell of the Node hands
    to the client and the statements the server then executes: what making and
    removing a database changes on the server, whatever fails on the way. *)

From S2P Require Import Prelude Text Shell Validators Firewall Ufw Network Docker Desktop AppLinks Archive Cron ScheduleRuns Mysql Databases DatabaseSql.

#[local] Open Scope Z_scope.

(** ** The words of the client *)

Definition client_words (defaults_file : list Z) (host : DatabaseHost) (sql : list Z) : list (list Z) :=
  [lit "mysql"; lit "--defaults-extra-file=" ++ defaults_file; lit "--protocol=TCP"; lit "-h"; host.(dh_host); lit "-P"; to_dec host.(dh_port); lit "-u"; host.(dh_admin_username);
   lit "-e"; sql].

Lemma digit_plain (c : Z) : is_ascii_digit c = true -> plain_char c = true.
Proof. unfold is_ascii_digit, in_range, plain_char, is_blank, is_operator, leaves_fragment. intros Hc. rewrite negb_true_iff. repeat match goal with |- context [c =? ?n] => rewrite (proj2 (Z.eqb_neq c n)) by lia end. done. Qed.
Lemma port_word (n : Z) : 0 <= n < 65536 -> forallb plain_char (to_dec n) = true /\ to_dec n <> [].
Proof.
  intros Hn. destruct (port_facts n) as (_ & Hd & Hne); [lia|]. split; [|done]. apply forallb_forall. intros c Hc.
  apply digit_plain. by eapply forallb_forall in Hd.
Qed.
Lemma lex_glued (w value rest : list Z) : forallb plain_char w = true -> w <> [] -> contains_char 0 value = false ->
  Shell.lex Bare None (w ++ quote value ++ 32 :: rest) = cons (Word (w ++ value)) <$> Shell.lex Bare None rest.
Proof. intros Hp Hne Hv. rewrite lex_plain, lex_quote by done. cbn [default from_option app]. by rewrite lex_blank. Qed.
(** The client is run with the arguments that were meant, whatever they hold. *)
Lemma lex_client (defaults_file : list Z) (host : DatabaseHost) (sql : list Z) :
  contains_char 0 defaults_file = false -> contains_char 0 host.(dh_host) = false -> contains_char 0 host.(dh_admin_username) = false -> contains_char 0 sql = false -> 0 <= host.(dh_port) < 65536 ->
  tokens (build_mysql_command defaults_file host sql) = Some (map Word (client_words defaults_file host sql)).
Proof.
  intros Hf Hh Hu Hs [Hp Hne]%port_word. unfold tokens.
  assert (Ht : build_mysql_command defaults_file host sql =
    lit "mysql" ++ 32 :: lit "--defaults-extra-file=" ++ quote defaults_file ++ 32 :: lit "--protocol=TCP" ++ 32 :: lit "-h" ++ 32 :: quote host.(dh_host) ++ 32 :: lit "-P"
    ++ 32 :: to_dec host.(dh_port) ++ 32 :: lit "-u" ++ 32 :: quote host.(dh_admin_username) ++ 32 :: lit "-e" ++ 32 :: quote sql) by reflexivity.
  rewrite Ht. repeat first [rewrite lex_glued by done|rewrite lex_quoted_word by done|rewrite lex_word by done]. rewrite <- (app_nil_r (quote sql)), lex_quote by done. reflexivity.
Qed.

(** The grant is one of two commands of a list: the status of the list, which the
    caller takes for the grant's, is that of the removal of the file. *)
Lemma grant_status_is_the_removals (sql_file : list Z) : contains_char 0 sql_file = false ->
  tokens (grant_command sql_file) = Some [Word (lit "sudo"); Word (lit "mysql"); Op 60; Word sql_file; Op 59; Word (lit "rm"); Word (lit "-f"); Word sql_file].
Proof.
  intros Hf. unfold tokens. assert (Ht : grant_command sql_file = lit "sudo" ++ 32 :: lit "mysql" ++ 32 :: 60 :: 32 :: quote sql_file ++ 59 :: 32 :: lit "rm" ++ 32 :: lit "-f" ++ 32 :: quote sql_file) by reflexivity.
  rewrite Ht, !lex_word by done. change (Shell.lex Bare None (60 :: 32 :: ?x)) with (cons (Op 60) <$> (app [] <$> Shell.lex Bare None x)). rewrite lex_quote by done. cbn [default from_option app].
  rewrite lex_semicolon. change (Shell.lex Bare None (32 :: ?x)) with (app [] <$> Shell.lex Bare None x). rewrite !lex_word by done. rewrite <- (app_nil_r (quote sql_file)), lex_quote by done. reflexivity.
Qed.

(** ** Generated names *)

Definition name_char (c : Z) : bool := is_ascii_lowercase c || is_ascii_digit c.
Definition slug (s : list Z) : Prop := forallb name_char s = true.

Lemma slugify_slug (input : list Z) : slug (slugify input).
Proof.
  unfold slug, slugify. apply forallb_forall. intros c (x & <- & Hx)%in_map_iff. apply filter_In in Hx as [_ Hx]. revert Hx.
  unfold name_char, to_ascii_lowercase, is_ascii_alphanumeric, is_ascii_alphabetic, is_ascii_uppercase, is_ascii_lowercase, is_ascii_digit, in_range. destruct ((65 <=? x) && (x <=? 90)) eqn:E; lia.
Qed.
Lemma slug_take (n : nat) (s : list Z) : slug s -> slug (take n s).
Proof. unfold slug. rewrite !forallb_forall. intros Hs c Hc. apply Hs. rewrite <- (take_drop n s). apply in_or_app. by left. Qed.
Lemma slug_no_mark (s : list Z) : slug s -> Forall (fun c => c <> 95 /\ c <> 37) s.
Proof. unfold slug. rewrite Forall_forall, forallb_elem_of. intros Hs c Hc. specialize (Hs c Hc). revert Hs. unfold name_char, is_ascii_lowercase, is_ascii_digit, in_range. lia. Qed.
Lemma slug_bytes (s : list Z) : slug s -> byte_len s = Z.of_nat (length s).
Proof.
  unfold slug. induction s as [|c s IH]; [done|]. cbn [forallb]. intros [Hc Hs]%andb_true_iff. cbn [byte_len length]. rewrite (IH Hs).
  unfold len_utf8. rewrite (proj2 (Z.ltb_lt c 128)); [lia|]. revert Hc. unfold name_char, is_ascii_lowercase, is_ascii_digit, in_range. lia.
Qed.

Definition named (s suffix : list Z) : list Z := lit "vibessh_" ++ s ++ lit "_" ++ suffix.
Lemma generated_named (seed suffix : list Z) (max_len : Z) : generated_identifier seed suffix max_len =
  named (take (Z.to_nat (Z.max (Z.max (max_len - (9 + byte_len suffix)) 0) 1)) (slugify seed)) suffix.
Proof. reflexivity. Qed.
Lemma named_chars (s suffix : list Z) : slug s -> slug suffix -> forallb (fun c => name_char c || (c =? 95)) (named s suffix) = true.
Proof.
  intros Hs Hx. unfold named. rewrite !forallb_app. assert (Hw : forall l, slug l -> forallb (fun c => name_char c || (c =? 95)) l = true).
  { unfold slug. intros l. rewrite !forallb_forall. intros Hl c Hc. by rewrite (Hl c Hc). }
  by rewrite (Hw s Hs), (Hw suffix Hx).
Qed.
Lemma named_plain (s suffix : list Z) : slug s -> slug suffix -> sql_plain (named s suffix) = true /\ contains_char 0 (named s suffix) = false.
Proof.
  intros Hs Hx. pose proof (named_chars s suffix Hs Hx) as Hc. rewrite forallb_elem_of in Hc. split; [unfold sql_plain; apply forallb_elem_of|unfold contains_char; apply existsb_false_elem_of];
    intros c Hin; specialize (Hc c Hin); revert Hc; unfold name_char, is_ascii_lowercase, is_ascii_digit, in_range; lia.
Qed.
Lemma named_safe (s suffix : list Z) : slug s -> slug suffix -> (9 + length s + length suffix <= 64)%nat ->
  is_safe_identifier (named s suffix) = true /\ byte_len (named s suffix) = 9 + Z.of_nat (length s) + Z.of_nat (length suffix).
Proof.
  intros Hs Hx Hl. assert (Hb : byte_len (named s suffix) = 9 + Z.of_nat (length s) + Z.of_nat (length suffix)).
  { assert (Ha : forall a b, byte_len (a ++ b) = byte_len a + byte_len b) by (induction a as [|c a IH]; intros b; cbn [app byte_len]; [lia|rewrite IH; lia]).
    unfold named. rewrite !Ha, (slug_bytes s Hs), (slug_bytes suffix Hx). change (byte_len (lit "vibessh_")) with 8. change (byte_len (lit "_")) with 1. lia. }
  split; [|done]. unfold is_safe_identifier. rewrite Hb, (proj2 (Z.leb_le _ 64)) by lia. cbn [negb is_empty named lit app andb].
  pose proof (named_chars s suffix Hs Hx) as Hc. rewrite forallb_elem_of in Hc |- *. intros c Hin. specialize (Hc c Hin). revert Hc.
  unfold name_char, is_ascii_alphanumeric, is_ascii_alphabetic, is_ascii_uppercase, is_ascii_lowercase, is_ascii_digit, in_range. lia.
Qed.

(** A pattern without percent signs pattern_covers names of its length that differ where it has underscores. *)
Lemma covers_app (a b p q : list Z) : Forall (fun c => c <> 95 /\ c <> 37) a -> length a = length b -> pattern_covers (a ++ p) (b ++ q) = true -> a = b /\ pattern_covers p q = true.
Proof.
  intros Ha. revert b. induction Ha as [|c a [H95 H37] _ IH]; intros [|x b] Hl Hc; try done. cbn [app pattern_covers] in Hc.
  rewrite (proj2 (Z.eqb_neq c 95)), (proj2 (Z.eqb_neq c 37)) in Hc by done. apply andb_true_iff in Hc as [Hx%Z.eqb_eq Hc]. destruct (IH b) as [-> ?]; [cbn in Hl; lia|done|]. by subst.
Qed.
Lemma covers_length (p q : list Z) : Forall (fun c => c <> 37) p -> pattern_covers p q = true -> length p = length q.
Proof.
  intros Hp. revert q. induction Hp as [|c p Hc _ IH]; intros q; [by destruct q|]. cbn [pattern_covers]. rewrite (proj2 (Z.eqb_neq c 37)) by done.
  destruct (c =? 95), q as [|x q]; try done; [intros Hq|intros [_ Hq]%andb_true_iff]; cbn; f_equal; by apply IH.
Qed.
Lemma covers_refl (p : list Z) : Forall (fun c => c <> 37) p -> pattern_covers p p = true.
Proof. induction 1 as [|c p Hc _ IH]; [done|]. cbn [pattern_covers]. rewrite (proj2 (Z.eqb_neq c 37)) by done. destruct (c =? 95); [done|]. by rewrite Z.eqb_refl. Qed.
Lemma named_no_percent (s suffix : list Z) : slug s -> slug suffix -> Forall (fun c => c <> 37) (named s suffix).
Proof.
  intros Hs Hx. pose proof (named_chars s suffix Hs Hx) as Hn. rewrite forallb_elem_of in Hn. apply Forall_forall. intros c Hin. specialize (Hn c Hin).
  revert Hn. unfold name_char, is_ascii_lowercase, is_ascii_digit, in_range. lia.
Qed.
Lemma named_covers (s suffix s' suffix' : list Z) : slug s -> slug suffix -> slug s' -> slug suffix' -> length suffix = length suffix' ->
  pattern_covers (named s suffix) (named s' suffix') = true -> named s suffix = named s' suffix'.
Proof.
  intros Hs Hx Hs' Hx' Hl Hc.
  assert (Hlen : length (named s suffix) = length (named s' suffix')).
  { apply covers_length; [by apply named_no_percent|done]. }
  unfold named in *. rewrite !length_app in Hlen. cbn [length lit] in Hlen. change (lit "vibessh_") with (lit "vibessh" ++ [95]) in Hc. rewrite <- !app_assoc in Hc.
  apply covers_app in Hc as [_ Hc]; [|by repeat constructor|done]. cbn [app pattern_covers] in Hc. apply covers_app in Hc as [-> Hc]; [|by apply slug_no_mark|lia].
  cbn in Hc. rewrite <- (app_nil_r suffix), <- (app_nil_r suffix') in Hc. apply covers_app in Hc as [-> _]; [done|by apply slug_no_mark|done].
Qed.

(** *** The generator *)

Section generator.
Context {World : Type} `{Desk World} `{DatabaseNodes World}.
Notation DB := (D DatabaseRows World).

(** Whatever the generator draws, a suffix is six lower-case letters and digits. *)
Lemma random_chars_all (p : Z -> bool) (chars : list Z) (len : nat) (s : DeskState DatabaseRows World) : chars <> [] -> forallb p chars = true ->
  exists text s', random_chars chars len s = (Ok text, s') /\ forallb p text = true /\ length text = len.
Proof.
  intros Hne Hp. revert s. induction len as [|len IH]; intros s; [by exists [], s|]. cbn [random_chars]. unfold dbind, at_nodes, on_host, ask. destruct (dn_random (fw_node (ds_fw s))) as [n w].
  destruct (IH (mkDesk (ds_store s) (mkFw w (fw_verified (ds_fw s)) (fw_uuid (ds_fw s))))) as (text & s' & Ht & Hall & Hl). rewrite Ht. unfold dret.
  eexists _, s'. split; [reflexivity|]. cbn [forallb length]. rewrite Hall, Hl, andb_true_r. split; [|done]. rewrite forallb_elem_of in Hp.
  assert (Hlen : 0 < Z.of_nat (length chars)) by (destruct chars; [done|cbn; lia]). pose proof (Z.mod_pos_bound n _ Hlen).
  destruct (lookup_lt_is_Some_2 chars (Z.to_nat (n mod Z.of_nat (length chars)))) as [c Hc]; [lia|]. rewrite Hc. by eapply Hp, list_elem_of_lookup_2.
Qed.
Lemma generate_named (seed : list Z) (max_len : Z) (s : DeskState DatabaseRows World) : 16 <= max_len <= 64 ->
  exists body suffix s', generate_identifier seed max_len s = (Ok (named body suffix), s') /\ slug body /\ slug suffix /\ length suffix = RANDOM_SUFFIX_LEN /\ 9 + Z.of_nat (length body) + 6 <= max_len.
Proof.
  intros Hm. unfold generate_identifier, random_alnum, dbind. destruct (random_chars_all name_char IDENTIFIER_CHARS RANDOM_SUFFIX_LEN s) as (suffix & s' & Hr & Hx & Hl); [done|reflexivity|]. rewrite Hr. unfold dret.
  rewrite generated_named. eexists _, suffix, s'. split; [reflexivity|]. split; [apply slug_take, slugify_slug|]. split; [done|]. split; [done|].
  rewrite length_take, (slug_bytes suffix Hx), Hl. change (Z.of_nat RANDOM_SUFFIX_LEN) with 6. lia.
Qed.

(** The names VibeSSH makes up for a database or an account: for any purpose
    text, and whatever the generator draws, a name fits the server's limit, is a
    plain identifier that needs no quoting, and - a grant takes the database name
    as a pattern, in which an underscore is any character - covers no other name
    made up for the same or for any other purpose. *)
Theorem generated_names_are_their_own (seed seed' : list Z) (max_len max_len' : Z) (s s' : DeskState DatabaseRows World) :
  16 <= max_len <= 64 -> 16 <= max_len' <= 64 ->
  exists name t name' t', generate_identifier seed max_len s = (Ok name, t) /\ generate_identifier seed' max_len' s' = (Ok name', t') /\
    is_safe_identifier name = true /\ byte_len name <= max_len /\ sql_quote name = [39] ++ name ++ [39] /\
    pattern_covers name name = true /\ (pattern_covers name name' = true -> name = name').
Proof.
  intros Hm Hm'. destruct (generate_named seed max_len s Hm) as (body & suffix & t & Hg & Hb & Hx & Hl & Hlen). destruct (generate_named seed' max_len' s' Hm') as (body' & suffix' & t' & Hg' & Hb' & Hx' & Hl' & _).
  exists (named body suffix), t, (named body' suffix'), t'. split; [done|]. split; [done|]. unfold RANDOM_SUFFIX_LEN in *. destruct (named_safe body suffix) as [Hsafe Hbytes]; [done|done|lia|].
  split; [done|]. split; [lia|]. split; [exact (plain_quote _ (proj1 (named_plain _ _ Hb Hx)))|]. split; [apply covers_refl, named_no_percent; done|]. apply named_covers; try done. congruence.
Qed.
End generator.

(** A generator that counts. *)
Definition Counter : Type := Z.
#[local] Instance counter_desk : Desk Counter := {| store_fault n := (None, n); load_environment_secret _ _ n := (Ok None, n); get_or_connect _ n := (Ok tt, n) |}.
#[local] Instance counter_nodes : DatabaseNodes Counter := {|
  dn_connect _ n := (Ok tt, n); dn_remove_session _ n := n; dn_execute _ _ n := (Ok (mkOutput 0 [] []), n); dn_write_file _ _ _ n := (Ok tt, n); dn_random n := (n, n + 7);
|}.
Definition drawing (n : Z) : DeskState DatabaseRows Counter := mkDesk (mkDatabaseRows ∅ ∅ ∅ ∅) (mkFw n ∅ 1%N).
Lemma generated_names_are_their_own_witness : exists name t name' t',
  generate_identifier (lit "My Shop") MAX_USERNAME_LEN (drawing 3) = (Ok name, t) /\ generate_identifier (lit "") MAX_DATABASE_NAME_LEN (drawing 5) = (Ok name', t') /\
  is_safe_identifier name = true /\ byte_len name <= 32 /\ sql_quote name = [39] ++ name ++ [39] /\ pattern_covers name name = true /\ (pattern_covers name name' = true -> name = name').
Proof. apply (generated_names_are_their_own (lit "My Shop") (lit "") MAX_USERNAME_LEN MAX_DATABASE_NAME_LEN); unfold MAX_USERNAME_LEN, MAX_DATABASE_NAME_LEN; lia. Defined.
