(* ===== verification/DatabaseLife.v ===== *)
(** * DatabaseLife: making and removing a database

    What [create_application_database] and [delete_application_database] leave on
    the database server and in the tables, whatever fails on the way: over the
    class [MysqlServers], which says what the client on a Node does to the server
    behind it. *)

From S2P Require Import Prelude Text Shell Validators Firewall Network Docker Desktop AppLinks Archive Restore ScheduleText ScheduleRuns Mysql Databases DatabaseSql DatabaseServer.

#[local] Open Scope Z_scope.

(** ** What statements change *)

Lemma execute_all_none (l : list SqlStatement) : foldl (fun m s => m ≫= fun m => execute m s) None l = None.
Proof. by induction l. Qed.
Lemma execute_all_cons (m : MysqlState) (s : SqlStatement) (l : list SqlStatement) : execute_all m (s :: l) = m' ← execute m s; execute_all m' l.
Proof. unfold execute_all. cbn. destruct (execute m s); [done|]. apply execute_all_none. Qed.
Lemma execute_all_app (m : MysqlState) (a b : list SqlStatement) : execute_all m (a ++ b) = m' ← execute_all m a; execute_all m' b.
Proof. revert m. induction a as [|s a IH]; intros m; [done|]. cbn [app]. rewrite !execute_all_cons. destruct (execute m s); [apply IH|done]. Qed.

(** A statement about the database [name] and the accounts [who]. *)
Definition own (name : list Z) (who : list Account) (password : list Z) (s : SqlStatement) : Prop :=
  match s with
  | CreateDatabase n | DropDatabase n => n = name
  | CreateUser a p | AlterUser _ a p => a ∈ who /\ p = password
  | DropUser a => a ∈ who
  | GrantAll database a with_grant => database = Some name /\ a ∈ who /\ with_grant = false
  | FlushPrivileges => True
  end.
Record touches (name : list Z) (who : list Account) (password : list Z) (m m' : MysqlState) : Prop := mkTouches {
  touches_databases : forall n, n <> name -> n ∈ m'.(my_databases) <-> n ∈ m.(my_databases);
  touches_users : forall a, m'.(my_users) !! a = m.(my_users) !! a \/ (a ∈ who /\ (m'.(my_users) !! a = None \/ m'.(my_users) !! a = Some password));
  touches_grants : forall g, g ∈ m'.(my_grants) -> g ∈ m.(my_grants) \/ (g.1 = Some name /\ g.2 ∈ who);
  touches_kept : forall g, g ∈ m.(my_grants) -> g.2 ∉ who -> g ∈ m'.(my_grants);
}.
Lemma touches_refl name who password m : touches name who password m m.
Proof. split; auto. Qed.
Lemma touches_trans name who password m m1 m2 : touches name who password m m1 -> touches name who password m1 m2 -> touches name who password m m2.
Proof.
  intros [Hd Hu Hg Hk] [Hd' Hu' Hg' Hk']. split.
  - intros n Hn. by rewrite (Hd' n Hn), (Hd n Hn).
  - intros a. destruct (Hu' a) as [E|?]; [rewrite E; apply Hu|by right].
  - intros g Hin. destruct (Hg' g Hin) as [Hin'|?]; [by apply Hg|by right].
  - intros g Hin Hn. apply Hk'; [by apply Hk|done].
Qed.
Lemma touches_execute name who password (s : SqlStatement) m m' : own name who password s -> execute m s = Some m' -> touches name who password m m'.
Proof.
  destruct s as [n|n|a p|b a p|a|d a g|]; cbn [own execute].
  - intros -> [= <-]. split; cbn; auto. intros n Hn. set_solver.
  - intros -> [= <-]. split; cbn; auto. intros n Hn. set_solver.
  - intros [Ha ->] Hm. destruct (my_users m !! a) as [q|] eqn:E; injection Hm as <-; [apply touches_refl|]. split; cbn; auto. intros b. destruct (decide (b = a)) as [->|Hb].
    + rewrite lookup_insert_eq. auto.
    + rewrite lookup_insert_ne by congruence. by left.
  - intros [Ha ->] Hm. destruct (my_users m !! a) as [q|] eqn:E.
    + injection Hm as <-. split; cbn; auto. intros c. destruct (decide (c = a)) as [->|Hb].
      * rewrite lookup_insert_eq. auto.
      * rewrite lookup_insert_ne by congruence. by left.
    + destruct b; [|done]. injection Hm as <-. apply touches_refl.
  - intros Ha [= <-]. split; cbn; auto.
    + intros c. destruct (decide (c = a)) as [->|Hb]; [rewrite lookup_delete_eq; auto|]. rewrite lookup_delete_ne by congruence. by left.
    + intros g Hg. rewrite elem_of_filter in Hg. left. tauto.
    + intros g Hg Hn. rewrite elem_of_filter. split; [|done]. intros E. apply Hn. by rewrite E.
  - intros (-> & Ha & ->) Hm. destruct (my_users m !! a); [|done]. injection Hm as <-. split; cbn; auto.
    + intros h Hh. rewrite elem_of_union, elem_of_singleton in Hh. destruct Hh as [-> |?]; cbn; auto.
    + intros h Hh _. rewrite elem_of_union. by right.
  - intros _ [= <-]. apply touches_refl.
Qed.
Lemma touches_all name who password (l : list SqlStatement) m m' : Forall (own name who password) l -> execute_all m l = Some m' -> touches name who password m m'.
Proof.
  intros Hl. revert m. induction Hl as [|s l Hs _ IH]; intros m Hm; [injection Hm as <-; apply touches_refl|]. rewrite execute_all_cons in Hm. destruct (execute m s) as [m1|] eqn:E; [|done].
  eapply touches_trans; [by eapply touches_execute|by apply IH].
Qed.

(** A client that was run, perhaps twice: the second time through when it answers. *)
Definition reached (m : MysqlState) (l : list SqlStatement) (m' : MysqlState) : Prop := exists k, got_to m l k m'.
Definition attempted (m : MysqlState) (l : list SqlStatement) (done : bool) (m' : MysqlState) : Prop :=
  exists m1, reached m l m1 /\ reached m1 l m' /\ (done = true -> execute_all m1 l = Some m').
Lemma reached_refl m l : reached m l m.
Proof. by exists O. Qed.
Lemma reached_touches name who password l m m' : Forall (own name who password) l -> reached m l m' -> touches name who password m m'.
Proof. intros Hl [k Hk]. eapply touches_all; [|exact Hk]. by apply Forall_take. Qed.
Lemma attempted_touches name who password l d m m' : Forall (own name who password) l -> attempted m l d m' -> touches name who password m m'.
Proof. intros Hl (m1 & H1 & H2 & _). eapply touches_trans; by eapply reached_touches. Qed.

(** *** The two texts *)

Definition accounts (username : list Z) (hosts : list (list Z)) : list Account := map (fun host => (username, host)) hosts.
Lemma in_accounts username (hosts : list (list Z)) host : host ∈ hosts -> (username, host) ∈ accounts username hosts.
Proof. intros Hh. apply list_elem_of_fmap. by exists host. Qed.
Lemma create_own name username password : Forall (own name (accounts username grant_hosts) password) (create_statements name username password).
Proof.
  assert (H1 := in_accounts username grant_hosts CONNECTIONS_FROM ltac:(by apply elem_of_cons; left)).
  assert (H2 := in_accounts username grant_hosts (lit "localhost") ltac:(by apply elem_of_cons; right; apply elem_of_cons; left)).
  unfold create_statements, grant_hosts in *. cbn [mbind list_bind app]. repeat (apply Forall_cons; split; [cbn [own]; auto|]). done.
Qed.
Lemma drop_own name username password (hosts : list (list Z)) : Forall (own name (accounts username hosts) password) (drop_statements name username hosts).
Proof.
  unfold drop_statements. apply Forall_app. split; [|by repeat constructor]. apply Forall_forall. intros s Hs. apply list_elem_of_bind in Hs as (h & ->%list_elem_of_singleton & Hh). by apply in_accounts.
Qed.

(** What a database that was made is on the server. *)
Record made (name username password : list Z) (m m' : MysqlState) : Prop := mkMade {
  made_database : name ∈ m'.(my_databases);
  made_accounts : forall host, host ∈ grant_hosts -> (Some name, (username, host)) ∈ m'.(my_grants) /\
    (m.(my_users) !! (username, host) = None -> m'.(my_users) !! (username, host) = Some password);
}.
Lemma one_account name password a m m' : execute_all m [CreateUser a password; GrantAll (Some name) a false] = Some m' ->
  is_Some (m'.(my_users) !! a) /\ (Some name, a) ∈ m'.(my_grants) /\ m'.(my_databases) = m.(my_databases) /\ m.(my_grants) ⊆ m'.(my_grants) /\ forall b, is_Some (m.(my_users) !! b) -> is_Some (m'.(my_users) !! b).
Proof.
  rewrite !execute_all_cons. cbn [execute mbind option_bind]. destruct (my_users m !! a) as [q|] eqn:E; cbn.
  - rewrite E. cbn. intros [= <-]. cbn. rewrite E. split_and!; [done|set_solver|done|set_solver|done].
  - rewrite lookup_insert_eq. cbn. intros [= <-]. cbn. rewrite lookup_insert_eq. split_and!; [done|set_solver|done|set_solver|]. intros b Hb.
    destruct (decide (b = a)) as [->|Hd]; [by rewrite lookup_insert_eq|]. by rewrite lookup_insert_ne.
Qed.
Lemma create_makes name username password m m1 m' : reached m (create_statements name username password) m1 -> execute_all m1 (create_statements name username password) = Some m' ->
  made name username password m m'.
Proof.
  intros H1 H2. assert (Ht : touches name (accounts username grant_hosts) password m m').
  { eapply touches_trans; [eapply reached_touches; [apply create_own|exact H1]|eapply touches_all; [apply create_own|exact H2]]. }
  unfold create_statements in H2. rewrite !execute_all_app in H2. cbn [execute_all foldl mbind option_bind execute] in H2.
  unfold grant_hosts in H2. rewrite !bind_cons, !execute_all_app in H2. remember (mkMysql _ _ _) as m2 eqn:E2.
  destruct (execute_all m2 _) as [m3|] eqn:E3; [|done]. cbn [mbind option_bind] in H2. destruct (execute_all m3 _) as [m4|] eqn:E4 in H2; [|done]. injection H2 as <-.
  apply one_account in E3 as (U3 & G3 & D3 & S3 & P3), E4 as (U4 & G4 & D4 & S4 & P4). split; [rewrite D4, D3, E2; cbn; set_solver|].
  assert (Hu : forall host, is_Some (my_users m4 !! (username, host)) -> my_users m !! (username, host) = None -> my_users m4 !! (username, host) = Some password).
  { intros host [q Hq] Hn. destruct (touches_users _ _ _ _ _ Ht (username, host)) as [E|[_ [E|E]]]; congruence. }
  intros host Hh. unfold grant_hosts in Hh. rewrite !elem_of_cons in Hh. destruct Hh as [-> |[-> |Hn]]; [| |by apply not_elem_of_nil in Hn].
  - split; [by apply S4|]. by apply Hu, P4.
  - split; [done|]. by apply Hu.
Qed.

(** What a database that was removed has left. *)
Record removed (name username : list Z) (hosts : list (list Z)) (m' : MysqlState) : Prop := mkRemoved {
  removed_database : name ∉ m'.(my_databases);
  removed_accounts : forall host, host ∈ hosts -> m'.(my_users) !! (username, host) = None;
  removed_grants : forall g, g ∈ m'.(my_grants) -> g.2 ∉ accounts username hosts;
}.
Lemma drop_users username (hosts : list (list Z)) m m' : execute_all m (hosts ≫= fun host => [DropUser (username, host)]) = Some m' ->
  my_databases m' = my_databases m /\ (forall a, my_users m' !! a = if decide (a ∈ accounts username hosts) then None else my_users m !! a) /\
  (forall g, g ∈ my_grants m' -> g ∈ my_grants m /\ g.2 ∉ accounts username hosts).
Proof.
  revert m. induction hosts as [|h hosts IH]; intros m Hm.
  - injection Hm as <-. split_and!; [done| |by intros g Hg; split; [|apply not_elem_of_nil]]. intros a. by rewrite decide_False by apply not_elem_of_nil.
  - rewrite bind_cons, execute_all_app in Hm. cbn [execute_all foldl mbind option_bind execute] in Hm. destruct (IH _ Hm) as (HD & HU & HG). cbn in *. split_and!; [done| |].
    + intros a. rewrite HU. destruct (decide (a = (username, h))) as [->|Hd].
      * rewrite lookup_delete_eq. rewrite (decide_True (P := (username, h) ∈ (username, h) :: _)) by (by apply elem_of_cons; left). by destruct (decide _).
      * rewrite lookup_delete_ne by congruence. destruct (decide (a ∈ accounts username hosts)) as [Hi|Hi]; [rewrite decide_True; [done|by apply elem_of_cons; right]|].
        rewrite decide_False; [done|]. by intros [?|?]%elem_of_cons.
    + intros g Hg. destruct (HG g Hg) as [[Hne Hin]%elem_of_filter Hn]. split; [done|]. by intros [?|?]%elem_of_cons.
Qed.
Lemma drop_removes name username (hosts : list (list Z)) m m' : execute_all m (drop_statements name username hosts) = Some m' -> removed name username hosts m'.
Proof.
  unfold drop_statements. rewrite execute_all_app. destruct (execute_all m _) as [m1|] eqn:E; [|done]. cbn. intros [= <-]. apply drop_users in E as (HD & HU & HG). split; cbn.
  - set_solver.
  - intros host Hh. rewrite HU. by rewrite decide_True by by apply in_accounts.
  - intros g Hg. by apply HG.
Qed.

(** ** The Nodes *)

(** What else is run on a Node for a client. *)
Inductive upkeep : list Z -> Prop :=
| up_probe : upkeep CLIENT_PROBE
| up_client : upkeep CLIENT_INSTALL
| up_active : upkeep SERVER_ACTIVE
| up_private path : upkeep (lit "install -m 600 /dev/null " ++ quote path)
| up_remove path : upkeep (lit "rm -f " ++ quote path)
| up_reachable port : upkeep (reachability_script port).

(** The client executes some of the statements it was given, all of them when it
    reports success; nothing else changes the server. *)
Class MysqlServers (World : Type) `{Desk World} `{DatabaseNodes World} `{Keyring World} : Type := {
  served : DatabaseHost -> World -> MysqlState;
  sv_client : forall host server command defaults_file sql l w, host.(dh_server_id) = Some server ->
    tokens command = Some (map Word (client_words defaults_file host sql)) -> read_sql sql = Some l ->
    let '(r, w') := dn_execute server command w in
    reached (served host w) l (served host w') /\ (forall out, r = Ok out -> out.(exit_code) = 0 -> execute_all (served host w) l = Some (served host w'));
  sv_upkeep : forall host server command w, upkeep command -> served host (dn_execute server command w).2 = served host w;
  sv_store : forall host w, served host (store_fault w).2 = served host w;
  sv_connect : forall host server w, served host (dn_connect server w).2 = served host w;
  sv_drop : forall host server w, served host (dn_remove_session server w) = served host w;
  sv_write : forall host server path contents w, served host (dn_write_file server path contents w).2 = served host w;
  sv_random : forall host w, served host (dn_random w).2 = served host w;
  sv_put : forall host id kind secret w, served host (store_secret id kind secret w).2 = served host w;
  sv_secret : forall host id kind w, served host (load_secret id kind w).2 = served host w;
  sv_forget : forall host id kind w, served host (forget_secret id kind w) = served host w;
}.

Section life.
Context {World : Type} `{MysqlServers World} (host : DatabaseHost).
Notation DB := (D DatabaseRows World).
#[local] Open Scope desk_scope.

(** The tables are [rows] and the server behind the host is [m]. *)
Definition at_ (rows : DatabaseRows) (m : MysqlState) (st : DatabaseRows) (w : World) : Prop := st = rows /\ served host w = m.
(** An operation that changes neither. *)
Definition idle {A : Type} (op : DB A) (Q : A -> Prop) : Prop :=
  forall rows m, dspec (at_ rows m) op (fun r st w => at_ rows m st w /\ forall x, r = Ok x -> Q x).

Lemma idle_conseq {A : Type} (op : DB A) (Q Q' : A -> Prop) : idle op Q -> (forall x, Q x -> Q' x) -> idle op Q'.
Proof. intros Hop HQ rows m. eapply dspec_conseq; [apply Hop|done|]. intros r st w [Hs Hr]. split; [done|]. intros x Hx. by apply HQ, Hr. Qed.
Lemma idle_ret {A : Type} (x : A) (Q : A -> Prop) : Q x -> idle (dret x) Q.
Proof. intros HQ rows m. apply dspec_ret. intros st w Hs. split; [done|]. by intros y [= <-]. Qed.
Lemma idle_throw {A : Type} e (Q : A -> Prop) : idle (dthrow e) Q.
Proof. intros rows m. by apply dspec_throw. Qed.
Lemma idle_bind {A B : Type} (op : DB A) (f : A -> DB B) (Q : A -> Prop) (Q' : B -> Prop) : idle op Q -> (forall x, Q x -> idle (f x) Q') -> idle (dbind op f) Q'.
Proof.
  intros Hop Hf rows m. apply (dspec_bind _ _ _ (fun x st w => at_ rows m st w /\ Q x)).
  - eapply dspec_conseq; [apply Hop|done|]. intros [x|e] st w [Hs Hr]; split; [done|by apply Hr|done|done].
  - intros x. apply dspec_pure. intros Hx. by apply Hf.
Qed.
Lemma idle_any {A : Type} (op : DB A) (Q : A -> Prop) : idle op Q -> idle op (fun _ => True).
Proof. intros Hop. by eapply idle_conseq. Qed.
Lemma idle_try {A : Type} (op : DB A) (Q : A -> Prop) : idle op Q -> idle (dtry op) (fun _ => True).
Proof. intros Hop rows m. intros s Hs. specialize (Hop rows m s Hs) as [Hat _]. unfold dtry. destruct (op s). by split. Qed.
Lemma idle_nodes {A : Type} (f : World -> result AppError A * World) : (forall w, served host (f w).2 = served host w) -> idle (at_nodes f) (fun _ => True).
Proof. intros Hf rows m s [Hr Hw]. specialize (Hf (fw_node (ds_fw s))). unfold at_nodes, on_host, ask. destruct (f (fw_node (ds_fw s))) as [r w]. cbn in *. split; [|done]. split; [done|congruence]. Qed.
Lemma idle_id : idle db_id (fun _ => True).
Proof. intros rows m s Hs. by split. Qed.
Lemma idle_look {A : Type} message (f : DatabaseRows -> A) (Q : A -> Prop) rows : (Q (f rows)) ->
  forall m, dspec (at_ rows m) (statement message (fun rows => (f rows, rows))) (fun r st w => at_ rows m st w /\ forall x, r = Ok x -> Q x).
Proof.
  intros HQ m s [Hr Hw]. unfold statement, ask, faulty. pose proof (sv_store host (fw_node (ds_fw s))) as Hs. destruct (store_fault (fw_node (ds_fw s))) as [[detail|] w]; cbn in *.
  - split; [|done]. split; [done|congruence].
  - split; [split; [done|congruence]|]. intros x [= <-]. by rewrite Hr.
Qed.

(** *** The steps of a run *)

Lemma idle_command server command : upkeep command -> idle (node_command server command) (fun _ => True).
Proof. intros Hu. apply idle_nodes. intros w. by apply sv_upkeep. Qed.
Hint Resolve idle_id up_probe up_client up_active up_private up_remove up_reachable : idle.
Ltac stand := first
  [by apply idle_ret|by apply idle_throw|by eauto with idle|by apply idle_command; auto with idle
  |apply idle_nodes; intros; cbn; first [apply sv_connect|apply sv_drop|apply sv_write|apply sv_put|apply sv_secret|apply sv_forget|done]
  |(eapply idle_any, idle_try; stand)|(eapply (idle_bind _ _ (fun _ => True)); [stand|intros ? _])|case_match].

Lemma idle_connect : idle (connect_to_host host) (fun server => host.(dh_server_id) = Some server).
Proof. unfold connect_to_host. destruct (dh_server_id host); [|apply idle_throw]. eapply (idle_bind _ _ (fun _ => True)); [stand|]. intros ? _. by apply idle_ret. Qed.
Lemma idle_private server path contents : idle (node_private_file server path contents) (fun _ => True).
Proof. unfold node_private_file. repeat stand. Qed.
Lemma idle_client server : idle (ensure_mysql_client_installed server) (fun _ => True).
Proof. unfold ensure_mysql_client_installed. repeat stand. Qed.
Lemma idle_server server h : idle (require_database_server server h) (fun _ => True).
Proof. unfold require_database_server, database_server_running. repeat stand. Qed.
Lemma idle_reachable server port : idle (ensure_mysql_reachable_from_containers server port) (fun _ => True).
Proof. unfold ensure_mysql_reachable_from_containers. repeat stand. Qed.
Hint Resolve idle_private idle_client idle_server idle_reachable : idle.
Lemma idle_access : idle (check_container_access host) (fun _ => True).
Proof.
  unfold check_container_access. destruct (is_loopback_host (dh_host host) && _); [|by apply idle_ret].
  eapply (idle_bind _ _ (fun _ => True)); [eapply idle_try, idle_connect|]. intros [server|e] _; repeat stand.
Qed.
Lemma idle_chars chars len : idle (random_chars chars len) (fun _ => True).
Proof.
  induction len as [|len IH]; cbn [random_chars]; [by apply idle_ret|]. eapply (idle_bind _ _ (fun _ => True)); [|intros n _; repeat stand].
  apply idle_nodes. intros w. pose proof (sv_random host w) as Hr. by destruct (dn_random w).
Qed.

(** *** A run *)

Definition typed_host : Prop := contains_char 0 host.(dh_host) = false /\ contains_char 0 host.(dh_admin_username) = false /\ 0 <= host.(dh_port) < 65536.
Lemma idle_under {A : Type} (op : DB A) (Q : A -> Prop) rows (P : MysqlState -> Prop) : idle op Q ->
  dspec (fun st w => st = rows /\ P (served host w)) op (fun r st w => (st = rows /\ P (served host w)) /\ forall x, r = Ok x -> Q x).
Proof. intros Hop s [Hr HP]. destruct (Hop rows (served host (fw_node (ds_fw s))) s) as [[Hr' Hw] Hq]; [done|]. split; [|done]. split; [done|]. by rewrite Hw. Qed.
Lemma under_bind {A B : Type} (op : DB A) (f : A -> DB B) (Q : A -> Prop) rows (P : MysqlState -> Prop) (R : result AppError B -> DatabaseRows -> World -> Prop) : idle op Q ->
  (forall e st w, st = rows -> P (served host w) -> R (Err e) st w) -> (forall x, Q x -> dspec (fun st w => st = rows /\ P (served host w)) (f x) R) ->
  dspec (fun st w => st = rows /\ P (served host w)) (dbind op f) R.
Proof.
  intros Hop He Hf. apply (dspec_bind _ _ _ (fun x st w => (st = rows /\ P (served host w)) /\ Q x)).
  - eapply dspec_conseq; [by apply (idle_under op Q rows P)|done|]. intros [x|e] st w [[Hs Hw] Hr]; [split; [done|by apply Hr]|by apply He].
  - intros x. apply dspec_pure. intros Hx. by apply Hf.
Qed.

Definition ran (m : MysqlState) (l : list SqlStatement) (rows : DatabaseRows) (r : result AppError unit) (st : DatabaseRows) (w : World) : Prop :=
  st = rows /\ reached m l (served host w) /\ (r = Ok tt -> execute_all m l = Some (served host w)).
Lemma ran_same m l rows e st w : st = rows -> served host w = m -> ran m l rows (Err e) st w.
Proof. intros -> <-. split_and!; [done|apply reached_refl|done]. Qed.
Lemma runs_client server defaults_file sql l rows m : typed_host -> host.(dh_server_id) = Some server -> contains_char 0 defaults_file = false -> contains_char 0 sql = false -> read_sql sql = Some l ->
  dspec (at_ rows m) (node_command server (build_mysql_command defaults_file host sql))
    (fun r st w => st = rows /\ reached m l (served host w) /\ forall out, r = Ok out -> out.(exit_code) = 0 -> execute_all m l = Some (served host w)).
Proof.
  intros (Hh & Hu & Hp) Hid Hf Hn Hl s [Hr Hw]. pose proof (lex_client defaults_file host sql Hf Hh Hu Hn Hp) as Ht.
  pose proof (sv_client host server _ defaults_file sql l (fw_node (ds_fw s)) Hid Ht Hl) as Hc. unfold node_command, at_nodes, on_host, ask. rewrite Hw in Hc.
  destruct (dn_execute server _ (fw_node (ds_fw s))) as [r w]. by destruct Hc.
Qed.
Lemma no_nul_defaults id : contains_char 0 (lit ".vibessh-my-" ++ uuid_text id ++ lit ".cnf") = false.
Proof.
  rewrite !contains_app. replace (contains_char 0 (uuid_text id)) with false; [done|]. symmetry. destruct (uuid_text_chars id) as [Hc _]. rewrite forallb_elem_of in Hc.
  unfold contains_char. apply existsb_false_elem_of. intros c Hin. specialize (Hc c Hin). revert Hc.
  unfold container_char, is_ascii_alphanumeric, is_ascii_alphabetic, is_ascii_uppercase, is_ascii_lowercase, is_ascii_digit, in_range. lia.
Qed.
Lemma runs_mysql server admin_password sql l redact rows m : typed_host -> host.(dh_server_id) = Some server -> contains_char 0 sql = false -> read_sql sql = Some l ->
  dspec (at_ rows m) (run_mysql server host admin_password sql redact) (ran m l rows).
Proof.
  intros Hh Hid Hn Hl. unfold run_mysql, with_defaults_file.
  apply (under_bind _ _ (fun _ => True) rows (fun m' => m' = m)); [apply idle_id|by apply ran_same|]. intros id _. cbv zeta.
  apply (under_bind _ _ (fun _ => True) rows (fun m' => m' = m)); [apply idle_private|by apply ran_same|]. intros _ _.
  apply (dspec_bind _ _ _ (fun attempt st w => st = rows /\ reached m l (served host w) /\ forall out, attempt = Ok out -> out.(exit_code) = 0 -> execute_all m l = Some (served host w))).
  { intros s Hs. unfold dtry. pose proof (runs_client server _ sql l rows m Hh Hid (no_nul_defaults id) Hn Hl s Hs) as Hc. by destruct (node_command _ _ s). }
  intros attempt. apply (under_bind _ _ (fun _ => True) rows (fun m' => reached m l m' /\ forall out, attempt = Ok out -> out.(exit_code) = 0 -> execute_all m l = Some m'));
    [by eapply idle_try, idle_command, up_remove|by intros ? ? ? -> [? _]; split_and!|]. intros _ _.
  destruct attempt as [output|e]; [|apply dspec_throw; by intros st w (-> & ? & _); split_and!].
  destruct (Z.eqb_spec (exit_code output) 0) as [E|E]; cbn [negb]; [|apply dspec_throw; by intros st w (-> & ? & _); split_and!].
  apply dspec_ret. intros st w (-> & Hr & Hx). split_and!; [done..|]. intros _. by eapply Hx.
Qed.

Definition retried (m : MysqlState) (l : list SqlStatement) (rows : DatabaseRows) (r : result AppError unit) (st : DatabaseRows) (w : World) : Prop :=
  st = rows /\ attempted m l (is_ok r) (served host w).
Lemma client_attempt admin_password sql l redact rows m : typed_host -> contains_char 0 sql = false -> read_sql sql = Some l ->
  dspec (at_ rows m) (connection <- connect_to_host host ;; ensure_mysql_client_installed connection ;;; require_database_server connection host ;;; run_mysql connection host admin_password sql redact) (ran m l rows).
Proof.
  intros Hh Hn Hl. apply (under_bind _ _ (fun server => host.(dh_server_id) = Some server) rows (fun m' => m' = m)); [apply idle_connect|by apply ran_same|].
  intros server Hid. apply (under_bind _ _ (fun _ => True) rows (fun m' => m' = m)); [apply idle_client|by apply ran_same|].
  intros _ _. apply (under_bind _ _ (fun _ => True) rows (fun m' => m' = m)); [apply idle_server|by apply ran_same|].
  intros _ _. by apply runs_mysql.
Qed.
Lemma runs_with_retry admin_password sql l redact rows m : typed_host -> contains_char 0 sql = false -> read_sql sql = Some l ->
  dspec (at_ rows m) (run_mysql_with_retry host admin_password sql redact) (retried m l rows).
Proof.
  intros Hh Hn Hl. unfold run_mysql_with_retry, retry_database.
  apply (dspec_bind _ _ _ (fun first => ran m l rows first)).
  { intros s Hs. unfold dtry. pose proof (client_attempt admin_password sql l redact rows m Hh Hn Hl s Hs) as Hc. by destruct ((dbind _ _) s). }
  intros [u|e]; [apply dspec_ret; intros st w (-> & Hr & Hx); split; [done|]; exists m; split_and!; [apply reached_refl|done|]; intros _; by apply Hx; destruct u|].
  assert (He : forall st w, ran m l rows (Err e) st w -> retried m l rows (Err e) st w).
  { intros st w (-> & Hr & _). split; [done|]. exists m. by split_and!; [apply reached_refl| |]. }
  destruct (negb (is_transport_failure e)); [by apply dspec_throw|]. destruct (dh_server_id host) as [server|] eqn:Hid; [|by apply dspec_throw].
  eapply (dspec_conseq _ (fun st w => st = rows /\ reached m l (served host w))); [|by intros st w (-> & Hr & _)|done].
  apply (under_bind _ _ (fun _ => True) rows (fun m' => reached m l m')); [apply idle_nodes; intros; apply sv_drop| |].
  { intros e' st w -> Hr. split; [done|]. exists m. by split_and!; [apply reached_refl| |]. }
  intros _ _ s [Hr Hm]. pose proof (client_attempt admin_password sql l redact rows _ Hh Hn Hl s (conj Hr eq_refl)) as (Hr' & Hm' & Hx). split; [done|].
  exists (served host (fw_node (ds_fw s))). split_and!; [done..|]. intros Hok. apply Hx. destruct ((dbind _ _) s) as [[[]|e'] s']; done.
Qed.

(** *** Names and passwords *)

Lemma idle_value {A : Type} (op : DB A) (Q : A -> Prop) : idle op (fun _ => True) -> (forall s x, (op s).1 = Ok x -> Q x) -> idle op Q.
Proof. intros Hop HQ rows m s Hs. destruct (Hop rows m s Hs) as [Hat _]. split; [done|]. intros x Hx. by eapply HQ. Qed.
(** What can stand in a statement and in a command as it is. *)
Definition clean (text : list Z) : Prop := sql_plain text = true /\ contains_char 0 text = false.
Definition fresh_name (name : list Z) : Prop := is_safe_identifier name = true /\ clean name.
Lemma idle_identifier seed max_len : 16 <= max_len <= 64 -> idle (generate_identifier seed max_len) fresh_name.
Proof.
  intros Hm. apply idle_value; [unfold generate_identifier; eapply (idle_bind _ _ (fun _ => True)); [apply idle_chars|intros; by apply idle_ret]|].
  intros s x Hx. destruct (generate_named seed max_len s Hm) as (body & suffix & s' & Hg & Hb & Hs & Hl & Hlen). rewrite Hg in Hx. injection Hx as <-.
  split; [|by apply named_plain]. unfold RANDOM_SUFFIX_LEN in Hl. apply (named_safe body suffix Hb Hs). lia.
Qed.
Lemma idle_password : idle generate_password clean.
Proof.
  apply idle_value; [apply idle_chars|]. intros s x Hx. unfold generate_password in Hx.
  destruct (random_chars_all (fun c => negb ((c =? 39) || (c =? 92) || (c =? 96)) && negb (0 =? c)) PASSWORD_CHARS GENERATED_PASSWORD_LEN s) as (text & s' & Hr & Hp & _); [done|reflexivity|].
  rewrite Hr in Hx. injection Hx as <-. rewrite forallb_elem_of in Hp. split; [unfold sql_plain; apply forallb_elem_of|unfold contains_char; apply existsb_false_elem_of]; intros c Hc; specialize (Hp c Hc); by apply andb_true_iff in Hp as [? ?%negb_true_iff].
Qed.
Lemma no_nul_lit_app (p t : list Z) : contains_char 0 p = false -> contains_char 0 t = false -> contains_char 0 (p ++ t) = false.
Proof. intros Hp Ht. by rewrite contains_app, Hp, Ht. Qed.
Lemma no_nul_bind {A : Type} (f : A -> list Z) (l : list A) : (forall x, x ∈ l -> contains_char 0 (f x) = false) -> contains_char 0 (l ≫= f) = false.
Proof. induction l as [|x l IH]; intros Hf; [done|]. rewrite bind_cons. apply no_nul_lit_app; [apply Hf; by apply elem_of_cons; left|]. apply IH. intros y Hy. apply Hf. by apply elem_of_cons; right. Qed.
Ltac no_nul := repeat first [done|apply no_nul_lit_app].
Lemma create_sql_clean name username password : clean name -> clean username -> clean password ->
  contains_char 0 (create_sql name username password) = false /\ read_sql (create_sql name username password) = Some (create_statements name username password).
Proof.
  intros [Hn Hn0] [Hu Hu0] [Hp Hp0]. split; [|by apply says_read, create_sql_says]. unfold create_sql. no_nul.
Qed.
Lemma drop_sql_clean name username hosts : clean name -> clean username -> (forall h, h ∈ hosts -> clean h) ->
  contains_char 0 (drop_sql name username hosts) = false /\ read_sql (drop_sql name username hosts) = Some (drop_statements name username hosts).
Proof.
  intros [Hn Hn0] [Hu Hu0] Hh. split; [|apply says_read, drop_sql_says; try done; intros h Hin; by apply Hh]. unfold drop_sql. no_nul. apply no_nul_bind. intros h Hin. unfold drop_user_sql.
  destruct (Hh h Hin) as [_ Hz]. no_nul.
Qed.
Lemma grant_hosts_clean h : h ∈ grant_hosts -> clean h.
Proof. unfold grant_hosts. rewrite !elem_of_cons. intros [-> |[-> |Hn]]; [done|done|by apply not_elem_of_nil in Hn]. Qed.

(** *** Rows *)

Definition row_of (input : CreateApplicationDatabaseInput) (id : N) : ApplicationDatabase :=
  mkDatabase id input.(di_application_id) input.(di_database_host_id) input.(di_database_name) input.(di_username) input.(di_connections_from).
Definition perhaps_added (rows : DatabaseRows) (input : CreateApplicationDatabaseInput) (st : DatabaseRows) : Prop :=
  st = rows \/ exists id, st = with_databases rows (<[id := row_of input id]> rows.(dr_databases)).
Definition added (input : CreateApplicationDatabaseInput) (st : DatabaseRows) (record : ApplicationDatabase) : Prop :=
  record = row_of input record.(ad_id) /\ st.(dr_databases) !! record.(ad_id) = Some record.
Lemma statement_cases {A : Type} message (f : DatabaseRows -> A * DatabaseRows) (R : result AppError A -> DatabaseRows -> World -> Prop) P :
  (forall st w e, P st w -> R (Err e) st (store_fault w).2) -> (forall st w, P st w -> R (Ok (f st).1) (f st).2 (store_fault w).2) -> dspec P (statement message f) R.
Proof.
  intros HE HO s Hs. unfold statement, ask, faulty. destruct s as [st [w v u]]; cbn in *. specialize (HE st w). specialize (HO st w Hs).
  destruct (store_fault w) as [[detail|] w']; cbn in *; [by apply HE|]. by destruct (f st).
Qed.
Lemma creates_row input rows m : dspec (at_ rows m) (create_database input) (fun r st w => served host w = m /\ perhaps_added rows input st /\ forall record, r = Ok record -> added input st record).
Proof.
  unfold create_database. apply (dspec_bind _ _ _ (fun _ => at_ rows m)).
  { eapply dspec_conseq; [apply idle_id|done|]. intros [id|e] st w [[-> Hw] _]; [done|]. split_and!; [done|by left|done]. }
  intros id. apply (dspec_bind _ _ _ (fun inserted st w => served host w = m /\ match inserted with Ok _ => st = with_databases rows (<[id := row_of input id]> rows.(dr_databases)) | Err _ => st = rows end)).
  - apply statement_cases.
    + intros st w e [-> <-]. split_and!; [apply sv_store|by left|done].
    + intros st w [-> <-]. destruct (name_taken rows input); [split; [apply sv_store|done]|]. destruct (_ && _); by split; [apply sv_store|].
  - intros [u|[]].
    + unfold get_database. apply (dspec_bind _ _ _ (fun found st w => served host w = m /\ st = with_databases rows (<[id := row_of input id]> rows.(dr_databases)) /\ found = Some (row_of input id))).
      * apply statement_cases.
        -- intros st w e [<- ->]. split_and!; [apply sv_store|right; by exists id|done].
        -- intros st w [<- ->]. split_and!; [apply sv_store|done|]. cbn. by rewrite lookup_insert_eq.
      * intros [database|]; [apply dspec_ret|apply dspec_throw; by intros st w (_ & _ & ?)]. intros st w (Hw & -> & [= ->]). split_and!; [done|right; by exists id|]. intros record [= <-]. split; [done|]. cbn. by rewrite lookup_insert_eq.
    + unfold refuse. apply dspec_throw. intros st w [Hw ->]. split_and!; [done|by left|done].
    + apply dspec_throw. intros st w [Hw ->]. split_and!; [done|by left|done].
Qed.

(** *** Making one *)

Definition asked_row (application_id hid : N) (name username : list Z) : CreateApplicationDatabaseInput := mkDatabaseInput application_id hid name username CONNECTIONS_FROM.
(** What may have become of the server and the tables. *)
Definition provisioned {A : Type} (rows : DatabaseRows) (m : MysqlState) (application_id hid : N) (name username password : list Z) (record : A -> ApplicationDatabase)
    (r : result AppError A) (st : DatabaseRows) (w : World) : Prop :=
  touches name (accounts username grant_hosts) password m (served host w) /\ perhaps_added rows (asked_row application_id hid name username) st /\
  forall x, r = Ok x -> made name username password m (served host w) /\ added (asked_row application_id hid name username) st (record x).
Lemma provisioned_error {A A' : Type} rows m application_id hid name username password (record : A -> ApplicationDatabase) (record' : A' -> ApplicationDatabase) e st w :
  provisioned rows m application_id hid name username password record (Err e) st w -> provisioned rows m application_id hid name username password record' (Err e) st w.
Proof. by intros (Ht & Ha & _). Qed.
Lemma records admin_password rows m application_id hid name username password : typed_host -> clean name -> clean username ->
  dspec (fun st w => st = rows /\ made name username password m (served host w) /\ touches name (accounts username grant_hosts) password m (served host w))
    (record_database host admin_password name username application_id hid) (provisioned rows m application_id hid name username password (fun x => x)).
Proof.
  intros Hh Hn Hu. unfold record_database. fold (asked_row application_id hid name username).
  apply (dspec_bind _ _ _ (fun record st w => (made name username password m (served host w) /\ touches name (accounts username grant_hosts) password m (served host w)) /\
    perhaps_added rows (asked_row application_id hid name username) st /\ forall x, record = Ok x -> added (asked_row application_id hid name username) st x)).
  { intros s (Hr & Hw). pose proof (creates_row (asked_row application_id hid name username) rows _ s (conj Hr eq_refl)) as (Hs & Ha & Hx). unfold dtry. destruct (create_database _ s). cbn in *. by rewrite Hs. }
  intros [record|e]; [apply dspec_ret; intros st w ([Hm Ht] & Ha & Hx); split_and!; [done..|]; intros x [= <-]; split; [done|by apply Hx]|].
  destruct (drop_sql_clean name username grant_hosts Hn Hu grant_hosts_clean) as [Hz Hl].
  apply (dspec_bind _ _ _ (fun _ st w => touches name (accounts username grant_hosts) password m (served host w) /\ perhaps_added rows (asked_row application_id hid name username) st)).
  { intros s ([_ Ht] & Ha & _). pose proof (runs_with_retry admin_password _ _ [] (ds_store s) (served host (fw_node (ds_fw s))) Hh Hz Hl s (conj eq_refl eq_refl)) as [Hr Hm].
    unfold dtry. destruct (run_mysql_with_retry _ _ _ _ s) as [r s']. cbn [fst snd] in Hr, Hm |- *. split; [|by rewrite Hr]. eapply touches_trans; [exact Ht|]. eapply attempted_touches; [apply drop_own|exact Hm]. }
  intros [u|e']; apply dspec_throw; intros st w [Ht Ha]; by split_and!.
Qed.
Lemma provisions admin_password rows m application_id hid name username password : typed_host -> clean name -> clean username -> clean password ->
  dspec (at_ rows m) (
    run_mysql_with_retry host admin_password (create_sql name username password) [password] ;;;
    container_access_error <- check_container_access host ;;
    record <- record_database host admin_password name username application_id hid ;;
    at_nodes (store_secret record.(ad_id) ApplicationDatabaseUser password) ;;;
    dret (mkDatabaseCreated record container_access_error)) (provisioned rows m application_id hid name username password dc_database).
Proof.
  intros Hh Hn Hu Hp. destruct (create_sql_clean name username password Hn Hu Hp) as [Hz Hl].
  apply (dspec_bind _ _ _ (fun _ st w => st = rows /\ made name username password m (served host w) /\ touches name (accounts username grant_hosts) password m (served host w))).
  { eapply dspec_conseq; [by apply runs_with_retry|done|]. intros r st w [-> Ha]. assert (Ht := attempted_touches _ _ _ _ _ _ _ (create_own name username password) Ha).
    destruct r as [u|e]; [|split_and!; [done|by left|done]]. split_and!; [done| |done]. destruct Ha as (m1 & Hfirst & _ & Hlast). eapply create_makes; [exact Hfirst|by apply Hlast]. }
  intros _. eapply (under_bind _ _ (fun _ => True) rows (fun m' => made name username password m m' /\ touches name (accounts username grant_hosts) password m m')); [apply idle_access|intros e st w -> [_ Ht]; split_and!; [done|by left|done]|].
  intros access _. apply (dspec_bind _ _ _ (fun record st w => provisioned rows m application_id hid name username password (fun x => x) (Ok record) st w)).
  { eapply dspec_conseq; [by apply (records admin_password rows m application_id hid name username password)|done|]. intros [record|e] st w Hr; [done|by eapply provisioned_error]. }
  intros record. apply (dspec_bind _ _ _ (fun _ st w => provisioned rows m application_id hid name username password (fun x => x) (Ok record) st w)).
  { intros s Hs. unfold at_nodes, on_host, ask. pose proof (sv_put host (ad_id record) ApplicationDatabaseUser password (fw_node (ds_fw s))) as Hw.
    destruct (store_secret _ _ _ (fw_node (ds_fw s))) as [[u|e] w]; cbn in *; unfold provisioned in *; cbn; rewrite Hw; [done|]. destruct Hs as (Ht & Ha & _). by split_and!. }
  intros _. apply dspec_ret. intros st w (Ht & Ha & Hx). split_and!; [done..|]. intros x [= <-]. by apply Hx.
Qed.
Lemma loads {A : Type} rows m (op : DB (option A)) (found : option A) : dspec (at_ rows m) op (fun r st w => at_ rows m st w /\ forall x, r = Ok x -> x = found) ->
  forall (f : option A -> DB A), (forall x, idle (f (Some x)) (fun y => y = x)) -> idle (f None) (fun _ => False) ->
  dspec (at_ rows m) (dbind op f) (fun r st w => at_ rows m st w /\ forall x, r = Ok x -> found = Some x).
Proof.
  intros Hop f Hs Hn. apply (dspec_bind _ _ _ (fun x st w => at_ rows m st w /\ x = found)).
  - eapply dspec_conseq; [exact Hop|done|]. intros [x|e] st w [Ha Hx]; [split; [done|by apply Hx]|done].
  - intros x. apply dspec_pure. intros ->. destruct found as [x|].
    + eapply dspec_conseq; [apply Hs|done|]. intros r st w [Ha Hx]. split; [done|]. intros y Hy. by rewrite (Hx y Hy).
    + eapply dspec_conseq; [apply Hn|done|]. intros r st w [Ha Hx]. split; [done|]. intros y Hy. by destruct (Hx y Hy).
Qed.
Lemma loads_host id rows m : dspec (at_ rows m) (load_host id) (fun r st w => at_ rows m st w /\ forall h, r = Ok h -> rows.(dr_hosts) !! id = Some h).
Proof. apply loads; [by apply (idle_look _ (fun rows => rows.(dr_hosts) !! id))|intros x; by apply idle_ret|apply idle_throw]. Qed.
Lemma loads_database id rows m : dspec (at_ rows m) (load_database id) (fun r st w => at_ rows m st w /\ forall h, r = Ok h -> rows.(dr_databases) !! id = Some h).
Proof. apply loads; [by apply (idle_look _ (fun rows => rows.(dr_databases) !! id))|intros x; by apply idle_ret|apply idle_throw]. Qed.
Lemma idle_admin : idle (load_host_admin_password host) (fun _ => True).
Proof. unfold load_host_admin_password. repeat stand. Qed.

(** The two names and the password are those of the generator for this seed:
    three draws one after the other, from a state of the run in which nothing
    has been done yet to the server or the tables. *)
Definition made_up (rows : DatabaseRows) (m : MysqlState) (seed name username password : list Z) : Prop :=
  exists s1 suffix s2 suffix' s3 s4, at_ rows m s1.(ds_store) s1.(ds_fw).(fw_node) /\
    random_alnum RANDOM_SUFFIX_LEN s1 = (Ok suffix, s2) /\ random_alnum RANDOM_SUFFIX_LEN s2 = (Ok suffix', s3) /\ generate_password s3 = (Ok password, s4) /\
    slug suffix /\ slug suffix' /\ length suffix = RANDOM_SUFFIX_LEN /\ length suffix' = RANDOM_SUFFIX_LEN /\
    name = generated_identifier seed suffix MAX_DATABASE_NAME_LEN /\ username = generated_identifier seed suffix' MAX_USERNAME_LEN.
Lemma dbind_ok {A B : Type} (op : DB A) (f : A -> DB B) s x s' : op s = (Ok x, s') -> dbind op f s = f x s'.
Proof. intros E. unfold dbind. by rewrite E. Qed.
Lemma dbind_err {A B : Type} (op : DB A) (f : A -> DB B) s e s' : op s = (Err e, s') -> dbind op f s = (Err e, s').
Proof. intros E. unfold dbind. by rewrite E. Qed.
(** Drawing a name, and what comes after it. *)
Lemma draws_identifier {A : Type} seed max_len (f : list Z -> DB A) rows m (R : result AppError A -> DatabaseRows -> World -> Prop) s : 16 <= max_len <= 64 ->
  at_ rows m s.(ds_store) s.(ds_fw).(fw_node) ->
  (forall suffix s', random_alnum RANDOM_SUFFIX_LEN s = (Ok suffix, s') -> slug suffix -> length suffix = RANDOM_SUFFIX_LEN -> fresh_name (generated_identifier seed suffix max_len) ->
     at_ rows m s'.(ds_store) s'.(ds_fw).(fw_node) -> let out := f (generated_identifier seed suffix max_len) s' in R out.1 out.2.(ds_store) out.2.(ds_fw).(fw_node)) ->
  let out := (name <- generate_identifier seed max_len ;; f name) s in R out.1 out.2.(ds_store) out.2.(ds_fw).(fw_node).
Proof.
  intros Hm Hat Hf. destruct (random_chars_all name_char IDENTIFIER_CHARS RANDOM_SUFFIX_LEN s) as (suffix & s' & Hr & Hx & Hl); [done|reflexivity|].
  pose proof (idle_chars IDENTIFIER_CHARS RANDOM_SUFFIX_LEN rows m s Hat) as [Hat' _]. pose proof (idle_identifier seed max_len Hm rows m s Hat) as [_ Hn].
  unfold generate_identifier, random_alnum, dbind in *. rewrite Hr in *. unfold dret in *. cbn [fst snd] in *. by apply Hf; [|..|apply Hn|].
Qed.

Definition creation (application_id hid : N) (purpose : option (list Z)) (rows : DatabaseRows) (m : MysqlState) (r : result AppError DatabaseCreated) (st : DatabaseRows) (w : World) : Prop :=
  (is_ok r = false /\ at_ rows m st w) \/
  exists application name username password, rows.(dr_applications) !! application_id = Some application /\ made_up rows m (seed_of purpose application) name username password /\
    is_safe_identifier name = true /\ is_safe_identifier username = true /\ provisioned rows m application_id hid name username password dc_database r st w.
Lemma creation_failed application_id hid purpose rows m e st w : at_ rows m st w -> creation application_id hid purpose rows m (Err e) st w.
Proof. by left. Qed.
Lemma creates application_id hid purpose rows m : typed_host -> rows.(dr_hosts) !! hid = Some host ->
  dspec (at_ rows m) (create_application_database application_id hid purpose) (creation application_id hid purpose rows m).
Proof.
  intros Hh Hrow. unfold create_application_database. apply (dspec_bind _ _ _ (fun h st w => at_ rows m st w /\ h = host)).
  { eapply dspec_conseq; [apply loads_host|done|]. intros [h|e] st w [Ha Hx]; [|by apply creation_failed]. split; [done|]. specialize (Hx h eq_refl). congruence. }
  intros h. apply dspec_pure. intros ->. apply (dspec_bind _ _ _ (fun found st w => at_ rows m st w /\ found = rows.(dr_applications) !! application_id)).
  { eapply dspec_conseq; [by apply (idle_look _ _ (fun found => found = rows.(dr_applications) !! application_id))|done|].
    intros [x|e] st w [Ha Hx]; [split; [done|by apply Hx]|by apply creation_failed]. }
  intros found. apply dspec_pure. intros ->. destruct (dr_applications rows !! application_id) as [application|] eqn:Eapp; [|apply dspec_throw; intros; by apply creation_failed].
  apply (under_bind _ _ (fun _ => True) rows (fun m' => m' = m)); [apply idle_admin|intros; by apply creation_failed|]. intros admin_password _. cbv zeta.
  intros s1 Hat1. apply (draws_identifier _ _ _ rows m (creation application_id hid purpose rows m) s1); [unfold MAX_DATABASE_NAME_LEN; lia|done|]. intros suffix s2 Hd1 Hx1 Hl1 [Hn Hnc] Hat2.
  apply (draws_identifier _ _ _ rows m (creation application_id hid purpose rows m) s2); [unfold MAX_USERNAME_LEN; lia|done|]. intros suffix' s3 Hd2 Hx2 Hl2 [Hu Huc] Hat3.
  pose proof (idle_password rows m s3 Hat3) as [Hat4 Hp]. cbv zeta.
  destruct (generate_password s3) as [[password|e] s4] eqn:Eg; [rewrite (dbind_ok _ _ _ _ _ Eg)|rewrite (dbind_err _ _ _ _ _ Eg)]; cbn [fst snd] in *; [|by apply creation_failed].
  cbv zeta. specialize (Hp password eq_refl). pose proof (provisions admin_password rows m application_id hid _ _ password Hh Hnc Huc Hp s4 Hat4) as Hr.
  destruct ((dbind _ _) s4) as [r s5]. right. exists application, (generated_identifier (seed_of purpose application) suffix MAX_DATABASE_NAME_LEN), (generated_identifier (seed_of purpose application) suffix' MAX_USERNAME_LEN), password.
  split_and!; [done| |done|done|exact Hr]. exists s1, suffix, s2, suffix', s3, s4. by split_and!.
Qed.

(** *** Removing one *)

Definition deletion (id : N) (database : ApplicationDatabase) (rows : DatabaseRows) (m : MysqlState) (r : result AppError unit) (st : DatabaseRows) (w : World) : Prop :=
  let hosts := grant_hosts ++ [database.(ad_connections_from)] in
  touches database.(ad_database_name) (accounts database.(ad_username) hosts) [] m (served host w) /\
  ((is_ok r = false /\ st = rows) \/
   (r = Ok tt /\ st = with_databases rows (delete id rows.(dr_databases)) /\ removed database.(ad_database_name) database.(ad_username) hosts (served host w))).
Lemma deletion_failed id database rows m e st w : at_ rows m st w -> deletion id database rows m (Err e) st w.
Proof. intros [-> <-]. split; [apply touches_refl|by left]. Qed.
Lemma deletes id database rows m : typed_host -> rows.(dr_databases) !! id = Some database -> rows.(dr_hosts) !! database.(ad_database_host_id) = Some host ->
  clean database.(ad_database_name) -> clean database.(ad_username) -> clean database.(ad_connections_from) ->
  dspec (at_ rows m) (delete_application_database id) (deletion id database rows m).
Proof.
  intros Hh Hid Hrow Hn Hu Hf. unfold delete_application_database. apply (dspec_bind _ _ _ (fun x st w => at_ rows m st w /\ x = database)).
  { eapply dspec_conseq; [apply loads_database|done|]. intros [h|e] st w [Ha Hx]; [|by apply deletion_failed]. split; [done|]. specialize (Hx h eq_refl). congruence. }
  intros x. apply dspec_pure. intros ->. apply (dspec_bind _ _ _ (fun h st w => at_ rows m st w /\ h = host)).
  { eapply dspec_conseq; [apply loads_host|done|]. intros [h|e] st w [Ha Hx]; [|by apply deletion_failed]. split; [done|]. specialize (Hx h eq_refl). congruence. }
  intros h. apply dspec_pure. intros ->. apply (under_bind _ _ (fun _ => True) rows (fun m' => m' = m)); [apply idle_admin|intros; by apply deletion_failed|]. intros admin_password _.
  destruct (drop_sql_clean (ad_database_name database) (ad_username database) (grant_hosts ++ [ad_connections_from database]) Hn Hu) as [Hz Hl].
  { intros h Hin. apply elem_of_app in Hin as [Hin|Hin%list_elem_of_singleton]; [by apply grant_hosts_clean|by rewrite Hin]. }
  set (hosts := grant_hosts ++ [ad_connections_from database]) in *.
  set (gone := fun m' => touches (ad_database_name database) (accounts (ad_username database) hosts) [] m m' /\ removed (ad_database_name database) (ad_username database) hosts m').
  apply (dspec_bind _ _ _ (fun _ st w => st = rows /\ gone (served host w))).
  { eapply dspec_conseq; [by apply runs_with_retry|done|]. intros r st w [-> Ha]. assert (Ht := attempted_touches _ _ _ _ _ _ _ (drop_own (ad_database_name database) (ad_username database) [] hosts) Ha).
    destruct r as [u|e]; [|split; [done|by left]]. split; [done|]. split; [done|]. destruct Ha as (m1 & _ & _ & Hlast). by eapply drop_removes, Hlast. }
  intros _. apply (dspec_bind _ _ _ (fun _ st w => st = with_databases rows (delete id rows.(dr_databases)) /\ gone (served host w))).
  - unfold delete_database. apply (dspec_bind _ _ _ (fun affected st w => st = with_databases rows (delete id rows.(dr_databases)) /\ gone (served host w) /\ affected = true)).
    + apply statement_cases.
      * intros st w e [-> [Ht _]]. unfold deletion. rewrite sv_store. split; [done|by left].
      * intros st w [-> Hg]. cbn. rewrite sv_store. split; [done|]. split; [done|]. apply bool_decide_eq_true_2. by rewrite Hid.
    + intros [|]; [by apply dspec_ret; intros st w (? & ? & _)|apply dspec_throw; by intros st w (_ & _ & ?)].
  - intros _ s [Hs [Ht Hr]]. unfold at_nodes, on_host, ask, deletion. cbn. rewrite sv_forget. split; [done|]. by right.
Qed.
End life.

(** ** The two operations *)

(** C35: Making a database for an application.  Whatever fails on the way - a
    connection, the client between two statements, a row, the keyring - and even
    when the client is run a second time: on the server nothing but the database,
    the two accounts and the grants of names made up for it is touched, the grants
    are to that database alone and the accounts are those of containers and of the
    Node itself; the tables gain at most the row of these names.  The names are
    [vibessh_], the letters and digits of the purpose or of the application's name,
    and six letters or digits drawn for the one and then six for the other; the
    password is drawn right after them.  (That a drawn name is still free is not
    asked of the server.)  When it succeeds the database is there, each account is
    granted it, an account that was not there has the new password, and the row is
    recorded. *)
Theorem creating_touches_only_its_own `{MysqlServers World} (host : DatabaseHost) (application_id hid : N) (purpose : option (list Z)) (s : DeskState DatabaseRows World) :
  typed_host host -> s.(ds_store).(dr_hosts) !! hid = Some host ->
  let '(r, s') := create_application_database application_id hid purpose s in
  let m := served host s.(ds_fw).(fw_node) in
  let m' := served host s'.(ds_fw).(fw_node) in
  (is_ok r = false /\ s'.(ds_store) = s.(ds_store) /\ m' = m) \/
  exists application name username password, s.(ds_store).(dr_applications) !! application_id = Some application /\
    made_up host s.(ds_store) m (seed_of purpose application) name username password /\
    is_safe_identifier name = true /\ is_safe_identifier username = true /\
    touches name (accounts username grant_hosts) password m m' /\
    perhaps_added s.(ds_store) (asked_row application_id hid name username) s'.(ds_store) /\
    forall created, r = Ok created -> made name username password m m' /\ added (asked_row application_id hid name username) s'.(ds_store) created.(dc_database).
Proof.
  intros Hh Hrow. pose proof (creates host application_id hid purpose _ (served host s.(ds_fw).(fw_node)) Hh Hrow s (conj eq_refl eq_refl)) as Hc.
  destruct (create_application_database application_id hid purpose s) as [r s']. destruct Hc as [(Hr & Hs & Hm)|(application & name & username & password & Happ & Hmade & Hn & Hu & Ht & Ha & Hx)]; [by left|].
  right. by exists application, name, username, password.
Qed.

(** C36: Removing a database: only that database and its accounts are touched on the
    server, and its row leaves the tables only in a removal that succeeds, in which
    the database, every account of it and every grant to one are gone - a removal
    that fails keeps the row, so that it can be tried again. *)
Theorem removing_forgets_nothing_that_is_left `{MysqlServers World} (host : DatabaseHost) (id : N) (database : ApplicationDatabase) (s : DeskState DatabaseRows World) :
  typed_host host -> s.(ds_store).(dr_databases) !! id = Some database -> s.(ds_store).(dr_hosts) !! database.(ad_database_host_id) = Some host ->
  clean database.(ad_database_name) -> clean database.(ad_username) -> clean database.(ad_connections_from) ->
  let '(r, s') := delete_application_database id s in
  let hosts := grant_hosts ++ [database.(ad_connections_from)] in
  let m' := served host s'.(ds_fw).(fw_node) in
  touches database.(ad_database_name) (accounts database.(ad_username) hosts) [] (served host s.(ds_fw).(fw_node)) m' /\
  ((is_ok r = false /\ s'.(ds_store) = s.(ds_store)) \/
   (r = Ok tt /\ s'.(ds_store) = with_databases s.(ds_store) (delete id s.(ds_store).(dr_databases)) /\ removed database.(ad_database_name) database.(ad_username) hosts m')).
Proof.
  intros Hh Hid Hrow Hn Hu Hf. pose proof (deletes host id database _ (served host s.(ds_fw).(fw_node)) Hh Hid Hrow Hn Hu Hf s (conj eq_refl eq_refl)) as Hc.
  by destruct (delete_application_database id s) as [r s'].
Qed.

(** ** A Node with a database server *)

Module Sample.
Record Rig : Type := mkRig { rig_server : MysqlState; rig_random : Z }.
Definition client_sql (command : list Z) : option (list SqlStatement) :=
  match tokens command with
  | Some (Word program :: rest) => if str_eqb program (lit "mysql") then match rest with [_; _; _; _; _; _; _; _; _; Word sql] => read_sql sql | _ => None end else None
  | _ => None
  end.
Definition rig_execute (command : list Z) (w : Rig) : result AppError CommandOutput * Rig :=
  match client_sql command with
  | Some l => match execute_all w.(rig_server) l with
              | Some m => (Ok (mkOutput 0 [] []), mkRig m w.(rig_random))
              | None => (Ok (mkOutput 1 [] (lit "ERROR")), w)
              end
  | None => (Ok (mkOutput 0 (lit "yes") []), w)
  end.
#[export] Instance rig_desk : Desk Rig := {| store_fault w := (None, w); load_environment_secret _ _ w := (Ok None, w); get_or_connect _ w := (Ok tt, w) |}.
#[export] Instance rig_nodes : DatabaseNodes Rig := {|
  dn_connect _ w := (Ok tt, w); dn_remove_session _ w := w; dn_execute _ := rig_execute; dn_write_file _ _ _ w := (Ok tt, w);
  dn_random w := (w.(rig_random), mkRig w.(rig_server) (w.(rig_random) + 5));
|}.
#[export] Instance rig_keyring : Keyring Rig := {| store_secret _ _ _ w := (Ok tt, w); load_secret _ _ w := (Ok (Some (lit "root pass")), w); forget_secret _ _ w := w |}.
Lemma rig_upkeep command : upkeep command -> client_sql command = None.
Proof.
  destruct 1 as [| | |path|path|port]; try reflexivity; unfold client_sql, tokens.
  - change (lit "install -m 600 /dev/null " ++ quote path) with (lit "install" ++ 32 :: lit "-m 600 /dev/null " ++ quote path). rewrite lex_word by done. by destruct (Shell.lex _ _ _).
  - change (lit "rm -f " ++ quote path) with (lit "rm" ++ 32 :: lit "-f " ++ quote path). rewrite lex_word by done. by destruct (Shell.lex _ _ _).
Qed.
#[export] Instance rig_servers : MysqlServers Rig.
Proof.
  refine {| served _ w := w.(rig_server) |}; try done.
  - intros host server command defaults_file sql l w _ Ht Hl. cbn. unfold rig_execute, client_sql. rewrite Ht. cbn [map client_words]. change (str_eqb (lit "mysql") (lit "mysql")) with true. cbn iota.
    rewrite Hl. destruct (execute_all (rig_server w) l) as [m|] eqn:E; cbn; (split; [|by intros out [= <-]]).
    + exists (length l). unfold got_to. by rewrite firstn_all.
    + apply reached_refl.
  - intros host server command w Hu. cbn. unfold rig_execute. by rewrite (rig_upkeep _ Hu).
Defined.
Definition sample_host : DatabaseHost := mkDatabaseHost 4%N (Some 9%N) (lit "main") Mariadb (lit "127.0.0.1") 3306 (lit "admin") None.
Definition shop : StoredApplication := mkStored (Some 9%N) (lit "Web Shop") RtDocker [] (Err []) [] [] false.
(** A server on which another application already has a database. *)
Definition other : Account := (lit "vibessh_blog_000000", CONNECTIONS_FROM).
Definition rig : Rig := mkRig (mkMysql {[lit "vibessh_blog_111111"]} {[other := lit "pw"]} {[(Some (lit "vibessh_blog_111111"), other)]}) 1.
Definition before : DeskState DatabaseRows Rig := mkDesk (mkDatabaseRows {[4%N := sample_host]} ∅ {[2%N := shop]} {[9%N := lit "198.51.100.7"]}) (mkFw rig ∅ 30%N).
Definition after : DeskState DatabaseRows Rig := (create_application_database 2%N 4%N None before).2.
Definition row : ApplicationDatabase := mkDatabase 31%N 2%N 4%N (lit "vibessh_webshop_bglqv0") (lit "vibessh_webshop_5afkpu") CONNECTIONS_FROM.
End Sample.
Import Sample.

Lemma typed_sample : typed_host sample_host.
Proof. split_and!; done. Qed.
Lemma creating_touches_only_its_own_witness :
  let '(r, s') := create_application_database 2%N 4%N None before in
  is_ok r = true /\ s'.(ds_store).(dr_databases) !! 31%N = Some row /\
  ((is_ok r = false /\ s'.(ds_store) = before.(ds_store) /\ served sample_host s'.(ds_fw).(fw_node) = served sample_host before.(ds_fw).(fw_node)) \/
   exists application name username password, before.(ds_store).(dr_applications) !! 2%N = Some application /\
     made_up sample_host before.(ds_store) (served sample_host before.(ds_fw).(fw_node)) (seed_of None application) name username password /\
     is_safe_identifier name = true /\ is_safe_identifier username = true /\
     touches name (accounts username grant_hosts) password (served sample_host before.(ds_fw).(fw_node)) (served sample_host s'.(ds_fw).(fw_node)) /\
     perhaps_added before.(ds_store) (asked_row 2%N 4%N name username) s'.(ds_store) /\
     forall created, r = Ok created -> made name username password (served sample_host before.(ds_fw).(fw_node)) (served sample_host s'.(ds_fw).(fw_node)) /\
       added (asked_row 2%N 4%N name username) s'.(ds_store) created.(dc_database)).
Proof.
  pose proof (creating_touches_only_its_own sample_host 2%N 4%N None before typed_sample eq_refl) as Hc.
  assert (Hv : is_ok (create_application_database 2%N 4%N None before).1 = true /\ dr_databases (ds_store (create_application_database 2%N 4%N None before).2) !! 31%N = Some row) by (split; vm_compute; reflexivity).
  destruct (create_application_database 2%N 4%N None before) as [r s']. destruct Hv as [Hv Hrow]. by split_and!.
Defined.
Lemma removing_forgets_nothing_that_is_left_witness :
  let '(r, s') := delete_application_database 31%N after in
  let hosts := grant_hosts ++ [CONNECTIONS_FROM] in
  is_ok r = true /\ touches row.(ad_database_name) (accounts row.(ad_username) hosts) [] (served sample_host after.(ds_fw).(fw_node)) (served sample_host s'.(ds_fw).(fw_node)) /\
  ((is_ok r = false /\ s'.(ds_store) = after.(ds_store)) \/
   (r = Ok tt /\ s'.(ds_store) = with_databases after.(ds_store) (delete 31%N after.(ds_store).(dr_databases)) /\ removed row.(ad_database_name) row.(ad_username) hosts (served sample_host s'.(ds_fw).(fw_node)))).
Proof.
  assert (Hrow : after.(ds_store).(dr_databases) !! 31%N = Some row) by (vm_compute; reflexivity). assert (Hhost : after.(ds_store).(dr_hosts) !! 4%N = Some sample_host) by (vm_compute; reflexivity).
  pose proof (removing_forgets_nothing_that_is_left sample_host 31%N row after typed_sample Hrow Hhost (conj eq_refl eq_refl) (conj eq_refl eq_refl) (conj eq_refl eq_refl)) as Hc.
  assert (Hv : is_ok (delete_application_database 31%N after).1 = true) by (vm_compute; reflexivity).
  destruct (delete_application_database 31%N after) as [r s']. by split.
Defined.
