(* ===== verification/Systemd.v ===== *)
(** * Systemd: applications that run as a system unit

    [runtime/systemd.rs] and [ssh/systemd.rs] of the desktop: the unit file and
    the environment file of an application, the operations of [SystemdRuntime] as
    sequences of commands, and the list of services of a Node.  A Node is a
    [Connection] whose commands can be given input ([CommandInput]). *)

From Stdlib Require Import Floats.SpecFloat.
From S2P Require Import Prelude Text Shell Validators Firewall Docker.

#[local] Open Scope Z_scope.
#[local] Open Scope fw_scope.
#[local] Open Scope vibe_scope.

(** [execute_command_with_input]. *)
Class CommandInput (Node : Type) : Type := {
  execute_with_input : list Z -> list Z -> Node -> result (list Z) CommandOutput * Node;
}.

Record SystemdConfig : Type := mkSystemdConfig {
  sc_command : list Z; sc_args : list (list Z); sc_memory_limit_mb : option Z; sc_cpu_limit_cores : option spec_float;
}.
(** [sx_config] is what [serde_json] makes of [runtime_config]; [sx_remote] says whether there is a connection. *)
Record SystemdContext : Type := mkSystemdContext {
  sx_id : N; sx_name : list Z; sx_working_directory : list Z; sx_config : result (list Z) SystemdConfig; sx_environment : list EnvironmentVariable; sx_remote : bool;
}.

(** ** The unit file *)

Definition unit_name (application_id : N) : list Z := lit "vibessh-app-" ++ uuid_text application_id ++ lit ".service".
Definition UNIT_PATH_PREFIX : list Z := lit "/etc/systemd/system/".
Definition ENV_DIR : list Z := lit "/etc/vibessh/env".
Definition unit_path (unit : list Z) : list Z := UNIT_PATH_PREFIX ++ unit.
Definition env_path (unit : list Z) : list Z := ENV_DIR ++ lit "/" ++ unit ++ lit ".env".

(** This module's own: a NUL passes. *)
Definition reject_line_breaks (value field : list Z) : AppResult unit :=
  if contains_char 10 value || contains_char 13 value then Err (mkInvalid field HasNewline) else Ok tt.
Fixpoint reject_line_breaks_in (values : list (list Z)) (field : list Z) : AppResult unit :=
  match values with
  | [] => Ok tt
  | value :: values => let? _ := reject_line_breaks value field in reject_line_breaks_in values field
  end.
Definition escape_specifiers (value : list Z) : list Z := replace_char 37 [37; 37] value.
Definition unit_char (c : Z) : list Z := if c =? 34 then [92; 34] else if c =? 92 then [92; 92] else [c].
Definition quote_unit_value (value : list Z) : list Z := [34] ++ (escape_specifiers value ≫= unit_char) ++ [34].

(** [(cores * 100.0).round() as u32]: halves away from zero, saturating. *)
Definition HUNDRED : spec_float := S754_finite false 13107200 (-17).
Definition round_to_u32 (x : spec_float) : Z :=
  match x with
  | S754_finite false m e => Z.min 4294967295 (if 0 <=? e then Z.pos m * 2 ^ e else (Z.pos m + 2 ^ (- e - 1)) / 2 ^ (- e))
  | S754_infinity false => 4294967295
  | _ => 0
  end.
Definition cpu_percent (cores : spec_float) : Z := round_to_u32 (SFmul 24 128 cores HUNDRED).
Definition resource_limit_lines (config : SystemdConfig) : AppResult (list Z) :=
  let? _ := validate_resource_limits config.(sc_memory_limit_mb) config.(sc_cpu_limit_cores) in
  Ok (match config.(sc_memory_limit_mb) with
      | Some mb => lit "MemoryAccounting=yes" ++ [10] ++ lit "MemoryMax=" ++ to_dec mb ++ lit "M" ++ [10]
      | None => []
      end ++
      match config.(sc_cpu_limit_cores) with
      | Some cores => lit "CPUAccounting=yes" ++ [10] ++ lit "CPUQuota=" ++ to_dec (cpu_percent cores) ++ lit "%" ++ [10]
      | None => []
      end).
Fixpoint check_environment (environment : list EnvironmentVariable) : AppResult unit :=
  match environment with
  | [] => Ok tt
  | env :: environment =>
      if negb (is_valid_env_key env.(ev_key)) then Err (mkInvalid env.(ev_key) (Other (lit "isn't a valid environment variable name")))
      else let? _ := reject_line_breaks env.(ev_value) (lit "the '" ++ env.(ev_key) ++ lit "' environment variable") in check_environment environment
  end.
Definition exec_start (config : SystemdConfig) : list Z := quote_unit_value config.(sc_command) ++ (config.(sc_args) ≫= fun arg => 32 :: quote_unit_value arg).
Definition environment_lines (ctx : SystemdContext) : list Z :=
  match ctx.(sx_environment) with [] => [] | _ => lit "EnvironmentFile=" ++ escape_specifiers (env_path (unit_name ctx.(sx_id))) ++ [10] end.
Definition render_unit_file (ctx : SystemdContext) (config : SystemdConfig) : AppResult (list Z) :=
  let? _ := reject_line_breaks config.(sc_command) (lit "the command") in
  let? _ := reject_line_breaks_in config.(sc_args) (lit "an argument") in
  let? _ := reject_line_breaks ctx.(sx_working_directory) (lit "the working directory") in
  let? _ := reject_line_breaks ctx.(sx_name) (lit "the application name") in
  let? _ := check_environment ctx.(sx_environment) in
  let? resource_lines := resource_limit_lines config in
  Ok (lit "[Unit]" ++ [10] ++ lit "Description=VibeSSH managed application: " ++ escape_specifiers ctx.(sx_name) ++ [10] ++ lit "After=network.target" ++ [10] ++ [10]
      ++ lit "[Service]" ++ [10] ++ lit "Type=simple" ++ [10] ++ lit "WorkingDirectory=" ++ escape_specifiers ctx.(sx_working_directory) ++ [10]
      ++ lit "ExecStart=" ++ exec_start config ++ [10] ++ environment_lines ctx ++ resource_lines ++ lit "Restart=on-failure" ++ [10] ++ lit "RestartSec=5" ++ [10] ++ [10]
      ++ lit "[Install]" ++ [10] ++ lit "WantedBy=multi-user.target" ++ [10]).
Definition environment_contents (environment : list EnvironmentVariable) : list Z := environment ≫= fun env => env.(ev_key) ++ [61] ++ env.(ev_value) ++ [10].

Definition validate_unit_name (name : list Z) : AppResult unit :=
  let chars_ok := negb (is_empty name) && forallb (fun c => is_ascii_alphanumeric c || (c =? 58) || (c =? 45) || (c =? 95) || (c =? 46) || (c =? 64)) name in
  if negb chars_ok || negb (starts_with (rev (lit ".service")) (rev name)) then Err (mkInvalid name (Other (lit "isn't a valid systemd service unit name"))) else Ok tt.

(** ** What the Node reports *)

Definition map_is_active_output (output : list Z) : ApplicationStatus :=
  let state := trim output in
  if str_eqb state (lit "active") then Running
  else if str_eqb state (lit "activating") then Starting
  else if str_eqb state (lit "deactivating") then Stopping
  else if str_eqb state (lit "failed") then Failed
  else Stopped.
Definition parse_main_pid (output : list Z) : option Z := match parse_u32 (trim output) with Some pid => if pid =? 0 then None else Some pid | None => None end.

Record ServiceSummary : Type := mkServiceSummary { ss_name : list Z; ss_active : bool; ss_enabled : bool; ss_description : list Z }.
(** [split_once] on a string. *)
Fixpoint split_once_str (p s : list Z) : option (list Z * list Z) :=
  match strip_prefix p s with
  | Some rest => Some ([], rest)
  | None => match s with [] => None | c :: s => match split_once_str p s with Some (a, b) => Some (c :: a, b) | None => None end end
  end.
Definition split_two_sections (output : list Z) : list Z * list Z :=
  let after_units := match split_once_str (lit "===UNITS===") output with Some (_, rest) => rest | None => output end in
  match split_once_str (lit "===FILES===") after_units with Some (units, files) => (units, files) | None => (after_units, []) end.
Definition parse_loaded_unit (line : list Z) : option (list Z * (bool * list Z)) :=
  match split_whitespace line with
  | name :: _ :: active_state :: _ :: rest => Some (name, (str_eqb active_state (lit "active"), join [32] rest))
  | _ => None
  end.
(** A unit listed twice keeps the later line. *)
Definition parse_loaded_units (section : list Z) : gmap (list Z) (bool * list Z) :=
  foldl (fun loaded line => match parse_loaded_unit line with Some (name, state) => <[name := state]> loaded | None => loaded end) ∅ (lines section).
Fixpoint listed_units (loaded : gmap (list Z) (bool * list Z)) (seen : gset (list Z)) (l : list (list Z)) : list ServiceSummary :=
  match l with
  | [] => []
  | line :: l =>
      match split_whitespace line with
      | name :: state :: _ =>
          if bool_decide (name ∈ seen) then listed_units loaded seen l
          else let '(active, description) := default (false, []) (loaded !! name) in
               mkServiceSummary name active (starts_with (lit "enabled") state) description :: listed_units loaded ({[name]} ∪ seen) l
      | _ => listed_units loaded seen l
      end
  end.
(** The units of the files, then those that are loaded without one; the order among these is the hash map's. *)
Definition parse_units (units_section files_section : list Z) : list ServiceSummary :=
  let loaded := parse_loaded_units units_section in
  let listed := listed_units loaded ∅ (lines files_section) in
  listed ++ map (fun entry => mkServiceSummary entry.1 entry.2.1 false entry.2.2) (List.filter (fun entry => negb (existsb (fun service => str_eqb service.(ss_name) entry.1) listed)) (map_to_list loaded)).

Definition LIST_COMMAND : list Z :=
  lit "echo ===UNITS===" ++ [10] ++ lit "systemctl list-units --type=service --all --no-legend --no-pager --plain" ++ [10] ++ lit "echo ===FILES===" ++ [10]
  ++ lit "systemctl list-unit-files --type=service --no-legend --no-pager --plain".

(** ** The runtime *)

Section runtime.
Context {Node : Type} `{Connection Node} `{CommandInput Node}.

Definition run_with_input (command input : list Z) : F Node CommandOutput := fun s =>
  let '(r, n) := execute_with_input command input s.(fw_node) in
  (match r with Ok out => Ok out | Err m => Err (Transport m) end, mkFw n s.(fw_verified) s.(fw_uuid)).
(** [ctx.connection]. *)
Definition connection_ref (ctx : SystemdContext) : F Node unit := if ctx.(sx_remote) then ret tt else throw (Internal (lit "SystemdRuntime requires a connection")).
Definition unit_config (ctx : SystemdContext) : F Node SystemdConfig :=
  match ctx.(sx_config) with Ok config => ret config | Err err => throw (InvalidInput (invalid (lit "invalid systemd configuration: " ++ err))) end.

Definition tee (path : list Z) : list Z := lit "sudo tee " ++ quote path ++ lit " >/dev/null".
Definition write_as_root (path contents : list Z) : F Node unit :=
  output <- run_with_input (tee path) contents ;;
  if negb (output.(exit_code) =? 0) then throw (ConnectionFailed (lit "couldn't write " ++ path ++ lit ": " ++ detail_or output "sudo tee failed")) else ret tt.
Definition prepare_environment (path : list Z) : list Z := lit "sudo install -d -m 700 " ++ quote ENV_DIR ++ lit " && sudo install -T -m 600 /dev/null " ++ quote path.
Definition write_environment_file (unit_ : list Z) (environment : list EnvironmentVariable) : F Node unit :=
  let path := env_path unit_ in
  output <- run_command (prepare_environment path) ;;
  if negb (output.(exit_code) =? 0) then throw (ConnectionFailed (lit "couldn't create the environment file: " ++ trim output.(stderr)))
  else write_as_root path (utf8 (environment_contents environment)).
Definition DAEMON_RELOAD : list Z := lit "sudo systemctl daemon-reload".
Definition run_daemon_reload : F Node unit :=
  output <- run_command DAEMON_RELOAD ;;
  if negb (output.(exit_code) =? 0) then throw (ConnectionFailed (lit "couldn't reload systemd: " ++ detail_or output "systemctl daemon-reload failed")) else ret tt.
Definition prepare_unit (path : list Z) : list Z := lit "sudo install -T -m 644 /dev/null " ++ quote path.
Definition write_unit (ctx : SystemdContext) (config : SystemdConfig) : F Node (list Z) :=
  let unit := unit_name ctx.(sx_id) in
  from_result (validate_unit_name unit) ;;;
  unit_file <- from_result (render_unit_file ctx config) ;;
  (match ctx.(sx_environment) with [] => ret tt | environment => write_environment_file unit environment end) ;;;
  let path := unit_path unit in
  prepare <- run_command (prepare_unit path) ;;
  if negb (prepare.(exit_code) =? 0) then throw (ConnectionFailed (lit "couldn't create the unit file: " ++ trim prepare.(stderr)))
  else
    write_as_root path (utf8 unit_file) ;;;
    run_daemon_reload ;;;
    ret unit.

(** [SshSession::run_systemctl]. *)
Definition systemctl_command (action service_name : list Z) : list Z :=
  let dq := [34] in
  lit "if [ " ++ dq ++ lit "$(id -u)" ++ dq ++ lit " = 0 ]; then systemctl " ++ action ++ lit " " ++ service_name ++ lit "; else sudo -n systemctl " ++ action ++ lit " " ++ service_name ++ lit "; fi".
Definition run_systemctl (action service_name : list Z) : F Node unit :=
  from_result (validate_unit_name service_name) ;;;
  let verb := default action (head (split_whitespace action)) in
  output <- run_command (systemctl_command action service_name) ;;
  if negb (output.(exit_code) =? 0) then
    throw (ConnectionFailed (lit "couldn't " ++ verb ++ lit " " ++ service_name ++ lit ": " ++ detail_or output "systemctl exited with an error"))
  else ret tt.
Definition restart_service : list Z -> F Node unit := run_systemctl (lit "restart").
Definition start_service : list Z -> F Node unit := run_systemctl (lit "start").
Definition stop_service : list Z -> F Node unit := run_systemctl (lit "stop").
Definition enable_service : list Z -> F Node unit := run_systemctl (lit "enable --now").
Definition disable_service : list Z -> F Node unit := run_systemctl (lit "disable --now").
Definition kill_service : list Z -> F Node unit := run_systemctl (lit "kill --signal=SIGKILL").
Definition list_services : F Node (list ServiceSummary) :=
  output <- run_command LIST_COMMAND ;;
  let '(units_section, files_section) := split_two_sections output.(stdout) in
  ret (parse_units units_section files_section).

Definition unit_validate (ctx : SystemdContext) : F Node unit :=
  connection_ref ctx ;;;
  config <- unit_config ctx ;;
  if is_empty (trim config.(sc_command)) then throw (InvalidInput (invalid (lit "no command configured for this application")))
  else from_result (render_unit_file ctx config) ;;; ret tt.
Definition unit_start (ctx : SystemdContext) : F Node unit :=
  connection_ref ctx ;;;
  config <- unit_config ctx ;;
  unit <- write_unit ctx config ;;
  enable_service unit.
Definition unit_stop (ctx : SystemdContext) (graceful : bool) : F Node unit := connection_ref ctx ;;; stop_service (unit_name ctx.(sx_id)).
Definition unit_restart (ctx : SystemdContext) : F Node unit :=
  connection_ref ctx ;;;
  config <- unit_config ctx ;;
  unit <- write_unit ctx config ;;
  restart_service unit.
Definition unit_kill (ctx : SystemdContext) : F Node unit := connection_ref ctx ;;; kill_service (unit_name ctx.(sx_id)).
Definition unit_status (ctx : SystemdContext) : F Node ApplicationStatus :=
  connection_ref ctx ;;;
  let unit := unit_name ctx.(sx_id) in
  from_result (validate_unit_name unit) ;;;
  output <- run_command (lit "systemctl is-active " ++ unit) ;;
  ret (map_is_active_output output.(stdout)).
Definition destroy_script (unit : list Z) : list Z :=
  lit "sudo systemctl disable --now " ++ unit ++ lit " >/dev/null 2>&1; "
  ++ lit "sudo rm -f " ++ quote (unit_path unit) ++ lit " " ++ quote (env_path unit) ++ lit " || exit 1; "
  ++ lit "sudo systemctl daemon-reload || exit 1; "
  ++ lit "sudo systemctl reset-failed " ++ unit ++ lit " >/dev/null 2>&1; "
  ++ lit "if systemctl is-active --quiet " ++ unit ++ lit "; then echo 'the service is still running' >&2; exit 1; fi".
Definition unit_destroy (ctx : SystemdContext) : F Node unit :=
  connection_ref ctx ;;;
  let unit := unit_name ctx.(sx_id) in
  from_result (validate_unit_name unit) ;;;
  output <- run_command (destroy_script unit) ;;
  if negb (output.(exit_code) =? 0) then throw (ConnectionFailed (lit "couldn't remove the systemd unit " ++ unit ++ lit ": " ++ detail_or output "the removal failed")) else ret tt.
(** [logs], then [SystemdLogs::tail]. *)
Definition journal (ctx : SystemdContext) (max_lines : Z) : F Node (list (list Z)) :=
  connection_ref ctx ;;;
  let unit := unit_name ctx.(sx_id) in
  from_result (validate_unit_name unit) ;;;
  output <- run_command (lit "sudo journalctl -u " ++ unit ++ lit " -n " ++ to_dec (Z.max 1 (Z.min max_lines 5000)) ++ lit " --no-pager --output=short-iso") ;;
  ret (lines output.(stdout)).
End runtime.
