(* ===== verification/SystemdUnits.v ===== *)
(** * SystemdUnits: what systemd reads

    How systemd reads a unit file (systemd.syntax(7): continued lines, comments,
    sections, assignments), the words and the specifiers of a value
    (systemd.service(5), systemd.unit(5)) and an environment file
    (systemd.exec(5)); and that it reads the files of [Systemd] as they were
    meant. *)

From Stdlib Require Import Floats.SpecFloat.
From S2P Require Import Prelude Text Shell Validators Firewall Docker DockerHost Cron Schedules ScheduleText Systemd.

#[local] Open Scope Z_scope.

(** ** Lines *)

Definition unit_blank (c : Z) : bool := (c =? 32) || (c =? 9) || (c =? 10) || (c =? 13).
Definition unit_strip (s : list Z) : list Z := trim_end_matches unit_blank (trim_start_matches unit_blank s).
(** Whether the line ends in a backslash that is not itself escaped. *)
Fixpoint left_open (escaped : bool) (s : list Z) : bool := match s with [] => escaped | c :: s => left_open (negb escaped && (c =? 92)) s end.
(** Comments are passed over; a line left open goes on, with a blank for the backslash. *)
Fixpoint whole_lines (open_ : list Z) (l : list (list Z)) : list (list Z) :=
  match l with
  | [] => if is_empty open_ then [] else [open_]
  | line :: l =>
      match trim_start_matches unit_blank line with
      | [] => if is_empty open_ then whole_lines [] l else open_ :: whole_lines [] l
      | c :: rest =>
          if (c =? 35) || (c =? 59) then whole_lines open_ l
          else let text := open_ ++ c :: rest in
               if left_open false text then whole_lines (removelast text ++ [32]) l else text :: whole_lines [] l
      end
  end.

(** The section, the key and the value of every assignment. *)
Abbreviation Assignment := (list Z * list Z * list Z)%type.
Fixpoint assignments (section : list Z) (l : list (list Z)) : list Assignment :=
  match l with
  | [] => []
  | line :: l =>
      match unit_strip line with
      | [] => assignments section l
      | c :: rest =>
          if c =? 91 then assignments (take_while (fun c => negb (c =? 93)) rest) l
          else match split_once 61 (c :: rest) with
               | Some (key, value) => (section, unit_strip key, unit_strip value) :: assignments section l
               | None => assignments section l
               end
      end
  end.
Definition unit_lines (text : list Z) : list (list Z) := split_on (Z.eqb 10) text.
Definition read_unit (text : list Z) : list Assignment := assignments [] (whole_lines [] (unit_lines text)).
(** Of the assignments of a key the last one counts. *)
Definition assigned (section key : string) (l : list Assignment) : option (list Z) :=
  foldl (fun found a => if str_eqb a.1.1 (lit section) && str_eqb a.1.2 (lit key) then Some a.2 else found) None l.

(** ** Values *)

(** Every specifier but the percent sign itself depends on the machine. *)
Fixpoint specifiers (s : list Z) : option (list Z) :=
  match s with
  | [] => Some []
  | c :: s' =>
      if c =? 37 then match s' with d :: s' => if d =? 37 then cons 37 <$> specifiers s' else None | [] => None end
      else cons c <$> specifiers s'
  end.
Definition unit_unescaped (c : Z) : option Z :=
  if (c =? 34) || (c =? 39) || (c =? 92) then Some c
  else if c =? 110 then Some 10 else if c =? 116 then Some 9 else if c =? 114 then Some 13 else if c =? 115 then Some 32
  else None.
(** The words of a command line; [cur] is the word being read.  A bare semicolon begins another command. *)
Inductive WordMode : Type := Plain | Quoted (q : Z) | AfterBackslash (m : option Z).
Fixpoint unit_words (mode : WordMode) (cur : option (list Z)) (s : list Z) : option (list (list Z)) :=
  match s with
  | [] => match mode with Plain => Some (match cur with Some w => [w] | None => [] end) | _ => None end
  | c :: s =>
      let word := default [] cur in
      match mode with
      | Plain =>
          if unit_blank c then match cur with Some w => cons w <$> unit_words Plain None s | None => unit_words Plain None s end
          else if (c =? 34) || (c =? 39) then unit_words (Quoted c) (Some word) s
          else if c =? 92 then unit_words (AfterBackslash None) (Some word) s
          else if (c =? 59) && match cur with None => true | _ => false end then None
          else unit_words Plain (Some (word ++ [c])) s
      | Quoted q =>
          if c =? q then unit_words Plain (Some word) s
          else if c =? 92 then unit_words (AfterBackslash (Some q)) (Some word) s
          else unit_words (Quoted q) (Some (word ++ [c])) s
      | AfterBackslash m =>
          match unit_unescaped c with
          | Some d => unit_words (match m with Some q => Quoted q | None => Plain end) (Some (word ++ [d])) s
          | None => None
          end
      end
  end.
(** Characters before the path of a program that change how it is run. *)
Definition exec_prefix (c : Z) : bool := (c =? 64) || (c =? 45) || (c =? 58) || (c =? 43) || (c =? 33) || (c =? 124).
(** A dollar in an argument is for the environment. *)
Definition exec_argument (word : list Z) : option (list Z) := arg ← specifiers word; if contains_char 36 arg then None else Some arg.
Definition read_exec (value : list Z) : option (list Z * list (list Z)) :=
  words ← unit_words Plain None value;
  match words with
  | path :: args => if match path with c :: _ => exec_prefix c | [] => true end then None else path ← specifiers path; args ← mapM exec_argument args; Some (path, args)
  | [] => None
  end.
(** Before a path, [-] and [~] have a meaning of their own. *)
Definition absolute (path : list Z) : bool := match path with c :: _ => c =? 47 | [] => false end.
Definition read_path (value : list Z) : option (list Z) := if absolute value then specifiers value else None.
Definition read_size (value : list Z) : option Z := match rev value with 77 :: digits => mb ← parse_unsigned 18446744073709551615 (rev digits); Some (mb * 1048576) | _ => None end.
Definition read_quota (value : list Z) : option Z := match rev value with 37 :: digits => parse_unsigned 4294967295 (rev digits) | _ => None end.

(** What a service is made of. *)
Record Service : Type := mkService {
  us_description : list Z; us_directory : list Z; us_program : list Z; us_arguments : list (list Z);
  us_environment_file : option (list Z); us_memory : option Z; us_cpu : option Z; us_restart : option (list Z); us_wanted_by : option (list Z);
}.
Definition read_optional {A : Type} (read : list Z -> option A) (value : option (list Z)) : option (option A) :=
  match value with None => Some None | Some value => Some <$> read value end.
Definition read_service (text : list Z) : option Service :=
  let l := read_unit text in
  description ← assigned "Unit" "Description" l ≫= specifiers;
  directory ← assigned "Service" "WorkingDirectory" l ≫= read_path;
  exec ← assigned "Service" "ExecStart" l ≫= read_exec;
  environment_file ← read_optional read_path (assigned "Service" "EnvironmentFile" l);
  memory ← read_optional read_size (assigned "Service" "MemoryMax" l);
  cpu ← read_optional read_quota (assigned "Service" "CPUQuota" l);
  Some (mkService description directory exec.1 exec.2 environment_file memory cpu (assigned "Service" "Restart" l) (assigned "Install" "WantedBy" l)).

(** ** Reading back *)

(** A value that stays on its line and has nothing to lose at its ends. *)
Definition edges (s : list Z) : bool := match s, rev s with c :: _, d :: _ => negb (unit_blank c) && negb (unit_blank d) | _, _ => false end.
Definition tidy (s : list Z) : Prop := edges s = true /\ left_open false s = false.

Lemma specifiers_escape (s : list Z) : specifiers (escape_specifiers s) = Some s.
Proof.
  unfold escape_specifiers. induction s as [|c s IH]; [done|]. cbn [replace_char]. destruct (Z.eqb_spec c 37) as [->|Hc]; [cbn; by rewrite IH|]. cbn [specifiers].
  rewrite (proj2 (Z.eqb_neq c 37)) by done. by rewrite IH.
Qed.
Lemma left_open_escape (b : bool) (s : list Z) : left_open b (escape_specifiers s) = left_open b s.
Proof.
  unfold escape_specifiers. revert b. induction s as [|c s IH]; intros b; [done|]. cbn [replace_char]. destruct (Z.eqb_spec c 37) as [->|Hc]; [|cbn; by rewrite IH].
  cbn. rewrite !andb_false_r. cbn. by rewrite IH.
Qed.
Lemma left_open_app (b : bool) (p s : list Z) : left_open b (p ++ s) = left_open (left_open b p) s.
Proof. revert b. induction p as [|c p IH]; intros b; [done|]. cbn. apply IH. Qed.
Lemma left_open_plain (s : list Z) : contains_char 92 s = false -> left_open false s = false.
Proof.
  unfold contains_char. induction s as [|c s IH]; [done|]. cbn [existsb left_open]. intros [Hc Hs]%orb_false_iff. rewrite Z.eqb_sym in Hc. rewrite Hc. by apply IH.
Qed.
Lemma left_open_chars (v : list Z) : left_open false (v ≫= unit_char) = false.
Proof.
  induction v as [|c v IH]; [done|]. rewrite bind_cons, left_open_app. replace (left_open false (unit_char c)) with false; [done|]. unfold unit_char.
  destruct (Z.eqb_spec c 34); [done|]. destruct (Z.eqb_spec c 92) as [->|Hc]; [done|]. cbn. by rewrite (proj2 (Z.eqb_neq c 92)).
Qed.
Lemma left_open_quote (v : list Z) : left_open false (quote_unit_value v) = false.
Proof. unfold quote_unit_value. rewrite !left_open_app. change (left_open false [34]) with false. by rewrite left_open_chars. Qed.
Lemma left_open_exec (config : SystemdConfig) : left_open false (exec_start config) = false.
Proof.
  unfold exec_start. rewrite left_open_app, left_open_quote. induction (sc_args config) as [|arg args IH]; [done|]. rewrite bind_cons, left_open_app. cbn [left_open].
  change (negb false && (32 =? 92)) with false. by rewrite left_open_quote.
Qed.

(** *** Words *)

Lemma words_quoted (v word rest : list Z) : unit_words (Quoted 34) (Some word) ((v ≫= unit_char) ++ 34 :: rest) = unit_words Plain (Some (word ++ v)) rest.
Proof.
  revert word. induction v as [|c v IH]; intros word; [cbn; by rewrite app_nil_r|]. rewrite bind_cons, <- app_assoc. unfold unit_char at 1.
  replace (word ++ c :: v) with ((word ++ [c]) ++ v) by (by rewrite <- app_assoc).
  destruct (Z.eqb_spec c 34) as [->|H34]; [cbn; apply IH|]. destruct (Z.eqb_spec c 92) as [->|H92]; [cbn; apply IH|]. cbn [app unit_words].
  rewrite (proj2 (Z.eqb_neq c 34)), (proj2 (Z.eqb_neq c 92)) by done. apply IH.
Qed.
Lemma words_value (v rest : list Z) : unit_words Plain None (quote_unit_value v ++ rest) = unit_words Plain (Some (escape_specifiers v)) rest.
Proof. unfold quote_unit_value. rewrite <- !app_assoc. cbn [app unit_words]. apply words_quoted. Qed.
Lemma words_arguments (word : list Z) (args : list (list Z)) :
  unit_words Plain (Some word) (args ≫= fun arg => 32 :: quote_unit_value arg) = Some (word :: map escape_specifiers args).
Proof.
  revert word. induction args as [|arg args IH]; intros word; [done|]. rewrite bind_cons. cbn [app unit_words map]. change (unit_blank 32) with true. cbn iota.
  by rewrite words_value, IH.
Qed.
Definition startable (config : SystemdConfig) : Prop :=
  match config.(sc_command) with c :: _ => exec_prefix c = false | [] => False end /\ Forall (fun arg => contains_char 36 arg = false) config.(sc_args).
Lemma reads_argument (arg : list Z) : contains_char 36 arg = false -> exec_argument (escape_specifiers arg) = Some arg.
Proof. intros Ha. unfold exec_argument. rewrite specifiers_escape. cbn [mbind option_bind]. by rewrite Ha. Qed.
Lemma reads_exec (config : SystemdConfig) : startable config -> read_exec (exec_start config) = Some (config.(sc_command), config.(sc_args)).
Proof.
  intros [Hc Ha]. unfold read_exec, exec_start. rewrite words_value, words_arguments. cbn [mbind option_bind].
  assert (Hm : mapM exec_argument (map escape_specifiers (sc_args config)) = Some (sc_args config)).
  { induction Ha as [|arg args Harg _ IH]; [done|]. cbn [map mapM]. rewrite (reads_argument _ Harg). cbn. by rewrite IH. }
  rewrite specifiers_escape. cbn [mbind option_bind]. rewrite Hm. cbn [mbind option_bind]. destruct (sc_command config) as [|c command] eqn:E; [done|].
  assert (Hp : match escape_specifiers (c :: command) with c :: _ => exec_prefix c | [] => true end = false) by (unfold escape_specifiers; cbn [replace_char]; destruct (Z.eqb_spec c 37) as [->|]; done).
  by rewrite Hp.
Qed.

(** *** Lines *)

Lemma read_quota_percent (n : Z) : 0 <= n <= 4294967295 -> read_quota (to_dec n ++ lit "%") = Some n.
Proof. intros Hn. unfold read_quota. change (lit "%") with [37]. rewrite rev_unit, rev_involutive. apply parse_unsigned_to_dec; lia. Qed.
Lemma read_size_megabytes (mb : Z) : 0 <= mb < 4294967296 -> read_size (to_dec mb ++ lit "M") = Some (mb * 1048576).
Proof. intros Hn. unfold read_size. change (lit "M") with [77]. rewrite rev_unit, rev_involutive, parse_unsigned_to_dec by lia. done. Qed.
Lemma round_range (x : spec_float) : 0 <= round_to_u32 x <= 4294967295.
Proof.
  destruct x as [[]|[]| |[] m e]; cbn; try lia. destruct (Z.leb_spec 0 e).
  - pose proof (Z.pow_nonneg 2 e). lia.
  - assert (0 <= (Z.pos m + 2 ^ (- e - 1)) / 2 ^ - e); [|lia]. apply Z.div_pos; [pose proof (Z.pow_nonneg 2 (- e - 1)); lia|apply Z.pow_pos_nonneg; lia].
Qed.

Lemma edges_strip (s : list Z) : edges s = true -> unit_strip s = s.
Proof.
  unfold edges, unit_strip, trim_start_matches, trim_end_matches. destruct s as [|c s]; [done|]. destruct (rev (c :: s)) as [|d r] eqn:E; [done|]. intros [Hc Hd]%andb_true_iff.
  rewrite negb_true_iff in Hc, Hd. cbn [drop_while]. rewrite Hc, E. cbn [drop_while]. rewrite Hd. rewrite <- E. apply rev_involutive.
Qed.
Lemma edges_app (p s : list Z) : match p with c :: _ => unit_blank c = false | [] => False end -> edges s = true -> edges (p ++ s) = true.
Proof.
  intros Hp Hs. unfold edges in *. destruct p as [|c p]; [done|]. destruct s as [|a s]; [done|]. pose proof (rev_app_distr (c :: p) (a :: s)) as Hr. cbn [app] in Hr |- *. rewrite Hr.
  destruct (rev (a :: s)) as [|d r]; [done|]. apply andb_true_iff in Hs as [_ Hd]. cbn [app]. by rewrite Hp, Hd.
Qed.
Lemma edges_escape (s : list Z) : edges s = true -> edges (escape_specifiers s) = true.
Proof.
  intros Hs. unfold edges in *. destruct s as [|c s]; [done|].
  assert (Hlast : match rev (escape_specifiers (c :: s)), rev (c :: s) with d :: _, d' :: _ => d = d' | _, _ => False end).
  { clear Hs. unfold escape_specifiers. revert c. induction s as [|a s IH]; intros c; [cbn; by destruct (Z.eqb_spec c 37)|]. specialize (IH a).
    change (rev (c :: a :: s)) with (rev (a :: s) ++ [c]). change (replace_char 37 [37; 37] (c :: a :: s)) with (if c =? 37 then [37; 37] ++ replace_char 37 [37; 37] (a :: s) else c :: replace_char 37 [37; 37] (a :: s)).
    generalize dependent (replace_char 37 [37; 37] (a :: s)). intros tail IH. destruct (rev (a :: s)) as [|d' r']; [by destruct (rev tail)|]. destruct (rev tail) as [|d r] eqn:E; [done|].
    destruct (c =? 37); cbn [app rev]; rewrite E; done. }
  assert (Hfirst : match escape_specifiers (c :: s) with c' :: _ => c' = c | [] => False end) by (unfold escape_specifiers; cbn [replace_char]; destruct (Z.eqb_spec c 37) as [->|]; done).
  revert Hs Hlast Hfirst. generalize (escape_specifiers (c :: s)). intros e. destruct e as [|c' e]; [by destruct (rev (c :: s)), (rev (@nil Z))|]. destruct (rev (c :: s)) as [|d' r'], (rev (c' :: e)) as [|d r]; try done. by intros Hs -> ->.
Qed.
Lemma edges_ends (c d : Z) (s : list Z) : unit_blank c = false -> unit_blank d = false -> edges (c :: s ++ [d]) = true.
Proof. intros Hc Hd. unfold edges. change (rev (c :: s ++ [d])) with (rev (s ++ [d]) ++ [c]). rewrite rev_unit. cbn [app]. by rewrite Hc, Hd. Qed.

(** An assignment whose value is written as it is read. *)
Definition key_ok (key : string) : bool :=
  match lit key with c :: _ => negb (unit_blank c) && negb (c =? 35) && negb (c =? 59) && negb (c =? 91) | [] => false end
  && negb (contains_char 92 (lit key)) && negb (contains_char 61 (lit key)) && edges (lit key).
Definition assignment (key : string) (value : list Z) : list Z := lit key ++ 61 :: value.
Lemma whole_assignment (key : string) (value : list Z) (l : list (list Z)) : key_ok key = true -> left_open false value = false ->
  whole_lines [] (assignment key value :: l) = assignment key value :: whole_lines [] l.
Proof.
  unfold key_ok, assignment. intros Hk Hv. rewrite !andb_true_iff, !negb_true_iff in Hk. destruct Hk as (((Hk & H92) & _) & _). destruct (lit key) as [|c k] eqn:E; [done|].
  rewrite !andb_true_iff, !negb_true_iff in Hk. destruct Hk as (((Hb & H35) & H59) & _). cbn [app whole_lines trim_start_matches drop_while]. rewrite Hb, H35, H59. cbn [orb app].
  assert (Ho : left_open false (c :: k ++ 61 :: value) = false) by (change (c :: k ++ 61 :: value) with ((c :: k) ++ 61 :: value); by rewrite left_open_app, left_open_plain).
  by rewrite Ho.
Qed.
Lemma assigns (key : string) (value section : list Z) (l : list (list Z)) : key_ok key = true -> edges value = true ->
  assignments section (assignment key value :: l) = (section, lit key, value) :: assignments section l.
Proof.
  unfold key_ok, assignment. intros Hk Hv. rewrite !andb_true_iff, !negb_true_iff in Hk. destruct Hk as (((Hk & _) & H61) & He).
  assert (Hs : unit_strip (lit key ++ 61 :: value) = lit key ++ 61 :: value).
  { apply edges_strip. change (61 :: value) with ([61] ++ value). rewrite app_assoc. apply edges_app; [|done]. destruct (lit key) as [|c k]; [done|]. cbn. rewrite !andb_true_iff, !negb_true_iff in Hk. tauto. }
  cbn [assignments]. rewrite Hs. destruct (lit key) as [|c k] eqn:E; [done|]. rewrite !andb_true_iff, !negb_true_iff in Hk. destruct Hk as (_ & H91). cbn [app]. rewrite H91.
  change (c :: k ++ 61 :: value) with ((c :: k) ++ 61 :: value). rewrite split_once_app by done. by rewrite (edges_strip _ He), (edges_strip _ Hv).
Qed.

(** *** Files *)

Abbreviation Entry := (string * list Z)%type.
Definition entry_ok (e : Entry) : Prop := key_ok e.1 = true /\ edges e.2 = true /\ left_open false e.2 = false /\ contains_char 10 (assignment e.1 e.2) = false.
Definition written (entries : list Entry) : list (list Z) := map (fun e => assignment e.1 e.2) entries.
Definition meant (section : string) (entries : list Entry) : list Assignment := map (fun e => (lit section, lit e.1, e.2)) entries.
Definition header (section : string) : list Z := lit "[" ++ lit section ++ lit "]".
Lemma whole_written (entries : list Entry) (rest : list (list Z)) : Forall entry_ok entries -> whole_lines [] (written entries ++ rest) = written entries ++ whole_lines [] rest.
Proof. induction 1 as [|e entries (Hk & _ & Ho & _) _ IH]; [done|]. cbn [written map app]. rewrite whole_assignment by done. by f_equal. Qed.
Lemma assigns_written (section : string) (entries : list Entry) (rest : list (list Z)) : Forall entry_ok entries ->
  assignments (lit section) (written entries ++ rest) = meant section entries ++ assignments (lit section) rest.
Proof. induction 1 as [|e entries (Hk & He & _) _ IH]; [done|]. cbn [written meant map app]. rewrite assigns by done. by f_equal. Qed.
Lemma written_breaks (entries : list Entry) : Forall entry_ok entries -> Forall (fun l => contains_char 10 l = false) (written entries).
Proof. induction 1 as [|e entries (_ & _ & _ & Hn) _ IH]; [constructor|]. by constructor. Qed.

Definition file_lines (g1 g2 g3 : list Entry) : list (list Z) :=
  header "Unit" :: written g1 ++ [] :: header "Service" :: written g2 ++ [] :: header "Install" :: written g3.
Lemma reads_unit_file (g1 g2 g3 : list Entry) : Forall entry_ok g1 -> Forall entry_ok g2 -> Forall entry_ok g3 ->
  read_unit (file_lines g1 g2 g3 ≫= fun l => l ++ [10]) = meant "Unit" g1 ++ meant "Service" g2 ++ meant "Install" g3.
Proof.
  intros H1 H2 H3. unfold read_unit, unit_lines. rewrite split_ended.
  2:{ unfold file_lines. constructor; [done|]. apply Forall_app; split; [by apply written_breaks|]. do 2 (constructor; [done|]). apply Forall_app; split; [by apply written_breaks|].
      do 2 (constructor; [done|]). by apply written_breaks. }
  assert (Hw : whole_lines [] (file_lines g1 g2 g3 ++ [[]]) = header "Unit" :: written g1 ++ header "Service" :: written g2 ++ header "Install" :: written g3).
  { unfold file_lines. cbn [app]. rewrite <- !app_assoc. change (whole_lines [] (header "Unit" :: ?l)) with (header "Unit" :: whole_lines [] l). rewrite whole_written by done. do 2 f_equal.
    cbn [app]. rewrite <- !app_assoc. change (whole_lines [] ([] :: header "Service" :: ?l)) with (header "Service" :: whole_lines [] l). rewrite whole_written by done. do 2 f_equal.
    cbn [app]. change (whole_lines [] ([] :: header "Install" :: ?l)) with (header "Install" :: whole_lines [] l). f_equal. rewrite whole_written by done. cbn. by rewrite app_nil_r. }
  rewrite Hw. change (assignments [] (header "Unit" :: ?l)) with (assignments (lit "Unit") l). rewrite assigns_written by done. f_equal.
  change (assignments ?s (header "Service" :: ?l)) with (assignments (lit "Service") l). rewrite assigns_written by done. f_equal.
  change (assignments ?s (header "Install" :: ?l)) with (assignments (lit "Install") l). rewrite <- (app_nil_r (written g3)), assigns_written by done. apply app_nil_r.
Qed.

(** *** The unit of an application *)

Definition unit_entries (ctx : SystemdContext) : list Entry :=
  [("Description"%string, lit "VibeSSH managed application: " ++ escape_specifiers ctx.(sx_name)); ("After"%string, lit "network.target")].
Definition environment_entries (ctx : SystemdContext) : list Entry :=
  match ctx.(sx_environment) with [] => [] | _ => [("EnvironmentFile"%string, escape_specifiers (env_path (unit_name ctx.(sx_id))))] end.
Definition limit_entries (config : SystemdConfig) : list Entry :=
  match config.(sc_memory_limit_mb) with Some mb => [("MemoryAccounting"%string, lit "yes"); ("MemoryMax"%string, to_dec mb ++ lit "M")] | None => [] end ++
  match config.(sc_cpu_limit_cores) with Some cores => [("CPUAccounting"%string, lit "yes"); ("CPUQuota"%string, to_dec (cpu_percent cores) ++ lit "%")] | None => [] end.
Definition service_entries (ctx : SystemdContext) (config : SystemdConfig) : list Entry :=
  [("Type"%string, lit "simple"); ("WorkingDirectory"%string, escape_specifiers ctx.(sx_working_directory)); ("ExecStart"%string, exec_start config)]
  ++ environment_entries ctx ++ limit_entries config ++ [("Restart"%string, lit "on-failure"); ("RestartSec"%string, lit "5")].
Definition install_entries : list Entry := [("WantedBy"%string, lit "multi-user.target")].

Lemma render_text (ctx : SystemdContext) (config : SystemdConfig) (text : list Z) : render_unit_file ctx config = Ok text ->
  text = (file_lines (unit_entries ctx) (service_entries ctx config) install_entries ≫= fun l => l ++ [10]) /\
  contains_char 10 config.(sc_command) = false /\ Forall (fun arg => contains_char 10 arg = false) config.(sc_args) /\
  contains_char 10 ctx.(sx_working_directory) = false /\ contains_char 10 ctx.(sx_name) = false.
Proof.
  unfold render_unit_file. destruct (reject_line_breaks (sc_command config) _) as [[]|e] eqn:Ec; [|done]. destruct (reject_line_breaks_in _ _) as [[]|e] eqn:Ea; [|done].
  destruct (reject_line_breaks (sx_working_directory ctx) _) as [[]|e] eqn:Ed; [|done]. destruct (reject_line_breaks (sx_name ctx) _) as [[]|e] eqn:En; [|done].
  destruct (check_environment _) as [[]|e]; [|done]. unfold resource_limit_lines. destruct (validate_resource_limits _ _) as [[]|e]; [|done]. cbn [rbind]. intros Hok%Ok_inj. rewrite <- Hok. clear Hok.
  assert (Hb : forall value field, reject_line_breaks value field = Ok tt -> contains_char 10 value = false).
  { intros value field. unfold reject_line_breaks. by destruct (contains_char 10 value). }
  split_and!; [|by eapply Hb| |by eapply Hb|by eapply Hb].
  - assert (Hass : forall key value, assignment key value = lit key ++ [61] ++ value) by reflexivity.
    change (lit "[Unit]") with (header "Unit"). change (lit "[Service]") with (header "Service"). change (lit "[Install]") with (header "Install").
    change (lit "Description=VibeSSH managed application: ") with (lit "Description" ++ [61] ++ lit "VibeSSH managed application: "). change (lit "After=network.target") with (lit "After" ++ [61] ++ lit "network.target").
    change (lit "Type=simple") with (lit "Type" ++ [61] ++ lit "simple"). change (lit "WorkingDirectory=") with (lit "WorkingDirectory" ++ [61]). change (lit "ExecStart=") with (lit "ExecStart" ++ [61]).
    change (lit "Restart=on-failure") with (lit "Restart" ++ [61] ++ lit "on-failure"). change (lit "RestartSec=5") with (lit "RestartSec" ++ [61] ++ lit "5").
    change (lit "WantedBy=multi-user.target") with (lit "WantedBy" ++ [61] ++ lit "multi-user.target"). unfold environment_lines. change (lit "EnvironmentFile=") with (lit "EnvironmentFile" ++ [61]).
    change (lit "MemoryAccounting=yes") with (lit "MemoryAccounting" ++ [61] ++ lit "yes"). change (lit "MemoryMax=") with (lit "MemoryMax" ++ [61]).
    change (lit "CPUAccounting=yes") with (lit "CPUAccounting" ++ [61] ++ lit "yes"). change (lit "CPUQuota=") with (lit "CPUQuota" ++ [61]).
    unfold file_lines, service_entries, environment_entries, limit_entries, written, unit_entries, install_entries, header, assignment.
    destruct (sx_environment ctx), (sc_memory_limit_mb config), (sc_cpu_limit_cores config); cbn [map fst snd app];
      repeat match goal with
      | |- context [escape_specifiers ?x] => generalize (escape_specifiers x); intros ?
      | |- context [exec_start ?x] => generalize (exec_start x); intros ?
      | |- context [to_dec ?x] => generalize (to_dec x); intros ?
      | |- context [lit ?s] => generalize (lit s); intros ?
      end; cbn; rewrite ?bind_app; do 4 (cbn; rewrite <- ?app_assoc); reflexivity.
  - clear -Ea Hb. induction (sc_args config) as [|arg args IH]; [constructor|]. cbn [reject_line_breaks_in] in Ea. destruct (reject_line_breaks arg _) as [[]|e] eqn:E; [|done]. constructor; [by eapply Hb|by apply IH].
Qed.

Lemma contains_escape (c : Z) (s : list Z) : c <> 37 -> contains_char c (escape_specifiers s) = contains_char c s.
Proof.
  intros Hc. unfold escape_specifiers, contains_char. induction s as [|x s IH]; [done|]. cbn [replace_char existsb]. destruct (Z.eqb_spec x 37) as [->|Hx]; cbn [app existsb]; rewrite IH; [|done].
  by rewrite (proj2 (Z.eqb_neq c 37)).
Qed.
Lemma contains_quote (s : list Z) : contains_char 10 s = false -> contains_char 10 (quote_unit_value s) = false.
Proof.
  intros Hs. rewrite <- (contains_escape 10 s) in Hs by done. unfold quote_unit_value, contains_char in *. rewrite !existsb_app. cbn [existsb]. rewrite orb_false_r. change (10 =? 34) with false. cbn [orb].
  rewrite orb_false_r. induction (escape_specifiers s) as [|c v IH]; [done|]. rewrite bind_cons, existsb_app. cbn [existsb] in Hs. apply orb_false_iff in Hs as [Hc Hv]. rewrite (IH Hv), orb_false_r. unfold unit_char.
  destruct (c =? 34); [done|]. destruct (c =? 92); [done|]. cbn [existsb]. by rewrite Hc.
Qed.
Lemma edges_between (s r : list Z) (d : Z) : match s with c :: _ => unit_blank c = false | [] => False end -> s = r ++ [d] -> unit_blank d = false -> edges s = true.
Proof. intros Hc Hs Hd. pose proof (f_equal (@rev Z) Hs) as Hr. rewrite rev_unit in Hr. clear Hs. unfold edges. destruct s as [|c s]; [done|]. destruct (rev (c :: s)) as [|d' r']; [done|]. injection Hr as -> _. by rewrite Hc, Hd. Qed.
Lemma exec_edges (config : SystemdConfig) : edges (exec_start config) = true.
Proof.
  unfold exec_start. destruct (sc_args config) as [|arg args _] using rev_ind.
  - eapply (edges_between _ ([34] ++ (escape_specifiers (sc_command config) ≫= unit_char)) 34); [done| |done]. cbn [mbind list_bind]. rewrite app_nil_r. unfold quote_unit_value. by rewrite <- app_assoc.
  - eapply (edges_between _ (quote_unit_value (sc_command config) ++ (args ≫= fun arg => 32 :: quote_unit_value arg) ++ [32; 34] ++ (escape_specifiers arg ≫= unit_char)) 34); [done| |done].
    rewrite bind_app. cbn [mbind list_bind]. rewrite app_nil_r. unfold quote_unit_value at 3. rewrite <- !app_assoc. reflexivity.
Qed.
Lemma exec_breaks (config : SystemdConfig) : contains_char 10 config.(sc_command) = false -> Forall (fun arg => contains_char 10 arg = false) config.(sc_args) -> contains_char 10 (exec_start config) = false.
Proof.
  intros Hc Ha. unfold exec_start, contains_char in *. rewrite existsb_app. pose proof (contains_quote _ Hc) as Hq. unfold contains_char in Hq. rewrite Hq. cbn [orb]. clear Hc Hq.
  induction Ha as [|arg args Harg _ IH]; [done|]. rewrite bind_cons. cbn [app existsb]. rewrite existsb_app, IH. pose proof (contains_quote _ Harg) as Hq. unfold contains_char in Hq. by rewrite Hq.
Qed.
Lemma number_entry (key : string) (n : Z) (d : Z) : key_ok key = true -> contains_char 10 (lit key) = false -> 0 <= n < 10 ^ 20 -> unit_blank d = false -> d <> 92 -> d <> 10 -> entry_ok (key, to_dec n ++ [d]).
Proof.
  intros Hk Hkey Hn Hb H92 H10. destruct (to_dec_spec n Hn) as (_ & Hd & Hne). rewrite forallb_elem_of in Hd.
  assert (Hx : forall c, c < 48 \/ 57 < c -> contains_char c (to_dec n) = false).
  { intros c Hc. unfold contains_char. apply existsb_false_elem_of. intros x Hin. specialize (Hd x Hin). revert Hd. unfold is_ascii_digit, in_range. lia. }
  split_and!; cbn [fst snd]; [done| | |].
  - destruct (to_dec n) as [|c s]; [done|]. apply edges_ends; [|done]. specialize (Hd c ltac:(by apply elem_of_cons; left)). revert Hd. unfold is_ascii_digit, in_range, unit_blank. lia.
  - apply left_open_plain. unfold contains_char in *. rewrite existsb_app, Hx by lia. cbn [existsb orb]. rewrite orb_false_r. apply Z.eqb_neq. congruence.
  - unfold assignment, contains_char in *. rewrite existsb_app, Hkey. cbn [orb existsb]. rewrite existsb_app, Hx by lia. cbn [existsb orb]. rewrite orb_false_r. apply Z.eqb_neq. congruence.
Qed.
Lemma path_plain (application_id : N) : contains_char 92 (env_path (unit_name application_id)) = false /\ contains_char 10 (env_path (unit_name application_id)) = false.
Proof.
  destruct (uuid_text_chars application_id) as [Hc _]. rewrite forallb_elem_of in Hc.
  assert (Hx : forall c, c = 92 \/ c = 10 -> contains_char c (uuid_text application_id) = false).
  { intros c Hd. unfold contains_char. apply existsb_false_elem_of. intros x Hin. specialize (Hc x Hin). revert Hc.
    unfold container_char, is_ascii_alphanumeric, is_ascii_alphabetic, is_ascii_uppercase, is_ascii_lowercase, is_ascii_digit, in_range. lia. }
  unfold env_path, unit_name, contains_char in *. rewrite !existsb_app, !Hx by auto. done.
Qed.
Lemma value_entry (key : string) (prefix value : list Z) : key_ok key = true -> contains_char 10 (lit key ++ 61 :: prefix) = false -> contains_char 92 prefix = false ->
  match prefix with c :: _ => unit_blank c = false | [] => True end -> tidy value -> contains_char 10 value = false -> entry_ok (key, prefix ++ escape_specifiers value).
Proof.
  intros Hk Hp H92 Hb [He Ho] Hv. split_and!; cbn [fst snd]; [done| | |].
  - destruct prefix; [by apply edges_escape|]. apply edges_app; [done|by apply edges_escape].
  - by rewrite left_open_app, (left_open_plain _ H92), left_open_escape.
  - unfold assignment. change (61 :: prefix ++ escape_specifiers value) with ((61 :: prefix) ++ escape_specifiers value). rewrite app_assoc. pose proof (contains_escape 10 value) as Hx. unfold contains_char in *. rewrite existsb_app, Hp, Hx by done. exact Hv.
Qed.

Lemma entries_ok (ctx : SystemdContext) (config : SystemdConfig) (text : list Z) : render_unit_file ctx config = Ok text -> tidy ctx.(sx_name) -> tidy ctx.(sx_working_directory) ->
  match config.(sc_memory_limit_mb) with Some mb => 0 <= mb < 4294967296 | None => True end ->
  Forall entry_ok (unit_entries ctx) /\ Forall entry_ok (service_entries ctx config) /\ Forall entry_ok install_entries.
Proof.
  intros Hr Hn Hd Hm. destruct (render_text _ _ _ Hr) as (_ & Hc & Ha & Hdb & Hnb). split_and!.
  - unfold unit_entries. constructor; [by apply value_entry|]. by repeat constructor.
  - unfold service_entries. apply Forall_app; split; [|apply Forall_app; split; [|apply Forall_app; split]].
    + constructor; [by repeat constructor|]. constructor; [by apply (value_entry _ [])|]. constructor; [|constructor]. split_and!; cbn [fst snd]; [done|apply exec_edges|apply left_open_exec|].
      unfold assignment, contains_char. rewrite existsb_app. cbn [existsb]. pose proof (exec_breaks config Hc Ha) as Hx. unfold contains_char in Hx. by rewrite Hx.
    + unfold environment_entries. destruct (sx_environment ctx); [constructor|]. constructor; [|constructor]. destruct (path_plain (sx_id ctx)) as [H92 H10]. apply (value_entry _ []); try done.
      split; [|by apply left_open_plain]. eapply (edges_between _ (ENV_DIR ++ lit "/" ++ (lit "vibessh-app-" ++ uuid_text (sx_id ctx) ++ lit ".service") ++ lit ".en") 118); [done| |done].
      unfold env_path, unit_name. rewrite <- !app_assoc. reflexivity.
    + unfold limit_entries. apply Forall_app; split.
      * destruct (sc_memory_limit_mb config) as [mb|]; [|constructor]. constructor; [by repeat constructor|]. constructor; [|constructor]. apply number_entry; done || lia.
      * destruct (sc_cpu_limit_cores config) as [cores|]; [|constructor]. constructor; [by repeat constructor|]. constructor; [|constructor]. pose proof (round_range (SFmul 24 128 cores HUNDRED)). apply number_entry; done || (unfold cpu_percent; lia).
    + by repeat constructor.
  - by repeat constructor.
Qed.

(** What an application's unit is meant to be. *)
Definition intended (ctx : SystemdContext) (config : SystemdConfig) : Service :=
  mkService (lit "VibeSSH managed application: " ++ ctx.(sx_name)) ctx.(sx_working_directory) config.(sc_command) config.(sc_args)
    (match ctx.(sx_environment) with [] => None | _ => Some (env_path (unit_name ctx.(sx_id))) end)
    ((fun mb => mb * 1048576) <$> config.(sc_memory_limit_mb)) (cpu_percent <$> config.(sc_cpu_limit_cores)) (Some (lit "on-failure")) (Some (lit "multi-user.target")).

Lemma replace_char_app (c : Z) (by_ p s : list Z) : replace_char c by_ (p ++ s) = replace_char c by_ p ++ replace_char c by_ s.
Proof. induction p as [|x p IH]; [done|]. cbn [app replace_char]. rewrite IH. destruct (x =? c); [by rewrite app_assoc|done]. Qed.
Lemma reads_path (path : list Z) : absolute path = true -> read_path (escape_specifiers path) = Some path.
Proof.
  intros Hp. unfold read_path. rewrite specifiers_escape. replace (absolute (escape_specifiers path)) with true; [done|]. destruct path as [|c path]; [done|]. cbn in Hp. apply Z.eqb_eq in Hp as ->. done.
Qed.
Lemma reads_description (name : list Z) : specifiers (lit "VibeSSH managed application: " ++ escape_specifiers name) = Some (lit "VibeSSH managed application: " ++ name).
Proof. change (lit "VibeSSH managed application: ") with (escape_specifiers (lit "VibeSSH managed application: ")). unfold escape_specifiers. rewrite <- replace_char_app. apply specifiers_escape. Qed.

(** What the assignments of a rendered unit come to, whatever is switched on. *)
Lemma reads_assigned (ctx : SystemdContext) (config : SystemdConfig) :
  let l := meant "Unit" (unit_entries ctx) ++ meant "Service" (service_entries ctx config) ++ meant "Install" install_entries in
  assigned "Unit" "Description" l = Some (lit "VibeSSH managed application: " ++ escape_specifiers ctx.(sx_name)) /\
  assigned "Service" "WorkingDirectory" l = Some (escape_specifiers ctx.(sx_working_directory)) /\
  assigned "Service" "ExecStart" l = Some (exec_start config) /\
  assigned "Service" "EnvironmentFile" l = match ctx.(sx_environment) with [] => None | _ => Some (escape_specifiers (env_path (unit_name ctx.(sx_id)))) end /\
  assigned "Service" "MemoryMax" l = ((fun mb => to_dec mb ++ lit "M") <$> config.(sc_memory_limit_mb)) /\
  assigned "Service" "CPUQuota" l = ((fun cores => to_dec (cpu_percent cores) ++ lit "%") <$> config.(sc_cpu_limit_cores)) /\
  assigned "Service" "Restart" l = Some (lit "on-failure") /\ assigned "Install" "WantedBy" l = Some (lit "multi-user.target").
Proof.
  unfold unit_entries, service_entries, environment_entries, limit_entries.
  generalize (lit "VibeSSH managed application: " ++ escape_specifiers ctx.(sx_name)), (escape_specifiers ctx.(sx_working_directory)), (exec_start config), (escape_specifiers (env_path (unit_name ctx.(sx_id)))).
  intros description directory exec path. destruct (sx_environment ctx), (sc_memory_limit_mb config) as [mb|], (sc_cpu_limit_cores config) as [cores|]; cbn [fmap option_fmap option_map];
    try generalize (to_dec mb ++ lit "M"); try generalize (to_dec (cpu_percent cores) ++ lit "%"); repeat split; reflexivity.
Qed.

(** systemd reads the unit file of an application as the service that was
    configured: the description, the directory, the program with every argument
    as one word, whatever quotes, blanks, backslashes and percent signs they hold,
    the file of the environment and the limits. *)
Theorem unit_file_reads_back (ctx : SystemdContext) (config : SystemdConfig) (text : list Z) :
  render_unit_file ctx config = Ok text -> tidy ctx.(sx_name) -> tidy ctx.(sx_working_directory) -> absolute ctx.(sx_working_directory) = true -> startable config ->
  match config.(sc_memory_limit_mb) with Some mb => 0 <= mb < 4294967296 | None => True end ->
  read_service text = Some (intended ctx config).
Proof.
  intros Hr Hn Hd Habs Hs Hm. destruct (entries_ok _ _ _ Hr Hn Hd Hm) as (H1 & H2 & H3). destruct (render_text _ _ _ Hr) as (-> & _).
  unfold read_service. rewrite reads_unit_file by done. destruct (reads_assigned ctx config) as (-> & -> & -> & -> & -> & -> & -> & ->).
  cbn [mbind option_bind]. rewrite reads_description, reads_path, reads_exec by done. cbn [mbind option_bind]. unfold intended.
  destruct (sx_environment ctx); cbn [read_optional]; rewrite ?reads_path by done; (destruct (sc_memory_limit_mb config); cbn [read_optional fmap option_fmap option_map]; rewrite ?read_size_megabytes by done);
    (destruct (sc_cpu_limit_cores config); cbn [read_optional fmap option_fmap option_map]; [unfold cpu_percent; rewrite read_quota_percent by apply round_range|]); done.
Qed.

(** ** The environment file

    [parse_env_file]: a value begins after blanks; at its beginning quotes open,
    in it a backslash takes the next character, and blanks at its end are lost. *)

Inductive EnvState : Type :=
| PreKey
| KeyState (key : list Z)
| PreValue (key value : list Z)
| ValueState (key value : list Z)
| ValueEscape (key value : list Z)
| QuotedValue (q : Z) (key value : list Z)
| QuotedEscape (q : Z) (key value : list Z)
| EnvComment.
Definition env_done (key value : list Z) : list Z * list Z := (trim_end_matches unit_blank key, value).
Fixpoint read_environment (st : EnvState) (s : list Z) : list (list Z * list Z) :=
  match s with
  | [] =>
      match st with
      | PreValue key value | QuotedValue _ key value | QuotedEscape _ key value | ValueEscape key value => [env_done key value]
      | ValueState key value => [env_done key (trim_end_matches unit_blank value)]
      | _ => []
      end
  | c :: s =>
      match st with
      | PreKey => if (c =? 35) || (c =? 59) then read_environment EnvComment s else if unit_blank c then read_environment PreKey s else read_environment (KeyState [c]) s
      | KeyState key => if c =? 10 then read_environment PreKey s else if c =? 61 then read_environment (PreValue key []) s else read_environment (KeyState (key ++ [c])) s
      | PreValue key value =>
          if c =? 10 then env_done key value :: read_environment PreKey s
          else if (c =? 34) || (c =? 39) then read_environment (QuotedValue c key value) s
          else if c =? 92 then read_environment (ValueEscape key value) s
          else if unit_blank c then read_environment (PreValue key value) s
          else read_environment (ValueState key (value ++ [c])) s
      | ValueState key value =>
          if c =? 10 then env_done key (trim_end_matches unit_blank value) :: read_environment PreKey s
          else if c =? 92 then read_environment (ValueEscape key value) s
          else read_environment (ValueState key (value ++ [c])) s
      | ValueEscape key value => if c =? 10 then read_environment (ValueState key value) s else read_environment (ValueState key (value ++ [c])) s
      | QuotedValue q key value =>
          if c =? q then read_environment (PreValue key value) s
          else if (c =? 92) && (q =? 34) then read_environment (QuotedEscape q key value) s
          else read_environment (QuotedValue q key (value ++ [c])) s
      | QuotedEscape q key value =>
          if bool_decide (c ∈ [34; 92; 96; 36]) then read_environment (QuotedValue q key (value ++ [c])) s
          else if c =? 10 then read_environment (QuotedValue q key value) s
          else read_environment (QuotedValue q key (value ++ [92; c])) s
      | EnvComment => if c =? 10 then read_environment PreKey s else read_environment EnvComment s
      end
  end.

(** A value that systemd takes as it is written. *)
Definition env_plain (value : list Z) : bool :=
  negb (contains_char 92 value) && match value with c :: _ => negb ((c =? 34) || (c =? 39)) && edges value | [] => true end.
Lemma reads_key (key k rest : list Z) : forallb (fun c => is_ascii_alphanumeric c || (c =? 95)) key = true -> read_environment (KeyState k) (key ++ 61 :: rest) = read_environment (PreValue (k ++ key) []) rest.
Proof.
  revert k. induction key as [|c key IH]; intros k; [cbn; by rewrite app_nil_r|]. cbn [forallb]. intros [Hc Hk]%andb_true_iff. cbn [app read_environment].
  assert (Hne : c <> 10 /\ c <> 61) by (revert Hc; unfold is_ascii_alphanumeric, is_ascii_alphabetic, is_ascii_uppercase, is_ascii_lowercase, is_ascii_digit, in_range; lia).
  rewrite (proj2 (Z.eqb_neq c 10)), (proj2 (Z.eqb_neq c 61)) by tauto. rewrite IH by done. by rewrite <- app_assoc.
Qed.
Lemma reads_value (key value done_ rest : list Z) : contains_char 92 value = false -> contains_char 10 value = false ->
  read_environment (ValueState key done_) (value ++ 10 :: rest) = env_done key (trim_end_matches unit_blank (done_ ++ value)) :: read_environment PreKey rest.
Proof.
  unfold contains_char. revert done_. induction value as [|c value IH]; intros d; [cbn; by rewrite app_nil_r|]. cbn [existsb]. intros [H92 Hv]%orb_false_iff [H10 Hv']%orb_false_iff. cbn [app read_environment].
  rewrite (Z.eqb_sym c 10), H10, (Z.eqb_sym c 92), H92. rewrite IH by done. by rewrite <- app_assoc.
Qed.
Lemma edges_trim_end (s : list Z) : edges s = true -> trim_end_matches unit_blank s = s.
Proof.
  intros Hs. pose proof (edges_strip s Hs) as He. unfold unit_strip in He. unfold edges in Hs. destruct s as [|c s]; [done|]. destruct (rev (c :: s)); [done|]. apply andb_true_iff in Hs as [Hc _].
  rewrite negb_true_iff in Hc. unfold trim_start_matches in He. cbn [drop_while] in He. by rewrite Hc in He.
Qed.
Lemma reads_variable (key value rest : list Z) : is_valid_env_key key = true -> env_plain value = true -> contains_char 10 value = false ->
  read_environment PreKey (key ++ [61] ++ value ++ [10] ++ rest) = (key, value) :: read_environment PreKey rest.
Proof.
  intros Hk Hv Hn. destruct key as [|c key]; [done|]. cbn [is_valid_env_key] in Hk. apply andb_true_iff in Hk as [Hc Hk].
  assert (Hp : (c =? 35) || (c =? 59) = false /\ unit_blank c = false) by (revert Hc; unfold unit_blank, is_ascii_alphabetic, is_ascii_uppercase, is_ascii_lowercase, in_range; lia).
  cbn [app read_environment]. rewrite (proj1 Hp), (proj2 Hp), reads_key by done. cbn [app].
  assert (Hkey : trim_end_matches unit_blank (c :: key) = c :: key).
  { apply edges_trim_end. eapply edges_between with (r := removelast (c :: key)) (d := List.last (c :: key) 0); [apply Hp|by apply app_removelast_last|].
    assert (Hall : forall x, In x (c :: key) -> unit_blank x = false).
    { intros x [<-|Hx]; [apply Hp|]. rewrite forallb_forall in Hk. specialize (Hk x Hx). revert Hk. unfold unit_blank, is_ascii_alphanumeric, is_ascii_alphabetic, is_ascii_uppercase, is_ascii_lowercase, is_ascii_digit, in_range. lia. }
    apply Hall. destruct (exists_last (l := c :: key)) as (r & d & ->); [done|]. rewrite last_last. apply in_or_app. right. by left. }
  unfold env_plain in Hv. apply andb_true_iff in Hv as [H92%negb_true_iff Hv]. destruct value as [|v value]; [cbn; by rewrite <- Hkey at 2|].
  apply andb_true_iff in Hv as [Hq He]. rewrite negb_true_iff in Hq. pose proof H92 as H92'. pose proof Hn as Hn'. unfold contains_char in H92', Hn'. cbn [existsb] in H92', Hn'.
  apply orb_false_iff in H92' as [Hv92 H92']. apply orb_false_iff in Hn' as [Hv10 Hn']. cbn [app read_environment]. rewrite (Z.eqb_sym v 10), Hv10, Hq, (Z.eqb_sym v 92), Hv92.
  assert (Hb : unit_blank v = false) by (unfold edges in He; destruct (rev (v :: value)); [done|]; by apply andb_true_iff in He as [?%negb_true_iff _]).
  rewrite Hb. change (v :: 10 :: rest) with (v :: [10] ++ rest). rewrite (reads_value _ value [v] rest H92' Hn'). cbn [app]. rewrite (edges_trim_end _ He). unfold env_done. by rewrite Hkey.
Qed.

Lemma rendered_environment (ctx : SystemdContext) (config : SystemdConfig) (text : list Z) : render_unit_file ctx config = Ok text -> check_environment ctx.(sx_environment) = Ok tt.
Proof.
  unfold render_unit_file. destruct (reject_line_breaks (sc_command config) _); [|done]. destruct (reject_line_breaks_in _ _); [|done].
  destruct (reject_line_breaks (sx_working_directory ctx) _); [|done]. destruct (reject_line_breaks (sx_name ctx) _); [|done]. cbn [rbind]. by destruct (check_environment _) as [[]|e].
Qed.
(** Every value that has no backslash, no quote in front and no blank at an end
    reaches the application as it was entered. *)
Lemma environment_reads_back (environment : list EnvironmentVariable) : check_environment environment = Ok tt -> Forall (fun env => env_plain env.(ev_value) = true) environment ->
  read_environment PreKey (environment_contents environment) = map (fun env => (env.(ev_key), env.(ev_value))) environment.
Proof.
  unfold environment_contents. induction environment as [|env environment IH]; [done|]. intros Hc [He Hall]%Forall_cons. cbn [check_environment] in Hc.
  destruct (is_valid_env_key (ev_key env)) eqn:Hk; [|done]. cbn [negb] in Hc. destruct (reject_line_breaks (ev_value env) _) as [[]|] eqn:Hv; [|done].
  rewrite bind_cons, <- !app_assoc.
  rewrite reads_variable; [|done|done|]. 2:{ revert Hv. unfold reject_line_breaks. by destruct (contains_char 10 (ev_value env)). }
  cbn [map]. f_equal. by apply IH.
Qed.

(** ** Starting a unit *)

#[local] Open Scope fw_scope.

(** The mode and the bytes of every file of the Node. *)
Abbreviation RootFiles := (gmap (list Z) (Z * list Z)).

(** [install -T] of an empty file with a mode, and [tee]: when they end well, and when they do not or nobody knows. *)
Definition installed (mode : Z) (path : list Z) (done_ : bool) (f f' : RootFiles) : Prop :=
  if done_ then f' = <[path := (mode, [])]> f else f' = f \/ f' = delete path f \/ exists m, f' = <[path := (m, [])]> f.
Definition overwritten (path contents : list Z) (done_ : bool) (f f' : RootFiles) : Prop :=
  match f !! path with
  | Some (mode, _) => if done_ then f' = <[path := (mode, contents)]> f else f' = f \/ exists part, f' = <[path := (mode, part)]> f
  | None => delete path f' = delete path f
  end.
Definition ended_well (r : result (list Z) CommandOutput) : bool := match r with Ok out => out.(exit_code) =? 0 | Err _ => false end.

Definition start_verb (again : bool) : list Z := if again then lit "restart" else lit "enable --now".

(** A Node on which the unit of the application can be written and started. *)
Class UnitHost (Node : Type) (application_id : N) `{Connection Node} `{CommandInput Node} : Type := {
  root_files : Node -> RootFiles;
  command_lines : Node -> list (list Z);
  command_noted : forall command n r n', execute_command command n = (r, n') -> command_lines n' = command_lines n ++ [command];
  input_noted : forall command input n r n', execute_with_input command input n = (r, n') -> command_lines n' = command_lines n ++ [command];
  environment_installed : forall n r n', execute_command (prepare_environment (env_path (unit_name application_id))) n = (r, n') ->
    installed 384 (env_path (unit_name application_id)) (ended_well r) (root_files n) (root_files n');
  unit_installed : forall n r n', execute_command (prepare_unit (unit_path (unit_name application_id))) n = (r, n') ->
    installed 420 (unit_path (unit_name application_id)) (ended_well r) (root_files n) (root_files n');
  environment_teed : forall contents n r n', execute_with_input (tee (env_path (unit_name application_id))) contents n = (r, n') ->
    overwritten (env_path (unit_name application_id)) contents (ended_well r) (root_files n) (root_files n');
  unit_teed : forall contents n r n', execute_with_input (tee (unit_path (unit_name application_id))) contents n = (r, n') ->
    overwritten (unit_path (unit_name application_id)) contents (ended_well r) (root_files n) (root_files n');
  reload_writes_nothing : forall n, root_files (execute_command DAEMON_RELOAD n).2 = root_files n;
  start_writes_nothing : forall again n, root_files (execute_command (systemctl_command (start_verb again) (unit_name application_id)) n).2 = root_files n;
}.

(** The command lines of a start, in their order: they hold the id of the application and nothing else of it. *)
Definition start_commands (application_id : N) (environment again : bool) : list (list Z) :=
  let unit := unit_name application_id in
  (if environment then [prepare_environment (env_path unit); tee (env_path unit)] else []) ++
  [prepare_unit (unit_path unit); tee (unit_path unit); DAEMON_RELOAD; systemctl_command (start_verb again) unit].

(** Only the application's two files are touched, and what comes into the
    environment file only root can read. *)
Record spared (application_id : N) (f f' : RootFiles) : Prop := mkSpared {
  spared_others : forall path, path <> unit_path (unit_name application_id) -> path <> env_path (unit_name application_id) -> f' !! path = f !! path;
  spared_secrets : f' !! env_path (unit_name application_id) = f !! env_path (unit_name application_id) \/
    match f' !! env_path (unit_name application_id) with Some (mode, contents) => mode = 384 \/ contents = [] | None => True end;
}.

Definition has_environment (ctx : SystemdContext) : bool := match ctx.(sx_environment) with [] => false | _ => true end.
Definition begin {Node} `{Connection Node} `{CommandInput Node} (ctx : SystemdContext) (again : bool) : F Node unit := if again then unit_restart ctx else unit_start ctx.

(** *** The steps *)

Section start.
Context {Node : Type} (application_id : N) `{UnitHost Node application_id} (f0 : RootFiles) (c0 plan : list (list Z)).

Let unit : list Z := unit_name application_id.

(** The files as they are, after the first commands of the plan. *)
Definition at_step (l : list (list Z)) (f : RootFiles) (n : Node) : Prop := root_files n = f /\ command_lines n = c0 ++ l.
Definition ended (n : Node) : Prop := spared application_id f0 (root_files n) /\ exists l, command_lines n = c0 ++ l /\ l `prefix_of` plan.

Lemma paths_differ : unit_path unit <> env_path unit.
Proof. unfold unit_path, env_path, UNIT_PATH_PREFIX, ENV_DIR. intros E. by apply (f_equal (fun l => nth 5 l 0)) in E. Qed.
Lemma spared_refl : spared application_id f0 f0.
Proof. split; [done|by left]. Qed.
Lemma spared_unit (f f' : RootFiles) : spared application_id f0 f -> delete (unit_path unit) f' = delete (unit_path unit) f -> spared application_id f0 f'.
Proof.
  intros [Ho Hs] Hd. assert (Heq : forall path, path <> unit_path unit -> f' !! path = f !! path).
  { intros path Hp. by rewrite <- (lookup_delete_ne f' (unit_path unit)), <- (lookup_delete_ne f (unit_path unit)), Hd by done. }
  split; [intros path Hu He; rewrite Heq by done; by apply Ho|]. fold unit. rewrite Heq by (apply not_eq_sym, paths_differ). exact Hs.
Qed.
Lemma spared_environment (f f' : RootFiles) : spared application_id f0 f -> delete (env_path unit) f' = delete (env_path unit) f ->
  f' !! env_path unit = f !! env_path unit \/ match f' !! env_path unit with Some (mode, contents) => mode = 384 \/ contents = [] | None => True end -> spared application_id f0 f'.
Proof.
  intros [Ho Hs] Hd He. split.
  - intros path Hu Hp. rewrite <- (Ho path Hu Hp). fold unit in Hp. by rewrite <- (lookup_delete_ne f' (env_path unit)), <- (lookup_delete_ne f (env_path unit)), Hd by done.
  - fold unit in Hs |- *. destruct He as [E|He]; [rewrite E; exact Hs|by right].
Qed.
Lemma installed_elsewhere (mode : Z) (path : list Z) (done_ : bool) (f f' : RootFiles) : installed mode path done_ f f' -> delete path f' = delete path f.
Proof. unfold installed. destruct done_; [intros ->; apply delete_insert_eq|]. intros [-> | [-> | [m ->]]]; [done|by rewrite delete_delete_eq|apply delete_insert_eq]. Qed.
Lemma overwritten_elsewhere (path contents : list Z) (done_ : bool) (f f' : RootFiles) : overwritten path contents done_ f f' -> delete path f' = delete path f.
Proof. unfold overwritten. destruct (f !! path) as [[m k]|]; [|done]. destruct done_; [intros ->; apply delete_insert_eq|]. intros [-> | [part ->]]; [done|apply delete_insert_eq]. Qed.

(** A command of the plan: it is noted, and the run goes on where it ended well. *)
Lemma spec_checked {A : Type} (l : list (list Z)) (f : RootFiles) (command : list Z) (step : F Node CommandOutput) (fail : CommandOutput -> AppError) (effect : bool -> RootFiles -> RootFiles -> Prop)
  (next : F Node A) (Q : result AppError A -> Node -> Prop) :
  (step = run_command command /\ (forall n r n', execute_command command n = (r, n') -> effect (ended_well r) (root_files n) (root_files n'))) \/
  (exists input, step = run_with_input command input /\ (forall n r n', execute_with_input command input n = (r, n') -> effect (ended_well r) (root_files n) (root_files n'))) ->
  (forall done_ f', effect done_ f f' -> spared application_id f0 f') -> l ++ [command] `prefix_of` plan ->
  (forall e n, ended n -> Q (Err e) n) ->
  (forall f', effect true f f' -> spec (at_step (l ++ [command]) f') next Q) ->
  spec (at_step l f) (bind step (fun output => if negb (output.(exit_code) =? 0) then throw (fail output) else next)) Q.
Proof.
  intros Hstep Hspared Hplan Hfail Hnext s [Hf Hc]. unfold bind.
  assert (Hrun : exists r n', step s = (match r with Ok out => Ok out | Err m => Err (Transport m) end, mkFw n' s.(fw_verified) s.(fw_uuid)) /\
    effect (ended_well r) (root_files s.(fw_node)) (root_files n') /\ command_lines n' = command_lines s.(fw_node) ++ [command]).
  { destruct Hstep as [[-> He] | (input & -> & He)].
    - unfold run_command. destruct (execute_command command (fw_node s)) as [r n'] eqn:E. exists r, n'. split_and!; [done|by apply He|by eapply command_noted].
    - unfold run_with_input. destruct (execute_with_input command input (fw_node s)) as [r n'] eqn:E. exists r, n'. split_and!; [done|by apply He|by eapply input_noted]. }
  destruct Hrun as (r & n' & -> & He & Hn). rewrite Hf in He. rewrite Hc, <- app_assoc in Hn.
  assert (Hended : ended n') by (split; [by eapply Hspared|by exists (l ++ [command])]).
  destruct r as [out|m]; cbn [ended_well] in He; [|by apply Hfail]. destruct (exit_code out =? 0) eqn:Hx; cbn [negb]; [|by apply Hfail]. by apply (Hnext (root_files n')).
Qed.

(** Writing a file that was just installed. *)
Lemma spec_write_as_root (l : list (list Z)) (f : RootFiles) (path contents : list Z) (mode : Z) : path = unit_path unit \/ (path = env_path unit /\ mode = 384) ->
  spared application_id f0 f -> f !! path = Some (mode, []) -> l ++ [tee path] `prefix_of` plan ->
  spec (at_step l f) (write_as_root path contents) (fun r n => match r with Ok _ => at_step (l ++ [tee path]) (<[path := (mode, contents)]> f) n | Err _ => ended n end).
Proof.
  intros Hpath Hs Hf Hplan. unfold write_as_root. apply (spec_checked l f (tee path) _ _ (overwritten path contents)); [| |done|done|].
  - right. exists contents. split; [done|]. intros n r n' E. destruct Hpath as [-> | [-> _]]; [by eapply unit_teed|by eapply environment_teed].
  - intros done_ f' Ho. pose proof (overwritten_elsewhere _ _ _ _ _ Ho) as Hd. destruct Hpath as [-> | [-> ->]]; [by eapply spared_unit|]. eapply spared_environment; [done|done|].
    unfold overwritten in Ho. rewrite Hf in Ho. destruct done_; [subst f'; rewrite lookup_insert_eq; tauto|]. destruct Ho as [-> | [part ->]]; [by left|]. rewrite lookup_insert_eq. tauto.
  - intros f' Ho. unfold overwritten in Ho. rewrite Hf in Ho. subst f'. by apply spec_ret.
Qed.
Definition environment_bytes (ctx : SystemdContext) : list Z := utf8 (environment_contents ctx.(sx_environment)).
Lemma spec_environment (ctx : SystemdContext) : [prepare_environment (env_path unit); tee (env_path unit)] `prefix_of` plan ->
  spec (at_step [] f0) (write_environment_file unit ctx.(sx_environment)) (fun r n => match r with
    | Ok _ => at_step [prepare_environment (env_path unit); tee (env_path unit)] (<[env_path unit := (384, environment_bytes ctx)]> f0) n | Err _ => ended n end).
Proof.
  intros Hplan. unfold write_environment_file. apply (spec_checked [] f0 (prepare_environment (env_path unit)) _ _ (installed 384 (env_path unit))); [| | |done|].
  - left. split; [done|]. apply environment_installed.
  - intros done_ f' Hi. eapply spared_environment; [apply spared_refl|by eapply installed_elsewhere|]. unfold installed in Hi.
    destruct done_; [subst f'; rewrite lookup_insert_eq; tauto|]. destruct Hi as [-> | [-> | [m ->]]]; [by left|rewrite lookup_delete_eq; tauto|rewrite lookup_insert_eq; tauto].
  - cbn [app]. etrans; [|exact Hplan]. by exists [tee (env_path unit)].
  - intros f' Hi. cbn in Hi. subst f'. eapply spec_conseq; [eapply (spec_write_as_root _ _ _ _ 384)|done|]; [tauto| | | |].
    + eapply spared_environment; [apply spared_refl|apply delete_insert_eq|]. rewrite lookup_insert_eq. tauto.
    + apply lookup_insert_eq.
    + exact Hplan.
    + intros [?|?] n; [|done]. unfold environment_bytes. by rewrite insert_insert_eq.
Qed.
(** The unit file, the reload and the start, once the environment is there. *)
Lemma spec_unit_file (again : bool) (l : list (list Z)) (f : RootFiles) (unit_file : list Z) : spared application_id f0 f ->
  plan = l ++ [prepare_unit (unit_path unit); tee (unit_path unit); DAEMON_RELOAD; systemctl_command (start_verb again) unit] ->
  spec (at_step l f)
    (prepare <- run_command (prepare_unit (unit_path unit)) ;;
     if negb (prepare.(exit_code) =? 0) then throw (ConnectionFailed (lit "couldn't create the unit file: " ++ trim prepare.(stderr)))
     else write_as_root (unit_path unit) (utf8 unit_file) ;;; run_daemon_reload ;;; ret unit)
    (fun r n => match r with Ok u => at_step (l ++ [prepare_unit (unit_path unit); tee (unit_path unit); DAEMON_RELOAD]) (<[unit_path unit := (420, utf8 unit_file)]> f) n /\ u = unit | Err _ => ended n end).
Proof.
  intros Hf Hplan. assert (Hpre : forall a b, [prepare_unit (unit_path unit); tee (unit_path unit); DAEMON_RELOAD; systemctl_command (start_verb again) unit] = a ++ b -> l ++ a `prefix_of` plan).
  { intros a b E. rewrite Hplan, E, app_assoc. by exists b. }
  apply (spec_checked l f (prepare_unit (unit_path unit)) _ _ (installed 420 (unit_path unit))); [| |by eapply (Hpre [_])|done|].
  - left. split; [done|]. apply unit_installed.
  - intros done_ f' Hi. eapply spared_unit; [done|by eapply installed_elsewhere].
  - intros f' ->.
    assert (Hs : forall k, spared application_id f0 (<[unit_path unit := k]> f)) by (intros k; eapply spared_unit; [done|apply delete_insert_eq]).
    eapply spec_bind with (R := fun _ => at_step (l ++ [prepare_unit (unit_path unit); tee (unit_path unit)]) (<[unit_path unit := (420, utf8 unit_file)]> f)).
    { eapply spec_conseq; [eapply (spec_write_as_root _ _ _ _ 420)|done|]; [by left|apply Hs|apply lookup_insert_eq|rewrite <- app_assoc; by eapply (Hpre [_; _])|].
      intros [?|?] n; [|done]. rewrite insert_insert_eq, <- app_assoc. done. }
    intros _. unfold run_daemon_reload. eapply spec_bind with (R := fun _ => at_step (l ++ [prepare_unit (unit_path unit); tee (unit_path unit); DAEMON_RELOAD]) (<[unit_path unit := (420, utf8 unit_file)]> f)).
    { apply (spec_checked _ (<[unit_path unit := (420, utf8 unit_file)]> f) DAEMON_RELOAD _ _ (fun _ f f' => f' = f)); [| | |done|].
      - left. split; [done|]. intros n r n' E. pose proof (reload_writes_nothing (application_id := application_id) n) as Hr. by rewrite E in Hr.
      - intros _ f' ->. apply Hs.
      - rewrite <- app_assoc. by eapply (Hpre [_; _; _]).
      - intros f' ->. apply spec_ret. by rewrite <- app_assoc. }
    intros _. by apply spec_ret.
Qed.
Lemma spec_started (again : bool) (l : list (list Z)) (f : RootFiles) : spared application_id f0 f -> plan = l ++ [systemctl_command (start_verb again) unit] ->
  spec (at_step l f) (run_systemctl (start_verb again) unit) (fun r n => match r with Ok _ => root_files n = f /\ ended n | Err _ => ended n end).
Proof.
  intros Hf Hplan. assert (Hpre : forall k, k `prefix_of` plan -> forall n, at_step k f n -> ended n) by (intros k Hk n [Hn Hc]; split; [by rewrite Hn|by exists k]).
  unfold run_systemctl. eapply spec_bind with (R := fun _ => at_step l f).
  { apply spec_from_result. intros n Hn. destruct (validate_unit_name unit); [done|]. apply (Hpre l); [rewrite Hplan; by eexists|done]. }
  intros _. apply (spec_checked l f (systemctl_command (start_verb again) unit) _ _ (fun _ f f' => f' = f)); [| | |done|].
  - left. split; [reflexivity|]. intros n r n' E. pose proof (start_writes_nothing (application_id := application_id) again n) as Hr. fold unit in Hr. by rewrite E in Hr.
  - by intros _ f' ->.
  - by rewrite Hplan.
  - intros f' ->. apply spec_ret. intros n Hn. split; [apply Hn|]. eapply Hpre; [|exact Hn]. by rewrite Hplan.
Qed.
End start.

(** What a start that ends well leaves: systemd reads both files as they were meant. *)
Definition written_as_meant (ctx : SystemdContext) (f : RootFiles) : Prop :=
  (forall config, ctx.(sx_config) = Ok config -> tidy ctx.(sx_name) -> tidy ctx.(sx_working_directory) -> absolute ctx.(sx_working_directory) = true -> startable config ->
    match config.(sc_memory_limit_mb) with Some mb => 0 <= mb < 4294967296 | None => True end ->
    exists text, f !! unit_path (unit_name ctx.(sx_id)) = Some (420, utf8 text) /\ read_service text = Some (intended ctx config)) /\
  (has_environment ctx = true -> Forall (fun env => env_plain env.(ev_value) = true) ctx.(sx_environment) ->
    exists text, f !! env_path (unit_name ctx.(sx_id)) = Some (384, utf8 text) /\
      read_environment PreKey text = map (fun env => (env.(ev_key), env.(ev_value))) ctx.(sx_environment)).

Section run.
Context {Node : Type} (ctx : SystemdContext) `{UnitHost Node (sx_id ctx)} (again : bool) (f0 : RootFiles) (c0 : list (list Z)).

Let plan : list (list Z) := start_commands ctx.(sx_id) (has_environment ctx) again.
Let environment_commands : list (list Z) := if has_environment ctx then [prepare_environment (env_path (unit_name ctx.(sx_id))); tee (env_path (unit_name ctx.(sx_id)))] else [].
Let with_environment : RootFiles := if has_environment ctx then <[env_path (unit_name ctx.(sx_id)) := (384, environment_bytes ctx)]> f0 else f0.
Let finished (n : Node) : Prop := ended ctx.(sx_id) f0 c0 plan n.

Lemma ended_before (n : Node) : at_step ctx.(sx_id) c0 [] f0 n -> finished n.
Proof. intros [Hf Hc]. split; [rewrite Hf; apply spared_refl|]. exists []. split; [done|]. by exists plan. Qed.
Lemma spared_with_environment : spared ctx.(sx_id) f0 with_environment.
Proof.
  unfold with_environment. destruct (has_environment ctx); [|apply spared_refl]. eapply spared_environment; [apply spared_refl|apply delete_insert_eq|]. rewrite lookup_insert_eq. tauto.
Qed.
Lemma spec_write_unit (config : SystemdConfig) : spec (at_step ctx.(sx_id) c0 [] f0) (write_unit ctx config) (fun r n => match r with
  | Ok u => (exists text, render_unit_file ctx config = Ok text /\
      at_step ctx.(sx_id) c0 (environment_commands ++ [prepare_unit (unit_path u); tee (unit_path u); DAEMON_RELOAD]) (<[unit_path u := (420, utf8 text)]> with_environment) n) /\ u = unit_name ctx.(sx_id)
  | Err _ => finished n end).
Proof.
  unfold write_unit. eapply spec_bind with (R := fun _ => at_step ctx.(sx_id) c0 [] f0).
  { apply spec_from_result. intros n Hn. destruct (validate_unit_name _); [done|by apply ended_before]. }
  intros _. destruct (render_unit_file ctx config) as [text|e] eqn:Er; [|by apply spec_throw, ended_before]. cbn [from_result].
  eapply spec_bind with (R := fun u => fun n => at_step ctx.(sx_id) c0 [] f0 n /\ u = text); [by apply spec_ret|]. intros u. apply spec_pure. intros ->.
  eapply spec_bind with (R := fun _ => at_step ctx.(sx_id) c0 environment_commands with_environment).
  { unfold finished, environment_commands, with_environment. pose proof (spec_environment (sx_id ctx) f0 c0 plan ctx) as He. unfold plan, start_commands, has_environment in He |- *.
    destruct (sx_environment ctx) as [|env environment]; [by apply spec_ret|]. apply He. by eexists. }
  intros _. eapply spec_conseq; [apply (spec_unit_file (sx_id ctx) f0 c0 plan again); [apply spared_with_environment|done]|done|]. intros [u|e] n; [|done]. intros [Hn ->]. split; [|done]. by exists text.
Qed.
Lemma spec_begin : spec (at_step ctx.(sx_id) c0 [] f0) (begin ctx again) (fun r n => finished n /\ (r = Ok tt -> written_as_meant ctx (root_files n))).
Proof.
  assert (Hstart : spec (at_step ctx.(sx_id) c0 [] f0) (connection_ref ctx ;;; config <- unit_config ctx ;; unit <- write_unit ctx config ;; run_systemctl (start_verb again) unit)
    (fun r n => finished n /\ (r = Ok tt -> written_as_meant ctx (root_files n)))); [|by destruct again].
  eapply spec_bind with (R := fun _ => at_step ctx.(sx_id) c0 [] f0).
  { unfold connection_ref. destruct (sx_remote ctx); [by apply spec_ret|]. apply spec_throw. intros n Hn. split; [by apply ended_before|done]. }
  intros _. eapply spec_bind with (R := fun config => fun n => at_step ctx.(sx_id) c0 [] f0 n /\ sx_config ctx = Ok config).
  { unfold unit_config. destruct (sx_config ctx) as [config|e]; [by apply spec_ret|]. apply spec_throw. intros n Hn. split; [by apply ended_before|done]. }
  intros config. apply spec_pure. intros Hconfig. eapply spec_bind with (R := fun u => fun n => (exists text, render_unit_file ctx config = Ok text /\
      at_step ctx.(sx_id) c0 (environment_commands ++ [prepare_unit (unit_path u); tee (unit_path u); DAEMON_RELOAD]) (<[unit_path u := (420, utf8 text)]> with_environment) n) /\ u = unit_name ctx.(sx_id)).
  { eapply spec_conseq; [apply spec_write_unit|done|]. intros [u|e] n; [done|]. intros Hn. by split. }
  intros u. apply spec_pure. intros ->. intros s (text & Hr & Hn).
  assert (Hs : spared ctx.(sx_id) f0 (<[unit_path (unit_name ctx.(sx_id)) := (420, utf8 text)]> with_environment)) by (eapply spared_unit; [apply spared_with_environment|apply delete_insert_eq]).
  pose proof (spec_started (sx_id ctx) f0 c0 plan again (environment_commands ++ [prepare_unit (unit_path (unit_name ctx.(sx_id))); tee (unit_path (unit_name ctx.(sx_id))); DAEMON_RELOAD]) _ Hs
    ltac:(by rewrite <- app_assoc) s Hn) as He.
  destruct (run_systemctl (start_verb again) _ s) as [[[]|e] s']; cbn [fst snd] in He |- *; [|by split]. destruct He as [Hf He]. split; [done|]. intros _. rewrite Hf. split.
  - intros config' Hc' Hname Hdir Habs Hst Hmb. rewrite Hconfig in Hc'. apply Ok_inj in Hc' as <-. exists text. split; [apply lookup_insert_eq|by apply unit_file_reads_back].
  - intros Henv Hplain. exists (environment_contents (sx_environment ctx)). split.
    + rewrite lookup_insert_ne by apply paths_differ. unfold with_environment. rewrite Henv. apply lookup_insert_eq.
    + apply environment_reads_back; [|done]. by eapply rendered_environment.
Qed.
End run.


(** *** A Node *)

Module Sample.
(** A Node that answers a number of commands, then never again. *)
Record UnitNode : Type := mkUnitNode { un_files : RootFiles; un_commands : list (list Z); un_left : nat }.
Definition config : SystemdConfig := mkSystemdConfig (lit "/usr/bin/java") [lit "-Dname=a b"; [34; 92]; lit "100%"; []] (Some 512) (Some (S754_finite false 12582912 (-23))).
Definition application : SystemdContext := mkSystemdContext 7%N (lit "My 50% App") (lit "/srv/my app") (Ok config) [mkEnv (lit "PASSWORD") (lit "s3cret $x") true] true.
Definition unit : list Z := unit_name 7%N.
Definition answer (n : UnitNode) (command : list Z) (f : RootFiles) : result (list Z) CommandOutput * UnitNode :=
  match n.(un_left) with
  | O => (Err (lit "connection lost"), mkUnitNode n.(un_files) (n.(un_commands) ++ [command]) O)
  | S left_ => (Ok (mkOutput 0 [] []), mkUnitNode f (n.(un_commands) ++ [command]) left_)
  end.
Definition execute (command : list Z) (n : UnitNode) : result (list Z) CommandOutput * UnitNode :=
  answer n command
    (if str_eqb command (prepare_environment (env_path unit)) then <[env_path unit := (384, [])]> n.(un_files)
     else if str_eqb command (prepare_unit (unit_path unit)) then <[unit_path unit := (420, [])]> n.(un_files) else n.(un_files)).
Definition feed (path contents : list Z) (f : RootFiles) : RootFiles := match f !! path with Some (mode, _) => <[path := (mode, contents)]> f | None => <[path := (420, contents)]> f end.
Definition execute_input (command contents : list Z) (n : UnitNode) : result (list Z) CommandOutput * UnitNode :=
  answer n command
    (if str_eqb command (tee (env_path unit)) then feed (env_path unit) contents n.(un_files)
     else if str_eqb command (tee (unit_path unit)) then feed (unit_path unit) contents n.(un_files) else n.(un_files)).
#[global] Instance node_connection : Connection UnitNode := {| execute_command := execute; write_file := fun _ _ n => (Ok tt, n); session_id := fun _ => 1%N |}.
#[global] Instance node_input : CommandInput UnitNode := {| execute_with_input := execute_input |}.
Lemma answer_noted (n n' : UnitNode) command f r : answer n command f = (r, n') -> un_commands n' = un_commands n ++ [command].
Proof. unfold answer. by destruct (un_left n); intros [= <- <-]. Qed.
Lemma answer_files (n n' : UnitNode) command f r : answer n command f = (r, n') -> un_files n' = if ended_well r then f else un_files n.
Proof. unfold answer. by destruct (un_left n); intros [= <- <-]. Qed.
Lemma fed (path contents : list Z) (f : RootFiles) (done_ : bool) : overwritten path contents done_ f (if done_ then feed path contents f else f).
Proof. unfold overwritten, feed. destruct (f !! path) as [[m k]|]; destruct done_; auto. apply delete_insert_eq. Qed.
Lemma told_apart :
  (str_eqb (prepare_environment (env_path unit)) (prepare_environment (env_path unit)) = true /\ str_eqb (prepare_unit (unit_path unit)) (prepare_environment (env_path unit)) = false /\
   str_eqb (prepare_unit (unit_path unit)) (prepare_unit (unit_path unit)) = true) /\
  (str_eqb (tee (env_path unit)) (tee (env_path unit)) = true /\ str_eqb (tee (unit_path unit)) (tee (env_path unit)) = false /\ str_eqb (tee (unit_path unit)) (tee (unit_path unit)) = true) /\
  (forall command, command ∈ [DAEMON_RELOAD; systemctl_command (lit "restart") unit; systemctl_command (lit "enable --now") unit] ->
   str_eqb command (prepare_environment (env_path unit)) = false /\ str_eqb command (prepare_unit (unit_path unit)) = false).
Proof.
  split; [vm_compute; auto|]. split; [vm_compute; auto|]. intros command Hc. rewrite !elem_of_cons, elem_of_nil in Hc. destruct Hc as [-> | [-> | [-> | []]]]; vm_compute; auto.
Qed.
Lemma quiet (command : list Z) (n : UnitNode) : command ∈ [DAEMON_RELOAD; systemctl_command (lit "restart") unit; systemctl_command (lit "enable --now") unit] -> un_files (execute command n).2 = un_files n.
Proof. intros Hc. unfold execute. destruct told_apart as (_ & _ & Hq). destruct (Hq _ Hc) as [-> ->]. unfold answer. by destruct (un_left n). Qed.
#[global, refine] Instance node_host : UnitHost UnitNode 7%N := {| root_files := un_files; command_lines := un_commands |}.
Proof.
  all: change (unit_name 7%N) with unit; destruct told_apart as ((He & Hu & Hu') & (Ht & Hf & Hf') & _).
  - intros command n r n' E. exact (answer_noted _ _ _ _ _ E).
  - intros command input n r n' E. exact (answer_noted _ _ _ _ _ E).
  - intros n r n' E. apply answer_files in E. rewrite E, He. unfold installed. by destruct (ended_well r); [|left].
  - intros n r n' E. apply answer_files in E. rewrite E, Hu, Hu'. unfold installed. by destruct (ended_well r); [|left].
  - intros contents n r n' E. apply answer_files in E. rewrite E, Ht. apply fed.
  - intros contents n r n' E. apply answer_files in E. rewrite E, Hf, Hf'. apply fed.
  - intros n. apply quiet, elem_of_cons. by left.
  - intros again n. apply quiet, elem_of_cons. right. apply elem_of_cons. destruct again; [by left|]. right. apply elem_of_cons. by left.
Defined.
Definition fresh (answers : nat) : FwState UnitNode := mkFw (mkUnitNode ∅ [] answers) ∅ 0%N.
End Sample.

